(* ===== verification/_CoqProject ===== *)
-Q . S2P
Prelude.v
IoStream.v
MixFunc.v
AudioConf.v
TimeList.v
CList.v
SlotAlloc.v
Tiling.v
PoolAlloc.v
ShmAlloc.v
HashTable.v
EpCore.v
AbsTimer.v
TokenPool.v
MetaBuffer.v
Rtp.v
Holder.v
Sender.v
Poller.v
VideoConf.v
Waiting.v
Compound.v
GenTone.v
WallClock.v
Doubles.v
CJson.v
JsonTree.v
JsonClient.v
JsonTotal.v
JsonTypes.v
RefBase.v
VectorImpl.v
VectorRefine.v
VectorSort.v
VectorClient.v
SortedVector.v
VectorFaults.v
Unicode.v
UnicodeText.v
UnicodeConv.v
String8.v
String8Refine.v
String8Path.v
String8Client.v
String8Faults.v
PollerInit.v
Transport.v
TransportClient.v
TransportFaults.v
ToneGene.v
