(* ===== verification/Prelude.v ===== *)
(** * MCUProxy: a verification development

    MCUProxy is a multipoint-conference proxy in C and C++: a kit of data
    structures and an epoll loop ([src/libckits]), media buffers and tones
    ([src/libaux]), RTP transport and timers ([src/libnet]), and the audio and
    video conference ([src/libconf]).  [src/server] and [src/libproxy] are class
    outlines without code, [src/system] is vendored Android platform code,
    of which the reference counts, the vectors and the strings are modelled.

    ** Layout

    This file: machine integers with their wrap-around ([wrapu], [wraps] and
    the abbreviations [u32], [s16], ...), bytes and C strings, storing into and
    loading from an object ([store], [load]; [None] is an access outside it),
    and the tactics and list lemmas that the components share.

    - [IoStream] ([libckits/ioStream.c]): the bounded text stream.
    - [MixFunc] ([libconf/mixfunc.c]) and [AudioConf]
      ([libconf/AudioConfMix.cpp]): the sample arithmetic, and the conference
      that is built on it (members, one turn of the mixing thread).
    - [TimeList] ([libckits/timeList.c]): the delta queue of timers.
    - [CList] ([libckits/include/list.h]): intrusive lists over a heap of links,
      and the class [IntrusiveList] that says what the other components may
      rely on.  [SlotAlloc] ([libckits/myAlloc.c], slots) is proved against it.
    - [Tiling], [PoolAlloc] ([libckits/myAlloc.c], pools) and [ShmAlloc]
      ([libckits/shmAlloc.c]): the allocators of variable blocks; [Tiling] is
      the view of a chunk as adjacent blocks that both proofs use.
    - [HashTable] ([libckits/hashTable.c]): chained hash tables.
    - [EpCore] ([libckits/epCore.c]): the event loop, composed of [TimeList],
      [SlotAlloc] and [CList]; user callbacks are a reaction function that may
      call back into the loop's interface.
    - [AbsTimer] ([libnet/absTimerList.cpp]): the queue of absolute deadlines,
      sequentially and as interleaved critical sections.
    - [TokenPool] and [MetaBuffer] ([libaux]): interned names, and media
      buffers whose named fields are keyed by them.
    - [Rtp] ([libnet/Transport.cpp], [libnet/RTPTransport.cpp]): building and
      parsing RTP, RTCP and STUN packets in a [MetaBuffer].
    - [Holder] ([libnet/SocketHolder.cpp]): the table from descriptors to
      transports.  [Sender] ([libnet/Sender.cpp]): delivery to transports and
      the paced sending thread, with the stack frame whose variables it overruns.
      [Poller] ([libnet/Poller.cpp]): the thread that
      waits for events and deadlines, composed of [Holder] and [AbsTimer], with
      handlers that call back; the calls of other threads come between its
      critical sections.
    - [VideoConf] ([libconf/VideoConfMix.cpp]), [Waiting]
      ([libconf/WaitingRoom.cpp], [libconf/MOHPlayer.cpp]): the other two
      conferences.  [Compound] ([libconf/CompoundMix.cpp]) joins an audio and a
      video conference; it is proved against the class [ConfMix], of which
      [AudioConf] and [VideoConf] are instances.
    - [PollerInit] (the start and the end of the poller, [libnet/Poller.cpp]) and
      [Transport] ([libnet/Transport.cpp]): making, using and closing sockets.
      [TransportClient] has any client of the transports between turns of the
      poller, [TransportFaults] the runs that go wrong.
    - [GenTone] ([libaux/gentone.c]), [ToneGene] ([libaux/ToneGene.cpp], on
      [GenTone]), [WallClock] ([libckits/wallClock.c]).
    - [CJson], [JsonTotal], [JsonTypes], [JsonTree], [JsonClient]
      ([libckits/cJSON.c]): the parser and printer on trees as values, with
      numbers as binary floating point ([Doubles] has the lemmas about integers
      that are doubles); that the parser returns; what it builds; the items in
      memory and the operations on them; the operations that allocate and what
      a client of the whole interface can rely on.
    - [RefBase] ([system/libutils/RefBase.cpp]): strong and weak reference
      counts as interleaved atomic steps of any number of threads.
    - [VectorImpl] ([system/libutils/VectorImpl.cpp], [SharedBuffer.cpp],
      [utils/TypeHelpers.h]): vectors that share buffers and copy them before
      they change, for items with any traits.  [VectorRefine] has the lemmas about
      counted buffers and one for each operation, [VectorSort] those about
      sorting, [VectorClient] a client of any number of vectors, [VectorFaults]
      the runs that go wrong.  [SortedVector] ([utils/KeyedVector.h] too): binary
      search, and vectors of pairs as maps.
    - [Unicode] ([system/libutils/Unicode.cpp]): wide strings and the conversions
      between UTF-8, UTF-16 and UTF-32.  [UnicodeText] defines well-formed text
      and has a lemma for each conversion, [UnicodeConv] the theorems about
      lengths, round trips and checking, and the texts that go wrong.
    - [String8] ([system/libutils/String8.cpp]): strings in shared buffers, on
      [VectorImpl]'s memory and [Unicode]'s conversions.  [String8Refine] and
      [String8Path] have a lemma for each operation, [String8Client] a client of
      any number of strings, [String8Faults] the runs that go wrong.

    Each operation of the source is a definition of the same name where Rocq
    allows it.  An object is a record, its heap a list of bytes or a finite map
    from addresses; undefined behaviour (an access outside an object, a stale
    pointer, an uninitialised variable that decides something) is [None] or, in
    [CJson], [Fault], so that a theorem that an operation answers [Some] is a
    safety statement.  The environment (clock, allocation, socket and epoll
    results, text formatted by the C library) is an argument.

    ** What is shown

    - Safety: clients of the three allocators never get overlapping or
      out-of-chunk blocks ([pool_clients_safe], [shm_clients_safe],
      [slot_clients_disjoint]) and freeing restores the free space
      ([pool_all_free]); the event loop conserves its slots
      ([ep_slots_conserved]) and its turn never faults ([epAction_turn_ok]), nor
      does the poller's ([turn_safe]) or a round of the video conference
      ([video_round_safe]); RTP, RTCP and text input of any content is accepted
      without leaving the buffer ([receive_total], [parseRTCP_total],
      [run_safe], a lemma of [IoStream]); timer units are owned exactly once under any interleaving
      ([events_owned_once]), and no interleaving of reference counting touches
      a deleted object or deletes too late ([refbase_safe],
      [refbase_lifetime]).
    - Liveness: timers fire when due and in order ([drain_fires_in_order],
      [ep_timer_fires]); no wake-up of the poller is lost
      ([no_lost_wakeup]); what is delivered reaches the wire
      ([delivered_reach_wire]).
    - Functional behaviour: N-1 mixing gives every node the saturated sum of the
      others ([fastmix_sub_amp_others], [turn_mixes]); the video round and the
      waiting room serve every client ([video_round_mixes],
      [room_hears_music]); compound RTCP packets are taken apart as RFC 3550
      says ([parseRTCP_compound]); tones stream across calls
      ([GenDtmf_streams], in [GenTone]), so that the frames of a script are its
      cadences in order ([tones_play_schedule]); duplicating a JSON tree is a deep copy or leaves
      memory as it was ([duplicate_is_deep_copy], in [JsonClient]); sorting a
      vector is stable ([sort_sorts]).
    - Refinement: intrusive lists implement sequences ([list_ops_refine]), the
      hash table, the buffer's fields and the socket table implement finite maps
      ([hash_refines_map], [fields_refine_map], [holder_refines_map]), the token
      pool implements equality of names ([atomize_interns]), a compound
      conference is the pair of its parts ([compound_is_pair]), the item
      interface of cJSON works on values, leaking nothing
      ([json_client_safe]), vectors that share buffers behave as separate lists
      ([vectors_are_values]), a keyed vector is a finite map
      ([keyed_refines_map]), and strings that share buffers behave as separate
      byte lists, path names included ([strings_are_values]).
    - Bounds: converting text writes exactly as much as was announced, also
      where the text is not valid ([announced_is_written]), and text that was checked is converted within its
      buffers ([utf8_accepted_converts]).
    - Types: whatever the JSON parser accepts is a well-typed tree
      ([parse_well_typed]).
    - Resources: descriptors are accounted for from the start of the poller to
      its end ([sockets_accounted]).
    - Round trips: JSON texts and strings, duplication and deletion,
      shared-memory offsets, RTP packets from sender to receiver, characters
      between UTF-8, UTF-16 and UTF-32 ([unicode_roundtrip]).
    - Errors: what the code does where it goes wrong is stated too, by a theorem
      about STUN responses ([stun_response_overruns]) and, outside the numbered
      properties, by lemmas next to the definition concerned, such as
      [refbase_first_promotion_races] and the files [VectorFaults] and
      [String8Faults].

    ** Bounds and fuel

    Loops that are not structural carry fuel.  [pool_free]'s combining loop has
    the length of the free list and takes one block off it per round;
    [malloc_loop] in [ShmAlloc] needs two rounds; [rtcp_loop] has the packet's
    size and uses at least four bytes a round; [stun_attrs] has 16384 rounds,
    more than the buffer has eight-byte steps ([stun_attrs_fuel]); the parser of
    [CJson] has twice the length of the text; the poller's search for a
    descriptor has one round more than there are transports; the walks of
    [JsonTree] have the number of items in memory, duplication twice that; binary
    search has the number of items, and moving an item down while sorting its
    place; the conversions of [Unicode] have the number of units, each round
    taking at least one, and eight rounds for the leading ones of a byte; reading
    a C string has one round more than its object has bytes.  Each is shown sufficient by the theorem that the operation answers.

    ** Not modelled

    Floating-point computations other than those of cJSON ([get_tone_ceff], the
    NTP fraction; number formatting is a parameter with its laws); printing and
    dumps that only print; opening and closing files, starting and stopping
    threads; creating the RTCP transport; the factory of conferences; [FastMemory],
    which is only an outline; assembly; the other vendored code (16-bit strings,
    hash maps, logging, properties, time zones).  The path separator of [String8]
    is not defined in the repository and is a parameter; [SharedBuffer]'s [edit]
    and [reset] have no caller in the modelled parts. *)

From stdpp Require Export base tactics numbers list gmap sorting.
From Stdlib Require Export ZArith Lia.

#[global] Open Scope Z_scope.

(** ** Machine integers

    A [w]-bit unsigned integer is a [Z] in [0, 2^w); a [w]-bit signed one is a
    [Z] in [-2^(w-1), 2^(w-1)).  [wrapu] and [wraps] are the conversions C
    performs when a wider value is stored in such an object (two's
    complement). *)
Definition wrapu (w x : Z) : Z := x mod 2 ^ w.
Definition wraps (w x : Z) : Z := (x + 2 ^ (w - 1)) mod 2 ^ w - 2 ^ (w - 1).

Definition in_u (w x : Z) : Prop := 0 <= x < 2 ^ w.
Definition in_s (w x : Z) : Prop := - 2 ^ (w - 1) <= x < 2 ^ (w - 1).

Abbreviation u8 := (wrapu 8).
Abbreviation u16 := (wrapu 16).
Abbreviation u32 := (wrapu 32).
Abbreviation u64 := (wrapu 64).
Abbreviation s8 := (wraps 8).
Abbreviation s16 := (wraps 16).
Abbreviation s32 := (wraps 32).
Abbreviation s64 := (wraps 64).

Declare Scope c_scope.
Delimit Scope c_scope with C.
Notation "x '&' y" := (Z.land x y) (at level 40, left associativity) : c_scope.
Notation "x '<<' y" := (Z.shiftl x y) (at level 45, left associativity) : c_scope.
Notation "x '>>' y" := (Z.shiftr x y) (at level 45, left associativity) : c_scope.

Section wrap.
Implicit Types w x y : Z.

Lemma wrapu_range w x : 0 <= w -> in_u w (wrapu w x).
Proof. intros ?. apply Z.mod_pos_bound. lia. Qed.

Lemma wraps_range w x : 0 < w -> in_s w (wraps w x).
Proof.
  intros Hw. unfold in_s, wraps.
  assert (0 < 2 ^ w) by lia.
  assert (2 ^ w = 2 * 2 ^ (w - 1)) by (rewrite <- Z.pow_succ_r by lia; f_equal; lia).
  pose proof (Z.mod_pos_bound (x + 2 ^ (w - 1)) (2 ^ w)). lia.
Qed.

Lemma wrapu_id w x : in_u w x -> wrapu w x = x.
Proof. apply Z.mod_small. Qed.

Lemma wraps_id w x : 0 < w -> in_s w x -> wraps w x = x.
Proof.
  intros Hw [Hlo Hhi]. unfold wraps.
  assert (2 ^ w = 2 * 2 ^ (w - 1)) by (rewrite <- Z.pow_succ_r by lia; f_equal; lia).
  rewrite Z.mod_small; lia.
Qed.

Lemma wrapu_add_l w x y : 0 <= w -> wrapu w (wrapu w x + y) = wrapu w (x + y).
Proof. intros. unfold wrapu. apply Zplus_mod_idemp_l. Qed.

Lemma wrapu_sub_l w x y : 0 <= w -> wrapu w (wrapu w x - y) = wrapu w (x - y).
Proof. intros. unfold wrapu. apply Zminus_mod_idemp_l. Qed.

Lemma wrapu_sub_r w x y : 0 <= w -> wrapu w (x - wrapu w y) = wrapu w (x - y).
Proof. intros. unfold wrapu. apply Zminus_mod_idemp_r. Qed.

Lemma wrapu_idemp w x : 0 <= w -> wrapu w (wrapu w x) = wrapu w x.
Proof. intros. apply wrapu_id, wrapu_range. done. Qed.
End wrap.

(** The width is a numeral wherever the code is modelled, so [lia] decides the
    bounds once the powers of two are evaluated. *)
Ltac eval_pow2 :=
  repeat match goal with
  | H : context [ 2 ^ ?n ] |- _ =>
      let m := eval vm_compute in (2 ^ n) in
      lazymatch m with Z.pos _ => change (2 ^ n) with m in H end
  | |- context [ 2 ^ ?n ] =>
      let m := eval vm_compute in (2 ^ n) in
      lazymatch m with Z.pos _ => change (2 ^ n) with m end
  end.

(** [width_lia]: linear arithmetic about values of machine width.  It removes the
    wrap-arounds whose argument is in range. *)
Ltac unwrap :=
  repeat match goal with
  | |- context [ wraps ?w ?x ] =>
      rewrite (wraps_id w x) by (unfold in_s in *; eval_pow2; lia)
  | |- context [ wrapu ?w ?x ] =>
      rewrite (wrapu_id w x) by (unfold in_u in *; eval_pow2; lia)
  end.
Ltac width_lia := unfold in_u, in_s in *; eval_pow2; lia.
(** ... with divisions and remainders by numerals. *)
Ltac div_lia :=
  unfold in_u, in_s in *; eval_pow2; Z.to_euclidean_division_equations; lia.

(** Boolean comparisons as the C source writes them, reflected for [lia]. *)
Ltac bool_to_prop :=
  repeat match goal with
  | H : _ && _ = true |- _ => apply andb_true_iff in H; destruct H
  | H : _ || _ = false |- _ => apply orb_false_iff in H; destruct H
  | H : negb _ = true |- _ => apply negb_true_iff in H
  | H : negb _ = false |- _ => apply negb_false_iff in H
  | H : (_ =? _) = true |- _ => apply Z.eqb_eq in H
  | H : (_ =? _) = false |- _ => apply Z.eqb_neq in H
  | H : (_ <? _) = true |- _ => apply Z.ltb_lt in H
  | H : (_ <? _) = false |- _ => apply Z.ltb_ge in H
  | H : (_ <=? _) = true |- _ => apply Z.leb_le in H
  | H : (_ <=? _) = false |- _ => apply Z.leb_gt in H
  end.
Ltac case_if :=
  match goal with
  | |- context [ if ?b then _ else _ ] => destruct b eqn:?
  | H : context [ if ?b then _ else _ ] |- _ => destruct b eqn:?
  end; bool_to_prop.

(** ** Characters and C strings

    Memory holds bytes (values in [0, 256)).  Reading a plain [char] promotes
    the byte to an [int]; whether [char] is signed is the ABI's choice, so it
    is a parameter [sgn] wherever the promoted value matters.  A [char *]
    argument that points to a string is the list of its bytes before the
    terminating NUL. *)
Abbreviation bytes := (list Z) (only parsing).
Abbreviation cstr := (list Z) (only parsing).
Definition is_byte (b : Z) : Prop := 0 <= b < 256.
Definition is_cstr (s : cstr) : Prop := Forall (fun b => 0 < b < 256) s.
Definition chr (sgn : bool) (b : Z) : Z := if sgn then s8 b else u8 b.

(** Storing a run of bytes at an offset of an object of [length mem] bytes:
    [None] is an access outside the object. *)
Definition store (mem : bytes) (off : Z) (bs : bytes) : option bytes :=
  if (0 <=? off) && (off + Z.of_nat (length bs) <=? Z.of_nat (length mem)) then
    Some (take (Z.to_nat off) mem ++ bs ++ drop (Z.to_nat off + length bs) mem)
  else None.

Definition load (mem : bytes) (off : Z) : option Z :=
  if 0 <=? off then mem !! Z.to_nat off else None.

Section store.
Implicit Types mem bs : bytes.

Lemma store_in_range mem off bs :
  0 <= off -> off + Z.of_nat (length bs) <= Z.of_nat (length mem) ->
  store mem off bs =
    Some (take (Z.to_nat off) mem ++ bs ++ drop (Z.to_nat off + length bs) mem).
Proof.
  intros. unfold store. by rewrite (proj2 (Z.leb_le 0 off)), (proj2 (Z.leb_le _ _)).
Qed.

Lemma store_behind l r bs off :
  off = Z.of_nat (length l) -> (length bs <= length r)%nat ->
  store (l ++ r) off bs = Some (l ++ bs ++ drop (length bs) r).
Proof.
  intros -> L. rewrite store_in_range by (rewrite ?length_app; lia).
  by rewrite Nat2Z.id, take_app_length, drop_app_add.
Qed.

Lemma store_is_Some mem off bs :
  is_Some (store mem off bs) <->
  0 <= off /\ off + Z.of_nat (length bs) <= Z.of_nat (length mem).
Proof.
  unfold store. split.
  - intros [m Hm]. case_if; [lia | done].
  - intros [??]. rewrite (proj2 (Z.leb_le 0 off)), (proj2 (Z.leb_le _ _)) by done. eauto.
Qed.

Lemma store_length mem off bs mem' :
  store mem off bs = Some mem' -> length mem' = length mem.
Proof.
  unfold store. intros H. case_if; simplify_eq.
  rewrite !length_app, length_take, length_drop. lia.
Qed.

Lemma store_take mem off bs mem' :
  store mem off bs = Some mem' ->
  take (Z.to_nat off + length bs) mem' = take (Z.to_nat off) mem ++ bs.
Proof.
  unfold store. intros H. case_if; simplify_eq.
  rewrite app_assoc, take_app_le by (rewrite length_app, length_take; lia).
  apply take_ge. rewrite length_app, length_take. lia.
Qed.

Lemma store_drop mem off bs mem' :
  store mem off bs = Some mem' ->
  drop (Z.to_nat off + length bs) mem' = drop (Z.to_nat off + length bs) mem.
Proof.
  unfold store. intros H. case_if; simplify_eq.
  rewrite app_assoc, drop_app_ge by (rewrite length_app, length_take; lia).
  rewrite length_app, length_take.
  replace (_ - _)%nat with 0%nat by lia. done.
Qed.
End store.

(** ** Bit fields *)

Lemma lor_shiftl x y n : 0 <= n -> 0 <= y < 2 ^ n -> Z.lor (Z.shiftl x n) y = x * 2 ^ n + y.
Proof.
  intros Hn Hy. rewrite <- Z.shiftl_mul_pow2 by done.
  rewrite <- Z.add_lor_land. assert (Z.land (Z.shiftl x n) y = 0) as ->; [|lia].
  apply Z.bits_inj'. intros i Hi. rewrite Z.land_spec, Z.bits_0, andb_false_iff.
  destruct (Z.lt_ge_cases i n) as [Hin|Hin].
  - left. by apply Z.shiftl_spec_low.
  - right. rewrite <- (Z.mod_small y (2 ^ n)) by done. by apply Z.mod_pow2_bits_high.
Qed.

Lemma land_ones_mod x n : 0 <= n -> Z.land x (2 ^ n - 1) = x mod 2 ^ n.
Proof. intros. by rewrite <- Z.land_ones, Z.ones_equiv, Z.sub_1_r. Qed.

Lemma land_255 x : Z.land x 255 = x mod 256.
Proof. exact (land_ones_mod x 8 ltac:(lia)). Qed.

(** ** Status codes

    [status_t] of the platform's [utils/Errors.h]. *)
Definition OK : Z := 0.
Definition NO_ERROR : Z := 0.
Definition UNKNOWN_ERROR : Z := -2147483648.
Definition NAME_NOT_FOUND : Z := -2.
Definition NO_MEMORY : Z := -12.
Definition NO_INIT : Z := -19.
Definition BAD_VALUE : Z := -22.
Definition DEAD_OBJECT : Z := -32.

(** ** Lists *)

Lemma filter_all {A} (P : A -> Prop) `{!forall x, Decision (P x)} (l : list A) :
  Forall P l -> filter P l = l.
Proof. induction 1; [done|]. rewrite filter_cons_True by done. by f_equal. Qed.

Lemma filter_none {A} (P : A -> Prop) `{!forall x, Decision (P x)} (l : list A) :
  Forall (fun x => ~ P x) l -> filter P l = [].
Proof. induction 1; [done|]. by rewrite filter_cons_False. Qed.

Lemma StronglySorted_filter {A} (R : A -> A -> Prop) (P : A -> Prop)
    `{!forall x, Decision (P x)} (l : list A) :
  StronglySorted R l -> StronglySorted R (filter P l).
Proof.
  induction 1 as [|x l Hs IH Ha]; [constructor|]. rewrite filter_cons. case_decide; [|done].
  constructor; [done|]. rewrite Forall_forall in *. intros y [_ Hy]%list_elem_of_filter. auto.
Qed.

Lemma elem_of_concat {A} (x : A) (ls : list (list A)) :
  x ∈ concat ls <-> exists l, l ∈ ls /\ x ∈ l.
Proof. induction ls as [|l ls IH]; simpl; [set_solver|]. rewrite elem_of_app, IH. set_solver. Qed.

Create HintDb mcu.
#[export] Hint Resolve wrapu_range wraps_range : mcu.
