(* ===== verification/IoStream.v ===== *)
(** * libckits/ioStream.c: a bounded text buffer

    [ioStream] is the record of the C struct: the memory behind [buffer], its
    [size], the [cursor] (as an offset from [buffer]) and the remaining
    [length], a [size_t] of 32 bits.  Every operation that writes goes through
    [store], so a result [None] is an access outside the buffer. *)

From S2P Require Import Prelude.

Record ioStream := mkStream {
  buffer : bytes;
  size : Z;
  cursor : Z;
  length : Z
}.

Definition set_pos (s : ioStream) (c l : Z) : ioStream :=
  mkStream (buffer s) (size s) c l.

(** [(thisBuf->cursor < thisBuf->buffer) ||
     (thisBuf->buffer + thisBuf->size) <= thisBuf->cursor] *)
Definition out_of_buffer (s : ioStream) : bool :=
  (cursor s <? 0) || (size s <=? cursor s).

Definition ioStreamRewind (s : ioStream) : Z * ioStream :=
  (0, set_pos s 0 (size s)).

Definition ioStreamOpen (s : ioStream) : option (Z * ioStream) :=
  let '(ret, s1) := ioStreamRewind s in
  if negb (ret =? 0) then Some (ret, s1)
  else
    m ← store (buffer s1) 0 (replicate (Z.to_nat (size s1)) 0);
    Some (0, mkStream m (size s1) (cursor s1) (length s1)).

Definition ioStreamTell (s : ioStream) : Z := s32 (u32 (size s - length s)).

Inductive whence := SEEK_SET | SEEK_CUR | SEEK_END | SEEK_OTHER (w : Z).

(** [off_t] is a signed 32-bit integer, [thisBuf->size + offset] is computed
    in [size_t] and converted back by the assignment to [move]. *)
Definition seek_target (s : ioStream) (offset : Z) (w : whence) : option Z :=
  match w with
  | SEEK_SET => Some offset
  | SEEK_END => Some (s32 (u32 (size s + offset)))
  | SEEK_CUR => Some (s32 (u32 (u32 (size s - length s) + offset)))
  | SEEK_OTHER _ => None
  end.

Definition ioStreamSeek (s : ioStream) (offset : Z) (w : whence) : Z * ioStream :=
  match seek_target s offset w with
  | None => (-1, s)
  | Some move0 =>
      let move :=
        if move0 <? 0 then 0
        else if size s <? u32 move0 then s32 (size s)
        else move0 in
      let s' := set_pos s move (u32 (size s - move)) in
      (s32 (u32 (size s' - length s')), s')
  end.

(** [vsnprintf] with a formatted result [txt] and a room of [n] bytes: at most
    [n - 1] characters and a NUL are stored (nothing when [n = 0]); the value
    is the untruncated length. *)
Definition vsnprintf_bytes (txt : bytes) (n : Z) : bytes :=
  if n <=? 0 then [] else take (Z.to_nat (n - 1)) txt ++ [0].

(** [fmt] is what [vsnprintf] makes of the format and its arguments; [None] is
    its negative result. *)
Definition ioStreamPrint (s : ioStream) (fmt : option bytes) : option (Z * ioStream) :=
  if out_of_buffer s then Some (-1, s)
  else
    match fmt with
    | None => Some (-1, s)
    | Some txt =>
        m ← store (buffer s) (cursor s) (vsnprintf_bytes txt (length s));
        let ret := Z.of_nat (List.length txt) in
        Some (ret, mkStream m (size s) (cursor s + ret) (u32 (length s - ret)))
    end.

Definition ioStreamWrite (s : ioStream) (buf : bytes) (count : Z) : option (Z * ioStream) :=
  if out_of_buffer s then Some (-1, s)
  else
    let ret := s32 (if count <? length s then count else length s) in
    if 0 <? ret then
      m ← store (buffer s) (cursor s) (take (Z.to_nat ret) buf);
      Some (ret, mkStream m (size s) (cursor s + ret) (u32 (length s - ret)))
    else Some (ret, s).

Definition ioStreamPutc (sgn : bool) (c : Z) (s : ioStream) : option (Z * ioStream) :=
  if out_of_buffer s then Some (-1, s)
  else if 1 <? length s then
    m ← store (buffer s) (cursor s) [u8 c];
    Some (chr sgn (u8 c), mkStream m (size s) (cursor s + 1) (u32 (length s - 1)))
  else Some (-1, s).

Definition ioStreamIsEnd (s : ioStream) : Z := if out_of_buffer s then 1 else 0.

(** ** Well-formed streams

    The invariant ties the two redundant fields: [length] is [size - cursor]
    modulo the width of [size_t].  The cursor itself may have run past the
    end of the buffer (a truncated [ioStreamPrint] puts it there), by at most
    the largest [int]. *)
Record wf (s : ioStream) : Prop := {
  wf_mem : Z.of_nat (List.length (buffer s)) = size s;
  wf_size : 0 < size s < 2 ^ 31;
  wf_cursor : 0 <= cursor s < size s + 2 ^ 31;
  wf_length : length s = u32 (size s - cursor s)
}.

(** What the callers respect: a print result is a C [int], a write does not
    claim more bytes than it passes, an offset is an [off_t]. *)
Inductive op :=
| ORewind
| OOpen
| OSeek (offset : Z) (w : whence)
| OPrint (fmt : option bytes)
| OWrite (buf : bytes) (count : Z)
| OPutc (c : Z).

Definition op_ok (o : op) : Prop :=
  match o with
  | OSeek off _ => in_s 32 off
  | OPrint (Some txt) => Z.of_nat (List.length txt) < 2 ^ 31
  | OWrite buf count => 0 <= count <= Z.of_nat (List.length buf)
  | _ => True
  end.

Definition exec (sgn : bool) (s : ioStream) (o : op) : option (Z * ioStream) :=
  match o with
  | ORewind => Some (ioStreamRewind s)
  | OOpen => ioStreamOpen s
  | OSeek off w => Some (ioStreamSeek s off w)
  | OPrint fmt => ioStreamPrint s fmt
  | OWrite buf count => ioStreamWrite s buf count
  | OPutc c => ioStreamPutc sgn c s
  end.

Fixpoint run (sgn : bool) (s : ioStream) (os : list op) : option ioStream :=
  match os with
  | [] => Some s
  | o :: os => '(_, s') ← exec sgn s o; run sgn s' os
  end.

(** ** Lemmas *)

Lemma wf_in_buffer s :
  wf s -> out_of_buffer s = false -> 0 <= cursor s < size s /\ length s = size s - cursor s.
Proof.
  intros [??? Hl] Ho. unfold out_of_buffer in Ho. bool_to_prop.
  split; [lia|]. rewrite Hl. unwrap. done.
Qed.

Lemma vsnprintf_bytes_length txt n :
  0 < n -> Z.of_nat (List.length (vsnprintf_bytes txt n))
           = Z.min (Z.of_nat (List.length txt) + 1) n.
Proof.
  intros. unfold vsnprintf_bytes. case_if; [lia|].
  rewrite length_app, length_take. simpl. lia.
Qed.

Lemma wf_advance s m n :
  wf s -> 0 <= cursor s < size s -> 0 <= n < 2 ^ 31 ->
  List.length m = List.length (buffer s) ->
  wf (mkStream m (size s) (cursor s + n) (u32 (length s - n))).
Proof.
  intros [H1 H2 H3 H4] Hc Hn Hm. split; simpl; [congruence|done|lia|].
  rewrite H4, wrapu_sub_l by lia. f_equal. lia.
Qed.

Lemma rewind_wf s : wf s -> wf (ioStreamRewind s).2.
Proof.
  intros [????]. split; simpl; try done; [lia|]. rewrite wrapu_id; width_lia.
Qed.

Lemma seek_wf s off w :
  wf s -> in_s 32 off -> wf (ioStreamSeek s off w).2.
Proof.
  intros Hwf Hoff. unfold ioStreamSeek.
  destruct (seek_target s off w) as [mv|] eqn:Ht; [|done].
  assert (Hmv : in_s 32 mv).
  { destruct w; simplify_eq/=; auto with mcu; by apply wraps_range. }
  destruct Hwf as [H1 H2 H3 H4].
  unfold in_s in Hmv. eval_pow2. case_if.
  - split; simpl; try done; lia.
  - rewrite (wrapu_id 32 mv) in * by width_lia.
    case_if; split; simpl; try rewrite (wraps_id 32 (size s)) by width_lia; try done; lia.
Qed.

(** Every operation of a well-formed stream stays inside the buffer and
    leaves a well-formed stream. *)
Lemma exec_wf sgn s o :
  wf s -> op_ok o -> exists r s', exec sgn s o = Some (r, s') /\ wf s'.
Proof.
  intros Hwf Hok. destruct o as [| |off w|[txt|]|buf count|c]; simpl in *.
  - exists 0, (ioStreamRewind s).2. split; [done|]. by apply rewind_wf.
  - unfold ioStreamOpen; simpl.
    destruct (store (buffer s) 0 (replicate (Z.to_nat (size s)) 0)) as [m|] eqn:Hm; simpl.
    + eexists _, _. split; [done|]. pose proof (store_length _ _ _ _ Hm) as Hl.
      destruct (rewind_wf s Hwf); simpl in *. split; simpl in *; congruence.
    + exfalso. apply eq_None_not_Some in Hm. apply Hm, store_is_Some.
      rewrite length_replicate. destruct Hwf. lia.
  - exists (ioStreamSeek s off w).1, (ioStreamSeek s off w).2.
    split; [by destruct (ioStreamSeek s off w)|]. by apply seek_wf.
  - unfold ioStreamPrint. destruct (out_of_buffer s) eqn:Ho; [by eauto|].
    destruct (wf_in_buffer s Hwf Ho) as [Hc Hl].
    edestruct (proj2 (store_is_Some (buffer s) (cursor s)
                 (vsnprintf_bytes txt (length s)))) as [m Hm].
    { destruct Hwf. rewrite vsnprintf_bytes_length by lia. lia. }
    rewrite Hm. simpl. eexists _, _. split; [done|].
    apply wf_advance; try done; [lia|]. by eapply store_length.
  - unfold ioStreamPrint. destruct (out_of_buffer s); by eauto.
  - unfold ioStreamWrite. destruct (out_of_buffer s) eqn:Ho; [by eauto|].
    destruct (wf_in_buffer s Hwf Ho) as [Hc Hl].
    set (n := if count <? length s then count else length s).
    assert (Hn : 0 <= n <= length s /\ n <= Z.of_nat (List.length buf))
      by (subst n; case_if; lia).
    pose proof (wf_size s Hwf). rewrite (wraps_id 32 n) by width_lia.
    clearbody n. destruct (0 <? n) eqn:?; bool_to_prop; [|by eauto].
    edestruct (proj2 (store_is_Some (buffer s) (cursor s) (take (Z.to_nat n) buf)))
      as [m Hm].
    { rewrite length_take. destruct Hwf. lia. }
    rewrite Hm. simpl. eexists _, _. split; [done|].
    apply wf_advance; try done; [lia|]. by eapply store_length.
  - unfold ioStreamPutc. destruct (out_of_buffer s) eqn:Ho; [by eauto|].
    destruct (wf_in_buffer s Hwf Ho) as [Hc Hl].
    case_if; [|by eauto].
    edestruct (proj2 (store_is_Some (buffer s) (cursor s) [u8 c])) as [m Hm].
    { destruct Hwf. simpl. lia. }
    rewrite Hm. simpl. eexists _, _. split; [done|].
    apply wf_advance; try done. by eapply store_length.
Qed.

(** Memory safety of the text buffer: from any well-formed stream, any
    sequence of opens, rewinds, seeks (with any offset), prints, writes and
    putcs the type allows runs without an access outside the buffer and leaves
    a well-formed stream. *)
Theorem run_safe sgn s os :
  wf s -> Forall op_ok os -> exists s', run sgn s os = Some s' /\ wf s'.
Proof.
  intros Hwf Hos. revert s Hwf. induction Hos as [|o os Ho _ IH]; intros s Hwf; simpl.
  - eauto.
  - destruct (exec_wf sgn s o Hwf Ho) as (r & s' & -> & Hwf'). simpl. by apply IH.
Qed.

Definition small_stream : ioStream := mkStream [0; 0; 0; 0] 4 0 4.

Lemma small_stream_wf : wf small_stream.
Proof. split; simpl; vm_compute; intuition congruence. Qed.

Lemma run_safe_witness :
  exists s', run true small_stream [OOpen; OSeek (-7) SEEK_END; OPrint (Some [65; 66; 67; 68; 69]); OPutc 70]
             = Some s' /\ wf s'.
Proof.
  apply (run_safe true small_stream).
  - exact small_stream_wf.
  - repeat constructor; simpl; width_lia.
Defined.

(** *** Functional behaviour of the writers *)

(** [ioStreamWrite] appends: [min(count, room)] bytes of the argument go
    exactly between the text already written and the untouched rest of the
    buffer, cursor and remaining length move by that amount, and that is the
    value returned. *)
Lemma ioStreamWrite_appends s buf count :
  wf s -> 0 <= cursor s < size s -> 0 <= count <= Z.of_nat (List.length buf) ->
  let n := Z.min count (size s - cursor s) in
  exists m, ioStreamWrite s buf count
            = Some (n, mkStream m (size s) (cursor s + n) (length s - n))
    /\ take (Z.to_nat (cursor s + n)) m
       = take (Z.to_nat (cursor s)) (buffer s) ++ take (Z.to_nat n) buf
    /\ drop (Z.to_nat (cursor s + n)) m = drop (Z.to_nat (cursor s + n)) (buffer s).
Proof.
  intros Hwf Hc Hcount n.
  assert (Ho : out_of_buffer s = false).
  { unfold out_of_buffer. apply orb_false_iff. rewrite Z.ltb_ge, Z.leb_gt. lia. }
  destruct (wf_in_buffer s Hwf Ho) as [_ Hl]. pose proof (wf_size s Hwf).
  unfold ioStreamWrite. rewrite Ho.
  replace (if count <? length s then count else length s) with n
    by (subst n; case_if; lia).
  assert (0 <= n <= size s - cursor s) by lia.
  assert (Hlt : List.length (take (Z.to_nat n) buf) = Z.to_nat n)
    by (rewrite length_take; lia).
  rewrite wraps_id by width_lia. destruct (0 <? n) eqn:Hn; bool_to_prop.
  - edestruct (proj2 (store_is_Some (buffer s) (cursor s) (take (Z.to_nat n) buf)))
      as [m Hm]. { destruct Hwf. lia. }
    rewrite Hm. exists m. simpl. rewrite wrapu_id by width_lia. split; [done|].
    pose proof (store_take _ _ _ _ Hm) as Ht. pose proof (store_drop _ _ _ _ Hm) as Hd.
    rewrite Hlt, <- Z2Nat.inj_add in Ht, Hd by lia. done.
  - exists (buffer s). replace n with 0 by lia. rewrite Z.add_0_r, Z.sub_0_r.
    destruct s; simpl. rewrite take_0, app_nil_r. done.
Qed.

Lemma ioStreamWrite_appends_witness :
  exists m, ioStreamWrite small_stream [65; 66; 67] 2 = Some (2, mkStream m 4 2 2)
    /\ take 2 m = take 0 (buffer small_stream) ++ take 2 [65; 66; 67]
    /\ drop 2 m = drop 2 (buffer small_stream).
Proof.
  apply (ioStreamWrite_appends small_stream [65; 66; 67] 2); [exact small_stream_wf|simpl; lia|simpl; lia].
Defined.

(** a print that does not fit stores the longest NUL-terminated prefix that
    does and reports the untruncated length; the cursor then lies past the
    buffer, so the stream answers "end" and every later print, write and putc
    is refused with -1. *)
Lemma ioStreamPrint_truncates s txt :
  wf s -> 0 <= cursor s < size s ->
  size s - cursor s <= Z.of_nat (List.length txt) < 2 ^ 31 ->
  exists s', ioStreamPrint s (Some txt) = Some (Z.of_nat (List.length txt), s')
    /\ buffer s' = take (Z.to_nat (cursor s)) (buffer s)
                   ++ take (Z.to_nat (size s - cursor s - 1)) txt ++ [0]
    /\ ioStreamIsEnd s' = 1
    /\ (forall fmt, ioStreamPrint s' fmt = Some (-1, s'))
    /\ (forall b c, ioStreamWrite s' b c = Some (-1, s'))
    /\ (forall sgn c, ioStreamPutc sgn c s' = Some (-1, s')).
Proof.
  intros Hwf Hc Htxt.
  assert (Ho : out_of_buffer s = false).
  { unfold out_of_buffer. apply orb_false_iff. rewrite Z.ltb_ge, Z.leb_gt. lia. }
  destruct (wf_in_buffer s Hwf Ho) as [_ Hl]. pose proof (wf_size s Hwf).
  pose proof (vsnprintf_bytes_length txt (length s)) as Hv.
  unfold ioStreamPrint at 1. rewrite Ho.
  edestruct (proj2 (store_is_Some (buffer s) (cursor s) (vsnprintf_bytes txt (length s))))
    as [m Hm]. { destruct Hwf. lia. }
  rewrite Hm. simpl. eexists. split; [done|].
  assert (Hout : forall m l, out_of_buffer
    (mkStream m (size s) (cursor s + Z.of_nat (List.length txt)) l) = true).
  { intros. unfold out_of_buffer; simpl. apply orb_true_iff. rewrite Z.leb_le. lia. }
  unfold ioStreamIsEnd, ioStreamPrint, ioStreamWrite, ioStreamPutc.
  rewrite !Hout. repeat split; try done. simpl.
  rewrite store_in_range in Hm by (destruct Hwf; lia). simplify_eq.
  f_equal. unfold vsnprintf_bytes. rewrite Hl.
  case_if; [lia|]. rewrite drop_ge, app_nil_r; [done|].
  unfold vsnprintf_bytes in Hv. rewrite Hl in Hv. destruct Hwf.
  rewrite length_app, length_take. simpl. lia.
Qed.

Lemma ioStreamPrint_truncates_witness :
  exists s', ioStreamPrint small_stream (Some [65; 66; 67; 68; 69]) = Some (5, s')
    /\ buffer s' = take 0 (buffer small_stream) ++ take 3 [65; 66; 67; 68; 69] ++ [0]
    /\ ioStreamIsEnd s' = 1
    /\ (forall fmt, ioStreamPrint s' fmt = Some (-1, s'))
    /\ (forall b c, ioStreamWrite s' b c = Some (-1, s'))
    /\ (forall sgn c, ioStreamPutc sgn c s' = Some (-1, s')).
Proof.
  apply (ioStreamPrint_truncates small_stream [65; 66; 67; 68; 69]);
    [exact small_stream_wf|simpl; lia|simpl; width_lia].
Defined.
