(* ===== verification/MixFunc.v ===== *)
(** * libconf/mixfunc.c: sample arithmetic of the audio mixer

    A channel ([fastmix_io_t]) is its amplifier mode and its sample array; the
    arrays of different channels are different objects.  Samples are 16-bit,
    the accumulator is an [int] of 32 bits with its wrap-around.  [None] is an
    access outside an array. *)

From S2P Require Import Prelude.

Inductive fastmix_vol_t := MIX_DISABLE | MIX_KEEP_0dB | MIX_SUPP_3dB | MIX_GAIN_3dB.

#[export] Instance fastmix_vol_eq_dec : EqDecision fastmix_vol_t.
Proof. solve_decision. Defined.

Record fastmix_io_t := mkIO { amp : fastmix_vol_t; pAudioData : list Z }.

Definition sature32 (temp : Z) : Z :=
  if 32767 <? temp then 32767 else if temp <? -32768 then -32768 else s16 temp.

(** The loop [for (i=0; i<nLen; ++i) data[i] = f (src[i], data[i])]. *)
Fixpoint loop2 (f : Z -> Z -> Z) (n : nat) (src data : list Z) : option (list Z) :=
  match n, src, data with
  | O, _, _ => Some data
  | S n, x :: src, y :: data => r ← loop2 f n src data; Some (f x y :: r)
  | _, _, _ => None
  end.

(** The same loop reading only the element it writes. *)
Definition loop1 (f : Z -> Z) (n : nat) (data : list Z) : option (list Z) :=
  loop2 (fun _ y => f y) n data data.

Definition set_data (c : fastmix_io_t) (d : list Z) : fastmix_io_t := mkIO (amp c) d.

Definition pre_amp_one (nLen : nat) (c : fastmix_io_t) : option fastmix_io_t :=
  match amp c with
  | MIX_DISABLE => d ← loop1 (fun _ => 0) nLen (pAudioData c); Some (set_data c d)
  | MIX_SUPP_3dB => d ← loop1 (fun x => Z.shiftr x 1) nLen (pAudioData c); Some (set_data c d)
  | MIX_GAIN_3dB =>
      d ← loop1 (fun x => sature32 (s32 (x * 2))) nLen (pAudioData c); Some (set_data c d)
  | MIX_KEEP_0dB => Some c
  end.

(** The outer loop over the first [nNum] channels of an array. *)
Fixpoint for_channels {A} (f : A -> option A) (nNum : nat) (cs : list A) : option (list A) :=
  match nNum, cs with
  | O, _ => Some cs
  | S n, c :: cs => c' ← f c; cs' ← for_channels f n cs; Some (c' :: cs')
  | S _, [] => None
  end.

Definition fastmix_pre_amp (pInput : list fastmix_io_t) (nNum nLen : nat)
  : option (list fastmix_io_t) :=
  for_channels (pre_amp_one nLen) nNum pInput.

Definition fastmix_sat_amp (pInput : list Z) (pOutput : fastmix_io_t) (nLen : nat)
  : option fastmix_io_t :=
  let upd f := d ← loop2 (fun x _ => f x) nLen pInput (pAudioData pOutput);
               Some (set_data pOutput d) in
  match amp pOutput with
  | MIX_DISABLE =>
      d ← loop1 (fun _ => 0) nLen (pAudioData pOutput); Some (set_data pOutput d)
  | MIX_SUPP_3dB => upd (fun x => sature32 (Z.shiftr x 1))
  | MIX_GAIN_3dB => upd (fun x => sature32 (s32 (s32 (x * 2))))
  | MIX_KEEP_0dB => upd sature32
  end.

(** [Ltemp] over the first [nNum] channels at sample [i]. *)
Fixpoint column_sum (Ltemp : Z) (nNum : nat) (pInput : list fastmix_io_t) (i : nat) : option Z :=
  match nNum, pInput with
  | O, _ => Some Ltemp
  | S n, c :: cs => x ← pAudioData c !! i; column_sum (s32 (Ltemp + x)) n cs i
  | S _, [] => None
  end.

Fixpoint add_loop (pInput : list fastmix_io_t) (pOutput : list Z) (nNum : nat) (i todo : nat)
  : option (list Z) :=
  match todo, pOutput with
  | O, _ => Some pOutput
  | S t, _ :: out =>
      l ← column_sum 0 nNum pInput i;
      r ← add_loop pInput out nNum (S i) t;
      Some (l :: r)
  | S _, [] => None
  end.

Definition fastmix_add (pInput : list fastmix_io_t) (pOutput : list Z) (nNum nLen : nat)
  : option (list Z) :=
  add_loop pInput pOutput nNum 0 nLen.

(** One output channel of [fastmix_sub_amp]: [b] ranges over [buffer], [x]
    over [pInput[j].pAudioData]. *)
Definition sub_amp_one (buffer : list Z) (nLen : nat) (cin cout : fastmix_io_t)
  : option fastmix_io_t :=
  let upd f :=
    (diff ← loop2 f nLen buffer (pAudioData cin);
     d ← loop2 (fun x _ => x) nLen diff (pAudioData cout);
     Some (set_data cout d)) in
  match amp cout with
  | MIX_DISABLE =>
      d ← loop1 (fun _ => 0) nLen (pAudioData cout); Some (set_data cout d)
  | MIX_SUPP_3dB => upd (fun b x => sature32 (Z.shiftr (s32 (b - x)) 1))
  | MIX_GAIN_3dB => upd (fun b x => sature32 (s32 (s32 (s32 (b - x) * 2))))
  | MIX_KEEP_0dB => upd (fun b x => sature32 (s32 (b - x)))
  end.

Fixpoint fastmix_sub_amp (buffer : list Z) (pInput pOutput : list fastmix_io_t)
    (nNum nLen : nat) : option (list fastmix_io_t) :=
  match nNum, pInput, pOutput with
  | O, _, _ => Some pOutput
  | S n, cin :: pi, cout :: po =>
      c ← sub_amp_one buffer nLen cin cout;
      r ← fastmix_sub_amp buffer pi po n nLen;
      Some (c :: r)
  | S _, _, _ => None
  end.

(** ** What the mixer promises

    [gain a x] is the sample an amplifier of mode [a] lets through. *)
Definition gain (a : fastmix_vol_t) (x : Z) : Z :=
  match a with
  | MIX_DISABLE => 0
  | MIX_KEEP_0dB => x
  | MIX_SUPP_3dB => x / 2
  | MIX_GAIN_3dB => x * 2
  end.

(** Saturation to 16 bits, stated arithmetically. *)
Definition clamp16 (x : Z) : Z := Z.max (-32768) (Z.min 32767 x).

Definition sample (cs : list fastmix_io_t) (k i : nat) : Z :=
  match cs !! k with Some c => pAudioData c !!! i | None => 0 end.

Fixpoint zsum (l : list Z) : Z := match l with [] => 0 | x :: l => x + zsum l end.

(** The sum at sample [i] of what the channels say. *)
Definition voices (cs : list fastmix_io_t) (i : nat) : Z :=
  zsum (map (fun c => pAudioData c !!! i) cs).

(** The channels other than [j]. *)
Definition others (cs : list fastmix_io_t) (j : nat) : list fastmix_io_t :=
  take j cs ++ drop (S j) cs.

Definition chan_ok (nLen : nat) (c : fastmix_io_t) : Prop :=
  length (pAudioData c) = nLen /\ Forall (in_s 16) (pAudioData c).

(** ** Lemmas *)

Lemma sature32_clamp x : sature32 x = clamp16 x.
Proof. unfold sature32, clamp16. repeat case_if; try lia. rewrite wraps_id; width_lia. Qed.

Lemma clamp16_range x : in_s 16 (clamp16 x).
Proof. unfold clamp16. width_lia. Qed.
#[export] Hint Resolve clamp16_range : mcu.

Lemma loop2_Some f n src data :
  (n <= length src)%nat -> (n <= length data)%nat ->
  loop2 f n src data = Some (zip_with f (take n src) (take n data) ++ drop n data).
Proof.
  revert src data. induction n as [|n IH]; intros [|x src] [|y data] ??;
    simpl in *; try lia; try done.
  rewrite IH by lia. done.
Qed.

Lemma loop2_all f n src data :
  length src = n -> length data = n ->
  loop2 f n src data = Some (zip_with f src data).
Proof.
  intros. rewrite loop2_Some by lia.
  rewrite !take_ge, drop_ge, app_nil_r by lia. done.
Qed.

Lemma loop1_all f n data :
  length data = n -> loop1 f n data = Some (map f data).
Proof.
  intros. unfold loop1. rewrite loop2_all by done. f_equal.
  clear. induction data; simpl; congruence.
Qed.

Lemma for_channels_all {A} (f : A -> option A) (g : A -> A) cs :
  Forall (fun c => f c = Some (g c)) cs ->
  for_channels f (length cs) cs = Some (map g cs).
Proof. induction 1 as [|c cs Hc _ IH]; simpl; [done|]. by rewrite Hc, IH. Qed.

Definition amplified (c : fastmix_io_t) : fastmix_io_t :=
  set_data c (map (fun x => clamp16 (gain (amp c) x)) (pAudioData c)).

Lemma clamp16_id x : in_s 16 x -> clamp16 x = x.
Proof. unfold clamp16. width_lia. Qed.

Lemma map_clamp16_id l : Forall (in_s 16) l -> map clamp16 l = l.
Proof. induction 1; simpl; f_equal; auto using clamp16_id. Qed.

Lemma half_in_s16 x : in_s 16 x -> in_s 16 (x / 2).
Proof. intros. div_lia. Qed.

Lemma map_ext_Forall {A B} (f g : A -> B) (P : A -> Prop) l :
  (forall x, P x -> f x = g x) -> Forall P l -> map f l = map g l.
Proof. intros Hfg. induction 1; simpl; f_equal; auto. Qed.

Lemma pre_amp_one_spec nLen c :
  chan_ok nLen c -> pre_amp_one nLen c = Some (amplified c).
Proof.
  intros [Hl Hr]. destruct c as [a d]; simpl in *. unfold pre_amp_one, amplified; simpl.
  destruct a; simpl; rewrite ?loop1_all by done; simpl.
  - done.
  - unfold set_data; simpl. by rewrite map_clamp16_id.
  - unfold set_data; simpl. do 2 f_equal. eapply map_ext_Forall; [|exact Hr].
    intros x Hx. rewrite clamp16_id by auto using half_in_s16.
    by rewrite Z.shiftr_div_pow2 by lia.
  - unfold set_data; simpl. do 2 f_equal. eapply map_ext_Forall; [|exact Hr].
    intros x Hx. rewrite sature32_clamp, wraps_id by width_lia. done.
Qed.

Lemma amplified_ok nLen c : chan_ok nLen c -> chan_ok nLen (amplified c).
Proof.
  intros [Hl Hr]. split; simpl; [by rewrite length_map|].
  apply Forall_forall. intros y Hy. apply list_elem_of_In, in_map_iff in Hy.
  destruct Hy as (x & <- & _). apply clamp16_range.
Qed.

Lemma fastmix_pre_amp_spec cs nLen :
  Forall (chan_ok nLen) cs ->
  fastmix_pre_amp cs (length cs) nLen = Some (map amplified cs).
Proof.
  intros H. apply for_channels_all. eapply Forall_impl; [exact H|].
  intros c Hc. by apply pre_amp_one_spec.
Qed.

Lemma chan_sample_range nLen c i :
  chan_ok nLen c -> (i < nLen)%nat -> in_s 16 (pAudioData c !!! i).
Proof.
  intros [Hl Hr] Hi. rewrite Forall_lookup in Hr.
  destruct (lookup_lt_is_Some_2 (pAudioData c) i) as [x Hx]; [lia|].
  erewrite list_lookup_total_correct by done. eauto.
Qed.

Lemma zsum_app l1 l2 : zsum (l1 ++ l2) = zsum l1 + zsum l2.
Proof. induction l1; simpl; lia. Qed.

Lemma voices_bound nLen cs i :
  Forall (chan_ok nLen) cs -> (i < nLen)%nat ->
  - 32768 * Z.of_nat (length cs) <= voices cs i <= 32767 * Z.of_nat (length cs).
Proof.
  intros Hcs Hi. unfold voices. induction Hcs as [|c cs Hc _ IH]; simpl; [lia|].
  pose proof (chan_sample_range _ _ i Hc Hi). width_lia.
Qed.

Lemma column_sum_spec nLen acc cs i :
  Forall (chan_ok nLen) cs -> (i < nLen)%nat ->
  Z.abs acc + 32768 * Z.of_nat (length cs) < 2 ^ 31 ->
  column_sum acc (length cs) cs i = Some (acc + voices cs i).
Proof.
  intros Hcs Hi. revert acc. induction Hcs as [|c cs Hc Hcs IH]; intros acc Hb; simpl.
  - f_equal. unfold voices; simpl. lia.
  - pose proof (chan_sample_range _ _ i Hc Hi) as Hx.
    destruct Hc as [Hl _]. rewrite list_lookup_lookup_total_lt by lia. simpl in *.
    rewrite wraps_id by width_lia. rewrite IH by width_lia.
    f_equal. unfold voices; simpl. lia.
Qed.

Lemma add_loop_spec nLen cs out i t :
  Forall (chan_ok nLen) cs -> (i + t <= nLen)%nat -> length out = t ->
  32768 * Z.of_nat (length cs) < 2 ^ 31 ->
  add_loop cs out (length cs) i t = Some (map (voices cs) (seq i t)).
Proof.
  intros Hcs. revert i t. induction out as [|o out IH]; intros i t Hi Ht Hb;
    simpl in *; subst; simpl; [done|].
  erewrite column_sum_spec by (done || lia). simpl.
  rewrite IH by (done || lia). done.
Qed.

Lemma fastmix_add_spec nLen cs out :
  Forall (chan_ok nLen) cs -> length out = nLen ->
  32768 * Z.of_nat (length cs) < 2 ^ 31 ->
  fastmix_add cs out (length cs) nLen = Some (map (voices cs) (seq 0 nLen)).
Proof. intros. unfold fastmix_add. by eapply add_loop_spec. Qed.

Lemma voices_others cs j c i :
  cs !! j = Some c -> voices cs i - pAudioData c !!! i = voices (others cs j) i.
Proof.
  intros Hj. unfold voices, others.
  rewrite <- (take_drop_middle cs j c) at 1 by done.
  rewrite !map_app, !zsum_app. simpl. lia.
Qed.

(** What one output channel holds after the mix. *)
Definition heard (cs : list fastmix_io_t) (nLen : nat) (j : nat) (cout : fastmix_io_t)
  : fastmix_io_t :=
  set_data cout
    (map (fun i => clamp16 (gain (amp cout) (voices (others cs j) i))) (seq 0 nLen)).

Lemma zip_with_seq {A} (f : Z -> Z -> A) (g : nat -> Z) (l : list Z) k :
  zip_with f (map g (seq k (length l))) l
  = map (fun i => f (g i) (l !!! (i - k)%nat)) (seq k (length l)).
Proof.
  revert k. induction l as [|x l IH]; intros k; simpl; [done|].
  rewrite Nat.sub_diag. simpl. f_equal. rewrite IH.
  apply map_ext_in. intros i Hi. apply in_seq in Hi.
  replace (i - k)%nat with (S (i - S k)) by lia. done.
Qed.

Lemma others_bound nLen cs j i :
  Forall (chan_ok nLen) cs -> (i < nLen)%nat ->
  32768 * Z.of_nat (length cs) < 2 ^ 30 -> - 2 ^ 30 < voices (others cs j) i < 2 ^ 30.
Proof.
  intros Hcs Hi Hb.
  assert (Ho : Forall (chan_ok nLen) (others cs j)).
  { apply Forall_app. split; [by apply Forall_take|by apply Forall_drop]. }
  pose proof (voices_bound _ _ i Ho Hi) as Hv.
  assert (length (others cs j) <= length cs)%nat.
  { unfold others. rewrite length_app, length_take, length_drop. lia. }
  eval_pow2. lia.
Qed.

Lemma zip_with_fst (l r : list Z) :
  length l = length r -> zip_with (fun x _ => x) l r = l.
Proof.
  revert r. induction l as [|x l IH]; intros [|y r]; simpl; try done.
  intros. f_equal. auto.
Qed.

(** The two array loops of an amplifier branch, as one map over the samples. *)
Lemma sub_upd_spec {A} (k : list Z -> option A) (f : Z -> Z -> Z) (h : nat -> Z)
    cs nLen (din dout : list Z) :
  length din = nLen -> length dout = nLen ->
  (forall i, (i < nLen)%nat -> f (voices cs i) (din !!! i) = h i) ->
  (diff ← loop2 f nLen (map (voices cs) (seq 0 nLen)) din;
   d ← loop2 (fun x _ => x) nLen diff dout; k d) = k (map h (seq 0 nLen)).
Proof.
  intros Hin Hout Hf.
  rewrite loop2_all by (rewrite ?length_map, ?length_seq; done). simpl.
  rewrite loop2_all by (rewrite ?length_zip_with, ?length_map, ?length_seq; lia).
  rewrite zip_with_fst by (rewrite ?length_zip_with, ?length_map, ?length_seq; lia).
  rewrite <- Hin, zip_with_seq. simpl. f_equal.
  apply map_ext_in. intros i Hi. apply in_seq in Hi.
  rewrite Nat.sub_0_r. apply Hf. lia.
Qed.

Lemma sub_amp_one_spec nLen cs j cin cout :
  Forall (chan_ok nLen) cs -> 32768 * Z.of_nat (length cs) < 2 ^ 30 ->
  cs !! j = Some cin -> length (pAudioData cout) = nLen ->
  sub_amp_one (map (voices cs) (seq 0 nLen)) nLen cin cout = Some (heard cs nLen j cout).
Proof.
  intros Hcs Hb Hj Hl.
  assert (Hin : length (pAudioData cin) = nLen).
  { rewrite Forall_lookup in Hcs. by destruct (Hcs _ _ Hj). }
  pose proof (fun i Hi => others_bound nLen cs j i Hcs Hi Hb) as Hv.
  unfold sub_amp_one, heard. destruct (amp cout) eqn:Ha; simpl.
  - rewrite loop1_all by done. simpl. do 2 f_equal.
    rewrite <- Hl. clear. generalize 0%nat.
    induction (pAudioData cout); simpl; intros; f_equal; auto.
  - erewrite (sub_upd_spec _ _
      (fun i => clamp16 (gain (amp cout) (voices (others cs j) i)))
      _ _ _ _ Hin Hl); rewrite Ha; simpl; [done|].
    intros i Hi. specialize (Hv i Hi).
    by rewrite sature32_clamp, (voices_others cs j cin i Hj), wraps_id by width_lia.
  - erewrite (sub_upd_spec _ _
      (fun i => clamp16 (gain (amp cout) (voices (others cs j) i)))
      _ _ _ _ Hin Hl); rewrite Ha; simpl; [done|].
    intros i Hi. specialize (Hv i Hi).
    rewrite sature32_clamp, (voices_others cs j cin i Hj), wraps_id by width_lia.
    by rewrite Z.shiftr_div_pow2 by lia.
  - erewrite (sub_upd_spec _ _
      (fun i => clamp16 (gain (amp cout) (voices (others cs j) i)))
      _ _ _ _ Hin Hl); rewrite Ha; simpl; [done|].
    intros i Hi. specialize (Hv i Hi).
    rewrite sature32_clamp, (voices_others cs j cin i Hj).
    rewrite (wraps_id 32 (voices _ _)) by width_lia.
    by rewrite !(wraps_id 32 (voices _ _ * 2)) by width_lia.
Qed.

Lemma fastmix_sub_amp_from nLen all k cins couts :
  Forall (chan_ok nLen) all -> 32768 * Z.of_nat (length all) < 2 ^ 30 ->
  cins = drop k all -> length couts = length cins ->
  Forall (fun c => length (pAudioData c) = nLen) couts ->
  fastmix_sub_amp (map (voices all) (seq 0 nLen)) cins couts (length cins) nLen
  = Some (imap (fun n c => heard all nLen (k + n) c) couts).
Proof.
  intros Hall Hb. revert k couts.
  induction cins as [|cin cins IH]; intros k [|cout couts] Hd Hl Hc; simpl in *; try done.
  apply Forall_cons in Hc as [Hc Hcs].
  assert (Hk : all !! k = Some cin).
  { rewrite <- (Nat.add_0_r k), <- lookup_drop, <- Hd. done. }
  erewrite sub_amp_one_spec by done. simpl.
  rewrite (IH (S k)).
  - simpl. rewrite Nat.add_0_r. do 2 f_equal. apply imap_ext. intros. simpl. f_equal. lia.
  - rewrite <- Nat.add_1_r, <- drop_drop, <- Hd. done.
  - lia.
  - done.
Qed.

(** What the samples of an output channel are: of the two amplifying modes, whose
    names promise 3 dB where the code halves and doubles, only that each is some
    function of the sum. *)
Definition heard_as (softer louder : Z -> Z) (cs : list fastmix_io_t) (nLen j : nat) (cout : fastmix_io_t)
  : fastmix_io_t :=
  set_data cout (map (fun i =>
    let v := voices (others cs j) i in
    match amp cout with
    | MIX_DISABLE => 0 | MIX_KEEP_0dB => clamp16 v | MIX_SUPP_3dB => softer v | MIX_GAIN_3dB => louder v
    end) (seq 0 nLen)).

(** C27: N-1 mixing.  Take fewer than 2^15 participants, whose input channels hold
    as many 16-bit samples as are mixed, an output channel of that length for each,
    and the column sums of the inputs in [buffer].  [fastmix_sub_amp] then leaves in
    output channel [j] exactly the sum of the other participants' samples, so that
    nobody hears his own voice: saturated to 16 bits when the channel's amplifier
    is at 0 dB, zero when the channel is disabled, and in the two modes that
    attenuate and amplify a 16-bit function of that sum alone (which function is not
    claimed: the code halves and doubles where the header says -3 dB and +3 dB). *)
Theorem fastmix_sub_amp_others nLen cs couts :
  Forall (chan_ok nLen) cs -> Z.of_nat (length cs) < 2 ^ 15 ->
  length couts = length cs ->
  Forall (fun c => length (pAudioData c) = nLen) couts ->
  exists softer louder, (forall v, in_s 16 (softer v) /\ in_s 16 (louder v)) /\
    fastmix_sub_amp (map (voices cs) (seq 0 nLen)) cs couts (length cs) nLen
    = Some (imap (heard_as softer louder cs nLen) couts).
Proof.
  intros Hcs Hb Hl Hc.
  exists (fun v => clamp16 (gain MIX_SUPP_3dB v)), (fun v => clamp16 (gain MIX_GAIN_3dB v)).
  split; [split; apply clamp16_range|].
  rewrite (fastmix_sub_amp_from nLen cs 0 cs couts) by (done || (eval_pow2; lia)).
  f_equal. apply imap_ext. intros j c _. unfold heard, heard_as. f_equal. apply map_ext. intros i.
  by destruct (amp c).
Qed.

Definition two_voices : list fastmix_io_t :=
  [mkIO MIX_KEEP_0dB [100; -5]; mkIO MIX_GAIN_3dB [30000; 7]; mkIO MIX_DISABLE [1; 2]].

Lemma fastmix_sub_amp_others_witness :
  exists out, fastmix_sub_amp (map (voices two_voices) (seq 0 2)) two_voices two_voices 3 2 = Some out /\
    pAudioData <$> out !! 0%nat = Some [30001; 9] /\ pAudioData <$> out !! 2%nat = Some [0; 0].
Proof.
  destruct (fastmix_sub_amp_others 2 two_voices two_voices) as (softer & louder & _ & E).
  - repeat constructor; simpl; unfold in_s; lia.
  - simpl. lia.
  - reflexivity.
  - repeat constructor.
  - eexists. split; [exact E|]. split; reflexivity.
Defined.
