(* ===== verification/AudioConf.v ===== *)
(** * libconf/AudioConfMix.cpp: the audio conference

    The conference keeps its media nodes in a list ordered by node type and, in
    each turn of its thread, pulls one block of samples from every node, mixes,
    and pushes to every node the sum of the others.  A node is its address;
    [nodeType] and the constants [NODE_A_IP_CODEC] and [EVENT_SAMPLES] come from
    headers that are not part of the repository and are parameters, as are the
    answers of [pullMedia] and [pushMedia].  [None] is undefined behaviour: an
    access outside an array, a dereferenced end iterator, or a branch on an
    uninitialised variable.  The counters stay far from the width of an [int]. *)

From S2P Require Import Prelude MixFunc.

Definition MAX_VOIP_OBJECT : Z := 6.
Definition MAX_MIX_OBJECT : nat := 8.

Record conf := mkConf {
  mNodeList : list Z;
  mClientNum : Z;
  mMixNum : Z;
  strong : gmap Z Z;              (* references the conference holds *)
  AudioIn : list fastmix_io_t;    (* over the [rxData] arrays *)
  AudioOut : list fastmix_io_t;   (* over the [txData] arrays *)
  buffer : option (list Z)
}.

Definition set_nodes (l : list Z) (clients num : Z) (r : gmap Z Z) (c : conf) : conf :=
  mkConf l clients num r (AudioIn c) (AudioOut c) (buffer c).
Definition set_audio (ai ao : list fastmix_io_t) (c : conf) : conf :=
  mkConf (mNodeList c) (mClientNum c) (mMixNum c) (strong c) ai ao (buffer c).

Definition held (r : gmap Z Z) (node : Z) : Z := default 0 (r !! node).
Definition incStrong (node : Z) (r : gmap Z Z) : gmap Z Z := <[node := held r node + 1]> r.
Definition decStrong (node : Z) (r : gmap Z Z) : gmap Z Z := <[node := held r node - 1]> r.

Section conference.
Variable nodeType : Z -> Z.
Variable NODE_A_IP_CODEC : Z.
Variable EVENT_SAMPLES : nat.

Definition silent : list Z := replicate EVENT_SAMPLES 0.

(** The constructor and [initMixer]; [mem] tells whether [new] succeeded. *)
Definition newConf (mem : option (list Z)) : conf :=
  mkConf [] 0 0 ∅ (replicate MAX_MIX_OBJECT (mkIO MIX_DISABLE silent))
    (replicate MAX_MIX_OBJECT (mkIO MIX_DISABLE silent)) mem.
Definition create (mem : option (list Z)) : option conf :=
  match buffer (newConf mem) with Some _ => Some (newConf mem) | None => None end.

(** The loop that looks for the first node of a greater type. *)
Fixpoint insert_node (node : Z) (l : list Z) : list Z :=
  match l with
  | [] => [node]
  | it :: l => if nodeType node <? nodeType it then node :: it :: l else it :: insert_node node l
  end.

Definition doInsertNode (node : Z) (c : conf) : Z * conf :=
  if (MAX_MIX_OBJECT <=? length (mNodeList c))%nat then (UNKNOWN_ERROR, c)
  else
    let c := set_nodes (insert_node node (mNodeList c)) (mClientNum c) (mMixNum c)
               (incStrong node (strong c)) c in
    if nodeType node =? NODE_A_IP_CODEC then
      if MAX_VOIP_OBJECT <=? mClientNum c then (UNKNOWN_ERROR, c)
      else (NO_ERROR, set_nodes (mNodeList c) (mClientNum c + 1) (mMixNum c + 1) (strong c) c)
    else (NO_ERROR, set_nodes (mNodeList c) (mClientNum c) (mMixNum c + 1) (strong c) c).

(** [std::find] and [erase]. *)
Fixpoint erase_node (node : Z) (l : list Z) : option (list Z) :=
  match l with
  | [] => None
  | it :: l => if it =? node then Some l else l ← erase_node node l; Some (it :: l)
  end.

(** What it does apart from logging: its [LOGD] reads the list node through the
    iterator that [erase] has just invalidated, which is undefined in a build that
    logs at that level. *)
Definition doRemoveNode (node : Z) (c : conf) : Z * conf :=
  match erase_node node (mNodeList c) with
  | Some l =>
      (NO_ERROR, set_nodes l (if nodeType node =? NODE_A_IP_CODEC then mClientNum c - 1 else mClientNum c)
                   (mMixNum c - 1) (decStrong node (strong c)) c)
  | None => (NO_ERROR, c)
  end.

(** The destructor drops the references. *)
Definition destroy (c : conf) : gmap Z Z := fold_left (fun r node => decStrong node r) (mNodeList c) (strong c).

Definition mix (pInput : list fastmix_io_t) (buffer : option (list Z)) (pFull : option fastmix_io_t)
    (pInter : option (list fastmix_io_t))
  : option (Z * list fastmix_io_t * option (list Z) * option fastmix_io_t * option (list fastmix_io_t)) :=
  match buffer with
  | None => Some (-1, pInput, buffer, pFull, pInter)
  | Some buf =>
      ins ← fastmix_pre_amp pInput MAX_MIX_OBJECT EVENT_SAMPLES;
      buf ← fastmix_add ins buf MAX_MIX_OBJECT EVENT_SAMPLES;
      full ← match pFull with
             | Some f => f ← fastmix_sat_amp buf f EVENT_SAMPLES; Some (Some f) | None => Some None end;
      inter ← match pInter with
              | Some o => o ← fastmix_sub_amp buf ins o MAX_MIX_OBJECT EVENT_SAMPLES; Some (Some o)
              | None => Some None end;
      Some (NO_ERROR, ins, Some buf, full, inter)
  end.

(** *** One turn of [threadLoop] *)

(** The answer of [pullMedia]: the status, the content of the array, and the
    buffer's quick data (the volume) and size. *)
Record pulled := mkPulled { pret : Z; pdata : list Z; pvol : Z; psize : Z }.

Definition set_amp (a : fastmix_vol_t) (c : fastmix_io_t) : fastmix_io_t := mkIO a (pAudioData c).

(** The pulling loop from node [i] on: the last status ([None] when the loop
    never ran), the channels. *)
Fixpoint pull_loop (i : nat) (nodes : list Z) (pulls : list pulled) (ret : option Z)
    (ai ao : list fastmix_io_t) : option (option Z * list fastmix_io_t * list fastmix_io_t) :=
  match nodes, pulls with
  | [], _ => Some (ret, ai, ao)
  | _ :: nodes, p :: pulls =>
      ci ← ai !! i; co ← ao !! i;
      if negb (pret p =? NO_ERROR) then Some (Some (pret p), <[i := set_data ci (pdata p)]> ai, ao)
      else
        let a := if (i =? 0)%nat || (pvol p =? 1) then MIX_KEEP_0dB else MIX_DISABLE in
        pull_loop (S i) nodes pulls (Some NO_ERROR) (<[i := mkIO a (pdata p)]> ai)
          (<[i := set_amp MIX_KEEP_0dB co]> ao)
  | _ :: _, [] => None
  end.

(** What a node is given: its address, the samples and the size of the range. *)
Definition push : Type := Z * list Z * Z.

Fixpoint push_loop (i : nat) (nodes : list Z) (size : Z) (ao : list fastmix_io_t) : option (list push) :=
  match nodes with
  | [] => Some []
  | node :: nodes =>
      co ← ao !! i; r ← push_loop (S i) nodes size ao; Some ((node, pAudioData co, size) :: r)
  end.

(** A turn with the nodes' answers [pulls], in the order of the list. *)
Definition turn (pulls : list pulled) (c : conf) : option (list push * conf) :=
  let c := set_audio (set_amp MIX_DISABLE <$> AudioIn c) (set_amp MIX_DISABLE <$> AudioOut c) c in
  if negb (mClientNum c =? 0) then
    '(ret, ai, ao) ← pull_loop 0 (mNodeList c) pulls None (AudioIn c) (AudioOut c);
    ret ← ret;
    if negb (ret =? NO_ERROR) then Some ([], set_audio ai ao c)
    else
      first ← pulls !! 0%nat;
      '(_, ai, buf, _, inter) ← mix ai (buffer c) None (Some ao);
      ao ← inter;
      r ← push_loop 0 (mNodeList c) (psize first) ao;
      Some (r, mkConf (mNodeList c) (mClientNum c) (mMixNum c) (strong c) ai ao buf)
  else
    match mNodeList c, pulls with
    | n0 :: n1 :: _, p0 :: p1 :: _ =>
        c0 ← AudioIn c !! 0%nat; c1 ← AudioIn c !! 1%nat;
        Some ([(n0, pdata p1, psize p1); (n1, pdata p0, psize p0)],
              set_audio (<[1%nat := set_data c1 (pdata p1)]> (<[0%nat := set_data c0 (pdata p0)]> (AudioIn c)))
                (AudioOut c) c)
    | _, _ => None
    end.

(** ** The node list *)

Definition sorted_nodes (l : list Z) : Prop := StronglySorted (fun a b => nodeType a <= nodeType b) l.

Lemma insert_node_perm node l : insert_node node l ≡ₚ node :: l.
Proof.
  induction l as [|it l IH]; simpl; [done|]. case_if; [done|]. rewrite IH. constructor.
Qed.

Lemma insert_node_sorted node l : sorted_nodes l -> sorted_nodes (insert_node node l).
Proof.
  intros H. induction H as [|it l Hs IH Hf]; simpl; [by repeat constructor|].
  case_if.
  - constructor; [by constructor|]. constructor; [lia|]. eapply Forall_impl; [exact Hf|]. simpl. lia.
  - constructor; [done|]. rewrite insert_node_perm. constructor; [lia|done].
Qed.


Lemma erase_node_spec node l :
  match erase_node node l with
  | Some l' => exists l1 l2, l = l1 ++ node :: l2 /\ l' = l1 ++ l2 /\ node ∉ l1
  | None => node ∉ l
  end.
Proof.
  induction l as [|it l IH]; simpl; [set_solver|]. destruct (Z.eqb_spec it node) as [->|Hne].
  - exists [], l. set_solver.
  - destruct (erase_node node l) as [l'|]; simpl; [|set_solver].
    destruct IH as (l1 & l2 & -> & -> & Hn). exists (it :: l1), l2. set_solver.
Qed.

Definition occurrences (l : list Z) (node : Z) : Z := Z.of_nat (length (filter (fun x => x = node) l)).

(** The nodes of the conference: ordered by type, at most eight, each held by
    as many references as it has places in the list. *)
Record nodes_ok (c : conf) : Prop := {
  nodes_sorted : sorted_nodes (mNodeList c);
  nodes_limit : (length (mNodeList c) <= MAX_MIX_OBJECT)%nat;
  nodes_held node : held (strong c) node = occurrences (mNodeList c) node
}.

Lemma occurrences_perm l1 l2 node : l1 ≡ₚ l2 -> occurrences l1 node = occurrences l2 node.
Proof. intros H. unfold occurrences. by rewrite H. Qed.

Lemma occurrences_cons x l node :
  occurrences (x :: l) node = (if decide (x = node) then 1 else 0) + occurrences l node.
Proof. unfold occurrences. rewrite filter_cons. destruct (decide (x = node)); simpl; lia. Qed.

Lemma held_insert r x y (v : Z) : held (<[x := v]> r) y = if decide (x = y) then v else held r y.
Proof.
  unfold held. destruct (decide (x = y)) as [->|Hne]; [by rewrite lookup_insert_eq|by rewrite lookup_insert_ne].
Qed.

Lemma doInsertNode_ok node c : nodes_ok c -> nodes_ok (doInsertNode node c).2.
Proof.
  intros [H1 H2 H3]. unfold doInsertNode. case_if; [done|]. apply Nat.leb_gt in Heqb.
  assert (forall k m, nodes_ok (set_nodes (insert_node node (mNodeList c)) k m (incStrong node (strong c)) c)) as K.
  { intros k m. split; cbn [mNodeList strong set_nodes].
    - by apply insert_node_sorted.
    - rewrite (Permutation_length (insert_node_perm _ _)). simpl. lia.
    - intros x. rewrite (occurrences_perm _ _ _ (insert_node_perm _ _)), occurrences_cons.
      unfold incStrong. rewrite held_insert, !H3. destruct (decide (node = x)) as [->|]; lia. }
  case_if; [|apply K]. case_if; apply K.
Qed.

Lemma sorted_erase l1 x l2 : sorted_nodes (l1 ++ x :: l2) -> sorted_nodes (l1 ++ l2).
Proof.
  intros H. induction l1 as [|y l1 IH]; simpl in *.
  - by apply StronglySorted_inv in H as [? _].
  - apply StronglySorted_inv in H as [Hs Hf]. constructor; [by apply IH|].
    apply Forall_app in Hf as [? Hf]. apply Forall_app. split; [done|]. by inversion Hf.
Qed.

Lemma doRemoveNode_ok node c : nodes_ok c -> nodes_ok (doRemoveNode node c).2.
Proof.
  intros [H1 H2 H3]. unfold doRemoveNode. pose proof (erase_node_spec node (mNodeList c)) as Hs.
  destruct (erase_node node (mNodeList c)) as [l'|]; [|done]. destruct Hs as (l1 & l2 & E & -> & Hn).
  rewrite E in H1, H2. split; cbn [mNodeList strong set_nodes snd].
  - by eapply sorted_erase.
  - rewrite length_app in *. simpl in H2. lia.
  - intros x. unfold decStrong. rewrite held_insert, !H3, E.
    rewrite !(occurrences_perm (l1 ++ node :: l2) (node :: l1 ++ l2)) by (symmetry; apply Permutation_middle).
    rewrite !occurrences_cons. destruct (decide (node = x)) as [->|]; [rewrite decide_True by done|]; lia.
Qed.

(** *** Runs of insertions and removals *)

Inductive conf_op := Insert (node : Z) | Remove (node : Z).
Definition conf_exec (o : conf_op) (c : conf) : Z * conf :=
  match o with Insert n => doInsertNode n c | Remove n => doRemoveNode n c end.
Fixpoint conf_run (os : list conf_op) (c : conf) : list Z * conf :=
  match os with
  | [] => ([], c)
  | o :: os => let '(r, c) := conf_exec o c in let '(rs, c) := conf_run os c in (r :: rs, c)
  end.

Lemma conf_run_ok os c : nodes_ok c -> nodes_ok (conf_run os c).2.
Proof.
  revert c. induction os as [|o os IH]; intros c H; [done|]. cbn [conf_run].
  assert (nodes_ok (conf_exec o c).2) as H' by (destruct o; [by apply doInsertNode_ok|by apply doRemoveNode_ok]).
  destruct (conf_exec o c) as [r c']. specialize (IH c' H'). by destruct (conf_run os c') as [rs c''].
Qed.

Lemma newConf_nodes mem : nodes_ok (newConf mem).
Proof. split; simpl; [constructor|lia|done]. Qed.

Definition codecs (c : conf) : Z := Z.of_nat (length (filter (fun n => nodeType n = NODE_A_IP_CODEC) (mNodeList c))).

Lemma codecs_perm l1 l2 : l1 ≡ₚ l2 ->
  Z.of_nat (length (filter (fun n => nodeType n = NODE_A_IP_CODEC) l1))
  = Z.of_nat (length (filter (fun n => nodeType n = NODE_A_IP_CODEC) l2)).
Proof. intros H. by rewrite H. Qed.

Lemma codecs_cons x l :
  Z.of_nat (length (filter (fun n => nodeType n = NODE_A_IP_CODEC) (x :: l)))
  = (if nodeType x =? NODE_A_IP_CODEC then 1 else 0)
    + Z.of_nat (length (filter (fun n => nodeType n = NODE_A_IP_CODEC) l)).
Proof.
  rewrite filter_cons. destruct (decide _) as [E|E].
  - rewrite (proj2 (Z.eqb_eq _ _) E). simpl. lia.
  - by rewrite (proj2 (Z.eqb_neq _ _) E).
Qed.

(** The counters agree with the list. *)
Definition counted (c : conf) : Prop :=
  mClientNum c = codecs c /\ codecs c <= MAX_VOIP_OBJECT /\ mMixNum c = Z.of_nat (length (mNodeList c)).

Lemma exec_counted o c : counted c -> (conf_exec o c).1 <> UNKNOWN_ERROR -> counted (conf_exec o c).2.
Proof.
  intros (H1 & H2 & H3). unfold counted, codecs in *. destruct o as [node|node]; cbn [conf_exec].
  - unfold doInsertNode. case_if; [done|].
    cbn [mNodeList mClientNum mMixNum strong set_nodes].
    pose proof (codecs_perm _ _ (insert_node_perm node (mNodeList c))) as E. rewrite codecs_cons in E.
    pose proof (Permutation_length (insert_node_perm node (mNodeList c))) as L. cbn [length] in L.
    case_if; [case_if; [done|]|]; intros _; cbn [snd mNodeList mClientNum mMixNum set_nodes]; lia.
  - intros _. unfold doRemoveNode. pose proof (erase_node_spec node (mNodeList c)) as Hs.
    destruct (erase_node node (mNodeList c)) as [l'|]; [|done]. destruct Hs as (l1 & l2 & El & -> & _).
    cbn [snd mNodeList mClientNum mMixNum set_nodes].
    assert (mNodeList c ≡ₚ node :: l1 ++ l2) as P by (rewrite El; symmetry; apply Permutation_middle).
    pose proof (codecs_perm _ _ P) as E. rewrite codecs_cons in E.
    pose proof (Permutation_length P) as L. cbn [length] in L. case_if; lia.
Qed.

Lemma run_counted os c : counted c -> UNKNOWN_ERROR ∉ (conf_run os c).1 -> counted (conf_run os c).2.
Proof.
  revert c. induction os as [|o os IH]; intros c H; [done|]. cbn [conf_run].
  pose proof (exec_counted o c H) as H'. destruct (conf_exec o c) as [r c']. cbn [fst snd] in H'.
  specialize (IH c'). destruct (conf_run os c') as [rs c'']. cbn [fst snd] in *.
  rewrite not_elem_of_cons. intros [Hr Hrs]. apply IH; [apply H'; congruence|done].
Qed.

Lemma destroy_none l r node :
  held (fold_left (fun r n => decStrong n r) l r) node = held r node - occurrences l node.
Proof.
  revert r. induction l as [|x l IH]; intros r; cbn [fold_left]; [unfold occurrences; simpl; lia|].
  rewrite IH, occurrences_cons. unfold decStrong. rewrite held_insert. destruct (decide (x = node)) as [->|]; lia.
Qed.

(** Whatever sequence of nodes joins and leaves a conference, its list
    stays ordered by node type and within eight nodes, every node in it is
    held by one reference per place, and the destructor gives all references
    back; if no call was refused, the conference's counters agree with its
    list and at most six IP codecs take part. *)
Theorem conference_membership mem os :
  let c := (conf_run os (newConf mem)).2 in
  sorted_nodes (mNodeList c) /\ (length (mNodeList c) <= MAX_MIX_OBJECT)%nat
  /\ (forall node, held (strong c) node = occurrences (mNodeList c) node)
  /\ (forall node, held (destroy c) node = 0)
  /\ (UNKNOWN_ERROR ∉ (conf_run os (newConf mem)).1 ->
      mClientNum c = codecs c /\ codecs c <= MAX_VOIP_OBJECT /\ mMixNum c = Z.of_nat (length (mNodeList c))).
Proof.
  intros c. destruct (conf_run_ok os (newConf mem) (newConf_nodes mem)) as [H1 H2 H3]. fold c in H1, H2, H3.
  split_and!; [done|done|done| |].
  - intros node. unfold destroy. rewrite destroy_none, H3. lia.
  - intros Hr. apply run_counted; [|done]. split_and!; [done| |done]. unfold codecs, MAX_VOIP_OBJECT. simpl. lia.
Qed.

(** When the limit of six IP codecs is reached, [doInsertNode] refuses the
    seventh after it has linked it: the node answers UNKNOWN_ERROR but takes
    part, and when it leaves, both counters end one lower than they were, so
    the limit no longer holds. *)
Theorem refused_codec_stays node c :
  (length (mNodeList c) < MAX_MIX_OBJECT)%nat -> nodeType node = NODE_A_IP_CODEC ->
  MAX_VOIP_OBJECT <= mClientNum c -> node ∉ mNodeList c ->
  let '(r1, c1) := doInsertNode node c in
  let '(r2, c2) := doRemoveNode node c1 in
  r1 = UNKNOWN_ERROR /\ node ∈ mNodeList c1 /\ held (strong c1) node = held (strong c) node + 1
  /\ r2 = NO_ERROR /\ mNodeList c2 ≡ₚ mNodeList c
  /\ mClientNum c2 = mClientNum c - 1 /\ mMixNum c2 = mMixNum c - 1.
Proof.
  intros HL HT HC Hn. unfold doInsertNode.
  rewrite (proj2 (Nat.leb_gt _ _)) by done. rewrite HT, Z.eqb_refl.
  cbn [mNodeList mClientNum mMixNum strong set_nodes]. rewrite (proj2 (Z.leb_le _ _)) by done.
  unfold doRemoveNode. cbn [mNodeList mClientNum mMixNum strong set_nodes].
  pose proof (erase_node_spec node (insert_node node (mNodeList c))) as Hs.
  pose proof (insert_node_perm node (mNodeList c)) as P.
  destruct (erase_node node (insert_node node (mNodeList c))) as [l'|].
  - destruct Hs as (l1 & l2 & E & -> & _). rewrite HT, Z.eqb_refl. cbn [mNodeList mClientNum mMixNum strong set_nodes].
    split_and!; try done.
    + rewrite P. set_solver.
    + unfold incStrong. by rewrite held_insert, decide_True.
    + rewrite E, <- Permutation_middle in P. by apply Permutation_cons_inv in P.
  - exfalso. apply Hs. rewrite P. set_solver.
Qed.

(** ** What a turn plays *)

Definition block_ok (d : list Z) : Prop := length d = EVENT_SAMPLES /\ Forall (in_s 16) d.

(** The arrays behind the channels keep their size. *)
Record audio_ok (c : conf) : Prop := {
  audio_in : length (AudioIn c) = MAX_MIX_OBJECT;
  audio_out : length (AudioOut c) = MAX_MIX_OBJECT;
  audio_in_ok : Forall (chan_ok EVENT_SAMPLES) (AudioIn c);
  audio_out_ok : Forall (fun o => length (pAudioData o) = EVENT_SAMPLES) (AudioOut c);
  audio_buffer : exists b, buffer c = Some b /\ length b = EVENT_SAMPLES
}.

Definition opened (i : nat) (p : pulled) : fastmix_io_t :=
  mkIO (if (i =? 0)%nat || (pvol p =? 1) then MIX_KEEP_0dB else MIX_DISABLE) (pdata p).

Lemma pull_loop_all nodes pulls pre_i ai pre_o ao ret :
  length pulls = length nodes -> Forall (fun p => pret p = NO_ERROR) pulls ->
  (length nodes <= length ai)%nat -> (length nodes <= length ao)%nat -> length pre_i = length pre_o ->
  exists ret', pull_loop (length pre_i) nodes pulls ret (pre_i ++ ai) (pre_o ++ ao)
    = Some (ret', pre_i ++ imap (fun k p => opened (length pre_i + k) p) pulls ++ drop (length nodes) ai,
            pre_o ++ (set_amp MIX_KEEP_0dB <$> take (length nodes) ao) ++ drop (length nodes) ao)
    /\ ret' = match nodes with [] => ret | _ => Some NO_ERROR end.
Proof.
  revert pulls pre_i ai pre_o ao ret.
  induction nodes as [|n nodes IH]; intros [|p pulls] pre_i ai pre_o ao ret HL HF Hi Ho Hp; try done.
  - cbn [pull_loop]. eexists. split; [|done]. by rewrite !drop_0.
  - destruct ai as [|ci ai]; [simpl in Hi; lia|]. destruct ao as [|co ao]; [simpl in Ho; lia|].
    apply Forall_cons in HF as [Hr HF]. cbn [pull_loop].
    rewrite (list_lookup_middle pre_i) by done. rewrite (list_lookup_middle pre_o ao co) by done.
    cbn [mbind option_bind]. rewrite Hr. cbn [negb Z.eqb NO_ERROR].
    assert (Hins : forall (pre : list fastmix_io_t) y x l, <[length pre := y]> (pre ++ x :: l) = (pre ++ [y]) ++ l).
    { intros. by rewrite insert_app_r_alt, Nat.sub_diag, <- app_assoc by done. }
    rewrite Hins. rewrite Hp, Hins, <- Hp.
    replace (S (length pre_i)) with (length (pre_i ++ [opened (length pre_i) p])) by (rewrite length_app; simpl; lia).
    destruct (IH pulls (pre_i ++ [opened (length pre_i) p]) ai (pre_o ++ [set_amp MIX_KEEP_0dB co]) ao (Some NO_ERROR))
      as (ret' & E & Hret); [simpl in HL; lia|done|simpl in *; lia..|rewrite !length_app; simpl; lia|].
    exists ret'. split; [|by destruct nodes].
    unfold opened in E at 2. rewrite E, <- !app_assoc. cbn [imap app length drop take fmap list_fmap].
    rewrite Nat.add_0_r. do 5 f_equal. f_equal.
    apply imap_ext. intros k x _. simpl. f_equal. rewrite length_app. simpl. lia.
Qed.

(** The samples of one input that take part: the first node's always, the
    others' when their volume is 1. *)
Definition said (i : nat) (p : pulled) : list Z :=
  if (i =? 0)%nat || (pvol p =? 1) then pdata p else silent.

(** What the node [i] hears at sample [k] when the nodes say [V]. *)
Definition heard_by (V : list (list Z)) (i k : nat) : Z :=
  clamp16 (zsum (map (fun d => d !!! k) (take i V ++ drop (S i) V))).

Lemma map_zero (d : list Z) (f : Z -> Z) : (forall x, f x = 0) -> map f d = replicate (length d) 0.
Proof. intros H. induction d as [|x d IH]; [done|]. cbn [map length replicate]. by rewrite H, IH. Qed.

Lemma amplified_opened i p : block_ok (pdata p) -> pAudioData (amplified (opened i p)) = said i p.
Proof.
  intros [HL HR]. unfold opened, said, amplified. destruct (_ || _); cbn [amp pAudioData set_data gain].
  - by apply map_clamp16_id.
  - rewrite map_zero by done. unfold silent. by rewrite HL.
Qed.

Lemma zero_voices cs k :
  Forall (fun c => amp c = MIX_DISABLE /\ length (pAudioData c) = EVENT_SAMPLES) cs -> (k < EVENT_SAMPLES)%nat ->
  voices (map amplified cs) k = 0.
Proof.
  intros H Hk. induction H as [|c cs [Ha Hl] _ IH]; [done|]. unfold voices in *. cbn [map zsum]. rewrite IH.
  unfold amplified. cbn [pAudioData set_data]. rewrite Ha. cbn [gain]. rewrite map_zero by done.
  rewrite Hl, list_lookup_total_alt, lookup_replicate_2 by done. simpl. lia.
Qed.

Lemma others_app cs1 cs2 i : (i < length cs1)%nat -> others (cs1 ++ cs2) i = others cs1 i ++ cs2.
Proof.
  intros Hi. unfold others. rewrite take_app_le, drop_app_le by lia. by rewrite app_assoc.
Qed.

Lemma voices_app cs1 cs2 k : voices (cs1 ++ cs2) k = voices cs1 k + voices cs2 k.
Proof. unfold voices. by rewrite map_app, zsum_app. Qed.

Lemma voices_said pulls i k :
  Forall (fun p => block_ok (pdata p)) pulls ->
  clamp16 (voices (others (map amplified (imap opened pulls)) i) k) = heard_by (imap said pulls) i k.
Proof.
  intros H. unfold heard_by. do 2 f_equal. unfold voices, others.
  assert (map pAudioData (map amplified (imap opened pulls)) = imap said pulls) as E.
  { rewrite map_map. apply list_eq. intros j.
    change (map ?f ?l !! j) with ((f <$> l) !! j). rewrite list_lookup_fmap, !list_lookup_imap.
    destruct (pulls !! j) as [p|] eqn:Ej; [|done]. cbn [fmap option_fmap option_map]. f_equal.
    apply amplified_opened. by apply (Forall_lookup_1 _ _ _ _ H Ej). }
  rewrite <- E, <- map_map with (f := pAudioData) (g := fun d => d !!! k).
  f_equal. by rewrite map_app, !firstn_map, !skipn_map.
Qed.

Lemma push_loop_all nodes size pre ao :
  (length nodes <= length ao)%nat ->
  push_loop (length pre) nodes size (pre ++ ao)
  = Some (imap (fun k node => (node, pAudioData (default (mkIO MIX_DISABLE []) (ao !! k)), size)) nodes).
Proof.
  revert pre ao. induction nodes as [|n nodes IH]; intros pre ao H; [done|].
  destruct ao as [|co ao]; [simpl in H; lia|]. cbn [push_loop]. rewrite (list_lookup_middle pre) by done.
  cbn [mbind option_bind]. specialize (IH (pre ++ [co]) ao). rewrite length_app, <- app_assoc in IH.
  cbn [length app] in IH. rewrite Nat.add_1_r in IH. rewrite IH by (simpl in H; lia). done.
Qed.

Lemma pre_silent c : audio_ok c ->
  Forall (chan_ok EVENT_SAMPLES) (set_amp MIX_DISABLE <$> AudioIn c)
  /\ Forall (fun c => amp c = MIX_DISABLE /\ length (pAudioData c) = EVENT_SAMPLES) (set_amp MIX_DISABLE <$> AudioIn c).
Proof.
  intros A. pose proof (audio_in_ok c A) as H. split; apply Forall_fmap; eapply Forall_impl; try exact H.
  - intros x [? ?]. done.
  - intros x [? ?]. done.
Qed.

Lemma chan_opened i pulls : Forall (fun p => block_ok (pdata p)) pulls ->
  Forall (chan_ok EVENT_SAMPLES) (imap (fun k p => opened (i + k) p) pulls).
Proof.
  intros H. revert i. induction H as [|p pulls Hp _ IH]; intros i; [constructor|]. cbn [imap]. constructor; [done|].
  specialize (IH (S i)). erewrite imap_ext; [exact IH|]. intros k x _. simpl. f_equal. lia.
Qed.

Lemma mix_ok cs outs buf :
  length cs = MAX_MIX_OBJECT -> Forall (chan_ok EVENT_SAMPLES) cs -> length buf = EVENT_SAMPLES ->
  length outs = MAX_MIX_OBJECT -> Forall (fun o => length (pAudioData o) = EVENT_SAMPLES) outs ->
  mix cs (Some buf) None (Some outs)
  = Some (NO_ERROR, map amplified cs, Some (map (voices (map amplified cs)) (seq 0 EVENT_SAMPLES)), None,
          Some (imap (heard (map amplified cs) EVENT_SAMPLES) outs)).
Proof.
  intros L1 H1 L2 L3 H3.
  assert (HA : Forall (chan_ok EVENT_SAMPLES) (map amplified cs)).
  { apply Forall_map. eapply Forall_impl; [exact H1|]. intros x. apply amplified_ok. }
  assert (LA : length (map amplified cs) = MAX_MIX_OBJECT) by (by rewrite length_map).
  unfold mix. rewrite <- L1 at 1. rewrite fastmix_pre_amp_spec by done. cbn [mbind option_bind].
  rewrite <- LA at 1. rewrite (fastmix_add_spec EVENT_SAMPLES) by (done || (rewrite LA; vm_compute; done)).
  cbn [mbind option_bind]. rewrite <- LA at 1.
  rewrite (fastmix_sub_amp_from EVENT_SAMPLES (map amplified cs) 0 (map amplified cs) outs)
    by (done || (rewrite LA; (vm_compute; done) || done)).
  done.
Qed.

(** The channels after all nodes were pulled. *)
Definition pulled_in (pulls : list pulled) (c : conf) : list fastmix_io_t :=
  imap opened pulls ++ drop (length pulls) (set_amp MIX_DISABLE <$> AudioIn c).
Definition pulled_out (n : nat) (c : conf) : list fastmix_io_t :=
  (set_amp MIX_KEEP_0dB <$> take n (set_amp MIX_DISABLE <$> AudioOut c))
  ++ drop n (set_amp MIX_DISABLE <$> AudioOut c).

Lemma pulled_in_ok pulls c :
  audio_ok c -> (length pulls <= MAX_MIX_OBJECT)%nat -> Forall (fun p => block_ok (pdata p)) pulls ->
  length (pulled_in pulls c) = MAX_MIX_OBJECT /\ Forall (chan_ok EVENT_SAMPLES) (pulled_in pulls c).
Proof.
  intros A HL HB. destruct (pre_silent c A) as [HS1 _]. pose proof (audio_in c A) as A1. unfold pulled_in. split.
  - rewrite length_app, length_imap, length_drop, length_fmap. lia.
  - apply Forall_app. split; [by apply (chan_opened 0)|]. by apply Forall_drop.
Qed.

Lemma pulled_out_ok n c :
  audio_ok c -> (n <= MAX_MIX_OBJECT)%nat ->
  length (pulled_out n c) = MAX_MIX_OBJECT
  /\ Forall (fun o => length (pAudioData o) = EVENT_SAMPLES) (pulled_out n c)
  /\ forall i, (i < n)%nat -> exists o, pulled_out n c !! i = Some o /\ amp o = MIX_KEEP_0dB.
Proof.
  intros A Hn. pose proof (audio_out c A) as A2. pose proof (audio_out_ok c A) as A4. unfold pulled_out.
  set (ao := set_amp MIX_DISABLE <$> AudioOut c).
  assert (length ao = MAX_MIX_OBJECT) as Lo by (unfold ao; by rewrite length_fmap).
  assert (Forall (fun o => length (pAudioData o) = EVENT_SAMPLES) ao) as Hao
    by (unfold ao; apply Forall_fmap; eapply Forall_impl; [exact A4|done]).
  split_and!.
  - rewrite length_app, length_fmap, length_take, length_drop. lia.
  - apply Forall_app. split; [|by apply Forall_drop].
    apply Forall_fmap. eapply Forall_impl; [apply Forall_take, Hao|done].
  - intros i Hi. destruct (lookup_lt_is_Some_2 ao i) as [co Hco]; [lia|].
    rewrite lookup_app_l by (rewrite length_fmap, length_take; lia).
    rewrite list_lookup_fmap, lookup_take_lt, Hco by done. by eexists.
Qed.

(** What channel [i] holds after the mix. *)
Lemma mixed_heard pulls c i o :
  audio_ok c -> Forall (fun p => block_ok (pdata p)) pulls -> (i < length pulls)%nat -> amp o = MIX_KEEP_0dB ->
  pAudioData (heard (map amplified (pulled_in pulls c)) EVENT_SAMPLES i o)
  = map (heard_by (imap said pulls) i) (seq 0 EVENT_SAMPLES).
Proof.
  intros A HB Hi Ho. destruct (pre_silent c A) as [_ HS2]. unfold heard. cbn [pAudioData set_data]. rewrite Ho.
  apply map_ext_in. intros k Hk. apply in_seq in Hk. cbn [gain]. rewrite <- voices_said by done. f_equal.
  unfold pulled_in. rewrite map_app, others_app by (rewrite length_map, length_imap; lia).
  rewrite voices_app, (zero_voices _ k) by (lia || by apply Forall_drop). by rewrite Z.add_0_r.
Qed.

(** C28: One turn of the mixing thread with clients in the conference: after
    every node was pulled, each node is pushed the saturated sum of what the
    other nodes said, sample by sample and without its own voice; nodes whose
    volume is not 1 are muted, except the first; nothing outside the arrays is
    touched, and the conference is ready for the next turn. *)
Theorem turn_mixes pulls c :
  audio_ok c -> (length (mNodeList c) <= MAX_MIX_OBJECT)%nat -> mClientNum c <> 0 ->
  length pulls = length (mNodeList c) -> Forall (fun p => pret p = NO_ERROR /\ block_ok (pdata p)) pulls ->
  forall p0, pulls !! 0%nat = Some p0 ->
  exists c', turn pulls c
    = Some (imap (fun i node => (node, map (heard_by (imap said pulls) i) (seq 0 EVENT_SAMPLES), psize p0))
              (mNodeList c), c')
    /\ audio_ok c' /\ mNodeList c' = mNodeList c /\ mClientNum c' = mClientNum c.
Proof.
  intros A HL HC Lp HF p0 Hp0.
  assert (Forall (fun p => pret p = NO_ERROR) pulls /\ Forall (fun p => block_ok (pdata p)) pulls) as [HR HB]
    by (split; eapply Forall_impl; try exact HF; by intros ? []).
  pose proof A as [A1 A2 _ _ (buf & Eb & Lb)].
  assert (HLp : (length pulls <= MAX_MIX_OBJECT)%nat) by lia.
  destruct (pulled_in_ok pulls c A HLp HB) as [Lins Hins].
  destruct (pulled_out_ok (length (mNodeList c)) c A HL) as (Louts & Houts & Hkeep).
  unfold turn. cbn [mNodeList mClientNum AudioIn AudioOut buffer set_audio].
  rewrite (proj2 (Z.eqb_neq _ _)) by done. cbn [negb].
  destruct (pull_loop_all (mNodeList c) pulls [] (set_amp MIX_DISABLE <$> AudioIn c) []
    (set_amp MIX_DISABLE <$> AudioOut c) None) as (ret & E & Hret); [done|done|rewrite length_fmap; lia..|done|].
  cbn [app length Nat.add] in E. rewrite E. cbn [mbind option_bind].
  destruct (mNodeList c) as [|n nodes] eqn:En; [destruct pulls; done|]. rewrite <- En in *. subst ret.
  cbn [mbind option_bind negb Z.eqb NO_ERROR]. rewrite Hp0, Eb. cbn [mbind option_bind].
  assert (imap (fun k p => opened k p) pulls ++ drop (length (mNodeList c)) (set_amp MIX_DISABLE <$> AudioIn c)
    = pulled_in pulls c) as -> by (unfold pulled_in; by rewrite Lp).
  fold (pulled_out (length (mNodeList c)) c).
  rewrite (mix_ok (pulled_in pulls c) (pulled_out (length (mNodeList c)) c) buf) by done. cbn [mbind option_bind].
  set (outs := imap (heard _ _) _).
  assert (Lo : length outs = MAX_MIX_OBJECT) by (unfold outs; by rewrite length_imap).
  pose proof (push_loop_all (mNodeList c) (psize p0) [] outs ltac:(lia)) as P.
  cbn [app length] in P. rewrite P. cbn [mbind option_bind]. eexists. split; [do 2 f_equal|].
  - apply imap_ext. intros i node Hi. f_equal. f_equal. apply lookup_lt_Some in Hi.
    unfold outs. rewrite list_lookup_imap. destruct (Hkeep i Hi) as (o & -> & Ho).
    cbn [fmap option_fmap option_map default]. apply mixed_heard; [done|done|lia|done].
  - split; [|done]. split; cbn [AudioIn AudioOut buffer].
    + by rewrite length_map.
    + done.
    + apply Forall_map. eapply Forall_impl; [exact Hins|]. intros x. apply amplified_ok.
    + apply Forall_lookup. intros i o Ho. unfold outs in Ho. rewrite list_lookup_imap in Ho.
      destruct (pulled_out _ c !! i); [|done]. injection Ho as <-. unfold heard. cbn [pAudioData set_data].
      by rewrite length_map, length_seq.
    + eexists. split; [done|]. by rewrite length_map, length_seq.
Qed.

(** A new conference is ready for a turn, and joining and leaving keep it so. *)
Lemma newConf_audio b : length b = EVENT_SAMPLES -> audio_ok (newConf (Some b)).
Proof.
  intros L. assert (chan_ok EVENT_SAMPLES (mkIO MIX_DISABLE silent)) as K.
  { split; cbn [pAudioData]; unfold silent; [apply length_replicate|apply Forall_replicate; unfold in_s; lia]. }
  split; cbn [newConf AudioIn AudioOut buffer].
  - apply length_replicate.
  - apply length_replicate.
  - by apply Forall_replicate.
  - apply Forall_replicate. apply K.
  - by exists b.
Qed.

Lemma conf_run_audio os c : audio_ok c -> audio_ok (conf_run os c).2.
Proof.
  revert c. induction os as [|o os IH]; intros c A; [done|]. cbn [conf_run].
  assert (audio_ok (conf_exec o c).2) as A'.
  { destruct A as [A1 A2 A3 A4 A5]. destruct o as [node|node]; cbn [conf_exec]; unfold doInsertNode, doRemoveNode.
    - repeat case_if; by split.
    - destruct (erase_node node (mNodeList c)); by split. }
  destruct (conf_exec o c) as [r c']. specialize (IH c' A'). by destruct (conf_run os c').
Qed.

(** Without clients the thread takes the list to hold two nodes (it says so)
    and dereferences the end of a shorter list. *)
Lemma idle_turn_needs_two pulls c :
  mClientNum c = 0 -> (length (mNodeList c) < 2)%nat -> turn pulls c = None.
Proof.
  intros HC HL. unfold turn. cbn [mClientNum mNodeList set_audio]. rewrite HC. cbn [negb Z.eqb].
  destruct (mNodeList c) as [|? [|? ?]]; [done..|simpl in HL; lia].
Qed.
End conference.

(** ** A small conference: nodes 1 (type 0), 2 and 3 (codecs, type 5) *)

Definition some_type (node : Z) : Z := if node =? 1 then 0 else 5.
Definition three_nodes : conf :=
  (conf_run some_type 5 [Insert 2; Insert 1; Insert 3] (newConf 2 (Some [0; 0]))).2.
Definition three_pulls : list pulled := [mkPulled 0 [1; 2] 0 4; mkPulled 0 [30000; 10] 1 4; mkPulled 0 [20000; 20] 0 4].

Lemma conference_membership_witness :
  codecs some_type 5 three_nodes <= MAX_VOIP_OBJECT /\ mNodeList three_nodes = [1; 2; 3].
Proof.
  destruct (conference_membership some_type 5 2 (Some [0; 0]) [Insert 2; Insert 1; Insert 3]) as (_ & _ & _ & _ & H).
  split; [|vm_compute; reflexivity]. apply H.
  vm_compute. intros Hin. inversion Hin; subst. all: try (inversion H2; subst; inversion H3; subst; inversion H4).
Defined.

Lemma turn_mixes_witness :
  exists c', turn 2 three_pulls three_nodes = Some ([(1, [30000; 10], 4); (2, [1; 2], 4); (3, [30001; 12], 4)], c').
Proof.
  destruct (turn_mixes 2 three_pulls three_nodes) with (p0 := mkPulled 0 [1; 2] 0 4) as (c' & E & _).
  - by apply conf_run_audio, newConf_audio.
  - vm_compute. lia.
  - vm_compute. congruence.
  - reflexivity.
  - repeat constructor; simpl; unfold in_s; lia.
  - reflexivity.
  - exists c'. rewrite E. vm_compute. reflexivity.
Defined.

Definition six_codecs : conf :=
  (conf_run some_type 5 [Insert 2; Insert 3; Insert 4; Insert 5; Insert 6; Insert 7] (newConf 2 (Some [0; 0]))).2.

Lemma refused_codec_stays_witness :
  mClientNum six_codecs = 6
  /\ mClientNum (doRemoveNode some_type 5 8 (doInsertNode some_type 5 8 six_codecs).2).2 = 5.
Proof.
  split; [vm_compute; reflexivity|].
  pose proof (refused_codec_stays some_type 5 8 six_codecs) as H.
  destruct (doInsertNode some_type 5 8 six_codecs) as [r1 c1]. destruct (doRemoveNode some_type 5 8 c1) as [r2 c2] eqn:E2.
  destruct H as (_ & _ & _ & _ & _ & H & _).
  - vm_compute. lia.
  - reflexivity.
  - vm_compute. congruence.
  - apply (bool_decide_unpack _). vm_compute. exact I.
  - cbn [snd]. rewrite E2. cbn [snd]. rewrite H. vm_compute. reflexivity.
Defined.
