(* ===== verification/TimeList.v ===== *)
(** * libckits/timeList.c: the delta queue of timers

    The queue holds, in order, the linked nodes as pairs of their address and
    their contents; [eventHead] is the sentinel node that closes the circular
    list.  A node's [tvRemain] is the time after its predecessor.  [long] has
    32 bits.  The results of [gettimeofday] are arguments named [now]. *)

From S2P Require Import Prelude.

Record timeval := mkTv { tv_sec : Z; tv_usec : Z }.

Definition MILLION : Z := 1000000.
Definition DELAY_ZERO : timeval := mkTv 0 0.
Definition INFINITY : timeval := mkTv 2147483647 (MILLION - 1).

Record alarmEventNode := mkNode {
  tvRemain : timeval;
  cbTimeout : Z;
  cbParam : Z;
  reserved : Z;
  idToken : Z
}.

Definition set_remain (n : alarmEventNode) (tv : timeval) : alarmEventNode :=
  mkNode tv (cbTimeout n) (cbParam n) (reserved n) (idToken n).
Definition set_token (n : alarmEventNode) (t : Z) : alarmEventNode :=
  mkNode (tvRemain n) (cbTimeout n) (cbParam n) (reserved n) t.

Definition entry : Type := Z * alarmEventNode.

Record timeListType := mkTimeList {
  eventHead : alarmEventNode;
  events : list entry;
  listToken : Z;
  tvLastSync : timeval
}.

Definition set_events (l : timeListType) (es : list entry) : timeListType :=
  mkTimeList (eventHead l) es (listToken l) (tvLastSync l).

Definition initTimeList (now : timeval) : Z * timeListType :=
  (0, mkTimeList (mkNode INFINITY 0 0 0 (u32 (-1))) [] 1 now).

(** [res = tv2 - tv1], zero when negative. *)
Definition time_interval (tv2 tv1 : timeval) : timeval :=
  let sec := s32 (tv_sec tv2 - tv_sec tv1) in
  let usec := s32 (tv_usec tv2 - tv_usec tv1) in
  let '(sec, usec) :=
    if usec <? 0 then (s32 (sec - 1), s32 (usec + MILLION)) else (sec, usec) in
  if sec <? 0 then DELAY_ZERO else mkTv sec usec.

Definition time_overthan (tv2 tv1 : timeval) : bool :=
  (tv_sec tv1 <? tv_sec tv2)
  || ((tv_sec tv2 =? tv_sec tv1) && (tv_usec tv1 <=? tv_usec tv2)).

Fixpoint sync_loop (timeSinceLastSync : timeval) (es : list entry) : list entry :=
  match es with
  | [] => []
  | (p, cur) :: es =>
      if time_overthan timeSinceLastSync (tvRemain cur) then
        (p, set_remain cur DELAY_ZERO)
          :: sync_loop (time_interval timeSinceLastSync (tvRemain cur)) es
      else
        (p, set_remain cur (time_interval (tvRemain cur) timeSinceLastSync)) :: es
  end.

Definition synchronize (now : timeval) (l : timeListType) : timeListType :=
  let timeSinceLastSync := time_interval now (tvLastSync l) in
  mkTimeList (eventHead l) (sync_loop timeSinceLastSync (events l)) (listToken l) now.

(** The search loop of [addAlarmEventNode] and the [list_add_tail] at the node
    where it stopped. *)
Fixpoint add_loop (p : Z) (newEntry : alarmEventNode) (tok : Z) (es : list entry)
  : list entry :=
  match es with
  | [] => [(p, set_token newEntry tok)]
  | (q, cur) :: es' =>
      if time_overthan (tvRemain newEntry) (tvRemain cur) then
        (q, cur)
          :: add_loop p (set_remain newEntry (time_interval (tvRemain newEntry) (tvRemain cur)))
                      tok es'
      else
        (p, set_token newEntry tok)
          :: (q, set_remain cur (time_interval (tvRemain cur) (tvRemain newEntry))) :: es'
  end.

Definition addAlarmEventNode (now : timeval) (l : timeListType) (newEntry : entry)
  : Z * timeListType :=
  let l := synchronize now l in
  let tok := listToken l in
  (s32 tok,
   mkTimeList (eventHead l) (add_loop newEntry.1 newEntry.2 tok (events l))
              (Z.land (u32 (tok + 1)) 268435455) (tvLastSync l)).

(** The node after the head of the list: the first event, or the sentinel. *)
Definition first_node (l : timeListType) : alarmEventNode :=
  match events l with [] => eventHead l | (_, n) :: _ => n end.

Definition timeToNextAlarmEvent (now : timeval) (l : timeListType) : timeval * timeListType :=
  let l := synchronize now l in (tvRemain (first_node l), l).

Inductive fired := FNothing | FEvent (e : entry) | FSentinel.

Definition is_zero (tv : timeval) : bool := (tv_sec tv =? 0) && (tv_usec tv =? 0).
Definition is_due (tv : timeval) : bool := (tv_sec tv =? 0) && (tv_usec tv <? 500).

(** The event unlinked, whose callback the caller of the model runs.
    [FSentinel]: the code has unlinked the list head itself. *)
Definition handleAlarmEvent (now : timeval) (l : timeListType) : fired * timeListType :=
  let l := if negb (is_zero (tvRemain (first_node l))) then synchronize now l else l in
  if is_due (tvRemain (first_node l)) then
    match events l with
    | e :: es => (FEvent e, set_events l es)
    | [] => (FSentinel, l)
    end
  else (FNothing, l).

Fixpoint queryAlarmEventNode (es : list entry) (token : Z) : option entry :=
  match es with
  | [] => None
  | (p, n) :: es => if token =? idToken n then Some (p, n) else queryAlarmEventNode es token
  end.

(** [next->tvRemain += entry_ptr->tvRemain] with the carry. *)
Definition absorb (next d : timeval) : timeval :=
  let sec := s32 (tv_sec next + tv_sec d) in
  let usec := s32 (tv_usec next + tv_usec d) in
  if MILLION <=? usec then mkTv (s32 (sec + 1)) (s32 (usec - MILLION)) else mkTv sec usec.

Definition absorb_node (next : alarmEventNode) (d : timeval) : alarmEventNode :=
  set_remain next (absorb (tvRemain next) d).

Fixpoint unlink (h : alarmEventNode) (es : list entry) (token : Z)
  : alarmEventNode * list entry :=
  match es with
  | [] => (h, [])
  | (p, n) :: es' =>
      if token =? idToken n then
        match es' with
        | [] => (absorb_node h (tvRemain n), [])
        | (q, m) :: es'' => (h, (q, absorb_node m (tvRemain n)) :: es'')
        end
      else let '(h', r) := unlink h es' token in (h', (p, n) :: r)
  end.

Definition delAlarmEventNode (now : timeval) (l : timeListType) (token : Z)
  : option entry * timeListType :=
  let l := synchronize now l in
  match queryAlarmEventNode (events l) token with
  | None => (None, l)
  | Some e =>
      let '(h, es) := unlink (eventHead l) (events l) token in
      (Some e, mkTimeList h es (listToken l) (tvLastSync l))
  end.

Definition isTimeListEmpty (l : timeListType) : Z :=
  match events l with [] => 1 | _ => 0 end.

Definition dumpTimeList (now : timeval) (l : timeListType) : Z * timeListType :=
  let l := synchronize now l in (Z.of_nat (length (events l)), l).

(** ** Deadlines

    [us] is a time in microseconds; [due b es] are the events of a delta queue
    with their absolute remaining times when the queue starts at [b]. *)
Definition us (tv : timeval) : Z := tv_sec tv * MILLION + tv_usec tv.
#[global] Arguments us : simpl never.
Definition norm (tv : timeval) : Prop := 0 <= tv_sec tv < 2 ^ 31 /\ 0 <= tv_usec tv < MILLION.

Fixpoint due (b : Z) (es : list entry) : list (Z * Z) :=
  match es with
  | [] => []
  | (p, n) :: es => let d := b + us (tvRemain n) in (p, d) :: due d es
  end.

Definition horizon : Z := us INFINITY.

(** The queue invariant: normalised deltas, no deadline beyond what a
    [timeval] can hold. *)
Definition queue_ok (es : list entry) : Prop :=
  Forall (fun e => norm (tvRemain e.2)) es /\ Forall (fun d => d.2 <= horizon) (due 0 es).

Lemma us_nonneg tv : norm tv -> 0 <= us tv.
Proof. unfold norm, us, MILLION. lia. Qed.

Lemma us_horizon tv : norm tv -> us tv <= horizon.
Proof. unfold norm, us, horizon, INFINITY, us, MILLION; simpl. lia. Qed.

Lemma norm_zero : norm DELAY_ZERO.
Proof. split; simpl; unfold MILLION; lia. Qed.

Lemma time_interval_spec a b :
  norm a -> norm b ->
  norm (time_interval a b) /\ us (time_interval a b) = Z.max 0 (us a - us b).
Proof.
  intros [Ha Ha'] [Hb Hb']. unfold time_interval, norm, us, MILLION in *.
  rewrite (wraps_id 32 (tv_sec a - tv_sec b)), (wraps_id 32 (tv_usec a - tv_usec b))
    by width_lia.
  destruct (tv_usec a - tv_usec b <? 0) eqn:?; bool_to_prop.
  - rewrite (wraps_id 32 (tv_usec a - tv_usec b + 1000000)) by width_lia.
    rewrite (wraps_id 32 (tv_sec a - tv_sec b - 1)) by width_lia.
    case_if; simpl; lia.
  - case_if; simpl; lia.
Qed.

Lemma time_overthan_spec a b :
  norm a -> norm b -> time_overthan a b = true <-> us b <= us a.
Proof.
  intros [Ha Ha'] [Hb Hb']. unfold time_overthan, us, MILLION in *.
  rewrite orb_true_iff, andb_true_iff, Z.ltb_lt, Z.eqb_eq, Z.leb_le. lia.
Qed.

Lemma time_overthan_false a b :
  norm a -> norm b -> time_overthan a b = false -> us a < us b.
Proof.
  intros Ha Hb H. destruct (Z.lt_ge_cases (us a) (us b)); [done|].
  apply time_overthan_spec in H0; congruence.
Qed.

Lemma absorb_spec a b :
  norm a -> norm b -> us a + us b <= horizon ->
  norm (absorb a b) /\ us (absorb a b) = us a + us b.
Proof.
  intros [Ha Ha'] [Hb Hb'] Hh. unfold absorb, norm, us, horizon, INFINITY, us, MILLION in *.
  simpl in *.
  rewrite (wraps_id 32 (tv_usec a + tv_usec b)) by width_lia.
  rewrite (wraps_id 32 (tv_sec a + tv_sec b)) by width_lia.
  case_if; simpl.
  - rewrite !wraps_id by width_lia. lia.
  - lia.
Qed.

Lemma due_shift b c es : due (b + c) es = map (fun d => (d.1, b + d.2)) (due c es).
Proof.
  revert c. induction es as [|[p n] es IH]; intros c; simpl; [done|].
  f_equal; [f_equal; lia|]. rewrite <- IH. f_equal. lia.
Qed.

Lemma due_shift0 b es : due b es = map (fun d => (d.1, b + d.2)) (due 0 es).
Proof. rewrite <- due_shift. f_equal. lia. Qed.

Lemma due_lower b es :
  Forall (fun e => norm (tvRemain e.2)) es -> Forall (fun d => b <= d.2) (due b es).
Proof.
  revert b. induction es as [|[p n] es IH]; intros b H; simpl; constructor;
    apply Forall_cons in H as [Hn Hs]; simpl in *; pose proof (us_nonneg _ Hn); [lia|].
  eapply Forall_impl; [by apply IH|]. simpl. lia.
Qed.

Lemma map_due_ext (f g : Z -> Z) (P : Z -> Prop) (ds : list (Z * Z)) :
  (forall x, P x -> f x = g x) -> Forall (fun d => P d.2) ds ->
  map (fun d => (d.1, f d.2)) ds = map (fun d => (d.1, g d.2)) ds.
Proof. intros Hfg. induction 1; simpl; f_equal; auto. f_equal. auto. Qed.

Lemma sync_loop_due b el es :
  norm el -> Forall (fun e => norm (tvRemain e.2)) es ->
  Forall (fun e => norm (tvRemain e.2)) (sync_loop el es) /\
  due b (sync_loop el es) = map (fun d => (d.1, b + Z.max 0 (d.2 - us el))) (due 0 es).
Proof.
  intros Hel Hes. revert b el Hel. induction Hes as [|[p n] es Hn Hes IH]; intros b el Hel;
    simpl in *; [done|].
  destruct (time_overthan el (tvRemain n)) eqn:Ho.
  - apply time_overthan_spec in Ho; [|done..].
    destruct (time_interval_spec el (tvRemain n) Hel Hn) as [Hi Hiu].
    destruct (IH b _ Hi) as [IH1 IH2].
    split; [constructor; simpl; auto using norm_zero|].
    simpl. change (us DELAY_ZERO) with 0. rewrite Z.add_0_r, IH2, Hiu.
    f_equal; [f_equal; lia|].
    rewrite (due_shift0 (_ + _) es), map_map. apply map_ext. intros d; simpl.
    f_equal. lia.
  - apply time_overthan_false in Ho; [|done..].
    destruct (time_interval_spec (tvRemain n) el Hn Hel) as [Hi Hiu].
    split; [by constructor|]. simpl. rewrite Hiu. f_equal.
    rewrite (due_shift0 (b + _) es), (due_shift0 (0 + us (tvRemain n)) es), map_map. simpl.
    apply (map_due_ext (fun x => b + _ + x) (fun x => b + Z.max 0 (0 + _ + x - _))
             (fun x => 0 <= x)); [intros x Hx; lia|by apply due_lower].
Qed.

(** The part of the queue state the operations preserve. *)
Record wf (l : timeListType) : Prop := {
  wf_queue : queue_ok (events l);
  wf_sync : norm (tvLastSync l);
  wf_token : 0 <= listToken l < 2 ^ 28
}.

(** Elapsed time as [synchronize] sees it: a clock that went back counts as 0. *)
Definition elapsed (now : timeval) (l : timeListType) : Z :=
  Z.max 0 (us now - us (tvLastSync l)).

Definition remaining (l : timeListType) : list (Z * Z) := due 0 (events l).

Lemma synchronize_spec now l :
  wf l -> norm now ->
  wf (synchronize now l) /\
  remaining (synchronize now l)
  = map (fun d => (d.1, Z.max 0 (d.2 - elapsed now l))) (remaining l).
Proof.
  intros [[Hn Hh] Hs Ht] Hnow.
  destruct (time_interval_spec now (tvLastSync l) Hnow Hs) as [Hi Hiu].
  destruct (sync_loop_due 0 _ _ Hi Hn) as [H1 H2].
  unfold remaining, synchronize; simpl. rewrite H2, Hiu. unfold elapsed.
  split; [|done]. split; simpl; try done. split; [done|]. rewrite H2, Hiu.
  apply Forall_map. eapply Forall_impl; [exact Hh|]. intros d; simpl.
  assert (0 <= horizon) by (vm_compute; congruence). lia.
Qed.

Lemma add_loop_due b p n tok es :
  norm (tvRemain n) -> Forall (fun e => norm (tvRemain e.2)) es ->
  Forall (fun e => norm (tvRemain e.2)) (add_loop p n tok es) /\
  exists d1 d2, due b es = d1 ++ d2
    /\ due b (add_loop p n tok es) = d1 ++ (p, b + us (tvRemain n)) :: d2
    /\ Forall (fun d => d.2 <= b + us (tvRemain n)) d1
    /\ Forall (fun d => b + us (tvRemain n) < d.2) d2.
Proof.
  intros Hn Hes. revert b n Hn. induction Hes as [|[q m] es Hm Hes IH]; intros b n Hn; simpl in *.
  - split; [by apply Forall_singleton|]. by exists [], [].
  - destruct (time_overthan (tvRemain n) (tvRemain m)) eqn:Ho.
    + apply time_overthan_spec in Ho; [|done..].
      destruct (time_interval_spec (tvRemain n) (tvRemain m) Hn Hm) as [Hi Hiu].
      set (n' := set_remain n (time_interval (tvRemain n) (tvRemain m))).
      destruct (IH (b + us (tvRemain m)) n' Hi) as (IH1 & d1 & d2 & E1 & E2 & F1 & F2).
      split; [by constructor|].
      assert (E : b + us (tvRemain m) + us (tvRemain n') = b + us (tvRemain n)).
      { subst n'. simpl. rewrite Hiu. lia. }
      exists ((q, b + us (tvRemain m)) :: d1), d2. simpl.
      rewrite E1, E2, E. rewrite E in F1, F2. repeat split; try done.
      constructor; [simpl; lia|done].
    + apply time_overthan_false in Ho; [|done..].
      destruct (time_interval_spec (tvRemain m) (tvRemain n) Hm Hn) as [Hi Hiu].
      split; [by repeat (apply Forall_cons; split)|].
      exists [], ((q, b + us (tvRemain m)) :: due (b + us (tvRemain m)) es). simpl.
      rewrite Hiu. replace (b + us (tvRemain n) + _) with (b + us (tvRemain m)) by lia.
      repeat split; try done. constructor; [simpl; lia|].
      eapply Forall_impl; [by apply due_lower|]. simpl. lia.
Qed.

Lemma unlink_due b h es tok p n :
  Forall (fun e => norm (tvRemain e.2)) es -> Forall (fun d => d.2 <= horizon) (due b es) ->
  0 <= b -> queryAlarmEventNode es tok = Some (p, n) ->
  Forall (fun e => norm (tvRemain e.2)) (unlink h es tok).2 /\
  exists d1 d2 t, due b es = d1 ++ (p, t) :: d2 /\ due b (unlink h es tok).2 = d1 ++ d2.
Proof.
  intros Hes. revert b. induction Hes as [|[q m] es Hm Hes IH]; intros b Hh Hb Hq; simpl in *;
    [done|]. apply Forall_cons in Hh as [Hh1 Hh2]; simpl in *.
  pose proof (us_nonneg _ Hm).
  destruct (tok =? idToken m) eqn:Ht; simplify_eq.
  - destruct es as [|[r k] es]; simpl in *.
    + split; [done|]. by exists [], [], (b + us (tvRemain n)).
    + apply Forall_cons in Hes as [Hk Hes]; simpl in *.
      apply Forall_cons in Hh2 as [Hh2 Hh3]; simpl in *.
      destruct (absorb_spec (tvRemain k) (tvRemain n) Hk Hm) as [Ha Hau]; [lia|].
      split; [by constructor|].
      eexists [], _, (b + us (tvRemain n)). split; [done|]. simpl.
      rewrite Hau. by replace (b + (us (tvRemain k) + us (tvRemain n)))
        with (b + us (tvRemain n) + us (tvRemain k)) by lia.
  - destruct (IH (b + us (tvRemain m)) Hh2 ltac:(lia) Hq) as (IH1 & d1 & d2 & t & E1 & E2).
    destruct (unlink h es tok) as [h' r] eqn:Hu; simpl in *.
    split; [by constructor|].
    exists ((q, b + us (tvRemain m)) :: d1), d2, t. by rewrite E1, E2.
Qed.

(** ** The operations on deadlines *)

Lemma wf_add now l n p :
  wf l -> norm now -> norm (tvRemain n) ->
  let '(tok, l') := addAlarmEventNode now l (p, n) in
  tok = listToken l /\ wf l' /\
  exists d1 d2,
    remaining (synchronize now l) = d1 ++ d2
    /\ remaining l' = d1 ++ (p, us (tvRemain n)) :: d2
    /\ Forall (fun d => d.2 <= us (tvRemain n)) d1
    /\ Forall (fun d => us (tvRemain n) < d.2) d2.
Proof.
  intros Hwf Hnow Hn. destruct (synchronize_spec now l Hwf Hnow) as [[[Hq1 Hq2] Hs Ht] _].
  unfold addAlarmEventNode.
  destruct (add_loop_due 0 p n (listToken (synchronize now l)) _ Hn Hq1)
    as (H1 & d1 & d2 & E1 & E2 & F1 & F2).
  rewrite Z.add_0_l in *. simpl in *.
  split; [apply wraps_id; width_lia|]. split.
  - split; simpl; try done; [split; [done|]|].
    + rewrite E2. rewrite E1 in Hq2. apply Forall_app in Hq2 as [??].
      apply Forall_app; split; [done|]. constructor; [|done]. by apply us_horizon.
    + change 268435455 with (Z.ones 28). rewrite Z.land_ones by lia.
      apply Z.mod_pos_bound. lia.
  - by exists d1, d2.
Qed.

Lemma wf_del now l token :
  wf l -> norm now ->
  match delAlarmEventNode now l token with
  | (Some e, l') =>
      wf l' /\ queryAlarmEventNode (events (synchronize now l)) token = Some e /\
      exists d1 d2 t, remaining (synchronize now l) = d1 ++ (e.1, t) :: d2
                      /\ remaining l' = d1 ++ d2
  | (None, l') =>
      l' = synchronize now l /\ wf l'
      /\ queryAlarmEventNode (events (synchronize now l)) token = None
  end.
Proof.
  intros Hwf Hnow. destruct (synchronize_spec now l Hwf Hnow) as [Hwf' _].
  unfold delAlarmEventNode.
  destruct (queryAlarmEventNode _ token) as [[p n]|] eqn:Hq; [|done].
  destruct Hwf' as [[Hq1 Hq2] Hs Ht].
  destruct (unlink_due 0 (eventHead (synchronize now l)) _ _ _ _ Hq1 Hq2 ltac:(lia) Hq)
    as (H1 & d1 & d2 & t & E1 & E2).
  destruct (unlink _ _ token) as [h es] eqn:Hu; simpl in *.
  split; [|split; [done|by exists d1, d2, t]].
  split; simpl; try done. split; [done|]. rewrite E2. rewrite E1 in Hq2.
  apply Forall_app in Hq2 as [? Hc]. apply Forall_cons in Hc as [??].
  by apply Forall_app.
Qed.

Lemma is_due_us tv : norm tv -> is_due tv = true <-> us tv < 500.
Proof.
  intros [H1 H2]. unfold is_due, us, MILLION in *.
  rewrite andb_true_iff, Z.eqb_eq, Z.ltb_lt. lia.
Qed.

Lemma is_zero_us tv : norm tv -> is_zero tv = true <-> us tv = 0.
Proof.
  intros [H1 H2]. unfold is_zero, us, MILLION in *.
  rewrite andb_true_iff, !Z.eqb_eq. lia.
Qed.

(** The state [handleAlarmEvent] looks at: the queue is brought up to date
    unless its first event is already at zero. *)
Definition refreshed (now : timeval) (l : timeListType) : timeListType :=
  if negb (is_zero (tvRemain (first_node l))) then synchronize now l else l.

Lemma refreshed_wf now l : wf l -> norm now -> wf (refreshed now l).
Proof. intros. unfold refreshed. case_if; [|done]. by apply synchronize_spec. Qed.

Lemma due_cons_inv b p n es : due b ((p, n) :: es) = (p, b + us (tvRemain n)) :: due (b + us (tvRemain n)) es.
Proof. done. Qed.

Lemma wf_handle now l :
  wf l -> norm now ->
  match handleAlarmEvent now l with
  | (FEvent e, l') =>
      wf l' /\ exists d ds, remaining (refreshed now l) = (e.1, d) :: ds /\ d < 500
               /\ remaining l' = map (fun x => (x.1, x.2 - d)) ds
  | (FNothing, l') =>
      l' = refreshed now l /\ wf l'
      /\ (forall p d ds, remaining l' = (p, d) :: ds -> 500 <= d)
  | (FSentinel, l') =>
      events l = [] /\ is_due (tvRemain (eventHead l)) = true
  end.
Proof.
  intros Hwf Hnow. pose proof (refreshed_wf now l Hwf Hnow) as Hr.
  unfold handleAlarmEvent. fold (refreshed now l).
  assert (Hev : eventHead (refreshed now l) = eventHead l)
    by (unfold refreshed; by case_if).
  assert (Hnil : events (refreshed now l) = [] -> events l = []).
  { unfold refreshed. case_if; [|done]. simpl. destruct (events l) as [|[? ?] ?]; [done|].
    simpl. by case_if. }
  destruct (refreshed now l) as [h es tok ls]. unfold first_node, remaining in *; simpl in *.
  destruct Hr as [[Hq1 Hq2] Hs Ht]; simpl in *.
  destruct es as [|[p n] es]; simpl.
  - destruct (is_due (tvRemain h)) eqn:Hd; [subst; auto|].
    split; [done|]. split; [split; simpl; [by split|done|done]|]. by intros.
  - apply Forall_cons in Hq1 as [Hn Hq1]. apply Forall_cons in Hq2 as [Hn2 Hq2]; simpl in *.
    pose proof (us_nonneg _ Hn).
    destruct (is_due (tvRemain n)) eqn:Hd.
    + apply is_due_us in Hd; [|done]. unfold set_events; simpl.
      assert (E : due 0 es = map (fun x => (x.1, x.2 - us (tvRemain n)))
                               (due (us (tvRemain n)) es)).
      { rewrite (due_shift0 (us _) es), map_map. rewrite <- (map_id (due 0 es)) at 1.
        apply map_ext. intros [? ?]; simpl. f_equal. lia. }
      split.
      * split; simpl; try done. split; [done|]. rewrite E. apply Forall_map.
        eapply Forall_impl; [exact Hq2|]. simpl. lia.
      * eexists _, _. split; [done|]. split; [lia|]. by rewrite E.
    + split; [done|]. split; [split; simpl; [split; by constructor|done|done]|].
      intros q d ds [= <- <- <-].
      destruct (Z.lt_ge_cases (us (tvRemain n)) 500) as [Hlt|]; [|lia].
      apply is_due_us in Hlt; [congruence|done].
Qed.

(** ** Runs of the queue *)

Inductive tcall :=
| TAdd (e : entry) | TDel (token : Z) | TNext | THandle | TDump.

Definition tstep (now : timeval) (l : timeListType) (c : tcall) : timeListType :=
  match c with
  | TAdd e => (addAlarmEventNode now l e).2
  | TDel t => (delAlarmEventNode now l t).2
  | TNext => (timeToNextAlarmEvent now l).2
  | THandle => (handleAlarmEvent now l).2
  | TDump => (dumpTimeList now l).2
  end.

Definition tcall_ok (nc : timeval * tcall) : Prop :=
  norm nc.1 /\ match nc.2 with TAdd e => norm (tvRemain e.2) | _ => True end.

Inductive treach : timeListType -> Prop :=
| treach_init now : norm now -> treach (initTimeList now).2
| treach_step l nc : treach l -> tcall_ok nc -> treach (tstep nc.1 l nc.2).

Lemma tstep_wf l nc : wf l -> tcall_ok nc -> wf (tstep nc.1 l nc.2).
Proof.
  intros Hwf [Hnow Hc]. destruct nc as [now [[p n]|t| | |]]; simpl in *.
  - pose proof (wf_add now l n p Hwf Hnow Hc) as H. by destruct H as (_ & ? & _).
  - pose proof (wf_del now l t Hwf Hnow) as H.
    destruct (delAlarmEventNode now l t) as [[e|] l']; simpl; [by destruct H|].
    by destruct H as (_ & ? & _).
  - by apply synchronize_spec.
  - pose proof (wf_handle now l Hwf Hnow) as H.
    pose proof (refreshed_wf now l Hwf Hnow) as Hr. revert H.
    unfold handleAlarmEvent. fold (refreshed now l).
    destruct (is_due _); simpl; [|done].
    destruct (events (refreshed now l)); simpl; [done|by intros [? _]].
  - by apply synchronize_spec.
Qed.

Definition sorted_deadlines (ds : list (Z * Z)) : Prop :=
  StronglySorted (fun a b => a.2 <= b.2) ds.

Lemma due_sorted b es :
  Forall (fun e => norm (tvRemain e.2)) es -> sorted_deadlines (due b es).
Proof.
  intros Hes. revert b. induction Hes as [|[p n] es Hn Hes IH]; intros b; simpl;
    constructor; [apply IH|]. simpl. by apply due_lower.
Qed.

(** Repeated calls of [handleAlarmEvent] at one time, with the addresses of
    the events they unlink. *)
Fixpoint drain (k : nat) (now : timeval) (l : timeListType) : list Z * timeListType :=
  match k with
  | O => ([], l)
  | S k =>
      match handleAlarmEvent now l with
      | (FEvent e, l') => let '(ps, l'') := drain k now l' in (e.1 :: ps, l'')
      | (_, l') => ([], l')
      end
  end.

Lemma elapsed_sync now l : elapsed now (synchronize now l) = 0.
Proof. unfold elapsed, synchronize; simpl. lia. Qed.

Lemma handle_elapsed now l e l' :
  wf l -> norm now -> handleAlarmEvent now l = (FEvent e, l') ->
  (elapsed now l' = 0 /\ refreshed now l = synchronize now l)
  \/ (elapsed now l' = elapsed now l /\ refreshed now l = l).
Proof.
  intros Hwf Hnow. unfold handleAlarmEvent. fold (refreshed now l).
  intros H. unfold refreshed in H.
  destruct (negb _) eqn:Hz.
  - left. split; [|by unfold refreshed; rewrite Hz]. repeat case_match; simplify_eq.
    unfold elapsed, set_events; simpl. lia.
  - right. split; [|by unfold refreshed; rewrite Hz]. by repeat case_match; simplify_eq.
Qed.

Lemma drain_prefix now l d1 d2 :
  wf l -> norm now -> remaining l = d1 ++ d2 ->
  Forall (fun d => d.2 <= elapsed now l) d1 ->
  (drain (length d1) now l).1 = map fst d1.
Proof.
  intros Hwf Hnow. remember (length d1) as k eqn:Hk. revert l d1 d2 Hk Hwf.
  induction k as [|k IH]; intros l [|[p d] d1] d2 Hk Hwf Hrem Hle; simplify_eq/=; [done|].
  apply Forall_cons in Hle as [Hd Hle]; simpl in *.
  pose proof (wf_handle now l Hwf Hnow) as H.
  pose proof (handle_elapsed now l) as He.
  destruct (synchronize_spec now l Hwf Hnow) as [_ Hsync].
  assert (Hpos : 0 <= d).
  { destruct Hwf as [[Hq _] _ _]. pose proof (due_lower 0 _ Hq) as Hl.
    unfold remaining in Hrem. rewrite Hrem in Hl. by apply Forall_cons in Hl as [??]. }
  assert (Hr : refreshed now l = synchronize now l
     \/ (refreshed now l = l /\ d = 0)).
  { unfold refreshed. destruct (negb _) eqn:Hz; [by left|right].
    split; [done|]. apply negb_false_iff in Hz. unfold remaining, first_node in *.
    destruct (events l) as [|[q n] es] eqn:El; [done|]. simpl in Hrem. simplify_eq.
    destruct Hwf as [[Hq _] _ _]. rewrite El in Hq. apply Forall_cons in Hq as [Hn _].
    by apply is_zero_us in Hz. }
  destruct (handleAlarmEvent now l) as [[|e|] l'].
  - destruct H as (-> & _ & H). exfalso. destruct Hr as [Hr|[Hr ?]]; rewrite Hr in H.
    + rewrite Hsync, Hrem in H. simpl in H. specialize (H _ _ _ eq_refl). lia.
    + rewrite Hrem in H. specialize (H _ _ _ eq_refl). lia.
  - destruct H as (Hwf' & t & ds & E & Ht & E').
    specialize (He e l' Hwf Hnow eq_refl).
    assert (Hage : (elapsed now l' = 0 /\
                    (p, Z.max 0 (d - elapsed now l)) :: map (fun x => (x.1, Z.max 0 (x.2 - elapsed now l))) (d1 ++ d2) = (e.1, t) :: ds)
                   \/ (elapsed now l' = elapsed now l /\ (p, d) :: d1 ++ d2 = (e.1, t) :: ds)).
    { destruct He as [[? He]|[? He]]; rewrite He in E; [left|right]; split; try done.
      - by rewrite Hsync, Hrem in E.
      - by rewrite Hrem in E. }
    destruct (drain (length d1) now l') as [ps l''] eqn:Hdr. simpl.
    replace ps with (drain (length d1) now l').1 by (by rewrite Hdr).
    destruct Hage as [[He0 Hage]|[He0 Hage]]; simplify_eq/=; f_equal.
    + rewrite !map_app in E'.
      etransitivity; [eapply IH; [|exact Hwf'|exact E'|]|by rewrite !map_map].
      * by rewrite !length_map.
      * rewrite He0, !Forall_map. eapply Forall_impl; [exact Hle|]. simpl. lia.
    + rewrite map_app in E'.
      etransitivity; [eapply IH; [|exact Hwf'|exact E'|]|by rewrite map_map].
      * by rewrite length_map.
      * rewrite He0, Forall_map. eapply Forall_impl; [exact Hle|]. simpl. lia.
  - destruct H as [H _]. unfold remaining in Hrem. by rewrite H in Hrem.
Qed.

Lemma init_wf now : norm now -> wf (initTimeList now).2.
Proof. intros H. split; simpl; [by split|done|lia]. Qed.

(** Deleting the only event adds its delta to the sentinel, whose delta is the
    largest 32-bit time: one second is enough to overflow it. *)
Lemma unlink_only h p n tok :
  (tok =? idToken n) = true -> unlink h [(p, n)] tok = (absorb_node h (tvRemain n), []).
Proof. intros H. simpl. by rewrite H. Qed.

Lemma absorb_infinity d :
  norm d -> 1 <= tv_sec d < 2147483647 -> tv_sec (absorb INFINITY d) < 0.
Proof.
  intros [H1 H2] H. unfold absorb, INFINITY, MILLION in *; simpl.
  rewrite (wraps_id 32 (1000000 - 1 + tv_usec d)) by width_lia.
  assert (E : forall x, 1 <= x <= 2147483647 -> s32 (2147483647 + x) = x - 2147483649).
  { intros x Hx. unfold wraps. eval_pow2. simpl.
    rewrite <- (Z.mod_unique (2147483647 + x + 2147483648) 4294967296 1 (x - 1)); lia. }
  case_if; simpl; rewrite E by lia; [|lia].
  rewrite wraps_id by width_lia. lia.
Qed.

Definition sample_node (s u : Z) : alarmEventNode := mkNode (mkTv s u) 1 0 0 0.
Definition sample_queue : timeListType :=
  (addAlarmEventNode (mkTv 100 0)
     (addAlarmEventNode (mkTv 100 0) (initTimeList (mkTv 100 0)).2 (8, sample_node 2 0)).2
     (16, sample_node 1 500000)).2.

Lemma sample_wf : wf sample_queue.
Proof.
  apply (tstep_wf _ (mkTv 100 0, TAdd (16, sample_node 1 500000)));
    [apply (tstep_wf _ (mkTv 100 0, TAdd (8, sample_node 2 0)))|];
    try apply init_wf; repeat split; simpl; unfold MILLION; lia.
Defined.

(** the timer queue's invariant.  Every state reachable by adding,
    deleting, querying and firing timers (with a clock that may jump) has
    normalised deltas, a token in 28 bits, and its events sorted by deadline. *)
Theorem timers_reachable_sorted l :
  treach l -> wf l /\ sorted_deadlines (remaining l).
Proof.
  intros Hr. assert (Hwf : wf l).
  { induction Hr; [by apply init_wf|by apply tstep_wf]. }
  split; [done|]. apply due_sorted. by destruct Hwf as [[? _] _ _].
Qed.

Lemma timers_reachable_sorted_witness :
  wf sample_queue /\ sorted_deadlines (remaining sample_queue).
Proof.
  apply timers_reachable_sorted.
  apply (treach_step _ (mkTv 100 0, TAdd (16, sample_node 1 500000)));
    [apply (treach_step _ (mkTv 100 0, TAdd (8, sample_node 2 0)))|];
    try apply treach_init; repeat split; simpl; unfold MILLION; lia.
Defined.

(** [addAlarmEventNode] returns the queue's token, and inserts the event
    with exactly the requested delay, after every event due no later and before
    every event due later; the deadlines of the other events do not move
    (beyond the ageing that [synchronize] does). *)
Theorem addAlarmEventNode_deadline now l n p :
  wf l -> norm now -> norm (tvRemain n) ->
  let '(tok, l') := addAlarmEventNode now l (p, n) in
  tok = listToken l /\ wf l' /\
  exists d1 d2,
    map (fun d => (d.1, Z.max 0 (d.2 - elapsed now l))) (remaining l) = d1 ++ d2
    /\ remaining l' = d1 ++ (p, us (tvRemain n)) :: d2
    /\ Forall (fun d => d.2 <= us (tvRemain n)) d1
    /\ Forall (fun d => us (tvRemain n) < d.2) d2.
Proof.
  intros Hwf Hnow Hn. destruct (synchronize_spec now l Hwf Hnow) as [_ <-].
  by apply wf_add.
Qed.

Lemma addAlarmEventNode_deadline_witness :
  let '(tok, l') := addAlarmEventNode (mkTv 101 0) sample_queue (24, sample_node 0 700000) in
  tok = 3 /\ remaining l' = [(16, 500000); (24, 700000); (8, 1000000)].
Proof.
  assert (Hn : norm (mkTv 101 0) /\ norm (mkTv 0 700000))
    by (repeat split; simpl; unfold MILLION; lia).
  pose proof (addAlarmEventNode_deadline (mkTv 101 0) sample_queue (sample_node 0 700000) 24
    sample_wf (proj1 Hn) (proj2 Hn)) as H.
  destruct (addAlarmEventNode _ _ _) as [tok l'] eqn:E.
  vm_compute in E. simplify_eq. destruct H as [-> _]. vm_compute. by split.
Defined.

(** [delAlarmEventNode] removes exactly the first event carrying the
    token and leaves every other event's deadline where it was; an unknown token
    changes nothing but the ageing. *)
Theorem delAlarmEventNode_deadlines now l token :
  wf l -> norm now ->
  match delAlarmEventNode now l token with
  | (Some e, l') =>
      wf l' /\ queryAlarmEventNode (events (synchronize now l)) token = Some e /\
      exists d1 d2 t, remaining (synchronize now l) = d1 ++ (e.1, t) :: d2
                      /\ remaining l' = d1 ++ d2
  | (None, l') =>
      l' = synchronize now l /\ wf l'
      /\ queryAlarmEventNode (events (synchronize now l)) token = None
  end.
Proof. apply wf_del. Qed.

Lemma delAlarmEventNode_deadlines_witness :
  wf (delAlarmEventNode (mkTv 101 0) sample_queue 2).2
  /\ remaining (delAlarmEventNode (mkTv 101 0) sample_queue 2).2 = [(8, 1000000)].
Proof.
  assert (Hn : norm (mkTv 101 0)) by (repeat split; simpl; unfold MILLION; lia).
  pose proof (delAlarmEventNode_deadlines (mkTv 101 0) sample_queue 2 sample_wf Hn) as H.
  split; [|by vm_compute].
  destruct (delAlarmEventNode _ _ _) as [[e|] l'] eqn:E; [by destruct H|].
  by destruct H as (_ & ? & _).
Defined.

(** one call of [handleAlarmEvent] unlinks the first event exactly when
    its remaining time is below half a millisecond, and then shifts the
    remaining deadlines by no more than that residue; otherwise the queue only
    ages. *)
Theorem handleAlarmEvent_fires_due now l :
  wf l -> norm now ->
  match handleAlarmEvent now l with
  | (FEvent e, l') =>
      wf l' /\ exists d ds, remaining (refreshed now l) = (e.1, d) :: ds /\ d < 500
               /\ remaining l' = map (fun x => (x.1, x.2 - d)) ds
  | (FNothing, l') =>
      l' = refreshed now l /\ wf l'
      /\ (forall p d ds, remaining l' = (p, d) :: ds -> 500 <= d)
  | (FSentinel, l') =>
      events l = [] /\ is_due (tvRemain (eventHead l)) = true
  end.
Proof. apply wf_handle. Qed.

Lemma handleAlarmEvent_fires_due_witness :
  exists d ds, remaining (refreshed (mkTv 101 499600) sample_queue) = (16, d) :: ds /\ d < 500.
Proof.
  assert (Hn : norm (mkTv 101 499600)) by (repeat split; simpl; unfold MILLION; lia).
  pose proof (handleAlarmEvent_fires_due (mkTv 101 499600) sample_queue sample_wf Hn) as H.
  destruct (handleAlarmEvent _ _) as [f l'] eqn:E.
  vm_compute in E. simplify_eq. destruct H as (_ & d & ds & E1 & E2 & _). by exists d, ds.
Defined.

(** C4: no timer is lost and none overtakes another: if the first [k] events
    are due, [k] calls of [handleAlarmEvent] at that time fire exactly them, in
    deadline order. *)
Theorem drain_fires_in_order now l d1 d2 :
  wf l -> norm now -> remaining l = d1 ++ d2 ->
  Forall (fun d => d.2 <= elapsed now l) d1 ->
  (drain (length d1) now l).1 = map fst d1.
Proof. apply drain_prefix. Qed.

Lemma drain_fires_in_order_witness :
  (drain 2 (mkTv 103 0) sample_queue).1 = [16; 8].
Proof.
  apply (drain_fires_in_order (mkTv 103 0) sample_queue
           [(16, 1500000); (8, 2000000)] [] sample_wf).
  - repeat split; simpl; unfold MILLION; lia.
  - by vm_compute.
  - change (elapsed (mkTv 103 0) sample_queue) with 3000000. repeat constructor; simpl; lia.
Defined.

(** deleting the last event corrupts the sentinel.  On the initial
    sentinel, removing the only event, due in a second or more, leaves an empty
    queue whose [timeToNextAlarmEvent] is a negative time, not "never". *)
Theorem del_last_event_negative_timeout now l p n token :
  wf l -> norm now -> eventHead l = mkNode INFINITY 0 0 0 (u32 (-1)) ->
  events (synchronize now l) = [(p, n)] -> token = idToken n ->
  1 <= tv_sec (tvRemain n) < 2147483647 ->
  let l' := (delAlarmEventNode now l token).2 in
  isTimeListEmpty l' = 1 /\ tv_sec (timeToNextAlarmEvent now l').1 < 0.
Proof.
  intros Hwf Hnow Hh He -> Hs l'. subst l'.
  destruct (synchronize_spec now l Hwf Hnow) as [[[Hq _] _ _] _].
  rewrite He in Hq. apply Forall_cons in Hq as [Hn _].
  unfold delAlarmEventNode. rewrite He. unfold queryAlarmEventNode.
  rewrite Z.eqb_refl, unlink_only by apply Z.eqb_refl.
  split; [done|]. simpl. rewrite Hh. simpl. by apply absorb_infinity.
Qed.

Lemma del_last_event_negative_timeout_witness :
  let l := (addAlarmEventNode (mkTv 100 0) (initTimeList (mkTv 100 0)).2
              (8, sample_node 2 0)).2 in
  tv_sec (timeToNextAlarmEvent (mkTv 100 0)
            (delAlarmEventNode (mkTv 100 0) l 1).2).1 < 0.
Proof.
  intros l.
  assert (Hn : norm (mkTv 100 0)) by (repeat split; simpl; unfold MILLION; lia).
  assert (Hl : wf l).
  { apply (tstep_wf _ (mkTv 100 0, TAdd (8, sample_node 2 0))); [by apply init_wf|].
    repeat split; simpl; unfold MILLION; lia. }
  apply (del_last_event_negative_timeout (mkTv 100 0) l 8
           (set_token (sample_node 2 0) 1) 1 Hl Hn); try by vm_compute.
Defined.
