(* ===== verification/CList.v ===== *)
(** * libckits/include/list.h: intrusive circular doubly-linked lists

    The store maps the address of a [list_head] to its two pointers.  Reading
    a node that has never been linked, or through NULL, is [None], and so is a
    write through NULL.  [dll] is the shape of a list in the store; the
    theorems show that the pointer operations implement the operations on
    sequences, and [IntrusiveList] is the interface the allocators use. *)

From S2P Require Import Prelude.

Record heap := mkHeap { next_of : gmap Z Z; prev_of : gmap Z Z }.

Definition NULL : Z := 0.

Definition get_next (p : Z) (h : heap) : option Z := next_of h !! p.
Definition get_prev (p : Z) (h : heap) : option Z := prev_of h !! p.
Definition set_next (p v : Z) (h : heap) : option heap :=
  if p =? NULL then None else Some (mkHeap (<[p := v]> (next_of h)) (prev_of h)).
Definition set_prev (p v : Z) (h : heap) : option heap :=
  if p =? NULL then None else Some (mkHeap (next_of h) (<[p := v]> (prev_of h))).

Definition INIT_LIST_HEAD (ptr : Z) (h : heap) : option heap :=
  h ← set_next ptr ptr h; set_prev ptr ptr h.

Definition list_add_between (new prev next : Z) (h : heap) : option heap :=
  h ← set_prev next new h;
  h ← set_next new next h;
  h ← set_prev new prev h;
  set_next prev new h.

Definition list_add (new head : Z) (h : heap) : option heap :=
  n ← get_next head h; list_add_between new head n h.

Definition list_add_tail (new head : Z) (h : heap) : option heap :=
  p ← get_prev head h; list_add_between new p head h.

Definition list_del_between (prev next : Z) (h : heap) : option heap :=
  h ← set_prev next prev h; set_next prev next h.

Definition list_del (entry : Z) (h : heap) : option heap :=
  p ← get_prev entry h; n ← get_next entry h;
  h ← list_del_between p n h;
  h ← set_next entry NULL h; set_prev entry NULL h.

Definition list_del_init (entry : Z) (h : heap) : option heap :=
  p ← get_prev entry h; n ← get_next entry h;
  h ← list_del_between p n h; INIT_LIST_HEAD entry h.

Definition list_move (list head : Z) (h : heap) : option heap :=
  p ← get_prev list h; n ← get_next list h;
  h ← list_del_between p n h; list_add list head h.

Definition list_move_tail (list head : Z) (h : heap) : option heap :=
  p ← get_prev list h; n ← get_next list h;
  h ← list_del_between p n h; list_add_tail list head h.

Definition list_empty (head : Z) (h : heap) : option bool :=
  n ← get_next head h; Some (n =? head).

Definition list_splice_ (list head : Z) (h : heap) : option heap :=
  first ← get_next list h; last ← get_prev list h; at_ ← get_next head h;
  h ← set_prev first head h; h ← set_next head first h;
  h ← set_next last at_ h; set_prev at_ last h.

Definition list_splice (list head : Z) (h : heap) : option heap :=
  match list_empty list h with
  | Some true => Some h
  | Some false => list_splice_ list head h
  | None => None
  end.

Definition list_splice_init (list head : Z) (h : heap) : option heap :=
  match list_empty list h with
  | Some true => Some h
  | Some false => h ← list_splice_ list head h; INIT_LIST_HEAD list h
  | None => None
  end.

(** [list_for_each]: the nodes visited, in order. *)
Fixpoint walk (fuel : nat) (head pos : Z) (h : heap) : option (list Z) :=
  if pos =? head then Some []
  else match fuel with
       | O => None
       | S fuel => n ← get_next pos h; r ← walk fuel head n h; Some (pos :: r)
       end.

Definition list_for_each (fuel : nat) (head : Z) (h : heap) : option (list Z) :=
  n ← get_next head h; walk fuel head n h.

(** ** The shape of a list *)

(** The path from [a] through the nodes [l] to [b], with its back pointers. *)
Fixpoint seg (h : heap) (a : Z) (l : list Z) (b : Z) : Prop :=
  match l with
  | [] => next_of h !! a = Some b /\ prev_of h !! b = Some a
  | x :: l => next_of h !! a = Some x /\ prev_of h !! x = Some a /\ seg h x l b
  end.

Definition dll (h : heap) (head : Z) (xs : list Z) : Prop :=
  NoDup (head :: xs) /\ NULL ∉ head :: xs /\ seg h head xs head.

(** The links outside a list do not change. *)
Definition untouched (h h' : heap) (nodes : list Z) : Prop :=
  forall x, x ∉ nodes -> get_next x h' = get_next x h /\ get_prev x h' = get_prev x h.

Lemma seg_app h a l1 x l2 b :
  seg h a (l1 ++ x :: l2) b <-> seg h a l1 x /\ seg h x l2 b.
Proof. revert a. induction l1 as [|y l1 IH]; intros a; simpl; [tauto|]. rewrite IH. tauto. Qed.

(** A segment depends on the forward pointers of its first nodes and on the
    back pointers of its last ones. *)
Lemma seg_frame h h' a l b :
  (forall x, x ∈ a :: l -> next_of h' !! x = next_of h !! x) ->
  (forall x, x ∈ l ++ [b] -> prev_of h' !! x = prev_of h !! x) ->
  seg h a l b -> seg h' a l b.
Proof.
  revert a. induction l as [|y l IH]; intros a Hn Hp; simpl in *.
  - rewrite Hn, Hp by set_solver. done.
  - rewrite Hn, Hp by set_solver. intros (? & ? & Hs). repeat split; try done.
    apply IH; [intros; apply Hn; set_solver|intros; apply Hp; set_solver|done].
Qed.

(** The last node of a path. *)
Fixpoint endp (a : Z) (l : list Z) : Z :=
  match l with [] => a | x :: l => endp x l end.

Lemma seg_last h a l b : seg h a l b -> prev_of h !! b = Some (endp a l).
Proof.
  revert a. induction l as [|y l IH]; intros a; simpl; [by intros [_ ?]|].
  intros (_ & _ & Hs). by apply IH.
Qed.

Lemma seg_tail h a l1 l2 b : seg h a (l1 ++ l2) b -> seg h (endp a l1) l2 b.
Proof.
  revert a. induction l1 as [|y l IH]; intros a; simpl; [done|].
  intros (_ & _ & Hs). by apply IH.
Qed.

Lemma seg_init h a l1 l2 b : seg h a (l1 ++ l2) b -> seg h a l1 (List.hd b l2).
Proof.
  revert a. induction l1 as [|y l IH]; intros a; simpl.
  - destruct l2; simpl; tauto.
  - intros (? & ? & Hs). eauto.
Qed.

Lemma seg_first h a l b : seg h a l b -> next_of h !! a = Some (List.hd b l).
Proof. destruct l; simpl; tauto. Qed.

Lemma walk_seg h head a l :
  seg h a l head -> head ∉ l ->
  forall fuel, (length l <= fuel)%nat ->
  (n ← get_next a h; walk fuel head n h) = Some l.
Proof.
  revert a. induction l as [|x l IH]; intros a Hs Hnin fuel Hf; simpl in *.
  - destruct Hs as [Hs _]. unfold get_next. rewrite Hs. simpl.
    destruct fuel; simpl; by rewrite Z.eqb_refl.
  - destruct Hs as (Hs & _ & Hs'). unfold get_next at 1. rewrite Hs. simpl.
    destruct fuel as [|fuel]; [lia|]. simpl.
    rewrite (proj2 (Z.eqb_neq x head)) by set_solver.
    specialize (IH x Hs' ltac:(set_solver) fuel ltac:(lia)).
    destruct (get_next x h); simpl in *; [|done]. by rewrite IH.
Qed.

Lemma endp_In l a : endp a l ∈ a :: l.
Proof. revert a. induction l as [|y l IH]; intros a; simpl; [set_solver|]. set_solver. Qed.

(** Redirecting the end of a path: the part before it is kept. *)
Lemma seg_redirect_last h h' a l e b :
  seg h a l e -> NoDup (a :: l) ->
  (forall x, x ∈ a :: l -> x <> endp a l -> next_of h' !! x = next_of h !! x) ->
  (forall x, x ∈ l -> prev_of h' !! x = prev_of h !! x) ->
  next_of h' !! endp a l = Some b -> prev_of h' !! b = Some (endp a l) ->
  seg h' a l b.
Proof.
  revert a. induction l as [|y l IH]; intros a Hs Hnd Hn Hp Hb1 Hb2; simpl in Hs; [done|].
  destruct Hs as (H1 & H2 & Hs).
  apply NoDup_cons in Hnd as [Hay Hnd].
  split; [|split].
  - rewrite Hn; [done|set_solver|]. intros E. apply Hay. rewrite E. apply (endp_In l y).
  - rewrite Hp; [done|set_solver].
  - apply IH; try done; [intros; apply Hn; set_solver|intros; apply Hp; set_solver].
Qed.

(** Redirecting the start of a path. *)
Lemma seg_redirect_first h h' e a l b :
  seg h e l b ->
  (forall x, x ∈ l -> next_of h' !! x = next_of h !! x) ->
  (forall x, x ∈ tail (l ++ [b]) -> prev_of h' !! x = prev_of h !! x) ->
  next_of h' !! a = Some (List.hd b l) -> prev_of h' !! List.hd b l = Some a ->
  seg h' a l b.
Proof.
  destruct l as [|y l]; simpl; [done|]. intros (_ & _ & Hs) Hn Hp H1 H2.
  split; [done|]. split; [done|]. by eapply seg_frame.
Qed.

Lemma hd_In (head : Z) zs : List.hd head zs ∈ head :: zs.
Proof. destruct zs; simpl; set_solver. Qed.

Lemma dll_prev h head ys zs :
  dll h head (ys ++ zs) -> prev_of h !! List.hd head zs = Some (endp head ys).
Proof. intros (_ & _ & Hs). apply seg_init, seg_last in Hs. done. Qed.

Lemma dll_next h head ys zs :
  dll h head (ys ++ zs) -> next_of h !! endp head ys = Some (List.hd head zs).
Proof. intros (_ & _ & Hs). apply seg_tail, seg_first in Hs. done. Qed.

(** The neighbours [endp head ys] and [List.hd head zs] of a gap in a list are
    the only nodes that can coincide, and then with the head only. *)
Lemma gap_distinct head ys zs :
  NoDup (head :: ys ++ zs) ->
  NoDup (head :: ys) /\ NoDup (head :: zs)
  /\ (forall x, x ∈ zs -> x <> endp head ys)
  /\ (forall x, x ∈ ys -> x <> List.hd head zs)
  /\ (forall x, x ∈ tail (zs ++ [head]) -> x <> List.hd head zs).
Proof.
  intros Hnd. apply NoDup_cons in Hnd as [Hh Hnd].
  apply NoDup_app in Hnd as (Hy & Hyz & Hz).
  split; [apply NoDup_cons; set_solver|]. split; [apply NoDup_cons; set_solver|].
  split; [|split].
  - intros x Hx ->. pose proof (endp_In ys head) as He.
    apply elem_of_cons in He as [E|He]; [rewrite E in Hx|]; set_solver.
  - intros x Hx ->. pose proof (hd_In head zs) as He.
    apply elem_of_cons in He as [E|He]; [rewrite E in Hx|]; set_solver.
  - destruct zs as [|z zs]; simpl; [set_solver|].
    apply NoDup_cons in Hz as [??]. set_solver.
Qed.

Lemma dll_add_between h head ys zs new :
  dll h head (ys ++ zs) -> new <> NULL -> new ∉ head :: ys ++ zs ->
  exists h', list_add_between new (endp head ys) (List.hd head zs) h = Some h'
    /\ dll h' head (ys ++ new :: zs)
    /\ (forall x, x ∉ head :: new :: ys ++ zs ->
         get_next x h' = get_next x h /\ get_prev x h' = get_prev x h).
Proof.
  intros (Hnd & Hnull & Hs) Hnew Hfresh.
  destruct (gap_distinct _ _ _ Hnd) as (HndY & HndZ & HZ & HY & HT).
  pose proof (endp_In ys head) as HP. pose proof (hd_In head zs) as HN.
  set (P := endp head ys) in *. set (N := List.hd head zs) in *.
  assert (P <> NULL /\ N <> NULL) as [HP0 HN0].
  { split; intros E; [rewrite E in HP|rewrite E in HN]; set_solver. }
  assert (P <> new /\ N <> new) as [HPn HNn].
  { split; intros E; [rewrite E in HP|rewrite E in HN]; set_solver. }
  unfold list_add_between, set_prev, set_next.
  rewrite !(proj2 (Z.eqb_neq _ NULL)) by done. simpl.
  eexists. split; [done|]. split.
  - split; [|split].
    + rewrite <- Permutation_middle, Permutation_swap.
      apply NoDup_cons. split; [set_solver|done].
    + set_solver.
    + apply seg_app. split.
      * apply (seg_redirect_last h _ _ _ N); simpl; fold P; try done.
        -- by apply seg_init in Hs.
        -- intros x Hx Hne. rewrite !lookup_insert_ne; [done|set_solver|done].
        -- intros x Hx. rewrite !lookup_insert_ne; [done|naive_solver|set_solver].
        -- by rewrite lookup_insert_eq.
        -- by rewrite lookup_insert_eq.
      * apply (seg_redirect_first h _ P); simpl; fold N.
        -- by apply seg_tail in Hs.
        -- intros x Hx. rewrite !lookup_insert_ne; [done|set_solver|naive_solver].
        -- intros x Hx. assert (x ∈ head :: zs) by (destruct zs; simpl in *; set_solver).
           rewrite !lookup_insert_ne; [done|naive_solver|set_solver].
        -- rewrite lookup_insert_ne by done. by rewrite lookup_insert_eq.
        -- rewrite lookup_insert_ne by done. by rewrite lookup_insert_eq.
  - intros x Hx. unfold get_next, get_prev; simpl.
    assert (x <> P /\ x <> N) as [??] by (split; intros ->; set_solver).
    rewrite !lookup_insert_ne by set_solver. done.
Qed.

Lemma dll_del h head ys e zs :
  dll h head (ys ++ e :: zs) ->
  exists h', list_del e h = Some h' /\ dll h' head (ys ++ zs)
    /\ get_next e h' = Some NULL /\ get_prev e h' = Some NULL
    /\ (forall x, x ∉ head :: ys ++ e :: zs ->
         get_next x h' = get_next x h /\ get_prev x h' = get_prev x h).
Proof.
  intros (Hnd & Hnull & Hs).
  assert (Hnd' : NoDup (head :: ys ++ zs) /\ e ∉ head :: ys ++ zs).
  { rewrite <- Permutation_middle, Permutation_swap in Hnd.
    apply NoDup_cons in Hnd. tauto. }
  destruct Hnd' as [Hnd' He].
  destruct (gap_distinct _ _ _ Hnd') as (HndY & HndZ & HZ & HY & HT).
  apply seg_app in Hs as [Hys Hzs].
  pose proof (seg_last _ _ _ _ Hys) as Ep. pose proof (seg_first _ _ _ _ Hzs) as En.
  pose proof (endp_In ys head) as HP. pose proof (hd_In head zs) as HN.
  set (P := endp head ys) in *. set (N := List.hd head zs) in *.
  assert (P <> NULL /\ N <> NULL /\ e <> NULL) as (HP0 & HN0 & He0).
  { split; [|split]; [intros E; rewrite E in HP|intros E; rewrite E in HN|]; set_solver. }
  assert (P <> e /\ N <> e) as [HPe HNe].
  { split; intros E; [rewrite E in HP|rewrite E in HN]; set_solver. }
  unfold list_del, list_del_between, get_prev, get_next. rewrite Ep, En. simpl.
  unfold set_prev, set_next. rewrite !(proj2 (Z.eqb_neq _ NULL)) by done. simpl.
  eexists. split; [done|]. split; [|split; [|split]].
  - split; [done|]. split; [set_solver|].
    assert (Hmid : seg (mkHeap (<[e:=NULL]> (<[P:=N]> (next_of h)))
                              (<[e:=NULL]> (<[N:=P]> (prev_of h)))) head ys N).
    { apply (seg_redirect_last h _ _ _ e); simpl; fold P; try done.
      - intros x Hx Hne. rewrite !lookup_insert_ne; [done|done|set_solver].
      - intros x Hx. rewrite !lookup_insert_ne; [done|naive_solver|set_solver].
      - rewrite lookup_insert_ne by done. by rewrite lookup_insert_eq.
      - rewrite lookup_insert_ne by done. by rewrite lookup_insert_eq. }
    assert (Hback : seg (mkHeap (<[e:=NULL]> (<[P:=N]> (next_of h)))
                               (<[e:=NULL]> (<[N:=P]> (prev_of h)))) P zs head).
    { apply (seg_redirect_first h _ e); simpl; fold N; try done.
      - intros x Hx. rewrite !lookup_insert_ne; [done|naive_solver|set_solver].
      - intros x Hx. assert (x ∈ head :: zs) by (destruct zs; simpl in *; set_solver).
        rewrite !lookup_insert_ne; [done|naive_solver|set_solver].
      - rewrite lookup_insert_ne by done. by rewrite lookup_insert_eq.
      - rewrite lookup_insert_ne by done. by rewrite lookup_insert_eq. }
    subst N P. clear -Hmid Hback. destruct zs as [|z zs]; simpl in *.
    + by rewrite app_nil_r.
    + apply seg_app. split; [done|]. by destruct Hback as (_ & _ & ?).
  - unfold get_next; simpl. by rewrite lookup_insert_eq.
  - unfold get_prev; simpl. by rewrite lookup_insert_eq.
  - intros x Hx. unfold get_next, get_prev; simpl.
    assert (x <> P /\ x <> N /\ x <> e) as (? & ? & ?)
      by (split; [|split]; intros ->; set_solver).
    rewrite !lookup_insert_ne by done. done.
Qed.

Lemma dll_frame h h' head xs :
  dll h head xs ->
  (forall x, x ∈ head :: xs -> get_next x h' = get_next x h /\ get_prev x h' = get_prev x h) ->
  dll h' head xs.
Proof.
  intros (Hnd & Hnull & Hs) Hf. split; [done|]. split; [done|].
  apply (seg_frame h); [| |done].
  - intros x Hx. by apply Hf.
  - intros x Hx. apply Hf. set_solver.
Qed.

Lemma init_dll h head :
  head <> NULL ->
  exists h', INIT_LIST_HEAD head h = Some h' /\ dll h' head []
    /\ (forall x, x <> head -> get_next x h' = get_next x h /\ get_prev x h' = get_prev x h).
Proof.
  intros Hh. unfold INIT_LIST_HEAD, set_next, set_prev.
  rewrite !(proj2 (Z.eqb_neq _ NULL)) by done. simpl.
  eexists. split; [done|]. split.
  - split; [apply NoDup_singleton|]. split; [set_solver|]. simpl.
    by rewrite !lookup_insert_eq.
  - intros x Hx. unfold get_next, get_prev; simpl. by rewrite !lookup_insert_ne.
Qed.

Lemma list_add_tail_before h head ys zs new :
  dll h head (ys ++ zs) -> new <> NULL -> new ∉ head :: ys ++ zs ->
  exists h', list_add_tail new (List.hd head zs) h = Some h'
    /\ dll h' head (ys ++ new :: zs)
    /\ (forall x, x ∉ head :: new :: ys ++ zs ->
         get_next x h' = get_next x h /\ get_prev x h' = get_prev x h).
Proof.
  intros Hd Hn Hf. unfold list_add_tail, get_prev at 1. rewrite (dll_prev _ _ _ _ Hd). simpl.
  by apply dll_add_between.
Qed.

Lemma list_add_after h head ys zs new :
  dll h head (ys ++ zs) -> new <> NULL -> new ∉ head :: ys ++ zs ->
  exists h', list_add new (endp head ys) h = Some h'
    /\ dll h' head (ys ++ new :: zs)
    /\ (forall x, x ∉ head :: new :: ys ++ zs ->
         get_next x h' = get_next x h /\ get_prev x h' = get_prev x h).
Proof.
  intros Hd Hn Hf. unfold list_add, get_next at 1. rewrite (dll_next _ _ _ _ Hd). simpl.
  by apply dll_add_between.
Qed.

Lemma list_empty_dll h head xs :
  dll h head xs -> list_empty head h = Some (bool_decide (xs = [])).
Proof.
  intros (Hnd & _ & Hs). unfold list_empty, get_next. rewrite (seg_first _ _ _ _ Hs). simpl.
  f_equal. destruct xs as [|x xs]; simpl.
  - by rewrite Z.eqb_refl.
  - apply Z.eqb_neq. intros ->.
    apply NoDup_cons in Hnd as [Hin _]. set_solver.
Qed.

Lemma list_for_each_dll h head xs fuel :
  dll h head xs -> (length xs <= fuel)%nat -> list_for_each fuel head h = Some xs.
Proof.
  intros (Hnd & _ & Hs) Hf. apply NoDup_cons in Hnd as [Hin _].
  by eapply walk_seg.
Qed.

Lemma list_splice_dll h head ys list z zs :
  dll h head ys -> dll h list (z :: zs) ->
  (forall x, x ∈ head :: ys -> x ∉ list :: z :: zs) ->
  exists h', list_splice list head h = Some h' /\ dll h' head ((z :: zs) ++ ys)
    /\ untouched h h' (head :: (z :: zs) ++ ys).
Proof.
  intros Hy Hz Hdis. unfold list_splice. rewrite (list_empty_dll _ _ _ Hz). simpl.
  destruct Hy as (Hnd & Hnull & Hs). destruct Hz as (Hndz & Hnullz & Hsz).
  unfold list_splice_, get_next, get_prev.
  rewrite (seg_first _ _ _ _ Hsz), (seg_last _ _ _ _ Hsz), (seg_first _ _ _ _ Hs). simpl.
  pose proof (endp_In zs z) as HL. set (L := endp z zs) in *.
  pose proof (hd_In head ys) as HN. set (N := List.hd head ys) in *.
  assert (L <> head /\ N <> z /\ L <> N) as (HLh & HNz & HLN).
  { repeat split; intros E; [| |]; try rewrite E in HL; try rewrite E in HN; set_solver. }
  assert (L <> NULL /\ N <> NULL) as [HL0 HN0].
  { split; intros E; [rewrite E in HL|rewrite E in HN]; set_solver. }
  unfold set_prev, set_next.
  rewrite !(proj2 (Z.eqb_neq _ NULL)) by set_solver. simpl.
  eexists. split; [done|]. apply NoDup_cons in Hnd as [Hh Hnd].
  apply NoDup_cons in Hndz as [Hl Hndz]. split; [split; [|split]|].
  - apply NoDup_cons. split; [set_solver|]. apply (NoDup_app (z :: zs) ys).
    repeat split; set_solver.
  - set_solver.
  - change (z :: zs ++ ys) with ((z :: zs) ++ ys).
    assert (H1 : seg (mkHeap (<[L:=N]> (<[head:=z]> (next_of h)))
                         (<[N:=L]> (<[z:=head]> (prev_of h)))) head (z :: zs) N).
    { simpl. rewrite lookup_insert_ne by done. rewrite lookup_insert_eq.
      rewrite lookup_insert_ne by done. rewrite lookup_insert_eq. repeat split.
      destruct Hsz as (_ & _ & Hsz).
      apply (seg_redirect_last h _ _ _ list); simpl; fold L; try done.
      - intros x Hx Hne. rewrite !lookup_insert_ne; [done|set_solver|done].
      - intros x Hx. apply NoDup_cons in Hndz as [Hz _].
        rewrite !lookup_insert_ne; [done|set_solver|].
        intros E. rewrite <- E in Hx. apply (Hdis N); [done|set_solver].
      - by rewrite lookup_insert_eq.
      - by rewrite lookup_insert_eq. }
    assert (H2 : seg (mkHeap (<[L:=N]> (<[head:=z]> (next_of h)))
                         (<[N:=L]> (<[z:=head]> (prev_of h)))) L ys head).
    { apply (seg_redirect_first h _ head); simpl; fold N; try done.
      - intros x Hx. assert (x <> L) by (intros ->; apply (Hdis L); set_solver).
        rewrite !lookup_insert_ne; [done|set_solver|done].
      - intros x Hx. assert (Hx' : x ∈ head :: ys) by (destruct ys; simpl in *; set_solver).
        rewrite !lookup_insert_ne; [done|intros ->; by apply (Hdis x Hx'); set_solver|].
        intros E. subst N. destruct ys as [|y ys]; simpl in *; [set_solver|].
        apply NoDup_cons in Hnd as [? _]. set_solver.
      - by rewrite lookup_insert_eq.
      - by rewrite lookup_insert_eq. }
    clear -H1 H2. destruct ys as [|y ys]; simpl in N.
    + by rewrite app_nil_r.
    + apply (seg_app _ head (z :: zs) y ys). split; [done|]. by destruct H2 as (_ & _ & ?).
  - intros x Hx. assert (x <> L /\ x <> N) as [??] by (split; intros ->; set_solver).
    unfold get_next, get_prev. cbn [next_of prev_of]. rewrite !lookup_insert_ne by set_solver. done.
Qed.

(** ** The interface the allocators program against *)

Class IntrusiveList (H : Type) := {
  il_list : H -> Z -> list Z -> Prop;
  il_init : Z -> H -> option H;
  il_add_tail : Z -> Z -> H -> option H;
  il_del : Z -> H -> option H;
  il_empty : Z -> H -> option bool;
  il_first : Z -> H -> option Z;
  il_init_ok h head :
    head <> NULL -> exists h', il_init head h = Some h' /\ il_list h' head [];
  il_add_tail_ok h head xs new :
    il_list h head xs -> new <> NULL -> new ∉ head :: xs ->
    exists h', il_add_tail new head h = Some h' /\ il_list h' head (xs ++ [new]);
  il_del_ok h head ys e zs :
    il_list h head (ys ++ e :: zs) ->
    exists h', il_del e h = Some h' /\ il_list h' head (ys ++ zs);
  il_empty_ok h head xs :
    il_list h head xs -> il_empty head h = Some (bool_decide (xs = []));
  il_first_ok h head xs :
    il_list h head xs -> il_first head h = Some (List.hd head xs);
  il_nodup h head xs : il_list h head xs -> NoDup (head :: xs)
}.

#[export] Instance heap_list : IntrusiveList heap.
Proof.
  refine {| il_list := dll; il_init := INIT_LIST_HEAD; il_add_tail := list_add_tail;
            il_del := list_del; il_empty := list_empty; il_first := get_next |}.
  - intros h head Hh. destruct (init_dll h head Hh) as (h' & ? & ? & _). eauto.
  - intros h head xs new Hd Hn Hf. rewrite <- (app_nil_r xs) in Hd, Hf.
    destruct (list_add_tail_before h head xs [] new Hd Hn Hf) as (h' & ? & ? & _). eauto.
  - intros h head ys e zs Hd. destruct (dll_del h head ys e zs Hd) as (h' & ? & ? & _). eauto.
  - apply list_empty_dll.
  - intros h head xs Hd. exact (dll_next h head [] xs Hd).
  - intros h head xs Hd. by destruct Hd.
Defined.

(** ** Runs of list operations refine operations on sequences *)

(** The lists in the store, by their heads: no node is in two of them. *)
Record lists (h : heap) (S : gmap Z (list Z)) : Prop := {
  lists_dll hd xs : S !! hd = Some xs -> dll h hd xs;
  lists_apart a xs b ys x :
    S !! a = Some xs -> S !! b = Some ys -> x ∈ a :: xs -> x ∈ b :: ys -> a = b
}.

Inductive lop := LInit (head : Z) | LAdd (new head : Z) | LAddTail (new head : Z)
  | LDel (e : Z) | LDelInit (e : Z) | LMove (e head : Z) | LMoveTail (e head : Z)
  | LSplice (list head : Z) | LSpliceInit (list head : Z).

Definition lexec (h : heap) (o : lop) : option heap :=
  match o with
  | LInit head => INIT_LIST_HEAD head h
  | LAdd n head => list_add n head h
  | LAddTail n head => list_add_tail n head h
  | LDel e => list_del e h
  | LDelInit e => list_del_init e h
  | LMove e head => list_move e head h
  | LMoveTail e head => list_move_tail e head h
  | LSplice l head => list_splice l head h
  | LSpliceInit l head => list_splice_init l head h
  end.

Definition remove_node (e : Z) (xs : list Z) : list Z := filter (fun x => x <> e) xs.

(** What an operation does to the sequences. *)
Definition lspec (S : gmap Z (list Z)) (o : lop) : gmap Z (list Z) :=
  match o with
  | LInit head => <[head := []]> S
  | LAdd n head => alter (cons n) head (delete n S)
  | LAddTail n head => alter (fun xs => xs ++ [n]) head (delete n S)
  | LDel e => remove_node e <$> S
  | LDelInit e => <[e := []]> (remove_node e <$> S)
  | LMove e head => alter (cons e) head (remove_node e <$> S)
  | LMoveTail e head => alter (fun xs => xs ++ [e]) head (remove_node e <$> S)
  | LSplice l head =>
      match S !! l with
      | Some (x :: xs) => alter (app (x :: xs)) head (delete l S)
      | _ => S
      end
  | LSpliceInit l head =>
      match S !! l with
      | Some (x :: xs) => <[l := []]> (alter (app (x :: xs)) head (delete l S))
      | _ => S
      end
  end.

(** A node of no list, and a node of some list. *)
Definition loose (S : gmap Z (list Z)) (x : Z) : Prop := map_Forall (fun hd xs => x ∉ hd :: xs) S.
Definition linked (S : gmap Z (list Z)) (x : Z) : Prop := map_Exists (fun _ xs => x ∈ xs) S.

(** What the caller has to respect: a node is added when it is in no list (or
    itself a head, which [list_del_init] makes of it: it is one no longer), and
    removed or moved when it is in one; heads are initialised; [list_splice] joins
    two lists. *)
Definition lop_ok (S : gmap Z (list Z)) (o : lop) : Prop :=
  match o with
  | LInit head => head <> NULL /\ loose (delete head S) head
  | LAdd n head | LAddTail n head =>
      n <> NULL /\ n <> head /\ loose (delete n S) n /\ is_Some (S !! head)
  | LDel e | LDelInit e => linked S e
  | LMove e head | LMoveTail e head => linked S e /\ is_Some (S !! head)
  | LSplice l head | LSpliceInit l head => l <> head /\ is_Some (S !! l) /\ is_Some (S !! head)
  end.

Fixpoint lrun (h : heap) (os : list lop) : option heap :=
  match os with [] => Some h | o :: os => h' ← lexec h o; lrun h' os end.

Fixpoint lrun_ok (S : gmap Z (list Z)) (os : list lop) : Prop :=
  match os with [] => True | o :: os => lop_ok S o /\ lrun_ok (lspec S o) os end.

#[export] Instance loose_dec S x : Decision (loose S x).
Proof. unfold loose. apply _. Defined.
#[export] Instance linked_dec S x : Decision (linked S x).
Proof. unfold linked. apply _. Defined.
#[export] Instance lop_ok_dec S o : Decision (lop_ok S o).
Proof. destruct o; simpl; apply _. Defined.
#[export] Instance lrun_ok_dec os S : Decision (lrun_ok S os).
Proof. revert S. induction os as [|o os IH]; intros S; simpl; apply _. Defined.

Lemma remove_node_mid ys e zs :
  NoDup (ys ++ e :: zs) -> remove_node e (ys ++ e :: zs) = ys ++ zs.
Proof.
  intros Hnd. apply NoDup_app in Hnd as (Hy & Hyz & Hz). apply NoDup_cons in Hz as [He Hz].
  unfold remove_node. rewrite filter_app, filter_cons_False by tauto.
  rewrite !filter_all; [done|apply Forall_forall; set_solver..].
Qed.

Lemma remove_node_none e xs : e ∉ xs -> remove_node e xs = xs.
Proof. intros He. apply filter_all, Forall_forall. set_solver. Qed.

Lemma list_unlink_relink h head ys e zs :
  dll h head (ys ++ e :: zs) ->
  exists p n h', get_prev e h = Some p /\ get_next e h = Some n
    /\ list_del_between p n h = Some h' /\ dll h' head (ys ++ zs)
    /\ untouched h h' (head :: ys ++ e :: zs).
Proof.
  intros Hd. pose proof (dll_prev h head ys (e :: zs) Hd) as Hp.
  assert (Hd' : dll h head ((ys ++ [e]) ++ zs)) by (by rewrite <- app_assoc).
  pose proof (dll_next h head (ys ++ [e]) zs Hd') as Hn.
  assert (Ee : endp head (ys ++ [e]) = e).
  { clear. revert head. induction ys; intros; simpl; [done|]. apply IHys. }
  rewrite Ee in Hn. simpl in Hp.
  destruct (dll_del h head ys e zs Hd) as (h' & E & Hd'' & _ & _ & Hout).
  exists (endp head ys), (List.hd head zs).
  unfold list_del, get_prev, get_next in *. rewrite Hp, Hn in *. simpl in E.
  destruct (list_del_between _ _ h) as [h1|] eqn:E1; simpl in E; [|done].
  assert (Hk : forall x, x <> e -> next_of h1 !! x = next_of h' !! x /\ prev_of h1 !! x = prev_of h' !! x).
  { intros x Hx. unfold set_next, set_prev in E. repeat (case_if; simpl in E; [done|]).
    simplify_eq. simpl. by rewrite !lookup_insert_ne by done. }
  exists h1. split; [done|]. split; [done|]. split; [done|].
  destruct Hd as (Hnd & _ & _). rewrite <- Permutation_middle, Permutation_swap in Hnd.
  apply NoDup_cons in Hnd as [He _]. split.
  - apply (dll_frame h' h1); [done|]. intros x Hx. apply Hk. set_solver.
  - intros x Hx. unfold get_next, get_prev. destruct (Hk x) as [-> ->]; [set_solver|]. by apply Hout.
Qed.

Lemma dll_fresh h head xs e ys zs :
  dll h head xs -> xs = ys ++ e :: zs -> e <> NULL /\ e ∉ head :: ys ++ zs.
Proof.
  intros (Hnd & Hnull & _) ->. split; [set_solver|].
  rewrite <- Permutation_middle, Permutation_swap in Hnd. by apply NoDup_cons in Hnd as [? _].
Qed.

Lemma lists_sub h S R : lists h S -> R ⊆ S -> lists h R.
Proof.
  intros [L1 L2] HR. split; [intros hd xs E; eapply L1|intros a xs b ys x Ea Eb; eapply L2]; by eapply lookup_weaken.
Qed.

Lemma loose_sub S R x : loose S x -> R ⊆ S -> loose R x.
Proof. intros Hl HR hd xs E. eapply Hl. by eapply lookup_weaken. Qed.

Lemma loose_others h S a xs x : lists h S -> S !! a = Some xs -> x ∈ a :: xs -> loose (delete a S) x.
Proof.
  intros [_ L2] Ea Hx b ys Eb Hy. apply lookup_delete_Some in Eb as [Hne Eb].
  apply Hne. by eapply L2.
Qed.

Lemma loose_insert S a xs x : loose S x -> x ∉ a :: xs -> loose (<[a := xs]> S) x.
Proof. intros Hl Hx. by apply map_Forall_insert_2. Qed.

Lemma alter_present {A} (f : A -> A) i (m : gmap Z A) x :
  m !! i = Some x -> alter f i m = <[i := f x]> (delete i m).
Proof.
  intros E. apply map_eq. intros j. destruct (decide (i = j)) as [->|Hne].
  - by rewrite lookup_alter_eq, E, lookup_insert_eq.
  - by rewrite lookup_alter_ne, lookup_insert_ne, lookup_delete_ne by done.
Qed.

(** The list at [head] has become [ys], and the others were left alone. *)
Lemma lists_put h h' R head ys nodes :
  lists h R -> dll h' head ys -> (forall x, x ∈ head :: ys -> loose R x) ->
  untouched h h' nodes -> (forall x, x ∈ nodes -> loose R x) -> lists h' (<[head := ys]> R).
Proof.
  intros [L1 L2] Hd Hy Hu Hn. split.
  - intros hd xs [[<- <-]|[Hne E]]%lookup_insert_Some; [done|]. apply (dll_frame h); [by apply L1|].
    intros x Hx. apply Hu. intros Hin. by apply (Hn x Hin hd xs).
  - intros a xs b zs x [[<- <-]|[Ha Ea]]%lookup_insert_Some [[<- <-]|[Hb Eb]]%lookup_insert_Some Hx Hz; try done.
    + destruct (Hy x Hx _ _ Eb Hz).
    + destruct (Hy x Hz _ _ Ea Hx).
    + by eapply L2.
Qed.

Lemma init_lists h S head :
  lists h S -> head <> NULL -> loose (delete head S) head ->
  exists h', INIT_LIST_HEAD head h = Some h' /\ lists h' (<[head := []]> S).
Proof.
  intros L H0 Hl. destruct (init_dll h head H0) as (h' & E & Hd & Hu). exists h'. split; [done|].
  rewrite <- insert_delete_eq.
  apply (lists_put h h' _ _ _ [head]); [by apply (lists_sub _ S), delete_subseteq|done|set_solver|
    intros x Hx; apply Hu; set_solver|set_solver].
Qed.

Lemma add_lists h S n head :
  lists h S -> n <> NULL -> loose S n -> is_Some (S !! head) ->
  (exists h', list_add n head h = Some h' /\ lists h' (alter (cons n) head S))
  /\ exists h', list_add_tail n head h = Some h' /\ lists h' (alter (fun xs => xs ++ [n]) head S).
Proof.
  intros L H0 Hl [xs E]. pose proof (lists_dll _ _ L head xs E) as Hd.
  assert (Hf : n ∉ head :: xs) by (by apply (Hl head xs)).
  assert (HR : lists h (delete head S)) by (by apply (lists_sub _ S), delete_subseteq).
  assert (Ho : forall x, x ∈ head :: n :: xs -> loose (delete head S) x).
  { intros x Hx. destruct (decide (x = n)) as [->|Hne]; [by apply (loose_sub S), delete_subseteq|].
    apply (loose_others h S head xs x L E). set_solver. }
  rewrite !(alter_present _ _ _ xs) by done. split.
  - destruct (list_add_after h head [] xs n Hd H0 Hf) as (h' & E' & Hd' & Hu). exists h'. split; [done|].
    by apply (lists_put h h' _ _ _ (head :: n :: xs)).
  - assert (Hd2 : dll h head (xs ++ [])) by (by rewrite app_nil_r).
    destruct (list_add_tail_before h head xs [] n Hd2 H0) as (h' & E' & Hd' & Hu); [by rewrite app_nil_r|].
    rewrite app_nil_r in Hu. exists h'. split; [done|].
    apply (lists_put h h' _ _ _ (head :: n :: xs)); try done. intros x Hx. apply Ho. set_solver.
Qed.

(** The first half of every operation that takes a node out of its list. *)
Lemma unlink_lists h S e :
  lists h S -> linked S e ->
  exists p n h', get_prev e h = Some p /\ get_next e h = Some n /\ list_del_between p n h = Some h'
    /\ lists h' (remove_node e <$> S) /\ e <> NULL /\ loose (remove_node e <$> S) e.
Proof.
  intros L (a & xs & Ea & He). apply list_elem_of_split in He as (ys & zs & ->).
  pose proof (lists_dll _ _ L a _ Ea) as Hd. destruct (dll_fresh _ _ _ _ _ _ Hd eq_refl) as [H0 Hf].
  destruct (list_unlink_relink h a ys e zs Hd) as (p & n & h' & Ep & En & E1 & Hd1 & Hu).
  assert (Hmid : remove_node e (ys ++ e :: zs) = ys ++ zs).
  { apply remove_node_mid. destruct Hd as (Hnd & _). by apply NoDup_cons in Hnd as [_ ?]. }
  assert (ES : remove_node e <$> S = <[a := ys ++ zs]> (delete a S)).
  { apply map_eq. intros b. rewrite lookup_fmap. destruct (decide (a = b)) as [<-|Hne].
    - by rewrite Ea, lookup_insert_eq; cbn [fmap option_fmap option_map]; rewrite Hmid.
    - rewrite lookup_insert_ne, lookup_delete_ne by done. destruct (S !! b) as [bs|] eqn:Eb; [|done].
      cbn [fmap option_fmap option_map]. f_equal. apply remove_node_none. intros Hin. apply Hne.
      apply (lists_apart _ _ L a _ b _ e Ea Eb); set_solver. }
  assert (Ho : forall x, x ∈ a :: ys ++ e :: zs -> loose (delete a S) x).
  { intros x Hx. by apply (loose_others h S a _ x L Ea). }
  exists p, n, h'. rewrite ES. split_and!; try done.
  - apply (lists_put h h' _ _ _ (a :: ys ++ e :: zs)); try done; [by apply (lists_sub _ S), delete_subseteq|].
    intros x Hx. apply Ho. set_solver.
  - apply loose_insert; [apply Ho; set_solver|done].
Qed.

Lemma splice_lists h S l head x xs :
  lists h S -> l <> head -> S !! l = Some (x :: xs) -> is_Some (S !! head) ->
  exists h', list_splice_ l head h = Some h' /\ lists h' (alter (app (x :: xs)) head (delete l S)).
Proof.
  intros L Hne El [ys Eh]. pose proof (lists_dll _ _ L l _ El) as Hl. pose proof (lists_dll _ _ L head _ Eh) as Hh.
  destruct (list_splice_dll h head ys l x xs Hh Hl) as (h' & E & Hd & Hu).
  { intros y Hy Hy'. apply Hne. by apply (lists_apart _ _ L l _ head _ y El Eh). }
  unfold list_splice in E. rewrite (list_empty_dll _ _ _ Hl) in E. cbn in E. exists h'. split; [done|].
  rewrite (alter_present _ _ _ ys) by (by rewrite lookup_delete_ne).
  assert (HR : delete head (delete l S) ⊆ S) by (by etrans; apply delete_subseteq).
  assert (Ho : forall y, y ∈ head :: (x :: xs) ++ ys -> loose (delete head (delete l S)) y).
  { intros y Hy. assert (y ∈ l :: x :: xs \/ y ∈ head :: ys) as [Hy'|Hy'] by set_solver.
    - apply (loose_sub (delete l S)); [|apply delete_subseteq]. by apply (loose_others h S l _ y L El).
    - rewrite delete_delete. apply (loose_sub (delete head S)); [|apply delete_subseteq].
      by apply (loose_others h S head _ y L Eh). }
  apply (lists_put h h' _ _ _ (head :: (x :: xs) ++ ys)); try done. by apply (lists_sub _ S).
Qed.

Lemma lexec_refines h S o :
  lists h S -> lop_ok S o -> exists h', lexec h o = Some h' /\ lists h' (lspec S o).
Proof.
  intros L Hok. destruct o as [head|n head|n head|e|e|e head|e head|l head|l head]; cbn [lop_ok lexec lspec] in *.
  - destruct Hok. by apply init_lists.
  - destruct Hok as (H0 & Hne & Hl & Hs).
    apply (add_lists h (delete n S)); try done; [by apply (lists_sub _ S), delete_subseteq|by rewrite lookup_delete_ne].
  - destruct Hok as (H0 & Hne & Hl & Hs).
    apply (add_lists h (delete n S)); try done; [by apply (lists_sub _ S), delete_subseteq|by rewrite lookup_delete_ne].
  - destruct (unlink_lists h S e L Hok) as (p & n & h1 & Ep & En & E1 & L1 & H0 & Hl).
    unfold list_del. rewrite Ep, En. cbn [mbind option_bind]. rewrite E1. cbn [mbind option_bind].
    unfold set_next, set_prev. rewrite !(proj2 (Z.eqb_neq e NULL)) by done. eexists. split; [reflexivity|].
    split; [|apply L1]. intros hd xs E. apply (dll_frame h1); [by apply L1|].
    intros x Hx. unfold get_next, get_prev. cbn [next_of prev_of].
    rewrite !lookup_insert_ne; [done|intros ->; by apply (Hl hd xs)..].
  - destruct (unlink_lists h S e L Hok) as (p & n & h1 & Ep & En & E1 & L1 & H0 & Hl).
    unfold list_del_init. rewrite Ep, En. cbn [mbind option_bind]. rewrite E1. cbn [mbind option_bind].
    apply init_lists; try done. by apply (loose_sub _ _ _ Hl), delete_subseteq.
  - destruct Hok as [Hok Hs]. destruct (unlink_lists h S e L Hok) as (p & n & h1 & Ep & En & E1 & L1 & H0 & Hl).
    unfold list_move. rewrite Ep, En. cbn [mbind option_bind]. rewrite E1. cbn [mbind option_bind].
    apply add_lists; try done. by rewrite lookup_fmap, fmap_is_Some.
  - destruct Hok as [Hok Hs]. destruct (unlink_lists h S e L Hok) as (p & n & h1 & Ep & En & E1 & L1 & H0 & Hl).
    unfold list_move_tail. rewrite Ep, En. cbn [mbind option_bind]. rewrite E1. cbn [mbind option_bind].
    apply add_lists; try done. by rewrite lookup_fmap, fmap_is_Some.
  - destruct Hok as (Hne & [xs El] & Hs). unfold list_splice.
    rewrite (list_empty_dll _ _ _ (lists_dll _ _ L l _ El)), El.
    destruct xs as [|x xs]; [by exists h|]. by apply splice_lists.
  - destruct Hok as (Hne & [xs El] & Hs). unfold list_splice_init.
    rewrite (list_empty_dll _ _ _ (lists_dll _ _ L l _ El)), El.
    destruct xs as [|x xs]; [by exists h|]. cbn [bool_decide].
    destruct (splice_lists h S l head x xs L Hne El Hs) as (h1 & E1 & L1). cbn. rewrite E1. cbn [mbind option_bind].
    pose proof (lists_dll _ _ L l _ El) as Hl. destruct Hs as [ys Eh].
    apply init_lists; [done|destruct Hl as (_ & Hnull & _); set_solver|].
    rewrite (alter_present _ _ _ ys) by (by rewrite lookup_delete_ne). rewrite delete_insert_ne by done.
    apply loose_insert.
    + apply (loose_sub (delete l S)); [by apply (loose_others h S l _ l L El); set_solver|].
      etrans; [apply delete_subseteq|]. apply delete_subseteq.
    + destruct Hl as (Hnd & _). apply NoDup_cons in Hnd as [Hni _].
      assert (l ∉ ys) by (intros Hin; apply Hne; apply (lists_apart _ _ L l _ head _ l El Eh); set_solver).
      set_solver.
Qed.

(** C38: list.h implements sequences.  Take any number of well-formed lists that
    share no node.  Any run of [INIT_LIST_HEAD], [list_add], [list_add_tail],
    [list_del], [list_del_init], [list_move], [list_move_tail], [list_splice] and
    [list_splice_init] over them succeeds (no NULL or dangling access) and leaves
    well-formed lists that share no node, of the nodes the same run computes on
    plain sequences; [list_empty] and [list_for_each] then answer of each list
    whether it is empty and which nodes it has, in order.  The run has to respect
    the conditions of [lop_ok]: a node that is added is not NULL, not the head it is
    added to and in no list; a node that is removed or moved is in one; the lists
    that nodes go to exist; a head that is initialised is not NULL and in no other
    list; and the two lists of a splice exist and differ. *)
Theorem list_ops_refine h S os :
  lists h S -> lrun_ok S os ->
  exists h', lrun h os = Some h' /\ lists h' (fold_left lspec os S)
    /\ forall head xs, fold_left lspec os S !! head = Some xs ->
         list_empty head h' = Some (bool_decide (xs = []))
         /\ list_for_each (length xs) head h' = Some xs.
Proof.
  revert h S. induction os as [|o os IH]; intros h S L Hok; cbn [lrun fold_left lrun_ok] in *.
  - exists h. split; [done|]. split; [done|]. intros head xs E. pose proof (lists_dll _ _ L _ _ E) as Hd.
    split; [by apply list_empty_dll|by apply list_for_each_dll].
  - destruct Hok as [Ho Hos].
    destruct (lexec_refines h S o L Ho) as (h' & -> & L'). cbn [mbind option_bind]. by apply IH.
Qed.

Definition empty_heap : heap := mkHeap (<[100 := 100]> ∅) (<[100 := 100]> ∅).

Lemma list_ops_refine_witness :
  exists h', lrun empty_heap [LInit 100; LAddTail 8 100; LAdd 16 100; LAddTail 24 100; LMoveTail 16 100; LDel 8;
               LInit 200; LAdd 32 200; LMove 24 200; LDelInit 16; LAddTail 8 100; LAdd 16 100;
               LSpliceInit 200 100; LSplice 100 200] = Some h'
    /\ list_for_each 4 200 h' = Some [24; 32; 16; 8].
Proof.
  destruct (list_ops_refine empty_heap ∅ [LInit 100; LAddTail 8 100; LAdd 16 100; LAddTail 24 100; LMoveTail 16 100; LDel 8;
               LInit 200; LAdd 32 200; LMove 24 200; LDelInit 16; LAddTail 8 100; LAdd 16 100;
               LSpliceInit 200 100; LSplice 100 200]) as (h' & E & _ & F).
  - split; intros; by rewrite lookup_empty in *.
  - apply (bool_decide_unpack _). by vm_compute.
  - exists h'. split; [done|]. by apply (F 200 [24; 32; 16; 8]).
Defined.

(** a second [list_del] of the same node, with no insertion in between,
    goes through the NULL pointers the first one left. *)
Theorem list_del_twice h head ys e zs h' :
  dll h head (ys ++ e :: zs) -> list_del e h = Some h' -> list_del e h' = None.
Proof.
  intros Hd E. destruct (dll_del h head ys e zs Hd) as (h1 & E1 & _ & En & Ep & _).
  rewrite E1 in E. simplify_eq. unfold list_del. by rewrite Ep, En.
Qed.

Lemma list_del_twice_witness :
  exists h1 h2, list_add_tail 8 100 empty_heap = Some h1 /\ list_del 8 h1 = Some h2
                /\ list_del 8 h2 = None.
Proof.
  assert (Hd : dll empty_heap 100 []).
  { split; [apply NoDup_singleton|]. split; [by apply (bool_decide_unpack _)|]. by vm_compute. }
  destruct (list_add_tail_before empty_heap 100 [] [] 8 Hd) as (h1 & E1 & Hd1 & _);
    [done|by apply (bool_decide_unpack _)|].
  destruct (dll_del h1 100 [] 8 [] Hd1) as (h2 & E2 & _).
  exists h1, h2. split; [done|]. split; [done|].
  exact (list_del_twice h1 100 [] 8 [] h2 Hd1 E2).
Defined.
