(* ===== verification/SlotAlloc.v ===== *)
(** * libckits/myAlloc.c: the fixed-size slot allocator

    The allocator keeps its free slots on an intrusive list whose nodes are
    the first words of the slots themselves.  The definitions are generic in
    the list implementation ([IntrusiveList]); the theorems are proved from its
    laws.  [word] is the size of a pointer (so [sizeof(list_t)] is [2 * word]). *)

From S2P Require Import Prelude.
From S2P Require Import CList.

Record slot_alloc_t := mkSlotAlloc {
  slotSize : Z;
  freeSlots : Z;      (* the address of the list head *)
  chunkMem : Z;
  chunkSize : Z
}.

Section slot_alloc.
Context {H : Type} {IL : IntrusiveList H} (word : Z).

(** [NULL == allocator || slotSize <= 0 || NULL == chunkMem || chunkSize <= 0] *)
Definition slot_invalid (a : slot_alloc_t) : bool :=
  (slotSize a <=? 0) || (chunkMem a =? NULL) || (chunkSize a <=? 0).

(** [(size + 7) & ~7] in [size_t], then at least a list node. *)
Definition aligned_slot (size : Z) : Z :=
  let size := Z.land (u32 (size + 7)) (-8) in
  if size <? 2 * word then 2 * word else size.

Fixpoint init_slots (n : nat) (mem size head : Z) (h : H) : option H :=
  match n with
  | O => Some h
  | S n => h' ← il_add_tail mem head h; init_slots n (mem + size) size head h'
  end.

Definition init_slot_allocator (a : slot_alloc_t) (h : H) : option (Z * slot_alloc_t * H) :=
  if slot_invalid a then Some (-1, a, h)
  else
    let size := aligned_slot (slotSize a) in
    let nmemb := chunkSize a / size in
    h1 ← il_init (freeSlots a) h;
    h2 ← init_slots (Z.to_nat nmemb) (chunkMem a) size (freeSlots a) h1;
    Some (0, mkSlotAlloc size (freeSlots a) (chunkMem a) (chunkSize a), h2).

Definition uninit_slot_allocator (a : slot_alloc_t) : Z :=
  if slot_invalid a then -1 else 0.

Definition slot_malloc (a : slot_alloc_t) (size : Z) (h : H) : option (Z * H) :=
  if slot_invalid a then Some (NULL, h)
  else if (size <=? 0) || (slotSize a <? size) then Some (NULL, h)
  else
    match il_empty (freeSlots a) h with
    | None => None
    | Some true => Some (NULL, h)
    | Some false =>
        slot ← il_first (freeSlots a) h;
        h' ← il_del slot h;
        Some (slot, h')
    end.

Definition slot_free (a : slot_alloc_t) (mem : Z) (h : H) : option H :=
  if slot_invalid a then Some h
  else if mem =? NULL then Some h
  else
    let chunkEnd := chunkMem a + chunkSize a in
    if (chunkEnd <=? mem) || (mem <? chunkMem a) then Some h
    else il_add_tail mem (freeSlots a) h.

(** ** The contract *)

(** The slots carved out of the chunk. *)
Definition slots (a : slot_alloc_t) : list Z :=
  map (fun i => chunkMem a + Z.of_nat i * slotSize a)
      (seq 0 (Z.to_nat (chunkSize a / slotSize a))).

Definition valid (a : slot_alloc_t) : Prop :=
  slot_invalid a = false /\ 2 * word <= slotSize a /\ chunkMem a + chunkSize a < 2 ^ 32 /\
  0 < chunkMem a /\
  (forall x, chunkMem a <= x < chunkMem a + chunkSize a -> x <> freeSlots a) /\
  freeSlots a <> NULL.

(** [slot_state a h free used]: [free] is the free list, [used] the slots in
    the hands of the callers; together they are the slots of the chunk, each
    exactly once. *)
Definition slot_state (a : slot_alloc_t) (h : H) (free used : list Z) : Prop :=
  il_list h (freeSlots a) free /\ Permutation (free ++ used) (slots a).

Hypothesis word_pos : 0 < word.

Lemma slots_range a x :
  valid a -> x ∈ slots a ->
  chunkMem a <= x /\ x + slotSize a <= chunkMem a + chunkSize a.
Proof.
  intros (_ & Hs & _). unfold slots. rewrite list_elem_of_fmap. intros (i & -> & Hi).
  apply elem_of_seq in Hi.
  assert (Z.of_nat i + 1 <= chunkSize a / slotSize a) by lia.
  pose proof (Z.mul_div_le (chunkSize a) (slotSize a)). nia.
Qed.

Lemma NoDup_slots a : valid a -> NoDup (slots a).
Proof.
  intros (_ & Hs & _). apply NoDup_fmap_2_strong; [|apply NoDup_seq].
  intros i j _ _ E. nia.
Qed.

Lemma slots_disjoint a x y :
  valid a -> x ∈ slots a -> y ∈ slots a -> x <> y ->
  x + slotSize a <= y \/ y + slotSize a <= x.
Proof.
  intros (_ & Hs & _). unfold slots. rewrite !list_elem_of_fmap.
  intros (i & -> & _) (j & -> & _) Hne.
  destruct (Nat.lt_trichotomy i j) as [?|[?|?]]; [left|subst; done|right]; nia.
Qed.

Lemma init_slots_ok n mem size head h xs :
  il_list h head xs -> 0 < mem -> 0 < size -> 
  (forall i, (i < n)%nat -> mem + Z.of_nat i * size ∉ head :: xs) ->
  exists h', init_slots n mem size head h = Some h'
    /\ il_list h' head (xs ++ map (fun i => mem + Z.of_nat i * size) (seq 0 n)).
Proof.
  revert mem h xs. induction n as [|n IH]; intros mem h xs Hl Hm Hs Hf; simpl.
  - exists h. by rewrite app_nil_r.
  - destruct (il_add_tail_ok h head xs mem Hl) as (h1 & E1 & Hl1).
    { unfold NULL. lia. }
    { specialize (Hf 0%nat ltac:(lia)). by rewrite Z.mul_0_l, Z.add_0_r in Hf. }
    rewrite E1. simpl.
    destruct (IH (mem + size) h1 (xs ++ [mem]) Hl1) as (h2 & E2 & Hl2); [lia|done| |].
    { intros i Hi. specialize (Hf (S i) ltac:(lia)).
      replace (mem + size + Z.of_nat i * size) with (mem + Z.of_nat (S i) * size) by lia.
      intros Hin. rewrite app_comm_cons in Hin. apply elem_of_app in Hin as [?|Hin]; [done|].
      apply list_elem_of_singleton in Hin. nia. }
    exists h2. split; [done|]. rewrite <- app_assoc in Hl2. simpl in Hl2.
    rewrite <- seq_shift, map_map.
    replace (mem + Z.of_nat 0 * size) with mem by lia.
    erewrite map_ext; [exact Hl2|]. intros i. lia.
Qed.

Lemma init_state a h :
  valid (mkSlotAlloc (aligned_slot (slotSize a)) (freeSlots a) (chunkMem a) (chunkSize a)) ->
  slot_invalid a = false ->
  exists h', let a' := mkSlotAlloc (aligned_slot (slotSize a)) (freeSlots a)
                                   (chunkMem a) (chunkSize a) in
    init_slot_allocator a h = Some (0, a', h') /\ slot_state a' h' (slots a') [].
Proof.
  intros Hv Hi. pose proof Hv as (_ & Hs & _ & Hc & Hfr & Hh). simpl in *.
  unfold init_slot_allocator. rewrite Hi.
  destruct (il_init_ok h (freeSlots a) Hh) as (h1 & -> & Hl). simpl.
  set (a' := mkSlotAlloc _ _ _ _) in *.
  edestruct (init_slots_ok (Z.to_nat (chunkSize a / aligned_slot (slotSize a)))
              (chunkMem a) (aligned_slot (slotSize a)) (freeSlots a) h1 [] Hl)
    as (h2 & E2 & Hl2); [done|lia| |].
  { intros i Hi' Hin. apply list_elem_of_singleton in Hin.
    destruct (slots_range a' (chunkMem a + Z.of_nat i * aligned_slot (slotSize a)) Hv)
      as [H1 H2].
    - apply list_elem_of_fmap. exists i. split; [done|]. apply elem_of_seq. simpl. lia.
    - simpl in *. refine (Hfr _ _ Hin). lia. }
  rewrite E2. exists h2. split; [done|]. split; [done|]. by rewrite app_nil_r.
Qed.

Lemma malloc_state a h free used size :
  valid a -> slot_state a h free used -> 0 < size <= slotSize a ->
  match free with
  | [] => slot_malloc a size h = Some (NULL, h)
  | x :: free' =>
      exists h', slot_malloc a size h = Some (x, h') /\ slot_state a h' free' (x :: used)
  end.
Proof.
  intros Hv [Hl Hp] Hsz. pose proof Hv as (Hi & _). unfold slot_malloc. rewrite Hi.
  rewrite (proj2 (Z.leb_gt size 0)), (proj2 (Z.ltb_ge (slotSize a) size)) by lia. simpl.
  rewrite (il_empty_ok _ _ _ Hl). destruct free as [|x free]; simpl; [done|].
  rewrite (il_first_ok _ _ _ Hl). simpl.
  destruct (il_del_ok h (freeSlots a) [] x free Hl) as (h' & -> & Hl').
  exists h'. split; [done|]. split; [done|]. by rewrite <- Permutation_middle.
Qed.

Lemma free_state a h free used x :
  valid a -> slot_state a h free (x :: used) ->
  exists h', slot_free a x h = Some h' /\ slot_state a h' (free ++ [x]) used.
Proof.
  intros Hv [Hl Hp]. pose proof Hv as (Hi & Hs & _ & Hc & Hfr & _).
  assert (Hx : x ∈ slots a) by (rewrite <- Hp; set_solver).
  destruct (slots_range a x Hv Hx) as [Hx1 Hx2].
  unfold slot_free. rewrite Hi. rewrite (proj2 (Z.eqb_neq x NULL)) by (unfold NULL; lia).
  rewrite (proj2 (Z.leb_gt _ x)), (proj2 (Z.ltb_ge x _)) by lia. simpl.
  destruct (il_add_tail_ok h (freeSlots a) free x Hl) as (h' & E & Hl').
  - unfold NULL. lia.
  - apply not_elem_of_cons. split.
    + apply Hfr. lia.
    + pose proof (NoDup_slots a Hv) as Hnd. rewrite <- Hp in Hnd.
      apply NoDup_app in Hnd as (_ & Hd & _). intros Hin. apply (Hd x Hin). set_solver.
  - exists h'. split; [done|]. split; [done|]. by rewrite <- app_assoc.
Qed.

(** ** Clients

    A client asks for slots and gives back slots it holds ([SFree i] returns
    the [i]-th of them). *)
Inductive slot_op := SMalloc (size : Z) | SFree (i : nat).

Definition slot_exec (a : slot_alloc_t) (st : H * list Z) (o : slot_op)
    : option (H * list Z) :=
  let '(h, used) := st in
  match o with
  | SMalloc size =>
      '(p, h') ← slot_malloc a size h;
      Some (h', if p =? NULL then used else p :: used)
  | SFree i =>
      match used !! i with
      | None => Some st
      | Some p => h' ← slot_free a p h; Some (h', delete i used)
      end
  end.

Fixpoint slot_run (a : slot_alloc_t) (st : H * list Z) (os : list slot_op)
    : option (H * list Z) :=
  match os with
  | [] => Some st
  | o :: os => st' ← slot_exec a st o; slot_run a st' os
  end.

Lemma slot_state_used a h free used :
  valid a -> slot_state a h free used -> NoDup (free ++ used) /\ (forall x, x ∈ free ++ used -> x ∈ slots a).
Proof.
  intros Hv [_ Hp]. split.
  - rewrite Hp. by apply NoDup_slots.
  - intros x. by rewrite Hp.
Qed.

Lemma malloc_refused a h size :
  slot_invalid a = false -> ~ (0 < size <= slotSize a) -> slot_malloc a size h = Some (NULL, h).
Proof.
  intros Hi Hs. unfold slot_malloc. rewrite Hi. repeat case_if; try done; lia.
Qed.

Lemma slot_exec_state a h free used o :
  valid a -> slot_state a h free used ->
  exists h' free' used', slot_exec a (h, used) o = Some (h', used')
    /\ slot_state a h' free' used'.
Proof.
  intros Hv Hst. destruct o as [size|i]; simpl.
  - destruct (decide (0 < size <= slotSize a)) as [Hs|Hs].
    + pose proof (malloc_state a h free used size Hv Hst Hs) as Hm.
      destruct free as [|x free]; [rewrite Hm; simpl; eauto|].
      destruct Hm as (h' & -> & Hst'). simpl.
      destruct (slot_state_used _ _ _ _ Hv Hst) as [_ Hx].
      specialize (Hx x ltac:(set_solver)). apply slots_range in Hx; [|done].
      pose proof Hv as (_ & _ & _ & Hc & _).
      rewrite (proj2 (Z.eqb_neq x NULL)) by (unfold NULL; lia). eauto.
    + rewrite malloc_refused by (apply Hv || done). simpl. eauto.
  - destruct (used !! i) as [p|] eqn:Hu; [|eauto].
    assert (Hp : Permutation used (p :: delete i used)) by by apply delete_Permutation.
    destruct (free_state a h free (delete i used) p Hv) as (h' & -> & Hst').
    { destruct Hst as [Hl Hpm]. split; [done|]. by rewrite <- Hp. }
    simpl. eauto.
Qed.

Lemma slot_run_state a os h free used :
  valid a -> slot_state a h free used ->
  exists h' free' used', slot_run a (h, used) os = Some (h', used')
    /\ slot_state a h' free' used'.
Proof.
  intros Hv. revert h free used. induction os as [|o os IH]; intros h free used Hst; cbn [slot_run].
  { eauto. }
  destruct (slot_exec_state a h free used o Hv Hst) as (h1 & f1 & u1 & -> & Hst1). cbn. eauto.
Qed.
End slot_alloc.

(** The slots of an initialised allocator. *)
Definition initialised (word : Z) (a : slot_alloc_t) : slot_alloc_t :=
  mkSlotAlloc (aligned_slot word (slotSize a)) (freeSlots a) (chunkMem a) (chunkSize a).

(** C3: after [init_slot_allocator] any sequence of requests, in which the
    client gives back only slots it holds, runs without touching memory outside
    the list cells, and at the end the slots it holds are distinct slots of the
    chunk, lie inside the chunk, do not overlap, and are exactly the slots that
    are not on the free list: [slot_malloc] fails only when all are handed out. *)
Theorem slot_clients_disjoint `{IL : IntrusiveList H} word a h os :
  0 < word -> slot_invalid a = false -> valid word (initialised word a) ->
  exists h0 h' free used,
    init_slot_allocator word a h = Some (0, initialised word a, h0)
    /\ slot_run (initialised word a) (h0, []) os = Some (h', used)
    /\ slot_state (initialised word a) h' free used
    /\ (forall x, x ∈ used -> chunkMem a <= x
          /\ x + aligned_slot word (slotSize a) <= chunkMem a + chunkSize a)
    /\ (forall i j x y, used !! i = Some x -> used !! j = Some y -> i <> j ->
          x + aligned_slot word (slotSize a) <= y \/ y + aligned_slot word (slotSize a) <= x)
    /\ (forall size, 0 < size <= aligned_slot word (slotSize a) ->
          (exists h'', slot_malloc (initialised word a) size h' = Some (NULL, h''))
          <-> length used = length (slots (initialised word a))).
Proof.
  intros Hw Hi Hv. destruct (init_state word Hw a h Hv Hi) as (h0 & E0 & Hst0).
  destruct (slot_run_state word Hw _ os h0 _ _ Hv Hst0) as (h' & free & used & E & Hst).
  exists h0, h', free, used.
  destruct (slot_state_used word Hw _ _ _ _ Hv Hst) as [Hnd Hin].
  split_and!; [done|done|done| | |].
  - intros x Hx. apply (slots_range word Hw (initialised word a) x Hv). set_solver.
  - intros i j x y Hx Hy Hij. apply (slots_disjoint word Hw (initialised word a) x y Hv).
    + apply Hin. apply elem_of_app. right. by eapply list_elem_of_lookup_2.
    + apply Hin. apply elem_of_app. right. by eapply list_elem_of_lookup_2.
    + intros ->. apply NoDup_app in Hnd as (_ & _ & Hnd). apply Hij.
      by eapply NoDup_lookup.
  - intros size Hs. destruct Hst as [Hl Hp].
    pose proof (malloc_state word _ h' free used size Hv (conj Hl Hp) Hs) as Hm.
    apply Permutation_length in Hp. rewrite length_app in Hp.
    destruct free as [|x free]; simpl in Hp.
    + split; [intros _; lia|]. intros _. eauto.
    + destruct Hm as (h2 & Em & _). split; [|lia].
      intros (h3 & Em'). rewrite Em in Em'. simplify_eq.
      assert (Hx : NULL ∈ slots (initialised word a)) by (apply Hin; set_solver).
      apply (slots_range word Hw _ _ Hv) in Hx. pose proof Hv as (_ & _ & _ & Hc & _).
      unfold NULL in Hx. simpl in *. lia.
Qed.


Definition alloc64 : slot_alloc_t := mkSlotAlloc 5 100 1000 40.

Lemma slot_clients_disjoint_witness :
  exists h0 h', init_slot_allocator 4 alloc64 empty_heap = Some (0, initialised 4 alloc64, h0)
    /\ slot_run (initialised 4 alloc64) (h0, [])
         [SMalloc 8; SMalloc 3; SFree 1; SMalloc 1; SMalloc 8] = Some (h', [1024; 1016; 1008])
    /\ length (slots (initialised 4 alloc64)) = 5%nat.
Proof.
  destruct (slot_clients_disjoint 4 alloc64 empty_heap
    [SMalloc 8; SMalloc 3; SFree 1; SMalloc 1; SMalloc 8])
    as (h0 & h' & free & used & E0 & E1 & _); [lia|done| |].
  - repeat split; try (by vm_compute); try (simpl; lia). all: unfold NULL; simpl; lia.
  - exists h0, h'. split; [exact E0|]. split; [|done]. rewrite E1. f_equal. f_equal.
    vm_compute in E0. injection E0 as <-. vm_compute in E1. by injection E1.
Defined.
