(* ===== verification/Tiling.v ===== *)
(** * Chunks tiled by blocks

    The heap allocators keep a chunk tiled by blocks, each a [size_t] size word
    followed by its bytes, and a list of the free ones.  [sz] gives the size of
    the block that starts at an address. *)

From S2P Require Import Prelude.

Definition SIZE_T : Z := 4.

(** [list_del] on a list of distinct nodes. *)
Definition unlink (node : Z) (free : list Z) : list Z := filter (fun x => x <> node) free.

(** ** The tiling invariant *)

Fixpoint tiles (sz : gmap Z Z) (a e : Z) (bs : list Z) : Prop :=
  match bs with
  | [] => a = e
  | b :: bs => b = a /\ exists n, sz !! b = Some n /\ 8 <= n /\ tiles sz (a + SIZE_T + n) e bs
  end.

Definition block_end (sz : gmap Z Z) (x e : Z) : Prop :=
  exists n, sz !! x = Some n /\ x + SIZE_T + n = e.

(** No free block ends where another one starts: everything is combined. *)
Definition combined (sz : gmap Z Z) (free : list Z) : Prop :=
  forall x y, x ∈ free -> y ∈ free -> ~ block_end sz x y.

Section tiles.
Implicit Types sz : gmap Z Z.

Lemma tiles_app sz a e l1 l2 :
  tiles sz a e (l1 ++ l2) <-> exists m, tiles sz a m l1 /\ tiles sz m e l2.
Proof.
  revert a. induction l1 as [|b l1 IH]; intros a; simpl.
  - split; [intros H; by exists a | by intros (m & -> & H)].
  - split.
    + intros (-> & n & Hn & H8 & Ht). apply IH in Ht as (m & H1 & H2).
      exists m. eauto 10.
    + intros (m & (-> & n & Hn & H8 & Ht) & H2). split; [done|].
      exists n. rewrite IH. eauto 10.
Qed.

Lemma tiles_le sz a e l : tiles sz a e l -> a <= e.
Proof.
  revert a. induction l as [|b l IH]; intros a; simpl; [lia|].
  intros (-> & n & _ & H8 & Ht). apply IH in Ht. unfold SIZE_T in *. lia.
Qed.

Lemma tiles_elem sz a e l x :
  tiles sz a e l -> x ∈ l ->
  exists n l1 l2, l = l1 ++ x :: l2 /\ sz !! x = Some n /\ 8 <= n
    /\ tiles sz a x l1 /\ tiles sz (x + SIZE_T + n) e l2.
Proof.
  intros Ht Hx. apply list_elem_of_split in Hx as (l1 & l2 & ->).
  apply tiles_app in Ht as (m & H1 & H2). simpl in H2. destruct H2 as (-> & n & ? & ? & ?).
  exists n, l1, l2. done.
Qed.

Lemma tiles_block sz a e l x n :
  tiles sz a e l -> x ∈ l -> sz !! x = Some n -> 8 <= n /\ a <= x /\ x + SIZE_T + n <= e.
Proof.
  intros Ht Hx Hn. destruct (tiles_elem _ _ _ _ _ Ht Hx) as (n' & l1 & l2 & _ & Hn' & ? & H1 & H2).
  simplify_eq. apply tiles_le in H1. apply tiles_le in H2. lia.
Qed.

Lemma tiles_disjoint sz a e l x n y :
  tiles sz a e l -> x ∈ l -> y ∈ l -> sz !! x = Some n -> x < y -> x + SIZE_T + n <= y.
Proof.
  intros Ht Hx Hy Hn Hlt.
  destruct (tiles_elem _ _ _ _ _ Ht Hx) as (n' & l1 & l2 & -> & Hn' & ? & H1 & H2).
  simplify_eq. apply elem_of_app in Hy as [Hy|Hy].
  - destruct (tiles_elem _ _ _ _ _ H1 Hy) as (k & l3 & l4 & _ & Hk & ? & _ & H4).
    apply tiles_le in H4. unfold SIZE_T in *. lia.
  - apply elem_of_cons in Hy as [->|Hy]; [lia|].
    destruct (tiles_elem _ _ _ _ _ H2 Hy) as (k & l3 & l4 & _ & Hk & ? & H3 & _).
    by apply tiles_le in H3.
Qed.

Lemma tiles_NoDup sz a e l : tiles sz a e l -> NoDup l.
Proof.
  revert a. induction l as [|b l IH]; intros a; simpl; [constructor|].
  intros (-> & n & Hn & H8 & Ht). constructor; [|by eapply IH].
  intros Hin. destruct (tiles_elem _ _ _ _ _ Ht Hin) as (k & l3 & l4 & _ & _ & _ & H3 & _).
  apply tiles_le in H3. unfold SIZE_T in *. lia.
Qed.

Lemma tiles_ext sz sz' a e l :
  tiles sz a e l -> (forall y, y ∈ l -> sz' !! y = sz !! y) -> tiles sz' a e l.
Proof.
  revert a. induction l as [|b l IH]; intros a; simpl; [done|].
  intros (-> & n & Hn & H8 & Ht) Hx. split; [done|]. exists n.
  rewrite Hx by set_solver. split_and!; [done|done|]. apply IH; [done|]. set_solver.
Qed.

(** Replacing the tiling of the middle of a chunk. *)
Lemma tiles_replace sz sz' a e l1 l2 x m mid :
  tiles sz a x l1 -> tiles sz m e l2 -> x <= m ->
  (forall y, y < x \/ m <= y -> sz' !! y = sz !! y) ->
  tiles sz' x m mid ->
  tiles sz' a e (l1 ++ mid ++ l2).
Proof.
  intros H1 H2 Hle Hsz Hm. apply tiles_app. exists x. split.
  - eapply tiles_ext; [done|]. intros y Hy. apply Hsz. left.
    destruct (tiles_elem _ _ _ _ _ H1 Hy) as (k & l3 & l4 & _ & _ & ? & _ & H4).
    apply tiles_le in H4. unfold SIZE_T in *. lia.
  - apply tiles_app. exists m. split; [done|].
    eapply tiles_ext; [done|]. intros y Hy. apply Hsz. right.
    destruct (tiles_elem _ _ _ _ _ H2 Hy) as (k & l3 & l4 & _ & _ & ? & H3 & _).
    by apply tiles_le in H3.
Qed.

Lemma tiles_adjacent sz a e l x y :
  tiles sz a e l -> x ∈ l -> y ∈ l -> block_end sz x y -> exists l1 l2, l = l1 ++ x :: y :: l2.
Proof.
  intros Ht Hx Hy (n & Hn & He).
  destruct (tiles_elem _ _ _ _ _ Ht Hx) as (k & l1 & l2 & -> & Hk & ? & H1 & H2).
  simplify_eq. exists l1. apply elem_of_app in Hy as [Hy|Hy].
  - destruct (tiles_elem _ _ _ _ _ H1 Hy) as (k' & l3 & l4 & _ & _ & ? & _ & H4).
    apply tiles_le in H4. unfold SIZE_T in *. lia.
  - apply elem_of_cons in Hy as [Hy|Hy]; [unfold SIZE_T in *; lia|].
    destruct l2 as [|z l2]; [set_solver|]. exists l2.
    destruct (decide (z = x + SIZE_T + n)) as [->|Hne]; [done|].
    simpl in H2. destruct H2 as [H2 _]. done.
Qed.

Lemma tiles_merge sz a e l1 l2 x y n m :
  tiles sz a e (l1 ++ x :: y :: l2) -> sz !! x = Some n -> sz !! y = Some m ->
  tiles (<[x := n + (m + SIZE_T)]> sz) a e (l1 ++ x :: l2).
Proof.
  intros Ht Hn Hm. apply tiles_app in Ht as (b & H1 & H2). simpl in H2.
  destruct H2 as (Hb & n' & Hn' & Hn8 & Hy & m' & Hm' & Hm8 & H2). subst b y.
  assert (n' = n) as -> by congruence. assert (m' = m) as -> by congruence.
  change (x :: l2) with ([x] ++ l2).
  apply (tiles_replace sz _ a e l1 l2 x (x + SIZE_T + n + SIZE_T + m)); try done.
  - unfold SIZE_T. lia.
  - intros y Hy. apply lookup_insert_ne. unfold SIZE_T in *. lia.
  - simpl. split; [done|]. exists (n + (m + SIZE_T)). rewrite lookup_insert_eq.
    unfold SIZE_T in *. split_and!; [done|lia|lia].
Qed.

Lemma tiles_split sz a e l1 l2 x n A :
  tiles sz a e (l1 ++ x :: l2) -> sz !! x = Some n -> 8 <= A -> A + 12 <= n ->
  let y := x + SIZE_T + A in
  tiles (<[x := A]> (<[y := n - A - SIZE_T]> sz)) a e (l1 ++ x :: y :: l2).
Proof.
  intros Ht Hn HA Hs y. apply tiles_app in Ht as (b & H1 & H2). simpl in H2.
  destruct H2 as (Hb & n' & Hn' & Hn8 & H2). subst b.
  assert (n' = n) as -> by congruence.
  change (x :: y :: l2) with ([x; y] ++ l2).
  apply (tiles_replace sz _ a e l1 l2 x (x + SIZE_T + n)); try done.
  - unfold SIZE_T. lia.
  - intros z Hz. unfold SIZE_T in *. rewrite !lookup_insert_ne by lia. done.
  - simpl. split; [done|]. exists A. rewrite lookup_insert_eq. split_and!; [done|done|done|].
    exists (n - A - SIZE_T). unfold y, SIZE_T in *.
    rewrite lookup_insert_ne by lia. rewrite lookup_insert_eq. split_and!; [done|lia|lia].
Qed.
End tiles.

Lemma unlink_cons_Perm x free : x ∈ free -> NoDup free -> Permutation free (x :: unlink x free).
Proof.
  intros Hx Hnd. apply list_elem_of_split in Hx as (l1 & l2 & ->).
  apply NoDup_app in Hnd as (_ & Hd & Hnd). apply NoDup_cons in Hnd as [Hnx _].
  unfold unlink. rewrite filter_app, filter_cons_False by auto.
  rewrite !filter_all; [by rewrite Permutation_middle| |];
    apply Forall_forall; intros y Hy ->; set_solver.
Qed.

Lemma unlink_elem x y free : x ∈ unlink y free <-> x <> y /\ x ∈ free.
Proof. unfold unlink. by rewrite list_elem_of_filter. Qed.

Lemma tiles_sizes sz a e (bs free : list Z) :
  tiles sz a e bs -> (forall x, x ∈ free -> x ∈ bs) -> forall x, x ∈ free -> is_Some (sz !! x).
Proof.
  intros Ht Hf x Hx. destruct (tiles_elem _ _ _ _ x Ht) as (n & _ & _ & _ & Hn & _); eauto.
Qed.

Lemma combined_sub sz sz' free free' :
  combined sz free -> (forall x, x ∈ free' -> x ∈ free /\ sz' !! x = sz !! x) ->
  combined sz' free'.
Proof.
  intros Hc Hs x y Hx Hy (n & Hn & He). destruct (Hs x Hx) as [Hx' E].
  destruct (Hs y Hy) as [Hy' _]. apply (Hc x y Hx' Hy'). exists n. by rewrite <- E.
Qed.

Lemma land_m8 x : Z.land x (-8) = x - x mod 8.
Proof.
  change (-8) with (Z.lnot (Z.ones 3)). rewrite <- Z.ldiff_land, Z.ldiff_ones_r by lia.
  rewrite Z.shiftl_mul_pow2, Z.shiftr_div_pow2 by lia. change (2 ^ 3) with 8.
  pose proof (Z.div_mod x 8). lia.
Qed.


(** The blocks of a chunk in [0, 2^32), split into those of the clients, the
    free ones and the one being released. *)
Definition chunk_ok (sz : gmap Z Z) (a e : Z) (cur : Z) (live free : list Z) : Prop :=
  exists bs, tiles sz a e bs /\ Permutation bs (cur :: live ++ free).

Lemma chunk_sizes sz a e cur live free x :
  0 < a -> e < 2 ^ 32 -> chunk_ok sz a e cur live free -> x ∈ cur :: live ++ free ->
  exists n, sz !! x = Some n /\ a <= x /\ 8 <= n /\ x + SIZE_T + n <= e.
Proof.
  intros Ha He (bs & Ht & Hp) Hx. rewrite <- Hp in Hx.
  destruct (tiles_elem _ _ _ _ x Ht Hx) as (n & _ & _ & _ & Hn & _).
  destruct (tiles_block _ _ _ _ x n Ht Hx Hn) as (? & ? & ?). eauto.
Qed.

Lemma chunk_nodup sz a e cur live free : chunk_ok sz a e cur live free -> NoDup (cur :: live ++ free).
Proof. intros (bs & Ht & Hp). rewrite <- Hp. by eapply tiles_NoDup. Qed.

(** [keep] grows over [gone], its right neighbour; [node], the one of the two
    that was free, leaves the free blocks. *)
Lemma chunk_merge sz a e live free cur node free' keep gone n m :
  chunk_ok sz a e cur live free -> Permutation free (node :: free') ->
  (keep = cur /\ gone = node \/ keep = node /\ gone = cur) ->
  sz !! keep = Some n -> sz !! gone = Some m -> keep + SIZE_T + n = gone ->
  chunk_ok (<[keep := n + (m + SIZE_T)]> sz) a e keep live free'.
Proof.
  intros (bs & Ht & Hp) Hu Hkg Hn Hm Hend. rewrite Hu in Hp.
  destruct (tiles_adjacent _ _ _ _ keep gone Ht) as (l1 & l2 & ->);
    [rewrite Hp; set_solver|rewrite Hp; set_solver|by exists n|].
  exists (l1 ++ keep :: l2). split; [by eapply tiles_merge|].
  assert (Hp' : keep :: gone :: l1 ++ l2 ≡ₚ cur :: node :: live ++ free').
  { transitivity (l1 ++ keep :: gone :: l2); [solve_Permutation|]. rewrite Hp. solve_Permutation. }
  rewrite <- Permutation_middle. apply Permutation_skip.
  apply (Permutation_cons_inv (a:=gone)), (Permutation_cons_inv (a:=keep)). rewrite Hp'.
  destruct Hkg as [[-> ->]|[-> ->]]; first [done | apply Permutation_swap].
Qed.
