(* ===== verification/PoolAlloc.v ===== *)
(** * libckits/myAlloc.c: the pool allocator

    A chunk is tiled by blocks, each a [size_t] size word followed by the bytes
    it gives to a client; a free block keeps its list node in those bytes.
    [size_of] holds the size words, [freeSlots] the free blocks in the order of
    the allocator's circular list.  Falling off the end of that list makes the
    loop variable point to the allocator itself, whose first word is
    [reserved]. *)

From S2P Require Import Prelude.
From S2P Require Import Tiling.

Definition FREE_POOL_T : Z := 12.
Definition ALIGN_8BYTES (x : Z) : Z := Z.land (s32 (x + 7)) (-8).
Definition POOLSIZE_TO_EFFTSIZE (x : Z) : Z := u32 (x - SIZE_T).
Definition EFFTSIZE_TO_POOLSIZE (x : Z) : Z := u32 (x + SIZE_T).

Record pool_alloc_t := mkPool {
  reserved : Z;
  chunkMem : Z;
  chunkSize : Z;
  freeSlots : list Z;
  size_of : gmap Z Z
}.

Definition set_free (p : pool_alloc_t) (free : list Z) (sz : gmap Z Z) : pool_alloc_t :=
  mkPool (reserved p) (chunkMem p) (chunkSize p) free sz.

(** [NULL == chunkMem || chunkSize <= EFFTSIZE_TO_POOLSIZE(0)] *)
Definition init_pool_allocator (p : pool_alloc_t) : Z * pool_alloc_t :=
  if (chunkMem p =? 0) || (chunkSize p <=? EFFTSIZE_TO_POOLSIZE 0) then (-1, p)
  else
    let memStart := u32 (ALIGN_8BYTES (chunkMem p)) in
    let chunkEnd := u32 (chunkMem p + chunkSize p) in
    if chunkEnd <=? memStart then (-1, p)
    else
      (0, set_free p [memStart]
            (<[memStart := POOLSIZE_TO_EFFTSIZE (chunkSize p)]> (size_of p))).

Definition pool_invalid (p : pool_alloc_t) : bool :=
  (chunkMem p =? 0) || (chunkSize p <=? 0).

Definition uninit_pool_allocator (p : pool_alloc_t) : Z :=
  if pool_invalid p then -1 else 0.

(** [list_for_each_entry(node, ...) if (node->size >= want) break;]: [None] in
    the result stands for the allocator itself. *)
Fixpoint find_fit (sz : gmap Z Z) (free : list Z) (want : Z) : option (option Z) :=
  match free with
  | [] => Some None
  | node :: free =>
      n ← sz !! node;
      if want <=? n then Some (Some node) else find_fit sz free want
  end.

(** [list_add(&cur->list, &node->list)] *)
Fixpoint link_after (cur node : Z) (free : list Z) : list Z :=
  match free with
  | [] => []
  | x :: free => if decide (x = node) then x :: cur :: free else x :: link_after cur node free
  end.

Definition insert_free (sz : gmap Z Z) (free : list Z) (cur : Z) : option (list Z) :=
  c ← sz !! cur;
  node ← find_fit sz free c;
  Some (match node with Some node => link_after cur node free | None => cur :: free end).

Definition pool_malloc (p : pool_alloc_t) (size : Z) : option (Z * pool_alloc_t) :=
  if pool_invalid p then Some (0, p)
  else if size <=? 0 then Some (0, p)
  else
    fit ← find_fit (size_of p) (freeSlots p) size;
    match fit with
    | None =>
        (* the size read is [reserved]; were it large enough, the list head
           itself would be unlinked *)
        if size <=? reserved p then None else Some (0, p)
    | Some node =>
        n ← size_of p !! node;
        let free := unlink node (freeSlots p) in
        let mem := node + SIZE_T in
        if u32 (ALIGN_8BYTES size + FREE_POOL_T) <? n then
          let cur := u32 (mem + ALIGN_8BYTES size) in
          let sz := <[cur := POOLSIZE_TO_EFFTSIZE (u32 (n - ALIGN_8BYTES size))]> (size_of p) in
          let sz := <[node := u32 (ALIGN_8BYTES size)]> sz in
          free' ← insert_free sz free cur;
          Some (mem, set_free p free' sz)
        else Some (mem, set_free p free (size_of p))
    end.

(** The body of the combining loop: the first free block that ends where [cur]
    starts ([true]) or starts where [cur] ends ([false]). *)
Fixpoint find_neighbour (sz : gmap Z Z) (cur : Z) (free : list Z) : option (option (Z * bool)) :=
  match free with
  | [] => Some None
  | node :: free =>
      n ← sz !! node;
      c ← sz !! cur;
      if u32 (node + EFFTSIZE_TO_POOLSIZE n) =? cur then Some (Some (node, true))
      else if u32 (cur + EFFTSIZE_TO_POOLSIZE c) =? node then Some (Some (node, false))
      else find_neighbour sz cur free
  end.

Definition absorb (sz : gmap Z Z) (a b : Z) : option (gmap Z Z) :=
  x ← sz !! a; y ← sz !! b;
  Some (<[a := u32 (x + EFFTSIZE_TO_POOLSIZE y)]> sz).

(** [while(1) { ... }]: every round but the last takes one block off the list,
    so [length free] further rounds are enough. *)
Fixpoint defrag (fuel : nat) (sz : gmap Z Z) (cur : Z) (free : list Z)
    : option (gmap Z Z * Z * list Z) :=
  hit ← find_neighbour sz cur free;
  match hit with
  | None => Some (sz, cur, free)
  | Some (node, before) =>
      match fuel with
      | O => None
      | S fuel =>
          let (keep, gone) := if before : bool then (node, cur) else (cur, node) in
          sz' ← absorb sz keep gone;
          defrag fuel sz' keep (unlink node free)
      end
  end.

Definition pool_free (p : pool_alloc_t) (mem : Z) : option pool_alloc_t :=
  if pool_invalid p then Some p
  else if mem =? 0 then Some p
  else
    let chunkEnd := u32 (chunkMem p + chunkSize p) in
    if (chunkEnd <=? mem) || (mem <? chunkMem p) then Some p
    else
      let cur := mem - SIZE_T in
      c ← size_of p !! cur;
      if chunkSize p <? c then Some p
      else
        '(sz, cur, free) ← defrag (length (freeSlots p)) (size_of p) cur (freeSlots p);
        free' ← insert_free sz free cur;
        Some (set_free p free' sz).

(** The result carries what [snprintf] writes at the returned address. *)
Definition pool_strdup (p : pool_alloc_t) (s : cstr) : option (Z * bytes * pool_alloc_t) :=
  '(mem, p') ← pool_malloc p (Z.of_nat (length s) + 1);
  Some (mem, if mem =? 0 then [] else s ++ [0], p').

(** ** The state invariant *)

Record pool_state (p : pool_alloc_t) (live : list Z) : Prop := {
  ps_low : 0 < chunkMem p;
  ps_high : chunkMem p + chunkSize p < 2 ^ 32;
  ps_size : 0 < chunkSize p < 2 ^ 31 - 16;
  ps_tiles : exists bs, tiles (size_of p) (chunkMem p) (chunkMem p + chunkSize p) bs
                        /\ Permutation bs (live ++ freeSlots p);
  ps_combined : combined (size_of p) (freeSlots p)
}.

(** ** The list operations *)

Lemma find_fit_ok sz free want :
  (forall x, x ∈ free -> is_Some (sz !! x)) ->
  exists r, find_fit sz free want = Some r /\
    match r with
    | Some node => exists pre post n, free = pre ++ node :: post /\ sz !! node = Some n
        /\ want <= n /\ (forall y k, y ∈ pre -> sz !! y = Some k -> k < want)
    | None => forall y k, y ∈ free -> sz !! y = Some k -> k < want
    end.
Proof.
  induction free as [|x free IH]; intros Hs; simpl.
  { exists None. set_solver. }
  destruct (Hs x) as [n Hn]; [set_solver|]. rewrite Hn. simpl.
  destruct (Z.leb_spec want n) as [Hle|Hlt].
  - exists (Some x). split; [done|]. exists [], free, n. set_solver.
  - destruct IH as (r & -> & Hr); [set_solver|]. exists r. split; [done|].
    assert (Hx : forall k, sz !! x = Some k -> k < want) by (intros; simplify_eq; lia).
    destruct r as [node|]; [|set_solver].
    destruct Hr as (pre & post & k & -> & Hk & Hw & Hp).
    exists (x :: pre), post, k. set_solver.
Qed.

Lemma link_after_Perm cur node free :
  node ∈ free -> Permutation (link_after cur node free) (cur :: free).
Proof.
  induction free as [|x free IH]; simpl; [set_solver|]. intros Hin.
  case_decide as Hx; [apply Permutation_swap|].
  rewrite IH by set_solver. apply Permutation_swap.
Qed.

Lemma insert_free_ok sz free cur :
  (forall x, x ∈ cur :: free -> is_Some (sz !! x)) ->
  exists free', insert_free sz free cur = Some free' /\ Permutation free' (cur :: free).
Proof.
  intros Hs. unfold insert_free. destruct (Hs cur) as [c Hc]; [set_solver|]. rewrite Hc. simpl.
  destruct (find_fit_ok sz free c) as (r & -> & Hr); [set_solver|]. simpl.
  destruct r as [node|]; [|eauto]. eexists. split; [done|].
  apply link_after_Perm. destruct Hr as (pre & post & n & -> & _). set_solver.
Qed.

(** ** Combining neighbours *)

Lemma find_neighbour_ok sz cur free :
  (forall x, x ∈ cur :: free -> exists n, sz !! x = Some n /\ 0 <= x /\ 0 <= n
      /\ x + SIZE_T + n < 2 ^ 32) ->
  exists r, find_neighbour sz cur free = Some r /\
    match r with
    | Some (node, true) => node ∈ free /\ block_end sz node cur
    | Some (node, false) => node ∈ free /\ block_end sz cur node
    | None => forall x, x ∈ free -> ~ block_end sz x cur /\ ~ block_end sz cur x
    end.
Proof.
  induction free as [|x free IH]; intros Hs; cbn [find_neighbour].
  { exists None. split; [done|]. intros x Hx. set_solver. }
  destruct (Hs x) as (n & Hn & ? & ? & ?); [set_solver|].
  destruct (Hs cur) as (c & Hc & ? & ? & ?); [set_solver|]. rewrite Hn, Hc. cbn [mbind option_bind].
  unfold EFFTSIZE_TO_POOLSIZE, SIZE_T in *. unwrap.
  case_if; [|case_if].
  - exists (Some (x, true)). split; [done|]. split; [set_solver|]. exists n. split; [done|].
    unfold SIZE_T. lia.
  - exists (Some (x, false)). split; [done|]. split; [set_solver|]. exists c. split; [done|].
    unfold SIZE_T. lia.
  - destruct IH as (r & Er & Hr); [set_solver|].
    exists r. split; [exact Er|]. destruct r as [[node []]|]; [set_solver|set_solver|].
    intros y Hy. apply elem_of_cons in Hy as [->|Hy]; [|by apply Hr].
    split; intros (k & Hk & He); simplify_eq; unfold SIZE_T in *; lia.
Qed.

(** One round: [keep] takes over [gone], and [node], one of the two, leaves the
    free list. *)
Lemma absorb_ok sz a e live free keep gone cur node :
  0 < a -> e < 2 ^ 32 ->
  chunk_ok sz a e cur live free -> combined sz free -> node ∈ free ->
  (keep = cur /\ gone = node \/ keep = node /\ gone = cur) ->
  block_end sz keep gone ->
  exists sz', absorb sz keep gone = Some sz'
    /\ chunk_ok sz' a e keep live (unlink node free) /\ combined sz' (unlink node free)
    /\ (forall x, x ∈ live -> sz' !! x = sz !! x).
Proof.
  intros Ha He Hck Hcomb Hnode Hkg (n & Hn & Hend).
  pose proof (chunk_nodup _ _ _ _ _ _ Hck) as Hnd.
  apply NoDup_cons in Hnd as [Hcur Hnd]. apply NoDup_app in Hnd as (_ & Hdis & Hndf).
  destruct (chunk_sizes _ _ _ _ _ _ keep Ha He Hck) as (n' & Hn' & ? & ? & ?); [set_solver|].
  destruct (chunk_sizes _ _ _ _ _ _ gone Ha He Hck) as (m & Hm & ? & ? & ?); [set_solver|].
  assert (n' = n) as -> by congruence.
  assert (E : u32 (n + EFFTSIZE_TO_POOLSIZE m) = n + (m + SIZE_T)).
  { unfold EFFTSIZE_TO_POOLSIZE, SIZE_T in *. unwrap. reflexivity. }
  unfold absorb. rewrite Hn, Hm. cbn [mbind option_bind]. rewrite E.
  assert (Hkn : keep ∉ unlink node free /\ keep ∉ live).
  { rewrite unlink_elem. set_solver. }
  eexists. split; [done|]. split; [|split].
  - eapply chunk_merge; try done. by apply unlink_cons_Perm.
  - eapply combined_sub; [done|]. intros x Hx. apply unlink_elem in Hx as Hx'.
    split; [apply Hx'|]. apply lookup_insert_ne. intros ->. by destruct Hkn.
  - intros x Hx. apply lookup_insert_ne. intros ->. by destruct Hkn.
Qed.

Lemma defrag_ok fuel sz a e cur live free :
  0 < a -> e < 2 ^ 32 -> (length free <= fuel)%nat ->
  chunk_ok sz a e cur live free -> combined sz free ->
  exists sz' cur' free', defrag fuel sz cur free = Some (sz', cur', free')
    /\ chunk_ok sz' a e cur' live free' /\ combined sz' (cur' :: free')
    /\ (forall x, x ∈ live -> sz' !! x = sz !! x).
Proof.
  intros Ha He. revert sz cur free. induction fuel as [|fuel IH];
    intros sz cur free Hf Hck Hcomb.
  all: destruct (find_neighbour_ok sz cur free) as (r & Er & Hr);
    [intros x Hx; destruct (chunk_sizes _ _ _ _ _ _ x Ha He Hck) as (n & ? & ? & ? & ?);
       [set_solver|exists n; split_and!; try done; lia]|].
  all: cbn [defrag]; rewrite Er; cbn [mbind option_bind].
  all: assert (Hdone : (forall x, x ∈ free -> ~ block_end sz x cur /\ ~ block_end sz cur x) ->
                       combined sz (cur :: free)).
  1,3: intros Hn x y Hx Hy; apply elem_of_cons in Hx as [->|Hx];
       apply elem_of_cons in Hy as [->|Hy]; [|by apply Hn|by apply Hn|by apply Hcomb];
       intros (n & Hn' & He'); destruct (chunk_sizes _ _ _ _ _ _ cur Ha He Hck) as (n' & ? & ? & ? & ?);
         [set_solver|]; simplify_eq; unfold SIZE_T in *; lia.
  - destruct r as [[node before]|]; [|eauto 10].
    destruct free; [|simpl in Hf; lia]. destruct before; set_solver.
  - destruct r as [[node before]|]; [|eauto 10].
    assert (Hnode : node ∈ free) by (destruct before; apply Hr).
    set (kg := if before : bool then (node, cur) else (cur, node)).
    destruct (absorb_ok sz a e live free kg.1 kg.2 cur node) as (sz1 & E1 & Hck1 & Hc1 & Hl1);
      try done; [unfold kg; destruct before; simpl; auto|unfold kg; destruct before; apply Hr|].
    rewrite (surjective_pairing kg), E1. cbn [mbind option_bind].
    destruct (IH sz1 kg.1 (unlink node free)) as (sz2 & c2 & f2 & E2 & Hck2 & Hc2 & Hl2); try done.
    { destruct Hck as (bs & Ht & Hp). apply tiles_NoDup in Ht. rewrite Hp in Ht.
      apply NoDup_cons in Ht as [_ Ht]. apply NoDup_app in Ht as (_ & _ & Ht).
      pose proof (Permutation_length (unlink_cons_Perm node free Hnode Ht)) as Hl. simpl in Hl. lia. }
    exists sz2, c2, f2. split_and!; try done. intros x Hx. rewrite Hl2, Hl1; done.
Qed.

(** ** The operations preserve the tiling *)

Definition chunk_end (p : pool_alloc_t) : Z := chunkMem p + chunkSize p.

Lemma ALIGN_8BYTES_spec x :
  0 <= x < 2 ^ 31 - 8 ->
  ALIGN_8BYTES x mod 8 = 0 /\ x <= ALIGN_8BYTES x < x + 8.
Proof.
  intros Hx. unfold ALIGN_8BYTES. rewrite wraps_id by width_lia. rewrite land_m8. div_lia.
Qed.

Lemma init_pool_ok p :
  0 < chunkMem p -> chunkMem p mod 8 = 0 -> 12 <= chunkSize p < 2 ^ 31 - 16 ->
  chunkMem p + chunkSize p < 2 ^ 32 ->
  exists p', init_pool_allocator p = (0, p') /\ pool_state p' []
    /\ freeSlots p' = [chunkMem p] /\ size_of p' !! chunkMem p = Some (chunkSize p - SIZE_T).
Proof.
  intros Hm Hal Hs He. unfold init_pool_allocator.
  assert (EFFTSIZE_TO_POOLSIZE 0 = 4) by done.
  rewrite (proj2 (Z.eqb_neq _ 0)), (proj2 (Z.leb_gt (chunkSize p) _)) by lia.
  assert (E : u32 (ALIGN_8BYTES (chunkMem p)) = chunkMem p).
  { unfold ALIGN_8BYTES. rewrite land_m8. unfold wraps, wrapu. div_lia. }
  simpl orb. cbv iota. rewrite E. unwrap. rewrite (proj2 (Z.leb_gt _ _)) by lia.
  unfold POOLSIZE_TO_EFFTSIZE, SIZE_T in *. unwrap. eexists. split; [done|]. simpl.
  split_and!; [|done|apply lookup_insert_eq].
  split; simpl; try done; try lia.
  - exists [chunkMem p]. split; [|done]. simpl. split; [done|].
    exists (chunkSize p - 4). rewrite lookup_insert_eq. split_and!; [done|lia|unfold SIZE_T; lia].
  - intros x y ->%list_elem_of_singleton ->%list_elem_of_singleton (n & Hn & Hb).
    rewrite lookup_insert_eq in Hn. simplify_eq. unfold SIZE_T in *. lia.
Qed.

Lemma pool_chunk p live x :
  pool_state p live -> x ∈ live ++ freeSlots p ->
  exists n, size_of p !! x = Some n /\ chunkMem p <= x /\ 8 <= n /\ x + SIZE_T + n <= chunk_end p.
Proof.
  intros [? ? ? (bs & Ht & Hp) _] Hx. rewrite <- Hp in Hx.
  destruct (tiles_elem _ _ _ _ x Ht Hx) as (n & _ & _ & _ & Hn & _).
  destruct (tiles_block _ _ _ _ x n Ht Hx Hn) as (? & ? & ?). eauto.
Qed.

Lemma pool_nodup p live : pool_state p live -> NoDup (live ++ freeSlots p).
Proof. intros [? ? ? (bs & Ht & Hp) _]. rewrite <- Hp. by eapply tiles_NoDup. Qed.

Lemma pool_valid p live : pool_state p live -> pool_invalid p = false.
Proof. intros []. unfold pool_invalid. repeat case_if; lia. Qed.

(** Taking [node] off the free list whole. *)
Lemma take_whole p live node :
  pool_state p live -> node ∈ freeSlots p ->
  pool_state (set_free p (unlink node (freeSlots p)) (size_of p)) (node :: live).
Proof.
  intros Hst Hn. pose proof (pool_nodup _ _ Hst) as Hnd. apply NoDup_app in Hnd as (_ & _ & Hnd).
  pose proof (unlink_cons_Perm node _ Hn Hnd) as Hu.
  destruct Hst as [? ? ? (bs & Ht & Hp) Hc]. split; try done; simpl.
  - exists bs. split; [done|]. rewrite Hp, Hu at 1. solve_Permutation.
  - eapply combined_sub; [done|]. intros x Hx. apply unlink_elem in Hx. split; [apply Hx|done].
Qed.

(** Splitting it: the first [A] bytes for the client, the rest back. *)
Lemma take_split p live node n A free' :
  pool_state p live -> node ∈ freeSlots p -> size_of p !! node = Some n ->
  8 <= A -> A + FREE_POOL_T <= n ->
  let cur := node + SIZE_T + A in
  Permutation free' (cur :: unlink node (freeSlots p)) ->
  pool_state (set_free p free'
    (<[node := A]> (<[cur := n - A - SIZE_T]> (size_of p)))) (node :: live).
Proof.
  intros Hst Hn Hsz HA Hs cur Hf. pose proof (pool_nodup _ _ Hst) as Hnd.
  apply NoDup_app in Hnd as (_ & _ & Hnd).
  pose proof (unlink_cons_Perm node _ Hn Hnd) as Hu.
  destruct Hst as [? ? ? (bs & Ht & Hp) Hc].
  assert (Hnb : node ∈ bs) by (rewrite Hp; set_solver).
  pose proof (tiles_elem _ _ _ _ node Ht Hnb) as (n' & l1 & l2 & -> & Hn' & _).
  assert (n' = n) as -> by congruence. unfold FREE_POOL_T, SIZE_T in *.
  assert (Hcur : forall x k, x ∈ l1 ++ node :: l2 -> size_of p !! x = Some k ->
                   x <> node -> x <> cur /\ x + 4 + k <> cur).
  { intros x k Hx Hk Hne. unfold cur. destruct (Z.lt_trichotomy x node) as [Hlt|[?|Hlt]]; [|done|].
    - pose proof (tiles_disjoint _ _ _ _ x k node Ht Hx Hnb Hk Hlt). unfold SIZE_T in *. lia.
    - pose proof (tiles_disjoint _ _ _ _ node n x Ht Hnb Hx Hsz Hlt).
      pose proof (tiles_block _ _ _ _ x k Ht Hx Hk). unfold SIZE_T in *. lia. }
  assert (Hold : forall x, x ∈ unlink node (freeSlots p) ->
    x ∈ freeSlots p /\ <[node := A]> (<[cur := n - A - 4]> (size_of p)) !! x = size_of p !! x
    /\ forall k, size_of p !! x = Some k -> x + 4 + k <> cur).
  { intros x [Hxn Hx]%unlink_elem. assert (Hxb : x ∈ l1 ++ node :: l2) by (rewrite Hp; set_solver).
    destruct (tiles_elem _ _ _ _ _ Ht Hxb) as (j & _ & _ & _ & Hj & _).
    destruct (Hcur x j Hxb Hj Hxn) as [Hxc _].
    split; [done|]. split; [by rewrite !lookup_insert_ne|]. intros k Hk.
    by destruct (Hcur x k Hxb Hk Hxn). }
  split; try done; simpl.
  - exists (l1 ++ node :: cur :: l2). split.
    + by apply (tiles_split _ _ _ _ _ _ n).
    + rewrite Hf. rewrite Hu in Hp. rewrite <- !Permutation_middle in *. 
      apply Permutation_cons_inv in Hp. rewrite Hp. solve_Permutation.
  - intros x y Hx Hy (k & Hk & Hb). rewrite Hf in Hx, Hy.
    apply elem_of_cons in Hx as [->|Hx]; apply elem_of_cons in Hy as [->|Hy].
    + rewrite lookup_insert_ne, lookup_insert_eq in Hk by (unfold cur; lia).
      simplify_eq. unfold SIZE_T in *. lia.
    + apply unlink_elem in Hy as [Hyn Hy].
      rewrite lookup_insert_ne, lookup_insert_eq in Hk by (unfold cur; lia). simplify_eq.
      apply (Hc node _ Hn Hy). exists n. split; [done|]. unfold cur, SIZE_T in *. lia.
    + destruct (Hold x Hx) as (_ & E & Hne). rewrite E in Hk. by apply (Hne k).
    + destruct (Hold x Hx) as (Hx' & E & _). destruct (Hold y Hy) as (Hy' & _).
      rewrite E in Hk. apply (Hc x y Hx' Hy'). by exists k.
Qed.

Lemma find_fit_pool p live size :
  pool_state p live ->
  exists r, find_fit (size_of p) (freeSlots p) size = Some r /\
    match r with
    | Some node => node ∈ freeSlots p /\ exists n, size_of p !! node = Some n /\ size <= n
    | None => forall y k, y ∈ freeSlots p -> size_of p !! y = Some k -> k < size
    end.
Proof.
  intros Hst. destruct (find_fit_ok (size_of p) (freeSlots p) size) as (r & E & Hr).
  - intros x Hx. destruct (pool_chunk p live x Hst) as (n & ? & _); [set_solver|eauto].
  - exists r. split; [done|]. destruct r as [node|]; [|done].
    destruct Hr as (pre & post & n & -> & Hn & Hle & _). split; [set_solver|eauto].
Qed.

Lemma pool_malloc_ok p live size :
  pool_state p live -> 0 < size -> reserved p < size ->
  pool_malloc p size = Some (0, p) /\
    (forall y k, y ∈ freeSlots p -> size_of p !! y = Some k -> k < size)
  \/ exists node n p', pool_malloc p size = Some (node + SIZE_T, p')
       /\ pool_state p' (node :: live) /\ size_of p' !! node = Some n /\ size <= n
       /\ (forall x, x ∈ live -> size_of p' !! x = size_of p !! x).
Proof.
  intros Hst Hsz Hres. unfold pool_malloc. rewrite (pool_valid p live Hst).
  rewrite (proj2 (Z.leb_gt size 0)) by lia.
  destruct (find_fit_pool p live size Hst) as (r & -> & Hr). cbn [mbind option_bind].
  destruct r as [node|]; [|left; rewrite (proj2 (Z.leb_gt _ _)) by lia; done].
  right. destruct Hr as (Hn & n & Hk & Hle). rewrite Hk. cbn [mbind option_bind].
  destruct (pool_chunk p live node Hst) as (n' & Hn' & ? & ? & ?); [set_solver|].
  assert (n' = n) as -> by congruence. unfold chunk_end in *.
  pose proof (ps_high _ _ Hst) as Hhi. pose proof (ps_low _ _ Hst) as Hlo. pose proof (ps_size _ _ Hst) as Hcs.
  destruct (ALIGN_8BYTES_spec size) as [Hal1 Hal2]; [unfold SIZE_T in *; eval_pow2; lia|].
  unfold POOLSIZE_TO_EFFTSIZE, FREE_POOL_T, SIZE_T in *.
  assert (8 <= ALIGN_8BYTES size) by div_lia.
  rewrite (wrapu_id 32 (ALIGN_8BYTES size + 12)) by width_lia.
  destruct (Z.ltb_spec (ALIGN_8BYTES size + 12) n) as [Hlt|Hge].
  2:{ exists node, n, (set_free p (unlink node (freeSlots p)) (size_of p)).
      split_and!; try done. by apply take_whole. }
  unwrap. set (cur := node + 4 + ALIGN_8BYTES size).
  set (sz' := <[node := ALIGN_8BYTES size]> _).
  assert (Hnd := pool_nodup _ _ Hst). apply NoDup_app in Hnd as (_ & Hdis & Hnd).
  pose proof (fun f => take_split p live node n (ALIGN_8BYTES size) f Hst Hn Hk) as Hsplit.
  unfold FREE_POOL_T, SIZE_T in Hsplit. cbv zeta in Hsplit. fold cur in Hsplit.
  replace (n - ALIGN_8BYTES size - 4) with (n - ALIGN_8BYTES size - 4) in Hsplit by lia.
  fold sz' in Hsplit.
  destruct (insert_free_ok sz' (unlink node (freeSlots p)) cur) as (f & Ef & Hf).
  { specialize (Hsplit (cur :: unlink node (freeSlots p)) ltac:(lia) ltac:(lia) ltac:(done)).
    intros x Hx. destruct (pool_chunk _ _ x Hsplit) as (m & Hm & _); [simpl; set_solver|eauto]. }
  rewrite Ef. cbn [mbind option_bind]. eexists node, _, _. split; [done|].
  split; [apply Hsplit; [lia|lia|done]|]. simpl. unfold sz'. rewrite lookup_insert_eq.
  split_and!; [done|lia|]. intros x Hx.
  assert (x <> node) by (intros ->; by apply (Hdis node)).
  rewrite lookup_insert_ne by done. apply lookup_insert_ne. intros <-.
  assert (Hnl : NoDup (node :: live ++ f)) by apply (pool_nodup _ _ (Hsplit f ltac:(lia) ltac:(lia) Hf)).
  apply NoDup_cons in Hnl as [_ Hnl]. apply NoDup_app in Hnl as (_ & Hnl & _).
  apply (Hnl cur Hx). rewrite Hf. set_solver.
Qed.

Lemma pool_state_perm p l1 l2 : Permutation l1 l2 -> pool_state p l1 -> pool_state p l2.
Proof.
  intros Hp [? ? ? (bs & Ht & Hb) Hc]. split; try done. exists bs. by rewrite <- Hp.
Qed.

Lemma pool_free_ok p live x :
  pool_state p (x :: live) ->
  exists p', pool_free p (x + SIZE_T) = Some p' /\ pool_state p' live
    /\ (forall y, y ∈ live -> size_of p' !! y = size_of p !! y).
Proof.
  intros Hst. destruct (pool_chunk p (x :: live) x Hst) as (n & Hn & ? & ? & ?); [set_solver|].
  unfold pool_free. rewrite (pool_valid p _ Hst).
  pose proof Hst as [? Hhi ? (bs & Ht & Hp) Hc]. unfold chunk_end, SIZE_T in *.
  rewrite (proj2 (Z.eqb_neq _ 0)) by lia. unwrap.
  rewrite (proj2 (Z.leb_gt _ _)), (proj2 (Z.ltb_ge _ _)) by lia. simpl orb. cbv iota.
  replace (x + 4 - 4) with x by lia. rewrite Hn. cbn [mbind option_bind].
  rewrite (proj2 (Z.ltb_ge _ _)) by lia.
  destruct (defrag_ok (length (freeSlots p)) (size_of p) (chunkMem p) (chunk_end p) x live (freeSlots p))
    as (sz & cur & free & E & (bs' & Ht' & Hp') & Hc' & Hl); try done.
  { by exists bs. }
  rewrite E. cbn [mbind option_bind].
  destruct (insert_free_ok sz free cur) as (f & Ef & Hf).
  { intros y Hy. destruct (tiles_elem _ _ _ _ y Ht') as (k & _ & _ & _ & Hk & _); [rewrite Hp'; set_solver|eauto]. }
  rewrite Ef. cbn [mbind option_bind]. eexists. split; [done|]. split; [|done].
  split; try done; simpl.
  - exists bs'. split; [done|]. rewrite Hp', Hf. solve_Permutation.
  - intros y z Hy Hz. rewrite Hf in Hy, Hz. by apply Hc'.
Qed.

(** ** Clients *)

Inductive pool_op := PMalloc (size : Z) | PFree (i : nat).

(** The client remembers the addresses it was given. *)
Definition pool_exec (st : pool_alloc_t * list Z) (o : pool_op) : option (pool_alloc_t * list Z) :=
  let '(p, used) := st in
  match o with
  | PMalloc size =>
      '(m, p') ← pool_malloc p size;
      Some (p', if m =? 0 then used else m :: used)
  | PFree i =>
      match used !! i with
      | None => Some st
      | Some m => p' ← pool_free p m; Some (p', delete i used)
      end
  end.

Fixpoint pool_run (st : pool_alloc_t * list Z) (os : list pool_op)
    : option (pool_alloc_t * list Z) :=
  match os with
  | [] => Some st
  | o :: os => st' ← pool_exec st o; pool_run st' os
  end.

Definition blocks (used : list Z) : list Z := map (fun m => m - SIZE_T) used.

(** A request that is not served by the list head itself. *)
Definition request_ok (r : Z) (o : pool_op) : Prop :=
  match o with PMalloc size => size <= 0 \/ r < size | PFree _ => True end.

Lemma pool_exec_ok p used o :
  pool_state p (blocks used) -> request_ok (reserved p) o ->
  exists p' used', pool_exec (p, used) o = Some (p', used') /\ pool_state p' (blocks used').
Proof.
  intros Hst Ho. destruct o as [size|i]; simpl in Ho |- *.
  - destruct (decide (0 < size)) as [Hs|Hs].
    + destruct (pool_malloc_ok p _ size Hst Hs ltac:(lia)) as [[E _]|(node & n & p' & E & Hst' & _)];
        rewrite E; cbn [mbind option_bind]; [by eauto|].
      destruct (pool_chunk p' _ node Hst') as (k & _ & ? & _); [set_solver|].
      pose proof (ps_low _ _ Hst'). rewrite (proj2 (Z.eqb_neq _ 0)) by (unfold SIZE_T; lia).
      eexists _, _. split; [done|]. simpl.
      by replace (node + SIZE_T - SIZE_T) with node by lia.
    + unfold pool_malloc. rewrite (pool_valid p _ Hst), (proj2 (Z.leb_le size 0)) by lia.
      simpl. eauto.
  - destruct (used !! i) as [m|] eqn:Hu; [|eauto].
    destruct (pool_free_ok p (blocks (delete i used)) (m - SIZE_T)) as (p' & E & Hst' & _).
    { eapply pool_state_perm; [|exact Hst]. unfold blocks.
      by rewrite (delete_Permutation _ _ _ Hu) at 1. }
    replace (m - SIZE_T + SIZE_T) with m in E by lia. rewrite E. simpl. eauto.
Qed.

Definition same_chunk (p p' : pool_alloc_t) : Prop :=
  chunkMem p' = chunkMem p /\ chunkSize p' = chunkSize p /\ reserved p' = reserved p.

Lemma pool_exec_chunk st o st' : pool_exec st o = Some st' -> same_chunk st.1 st'.1.
Proof.
  destruct st as [p used]. unfold pool_exec, pool_malloc, pool_free. intros E.
  repeat (case_match || (apply bind_Some in E as (? & ? & E)); simplify_eq); simpl; try done.
  all: repeat match goal with
    | H : (if ?b then _ else _) = _ |- _ => destruct b
    | H : _ ≫= _ = Some _ |- _ => apply bind_Some in H as (? & ? & H)
    | H : match ?o with Some _ => _ | None => _ end = _ |- _ => destruct o
    | H : (let '(_, _) := ?o in _) = _ |- _ => destruct o
    end; simplify_eq; done.
Qed.

Lemma pool_run_chunk os st st' : pool_run st os = Some st' -> same_chunk st.1 st'.1.
Proof.
  revert st. induction os as [|o os IH]; intros st; cbn [pool_run]; [by intros [= ->]|].
  intros (st1 & E1 & E2)%bind_Some. destruct (pool_exec_chunk _ _ _ E1) as (?&?&?). destruct (IH _ E2) as (?&?&?).
  split_and!; congruence.
Qed.

Lemma pool_run_ok os p used :
  pool_state p (blocks used) -> Forall (request_ok (reserved p)) os ->
  exists p' used', pool_run (p, used) os = Some (p', used') /\ pool_state p' (blocks used').
Proof.
  revert p used. induction os as [|o os IH]; intros p used Hst Hos; cbn [pool_run]; [by eauto|].
  apply Forall_cons in Hos as [Ho Hos].
  destruct (pool_exec_ok p used o Hst Ho) as (p1 & u1 & E & Hst1). rewrite E.
  destruct (pool_exec_chunk _ _ _ E) as (_ & _ & Er). simpl in Er.
  apply IH; [done|by rewrite Er].
Qed.

Lemma init_pool_chunk p r p' : init_pool_allocator p = (r, p') -> same_chunk p p'.
Proof. unfold init_pool_allocator. intros E. repeat case_if; by simplify_eq. Qed.

(** When no block is live the combined free list is the whole chunk. *)
Lemma all_free_single p :
  pool_state p [] ->
  freeSlots p = [chunkMem p] /\ block_end (size_of p) (chunkMem p) (chunk_end p).
Proof.
  intros [? ? Hs (bs & Ht & Hp) Hc]. simpl in Hp. destruct bs as [|x bs]; [simpl in Ht; lia|].
  simpl in Ht. destruct Ht as (-> & n & Hn & Hn8 & Ht). destruct bs as [|y bs].
  - apply Permutation_singleton_l in Hp. split; [done|]. exists n. split; [done|]. exact Ht.
  - exfalso. apply (Hc (chunkMem p) y).
    + rewrite <- Hp. set_solver.
    + rewrite <- Hp. set_solver.
    + simpl in Ht. destruct Ht as (-> & _). by exists n.
Qed.

(** An initial state the allocator accepts. *)
Definition pool_ready (p : pool_alloc_t) : Prop :=
  0 < chunkMem p /\ chunkMem p mod 8 = 0 /\ 12 <= chunkSize p < 2 ^ 31 - 16
  /\ chunkMem p + chunkSize p < 2 ^ 32.

Lemma pool_ready_run p os :
  pool_ready p -> Forall (request_ok (reserved p)) os ->
  exists p0 p' used, init_pool_allocator p = (0, p0) /\ pool_run (p0, []) os = Some (p', used)
    /\ pool_state p' (blocks used) /\ same_chunk p p'.
Proof.
  intros (? & ? & ? & ?) Hos. destruct (init_pool_ok p) as (p0 & E0 & Hst & _); try done.
  destruct (init_pool_chunk _ _ _ E0) as (?&?&Er).
  destruct (pool_run_ok os p0 [] Hst) as (p' & used & E & Hst'); [by rewrite Er|].
  destruct (pool_run_chunk _ _ _ E) as (?&?&?). simpl in *.
  exists p0, p', used. split_and!; try done. split_and!; congruence.
Qed.

Lemma blocks_elem m used : m ∈ used -> m - SIZE_T ∈ blocks used.
Proof. intros Hm. apply list_elem_of_fmap. eauto. Qed.

(** C1: on an 8-aligned chunk of 12 bytes or more (and below 2^31 - 16, its
    end below 2^32) every sequence of allocations and releases of held blocks
    runs to the end (the combining loop terminates), provided that every size
    asked for is greater than the word [reserved] of the allocator, which
    [init_pool_allocator] does not set and which is read as the size of the
    list head (with [reserved] 0 this is every allocation).  At the end each
    block a client holds lies inside the chunk behind its size word, two held
    blocks do not overlap, and an allocation of more than [reserved] bytes
    returns a new block at least as large as asked or fails, leaving the
    allocator as it was, because no free block is large enough. *)
Theorem pool_clients_safe p os :
  pool_ready p -> Forall (request_ok (reserved p)) os ->
  exists p0 p' used, init_pool_allocator p = (0, p0) /\ pool_run (p0, []) os = Some (p', used)
    /\ (forall m, m ∈ used -> exists n, size_of p' !! (m - SIZE_T) = Some n
          /\ chunkMem p + SIZE_T <= m /\ 0 < n /\ m + n <= chunkMem p + chunkSize p)
    /\ (forall m1 m2 n, m1 ∈ used -> m2 ∈ used -> m1 < m2 ->
          size_of p' !! (m1 - SIZE_T) = Some n -> m1 + n + SIZE_T <= m2)
    /\ (forall size, 0 < size -> reserved p < size ->
          pool_malloc p' size = Some (0, p') /\
            (forall y k, y ∈ freeSlots p' -> size_of p' !! y = Some k -> k < size)
          \/ exists m n p'', pool_malloc p' size = Some (m, p'') /\ m ∉ used
               /\ size_of p'' !! (m - SIZE_T) = Some n /\ size <= n).
Proof.
  intros Hr Hos. destruct (pool_ready_run p os Hr Hos) as (p0 & p' & used & E0 & E & Hst & Hm & Hs & Hres).
  exists p0, p', used. split_and!; try done.
  - intros m Hu. destruct (pool_chunk p' _ (m - SIZE_T) Hst) as (n & ? & ? & ? & ?).
    { apply elem_of_app. left. by apply blocks_elem. }
    exists n. unfold chunk_end, SIZE_T in *. split_and!; [done|lia|lia|lia].
  - intros m1 m2 n H1 H2 Hlt Hn. pose proof (ps_tiles _ _ Hst) as (bs & Ht & Hp).
    pose proof (tiles_disjoint _ _ _ _ (m1 - SIZE_T) n (m2 - SIZE_T) Ht) as Hd.
    rewrite !Hp, !elem_of_app in Hd. specialize (Hd ltac:(left; by apply blocks_elem)
      ltac:(left; by apply blocks_elem) Hn). unfold SIZE_T in *. lia.
  - intros size Hsz Hlt. destruct (pool_malloc_ok p' _ size Hst Hsz ltac:(lia)) as [?|(node & n & p'' & Em & Hst' & Hn & Hle & _)];
      [by left|right]. exists (node + SIZE_T), n, p''.
    replace (node + SIZE_T - SIZE_T) with node by lia. split_and!; try done.
    intros Hin. apply blocks_elem in Hin. replace (node + SIZE_T - SIZE_T) with node in Hin by lia.
    apply pool_nodup in Hst'. simpl in Hst'. apply NoDup_cons in Hst' as [Hx _]. set_solver.
Qed.

Definition pool1k : pool_alloc_t := mkPool 7 4096 1024 [] ∅.

Lemma pool_clients_safe_witness :
  exists p0 p', init_pool_allocator pool1k = (0, p0)
    /\ pool_run (p0, []) [PMalloc 10; PMalloc 200; PMalloc 8; PFree 1; PMalloc 100; PMalloc 4000]
       = Some (p', [4336; 4324; 4100]).
Proof.
  destruct (pool_clients_safe pool1k
    [PMalloc 10; PMalloc 200; PMalloc 8; PFree 1; PMalloc 100; PMalloc 4000])
    as (p0 & p' & used & E0 & E & _).
  - repeat split; done.
  - repeat constructor; right; reflexivity.
  - exists p0, p'. split; [done|]. rewrite E. f_equal. f_equal.
    vm_compute in E0. injection E0 as <-. vm_compute in E. by injection E.
Defined.

(** nothing is lost to fragmentation: in any run at whose end the client
    holds no block, the free list is again the single block that covers the
    chunk, as [init_pool_allocator] made it. *)
Theorem pool_all_free p os :
  pool_ready p -> Forall (request_ok (reserved p)) os ->
  forall p0 p', init_pool_allocator p = (0, p0) -> pool_run (p0, []) os = Some (p', []) ->
  freeSlots p' = freeSlots p0
  /\ size_of p' !! chunkMem p = Some (chunkSize p - SIZE_T).
Proof.
  intros Hr Hos p0 p' E0 E.
  destruct (pool_ready_run p os Hr Hos) as (q0 & q' & u & F0 & F & Hst & Hm & Hs & _).
  rewrite E0 in F0. injection F0 as <-. rewrite E in F. injection F as <- <-.
  apply all_free_single in Hst as (Hf & n & Hn & He).
  destruct (pool_ready_run p [] Hr (Forall_nil_2 _)) as (q1 & q2 & u' & F1 & F2 & Hst1 & Hm1 & Hs1 & _).
  rewrite E0 in F1. injection F1 as <-. simpl in F2. injection F2 as <- <-. apply all_free_single in Hst1 as (Hf1 & _).
  unfold chunk_end in *. rewrite Hm, Hs in *. rewrite Hf, Hf1, Hm1. split; [done|].
  rewrite Hn. f_equal. lia.
Qed.

Lemma pool_all_free_witness :
  exists p0 p', init_pool_allocator pool1k = (0, p0)
    /\ pool_run (p0, []) [PMalloc 10; PMalloc 200; PMalloc 8; PFree 1; PFree 0; PFree 0] = Some (p', [])
    /\ size_of p' !! 4096 = Some 1020.
Proof.
  eexists _, _. split; [reflexivity|]. split; [vm_compute; reflexivity|].
  refine (proj2 (pool_all_free pool1k
    [PMalloc 10; PMalloc 200; PMalloc 8; PFree 1; PFree 0; PFree 0] _ _ _ _ eq_refl _)).
  - repeat split; done.
  - repeat constructor; right; reflexivity.
  - vm_compute. reflexivity.
Defined.

(** The FIXME in [init_pool_allocator]: on a chunk that is not 8-aligned the
    block reaches past the end of the chunk by the alignment gap. *)
Lemma init_pool_misaligned p p' :
  0 < chunkMem p -> 12 <= chunkSize p -> chunkMem p + chunkSize p < 2 ^ 31 - 8 ->
  init_pool_allocator p = (0, p') ->
  exists start, freeSlots p' = [start]
    /\ block_end (size_of p') start (chunkMem p + chunkSize p + (- chunkMem p) mod 8).
Proof.
  intros H1 H2 H3. unfold init_pool_allocator.
  destruct (ALIGN_8BYTES_spec (chunkMem p)) as [A1 A2]; [width_lia|].
  case_if; [done|]. rewrite (wrapu_id 32 (ALIGN_8BYTES _)) by width_lia.
  case_if; [done|]. intros [= <-]. simpl. eexists. split; [done|].
  eexists. rewrite lookup_insert_eq. split; [done|].
  unfold POOLSIZE_TO_EFFTSIZE, SIZE_T. unwrap. div_lia.
Qed.

(** [reserved], which [init_pool_allocator] leaves as it finds it, is compared
    with the size when no block fits: a request it covers takes the list head
    itself off the list. *)
Lemma pool_reserved_corrupts p live size :
  pool_state p live -> 0 < size <= reserved p ->
  (forall y k, y ∈ freeSlots p -> size_of p !! y = Some k -> k < size) ->
  pool_malloc p size = None.
Proof.
  intros Hst Hsz Hno. unfold pool_malloc.
  rewrite (pool_valid p live Hst), (proj2 (Z.leb_gt size 0)) by lia.
  destruct (find_fit_pool p live size Hst) as (r & -> & Hr). cbn [mbind option_bind].
  destruct r as [node|]; [|by rewrite (proj2 (Z.leb_le _ _)) by lia].
  destruct Hr as (Hn & n & Hk & Hle). specialize (Hno _ _ Hn Hk). lia.
Qed.
