(* ===== verification/ShmAlloc.v ===== *)
(** * libckits/shmAlloc.c: the shared-memory allocator

    The allocator lives at the start of the memory it manages, which several
    processes map at different addresses, so it links its free blocks by
    offset.  Blocks are named by their offset from [base]; [size_of] holds their
    size words, whose two low bits count extra references; [freeParts] is the
    list of free blocks; [candiate] is the block allocations are cut from, 0
    when there is none.  [sizeof(shm_alloc_t)] is 20, [sizeof(free_shm_pool_t)]
    is 12 and [sizeof(shm_list_t)] is 8. *)

From S2P Require Import Prelude.
From S2P Require Import Tiling.

Definition CONST_MAGIC_FLAG : Z := 2857740885.   (* 0xAA55AA55 *)
Definition SHM_ALLOC_T : Z := 20.
Definition FREE_SHM_POOL_T : Z := 12.
Definition SHM_LIST_T : Z := 8.

Definition ALIGN_4BYTES (x : Z) : Z := Z.land (s32 (x + 3)) (-4).
Definition POOLSIZE_TO_EFFTSIZE (x : Z) : Z := u32 (x - SIZE_T).
Definition EFFTSIZE_TO_POOLSIZE (x : Z) : Z := u32 (x + SIZE_T).

(** [OFFSET_POINTER] and [OFFSET_NODE]: from a pointer to an offset and back. *)
Definition OFFSET_POINTER (x base : Z) : Z := u32 (x - base).
Definition OFFSET_NODE (base off : Z) : Z := u32 (base + off).

Record shm_alloc_t := mkShm {
  base : Z;
  freeParts : list Z;
  candiate : Z;
  magicFlag : Z;
  chunkSize : Z;
  size_of : gmap Z Z
}.

Definition set_cand (s : shm_alloc_t) (c : Z) : shm_alloc_t :=
  mkShm (base s) (freeParts s) c (magicFlag s) (chunkSize s) (size_of s).
Definition set_parts (s : shm_alloc_t) (free : list Z) (sz : gmap Z Z) : shm_alloc_t :=
  mkShm (base s) free (candiate s) (magicFlag s) (chunkSize s) sz.

(** [m] is what the memory at the aligned [memStart] holds already: a process
    that finds the magic number there attaches to the running allocator. *)
Definition init_shm_allocator (m : shm_alloc_t) (memStart chunk : Z) : Z * shm_alloc_t :=
  if (memStart =? 0) || (chunk <=? u32 (EFFTSIZE_TO_POOLSIZE 0 + SHM_ALLOC_T)) then (0, m)
  else
    let chunkEnd := u32 (memStart + chunk) in
    let memStart := u32 (ALIGN_4BYTES memStart) in
    let node := u32 (memStart + SHM_ALLOC_T) in
    if chunkEnd <=? node then (0, m)
    else if magicFlag m =? CONST_MAGIC_FLAG then (memStart, m)
    else
      let off := OFFSET_POINTER node memStart in
      (memStart,
       mkShm memStart [] off CONST_MAGIC_FLAG (u32 (chunkEnd - node))
         (<[off := POOLSIZE_TO_EFFTSIZE (u32 (chunkEnd - node))]> (size_of m))).

(** The test every entry point starts with. *)
Definition shm_invalid (s : shm_alloc_t) : bool :=
  (base s =? 0) || (chunkSize s <=? 0) || negb (magicFlag s =? CONST_MAGIC_FLAG).

Definition uninit_shm_allocator (s : shm_alloc_t) : Z * shm_alloc_t :=
  if shm_invalid s then (-1, s)
  else (0, mkShm (base s) (freeParts s) (candiate s) (u32 (- CONST_MAGIC_FLAG - 1))
             (chunkSize s) (size_of s)).

(** [shm_list_add_tail] of [cur] before [node] ([None]: the list head).  The
    node occupies the first [SHM_LIST_T] bytes of the block: in a smaller one it
    overwrites the next block's size word, and the model stops. *)
Fixpoint link_before (cur node : Z) (free : list Z) : list Z :=
  match free with
  | [] => []
  | x :: free => if decide (x = node) then cur :: x :: free else x :: link_before cur node free
  end.

Definition shm_list_add_tail (sz : gmap Z Z) (cur : Z) (node : option Z) (free : list Z)
    : option (list Z) :=
  c ← sz !! cur;
  if c <? SHM_LIST_T then None
  else Some (match node with Some node => link_before cur node free | None => free ++ [cur] end).

(** The loop of [shm_recycle] over the free blocks, in address order: it stops
    at the first one above [cur]; one that ends at [cur] takes it over. *)
Fixpoint recycle_scan (sz : gmap Z Z) (cur : Z) (inn : bool) (free : list Z)
    : option (gmap Z Z * Z * bool * option Z) :=
  match free with
  | [] => Some (sz, cur, inn, None)
  | node :: free =>
      if cur <? node then Some (sz, cur, inn, Some node)
      else
        n ← sz !! node;
        let chunkEnd := u32 (node + EFFTSIZE_TO_POOLSIZE n) in
        if chunkEnd =? cur then
          c ← sz !! cur;
          recycle_scan (<[node := u32 (n + EFFTSIZE_TO_POOLSIZE c)]> sz) node true free
        else recycle_scan sz cur inn free
  end.

Definition shm_recycle (s : shm_alloc_t) (cur : Z) : option shm_alloc_t :=
  '(sz, cur, inn, node) ← recycle_scan (size_of s) cur false (freeParts s);
  free ← match inn with
         | true => Some (freeParts s)
         | false => shm_list_add_tail sz cur node (freeParts s)
         end;
  match node with
  | None => Some (set_parts s free sz)
  | Some node =>
      c ← sz !! cur;
      if u32 (cur + EFFTSIZE_TO_POOLSIZE c) =? node then
        n ← sz !! node;
        Some (set_parts s (unlink node free) (<[cur := u32 (c + EFFTSIZE_TO_POOLSIZE n)]> sz))
      else Some (set_parts s free sz)
  end.

(** The first of the largest free blocks. *)
Fixpoint find_max (sz : gmap Z Z) (cur : option Z) (maxSize : Z) (free : list Z)
    : option (option Z * Z) :=
  match free with
  | [] => Some (cur, maxSize)
  | node :: free =>
      n ← sz !! node;
      if maxSize <? n then find_max sz (Some node) n free else find_max sz cur maxSize free
  end.

Definition shm_harvest (s : shm_alloc_t) : option shm_alloc_t :=
  '(cur, maxSize) ← find_max (size_of s) None 0 (freeParts s);
  match cur with
  | Some c =>
      if maxSize =? 0 then Some (set_cand s 0)
      else Some (set_cand (set_parts s (unlink c (freeParts s)) (size_of s)) c)
  | None => Some (set_cand s 0)
  end.

(** The [do ... while (!mem)] loop; the second round runs with [health = 0]. *)
Fixpoint malloc_loop (fuel : nat) (s : shm_alloc_t) (health : bool) (size : Z)
    : option (Z * shm_alloc_t) :=
  match fuel with
  | O => None
  | S fuel =>
      if candiate s =? 0 then Some (0, s)
      else
        let node := candiate s in
        n ← size_of s !! node;
        if size <=? n then
          let mem := OFFSET_NODE (base s) (node + SIZE_T) in
          if u32 (ALIGN_4BYTES size + FREE_SHM_POOL_T) <? n then
            let cur := u32 (node + SIZE_T + ALIGN_4BYTES size) in
            let sz := <[cur := POOLSIZE_TO_EFFTSIZE (u32 (n - ALIGN_4BYTES size))]> (size_of s) in
            let sz := <[node := u32 (ALIGN_4BYTES size)]> sz in
            Some (mem, set_cand (set_parts s (freeParts s) sz) cur)
          else Some (mem, set_cand s 0)
        else
          match health with
          | true =>
              s1 ← shm_recycle (set_cand s 0) node;
              s2 ← shm_harvest s1;
              malloc_loop fuel s2 false size
          | false => Some (0, s)
          end
  end.

Definition shm_malloc (s : shm_alloc_t) (size : Z) : option (Z * shm_alloc_t) :=
  if shm_invalid s || (size <=? 0) then Some (0, s)
  else if candiate s =? 0 then
    s1 ← shm_harvest s; malloc_loop 2 s1 false size
  else malloc_loop 2 s true size.

(** [mem >= chunkEnd || mem < info] *)
Definition shm_outside (s : shm_alloc_t) (mem : Z) : bool :=
  (u32 (base s + SHM_ALLOC_T + chunkSize s) <=? mem) || (mem <? base s).

(** [cur->size & ~3] *)
Definition eff (w : Z) : Z := Z.land w (-4).

Definition block_of (s : shm_alloc_t) (mem : Z) : Z := OFFSET_POINTER (mem - SIZE_T) (base s).

Definition shm_add_reference (s : shm_alloc_t) (mem : Z) : option (Z * shm_alloc_t) :=
  if shm_invalid s || (mem =? 0) then Some (-1, s)
  else if shm_outside s mem then Some (-1, s)
  else
    let cur := block_of s mem in
    w ← size_of s !! cur;
    if chunkSize s <? eff w then Some (-1, s)
    else if u32 (eff w + 3) <=? w then Some (-1, s)
    else Some (0, set_parts s (freeParts s) (<[cur := u32 (w + 1)]> (size_of s))).

Definition shm_free (s : shm_alloc_t) (mem : Z) : option shm_alloc_t :=
  if shm_invalid s || (mem =? 0) then Some s
  else if shm_outside s mem then Some s
  else
    let cur := block_of s mem in
    w ← size_of s !! cur;
    if chunkSize s <? eff w then Some s
    else if negb (Z.land w 3 =? 0) then
      Some (set_parts s (freeParts s) (<[cur := u32 (w - 1)]> (size_of s)))
    else shm_recycle s cur.

Definition shm_offset (s : shm_alloc_t) (mem : Z) : Z :=
  if shm_invalid s || (mem =? 0) then 4294967295 else OFFSET_POINTER mem (base s).

Definition shm_pointer (s : shm_alloc_t) (offset : Z) : Z :=
  if shm_invalid s || (u32 (SHM_ALLOC_T + chunkSize s) <=? offset) then 0
  else OFFSET_NODE (base s) offset.

(** As [pool_strdup], except that the empty string gets no block. *)
Definition shm_strdup (s : shm_alloc_t) (str : cstr) : option (Z * bytes * shm_alloc_t) :=
  match str with
  | [] => Some (0, [], s)
  | _ =>
      '(mem, s') ← shm_malloc s (Z.of_nat (length str) + 1);
      Some (mem, if mem =? 0 then [] else str ++ [0], s')
  end.

(** [shm_alloc_dump]: the blocks it prints and the total it compares with
    [chunkSize]. *)
Fixpoint dump_total (sz : gmap Z Z) (free : list Z) (total : Z) : option Z :=
  match free with
  | [] => Some total
  | cur :: free => n ← sz !! cur; dump_total sz free (u32 (total + EFFTSIZE_TO_POOLSIZE n))
  end.

Definition shm_alloc_dump (s : shm_alloc_t) : option (option bool) :=
  if shm_invalid s then Some None
  else
    total ← if candiate s =? 0 then Some 0
            else n ← size_of s !! candiate s; Some (EFFTSIZE_TO_POOLSIZE n);
    total ← dump_total (size_of s) (freeParts s) total;
    Some (Some (total =? chunkSize s)).

(** ** The state invariant *)

Definition effs (sz : gmap Z Z) : gmap Z Z := eff <$> sz.

Definition cands (s : shm_alloc_t) : list Z := if candiate s =? 0 then [] else [candiate s].

(** [x] is a free block of size [n]: its size word counts no references. *)
Definition plain (sz : gmap Z Z) (x : Z) : Prop :=
  exists n, sz !! x = Some n /\ n mod 4 = 0.

Record shm_state (s : shm_alloc_t) (live : list Z) : Prop := {
  ss_base : 0 < base s /\ base s mod 4 = 0;
  ss_high : base s + SHM_ALLOC_T + chunkSize s < 2 ^ 32;
  ss_size : 0 < chunkSize s < 2 ^ 31 - 64;
  ss_magic : magicFlag s = CONST_MAGIC_FLAG;
  ss_tiles : exists bs, tiles (effs (size_of s)) SHM_ALLOC_T (SHM_ALLOC_T + chunkSize s) bs
               /\ Permutation bs (live ++ cands s ++ freeParts s);
  ss_combined : combined (effs (size_of s)) (freeParts s);
  ss_sorted : StronglySorted Z.lt (freeParts s);
  ss_plain : forall x, x ∈ cands s ++ freeParts s -> plain (size_of s) x;
  ss_words : forall x w, size_of s !! x = Some w -> 0 <= w < 2 ^ 32
}.

Lemma land_m4 x : Z.land x (-4) = x - x mod 4.
Proof.
  change (-4) with (Z.lnot (Z.ones 2)). rewrite <- Z.ldiff_land, Z.ldiff_ones_r by lia.
  rewrite Z.shiftl_mul_pow2, Z.shiftr_div_pow2 by lia. change (2 ^ 2) with 4.
  pose proof (Z.div_mod x 4). lia.
Qed.

Lemma eff_id n : n mod 4 = 0 -> eff n = n.
Proof. intros H. unfold eff. rewrite land_m4. lia. Qed.

Lemma plain_eff sz x n : plain sz x -> effs sz !! x = Some n <-> sz !! x = Some n.
Proof.
  intros (m & Hm & H4). unfold effs. rewrite lookup_fmap, Hm. simpl. by rewrite eff_id.
Qed.

Lemma plain_lookup sz x n : plain sz x -> sz !! x = Some n -> n mod 4 = 0.
Proof. intros (m & Hm & H4) Hn. congruence. Qed.

Lemma effs_insert sz x n : n mod 4 = 0 -> effs (<[x := n]> sz) = <[x := n]> (effs sz).
Proof. intros H. unfold effs. by rewrite fmap_insert, eff_id. Qed.

(** ** [shm_recycle] *)

(** The released block and the free ones, as the loop sees them. *)
Record scan_pre (sz : gmap Z Z) (cur : Z) (free : list Z) : Prop := {
  sp_size : forall x, x ∈ cur :: free -> exists n, sz !! x = Some n /\ n mod 4 = 0 /\ 8 <= n
              /\ 0 <= x /\ x + SIZE_T + n < 2 ^ 32;
  sp_disjoint : forall x y n, x ∈ cur :: free -> y ∈ cur :: free -> x < y ->
              sz !! x = Some n -> x + SIZE_T + n <= y;
  sp_fresh : cur ∉ free;
  sp_sorted : StronglySorted Z.lt free
}.

Inductive scan_post (sz : gmap Z Z) (cur : Z) (pre post : list Z)
    : list Z -> gmap Z Z -> Z -> bool -> Prop :=
| scan_apart :
    (forall x, x ∈ pre -> x < cur /\ ~ block_end sz x cur) -> (forall y, y ∈ post -> cur < y) ->
    scan_post sz cur pre post (pre ++ post) sz cur false
| scan_joined node n c :
    sz !! node = Some n -> sz !! cur = Some c -> node + SIZE_T + n = cur ->
    (forall x, x ∈ pre -> x < node) -> (forall y, y ∈ post -> cur < y) ->
    scan_post sz cur pre post (pre ++ node :: post) (<[node := n + (c + SIZE_T)]> sz) node true.

Lemma scan_pre_tail sz cur x free : scan_pre sz cur (x :: free) -> scan_pre sz cur free.
Proof.
  intros [H1 H2 H3 H4]. split.
  - intros y Hy. apply H1. set_solver.
  - intros y z n Hy Hz. apply H2; set_solver.
  - set_solver.
  - by inversion H4.
Qed.

Lemma recycle_scan_ok sz cur free :
  scan_pre sz cur free ->
  exists pre post sz' cur' inn,
    recycle_scan sz cur false free = Some (sz', cur', inn, head post)
    /\ scan_post sz cur pre post free sz' cur' inn.
Proof.
  induction free as [|x free IH]; intros Hpre; cbn [recycle_scan].
  { exists [], [], sz, cur, false. split; [done|]. apply (scan_apart sz cur [] []); set_solver. }
  pose proof Hpre as [Hs Hd Hf Hso]. inversion_clear Hso as [|? ? Hso' Hall].
  rewrite Forall_forall in Hall.
  destruct (Z.ltb_spec cur x) as [Hlt|Hge].
  { exists [], (x :: free), sz, cur, false. split; [done|].
    apply (scan_apart sz cur [] (x :: free)); [set_solver|].
    intros y [->|Hy]%elem_of_cons; [done|]. specialize (Hall y Hy). lia. }
  assert (Hlt : x < cur) by (assert (x <> cur) by set_solver; lia).
  destruct (Hs x) as (n & Hn & Hn4 & ? & ? & ?); [set_solver|].
  destruct (Hs cur) as (c & Hc & Hc4 & ? & ? & ?); [set_solver|].
  rewrite Hn, Hc. cbn [mbind option_bind].
  pose proof (Hd x cur n ltac:(set_solver) ltac:(set_solver) Hlt Hn) as Hle.
  unfold EFFTSIZE_TO_POOLSIZE, SIZE_T in *. unwrap.
  destruct (Z.eqb_spec (x + (n + 4)) cur) as [Heq|Hne].
  - exists [], free, (<[x := n + (c + 4)]> sz), x, true.
    assert (Hpost : forall y, y ∈ free -> cur < y).
    { intros y Hy. specialize (Hall y Hy).
      pose proof (Hd x y n ltac:(set_solver) ltac:(set_solver) Hall Hn).
      assert (y <> cur) by set_solver. lia. }
    split; [|by apply (scan_joined sz cur [] free x n c); [done|done|unfold SIZE_T; lia|set_solver|]].
    destruct free as [|y free]; [done|]. simpl.
    rewrite (proj2 (Z.ltb_lt x y)); [done|]. specialize (Hpost y ltac:(set_solver)). lia.
  - destruct IH as (pre & post & sz' & cur' & inn & E & Hp); [by eapply scan_pre_tail|].
    exists (x :: pre), post, sz', cur', inn. split; [exact E|]. destruct Hp as [Hp1 Hp2|node k d ? ? ? Hp1 Hp2].
    + apply (scan_apart sz cur (x :: pre) post); [|done].
      intros y [->|Hy]%elem_of_cons; [|by apply Hp1]. split; [done|].
      intros (k & Hk & He). simplify_eq. unfold SIZE_T in *. lia.
    + apply (scan_joined sz cur (x :: pre) post node k d); try done.
      intros y [->|Hy]%elem_of_cons; [|by apply Hp1]. apply Hall. set_solver.
Qed.

(** The state between linking [cur] and trying its right neighbour. *)
Record midway (sz0 : gmap Z Z) (e : Z) (live : list Z) (sz : gmap Z Z) (cur : Z)
    (pre post : list Z) : Prop := {
  mw_chunk : chunk_ok (effs sz) SHM_ALLOC_T e cur live (pre ++ post);
  mw_combined : combined (effs sz) (pre ++ post);
  mw_sorted : StronglySorted Z.lt (pre ++ cur :: post);
  mw_plain : forall x, x ∈ cur :: pre ++ post -> plain sz x;
  mw_left : forall x, x ∈ pre -> ~ block_end (effs sz) x cur;
  mw_live : forall x, x ∈ live -> sz !! x = sz0 !! x;
  mw_words : forall x w, sz !! x = Some w -> 0 <= w < 2 ^ 32
}.

Lemma sorted_mid (pre post : list Z) cur :
  StronglySorted Z.lt (pre ++ post) -> (forall x, x ∈ pre -> x < cur) -> (forall y, y ∈ post -> cur < y) ->
  StronglySorted Z.lt (pre ++ cur :: post).
Proof.
  induction pre as [|x pre IH]; simpl; intros Hs H1 H2.
  - constructor; [done|]. by apply Forall_forall.
  - inversion_clear Hs as [|? ? Hs' Ha]. constructor; [apply IH; set_solver|].
    rewrite Forall_app in Ha. destruct Ha as [Ha1 Ha2]. apply Forall_app. split; [done|].
    constructor; [apply H1; set_solver|done].
Qed.

Lemma sorted_mid_inv (pre post : list Z) cur :
  StronglySorted Z.lt (pre ++ cur :: post) ->
  StronglySorted Z.lt (pre ++ post) /\ (forall x, x ∈ pre -> x < cur) /\ (forall y, y ∈ post -> cur < y).
Proof.
  induction pre as [|x pre IH]; simpl; intros Hs; inversion_clear Hs as [|? ? Hs' Ha].
  - rewrite Forall_forall in Ha. set_solver.
  - destruct (IH Hs') as (I1 & I2 & I3). apply Forall_app in Ha as [Ha1 Ha2].
    inversion_clear Ha2. split_and!; [|set_solver|done].
    constructor; [done|]. by apply Forall_app.
Qed.

Lemma link_before_mid (pre post : list Z) cur y :
  y ∉ pre -> link_before cur y (pre ++ y :: post) = pre ++ cur :: y :: post.
Proof.
  induction pre as [|x pre IH]; simpl; intros Hy.
  - by rewrite decide_True.
  - rewrite decide_False by set_solver. f_equal. apply IH. set_solver.
Qed.

Lemma add_tail_mid sz cur pre post c :
  sz !! cur = Some c -> 8 <= c -> NoDup (pre ++ post) ->
  shm_list_add_tail sz cur (head post) (pre ++ post) = Some (pre ++ cur :: post).
Proof.
  intros Hc H8 Hnd. unfold shm_list_add_tail. rewrite Hc. cbn [mbind option_bind].
  unfold SHM_LIST_T. rewrite (proj2 (Z.ltb_ge c 8)) by done.
  destruct post as [|y post]; simpl; [by rewrite app_nil_r|].
  rewrite link_before_mid; [done|]. apply NoDup_app in Hnd as (_ & Hd & _). set_solver.
Qed.

Section recycle.
Variables (sz : gmap Z Z) (e : Z) (cur : Z) (live free : list Z).
Hypothesis He : e < 2 ^ 32.
Hypothesis Hck : chunk_ok (effs sz) SHM_ALLOC_T e cur live free.
Hypothesis Hcomb : combined (effs sz) free.
Hypothesis Hsort : StronglySorted Z.lt free.
Hypothesis Hplain : forall x, x ∈ cur :: free -> plain sz x.
Hypothesis Hwords : forall x w, sz !! x = Some w -> 0 <= w < 2 ^ 32.

Lemma recycle_sizes x :
  x ∈ cur :: free -> exists n, sz !! x = Some n /\ n mod 4 = 0 /\ SHM_ALLOC_T <= x /\ 8 <= n
    /\ x + SIZE_T + n <= e.
Proof.
  assert (0 < SHM_ALLOC_T) by (unfold SHM_ALLOC_T; lia).
  intros Hx. destruct (chunk_sizes (effs sz) SHM_ALLOC_T e cur live free x) as (n & Hn & ? & ? & ?); try done;
    [set_solver|].
  rewrite (plain_eff _ _ _ (Hplain x Hx)) in Hn. pose proof (plain_lookup _ _ _ (Hplain x Hx) Hn). eauto 10.
Qed.

Lemma recycle_scan_pre : scan_pre sz cur free.
Proof.
  pose proof (chunk_nodup _ _ _ _ _ _ Hck) as Hnd. split; [| | |done].
  - intros x Hx. destruct (recycle_sizes x Hx) as (n & ? & ? & ? & ? & ?).
    exists n. unfold SHM_ALLOC_T in *. split_and!; try done; lia.
  - intros x y n Hx Hy Hlt Hn. destruct Hck as (bs & Ht & Hp).
    apply (tiles_disjoint (effs sz) SHM_ALLOC_T e bs x n y); try done.
    + rewrite Hp. set_solver.
    + rewrite Hp. set_solver.
    + apply plain_eff; [by apply Hplain|done].
  - apply NoDup_cons in Hnd. set_solver.
Qed.

Lemma live_not x : x ∈ live -> x ∉ cur :: free.
Proof.
  pose proof (chunk_nodup _ _ _ _ _ _ Hck) as Hnd. apply NoDup_cons in Hnd as [H1 Hnd].
  apply NoDup_app in Hnd as (_ & H2 & _). set_solver.
Qed.

(** The loop and the insertion. *)
Lemma recycle_midway :
  exists sz1 cur1 inn pre post,
    recycle_scan sz cur false free = Some (sz1, cur1, inn, head post)
    /\ (if inn : bool then Some free else shm_list_add_tail sz1 cur1 (head post) free)
       = Some (pre ++ cur1 :: post)
    /\ midway sz e live sz1 cur1 pre post.
Proof.
  destruct (recycle_scan_ok sz cur free recycle_scan_pre) as (pre & post & sz1 & cur1 & inn & E & Hp).
  exists sz1, cur1, inn, pre, post. split; [exact E|].
  pose proof (chunk_nodup _ _ _ _ _ _ Hck) as Hnd.
  apply NoDup_cons in Hnd as [_ Hnd]. apply NoDup_app in Hnd as (_ & _ & Hnd).
  destruct (recycle_sizes cur) as (c & Hc & Hc4 & ? & ? & ?); [set_solver|].
  pose proof recycle_sizes as Hsz. pose proof live_not as Hlive.
  destruct Hp as [Hp1 Hp2|node n d Hn Hd Hend Hp1 Hp2].
  - split; [by eapply add_tail_mid|]. split; try done.
    + apply sorted_mid; [done| |done]. intros x Hx. by apply Hp1.
    + intros x Hx (k & Hk & He'). apply (Hp1 x Hx). exists k. split; [|done].
      apply plain_eff; [apply Hplain; set_solver|done].
  - split; [done|]. assert (d = c) as -> by congruence.
    destruct (Hsz node) as (n' & Hn' & Hn4 & ? & ? & ?); [set_solver|].
    assert (n' = n) as -> by congruence.
    assert (Hsum : (n + (c + SIZE_T)) mod 4 = 0) by (unfold SIZE_T in *; div_lia).
    assert (Hnn : forall x, x ∈ pre ++ post -> x <> node).
    { apply NoDup_app in Hnd as (_ & Hd1 & Hd2). apply NoDup_cons in Hd2 as [Hd2 _]. set_solver. }
    apply sorted_mid_inv in Hsort as Hsm. destruct Hsm as (Hs1 & Hs2 & Hs3).
    split.
    + rewrite effs_insert by done.
      eapply (chunk_merge _ _ _ _ (pre ++ node :: post) cur node); try done;
        [by rewrite <- Permutation_middle|by right| |];
        (apply plain_eff; [apply Hplain; set_solver|done]).
    + rewrite effs_insert by done. eapply combined_sub; [done|]. intros x Hx.
      split; [set_solver|]. apply lookup_insert_ne. intros ->. by apply (Hnn x Hx).
    + apply sorted_mid; done.
    + intros x [->|Hx]%elem_of_cons.
      * exists (n + (c + SIZE_T)). by rewrite lookup_insert_eq.
      * destruct (Hplain x) as (k & Hk & Hk4); [set_solver|]. exists k.
        rewrite lookup_insert_ne; [done|]. intros ->. by apply (Hnn x Hx).
    + intros x Hx (k & Hk & Hb). rewrite effs_insert in Hk by done.
      rewrite lookup_insert_ne in Hk by (intros ->; apply (Hnn x); set_solver).
      apply (Hcomb x node); [set_solver|set_solver|]. by exists k.
    + intros x Hx. apply lookup_insert_ne. intros ->. apply (Hlive x Hx). set_solver.
    + intros x w. destruct (decide (x = node)) as [->|]; [|rewrite lookup_insert_ne by done; apply Hwords].
      rewrite lookup_insert_eq. intros [= <-]. unfold SIZE_T, SHM_ALLOC_T in *. lia.
Qed.
End recycle.

(** What [shm_recycle] establishes. *)
Record recycled (sz0 : gmap Z Z) (e : Z) (live : list Z) (sz : gmap Z Z) (free : list Z) : Prop := {
  rc_tiles : exists bs, tiles (effs sz) SHM_ALLOC_T e bs /\ Permutation bs (live ++ free);
  rc_combined : combined (effs sz) free;
  rc_sorted : StronglySorted Z.lt free;
  rc_plain : forall x, x ∈ free -> plain sz x;
  rc_live : forall x, x ∈ live -> sz !! x = sz0 !! x;
  rc_words : forall x w, sz !! x = Some w -> 0 <= w < 2 ^ 32
}.

Section right.
Variables (sz0 : gmap Z Z) (e : Z) (live : list Z) (sz : gmap Z Z) (cur : Z) (pre post : list Z).
Hypothesis Hmw : midway sz0 e live sz cur pre post.

(** Nothing to the right of [cur] touches it: done. *)
Lemma right_apart :
  (forall y, y ∈ post -> ~ block_end (effs sz) cur y) ->
  recycled sz0 e live sz (pre ++ cur :: post).
Proof.
  intros Hr. destruct Hmw as [(bs & Ht & Hp) Hc Hs Hpl Hl Hlv Hw]. split; try done.
  - exists bs. split; [done|]. rewrite Hp. solve_Permutation.
  - assert (Hsm := sorted_mid_inv _ _ _ Hs). destruct Hsm as (_ & H1 & H2).
    assert (Hself : forall y, y <= cur -> ~ block_end (effs sz) cur y).
    { intros y Hy (k & Hk & Hb). assert (Hcb : cur ∈ bs) by (rewrite Hp; set_solver).
      pose proof (tiles_block _ _ _ _ _ k Ht Hcb Hk). unfold SIZE_T in *. lia. }
    intros x y Hx Hy. rewrite elem_of_app, elem_of_cons in Hx, Hy.
    assert (Hcase : x = cur \/ x ∈ pre ++ post) by set_solver.
    destruct Hcase as [->|Hx'].
    + destruct Hy as [Hy|[->|Hy]]; [apply Hself; specialize (H1 y Hy); lia|apply Hself; lia|by apply Hr].
    + assert (Hcase : y = cur \/ y ∈ pre ++ post) by set_solver. destruct Hcase as [->|Hy'].
      * destruct (decide (x ∈ pre)) as [Hxp|Hxp]; [by apply Hl|].
        intros (k & Hk & Hb). assert (Hxb : x ∈ bs) by (rewrite Hp; set_solver).
        pose proof (tiles_block _ _ _ _ _ k Ht Hxb Hk). specialize (H2 x ltac:(set_solver)).
        unfold SIZE_T in *. lia.
      * by apply Hc.
  - intros x Hx. apply Hpl. set_solver.
Qed.

Lemma midway_nodup : NoDup (pre ++ cur :: post).
Proof.
  destruct Hmw as [Hck _ _ _ _ _ _]. apply chunk_nodup in Hck.
  apply NoDup_cons in Hck as [H1 Hck]. apply NoDup_app in Hck as (_ & _ & H2).
  rewrite <- Permutation_middle. constructor; set_solver.
Qed.
End right.

(** The block to the right, [y], is taken over. *)
Lemma right_joined sz0 e live sz cur pre y post c n :
  e < 2 ^ 32 -> midway sz0 e live sz cur pre (y :: post) ->
  sz !! cur = Some c -> sz !! y = Some n -> cur + SIZE_T + c = y ->
  midway sz0 e live (<[cur := c + (n + SIZE_T)]> sz) cur pre post
  /\ (forall z, z ∈ post -> ~ block_end (effs (<[cur := c + (n + SIZE_T)]> sz)) cur z).
Proof.
  intros He Hmw Hc Hn Hy. pose proof (midway_nodup _ _ _ _ _ _ _ Hmw) as Hnd.
  destruct Hmw as [Hck Hcomb Hs Hpl Hl Hlv Hw].
  pose proof (Hpl cur ltac:(set_solver)) as Hpc. pose proof (Hpl y ltac:(set_solver)) as Hpy.
  pose proof (plain_lookup _ _ _ Hpc Hc) as Hc4. pose proof (plain_lookup _ _ _ Hpy Hn) as Hn4.
  assert (Hsum : (c + (n + SIZE_T)) mod 4 = 0) by (unfold SIZE_T in *; div_lia).
  assert (Hne : forall x, x ∈ live ++ pre ++ y :: post -> x <> cur).
  { apply chunk_nodup in Hck. apply NoDup_cons in Hck as [Hck _]. set_solver. }
  assert (Hck' : chunk_ok (effs (<[cur := c + (n + SIZE_T)]> sz)) SHM_ALLOC_T e cur live (pre ++ post)).
  { rewrite effs_insert by done. apply (chunk_merge _ _ _ _ (pre ++ y :: post) cur y _ cur y);
      [done|by rewrite <- Permutation_middle|by left|by apply plain_eff|by apply plain_eff|done]. }
  assert (Hso : StronglySorted Z.lt (pre ++ cur :: post)).
  { apply sorted_mid_inv in Hs as (H1 & H2 & H3). apply sorted_mid; [|done|set_solver].
    by apply sorted_mid_inv in H1 as (? & _). }
  split; [split; try done|].
  - rewrite effs_insert by done. eapply combined_sub; [done|]. intros x Hx.
    split; [set_solver|]. apply lookup_insert_ne. intros <-. by apply (Hne cur); [set_solver|].
  - intros x Hx. destruct (decide (x = cur)) as [->|Hxc].
    + exists (c + (n + SIZE_T)). by rewrite lookup_insert_eq.
    + destruct (Hpl x) as (k & Hk & Hk4); [set_solver|]. exists k. by rewrite lookup_insert_ne.
  - intros x Hx (k & Hk & Hb). rewrite effs_insert, lookup_insert_ne in Hk by (done || (intros <-; by apply (Hne cur); [set_solver|])).
    apply (Hl x Hx). by exists k.
  - intros x Hx. rewrite lookup_insert_ne; [by apply Hlv|]. intros <-. by apply (Hne cur); [set_solver|].
  - intros x w. destruct (decide (x = cur)) as [->|]; [|rewrite lookup_insert_ne by done; apply Hw].
    rewrite lookup_insert_eq. intros [= <-]. destruct Hck as (bs & Ht & Hp).
    assert (Hyb : y ∈ bs) by (rewrite Hp; set_solver).
    destruct (tiles_block _ _ _ _ y n Ht Hyb); [by apply plain_eff|].
    assert (Hcb : cur ∈ bs) by (rewrite Hp; set_solver).
    destruct (tiles_block _ _ _ _ cur c Ht Hcb); [by apply plain_eff|].
    unfold SIZE_T, SHM_ALLOC_T in *. lia.
  - intros z Hz (k & Hk & Hb). rewrite effs_insert, lookup_insert_eq in Hk by done. simplify_eq.
    apply (Hcomb (cur + SIZE_T + c) (cur + SIZE_T + (c + (n + SIZE_T)))); [set_solver|set_solver|].
    exists n. split; [by apply plain_eff|]. lia.
Qed.

Lemma unlink_mid (pre post : list Z) y :
  NoDup (pre ++ y :: post) -> unlink y (pre ++ y :: post) = pre ++ post.
Proof.
  intros Hnd. apply NoDup_app in Hnd as (_ & Hd & Hnd). apply NoDup_cons in Hnd as [Hnd _].
  unfold unlink. rewrite filter_app, filter_cons_False by auto.
  rewrite !filter_all; [done| |]; apply Forall_forall; intros z Hz ->; set_solver.
Qed.

Lemma shm_recycle_ok s cur live :
  SHM_ALLOC_T + chunkSize s < 2 ^ 32 ->
  chunk_ok (effs (size_of s)) SHM_ALLOC_T (SHM_ALLOC_T + chunkSize s) cur live (freeParts s) ->
  combined (effs (size_of s)) (freeParts s) -> StronglySorted Z.lt (freeParts s) ->
  (forall x, x ∈ cur :: freeParts s -> plain (size_of s) x) ->
  (forall x w, size_of s !! x = Some w -> 0 <= w < 2 ^ 32) ->
  exists free sz, shm_recycle s cur = Some (set_parts s free sz)
    /\ recycled (size_of s) (SHM_ALLOC_T + chunkSize s) live sz free.
Proof.
  intros He Hck Hc Hs Hp Hw.
  destruct (recycle_midway _ _ _ _ _ He Hck Hc Hs Hp Hw)
    as (sz1 & cur1 & inn & pre & post & E1 & E2 & Hmw).
  pose proof (midway_nodup _ _ _ _ _ _ _ Hmw) as Hnd.
  unfold shm_recycle. rewrite E1. cbn [mbind option_bind]. rewrite E2. cbn [mbind option_bind].
  pose proof (mw_chunk _ _ _ _ _ _ _ Hmw) as Hck1. pose proof (mw_plain _ _ _ _ _ _ _ Hmw) as Hp1.
  assert (Hsz : forall x, x ∈ cur1 :: pre ++ post -> exists n, sz1 !! x = Some n /\ SHM_ALLOC_T <= x
             /\ 8 <= n /\ x + SIZE_T + n <= SHM_ALLOC_T + chunkSize s).
  { intros x Hx. assert (H0 : 0 < SHM_ALLOC_T) by (unfold SHM_ALLOC_T; lia).
    destruct (chunk_sizes _ _ _ _ _ _ x H0 He Hck1) as (n & Hn & ? & ? & ?); [set_solver|].
    rewrite (plain_eff _ _ _ (Hp1 x Hx)) in Hn. eauto. }
  destruct post as [|y post]; cbn [head].
  { eexists _, _. split; [done|]. apply right_apart; [done|]. set_solver. }
  destruct (Hsz cur1) as (c & Hcs & ? & ? & ?); [set_solver|].
  destruct (Hsz y) as (n & Hn & ? & ? & ?); [set_solver|].
  rewrite Hcs, Hn. cbn [mbind option_bind].
  unfold EFFTSIZE_TO_POOLSIZE, SIZE_T, SHM_ALLOC_T in *.
  assert (Hlt : cur1 < y).
  { destruct (sorted_mid_inv _ _ _ (mw_sorted _ _ _ _ _ _ _ Hmw)) as (_ & _ & H'). set_solver. }
  rewrite (wrapu_id 32 (c + 4)), (wrapu_id 32 (cur1 + _)), (wrapu_id 32 (n + 4)) by width_lia.
  destruct (Z.eqb_spec (cur1 + (c + 4)) y) as [Heq|Hne].
  - rewrite (wrapu_id 32 (c + (n + 4))) by width_lia. eexists _, _. split; [done|].
    change (pre ++ cur1 :: y :: post) with (pre ++ [cur1] ++ y :: post) in *.
    rewrite app_assoc in *. rewrite unlink_mid by done. rewrite <- app_assoc. simpl.
    destruct (right_joined _ _ _ _ cur1 pre y post c n He Hmw) as [Hm1 Hm2]; [done|done|unfold SIZE_T; lia|].
    unfold SIZE_T in Hm1, Hm2. by apply right_apart.
  - eexists _, _. split; [done|]. apply right_apart; [done|].
    intros z Hz (k & Hk & Hb). rewrite (plain_eff _ _ _ (Hp1 cur1 ltac:(set_solver))) in Hk.
    assert (k = c) as -> by congruence. unfold SIZE_T in Hb.
    pose proof (mw_sorted _ _ _ _ _ _ _ Hmw) as Hso. apply sorted_mid_inv in Hso as (H' & _ & _).
    apply sorted_mid_inv in H' as (_ & _ & H').
    apply elem_of_cons in Hz as [->|Hz]; [lia|]. specialize (H' z Hz).
    destruct Hck1 as (bs & Ht & Hpm).
    pose proof (tiles_disjoint _ _ _ _ cur1 c y Ht) as Hd. unfold SIZE_T in Hd.
    rewrite !Hpm in Hd. specialize (Hd ltac:(set_solver) ltac:(set_solver)).
    rewrite (plain_eff _ _ _ (Hp1 cur1 ltac:(set_solver))) in Hd. specialize (Hd Hcs). lia.
Qed.

(** ** The other operations *)

Lemma shm_chunk s live :
  shm_state s live ->
  forall x, x ∈ live ++ cands s ++ freeParts s ->
  exists n, effs (size_of s) !! x = Some n /\ SHM_ALLOC_T <= x /\ 8 <= n
    /\ x + SIZE_T + n <= SHM_ALLOC_T + chunkSize s.
Proof.
  intros [_ _ _ _ (bs & Ht & Hp) _ _ _ _] x Hx. rewrite <- Hp in Hx.
  destruct (tiles_elem _ _ _ _ x Ht Hx) as (n & _ & _ & _ & Hn & _).
  destruct (tiles_block _ _ _ _ x n Ht Hx Hn) as (? & ? & ?). eauto.
Qed.

Lemma shm_nodup s live : shm_state s live -> NoDup (live ++ cands s ++ freeParts s).
Proof. intros [_ _ _ _ (bs & Ht & Hp) _ _ _ _]. rewrite <- Hp. by eapply tiles_NoDup. Qed.

Lemma shm_valid s live : shm_state s live -> shm_invalid s = false.
Proof.
  intros [? ? ? Hm _ _ _ _ _]. unfold shm_invalid. rewrite Hm, Z.eqb_refl.
  rewrite (proj2 (Z.eqb_neq _ 0)), (proj2 (Z.leb_gt _ 0)) by lia. done.
Qed.

Lemma shm_state_perm s l1 l2 : Permutation l1 l2 -> shm_state s l1 -> shm_state s l2.
Proof.
  intros Hp [? ? ? ? (bs & Ht & Hb) ? ? ? ?]. split; try done. exists bs. by rewrite <- Hp.
Qed.

(** A state whose free blocks [shm_recycle] arranged. *)
Lemma recycled_state s live0 live sz0 free sz :
  shm_state s live0 ->
  recycled sz0 (SHM_ALLOC_T + chunkSize s) (live ++ cands s) sz free ->
  (forall x, x ∈ cands s -> plain sz x) ->
  shm_state (set_parts s free sz) live.
Proof.
  intros [? ? ? ? _ _ _ _ _] [(bs & Ht & Hp) Hc Hs Hpl _ Hw] Hcd. split; try done.
  - exists bs. split; [done|]. by rewrite app_assoc.
  - simpl. intros x [Hx|Hx]%elem_of_app; [by apply Hcd|by apply Hpl].
Qed.

Lemma find_max_ok sz free cur m :
  (forall x, x ∈ free -> is_Some (sz !! x)) ->
  exists cur' m', find_max sz cur m free = Some (cur', m') /\ m <= m'
    /\ (forall x n, x ∈ free -> sz !! x = Some n -> n <= m')
    /\ (cur' = cur /\ m' = m \/ exists x, x ∈ free /\ cur' = Some x /\ sz !! x = Some m').
Proof.
  revert cur m. induction free as [|x free IH]; intros cur m Hs; cbn [find_max].
  { exists cur, m. set_solver by lia. }
  destruct (Hs x) as [n Hn]; [set_solver|]. rewrite Hn. cbn [mbind option_bind].
  destruct (Z.ltb_spec m n) as [Hlt|Hge].
  - destruct (IH (Some x) n) as (c' & m' & -> & Hle & Hall & Hc); [set_solver|].
    exists c', m'. split; [done|]. split; [lia|]. split.
    + intros y k [->|Hy]%elem_of_cons Hk; [congruence || (simplify_eq; lia)|by eapply Hall].
    + right. destruct Hc as [[-> ->]|(y & Hy & ? & ?)]; [exists x|exists y]; set_solver.
  - destruct (IH cur m) as (c' & m' & -> & Hle & Hall & Hc); [set_solver|].
    exists c', m'. split; [done|]. split; [lia|]. split.
    + intros y k [->|Hy]%elem_of_cons Hk; [simplify_eq; lia|by eapply Hall].
    + destruct Hc as [[-> ->]|(y & Hy & ? & ?)]; [by left|right; exists y; set_solver].
Qed.

(** After [shm_harvest] the candidate is a largest free block, and no two free
    blocks, the candidate included, touch. *)
Definition harvested (s : shm_alloc_t) : Prop :=
  combined (effs (size_of s)) (cands s ++ freeParts s) /\
  (candiate s = 0 -> freeParts s = []) /\
  (forall x k m, x ∈ freeParts s -> size_of s !! x = Some k -> size_of s !! candiate s = Some m -> k <= m).

Lemma shm_harvest_ok s live :
  shm_state s live -> candiate s = 0 ->
  exists s', shm_harvest s = Some s' /\ shm_state s' live /\ harvested s'
    /\ size_of s' = size_of s /\ base s' = base s /\ chunkSize s' = chunkSize s.
Proof.
  intros Hst Hc0. pose proof (shm_chunk _ _ Hst) as Hck. pose proof (shm_nodup _ _ Hst) as Hnd.
  pose proof Hst as [? ? ? ? (bs & Ht & Hp) Hcomb Hso Hpl Hw].
  assert (Hcs : cands s = []) by (unfold cands; by rewrite Hc0). rewrite Hcs in *. simpl in *.
  unfold shm_harvest. destruct (find_max_ok (size_of s) (freeParts s) None 0) as (c & m & -> & Hm & Hall & Hc).
  { intros x Hx. destruct (Hpl x Hx) as (n & ? & _). eauto. }
  cbn [mbind option_bind]. destruct Hc as [[-> ->]|(x & Hx & -> & Hxm)].
  - assert (Hnil : freeParts s = []).
    { destruct (freeParts s) as [|y l] eqn:E; [done|]. destruct (Hck y) as (n & Hn & ? & ? & ?); [set_solver|].
      rewrite (plain_eff _ _ _ (Hpl y ltac:(set_solver))) in Hn.
      specialize (Hall y n ltac:(set_solver) Hn). lia. }
    eexists. split; [done|]. split; [|split; [|done]].
    + split; try done. by exists bs.
    + unfold harvested, cands. simpl. rewrite Hnil. split; [intros y z Hy; by apply not_elem_of_nil in Hy|].
      split; [done|]. intros y k m' Hy. by apply not_elem_of_nil in Hy.
  - destruct (Hck x) as (n & Hn & ? & ? & ?); [set_solver|].
    rewrite (plain_eff _ _ _ (Hpl x Hx)) in Hn. assert (n = m) as -> by congruence.
    rewrite (proj2 (Z.eqb_neq m 0)) by lia. unfold SHM_ALLOC_T in *.
    apply NoDup_app in Hnd as (_ & _ & Hnd). pose proof (unlink_cons_Perm x _ Hx Hnd) as Hu.
    assert (Hcx : cands (set_cand (set_parts s (unlink x (freeParts s)) (size_of s)) x) = [x]).
    { unfold cands. simpl. by rewrite (proj2 (Z.eqb_neq x 0)) by lia. }
    eexists. split; [done|]. split; [|split; [|done]].
    + split; try done; rewrite ?Hcx; simpl.
      * exists bs. split; [done|]. by rewrite Hp, Hu at 1.
      * eapply combined_sub; [done|]. intros y Hy. apply unlink_elem in Hy. by split; [apply Hy|].
      * unfold unlink. by apply StronglySorted_filter.
      * intros y Hy. apply Hpl. rewrite Hu. exact Hy.
    + split; [|split].
      * rewrite Hcx. simpl. eapply combined_sub; [done|]. intros y Hy. split; [by rewrite Hu|done].
      * simpl. lia.
      * simpl. intros y k m' Hy Hk Hm'. apply unlink_elem in Hy as [_ Hy].
        rewrite Hxm in Hm'. simplify_eq. by eapply Hall.
Qed.

Lemma ALIGN_4BYTES_spec x :
  0 <= x < 2 ^ 31 - 8 -> ALIGN_4BYTES x mod 4 = 0 /\ x <= ALIGN_4BYTES x < x + 4.
Proof.
  intros Hx. unfold ALIGN_4BYTES. rewrite wraps_id by width_lia. rewrite land_m4. div_lia.
Qed.

Lemma cands_some s : candiate s <> 0 -> cands s = [candiate s].
Proof. intros H. unfold cands. by rewrite (proj2 (Z.eqb_neq _ 0)). Qed.

(** The candidate given whole. *)
Lemma cand_whole s live :
  shm_state s live -> candiate s <> 0 -> shm_state (set_cand s 0) (candiate s :: live).
Proof.
  intros [? ? ? ? (bs & Ht & Hp) ? ? Hpl ?] Hc. rewrite cands_some in * by done.
  split; try done; simpl.
  - exists bs. split; [done|]. rewrite Hp. unfold cands; simpl. solve_Permutation.
  - intros x Hx. apply Hpl. set_solver.
Qed.

(** The candidate cut: its first [A] bytes for the client. *)
Lemma cand_split s live n A :
  shm_state s live -> candiate s <> 0 -> size_of s !! candiate s = Some n ->
  8 <= A -> A mod 4 = 0 -> A + FREE_SHM_POOL_T < n ->
  let cur := candiate s + SIZE_T + A in
  shm_state (set_cand (set_parts s (freeParts s)
    (<[candiate s := A]> (<[cur := n - A - SIZE_T]> (size_of s)))) cur) (candiate s :: live)
  /\ (forall x, x ∈ live -> x <> candiate s /\ x <> cur).
Proof.
  intros Hst Hc Hn HA HA4 Hs cur. pose proof (shm_chunk _ _ Hst) as Hck.
  pose proof (shm_nodup _ _ Hst) as Hnd. rewrite cands_some in Hck, Hnd by done.
  destruct (Hck (candiate s)) as (n' & Hn' & ? & ? & ?); [set_solver|].
  pose proof Hst as [? ? ? ? (bs & Ht & Hp) Hcomb Hso Hpl Hw].
  rewrite cands_some in Hp, Hpl by done.
  pose proof (Hpl (candiate s) ltac:(set_solver)) as Hpc.
  pose proof Hn' as Hn''. rewrite (plain_eff _ _ _ Hpc) in Hn''. assert (n' = n) as -> by congruence.
  pose proof (plain_lookup _ _ _ Hpc Hn) as Hn4. unfold FREE_SHM_POOL_T, SIZE_T, SHM_ALLOC_T in *.
  assert (Hcb : candiate s ∈ bs) by (rewrite Hp; set_solver).
  assert (Hcur : forall x, x ∈ bs -> x <> cur).
  { intros x Hx ->. pose proof (tiles_disjoint _ _ _ _ (candiate s) n cur Ht Hcb Hx Hn') as Hd.
    unfold cur, SIZE_T in Hd. lia. }
  set (cand := candiate s) in *.
  assert (Hold : forall x, x ∈ live ++ freeParts s ->
    <[cand := A]> (<[cur := n - A - 4]> (size_of s)) !! x = size_of s !! x).
  { intros x Hx. rewrite !lookup_insert_ne; [done| |].
    - intros <-. apply (Hcur cur); [rewrite Hp; set_solver|done].
    - intros <-. assert (Hnd' : NoDup (cand :: live ++ freeParts s)).
      { by rewrite (Permutation_middle live (freeParts s) cand). }
      apply NoDup_cons in Hnd' as [Hnd' _]. done. }
  assert (Hcs : cands (set_cand (set_parts s (freeParts s)
      (<[cand := A]> (<[cur := n - A - 4]> (size_of s)))) cur) = [cur]).
  { apply cands_some. simpl. unfold cur. lia. }
  split; [split; try done; rewrite ?Hcs; simpl|].
  - rewrite !effs_insert by (done || div_lia).
    pose proof Ht as Ht'. destruct (list_elem_of_split _ _ Hcb) as (l1 & l2 & ->).
    exists (l1 ++ cand :: cur :: l2). split; [by apply (tiles_split _ _ _ _ _ _ n); [..|lia]|].
    assert (l1 ++ l2 ≡ₚ live ++ freeParts s) as Hp'.
    { apply (Permutation_cons_inv (a:=cand)). rewrite Permutation_middle, Hp. solve_Permutation. }
    transitivity (cand :: cur :: l1 ++ l2); [solve_Permutation|]. rewrite Hp'. solve_Permutation.
  - eapply combined_sub; [done|]. intros x Hx. split; [done|].
    unfold effs. rewrite !lookup_fmap, Hold; [done|set_solver].
  - intros x [->|Hx]%elem_of_cons.
    + exists (n - A - 4). rewrite lookup_insert_ne by (unfold cur; lia). rewrite lookup_insert_eq.
      split; [done|div_lia].
    + destruct (Hpl x) as (k & Hk & Hk4); [set_solver|]. exists k. rewrite Hold by set_solver. done.
  - intros x w. rewrite !lookup_insert. repeat case_decide; [intros [= <-]; width_lia|intros [= <-]; width_lia|apply Hw].
  - intros x Hx. split; [|apply Hcur; rewrite Hp; set_solver]. intros ->.
    apply NoDup_app in Hnd as (_ & Hd & _). apply (Hd cand Hx). set_solver.
Qed.

(** What a call of [shm_malloc] achieves. *)
Inductive malloc_result (s : shm_alloc_t) (live : list Z) (size : Z) : Z * shm_alloc_t -> Prop :=
| malloc_none s' :
    shm_state s' live -> (forall x, x ∈ live -> size_of s' !! x = size_of s !! x) ->
    base s' = base s -> chunkSize s' = chunkSize s ->
    combined (effs (size_of s')) (cands s' ++ freeParts s') ->
    (forall x n, x ∈ cands s' ++ freeParts s' -> size_of s' !! x = Some n -> n < size) ->
    malloc_result s live size (0, s')
| malloc_block s' x n :
    shm_state s' (x :: live) -> (forall y, y ∈ live -> size_of s' !! y = size_of s !! y) ->
    base s' = base s -> chunkSize s' = chunkSize s ->
    size_of s' !! x = Some n -> n mod 4 = 0 -> size <= n ->
    malloc_result s live size (base s + x + SIZE_T, s').

Lemma malloc_cut s live size n fuel health :
  shm_state s live -> candiate s <> 0 -> 4 < size -> size_of s !! candiate s = Some n -> size <= n ->
  exists r, malloc_loop (S fuel) s health size = Some r /\ malloc_result s live size r.
Proof.
  intros Hst Hc Hs Hn Hle. pose proof (shm_chunk _ _ Hst) as Hck.
  rewrite cands_some in Hck by done. destruct (Hck (candiate s)) as (n' & Hn' & ? & ? & ?); [set_solver|].
  pose proof (ss_plain _ _ Hst (candiate s)) as Hpc. rewrite cands_some in Hpc by done.
  specialize (Hpc ltac:(set_solver)). rewrite (plain_eff _ _ _ Hpc) in Hn'.
  assert (n' = n) as -> by congruence. pose proof (plain_lookup _ _ _ Hpc Hn) as Hn4.
  destruct (ss_base _ _ Hst) as [? ?]. pose proof (ss_size _ _ Hst). pose proof (ss_high _ _ Hst).
  cbn [malloc_loop]. rewrite (proj2 (Z.eqb_neq _ 0)) by done. rewrite Hn. cbn [mbind option_bind].
  rewrite (proj2 (Z.leb_le _ _)) by done. unfold OFFSET_NODE, SIZE_T, SHM_ALLOC_T in *.
  rewrite (wrapu_id 32 (base s + _)) by width_lia.
  destruct (ALIGN_4BYTES_spec size) as [Ha1 Ha2]; [eval_pow2; lia|].
  assert (8 <= ALIGN_4BYTES size) by div_lia. unfold FREE_SHM_POOL_T.
  rewrite (wrapu_id 32 (ALIGN_4BYTES size + 12)) by width_lia.
  replace (base s + (candiate s + 4)) with (base s + candiate s + SIZE_T) by (unfold SIZE_T; lia).
  destruct (Z.ltb_spec (ALIGN_4BYTES size + 12) n).
  - unfold POOLSIZE_TO_EFFTSIZE, SIZE_T. unwrap.
    destruct (cand_split s live n (ALIGN_4BYTES size) Hst Hc Hn) as [Hst' Hne]; try done.
    unfold SIZE_T in Hst', Hne. eexists. split; [done|]. fold SIZE_T.
    apply (malloc_block _ _ _ _ _ (ALIGN_4BYTES size)); try done; simpl.
    + intros x Hx. destruct (Hne x Hx). by rewrite !lookup_insert_ne.
    + by rewrite lookup_insert_eq.
    + lia.
  - eexists. split; [done|]. apply (malloc_block _ _ _ _ _ n); try done. by apply cand_whole.
Qed.

(** With [health] 0: the candidate, fresh from [shm_harvest], or nothing. *)
Lemma malloc_last s live size fuel :
  shm_state s live -> harvested s -> 4 < size ->
  exists r, malloc_loop (S fuel) s false size = Some r /\ malloc_result s live size r.
Proof.
  intros Hst (Hh1 & Hh2 & Hh3) Hs. destruct (decide (candiate s = 0)) as [Hc|Hc].
  { cbn [malloc_loop]. rewrite Hc. simpl. eexists. split; [done|]. apply malloc_none; try done.
    rewrite (Hh2 Hc). unfold cands. rewrite Hc. simpl. intros x n Hx. by apply not_elem_of_nil in Hx. }
  destruct (ss_plain _ _ Hst (candiate s)) as (n & Hn & _); [rewrite cands_some by done; set_solver|].
  destruct (decide (size <= n)) as [Hle|Hgt]; [by eapply malloc_cut|].
  cbn [malloc_loop]. rewrite (proj2 (Z.eqb_neq _ 0)) by done. rewrite Hn. cbn [mbind option_bind].
  rewrite (proj2 (Z.leb_gt _ _)) by lia. eexists. split; [done|]. apply malloc_none; try done.
  rewrite cands_some by done. simpl. intros x k [->|Hx]%elem_of_cons Hk; [simplify_eq; lia|].
  specialize (Hh3 x k n Hx Hk Hn). lia.
Qed.

Lemma malloc_result_via s s1 live size r :
  malloc_result s1 live size r -> base s1 = base s -> chunkSize s1 = chunkSize s ->
  (forall x, x ∈ live -> size_of s1 !! x = size_of s !! x) -> malloc_result s live size r.
Proof.
  intros Hr Hb Hc Hl. destruct Hr as [s' ? Hl' ? ? ? ?|s' x n ? Hl' ? ? ? ? ?].
  - apply malloc_none; try done; try congruence. intros x Hx. by rewrite Hl', Hl.
  - rewrite Hb. apply (malloc_block _ _ _ _ _ n); try done; try congruence. intros y Hy. by rewrite Hl', Hl.
Qed.

Lemma shm_release s cur live :
  shm_state s (cur :: live) -> plain (size_of s) cur ->
  exists free sz, shm_recycle s cur = Some (set_parts s free sz)
    /\ shm_state (set_parts s free sz) live
    /\ (forall x, x ∈ live -> sz !! x = size_of s !! x).
Proof.
  intros Hst Hpc. pose proof Hst as [[? ?] ? ? ? (bs & Ht & Hp) Hcomb Hso Hpl Hw].
  destruct (shm_recycle_ok s cur (live ++ cands s)) as (free & sz & E & Hr); try done.
  - unfold SHM_ALLOC_T in *. width_lia.
  - exists bs. split; [done|]. by rewrite <- app_assoc.
  - intros x [->|Hx]%elem_of_cons; [done|apply Hpl; set_solver].
  - exists free, sz. split; [done|]. pose proof (rc_live _ _ _ _ _ Hr) as Hl.
    split; [|intros x Hx; apply Hl; set_solver].
    eapply recycled_state; [done|done|]. intros x Hx. unfold plain. rewrite Hl by set_solver.
    apply Hpl. set_solver.
Qed.

Lemma shm_malloc_ok s live size :
  shm_state s live -> 4 < size ->
  exists r, shm_malloc s size = Some r /\ malloc_result s live size r.
Proof.
  intros Hst Hs. unfold shm_malloc. rewrite (shm_valid s live Hst), (proj2 (Z.leb_gt size 0)) by lia.
  simpl orb. cbv iota. destruct (Z.eqb_spec (candiate s) 0) as [Hc|Hc].
  { destruct (shm_harvest_ok s live Hst Hc) as (s1 & -> & Hst1 & Hh & Hz & Hb & Hcs).
    cbn [mbind option_bind]. destruct (malloc_last s1 live size 1 Hst1 Hh Hs) as (r & E & Hr).
    exists r. split; [exact E|]. eapply malloc_result_via; try done. by rewrite Hz. }
  destruct (ss_plain _ _ Hst (candiate s)) as (n & Hn & Hn4); [rewrite cands_some by done; set_solver|].
  destruct (decide (size <= n)) as [Hle|Hgt]; [by eapply malloc_cut|].
  cbn [malloc_loop]. rewrite (proj2 (Z.eqb_neq _ 0)) by done. rewrite Hn. cbn [mbind option_bind].
  rewrite (proj2 (Z.leb_gt _ _)) by lia.
  destruct (shm_release (set_cand s 0) (candiate s) live) as (free & sz & -> & Hst1 & Hl1);
    [by apply cand_whole|by exists n|]. cbn [mbind option_bind].
  destruct (shm_harvest_ok _ _ Hst1 eq_refl) as (s2 & E2 & Hst2 & Hh & Hz & Hb & Hcs).
  rewrite E2. cbn [mbind option_bind]. destruct (malloc_last s2 live size 0 Hst2 Hh Hs) as (r & E & Hr).
  exists r. split; [exact E|]. eapply malloc_result_via; try done. intros x Hx. rewrite Hz. by apply Hl1.
Qed.

Lemma block_of_live s live x :
  shm_state s live -> x ∈ live ->
  block_of s (base s + x + SIZE_T) = x /\ shm_outside s (base s + x + SIZE_T) = false
  /\ (base s + x + SIZE_T =? 0) = false
  /\ exists w, size_of s !! x = Some w /\ (chunkSize s <? eff w) = false
       /\ effs (size_of s) !! x = Some (eff w) /\ 0 <= eff w.
Proof.
  intros Hst Hx. destruct (shm_chunk _ _ Hst x) as (n & Hn & ? & ? & ?); [set_solver|].
  destruct (ss_base _ _ Hst) as [? ?]. pose proof (ss_size _ _ Hst). pose proof (ss_high _ _ Hst).
  unfold block_of, shm_outside, OFFSET_POINTER, SIZE_T, SHM_ALLOC_T in *. unwrap.
  split; [lia|]. rewrite (proj2 (Z.leb_gt _ _)), (proj2 (Z.ltb_ge _ _)), (proj2 (Z.eqb_neq _ 0)) by lia.
  split_and!; [done|done|]. pose proof Hn as Hn'. unfold effs in Hn'. rewrite lookup_fmap in Hn'.
  destruct (size_of s !! x) as [w|]; [|done]. simpl in Hn'. simplify_eq.
  exists w. split_and!; [done|apply Z.ltb_ge; lia|done|lia].
Qed.

Lemma eff_same w d : 0 <= w mod 4 + d < 4 -> eff (w + d) = eff w.
Proof. intros. unfold eff. rewrite !land_m4. div_lia. Qed.

(** Changing only the reference count of a live block. *)
Lemma retag s live x w w' :
  shm_state s live -> x ∈ live -> size_of s !! x = Some w -> eff w' = eff w -> 0 <= w' < 2 ^ 32 ->
  shm_state (set_parts s (freeParts s) (<[x := w']> (size_of s))) live.
Proof.
  intros Hst Hx Hw He Hr. pose proof (shm_nodup _ _ Hst) as Hnd.
  apply NoDup_app in Hnd as (_ & Hd & _).
  assert (Heff : effs (<[x := w']> (size_of s)) = effs (size_of s)).
  { unfold effs. rewrite fmap_insert, He. apply insert_id. by rewrite lookup_fmap, Hw. }
  destruct Hst as [? ? ? ? ? ? ? Hpl Hws]. split; try done; simpl; rewrite ?Heff; try done.
  - intros y Hy. destruct (Hpl y Hy) as (k & Hk & ?). exists k. rewrite lookup_insert_ne; [done|].
    intros ->. by apply (Hd y Hx).
  - intros y k. destruct (decide (y = x)) as [->|]; [|rewrite lookup_insert_ne by done; apply Hws].
    rewrite lookup_insert_eq. by intros [= <-].
Qed.

Lemma shm_add_reference_ok s live x w :
  shm_state s live -> x ∈ live -> size_of s !! x = Some w ->
  if decide (w mod 4 = 3) then shm_add_reference s (base s + x + SIZE_T) = Some (-1, s)
  else let s' := set_parts s (freeParts s) (<[x := w + 1]> (size_of s)) in
    shm_add_reference s (base s + x + SIZE_T) = Some (0, s') /\ shm_state s' live.
Proof.
  intros Hst Hx Hw. destruct (block_of_live s live x Hst Hx) as (Hb & Ho & Hz & w' & Hw' & Hc & _ & Hpos).
  assert (w' = w) as -> by congruence. pose proof (ss_words _ _ Hst _ _ Hw) as Hr.
  unfold shm_add_reference. rewrite (shm_valid _ _ Hst), Hz, Ho, Hb, Hw. cbn [mbind option_bind orb].
  rewrite Hc. pose proof (ss_size _ _ Hst). apply Z.ltb_ge in Hc.
  assert (He : eff w = w - w mod 4) by (unfold eff; by rewrite land_m4).
  rewrite (wrapu_id 32 (eff w + 3)) by width_lia. pose proof (Z.mod_pos_bound w 4).
  case_decide as H3.
  - by rewrite (proj2 (Z.leb_le _ _)) by lia.
  - rewrite (proj2 (Z.leb_gt _ _)) by lia. rewrite (wrapu_id 32 (w + 1)) by (eval_pow2; width_lia).
    split; [done|]. apply (retag s live x w); try done; [apply eff_same; lia|].
    eval_pow2. lia.
Qed.

Lemma shm_free_ok s live x w :
  shm_state s (x :: live) -> size_of s !! x = Some w ->
  exists s', shm_free s (base s + x + SIZE_T) = Some s' /\ base s' = base s
    /\ chunkSize s' = chunkSize s
    /\ (forall y, y ∈ live -> size_of s' !! y = size_of s !! y)
    /\ if decide (w mod 4 = 0) then shm_state s' live
       else shm_state s' (x :: live) /\ size_of s' !! x = Some (w - 1).
Proof.
  intros Hst Hw. assert (Hx : x ∈ x :: live) by set_solver.
  destruct (block_of_live s _ x Hst Hx) as (Hb & Ho & Hz & w' & Hw' & Hc & _ & Hpos).
  assert (w' = w) as -> by congruence. pose proof (ss_words _ _ Hst _ _ Hw) as Hr.
  unfold shm_free. rewrite (shm_valid _ _ Hst), Hz, Ho, Hb, Hw. cbn [mbind option_bind orb]. rewrite Hc.
  change 3 with (Z.ones 2). rewrite Z.land_ones by lia. change (2 ^ 2) with 4.
  destruct (decide (w mod 4 = 0)) as [H0|H0].
  - rewrite H0. simpl. destruct (shm_release s x live Hst) as (free & sz & E & Hst' & Hl); [by exists w|].
    rewrite E. eexists. split_and!; try done.
  - rewrite (proj2 (Z.eqb_neq _ 0)) by done. simpl. pose proof (Z.mod_pos_bound w 4).
    assert (0 < w) by (destruct (decide (w = 0)) as [->|]; [done|lia]).
    rewrite (wrapu_id 32 (w - 1)) by width_lia. eexists. split; [done|]. split_and!; try done; simpl.
    + intros y Hy. apply lookup_insert_ne. intros ->. apply shm_nodup in Hst. simpl in Hst.
      apply NoDup_cons in Hst as [Hst _]. set_solver.
    + apply (retag s _ x w); try done; [|lia]. apply (eff_same w (-1)). lia.
    + apply lookup_insert_eq.
Qed.

(** ** Clients

    A client holds pairs of a pointer and the number of extra references it
    took. *)
Inductive shm_op := SMalloc (size : Z) | SRef (i : nat) | SFree (i : nat).

Definition shm_exec (st : shm_alloc_t * list (Z * Z)) (o : shm_op)
    : option (shm_alloc_t * list (Z * Z)) :=
  let '(s, used) := st in
  match o with
  | SMalloc size =>
      '(m, s') ← shm_malloc s size;
      Some (s', if m =? 0 then used else (m, 0) :: used)
  | SRef i =>
      match used !! i with
      | None => Some st
      | Some (m, r) =>
          '(ret, s') ← shm_add_reference s m;
          Some (s', if ret =? 0 then <[i := (m, r + 1)]> used else used)
      end
  | SFree i =>
      match used !! i with
      | None => Some st
      | Some (m, r) =>
          s' ← shm_free s m;
          Some (s', if r =? 0 then delete i used else <[i := (m, r - 1)]> used)
      end
  end.

Fixpoint shm_run (st : shm_alloc_t * list (Z * Z)) (os : list shm_op)
    : option (shm_alloc_t * list (Z * Z)) :=
  match os with
  | [] => Some st
  | o :: os => st' ← shm_exec st o; shm_run st' os
  end.

Definition op_ok (o : shm_op) : Prop := match o with SMalloc size => 4 < size | _ => True end.

Definition offsets (s : shm_alloc_t) (used : list (Z * Z)) : list Z :=
  map (fun p => p.1 - base s - SIZE_T) used.

(** The allocator's state, and the size word of every held block carries the
    client's count. *)
Definition held (s : shm_alloc_t) (used : list (Z * Z)) : Prop :=
  shm_state s (offsets s used) /\
  (forall m r, (m, r) ∈ used -> exists w, size_of s !! (m - base s - SIZE_T) = Some w /\ w mod 4 = r).

Lemma offsets_elem s m r used : (m, r) ∈ used -> m - base s - SIZE_T ∈ offsets s used.
Proof. intros Hm. apply list_elem_of_fmap. by exists (m, r). Qed.

Lemma offsets_insert s used i m r r' :
  used !! i = Some (m, r) -> offsets s (<[i := (m, r')]> used) = offsets s used.
Proof.
  intros Hi. unfold offsets. change (map ?f ?l) with (f <$> l). rewrite list_fmap_insert.
  apply list_insert_id. by rewrite list_lookup_fmap, Hi.
Qed.

Lemma insert_elem (used : list (Z * Z)) i (x y : Z * Z) :
  y ∈ <[i := x]> used -> y = x \/ exists j, j <> i /\ used !! j = Some y.
Proof.
  intros (j & Hj)%list_elem_of_lookup. destruct (decide (j = i)) as [->|].
  - apply list_lookup_insert_Some in Hj as [(_ & -> & _)|[? _]]; [by left|done].
  - right. exists j. by rewrite list_lookup_insert_ne in Hj.
Qed.

(** Distinct holders hold distinct blocks. *)
Lemma offsets_inj s used i j m r m' r' :
  NoDup (offsets s used) -> used !! i = Some (m, r) -> used !! j = Some (m', r') -> i <> j ->
  m' - base s - SIZE_T <> m - base s - SIZE_T.
Proof.
  intros Hnd Hi Hj Hij E. apply Hij.
  eapply (NoDup_lookup (offsets s used)); [done| |].
  - unfold offsets. change (map ?f ?l) with (f <$> l). rewrite list_lookup_fmap, Hi. done.
  - unfold offsets. change (map ?f ?l) with (f <$> l). rewrite list_lookup_fmap, Hj. simpl. by rewrite E.
Qed.

Lemma exec_malloc_held s used size :
  held s used -> 4 < size ->
  exists s' used', shm_exec (s, used) (SMalloc size) = Some (s', used') /\ held s' used'
    /\ base s' = base s /\ chunkSize s' = chunkSize s.
Proof.
  intros [Hst Hu] Hs. destruct (shm_malloc_ok s _ size Hst Hs) as (r & E & Hr).
  cbn [shm_exec]. rewrite E. destruct Hr as [s' Hst' Hl Hb Hc _ _|s' x n Hst' Hl Hb Hc Hn Hn4 _];
    cbn [mbind option_bind].
  - eexists _, _. split; [done|]. split_and!; try done. simpl. split.
    + unfold offsets. by rewrite Hb.
    + intros m r Hm. rewrite Hb, Hl by by eapply offsets_elem. by apply Hu.
  - destruct (ss_base _ _ Hst). destruct (shm_chunk _ _ Hst' x) as (k & _ & ? & _); [set_solver|].
    unfold SIZE_T, SHM_ALLOC_T in *. rewrite (proj2 (Z.eqb_neq _ 0)) by lia.
    eexists _, _. split; [done|]. split_and!; try done.
    assert (Ho : offsets s' ((base s + x + SIZE_T, 0) :: used) = x :: offsets s used).
    { unfold offsets. rewrite Hb. cbn [map fst]. f_equal. lia. }
    fold SIZE_T. split; [by rewrite Ho|].
    intros m r [E'|Hm]%elem_of_cons.
    + injection E' as -> ->. exists n. rewrite Hb. by replace (base s + x + SIZE_T - base s - SIZE_T) with x by lia.
    + rewrite Hb, Hl by by eapply offsets_elem. by apply Hu.
Qed.

Lemma exec_ref_held s used i :
  held s used ->
  exists s' used', shm_exec (s, used) (SRef i) = Some (s', used') /\ held s' used'
    /\ base s' = base s /\ chunkSize s' = chunkSize s.
Proof.
  intros Hh. pose proof Hh as [Hst Hu]. cbn [shm_exec].
  destruct (used !! i) as [[m r]|] eqn:Hi; [|by exists s, used].
  assert (Hm : (m, r) ∈ used) by by eapply list_elem_of_lookup_2.
  destruct (Hu m r Hm) as (w & Hw & Hr). set (x := m - base s - SIZE_T) in *.
  pose proof (shm_add_reference_ok s _ x w Hst (offsets_elem s m r used Hm) Hw) as Ha.
  replace (base s + x + SIZE_T) with m in Ha by (unfold x; lia). case_decide as H3.
  - rewrite Ha. simpl. eexists _, _. by split_and!.
  - destruct Ha as [-> Hst']. simpl. eexists _, _. split; [done|]. split_and!; try done.
    split; [by erewrite offsets_insert|]. simpl. intros m' r' Hm'.
    apply insert_elem in Hm' as [E|(j & Hij & Hj)].
    + injection E as -> ->. exists (w + 1). rewrite lookup_insert_eq. split; [done|]. div_lia.
    + apply shm_nodup in Hst. apply NoDup_app in Hst as [Hnd _].
      rewrite lookup_insert_ne by (intros E; symmetry in E; by eapply (offsets_inj s used i j)).
      apply Hu. by eapply list_elem_of_lookup_2.
Qed.

Lemma exec_free_held s used i :
  held s used ->
  exists s' used', shm_exec (s, used) (SFree i) = Some (s', used') /\ held s' used'
    /\ base s' = base s /\ chunkSize s' = chunkSize s.
Proof.
  intros Hh. pose proof Hh as [Hst Hu]. cbn [shm_exec].
  destruct (used !! i) as [[m r]|] eqn:Hi; [|by exists s, used].
  assert (Hm : (m, r) ∈ used) by by eapply list_elem_of_lookup_2.
  destruct (Hu m r Hm) as (w & Hw & Hr). set (x := m - base s - SIZE_T) in *.
  pose proof (shm_nodup _ _ Hst) as Hnd. apply NoDup_app in Hnd as [Hnd _].
  assert (Hp : Permutation (offsets s used) (x :: offsets s (delete i used))).
  { unfold offsets. by rewrite (delete_Permutation _ _ _ Hi) at 1. }
  destruct (shm_free_ok s (offsets s (delete i used)) x w) as (s' & E & Hb & Hc & Hl & Hres).
  { by eapply shm_state_perm. }
  { done. }
  replace (base s + x + SIZE_T) with m in E by (unfold x; lia). rewrite E. cbn [mbind option_bind].
  eexists _, _. split; [done|]. split_and!; try done. rewrite Hr in Hres.
  destruct (Z.eqb_spec r 0) as [->|Hr0]; [rewrite decide_True in Hres by done|rewrite decide_False in Hres by done].
  - split; [unfold offsets in *; by rewrite Hb|]. intros m' r' Hm'.
    rewrite Hb, Hl by by eapply offsets_elem. apply Hu.
    apply list_elem_of_lookup in Hm' as (j & Hj). rewrite list_lookup_delete in Hj.
    destruct (decide _); by eapply list_elem_of_lookup_2.
  - destruct Hres as [Hst' Hw']. split.
    + erewrite offsets_insert by done. eapply shm_state_perm; [|done]. unfold offsets in *. by rewrite Hb, Hp.
    + intros m' r' Hm'. rewrite Hb. apply insert_elem in Hm' as [E'|(j & Hij & Hj)].
      * injection E' as -> ->. exists (w - 1). split; [done|]. div_lia.
      * assert (Hne : m' - base s - SIZE_T <> x) by exact (offsets_inj s used i j m r m' r' Hnd Hi Hj (not_eq_sym Hij)).
        rewrite Hl; [apply Hu; by eapply list_elem_of_lookup_2|].
        assert (Hin : m' - base s - SIZE_T ∈ offsets s used)
          by (eapply offsets_elem; by eapply list_elem_of_lookup_2).
        rewrite Hp in Hin. apply elem_of_cons in Hin as [?|?]; done.
Qed.

Lemma shm_run_held os s used :
  Forall op_ok os -> held s used ->
  exists s' used', shm_run (s, used) os = Some (s', used') /\ held s' used'
    /\ base s' = base s /\ chunkSize s' = chunkSize s.
Proof.
  intros Hos. revert s used. induction Hos as [|o os Ho Hos IH]; intros s used Hh.
  { exists s, used. done. }
  assert (Hex : exists s1 used1, shm_exec (s, used) o = Some (s1, used1) /\ held s1 used1
    /\ base s1 = base s /\ chunkSize s1 = chunkSize s).
  { destruct o; [by apply exec_malloc_held|by apply exec_ref_held|by apply exec_free_held]. }
  destruct Hex as (s1 & used1 & E & Hh1 & Hb & Hc). cbn [shm_run]. rewrite E. cbn [mbind option_bind].
  destruct (IH s1 used1 Hh1) as (s2 & used2 & E2 & Hh2 & Hb2 & Hc2).
  exists s2, used2. split_and!; try done; congruence.
Qed.

(** Memory the allocator can be set up in. *)
Definition shm_ready (m : shm_alloc_t) (memStart chunk : Z) : Prop :=
  0 < memStart /\ memStart mod 4 = 0 /\ chunk mod 4 = 0 /\ 32 <= chunk < 2 ^ 31 - 64 /\
  memStart + chunk < 2 ^ 32 /\ magicFlag m <> CONST_MAGIC_FLAG /\
  (forall x w, size_of m !! x = Some w -> 0 <= w < 2 ^ 32).

Lemma init_shm_ok m memStart chunk :
  shm_ready m memStart chunk ->
  exists s, init_shm_allocator m memStart chunk = (memStart, s) /\ held s []
    /\ base s = memStart /\ chunkSize s = chunk - SHM_ALLOC_T /\ magicFlag s = CONST_MAGIC_FLAG.
Proof.
  intros (? & H4 & Hc4 & ? & ? & Hm & Hw). unfold init_shm_allocator.
  assert (u32 (EFFTSIZE_TO_POOLSIZE 0 + SHM_ALLOC_T) = 24) as -> by done.
  rewrite (proj2 (Z.eqb_neq _ 0)), (proj2 (Z.leb_gt chunk _)) by lia. simpl orb. cbv iota.
  assert (u32 (ALIGN_4BYTES memStart) = memStart) as ->.
  { unfold ALIGN_4BYTES. rewrite land_m4. unfold wraps, wrapu. div_lia. }
  unfold SHM_ALLOC_T, POOLSIZE_TO_EFFTSIZE, OFFSET_POINTER, SIZE_T in *. unwrap.
  rewrite (proj2 (Z.leb_gt _ _)) by lia. rewrite (proj2 (Z.eqb_neq _ _)) by done.
  replace (memStart + 20 - memStart) with 20 by lia.
  replace (memStart + chunk - (memStart + 20)) with (chunk - 20) by lia. unwrap.
  eexists. split; [done|]. split_and!; try done. split; [|intros ? ? Hin; by apply not_elem_of_nil in Hin].
  assert (Hn4 : (chunk - 20 - 4) mod 4 = 0) by div_lia.
  split; simpl; try done; unfold SHM_ALLOC_T; try (eval_pow2; lia).
  - exists [20]. split; [|done]. rewrite effs_insert by done. simpl. split; [done|].
    exists (chunk - 20 - 4). rewrite lookup_insert_eq. unfold SIZE_T. split_and!; [done|lia|lia].
  - intros x y Hx. by apply not_elem_of_nil in Hx.
  - constructor.
  - intros x ->%list_elem_of_singleton. exists (chunk - 20 - 4). by rewrite lookup_insert_eq.
  - intros x w. destruct (decide (x = 20)) as [->|]; [|rewrite lookup_insert_ne by done; apply Hw].
    rewrite lookup_insert_eq. intros [= <-]. eval_pow2. lia.
Qed.

(** C2: on aligned memory every sequence of allocations (of more than four
    bytes), added references and releases of held blocks runs to the end, and
    then the held blocks are disjoint and lie inside the chunk, the size word of
    each carries exactly the count of extra references its holder took, and an
    allocation either returns a new block at least as large as asked or finds
    every maximal run of free bytes too small. *)
Theorem shm_clients_safe m memStart chunk os :
  shm_ready m memStart chunk -> Forall op_ok os ->
  exists s0 s used, init_shm_allocator m memStart chunk = (memStart, s0)
    /\ shm_run (s0, []) os = Some (s, used)
    /\ (forall p r, (p, r) ∈ used -> exists w, size_of s !! (p - memStart - SIZE_T) = Some w
          /\ w mod 4 = r /\ memStart + SHM_ALLOC_T + SIZE_T <= p /\ p + eff w <= memStart + chunk)
    /\ (forall p r q r' w, (p, r) ∈ used -> (q, r') ∈ used -> p < q ->
          size_of s !! (p - memStart - SIZE_T) = Some w -> p + eff w + SIZE_T <= q)
    /\ (forall size, 4 < size -> exists res, shm_malloc s size = Some res
          /\ malloc_result s (offsets s used) size res).
Proof.
  intros Hr Hos. destruct (init_shm_ok m memStart chunk Hr) as (s0 & E0 & Hh0 & Hb0 & Hc0 & _).
  destruct (shm_run_held os s0 [] Hos Hh0) as (s & used & E & [Hst Hu] & Hb & Hc).
  exists s0, s, used. rewrite Hb0 in Hb. rewrite Hc0 in Hc. split_and!; [done|done| | |].
  - intros p r Hp. destruct (Hu p r Hp) as (w & Hw & Hwr). rewrite Hb in Hw.
    exists w. split_and!; try done; destruct (shm_chunk _ _ Hst (p - base s - SIZE_T)) as (n & Hn & ? & ? & ?).
    1,3: apply elem_of_app; left; by eapply offsets_elem.
    all: unfold effs in Hn; rewrite lookup_fmap, Hb, Hw in Hn; simpl in Hn; simplify_eq;
      unfold SIZE_T, SHM_ALLOC_T in *; lia.
  - intros p r q r' w Hp Hq Hlt Hw. destruct (ss_tiles _ _ Hst) as (bs & Ht & Hpm).
    pose proof (tiles_disjoint _ _ _ _ (p - base s - SIZE_T) (eff w) (q - base s - SIZE_T) Ht) as Hd.
    rewrite !Hpm, !elem_of_app in Hd.
    specialize (Hd ltac:(left; by eapply offsets_elem) ltac:(left; by eapply offsets_elem)).
    unfold effs in Hd. rewrite lookup_fmap, Hb, Hw in Hd. specialize (Hd eq_refl).
    unfold SIZE_T in *. lia.
  - intros size Hs. by apply shm_malloc_ok.
Qed.

Definition shm_blank : shm_alloc_t := mkShm 0 [] 0 0 0 ∅.

Lemma shm_ready_blank chunk :
  chunk mod 4 = 0 -> 32 <= chunk < 65536 -> shm_ready shm_blank 4096 chunk.
Proof. intros. repeat split; try done; try lia. Qed.

Lemma shm_clients_safe_witness :
  exists s0 s, init_shm_allocator shm_blank 4096 256 = (4096, s0)
    /\ shm_run (s0, []) [SMalloc 10; SMalloc 30; SRef 0; SMalloc 60; SFree 1; SMalloc 100; SFree 2]
       = Some (s, [(4236, 0); (4172, 0); (4120, 0)]).
Proof.
  destruct (shm_clients_safe shm_blank 4096 256
      [SMalloc 10; SMalloc 30; SRef 0; SMalloc 60; SFree 1; SMalloc 100; SFree 2])
    as (s0 & s & used & E0 & E & _).
  - by apply shm_ready_blank.
  - repeat constructor; done.
  - exists s0, s. split; [done|]. rewrite E. f_equal. f_equal.
    injection E0 as <-. vm_compute in E. by injection E.
Defined.

(** a process that maps memory in which another one already runs the
    allocator attaches to it: the second [init_shm_allocator] changes nothing. *)
Theorem init_shm_attaches m memStart chunk s chunk' :
  shm_ready m memStart chunk -> init_shm_allocator m memStart chunk = (memStart, s) ->
  24 < chunk' -> memStart + chunk' < 2 ^ 32 ->
  init_shm_allocator s memStart chunk' = (memStart, s).
Proof.
  intros Hr E Hc Hhi. destruct (init_shm_ok m memStart chunk Hr) as (s' & E' & _ & _ & _ & Hmg).
  rewrite E in E'. injection E' as <-. destruct Hr as (? & H4 & _). unfold init_shm_allocator.
  assert (u32 (EFFTSIZE_TO_POOLSIZE 0 + SHM_ALLOC_T) = 24) as -> by done.
  rewrite (proj2 (Z.eqb_neq _ 0)), (proj2 (Z.leb_gt chunk' _)) by lia. simpl orb. cbv iota.
  assert (u32 (ALIGN_4BYTES memStart) = memStart) as ->.
  { unfold ALIGN_4BYTES. rewrite land_m4. unfold wraps, wrapu. div_lia. }
  unfold SHM_ALLOC_T. unwrap. rewrite (proj2 (Z.leb_gt _ _)) by lia. by rewrite Hmg, Z.eqb_refl.
Qed.

Lemma init_shm_attaches_witness :
  let s := (init_shm_allocator shm_blank 4096 256).2 in
  init_shm_allocator s 4096 128 = (4096, s).
Proof.
  apply (init_shm_attaches shm_blank 4096 256); [by apply shm_ready_blank|reflexivity|lia|lia].
Defined.

(** offsets are the position-independent names of addresses in the chunk:
    [shm_pointer] undoes [shm_offset]. *)
Theorem shm_pointer_offset s live mem :
  shm_state s live -> base s <= mem < base s + SHM_ALLOC_T + chunkSize s ->
  shm_pointer s (shm_offset s mem) = mem.
Proof.
  intros Hst Hm. pose proof (shm_valid s live Hst) as Hv. destruct Hst as [[? ?] ? ? _ _ _ _ _ _].
  unfold shm_pointer, shm_offset, OFFSET_POINTER, OFFSET_NODE. rewrite Hv.
  rewrite (proj2 (Z.eqb_neq mem 0)) by lia. simpl orb. cbv iota. unfold SHM_ALLOC_T in *.
  rewrite (wrapu_id 32 (mem - base s)), (wrapu_id 32 (20 + chunkSize s)) by width_lia.
  rewrite (proj2 (Z.leb_gt _ _)) by lia. unwrap. lia.
Qed.

Lemma shm_pointer_offset_witness :
  let s := (init_shm_allocator shm_blank 4096 256).2 in
  shm_pointer s (shm_offset s 4120) = 4120.
Proof.
  destruct (init_shm_ok shm_blank 4096 256 (shm_ready_blank 256 eq_refl ltac:(lia))) as (s & E & [Hst _] & _).
  rewrite E. injection E as <-.
  apply (shm_pointer_offset _ [] _ Hst). simpl. unfold SHM_ALLOC_T. vm_compute. split; congruence.
Defined.

(** A block of four bytes cannot hold the free list's node: releasing it when no
    free block precedes it overwrites the next block's size word. *)
Lemma shm_free_four_bytes :
  let s := (init_shm_allocator shm_blank 4096 256).2 in
  (x ← shm_malloc s 4; y ← shm_malloc x.2 8; Some (x.1, y.1, shm_free y.2 x.1))
  = Some (4120, 4128, None).
Proof. vm_compute. reflexivity. Qed.

(** In a chunk whose size is not a multiple of four the surplus bytes show up as
    references: a block that takes the whole chunk is not released by the first
    [shm_free]. *)
Lemma shm_odd_chunk_leaks :
  let s := (init_shm_allocator shm_blank 4096 258).2 in
  (x ← shm_malloc s 232; s1 ← shm_free x.2 x.1; Some (x.1, freeParts s1, candiate s1, size_of s1 !! 20))
  = Some (4120, [], 0, Some 233).
Proof. vm_compute. reflexivity. Qed.
