(* ===== verification/HashTable.v ===== *)
(** * libckits/hashTable.c: the string-keyed hash table

    A chain of tokens is the list of its (name, value) pairs.  [use] counts the
    tokens and the names obtained from the installed allocation functions and
    not yet given back; whether an allocation succeeds is an argument.  A NULL
    handle or name is [None]. *)

From S2P Require Import Prelude.

Definition CONST_MAX_HASHSIZE : Z := 4096.

Record usage := mkUse { tokens : Z; names : Z }.

Record tableInfo := mkTable {
  hashSize : Z;
  table : list (list (cstr * Z));
  use : usage
}.

(** [_hashStrdup]: the copy of the name, when [_malloc] gives the memory. *)
Definition hashStrdup (ok : bool) (s : cstr) (u : usage) : option cstr * usage :=
  if ok then (Some s, mkUse (tokens u) (names u + 1)) else (None, u).

Section hash.
Variable sgn : bool.   (* is [char] signed *)

Fixpoint djb2_loop (hash : Z) (str : cstr) (count : Z) : Z :=
  match str with
  | [] => hash
  | c :: str =>
      if count =? 0 then hash
      else djb2_loop (u32 (u32 (u32 (Z.shiftl hash 5) + hash) + chr sgn c)) str (count - 1)
  end.

Definition djb2_hash (str : cstr) (count : Z) : Z :=
  let count := if (count <? 0) || (7 <=? count) then 7 else count in
  djb2_loop 5381 str count.
End hash.

Fixpoint hash_size_loop (fuel : nat) (size testbit : Z) : Z :=
  match fuel with
  | O => testbit
  | S fuel =>
      if negb (Z.land size testbit =? 0) then testbit
      else
        let testbit := Z.shiftr testbit 1 in
        if testbit =? 0 then testbit else hash_size_loop fuel size testbit
  end.

(** [testbit] runs through the thirteen powers of two up to 4096. *)
Definition realHashSize (size : Z) : Z :=
  if CONST_MAX_HASHSIZE <? size then CONST_MAX_HASHSIZE
  else hash_size_loop 13 size CONST_MAX_HASHSIZE.

(** [setHtStringAlloc] and [setHtTokenAlloc]: a pair of functions, [None] for
    NULL, replaces the installed one. *)
Definition setHtStringAlloc {A B} (cur : A * B) (func1 : option A) (func2 : option B) : Z * (A * B) :=
  match func1, func2 with Some f1, Some f2 => (0, (f1, f2)) | _, _ => (-1, cur) end.
Definition setHtTokenAlloc {A B} (cur : A * B) (func1 : option A) (func2 : option B) : Z * (A * B) :=
  match func1, func2 with Some f1, Some f2 => (0, (f1, f2)) | _, _ => (-1, cur) end.

Definition initHashTable (ok : bool) (size : Z) : Z * option tableInfo :=
  let size := realHashSize size in
  if size =? 0 then (-1, None)
  else if ok then (0, Some (mkTable size (replicate (Z.to_nat size) []) (mkUse 0 0)))
  else (-1, None).

Section table.
Variable sgn : bool.

Definition slot (tbl : tableInfo) (name : cstr) : nat :=
  Z.to_nat (Z.land (djb2_hash sgn name (-1)) (hashSize tbl - 1)).

Definition set_chain (tbl : tableInfo) (i : nat) (ch : list (cstr * Z)) (u : usage) : tableInfo :=
  mkTable (hashSize tbl) (<[i := ch]> (table tbl)) u.

(** [strcmp] along the chain. *)
Fixpoint chain_find (name : cstr) (ch : list (cstr * Z)) : option (cstr * Z) :=
  match ch with
  | [] => None
  | tok :: ch => if decide (tok.1 = name) then Some tok else chain_find name ch
  end.

Fixpoint chain_unlink (name : cstr) (ch : list (cstr * Z)) : list (cstr * Z) :=
  match ch with
  | [] => []
  | tok :: ch => if decide (tok.1 = name) then ch else tok :: chain_unlink name ch
  end.

(** [newToken->value = value] on the token found. *)
Fixpoint chain_store (name : cstr) (v : Z) (ch : list (cstr * Z)) : list (cstr * Z) :=
  match ch with
  | [] => []
  | tok :: ch => if decide (tok.1 = name) then (tok.1, v) :: ch else tok :: chain_store name v ch
  end.

(** The outer [None] is an index outside [_table]. *)
Definition findToken (tbl : tableInfo) (name : cstr) (delFlag : bool)
    : option (option (cstr * Z) * tableInfo) :=
  let hashValue := slot tbl name in
  ch ← table tbl !! hashValue;
  match chain_find name ch with
  | None => Some (None, tbl)
  | Some tok =>
      Some (Some tok,
            if delFlag then set_chain tbl hashValue (chain_unlink name ch) (use tbl) else tbl)
  end.

Definition createToken (tk_ok str_ok : bool) (name : cstr) (value : Z) (u : usage)
    : option (cstr * Z) * usage :=
  if tk_ok then
    let u := mkUse (tokens u + 1) (names u) in
    match hashStrdup str_ok name u with
    | (Some n, u) => (Some (n, value), u)
    | (None, u) => (None, mkUse (tokens u - 1) (names u))
    end
  else (None, u).

(** Returns what is stored in the caller's [*retval]. *)
Definition deleteToken (item : option (cstr * Z)) (u : usage) : Z * option Z * usage :=
  match item with
  | None => (-1, None, u)
  | Some tok => (0, Some tok.2, mkUse (tokens u - 1) (names u - 1))
  end.

Definition setHashValue (handle : option tableInfo) (name : option cstr) (value : Z)
    (tk_ok str_ok : bool) : option (Z * Z * option tableInfo) :=
  match handle, name with
  | Some tbl, Some name =>
      '(tok, _) ← findToken tbl name false;
      let i := slot tbl name in
      ch ← table tbl !! i;
      match tok with
      | Some tok => Some (0, tok.2, Some (set_chain tbl i (chain_store name value ch) (use tbl)))
      | None =>
          let '(new, u) := createToken tk_ok str_ok name value (use tbl) in
          match new with
          | None => Some (-1, 0, Some (mkTable (hashSize tbl) (table tbl) u))
          | Some tok => Some (0, 0, Some (set_chain tbl i (ch ++ [tok]) u))
          end
      end
  | _, _ => Some (-1, 0, handle)
  end.

(** [want]: the caller passed a [retval]. *)
Definition getHashValue (handle : option tableInfo) (name : option cstr) (want : bool)
    : option (Z * option Z) :=
  match handle, name with
  | Some tbl, Some name =>
      if want then
        '(tok, _) ← findToken tbl name false;
        match tok with
        | None => Some (-1, None)
        | Some tok => Some (0, Some tok.2)
        end
      else Some (-1, None)
  | _, _ => Some (-1, None)
  end.

Definition delHashValue (handle : option tableInfo) (name : option cstr)
    : option (Z * option Z * option tableInfo) :=
  match handle, name with
  | Some tbl, Some name =>
      '(tok, tbl) ← findToken tbl name true;
      match tok with
      | None => Some (-1, None, Some tbl)
      | Some tok =>
          let '(ret, out, u) := deleteToken (Some tok) (use tbl) in
          Some (ret, out, Some (mkTable (hashSize tbl) (table tbl) u))
      end
  | _, _ => Some (-1, None, handle)
  end.

(** The callback threads the state its [param] points to; [true] is
    [ITERCTRL_BREAK]. *)
Fixpoint iter_chain {St} (callback : cstr -> Z -> St -> bool * St) (ch : list (cstr * Z)) (st : St)
    : bool * St :=
  match ch with
  | [] => (false, st)
  | tok :: ch =>
      let '(brk, st) := callback tok.1 tok.2 st in
      if brk then (true, st) else iter_chain callback ch st
  end.

Fixpoint iter_table {St} (callback : cstr -> Z -> St -> bool * St) (t : list (list (cstr * Z))) (st : St)
    : bool * St :=
  match t with
  | [] => (false, st)
  | ch :: t =>
      let '(brk, st) := iter_chain callback ch st in
      if brk then (true, st) else iter_table callback t st
  end.

Definition iterHashTable {St} (handle : option tableInfo)
    (callback : option (cstr -> Z -> St -> bool * St)) (st : St) : Z * St :=
  match handle, callback with
  | Some tbl, Some f =>
      let '(brk, st) := iter_table f (table tbl) st in (if brk : bool then -1 else 0, st)
  | _, _ => (-1, st)
  end.

(** The lines printed: name, [H], [L], value. *)
Definition dumpHashTable (handle : option tableInfo) : list (cstr * nat * nat * Z) :=
  match handle with
  | None => []
  | Some tbl =>
      concat (imap (fun i ch => imap (fun level tok => (tok.1, i, level, tok.2)) ch) (table tbl))
  end.

(** ** The invariant and the abstraction to a finite map *)

Definition entries (tbl : tableInfo) : list (cstr * Z) := concat (table tbl).

Record wf (tbl : tableInfo) : Prop := {
  wf_size : exists k, 0 <= k <= 12 /\ hashSize tbl = 2 ^ k;
  wf_length : Z.of_nat (length (table tbl)) = hashSize tbl;
  wf_slot : forall i ch tok, table tbl !! i = Some ch -> tok ∈ ch -> slot tbl tok.1 = i;
  wf_nodup : NoDup (fst <$> entries tbl);
  wf_use : use tbl = mkUse (Z.of_nat (length (entries tbl))) (Z.of_nat (length (entries tbl)))
}.

Definition denote (tbl : tableInfo) : gmap (list Z) Z := list_to_map (entries tbl).

(** ** Chains *)

Lemma chain_find_Some name ch tok :
  chain_find name ch = Some tok ->
  tok.1 = name /\ Permutation ch (tok :: chain_unlink name ch)
  /\ forall v, Permutation (chain_store name v ch) ((name, v) :: chain_unlink name ch).
Proof.
  induction ch as [|x ch IH]; simpl; [done|]. case_decide as Hx.
  - intros [= <-]. rewrite <- Hx. split_and!; done.
  - intros H. destruct (IH H) as (Hn & Hp & Hs). split_and!; [done| |].
    + rewrite Hp at 1. apply Permutation_swap.
    + intros v. rewrite (Hs v). apply Permutation_swap.
Qed.

Lemma chain_find_None name ch tok : chain_find name ch = None -> tok ∈ ch -> tok.1 <> name.
Proof.
  induction ch as [|x ch IH]; simpl; [set_solver|]. case_decide; [done|]. set_solver.
Qed.

Lemma entries_at tbl i ch :
  table tbl !! i = Some ch ->
  exists rest, Permutation (entries tbl) (ch ++ rest)
    /\ forall ch' u, Permutation (entries (set_chain tbl i ch' u)) (ch' ++ rest).
Proof.
  intros Hi. exists (concat (take i (table tbl)) ++ concat (drop (S i) (table tbl))).
  unfold entries. split.
  - rewrite <- (take_drop_middle _ _ _ Hi) at 1. rewrite concat_app. simpl. solve_Permutation.
  - intros ch' u. simpl. rewrite insert_take_drop by by eapply lookup_lt_Some.
    rewrite concat_app. simpl. solve_Permutation.
Qed.

Lemma entries_bucket tbl tok : tok ∈ entries tbl -> exists i ch, table tbl !! i = Some ch /\ tok ∈ ch.
Proof.
  unfold entries. intros Ht. apply elem_of_concat in Ht as (ch & Hch & Hin).
  apply list_elem_of_lookup in Hch as (i & Hi). eauto.
Qed.

(** ** Every name has a bucket *)

Lemma slot_lookup tbl name : wf tbl -> is_Some (table tbl !! slot tbl name).
Proof.
  intros [(k & Hk & Hs) Hl _ _ _]. apply lookup_lt_is_Some. unfold slot.
  rewrite Hs in *.
  replace (2 ^ k - 1) with (Z.ones k) by (rewrite Z.ones_equiv; lia).
  rewrite Z.land_ones by lia.
  pose proof (Z.mod_pos_bound (djb2_hash sgn name (-1)) (2 ^ k)). lia.
Qed.

Lemma denote_lookup tbl name ch :
  wf tbl -> table tbl !! slot tbl name = Some ch ->
  denote tbl !! name = snd <$> chain_find name ch.
Proof.
  intros Hwf Hch. unfold denote. destruct (chain_find name ch) as [tok|] eqn:E; simpl.
  - apply chain_find_Some in E as (<- & Hp & _). apply elem_of_list_to_map.
    + apply Hwf.
    + destruct (entries_at _ _ _ Hch) as (rest & Hr & _). rewrite Hr, Hp, <- surjective_pairing. set_solver.
  - apply not_elem_of_list_to_map_1. rewrite list_elem_of_fmap. intros (tok & -> & Hin).
    apply entries_bucket in Hin as (j & ch' & Hj & Hin).
    pose proof (wf_slot _ Hwf _ _ _ Hj Hin) as Hs. rewrite Hs in Hch. simplify_eq.
    by apply (chain_find_None _ _ tok E).
Qed.

(** A chain is replaced by one with the same names, or one more or one less. *)
Lemma wf_set_chain tbl i ch' u :
  wf tbl -> (forall tok, tok ∈ ch' -> slot tbl tok.1 = i) -> 
  NoDup (fst <$> entries (set_chain tbl i ch' u)) ->
  u = mkUse (Z.of_nat (length (entries (set_chain tbl i ch' u))))
            (Z.of_nat (length (entries (set_chain tbl i ch' u)))) ->
  wf (set_chain tbl i ch' u).
Proof.
  intros [Hk Hl Hs _ _] Hch Hnd Hu. split; try done.
  - simpl. by rewrite length_insert.
  - simpl. intros j c tok Hj Hin. apply list_lookup_insert_Some in Hj as [(<- & <- & _)|[_ Hj]].
    + by apply Hch.
    + by eapply Hs.
Qed.

Lemma set_chain_id tbl i ch : table tbl !! i = Some ch -> set_chain tbl i ch (use tbl) = tbl.
Proof. intros Hi. unfold set_chain. rewrite list_insert_id by done. by destruct tbl. Qed.

(** *** The operations against the finite map *)

Lemma find_ok tbl name :
  wf tbl -> exists ch, table tbl !! slot tbl name = Some ch
    /\ denote tbl !! name = snd <$> chain_find name ch
    /\ findToken tbl name false = Some (chain_find name ch, tbl).
Proof.
  intros Hwf. destruct (slot_lookup tbl name Hwf) as [ch Hch]. exists ch.
  split; [done|]. split; [by apply denote_lookup|]. unfold findToken. rewrite Hch. simpl.
  by destruct (chain_find name ch).
Qed.

Lemma get_ok tbl name :
  wf tbl ->
  getHashValue (Some tbl) (Some name) true
  = Some (match denote tbl !! name with Some v => (0, Some v) | None => (-1, None) end).
Proof.
  intros Hwf. destruct (find_ok tbl name Hwf) as (ch & _ & Hd & Hf). simpl. rewrite Hf, Hd. simpl.
  by destruct (chain_find name ch).
Qed.

Lemma nodup_head (name : cstr) (v : Z) (l r : list (cstr * Z)) :
  NoDup (fst <$> l) -> Permutation l ((name, v) :: r) -> 
  (list_to_map l : gmap (list Z) Z) = <[name := v]> (list_to_map r)
  /\ (list_to_map r : gmap (list Z) Z) !! name = None /\ NoDup (fst <$> r).
Proof.
  intros Hnd Hp. rewrite (list_to_map_proper l ((name, v) :: r)) by done. split; [done|].
  rewrite Hp in Hnd. simpl in Hnd. apply NoDup_cons in Hnd as [Hn Hnd].
  split; [by apply not_elem_of_list_to_map_1|done].
Qed.

Lemma update_ok tbl name v ch tok :
  wf tbl -> table tbl !! slot tbl name = Some ch -> chain_find name ch = Some tok ->
  let tbl' := set_chain tbl (slot tbl name) (chain_store name v ch) (use tbl) in
  wf tbl' /\ denote tbl' = <[name := v]> (denote tbl).
Proof.
  intros Hwf Hch E tbl'. destruct tok as [n0 v0].
  pose proof (chain_find_Some _ _ _ E) as (Hn & Hp & Hs). simpl in Hn. subst n0.
  destruct (entries_at _ _ _ Hch) as (rest & Hr & Hr').
  assert (Hold : Permutation (entries tbl) ((name, v0) :: chain_unlink name ch ++ rest)).
  { by rewrite Hr, Hp at 1. }
  assert (Hnew : Permutation (entries tbl') ((name, v) :: chain_unlink name ch ++ rest)).
  { unfold tbl'. by rewrite Hr', (Hs v). }
  destruct (nodup_head _ _ _ _ (wf_nodup _ Hwf) Hold) as (H1 & H2 & H3).
  assert (Hnd : NoDup (fst <$> entries tbl')).
  { rewrite Hnew. pose proof (wf_nodup _ Hwf) as Hnd. by rewrite Hold in Hnd. }
  split.
  - apply wf_set_chain; [done| |done|].
    + intros t Ht. assert (Hin : t.1 ∈ fst <$> ch).
      { rewrite Hp. assert (Ht' : t.1 ∈ fst <$> chain_store name v ch) by (apply list_elem_of_fmap; eauto).
        rewrite (Hs v) in Ht'. done. }
      apply list_elem_of_fmap in Hin as (t' & -> & Hin). by eapply wf_slot.
    + fold tbl'. rewrite Hnew. rewrite (wf_use _ Hwf) at 1. by rewrite Hold.
  - unfold denote. destruct (nodup_head _ _ _ _ Hnd Hnew) as (-> & _ & _).
    rewrite H1. by rewrite insert_insert_eq.
Qed.

Lemma append_ok tbl name v ch :
  wf tbl -> table tbl !! slot tbl name = Some ch -> chain_find name ch = None ->
  let tbl' := set_chain tbl (slot tbl name) (ch ++ [(name, v)])
                (mkUse (tokens (use tbl) + 1) (names (use tbl) + 1)) in
  wf tbl' /\ denote tbl' = <[name := v]> (denote tbl).
Proof.
  intros Hwf Hch E tbl'. destruct (entries_at _ _ _ Hch) as (rest & Hr & Hr').
  assert (Hnew : Permutation (entries tbl') ((name, v) :: entries tbl)).
  { unfold tbl'. rewrite Hr', Hr. solve_Permutation. }
  assert (Hd : denote tbl !! name = None) by (by rewrite (denote_lookup tbl name ch), E).
  assert (Hnd : NoDup (fst <$> entries tbl')).
  { rewrite Hnew. simpl. constructor; [|apply Hwf]. by apply not_elem_of_list_to_map. }
  split.
  - apply wf_set_chain; [done| |done|].
    + intros t [Ht| ->%list_elem_of_singleton]%elem_of_app; [by eapply wf_slot|done].
    + fold tbl'. rewrite Hnew, (wf_use _ Hwf). simpl. f_equal; lia.
  - unfold denote. by destruct (nodup_head _ _ _ _ Hnd Hnew) as (-> & _ & _).
Qed.

Lemma remove_ok tbl name ch tok :
  wf tbl -> table tbl !! slot tbl name = Some ch -> chain_find name ch = Some tok ->
  let tbl' := set_chain tbl (slot tbl name) (chain_unlink name ch)
                (mkUse (tokens (use tbl) - 1) (names (use tbl) - 1)) in
  wf tbl' /\ denote tbl' = delete name (denote tbl).
Proof.
  intros Hwf Hch E tbl'. destruct tok as [n0 v0].
  pose proof (chain_find_Some _ _ _ E) as (Hn & Hp & _). simpl in Hn. subst n0.
  destruct (entries_at _ _ _ Hch) as (rest & Hr & Hr').
  assert (Hnew : Permutation (entries tbl') (chain_unlink name ch ++ rest)) by apply Hr'.
  assert (Hold : Permutation (entries tbl) ((name, v0) :: chain_unlink name ch ++ rest)).
  { by rewrite Hr, Hp at 1. }
  destruct (nodup_head _ _ _ _ (wf_nodup _ Hwf) Hold) as (H1 & H2 & H3).
  assert (Hnd : NoDup (fst <$> entries tbl')) by by rewrite Hnew.
  split.
  - apply wf_set_chain; [done| |done|].
    + intros t Ht. eapply wf_slot; [done|done|]. rewrite Hp. set_solver.
    + fold tbl'. rewrite Hnew, (wf_use _ Hwf), Hold. simpl. f_equal; lia.
  - unfold denote. rewrite H1, delete_insert_id by done.
    rewrite (list_to_map_proper _ _ Hnd Hnew). done.
Qed.
End table.

(** ** Sizes *)

Lemma realHashSize_pow2 size :
  0 < size < 2 ^ 32 -> exists k, 0 <= k <= 12 /\ realHashSize size = 2 ^ k /\ 2 ^ k <= size
    /\ (size < 2 ^ (k + 1) \/ k = 12).
Proof.
  intros Hs. unfold realHashSize, CONST_MAX_HASHSIZE. case_if.
  { exists 12. split_and!; first [done | lia | by right]. }
  assert (Hall : forallb (fun i => let n := Z.of_nat i + 1 in
      (hash_size_loop 13 n 4096 =? 2 ^ Z.log2 n) && (Z.log2 n <=? 12)) (seq 0 4096) = true)
    by (vm_compute; reflexivity).
  rewrite forallb_forall in Hall. specialize (Hall (Z.to_nat (size - 1))).
  rewrite in_seq in Hall. specialize (Hall ltac:(lia)). cbv zeta in Hall.
  replace (Z.of_nat (Z.to_nat (size - 1)) + 1) with size in Hall by lia. bool_to_prop.
  pose proof (Z.log2_spec size ltac:(lia)) as [Hl1 Hl2]. exists (Z.log2 size).
  pose proof (Z.log2_nonneg size). rewrite Z.add_1_r. unfold CONST_MAX_HASHSIZE in *.
  split_and!; try done. by left.
Qed.

Lemma table_init_wf sgn size :
  0 < size < 2 ^ 32 -> exists tbl, initHashTable true size = (0, Some tbl) /\ wf sgn tbl
    /\ denote tbl = ∅.
Proof.
  intros Hs. destruct (realHashSize_pow2 size Hs) as (k & Hk & E & _). unfold initHashTable.
  rewrite E. rewrite (proj2 (Z.eqb_neq _ 0)) by lia. eexists. split; [done|].
  assert (Hc : forall n, concat (replicate n (@nil (cstr * Z))) = []) by (induction n; done).
  split; [|unfold denote, entries; simpl; by rewrite Hc].
  split; unfold entries; simpl; rewrite ?Hc.
  - by exists k.
  - rewrite length_replicate. lia.
  - intros i ch tok Hi Hin. apply lookup_replicate in Hi as [-> _]. by apply not_elem_of_nil in Hin.
  - constructor.
  - done.
Qed.

(** ** Refinement *)

Inductive hash_op :=
  | HSet (name : cstr) (value : Z) (tk_ok str_ok : bool)
  | HGet (name : cstr)
  | HDel (name : cstr).

(** The outcome: the return code and what [*retval] holds afterwards. *)
Definition hash_exec (sgn : bool) (tbl : tableInfo) (o : hash_op)
    : option (Z * option Z * option tableInfo) :=
  match o with
  | HSet n v a b => '(r, old, t) ← setHashValue sgn (Some tbl) (Some n) v a b; Some (r, Some old, t)
  | HGet n => '(r, out) ← getHashValue sgn (Some tbl) (Some n) true; Some (r, out, Some tbl)
  | HDel n => delHashValue sgn (Some tbl) (Some n)
  end.

Fixpoint hash_run (sgn : bool) (tbl : tableInfo) (os : list hash_op)
    : option (list (Z * option Z) * tableInfo) :=
  match os with
  | [] => Some ([], tbl)
  | o :: os =>
      '(r, out, t) ← hash_exec sgn tbl o;
      tbl' ← t;
      '(rs, tbl'') ← hash_run sgn tbl' os;
      Some ((r, out) :: rs, tbl'')
  end.

(** The specification: a finite map.  A new name needs both allocations. *)
Definition map_exec (m : gmap (list Z) Z) (o : hash_op) : (Z * option Z) * gmap (list Z) Z :=
  match o with
  | HSet n v a b =>
      match m !! n with
      | Some old => ((0, Some old), <[n := v]> m)
      | None => if a && b then ((0, Some 0), <[n := v]> m) else ((-1, Some 0), m)
      end
  | HGet n => match m !! n with Some v => ((0, Some v), m) | None => ((-1, None), m) end
  | HDel n => match m !! n with Some v => ((0, Some v), delete n m) | None => ((-1, None), m) end
  end.

Fixpoint map_run (m : gmap (list Z) Z) (os : list hash_op) : list (Z * option Z) * gmap (list Z) Z :=
  match os with
  | [] => ([], m)
  | o :: os => let '(r, m) := map_exec m o in let '(rs, m) := map_run m os in (r :: rs, m)
  end.

Lemma hash_exec_refines sgn tbl o :
  wf sgn tbl ->
  exists r out tbl', hash_exec sgn tbl o = Some (r, out, Some tbl') /\ wf sgn tbl'
    /\ map_exec (denote tbl) o = ((r, out), denote tbl').
Proof.
  intros Hwf. destruct o as [n v a b|n|n]; simpl hash_exec; simpl map_exec;
    destruct (find_ok sgn tbl n Hwf) as (ch & Hch & Hd & Hf); rewrite Hd.
  - rewrite Hf. cbn [mbind option_bind]. rewrite Hch. cbn [mbind option_bind].
    destruct (chain_find n ch) as [tok|] eqn:E.
    + destruct (update_ok sgn tbl n v ch tok Hwf Hch E) as [Hwf' Hd'].
      eexists _, _, _. split; [done|]. split; [exact Hwf'|]. simpl. by rewrite Hd'.
    + assert (Hsame : mkTable (hashSize tbl) (table tbl) (use tbl) = tbl) by by destruct tbl.
      destruct a, b; simpl.
      * destruct (append_ok sgn tbl n v ch Hwf Hch E) as [Hwf' Hd'].
        eexists _, _, _. split; [done|]. split; [exact Hwf'|]. by rewrite Hd'.
      * exists (-1), (Some 0), tbl. split_and!; [|done|done].
        rewrite Z.add_simpl_r. by destruct tbl as [h t [tk nm]].
      * exists (-1), (Some 0), tbl. by rewrite Hsame.
      * exists (-1), (Some 0), tbl. by rewrite Hsame.
  - rewrite Hf. cbn [mbind option_bind]. destruct (chain_find n ch) as [tok|]; simpl;
      eexists _, _, tbl; by split_and!.
  - unfold findToken. rewrite Hch. cbn [mbind option_bind].
    destruct (chain_find n ch) as [tok|] eqn:E.
    + destruct (remove_ok sgn tbl n ch tok Hwf Hch E) as [Hwf' Hd'].
      eexists _, _, _. split; [done|]. split; [exact Hwf'|]. simpl. by rewrite <- Hd'.
    + exists (-1), None, tbl. by split_and!.
Qed.

Lemma hash_run_refines sgn os tbl :
  wf sgn tbl ->
  exists rs tbl', hash_run sgn tbl os = Some (rs, tbl') /\ wf sgn tbl'
    /\ map_run (denote tbl) os = (rs, denote tbl').
Proof.
  revert tbl. induction os as [|o os IH]; intros tbl Hwf; cbn [hash_run map_run].
  { by exists [], tbl. }
  destruct (hash_exec_refines sgn tbl o Hwf) as (r & out & tbl1 & -> & Hwf1 & ->).
  cbn [mbind option_bind]. destruct (IH tbl1 Hwf1) as (rs & tbl2 & -> & Hwf2 & ->).
  cbn [mbind option_bind]. by exists ((r, out) :: rs), tbl2.
Qed.

(** C5: the hash table refines a finite map: from [initHashTable] with any
    non-zero size, every sequence of set, get and delete calls answers exactly
    as the map does (a new name is refused only when an allocation fails, and
    then nothing changes), and at the end the tokens and names still allocated
    are exactly the map's entries, so nothing leaks. *)
Theorem hash_refines_map sgn size os :
  0 < size < 2 ^ 32 ->
  exists tbl0 rs tbl, initHashTable true size = (0, Some tbl0)
    /\ hash_run sgn tbl0 os = Some (rs, tbl) /\ map_run ∅ os = (rs, denote tbl)
    /\ use tbl = mkUse (Z.of_nat (base.size (denote tbl))) (Z.of_nat (base.size (denote tbl))).
Proof.
  intros Hs. destruct (table_init_wf sgn size Hs) as (tbl0 & E0 & Hwf0 & Hd0).
  destruct (hash_run_refines sgn os tbl0 Hwf0) as (rs & tbl & E & Hwf & Em).
  exists tbl0, rs, tbl. rewrite <- Hd0. split_and!; try done.
  rewrite (wf_use _ _ Hwf). unfold denote.
  by rewrite <- length_map_to_list, map_to_list_to_map by apply Hwf.
Qed.

Lemma hash_refines_map_witness :
  exists tbl0 rs tbl, initHashTable true 5 = (0, Some tbl0)
    /\ hash_run true tbl0 [HSet [97; 98] 7 true true; HSet [97] 8 true true; HSet [97; 98] 9 false false;
                           HGet [97; 98]; HDel [97]; HGet [97]; HSet [99] 1 true false] = Some (rs, tbl)
    /\ rs = [(0, Some 0); (0, Some 0); (0, Some 7); (0, Some 9); (0, Some 8); (-1, None); (-1, Some 0)].
Proof.
  destruct (hash_refines_map true 5 [HSet [97; 98] 7 true true; HSet [97] 8 true true;
      HSet [97; 98] 9 false false; HGet [97; 98]; HDel [97]; HGet [97]; HSet [99] 1 true false])
    as (tbl0 & rs & tbl & E0 & E & Em & _); [lia|].
  exists tbl0, rs, tbl. split; [done|]. split; [done|]. vm_compute in Em. by injection Em.
Defined.

(** ** Iteration *)

Lemma iter_table_fold {St} (f : cstr -> Z -> St -> bool * St) t st :
  iter_table f t st = iter_chain f (concat t) st.
Proof.
  revert st. induction t as [|ch t IH]; intros st; cbn [iter_table concat]; [done|].
  enough (Happ : forall l st, iter_chain f (l ++ concat t) st
     = let '(brk, st) := iter_chain f l st in if brk : bool then (true, st) else iter_chain f (concat t) st).
  { rewrite Happ. destruct (iter_chain f ch st) as [[] st']; [done|apply IH]. }
  intros l. induction l as [|x l IHl]; intros st'; simpl; [done|].
  destruct (f x.1 x.2 st') as [[] st'']; [done|apply IHl].
Qed.

Lemma iter_chain_all {St} (f : cstr -> Z -> St -> St) l st :
  iter_chain (fun n v st => (false, f n v st)) l st
  = (false, foldl (fun st tok => f tok.1 tok.2 st) st l).
Proof. revert st. induction l as [|x l IH]; intros st; simpl; [done|]. apply IH. Qed.

(** [iterHashTable] calls a callback that never breaks exactly once for each
    entry of the map, and then returns 0. *)
Theorem iter_visits_all {St} sgn tbl (f : cstr -> Z -> St -> St) st :
  wf sgn tbl ->
  exists visited, Permutation visited (map_to_list (denote tbl)) /\
    iterHashTable (Some tbl) (Some (fun n v st => (false, f n v st))) st
    = (0, foldl (fun st tok => f tok.1 tok.2 st) st visited).
Proof.
  intros Hwf. exists (entries tbl). split.
  - unfold denote. by rewrite map_to_list_to_map by apply Hwf.
  - unfold iterHashTable. by rewrite iter_table_fold, iter_chain_all.
Qed.

Lemma iter_visits_all_witness :
  exists tbl, initHashTable true 4 = (0, Some tbl) /\
  exists visited : list (cstr * Z), Permutation visited (map_to_list (denote tbl)) /\
    iterHashTable (Some tbl) (Some (fun _ v st => (false, v + st))) 0
    = (0, foldl (fun st tok => tok.2 + st) 0 visited).
Proof.
  destruct (table_init_wf true 4) as (tbl & E & Hwf & _); [lia|]. exists tbl. split; [done|].
  exact (iter_visits_all true tbl (fun _ v st => v + st) 0 Hwf).
Defined.
