(* ===== verification/EpCore.v ===== *)
(** * libckits/epCore.c: the event loop

    The loop owns a timer queue ([TimeList]) and a slot allocator ([SlotAlloc])
    that supplies the queue's nodes.  [timeListType] names a queued node by its
    address, which is the address of its slot.  The results of system calls are
    arguments: [now] of [gettimeofday], [epfd] of [epoll_create], [ctl_ok] of
    [epoll_ctl] and a [wait_result] of [epoll_wait].  What the program's
    callbacks do is the parameter [reaction]: the calls each of them makes,
    which may queue and cancel timers, open transports and close them.
    [trace] records the callbacks and the descriptors closed. *)

From S2P Require Import Prelude.
From S2P Require Import CList.
From S2P Require Import SlotAlloc.
From S2P Require Import TimeList.

Record epVirtualTable := mkVt { handleRead : bool; handleWrite : bool; handleClose : bool }.
Record epTransport := mkTransport { t_desc : Z; t_vptr : option epVirtualTable }.

Inductive act :=
  | ATimer (handler param : Z)
  | ARead (t : Z)
  | AWrite (t : Z)
  | AClose (t : Z)
  | ASysClose (fd : Z).

(** The calls a callback makes.  [OpenTransport] fills in a transport with a
    descriptor and a table of handlers and registers it. *)
Inductive ep_call :=
  | CallLater (now : timeval) (seconds useconds handler param : Z)
  | CancelCall (now : timeval) (token : Z)
  | OpenTransport (now : timeval) (ctl_ok : bool) (t fd : Z) (vt : epVirtualTable)
  | CloseCall (now : timeval) (t : Z).

Inductive wait_result :=
  | WaitIntr
  | WaitError
  | WaitEvents (evs : list (Z * Z)).   (* transport, event mask *)

Definition EPOLLIN : Z := 1.
Definition EPOLLOUT : Z := 4.
Definition EPOLLERR : Z := 8.
Definition EPOLLHUP : Z := 16.
Definition CONCRET_LIMIT : Z := 20.
Definition ALARM_NODE : Z := 32.    (* sizeof(alarmEventNode) *)
Definition WORD : Z := 4.

Section epcore.
Context {H : Type} {IL : IntrusiveList H}.
Variable epfd : Z.
Variable epTimeOutHandler_ptr : Z.
Variable reaction : act -> list ep_call.

Record ep := mkEp {
  descriptor : Z;
  header : list (Z * Z);           (* address and descriptor *)
  waitQueue : timeListType;
  singletonFlag : bool;
  timeEventFactoryFlag : bool;
  epTimeEventAlloc : slot_alloc_t;
  mem : H;
  transports : gmap Z epTransport;
  trace : list act
}.

Definition set_queue (s : ep) (q : timeListType) : ep :=
  mkEp (descriptor s) (header s) q (singletonFlag s) (timeEventFactoryFlag s)
    (epTimeEventAlloc s) (mem s) (transports s) (trace s).
Definition set_mem (s : ep) (m : H) : ep :=
  mkEp (descriptor s) (header s) (waitQueue s) (singletonFlag s) (timeEventFactoryFlag s)
    (epTimeEventAlloc s) m (transports s) (trace s).
Definition log (a : act) (s : ep) : ep :=
  mkEp (descriptor s) (header s) (waitQueue s) (singletonFlag s) (timeEventFactoryFlag s)
    (epTimeEventAlloc s) (mem s) (transports s) (trace s ++ [a]).
Definition set_transport (s : ep) (t : Z) (v : epTransport) : ep :=
  mkEp (descriptor s) (header s) (waitQueue s) (singletonFlag s) (timeEventFactoryFlag s)
    (epTimeEventAlloc s) (mem s) (<[t := v]> (transports s)) (trace s).

Definition CHECK_SINGLETON (now : timeval) (s : ep) : ep :=
  if singletonFlag s then s
  else mkEp epfd [] (initTimeList now).2 true (timeEventFactoryFlag s) (epTimeEventAlloc s)
         (mem s) (transports s) (trace s).

Definition TIMEEVENT_FACTORY_SINGLETON (s : ep) : option ep :=
  if timeEventFactoryFlag s then Some s
  else
    '(_, a, m) ← init_slot_allocator WORD (epTimeEventAlloc s) (mem s);
    Some (mkEp (descriptor s) (header s) (waitQueue s) (singletonFlag s) true a m
            (transports s) (trace s)).

Definition epFactoryCreateTimeEvent (s : ep) : option (Z * ep) :=
  s ← TIMEEVENT_FACTORY_SINGLETON s;
  '(p, m) ← slot_malloc (epTimeEventAlloc s) ALARM_NODE (mem s);
  Some (p, set_mem s m).

Definition epFactoryRecyleTimeEvent (thisEvent : Z) (s : ep) : option (Z * ep) :=
  s ← TIMEEVENT_FACTORY_SINGLETON s;
  m ← slot_free (epTimeEventAlloc s) thisEvent (mem s);
  Some (0, set_mem s m).

Definition epCallLater (now : timeval) (seconds useconds handler param : Z) (s : ep)
    : option (Z * ep) :=
  let s := CHECK_SINGLETON now s in
  if handler =? 0 then Some (-1, s)
  else
    '(p, s) ← epFactoryCreateTimeEvent s;
    if p =? NULL then Some (-1, s)
    else
      let node := mkNode (mkTv seconds useconds) epTimeOutHandler_ptr param handler 0 in
      let '(ret, q) := addAlarmEventNode now (waitQueue s) (p, node) in
      Some (ret, set_queue s q).

(** Alone among the entry points this one lacks [CHECK_SINGLETON]: before the
    queue is initialised it walks a list whose head is all zeros. *)
Definition epCancelCall (now : timeval) (token : Z) (s : ep) : option (Z * ep) :=
  if negb (singletonFlag s) then None
  else
    let '(theEvent, q) := delAlarmEventNode now (waitQueue s) token in
    let s := set_queue s q in
    match theEvent with
    | Some (p, _) => epFactoryRecyleTimeEvent p s
    | None => Some (-1, s)
    end.

Definition epAddTransport (now : timeval) (ctl_ok : bool) (t : Z) (s : ep) : Z * ep :=
  let s := CHECK_SINGLETON now s in
  match transports s !! t with
  | Some (mkTransport d (Some _)) =>
      if (d =? -1) || (descriptor s =? -1) then (-1, s) else if ctl_ok then (0, s) else (-1, s)
  | _ => (-1, s)
  end.

(** The calls of a callback, given what [epCloseTransport] does. *)
Section exec.
Variable close : timeval -> Z -> ep -> option (Z * ep).

Definition exec_call (c : ep_call) (s : ep) : option ep :=
  match c with
  | CallLater now sec usec h p => '(_, s) ← epCallLater now sec usec h p s; Some s
  | CancelCall now tok => '(_, s) ← epCancelCall now tok s; Some s
  | OpenTransport now ctl_ok t fd vt =>
      Some (epAddTransport now ctl_ok t (set_transport s t (mkTransport fd (Some vt)))).2
  | CloseCall now t => '(_, s) ← close now t s; Some s
  end.

Fixpoint exec_calls (cs : list ep_call) (s : ep) : option ep :=
  match cs with
  | [] => Some s
  | c :: cs => s ← exec_call c s; exec_calls cs s
  end.
End exec.

(** [transports s !! t = None]: [t] is NULL.  [handleClose] may close other
    transports; the descriptor is -1 before it is called. *)
Fixpoint close_nested (fuel : nat) (now : timeval) (t : Z) (s : ep) : option (Z * ep) :=
  match fuel with
  | O => None
  | S fuel =>
      let s := CHECK_SINGLETON now s in
      match transports s !! t with
      | None => Some (1, s)
      | Some tr =>
          if t_desc tr =? -1 then Some (1, s)
          else
            let s := log (ASysClose (t_desc tr)) s in
            let s := set_transport s t (mkTransport (-1) (t_vptr tr)) in
            vt ← t_vptr tr;
            s ← (if handleClose vt : bool
                 then exec_calls (close_nested fuel) (reaction (AClose t)) (log (AClose t) s)
                 else Some s);
            Some (0, s)
      end
  end.

(** No more calls can be nested than there are transports. *)
Definition epCloseTransport (now : timeval) (t : Z) (s : ep) : option (Z * ep) :=
  close_nested (S (size (transports s))) now t s.

(** Calling a callback. *)
Definition callback (a : act) (s : ep) : option ep :=
  exec_calls epCloseTransport (reaction a) (log a s).

Definition epTimeOutHandler (theEvent : entry) (s : ep) : option ep :=
  s ← callback (ATimer (reserved theEvent.2) (cbParam theEvent.2)) s;
  '(_, s) ← epFactoryRecyleTimeEvent theEvent.1 s;
  Some s.

(** [handleAlarmEvent(&epCoreStruct.waitQueue)], callback included.  When the
    code would unlink the list's own head the model stops. *)
Definition handle_timers (now : timeval) (s : ep) : option ep :=
  match handleAlarmEvent now (waitQueue s) with
  | (FNothing, q) => Some (set_queue s q)
  | (FEvent e, q) => epTimeOutHandler e (set_queue s q)
  | (FSentinel, _) => None
  end.

(** [header] is the linked list of registered transports. *)
Fixpoint get_rest (prev : list (Z * Z)) (theDesc : Z) : option (Z * Z) * list (Z * Z) :=
  match prev with
  | [] => (None, [])
  | t :: rest =>
      if theDesc =? t.2 then (Some t, rest)
      else let '(r, rest') := get_rest rest theDesc in (r, t :: rest')
  end.

Definition set_header (s : ep) (h : list (Z * Z)) : ep :=
  mkEp (descriptor s) h (waitQueue s) (singletonFlag s) (timeEventFactoryFlag s)
    (epTimeEventAlloc s) (mem s) (transports s) (trace s).

Definition epGetTransport (theDesc : Z) (s : ep) : option (Z * Z) * ep :=
  match header s with
  | [] => (None, s)
  | prev :: rest =>
      if theDesc =? prev.2 then (Some prev, s)
      else let '(r, rest') := get_rest rest theDesc in (r, set_header s (prev :: rest'))
  end.

Definition insertTransport (t : option (Z * Z)) (s : ep) : Z * ep :=
  match t with
  | None => (-1, s)
  | Some t => (0, set_header s (t :: header s))
  end.

Definition dispatch (now : timeval) (ev : Z * Z) (s : ep) : option ep :=
  let '(t, mask) := ev in
  tr ← transports s !! t;
  if negb (Z.land mask (Z.lor EPOLLHUP EPOLLERR) =? 0) then
    '(_, s) ← epCloseTransport now t s; Some s
  else
    vt ← t_vptr tr;
    s ← (if negb (Z.land mask EPOLLIN =? 0) && handleRead vt then callback (ARead t) s else Some s);
    if negb (Z.land mask EPOLLOUT =? 0) && handleWrite vt then callback (AWrite t) s else Some s.

Fixpoint dispatch_all (now : timeval) (evs : list (Z * Z)) (s : ep) : option ep :=
  match evs with
  | [] => Some s
  | ev :: evs => s ← dispatch now ev s; dispatch_all now evs s
  end.

(** The [epoll_wait] timeout: [tv_sec*1000 + tv_usec/1000] in 32 bits. *)
Definition wait_timeout (tv : timeval) : Z :=
  s32 (s32 (tv_sec tv * 1000) + Z.quot (tv_usec tv) 1000).

(** One turn of the loop of [epAction]: the timeout passed to [epoll_wait],
    whether the loop goes on, and the state.  [now] and [now'] are the times
    before and after the wait. *)
Definition epAction_turn (now now' : timeval) (res : wait_result) (s : ep)
    : option (Z * bool * ep) :=
  let '(tvRet, q) := timeToNextAlarmEvent now (waitQueue s) in
  let s := set_queue s q in
  let time_out := wait_timeout tvRet in
  match res with
  | WaitIntr => s ← handle_timers now' s; Some (time_out, true, s)
  | WaitError => Some (time_out, false, s)
  | WaitEvents evs =>
      s ← handle_timers now' s;
      s ← dispatch_all now' evs s;
      Some (time_out, true, s)
  end.

(** [epAction]: turns until [epoll_wait] fails for good; the list gives what
    each turn is answered. *)
Fixpoint epAction_loop (turns : list (timeval * timeval * wait_result)) (s : ep) : option ep :=
  match turns with
  | [] => Some s
  | (now, now', res) :: turns =>
      '(_, go, s) ← epAction_turn now now' res s;
      match go with true => epAction_loop turns s | false => Some s end
  end.

Definition epAction (now : timeval) (turns : list (timeval * timeval * wait_result)) (s : ep)
    : option (Z * ep) :=
  let s := CHECK_SINGLETON now s in
  if descriptor s =? -1 then Some (-1, s)
  else s ← epAction_loop turns s; Some (0, s).

(** ** Slots and timers *)

(** The static allocator of the file. *)
Variable a0 : slot_alloc_t.
Hypothesis a0_invalid : slot_invalid a0 = false.
Hypothesis a0_valid : valid WORD (initialised WORD a0).
Hypothesis a0_fits : ALARM_NODE <= aligned_slot WORD (slotSize a0).

Definition addrs (q : timeListType) : list Z := map fst (remaining q).

(** [inflight]: slots of events whose callback is running. *)
Record ep_inv (s : ep) (inflight : list Z) : Prop := {
  ei_queue : singletonFlag s = true -> TimeList.wf (waitQueue s);
  ei_fresh : singletonFlag s = false -> timeEventFactoryFlag s = false;
  ei_slots :
    if timeEventFactoryFlag s then
      epTimeEventAlloc s = initialised WORD a0 /\
      exists free, slot_state (initialised WORD a0) (mem s) free (addrs (waitQueue s) ++ inflight)
    else
      epTimeEventAlloc s = a0 /\ inflight = [] /\ (singletonFlag s = true -> addrs (waitQueue s) = [])
}.

(** What callback [a] may call: times are normalised, and a [handleClose] does
    not open transports (it could close and reopen itself for ever). *)
Definition call_ok (a : act) (c : ep_call) : Prop :=
  match c with
  | CallLater now sec usec _ _ => norm now /\ norm (mkTv sec usec)
  | CancelCall now _ => norm now
  | OpenTransport now _ _ _ _ => norm now /\ (forall t, a <> AClose t)
  | CloseCall now _ => norm now
  end.

(** The transports that callbacks close have a table of handlers. *)
Definition targets_ok (trs : gmap Z epTransport) : Prop :=
  forall a now t tr, CloseCall now t ∈ reaction a -> trs !! t = Some tr -> is_Some (t_vptr tr).

Lemma word_pos : 0 < WORD.
Proof. unfold WORD. lia. Qed.

Lemma addrs_sync now q : TimeList.wf q -> norm now -> addrs (synchronize now q) = addrs q.
Proof.
  intros Hq Hn. unfold addrs. destruct (synchronize_spec now q Hq Hn) as [_ ->].
  by rewrite map_map.
Qed.

Lemma addrs_refreshed now q : TimeList.wf q -> norm now -> addrs (refreshed now q) = addrs q.
Proof. intros. unfold refreshed. case_if; [|done]. by apply addrs_sync. Qed.

Lemma addrs_add now q p n :
  TimeList.wf q -> norm now -> norm (tvRemain n) ->
  let q' := (addAlarmEventNode now q (p, n)).2 in
  TimeList.wf q' /\ Permutation (addrs q') (p :: addrs q).
Proof.
  intros Hq Hn Ht. pose proof (wf_add now q n p Hq Hn Ht) as Ha.
  destruct (addAlarmEventNode now q (p, n)) as [tok q'].
  destruct Ha as (_ & Hq' & d1 & d2 & E1 & E2 & _). split; [done|].
  rewrite <- (addrs_sync now q Hq Hn). unfold addrs. simpl. rewrite E1, E2, !map_app. simpl.
  solve_Permutation.
Qed.

Lemma addrs_del now q tok :
  TimeList.wf q -> norm now ->
  let '(e, q') := delAlarmEventNode now q tok in
  TimeList.wf q' /\
  match e with
  | Some e => Permutation (addrs q) (e.1 :: addrs q')
  | None => addrs q' = addrs q
  end.
Proof.
  intros Hq Hn. pose proof (wf_del now q tok Hq Hn) as Hd.
  destruct (delAlarmEventNode now q tok) as [[e|] q'] eqn:E.
  - destruct Hd as (Hq' & _ & d1 & d2 & t & E1 & E2). split; [done|].
    rewrite <- (addrs_sync now q Hq Hn). unfold addrs. rewrite E1, E2, !map_app. simpl.
    solve_Permutation.
  - destruct Hd as (Hs & Hq' & _). split; [done|].
    unfold delAlarmEventNode in E. destruct (queryAlarmEventNode _ _).
    + by destruct (unlink _ _ _).
    + injection E as <-. by apply addrs_sync.
Qed.

Lemma addrs_handle now q :
  TimeList.wf q -> norm now ->
  match handleAlarmEvent now q with
  | (FEvent e, q') => TimeList.wf q' /\ addrs q = e.1 :: addrs q'
  | (FNothing, q') => TimeList.wf q' /\ addrs q' = addrs q
  | (FSentinel, _) => events q = [] /\ is_due (tvRemain (eventHead q)) = true
  end.
Proof.
  intros Hq Hn. pose proof (wf_handle now q Hq Hn) as Hh.
  destruct (handleAlarmEvent now q) as [[|e|] q'].
  - destruct Hh as (-> & Hq' & _). split; [done|]. by apply addrs_refreshed.
  - destruct Hh as (Hq' & d & ds & E1 & _ & E2). split; [done|].
    rewrite <- (addrs_refreshed now q Hq Hn). unfold addrs. rewrite E1, E2. simpl. by rewrite map_map.
  - done.
Qed.

Lemma singleton_inv now s fl :
  ep_inv s fl -> norm now ->
  ep_inv (CHECK_SINGLETON now s) fl /\ singletonFlag (CHECK_SINGLETON now s) = true.
Proof.
  intros Hi Hn. unfold CHECK_SINGLETON. destruct (singletonFlag s) eqn:Es; [done|].
  split; [|done]. destruct Hi as [Hq Hf Hs]. specialize (Hf Es). rewrite Hf in Hs.
  destruct Hs as (Ha & -> & _). split; simpl; [by intros; apply init_wf|done|]. by rewrite Hf.
Qed.

(** The first use carves the slots out of the static array. *)
Lemma factory_inv s fl :
  ep_inv s fl -> singletonFlag s = true ->
  exists s', TIMEEVENT_FACTORY_SINGLETON s = Some s' /\ ep_inv s' fl
    /\ timeEventFactoryFlag s' = true /\ singletonFlag s' = true
    /\ waitQueue s' = waitQueue s /\ trace s' = trace s /\ transports s' = transports s.
Proof.
  intros Hi Hsg. unfold TIMEEVENT_FACTORY_SINGLETON.
  destruct (timeEventFactoryFlag s) eqn:Ef; [exists s; by split_and!|].
  destruct Hi as [Hq Hf Hs]. rewrite Ef in Hs. destruct Hs as (Ha & -> & Hempty).
  destruct (init_state WORD word_pos a0 (mem s) a0_valid a0_invalid) as (m & E & Hst).
  rewrite Ha, E. simpl. eexists. split; [done|]. split; [|by split_and!].
  split; simpl; [done|congruence|]. split; [done|]. exists (slots (initialised WORD a0)).
  by rewrite (Hempty Hsg).
Qed.

(** The invariant once the flags are up. *)
Record ep_running (s : ep) (fl : list Z) (free : list Z) : Prop := {
  er_queue : TimeList.wf (waitQueue s);
  er_single : singletonFlag s = true;
  er_factory : timeEventFactoryFlag s = true;
  er_alloc : epTimeEventAlloc s = initialised WORD a0;
  er_slots : slot_state (initialised WORD a0) (mem s) free (addrs (waitQueue s) ++ fl)
}.

Lemma running_inv s fl free : ep_running s fl free -> ep_inv s fl.
Proof.
  intros [? ? Hf ? ?]. split; [done|congruence|]. rewrite Hf. eauto.
Qed.

Lemma inv_running s fl :
  ep_inv s fl -> singletonFlag s = true -> timeEventFactoryFlag s = true -> exists free, ep_running s fl free.
Proof.
  intros [Hq _ Hs] Hsg Hf. rewrite Hf in Hs. destruct Hs as (Ha & free & Hst).
  exists free. split; auto.
Qed.

Lemma slot_state_swap h free l l' :
  Permutation l l' -> slot_state (initialised WORD a0) h free l ->
  slot_state (initialised WORD a0) h free l'.
Proof. intros Hp [? ?]. split; [done|]. by rewrite <- Hp. Qed.

Lemma recycle_ok p s fl :
  ep_inv s (p :: fl) -> singletonFlag s = true ->
  exists s', epFactoryRecyleTimeEvent p s = Some (0, s') /\ ep_inv s' fl
    /\ singletonFlag s' = true /\ waitQueue s' = waitQueue s /\ trace s' = trace s
    /\ transports s' = transports s.
Proof.
  intros Hi Hsg. destruct (factory_inv s _ Hi Hsg) as (s1 & E & Hi1 & Hf & Hsg1 & Hw & Ht & Htr).
  unfold epFactoryRecyleTimeEvent. rewrite E. simpl.
  destruct (inv_running s1 _ Hi1 Hsg1 Hf) as (free & Hr). pose proof Hr as [Hq _ _ Ha Hst].
  rewrite Ha.
  destruct (free_state WORD word_pos _ (mem s1) free (addrs (waitQueue s1) ++ fl) p a0_valid) as (m & Em & Hst').
  { eapply slot_state_swap; [|exact Hst]. by rewrite <- Permutation_middle. }
  rewrite Em. simpl. eexists. split; [done|]. split; [|by split_and!].
  eapply running_inv. by split.
Qed.

Lemma create_ok s fl :
  ep_inv s fl -> singletonFlag s = true ->
  exists p s', epFactoryCreateTimeEvent s = Some (p, s') /\ singletonFlag s' = true
    /\ waitQueue s' = waitQueue s /\ trace s' = trace s /\ transports s' = transports s
    /\ ((p = NULL /\ ep_inv s' fl /\
           length (addrs (waitQueue s) ++ fl) = length (slots (initialised WORD a0)))
        \/ (p <> NULL /\ ep_inv s' (p :: fl))).
Proof.
  intros Hi Hsg. destruct (factory_inv s _ Hi Hsg) as (s1 & E & Hi1 & Hf & Hsg1 & Hw & Ht & Htr).
  unfold epFactoryCreateTimeEvent. rewrite E. simpl.
  destruct (inv_running s1 _ Hi1 Hsg1 Hf) as (free & Hr). pose proof Hr as [Hq _ _ Ha Hst].
  rewrite Ha.
  pose proof (malloc_state WORD _ (mem s1) free _ ALARM_NODE a0_valid Hst) as Hm.
  specialize (Hm ltac:(unfold ALARM_NODE in *; simpl in *; lia)).
  destruct free as [|x free].
  - rewrite Hm. simpl. eexists _, _. split; [done|]. split_and!; try done. left.
    split_and!; [done|eapply running_inv; by split|].
    destruct Hst as [_ Hp]. apply Permutation_length in Hp. by rewrite <- Hw.
  - destruct Hm as (m & Em & Hst'). rewrite Em. simpl. eexists _, _. split; [done|].
    split_and!; try done. right. split.
    + destruct (slot_state_used WORD word_pos _ _ _ _ a0_valid Hst) as [_ Hin].
      specialize (Hin x ltac:(set_solver)). apply (slots_range WORD word_pos _ _ a0_valid) in Hin.
      destruct a0_valid as (_ & _ & _ & Hc & _). unfold NULL. simpl in *. lia.
    + eapply running_inv. split; try done. eapply slot_state_swap; [|exact Hst']. simpl.
      by rewrite <- Permutation_middle.
Qed.

Lemma set_queue_inv s q fl fl' :
  ep_inv s fl -> singletonFlag s = true -> timeEventFactoryFlag s = true -> TimeList.wf q ->
  Permutation (addrs (waitQueue s) ++ fl) (addrs q ++ fl') -> ep_inv (set_queue s q) fl'.
Proof.
  intros Hi Hsg Hf Hq Hp. destruct (inv_running s _ Hi Hsg Hf) as (free & [_ _ _ Ha Hst]).
  eapply running_inv. split; try done. by eapply slot_state_swap.
Qed.

(** With the same events the factory need not have run. *)
Lemma set_queue_same s q fl :
  ep_inv s fl -> singletonFlag s = true -> TimeList.wf q -> addrs q = addrs (waitQueue s) ->
  ep_inv (set_queue s q) fl.
Proof.
  intros [Hq Hf Hs] Hsg Hwf E. split; simpl; [done|done|]. by rewrite E.
Qed.

Lemma created_factory s p s' : epFactoryCreateTimeEvent s = Some (p, s') -> timeEventFactoryFlag s' = true.
Proof.
  unfold epFactoryCreateTimeEvent, TIMEEVENT_FACTORY_SINGLETON. intros E.
  apply bind_Some in E as (s1 & E1 & E). apply bind_Some in E as ([q m] & _ & E). simplify_eq.
  destruct (timeEventFactoryFlag s) eqn:Ef; [by simplify_eq|].
  apply bind_Some in E1 as ([[r a] m'] & _ & E1). by simplify_eq.
Qed.

Lemma callLater_ok now sec usec h p s fl :
  ep_inv s fl -> norm now -> norm (mkTv sec usec) ->
  exists r s', epCallLater now sec usec h p s = Some (r, s') /\ ep_inv s' fl
    /\ singletonFlag s' = true /\ trace s' = trace s /\ transports s' = transports s.
Proof.
  intros Hi Hn Hd. destruct (singleton_inv now s fl Hi Hn) as [Hi1 Hsg]. unfold epCallLater.
  assert (trace (CHECK_SINGLETON now s) = trace s /\ transports (CHECK_SINGLETON now s) = transports s)
    as [Ht Htr] by (unfold CHECK_SINGLETON; by destruct (singletonFlag s)).
  set (s1 := CHECK_SINGLETON now s) in *. case_if; [by exists (-1), s1|].
  destruct (create_ok s1 fl Hi1 Hsg) as (q & s2 & E & Hsg2 & Hw & Ht2 & Htr2 & Hq).
  rewrite E. cbn [mbind option_bind]. destruct Hq as [(-> & Hi2 & _)|(Hne & Hi2)].
  - rewrite Z.eqb_refl. eexists _, _. split; [done|]. split_and!; congruence || done.
  - rewrite (proj2 (Z.eqb_neq q NULL)) by done.
    set (node := mkNode _ _ _ _ _). pose proof (ei_queue _ _ Hi2 Hsg2) as Hwf.
    destruct (addrs_add now (waitQueue s2) q node Hwf Hn Hd) as [Hwf' Hp].
    destruct (addAlarmEventNode now (waitQueue s2) (q, node)) as [ret q']. simpl in Hp, Hwf'.
    eexists _, _. split; [done|]. split_and!; try (simpl; congruence || done).
    eapply set_queue_inv; [exact Hi2|done|by eapply created_factory|done|]. rewrite Hp. simpl.
    by rewrite <- Permutation_middle.
Qed.

Lemma cancel_ok now tok s fl :
  ep_inv s fl -> norm now -> singletonFlag s = true ->
  exists r s', epCancelCall now tok s = Some (r, s') /\ ep_inv s' fl
    /\ singletonFlag s' = true /\ trace s' = trace s /\ transports s' = transports s.
Proof.
  intros Hi Hn Hsg. unfold epCancelCall. rewrite Hsg. simpl.
  pose proof (ei_queue _ _ Hi Hsg) as Hwf.
  pose proof (addrs_del now (waitQueue s) tok Hwf Hn) as Hd.
  destruct (delAlarmEventNode now (waitQueue s) tok) as [[[p n]|] q]; destruct Hd as [Hq Hp]; simpl in Hp.
  - destruct (timeEventFactoryFlag s) eqn:Ef.
    + destruct (recycle_ok p (set_queue s q) fl) as (s' & E & Hi' & ? & ? & ? & ?); [|done|by exists 0, s'; split_and!].
      eapply set_queue_inv; try done. rewrite Hp. simpl. by rewrite <- Permutation_middle.
    + destruct Hi as [_ _ Hs]. rewrite Ef in Hs. destruct Hs as (_ & _ & Hempty).
      rewrite (Hempty Hsg) in Hp. by apply Permutation_nil_cons in Hp.
  - eexists _, _. split; [done|]. split_and!; try done. by apply set_queue_same.
Qed.

(** ** Callbacks, dispatch and turns *)

Hypothesis reaction_ok : forall a, Forall (call_ok a) (reaction a).

(** A registered transport stays registered. *)
Definition tr_ok (s : ep) (t : Z) : Prop :=
  exists d vt, transports s !! t = Some (mkTransport d (Some vt)).

(** What a part of a turn does when it ends in [s']. *)
Record ep_step (s s' : ep) (fl : list Z) : Prop := {
  es_inv : ep_inv s' fl;
  es_single : singletonFlag s' = true;
  es_targets : targets_ok (transports s');
  es_tr : forall t, tr_ok s t -> tr_ok s' t;
  es_trace : trace s `prefix_of` trace s'
}.

Lemma ep_step_refl s fl :
  ep_inv s fl -> singletonFlag s = true -> targets_ok (transports s) -> ep_step s s fl.
Proof. by split. Qed.

Lemma ep_step_trans s1 s2 s3 fl : ep_step s1 s2 fl -> ep_step s2 s3 fl -> ep_step s1 s3 fl.
Proof. intros [_ _ _ H1 T1] [? ? ? H2 T2]. split; auto. by etrans. Qed.

Lemma ep_step_same s s' fl :
  ep_inv s' fl -> singletonFlag s' = true -> targets_ok (transports s) ->
  trace s `prefix_of` trace s' -> transports s' = transports s -> ep_step s s' fl.
Proof.
  intros ? ? Ht ? E. split; try done; [by rewrite E|]. intros t. unfold tr_ok. by rewrite E.
Qed.

Lemma log_inv a s fl : ep_inv s fl -> ep_inv (log a s) fl.
Proof. by intros [? ? ?]. Qed.

Lemma log_step a s fl :
  ep_inv s fl -> singletonFlag s = true -> targets_ok (transports s) -> ep_step s (log a s) fl.
Proof. intros. apply ep_step_same; try done; [by apply log_inv|by apply prefix_app_r]. Qed.

(** Writing a transport that has handlers. *)
Lemma set_transport_step s t d vt fl :
  ep_inv s fl -> singletonFlag s = true -> targets_ok (transports s) ->
  ep_step s (set_transport s t (mkTransport d (Some vt))) fl.
Proof.
  intros Hi Hsg Htg. split; simpl; [by destruct Hi|done| | |done].
  - intros a now t' tr Hc [[-> <-]|[_ E]]%lookup_insert_Some; [done|by eapply Htg].
  - intros t' (d' & vt' & Ht'). unfold tr_ok. simpl. destruct (decide (t' = t)) as [->|].
    + rewrite lookup_insert_eq. eauto.
    + rewrite lookup_insert_ne by done. eauto.
Qed.

(** The open transports. *)
Definition is_open (tr : epTransport) : bool := negb (t_desc tr =? -1).
Definition n_open (s : ep) : nat := size (filter (fun p => is_open p.2) (transports s)).

Lemma n_open_closed s t tr v :
  transports s !! t = Some tr -> is_open tr -> ~ is_open v ->
  n_open s = S (n_open (set_transport s t v)).
Proof.
  intros Ht Ho Hv. unfold n_open. simpl. rewrite map_filter_insert_False by done.
  rewrite map_filter_delete. symmetry.
  rewrite <- (insert_delete_id (filter (fun p : Z * epTransport => is_open p.2) (transports s)) t tr) at 2
    by (by apply map_lookup_filter_Some).
  by rewrite map_size_insert_None by apply lookup_delete_eq.
Qed.

Lemma n_open_size s : (n_open s <= size (transports s))%nat.
Proof. unfold n_open. apply map_size_filter. Qed.

Lemma add_state now ok t s : (epAddTransport now ok t s).2 = CHECK_SINGLETON now s.
Proof. unfold epAddTransport. repeat case_match; done. Qed.

(** The calls of one callback, for any [close] that is as good as
    [epCloseTransport] on at most [bound] open transports; the callback of a
    close leaves no more of them open. *)
Section exec_ok.
Variable close : timeval -> Z -> ep -> option (Z * ep).
Variables (bound : nat) (fl : list Z).
Hypothesis close_ok : forall now t s,
  ep_inv s fl -> singletonFlag s = true -> targets_ok (transports s) ->
  (n_open s <= bound)%nat -> (forall tr, transports s !! t = Some tr -> is_Some (t_vptr tr)) ->
  exists r s', close now t s = Some (r, s') /\ ep_step s s' fl /\ (n_open s' <= n_open s)%nat.

Lemma exec_call_closing x c s :
  call_ok (AClose x) c -> c ∈ reaction (AClose x) ->
  ep_inv s fl -> singletonFlag s = true -> targets_ok (transports s) -> (n_open s <= bound)%nat ->
  exists s', exec_call close c s = Some s' /\ ep_step s s' fl /\ (n_open s' <= n_open s)%nat.
Proof.
  intros Hc Hin Hi Hsg Htg Hb. destruct c as [now sec usec h p|now tok|now ok t fd vt|now t]; simpl in Hc |- *.
  - destruct Hc as [Hn Hd]. destruct (callLater_ok now sec usec h p s fl Hi Hn Hd) as (r & s1 & -> & ? & ? & Ht & Htr).
    exists s1. split; [done|]. split; [by apply ep_step_same; rewrite ?Ht|]. unfold n_open. by rewrite Htr.
  - destruct (cancel_ok now tok s fl Hi Hc Hsg) as (r & s1 & -> & ? & ? & Ht & Htr).
    exists s1. split; [done|]. split; [by apply ep_step_same; rewrite ?Ht|]. unfold n_open. by rewrite Htr.
  - by destruct Hc as [_ []%(fun f => f x)].
  - destruct (close_ok now t s Hi Hsg Htg Hb) as (r & s1 & -> & ? & ?); [|by exists s1].
    intros tr. by apply (Htg _ _ _ _ Hin).
Qed.

Lemma exec_calls_closing x cs s :
  Forall (call_ok (AClose x)) cs -> Forall (fun c => c ∈ reaction (AClose x)) cs ->
  ep_inv s fl -> singletonFlag s = true -> targets_ok (transports s) -> (n_open s <= bound)%nat ->
  exists s', exec_calls close cs s = Some s' /\ ep_step s s' fl /\ (n_open s' <= n_open s)%nat.
Proof.
  intros Hcs. revert s. induction Hcs as [|c cs Hc Hcs IH]; intros s Hin Hi Hsg Htg Hb; cbn [exec_calls].
  { exists s. split; [done|]. split; [by apply ep_step_refl|done]. }
  apply Forall_cons in Hin as [Hin Hins].
  destruct (exec_call_closing x c s Hc Hin Hi Hsg Htg Hb) as (s1 & -> & Hs1 & Hn1). cbn [mbind option_bind].
  pose proof Hs1 as [Hi1 Hsg1 Htg1 _ _].
  destruct (IH s1 Hins Hi1 Hsg1 Htg1 ltac:(lia)) as (s2 & -> & Hs2 & Hn2).
  exists s2. split; [done|]. split; [by eapply ep_step_trans|lia].
Qed.
End exec_ok.

(** Every nested close finds one transport less open: the fuel is enough. *)
Lemma close_nested_ok fuel : forall fl now t s,
  ep_inv s fl -> singletonFlag s = true -> targets_ok (transports s) -> (n_open s < fuel)%nat ->
  (forall tr, transports s !! t = Some tr -> is_Some (t_vptr tr)) ->
  exists r s', close_nested fuel now t s = Some (r, s') /\ ep_step s s' fl /\ (n_open s' <= n_open s)%nat.
Proof.
  induction fuel as [|fuel IH]; intros fl now t s Hi Hsg Htg Hb Ht; [lia|].
  cbn [close_nested]. unfold CHECK_SINGLETON. rewrite Hsg.
  destruct (transports s !! t) as [tr|] eqn:Et;
    [|exists 1, s; split; [done|]; split; [by apply ep_step_refl|done]].
  destruct (Z.eqb_spec (t_desc tr) (-1)) as [|Hd];
    [exists 1, s; split; [done|]; split; [by apply ep_step_refl|done]|].
  destruct (Ht tr eq_refl) as [vt Hvt]. rewrite Hvt. cbn [mbind option_bind].
  pose proof (log_step (ASysClose (t_desc tr)) s fl Hi Hsg Htg) as S1. set (s1 := log _ s) in *.
  pose proof (set_transport_step s1 t (-1) vt fl (es_inv _ _ _ S1) (es_single _ _ _ S1) (es_targets _ _ _ S1)) as S2.
  assert (Hno : n_open s = S (n_open (set_transport s1 t (mkTransport (-1) (Some vt))))).
  { apply (n_open_closed s1 t tr); [done| |unfold is_open; simpl; by intros []].
    unfold is_open. by rewrite (proj2 (Z.eqb_neq _ _)). }
  pose proof (ep_step_trans _ _ _ _ S1 S2) as S12. set (s2 := set_transport _ _ _) in *.
  destruct (handleClose vt); [|by exists 0, s2; split_and!; [| |lia]].
  pose proof (log_step (AClose t) s2 fl (es_inv _ _ _ S12) (es_single _ _ _ S12) (es_targets _ _ _ S12)) as S3.
  destruct (exec_calls_closing (close_nested fuel) (n_open s2) fl) with (x := t) (cs := reaction (AClose t))
    (s := log (AClose t) s2) as (s4 & -> & S4 & Hn4); try apply S3; [|done| |done|].
  - intros now' t' s' ? ? ? ? ?. apply IH; try done. lia.
  - by apply Forall_forall.
  - exists 0, s4. split; [done|]. split; [|change (n_open (log (AClose t) s2)) with (n_open s2) in Hn4; lia].
    eapply ep_step_trans; [exact S12|]. by eapply ep_step_trans.
Qed.

Lemma close_ok fl now t s :
  ep_inv s fl -> singletonFlag s = true -> targets_ok (transports s) ->
  (forall tr, transports s !! t = Some tr -> is_Some (t_vptr tr)) ->
  exists r s', epCloseTransport now t s = Some (r, s') /\ ep_step s s' fl.
Proof.
  intros Hi Hsg Htg Ht. pose proof (n_open_size s).
  destruct (close_nested_ok (S (size (transports s))) fl now t s Hi Hsg Htg ltac:(lia) Ht) as (r & s' & E & ? & _).
  by exists r, s'.
Qed.

Lemma exec_call_ok a c s fl :
  call_ok a c -> c ∈ reaction a -> ep_inv s fl -> singletonFlag s = true -> targets_ok (transports s) ->
  exists s', exec_call epCloseTransport c s = Some s' /\ ep_step s s' fl.
Proof.
  intros Hc Hin Hi Hsg Htg. destruct c as [now sec usec h p|now tok|now ok t fd vt|now t]; simpl in Hc |- *.
  - destruct Hc as [Hn Hd]. destruct (callLater_ok now sec usec h p s fl Hi Hn Hd) as (r & s1 & -> & ? & ? & Ht & Htr).
    exists s1. split; [done|]. by apply ep_step_same; rewrite ?Ht.
  - destruct (cancel_ok now tok s fl Hi Hc Hsg) as (r & s1 & -> & ? & ? & Ht & Htr).
    exists s1. split; [done|]. by apply ep_step_same; rewrite ?Ht.
  - eexists. split; [done|]. rewrite add_state. unfold CHECK_SINGLETON. simpl. rewrite Hsg.
    by apply set_transport_step.
  - destruct (close_ok fl now t s Hi Hsg Htg) as (r & s1 & -> & ?); [|by exists s1].
    intros tr. by apply (Htg _ _ _ _ Hin).
Qed.

Lemma exec_calls_ok a cs s fl :
  Forall (call_ok a) cs -> Forall (fun c => c ∈ reaction a) cs ->
  ep_inv s fl -> singletonFlag s = true -> targets_ok (transports s) ->
  exists s', exec_calls epCloseTransport cs s = Some s' /\ ep_step s s' fl.
Proof.
  intros Hcs. revert s. induction Hcs as [|c cs Hc Hcs IH]; intros s Hin Hi Hsg Htg; cbn [exec_calls].
  { exists s. split; [done|]. by apply ep_step_refl. }
  apply Forall_cons in Hin as [Hin Hins].
  destruct (exec_call_ok a c s fl Hc Hin Hi Hsg Htg) as (s1 & -> & Hs1). cbn [mbind option_bind].
  destruct (IH s1 Hins) as (s2 & -> & Hs2); try apply Hs1.
  exists s2. split; [done|]. by eapply ep_step_trans.
Qed.

Lemma callback_ok a s fl :
  ep_inv s fl -> singletonFlag s = true -> targets_ok (transports s) ->
  exists s', callback a s = Some s' /\ ep_step (log a s) s' fl.
Proof.
  intros Hi Hsg Htg. apply (exec_calls_ok a (reaction a) (log a s) fl); try done.
  - by apply Forall_forall.
  - by apply log_inv.
Qed.

Definition sentinel_quiet (s : ep) : Prop :=
  events (waitQueue s) = [] -> is_due (tvRemain (eventHead (waitQueue s))) = false.

(** The timer part of a turn: the callback of the event [handleAlarmEvent]
    took off the queue runs with the parameter it was queued with, and its
    slot comes back. *)
Lemma handle_timers_ok now s :
  ep_inv s [] -> singletonFlag s = true -> targets_ok (transports s) -> norm now -> sentinel_quiet s ->
  exists s', handle_timers now s = Some s' /\ ep_step s s' []
    /\ match handleAlarmEvent now (waitQueue s) with
       | (FEvent e, _) => trace s ++ [ATimer (reserved e.2) (cbParam e.2)] `prefix_of` trace s'
       | _ => trace s' = trace s
       end.
Proof.
  intros Hi Hsg Htg Hn Hq. pose proof (ei_queue _ _ Hi Hsg) as Hwf.
  pose proof (addrs_handle now (waitQueue s) Hwf Hn) as Hh. unfold handle_timers.
  destruct (handleAlarmEvent now (waitQueue s)) as [[|e|] q].
  - destruct Hh as [Hwf' E]. eexists. split; [done|]. split; [|done].
    apply ep_step_same; try done. by apply set_queue_same.
  - destruct Hh as [Hwf' E]. unfold epTimeOutHandler.
    assert (Hf : timeEventFactoryFlag s = true).
    { destruct (timeEventFactoryFlag s) eqn:Ef; [done|]. destruct Hi as [_ _ Hs]. rewrite Ef in Hs.
      destruct Hs as (_ & _ & Hempty). by rewrite (Hempty Hsg) in E. }
    destruct (callback_ok (ATimer (reserved e.2) (cbParam e.2)) (set_queue s q) [e.1])
      as (s1 & E1 & [Hi1 Hsg1 Htg1 Htr1 Ht1]); [|done|done|].
    { eapply set_queue_inv; try done. rewrite E, app_nil_r. solve_Permutation. }
    rewrite E1. cbn [mbind option_bind].
    destruct (recycle_ok e.1 s1 [] Hi1 Hsg1) as (s2 & E2 & Hi2 & Hsg2 & _ & Ht2 & Htr2).
    rewrite E2. cbn [mbind option_bind]. exists s2. split; [done|]. rewrite Ht2. split; [|exact Ht1].
    split; [done|done|by rewrite Htr2| |].
    + intros t Ht. unfold tr_ok. rewrite Htr2. by apply Htr1.
    + rewrite Ht2. etrans; [|exact Ht1]. by apply prefix_app_r.
  - destruct Hh as [Hev Hdue]. rewrite (Hq Hev) in Hdue. done.
Qed.

Lemma optional_callback_ok (b : bool) a s :
  ep_inv s [] -> singletonFlag s = true -> targets_ok (transports s) ->
  exists s', (if b then callback a s else Some s) = Some s' /\ ep_step s s' [].
Proof.
  intros Hi Hsg Htg. destruct b; [|exists s; split; [done|]; by apply ep_step_refl].
  destruct (callback_ok a s [] Hi Hsg Htg) as (s' & E & Hs). exists s'. split; [done|].
  eapply ep_step_trans; [by apply (log_step a)|done].
Qed.

Lemma dispatch_ok now ev s :
  ep_inv s [] -> singletonFlag s = true -> targets_ok (transports s) -> tr_ok s ev.1 ->
  exists s', dispatch now ev s = Some s' /\ ep_step s s' [].
Proof.
  intros Hi Hsg Htg Ht. destruct ev as [t mask]. pose proof Ht as (d & vt & E). simpl in E.
  unfold dispatch. rewrite E. cbn [mbind option_bind].
  destruct (negb (Z.land mask (Z.lor EPOLLHUP EPOLLERR) =? 0)).
  - destruct (close_ok [] now t s Hi Hsg Htg) as (r & s' & -> & Hs).
    { intros tr. rewrite E. by intros [= <-]. }
    cbn [mbind option_bind]. by exists s'.
  - cbn [t_vptr mbind option_bind].
    destruct (optional_callback_ok (negb (Z.land mask EPOLLIN =? 0) && handleRead vt) (ARead t) s Hi Hsg Htg)
      as (s1 & -> & S1). cbn [mbind option_bind]. pose proof S1 as [Hi1 Hsg1 Htg1 _ _].
    destruct (optional_callback_ok (negb (Z.land mask EPOLLOUT =? 0) && handleWrite vt) (AWrite t) s1 Hi1 Hsg1 Htg1)
      as (s2 & E2 & S2). exists s2. split; [exact E2|]. by eapply ep_step_trans.
Qed.

Lemma dispatch_all_ok now evs s :
  ep_inv s [] -> singletonFlag s = true -> targets_ok (transports s) -> Forall (fun ev => tr_ok s ev.1) evs ->
  exists s', dispatch_all now evs s = Some s' /\ ep_step s s' [].
Proof.
  revert s. induction evs as [|ev evs IH]; intros s Hi Hsg Htg Hev; cbn [dispatch_all].
  { exists s. split; [done|]. by apply ep_step_refl. }
  apply Forall_cons in Hev as [He Hev].
  destruct (dispatch_ok now ev s Hi Hsg Htg He) as (s1 & -> & S1). cbn [mbind option_bind].
  pose proof S1 as [Hi1 Hsg1 Htg1 Htr1 _].
  destruct (IH s1 Hi1 Hsg1 Htg1) as (s2 & E2 & S2).
  { eapply Forall_impl; [done|]. auto. }
  exists s2. split; [done|]. by eapply ep_step_trans.
Qed.

(** The events [epoll_wait] reports are registered transports. *)
Definition result_ok (s : ep) (res : wait_result) : Prop :=
  match res with WaitEvents evs => Forall (fun ev => tr_ok s ev.1) evs | _ => True end.

Lemma turn_ok now now' res s :
  ep_inv s [] -> singletonFlag s = true -> targets_ok (transports s) ->
  norm now -> norm now' -> sentinel_quiet s -> result_ok s res ->
  exists go s', epAction_turn now now' res s
                = Some (wait_timeout (timeToNextAlarmEvent now (waitQueue s)).1, go, s')
    /\ ep_step s s' [].
Proof.
  intros Hi Hsg Htg Hn Hn' Hq Hres. unfold epAction_turn, timeToNextAlarmEvent. cbv zeta iota.
  set (s1 := set_queue s (synchronize now (waitQueue s))). simpl fst.
  pose proof (ei_queue _ _ Hi Hsg) as Hwf.
  assert (Hi1 : ep_inv s1 []).
  { apply set_queue_same; [done|done|by apply synchronize_spec|by apply addrs_sync]. }
  assert (S1 : ep_step s s1 []) by by apply ep_step_same.
  assert (Hq1 : sentinel_quiet s1).
  { unfold sentinel_quiet. simpl. intros Hev. apply Hq. destruct (events (waitQueue s)) as [|[p n] es]; [done|].
    simpl in Hev. by destruct (time_overthan _ _). }
  destruct res as [| |evs].
  - destruct (handle_timers_ok now' s1 Hi1 Hsg Htg Hn' Hq1) as (s2 & -> & S2 & _).
    cbn [mbind option_bind]. eexists _, _. split; [done|]. by eapply ep_step_trans.
  - eexists _, _. by split.
  - destruct (handle_timers_ok now' s1 Hi1 Hsg Htg Hn' Hq1) as (s2 & -> & S2 & _).
    cbn [mbind option_bind]. pose proof S2 as [Hi2 Hsg2 Htg2 Htr2 _].
    destruct (dispatch_all_ok now' evs s2 Hi2 Hsg2 Htg2) as (s3 & -> & S3).
    { eapply Forall_impl; [exact Hres|]. intros ev Hev. by apply Htr2. }
    cbn [mbind option_bind]. eexists _, _. split; [done|].
    eapply ep_step_trans; [done|]. by eapply ep_step_trans.
Qed.

(** ** Reachable states *)

(** The static initial state of the file, with [m] the memory of the slots and
    [q] the zeroed queue. *)
Definition ep_start (q : timeListType) (m : H) (tr : gmap Z epTransport) : ep :=
  mkEp (-1) [] q false false a0 m tr [].

Inductive ep_reach : ep -> Prop :=
| reach_start q m tr : targets_ok tr -> ep_reach (ep_start q m tr)
| reach_later now sec usec h p s r s' :
    ep_reach s -> norm now -> norm (mkTv sec usec) ->
    epCallLater now sec usec h p s = Some (r, s') -> ep_reach s'
| reach_cancel now tok s r s' :
    ep_reach s -> norm now -> epCancelCall now tok s = Some (r, s') -> ep_reach s'
| reach_add now ok t s r s' :
    ep_reach s -> norm now -> epAddTransport now ok t s = (r, s') -> ep_reach s'
| reach_turn now now' res s time_out go s' :
    ep_reach s -> singletonFlag s = true -> norm now -> norm now' -> sentinel_quiet s -> result_ok s res ->
    epAction_turn now now' res s = Some (time_out, go, s') -> ep_reach s'.

Lemma reach_inv s : ep_reach s -> ep_inv s [] /\ targets_ok (transports s).
Proof.
  induction 1 as [q m tr Htg|now sec usec h p s r s' _ IH Hn Hd E|now tok s r s' _ IH Hn E
                 |now ok t s r s' _ IH Hn E|now now' res s to go s' _ IH Hsg Hn Hn' Hq Hres E].
  - split; [by split|done].
  - destruct IH as [IH Htg]. destruct (callLater_ok now sec usec h p s [] IH Hn Hd) as (r' & s'' & E' & ? & _ & _ & Htr).
    rewrite E' in E. simplify_eq. by rewrite Htr.
  - destruct IH as [IH Htg]. destruct (singletonFlag s) eqn:Hsg; [|by unfold epCancelCall in E; rewrite Hsg in E].
    destruct (cancel_ok now tok s [] IH Hn Hsg) as (r' & s'' & E' & ? & _ & _ & Htr). rewrite E' in E.
    simplify_eq. by rewrite Htr.
  - destruct IH as [IH Htg]. pose proof (add_state now ok t s) as Ea. rewrite E in Ea. simpl in Ea. subst s'.
    split; [by apply singleton_inv|]. unfold CHECK_SINGLETON. by destruct (singletonFlag s).
  - destruct IH as [IH Htg]. destruct (turn_ok now now' res s IH Hsg Htg Hn Hn' Hq Hres) as (go' & s'' & E' & [? _ ? _ _]).
    rewrite E' in E. by simplify_eq.
Qed.
End epcore.

Lemma wait_timeout_spec tv :
  norm tv -> us tv < 2 ^ 31 * 1000 -> wait_timeout tv = us tv / 1000.
Proof.
  intros [Hs Hu] Hb. unfold wait_timeout, us, MILLION in *. rewrite Z.quot_div_nonneg by lia.
  rewrite (wraps_id 32 (tv_sec tv * 1000)) by width_lia.
  assert (E : (tv_sec tv * 1000000 + tv_usec tv) / 1000 = tv_sec tv * 1000 + tv_usec tv / 1000) by div_lia.
  rewrite E. rewrite wraps_id; [done|lia|]. div_lia.
Qed.

(** A timer 2147484 seconds ahead makes the timeout negative: [epoll_wait] then
    waits for ever. *)
Lemma wait_timeout_overflows : wait_timeout (mkTv 2147484 0) = -2147483296.
Proof. vm_compute. reflexivity. Qed.

Section claims.
Context {H : Type} {IL : IntrusiveList H}.
Variables (epfd tmo : Z) (reaction : act -> list ep_call) (a0 : slot_alloc_t).
Hypothesis a0_invalid : slot_invalid a0 = false.
Hypothesis a0_valid : valid WORD (initialised WORD a0).
Hypothesis a0_fits : ALARM_NODE <= aligned_slot WORD (slotSize a0).
Hypothesis reaction_ok : forall a, Forall (call_ok a) (reaction a).

Lemma running_nodup s fl :
  ep_inv a0 s fl -> singletonFlag s = true ->
  NoDup (addrs (waitQueue s)) /\ (forall p, p ∈ addrs (waitQueue s) -> p ∈ slots (initialised WORD a0))
  /\ (length (addrs (waitQueue s) ++ fl) <= length (slots (initialised WORD a0)))%nat.
Proof.
  intros [_ _ Hs] Hsg. destruct (timeEventFactoryFlag s).
  - destruct Hs as (_ & free & Hst). pose proof Hst as [_ Hp].
    destruct (slot_state_used WORD word_pos _ _ _ _ a0_valid Hst) as [Hnd Hin].
    apply NoDup_app in Hnd as (_ & _ & Hnd). apply NoDup_app in Hnd as (Hnd & _).
    apply Permutation_length in Hp. rewrite length_app in Hp.
    split_and!; [done| |lia]. intros p Hx. apply Hin. set_solver.
  - destruct Hs as (_ & -> & Hempty). rewrite (Hempty Hsg). split_and!; [constructor|set_solver|simpl; lia].
Qed.

(** C6: timer nodes are neither lost nor handed out twice: in every state the
    loop can reach, whatever calls its callbacks make (queueing and cancelling
    timers with normalised times, opening transports, except from a close
    handler, and closing transports that have a table), the pending timers
    occupy distinct slots of the static array, and [epCallLater] fails exactly
    when every slot holds a pending timer; otherwise it adds one timer. *)
Theorem ep_slots_conserved s now sec usec h p :
  ep_reach epfd tmo reaction a0 s -> singletonFlag s = true ->
  norm now -> norm (mkTv sec usec) -> h <> 0 ->
  NoDup (addrs (waitQueue s)) /\ (forall q, q ∈ addrs (waitQueue s) -> q ∈ slots (initialised WORD a0))
  /\ exists r s', epCallLater epfd tmo now sec usec h p s = Some (r, s')
     /\ if decide (length (addrs (waitQueue s)) = length (slots (initialised WORD a0)))
        then r = -1 /\ addrs (waitQueue s') = addrs (waitQueue s)
        else length (addrs (waitQueue s')) = S (length (addrs (waitQueue s))).
Proof.
  intros Hr Hsg Hn Hd Hh. pose proof (reach_inv epfd tmo reaction a0 a0_invalid a0_valid a0_fits reaction_ok s Hr) as [Hi Htg].
  destruct (running_nodup s [] Hi Hsg) as (Hnd & Hin & _). split_and!; [done|done|].
  unfold epCallLater, CHECK_SINGLETON. rewrite Hsg, (proj2 (Z.eqb_neq h 0)) by done.
  destruct (create_ok a0 a0_invalid a0_valid a0_fits s [] Hi Hsg) as (q & s2 & E & Hsg2 & Hw & _ & _ & Hq).
  rewrite E. cbn [mbind option_bind]. destruct Hq as [(-> & Hi2 & Hl)|(Hne & Hi2)].
  - rewrite Z.eqb_refl. eexists _, _. split; [done|]. rewrite app_nil_r in Hl.
    rewrite decide_True by done. by rewrite Hw.
  - rewrite (proj2 (Z.eqb_neq q NULL)) by done.
    set (node := mkNode _ _ _ _ _). pose proof (ei_queue _ _ _ Hi2 Hsg2) as Hwf.
    destruct (addrs_add now (waitQueue s2) q node Hwf Hn Hd) as [Hwf' Hp].
    destruct (addAlarmEventNode now (waitQueue s2) (q, node)) as [ret q'] eqn:Ea.
    eexists _, _. split; [done|]. simpl in Hp. apply Permutation_length in Hp. simpl in Hp.
    destruct (running_nodup s2 [q] Hi2 Hsg2) as (_ & _ & Hl). rewrite length_app in Hl. simpl in Hl.
    rewrite Hw in *. rewrite decide_False by lia. simpl. lia.
Qed.

(** a pending timer that is due runs its handler: when the first event of a
    reachable state is due, the timer part of the turn calls the handler given
    to [epCallLater] with its parameter, before anything that handler makes
    happen; when none is due it calls nothing. *)
Theorem ep_timer_fires s now :
  ep_reach epfd tmo reaction a0 s -> singletonFlag s = true -> norm now -> sentinel_quiet s ->
  exists s', handle_timers epfd tmo reaction now s = Some s'
    /\ match handleAlarmEvent now (waitQueue s) with
       | (FEvent e, _) => trace s ++ [ATimer (reserved e.2) (cbParam e.2)] `prefix_of` trace s'
       | _ => trace s' = trace s
       end.
Proof.
  intros Hr Hsg Hn Hq. pose proof (reach_inv epfd tmo reaction a0 a0_invalid a0_valid a0_fits reaction_ok s Hr) as [Hi Htg].
  destruct (handle_timers_ok epfd tmo reaction a0 a0_invalid a0_valid a0_fits reaction_ok now s Hi Hsg Htg Hn Hq)
    as (s' & E & _ & Ht). eauto.
Qed.

(** C7: in a state the loop can reach, with a timer pending whose deadline is
    less than 2^31 milliseconds away, a turn of [epAction] never faults and
    never sleeps past the timer: the timeout given to [epoll_wait] is the first
    deadline in milliseconds, rounded down.  The transports [epoll_wait]
    reports are registered ones that have a table of handlers and are not
    deallocated while the turn lasts; callbacks may queue and cancel timers
    (with normalised times), close any transports that have a table, each
    close calling its own handler in turn, and, except for close handlers, open
    transports. *)
Theorem epAction_turn_ok s now now' res p d ds :
  ep_reach epfd tmo reaction a0 s -> singletonFlag s = true -> norm now -> norm now' ->
  result_ok s res ->
  remaining (synchronize now (waitQueue s)) = (p, d) :: ds -> d < 2 ^ 31 * 1000 ->
  exists time_out go s', epAction_turn epfd tmo reaction now now' res s = Some (time_out, go, s')
    /\ 0 <= time_out /\ time_out * 1000 <= d < (time_out + 1) * 1000
    /\ ep_reach epfd tmo reaction a0 s'.
Proof.
  intros Hr Hsg Hn Hn' Hres Erem Hd.
  assert (Hq : sentinel_quiet s).
  { intros Hev. unfold remaining, synchronize in Erem. by rewrite Hev in Erem. }
  pose proof (reach_inv epfd tmo reaction a0 a0_invalid a0_valid a0_fits reaction_ok s Hr) as [Hi Htg].
  destruct (turn_ok epfd tmo reaction a0 a0_invalid a0_valid a0_fits reaction_ok now now' res s
              Hi Hsg Htg Hn Hn' Hq Hres) as (go & s' & E & _).
  eexists _, go, s'. split; [exact E|].
  pose proof (ei_queue _ _ _ Hi Hsg) as Hwf.
  destruct (synchronize_spec now (waitQueue s) Hwf Hn) as [[[Hf _] _ _] _].
  unfold timeToNextAlarmEvent. simpl fst. unfold first_node.
  unfold remaining in Erem. destruct (events (synchronize now (waitQueue s))) as [|[p' n] es]; [done|].
  simpl in Erem. injection Erem as -> <- _. apply Forall_cons in Hf as [Hf _]. simpl in Hf.
  rewrite Z.add_0_l in Hd. rewrite Z.add_0_l. pose proof (us_nonneg _ Hf).
  rewrite wait_timeout_spec by done. split_and!; [div_lia|div_lia|div_lia|].
  eapply reach_turn; [exact Hr|done|exact Hn|exact Hn'|done|exact Hres|exact E].
Qed.
End claims.

(** A concrete loop: forty slots, a handler 7 that rearms itself and closes
    transport 100, and whose close closes transport 200 and itself again. *)
Definition a40 : slot_alloc_t := mkSlotAlloc 32 100 4096 1280.
Definition rearm (a : act) : list ep_call :=
  match a with
  | ATimer 7 param => [CallLater (mkTv 12 0) 1 0 7 (param + 1); CloseCall (mkTv 12 0) 100]
  | AClose 100 => [CloseCall (mkTv 12 0) 200; CloseCall (mkTv 12 0) 100]
  | _ => []
  end.

Lemma a40_valid : valid WORD (initialised WORD a40).
Proof. repeat split; try (by vm_compute); try (simpl; lia). all: unfold NULL; simpl; lia. Qed.

Lemma rearm_ok a : Forall (call_ok a) (rearm a).
Proof.
  unfold rearm. repeat case_match; repeat constructor; simpl; unfold MILLION; lia.
Qed.

Definition two_transports : gmap Z epTransport :=
  let vt := Some (mkVt true false true) in
  {[ 100 := mkTransport 3 vt; 200 := mkTransport 4 vt ]}.

Lemma two_transports_ok : targets_ok rearm two_transports.
Proof.
  intros a now t tr _ E. unfold two_transports in E. apply lookup_insert_Some in E as [[_ <-]|[_ E]]; [by eexists|].
  apply lookup_singleton_Some in E as [_ <-]. by eexists.
Qed.

Definition loop0 : ep := ep_start a40 (mkTimeList (mkNode DELAY_ZERO 0 0 0 0) [] 0 DELAY_ZERO)
                           (mkHeap ∅ ∅) two_transports.
Definition loop1 : option (Z * ep) := epCallLater 5 9 (mkTv 10 0) 2 0 7 100 loop0.

Lemma norm_small sec usec : 0 <= sec < 2 ^ 31 -> 0 <= usec < 1000000 -> norm (mkTv sec usec).
Proof. done. Qed.

Lemma loop1_reach s r : loop1 = Some (r, s) -> ep_reach 5 9 rearm a40 s.
Proof.
  intros E. unfold loop1 in E. eapply (reach_later 5 9 rearm a40 (mkTv 10 0) 2 0 7 100 loop0 r s).
  - exact (reach_start 5 9 rearm a40 _ _ _ two_transports_ok).
  - (apply norm_small; lia).
  - (apply norm_small; lia).
  - exact E.
Qed.

Lemma ep_slots_conserved_witness :
  exists r s r' s', loop1 = Some (r, s) /\ epCallLater 5 9 (mkTv 11 0) 3 0 8 0 s = Some (r', s')
    /\ length (addrs (waitQueue s')) = 2%nat.
Proof.
  destruct loop1 as [[r s]|] eqn:E; [|vm_compute in E; discriminate].
  assert (Hsg : singletonFlag s = true) by (vm_compute in E; by simplify_eq).
  assert (Hl : length (addrs (waitQueue s)) = 1%nat) by (vm_compute in E; by simplify_eq).
  destruct (ep_slots_conserved 5 9 rearm a40 eq_refl a40_valid ltac:(by vm_compute) rearm_ok
    s (mkTv 11 0) 3 0 8 0 (loop1_reach s r E) Hsg) as (_ & _ & r' & s' & E' & Hres);
    [(apply norm_small; lia)|(apply norm_small; lia)|done|].
  exists r, s, r', s'. split; [done|]. split; [done|]. rewrite Hl in Hres.
  rewrite decide_False in Hres by (vm_compute; congruence). exact Hres.
Defined.

Lemma ep_timer_fires_witness :
  exists r s s', loop1 = Some (r, s) /\ handle_timers 5 9 rearm (mkTv 12 0) s = Some s'
    /\ [ATimer 7 100] `prefix_of` trace s'.
Proof.
  destruct loop1 as [[r s]|] eqn:E; [|vm_compute in E; discriminate].
  assert (Hsg : singletonFlag s = true) by (vm_compute in E; by simplify_eq).
  destruct (ep_timer_fires 5 9 rearm a40 eq_refl a40_valid ltac:(by vm_compute) rearm_ok
    s (mkTv 12 0) (loop1_reach s r E) Hsg) as (s' & E' & Ht); [(apply norm_small; lia)| |].
  - unfold sentinel_quiet. vm_compute in E. by simplify_eq.
  - exists r, s, s'. split; [done|]. split; [done|].
    clear E' Hsg. vm_compute in E. injection E as _ <-. vm_compute in Ht. exact Ht.
Defined.

Lemma epAction_turn_ok_witness :
  exists r s time_out go s', loop1 = Some (r, s)
    /\ epAction_turn 5 9 rearm (mkTv 10 500000) (mkTv 12 0) (WaitEvents [(200, EPOLLIN)]) s
       = Some (time_out, go, s')
    /\ trace s' = [ATimer 7 100; ASysClose 3; AClose 100; ASysClose 4; AClose 200; ARead 200]
    /\ time_out * 1000 <= 1500000 < (time_out + 1) * 1000.
Proof.
  destruct loop1 as [[r s]|] eqn:E; [|vm_compute in E; discriminate].
  assert (Hsg : singletonFlag s = true) by (vm_compute in E; by simplify_eq).
  destruct (epAction_turn_ok 5 9 rearm a40 eq_refl a40_valid ltac:(by vm_compute) rearm_ok
    s (mkTv 10 500000) (mkTv 12 0) (WaitEvents [(200, EPOLLIN)]) 4096 1500000 [] (loop1_reach s r E) Hsg)
    as (t & go & s' & E' & _ & Ht & _); try (apply norm_small; lia).
  - repeat constructor. vm_compute in E. injection E as _ <-. exists 4, (mkVt true false true). by vm_compute.
  - vm_compute in E. by simplify_eq.
  - by vm_compute.
  - exists r, s, t, go, s'. split; [reflexivity|]. split; [exact E'|]. split; [|exact Ht].
    vm_compute in E. injection E as _ <-. vm_compute in E'. injection E' as _ _ <-. reflexivity.
Defined.

(** [epGetTransport] returns the first transport with the descriptor and
    unlinks it, except when it is the first of the list, which stays linked. *)
Theorem epGetTransport_spec {H} (s : @ep H) fd :
  match epGetTransport fd s with
  | (None, s') => s' = set_header s (header s) /\ Forall (fun t => t.2 <> fd) (header s)
  | (Some t, s') => t.2 = fd /\ exists l1 l2, header s = l1 ++ t :: l2
      /\ Forall (fun t => t.2 <> fd) l1
      /\ header s' = if decide (l1 = []) then header s else l1 ++ l2
  end.
Proof.
  assert (Hrest : forall l, let '(r, l') := get_rest l fd in
    match r with
    | None => l' = l /\ Forall (fun t => t.2 <> fd) l
    | Some t => t.2 = fd /\ exists l1 l2, l = l1 ++ t :: l2 /\ Forall (fun t => t.2 <> fd) l1 /\ l' = l1 ++ l2
    end).
  { induction l as [|x l IH]; simpl; [by split|]. destruct (Z.eqb_spec fd x.2) as [->|Hne].
    - split; [done|]. exists [], l. by repeat constructor.
    - destruct (get_rest l fd) as [[t|] l'].
      + destruct IH as (Ht & l1 & l2 & -> & Hf & ->). split; [done|]. exists (x :: l1), l2.
        split; [done|]. split; [by constructor|done].
      + destruct IH as [-> Hf]. split; [done|]. by constructor. }
  unfold epGetTransport. destruct (header s) as [|prev rest] eqn:Eh.
  { split; [|constructor]. rewrite <- Eh. by destruct s. }
  destruct (Z.eqb_spec fd prev.2) as [->|Hne].
  - split; [done|]. exists [], rest. rewrite decide_True by done. by split_and!.
  - specialize (Hrest rest). destruct (get_rest rest fd) as [[t|] l'].
    + destruct Hrest as (Ht & l1 & l2 & -> & Hf & ->). split; [done|]. exists (prev :: l1), l2.
      split; [done|]. split; [by constructor|]. by rewrite decide_False.
    + destruct Hrest as [-> Hf]. split; [done|]. by constructor.
Qed.
