(* ===== verification/AbsTimer.v ===== *)
(** * libnet/absTimerList.cpp: the timer queue shared by threads

    [TimedEventQ] keeps a list of pointers to heap objects ([EventUnit]), sorted
    by absolute deadline.  The heap is the finite map [units] of the live
    objects, so that an access to a deleted object gives [None].  A field that
    [new EventUnit] leaves uninitialised is [None] too.  [new_unit] is the
    allocator: an address of no live object, or 0.  Results of [gettimeofday]
    are arguments.  Each critical section of [listMutex] is one definition; the
    sequential operations compose them, and [cstep] interleaves them. *)

From S2P Require Import Prelude TimeList.
From S2P Require IoStream.

Definition MAX_PERIOD_DELAY : Z := 2146483.
Definition TV_INFINITY : timeval := mkTv 2147483647 (MILLION - 1).
Definition TV_ZERO : timeval := mkTv 0 0.

(** [while (usec >= MILLION)]: the bound is the number of iterations
    allowed. *)
Fixpoint carry_loop (fuel : nat) (tv : timeval) : option timeval :=
  if tv_usec tv <? MILLION then Some tv
  else match fuel with
  | O => None
  | S fuel => carry_loop fuel (mkTv (s32 (tv_sec tv + 1)) (tv_usec tv - MILLION))
  end.

(** At most [2^31 / MILLION] carries. *)
Definition carry (tv : timeval) : option timeval := carry_loop 2148 tv.

(** [res = now + seconds + useconds/1000000] *)
Definition time_later (timeNow : timeval) (seconds useconds : Z) : option timeval :=
  ret ← carry (mkTv (s32 (tv_sec timeNow + seconds)) (s32 (tv_usec timeNow + useconds)));
  Some (if tv_sec ret <? 0 then timeNow else ret).

(** [mseconds] is unsigned: the sum is computed in 32 bits without sign. *)
Definition time_plus (tv : timeval) (mseconds : Z) : option timeval :=
  if MAX_PERIOD_DELAY <? mseconds then Some tv
  else carry (mkTv (tv_sec tv) (s32 (u32 (tv_usec tv + u32 (mseconds * 1000))))).

(** [res = tv2 - tv1] *)
Definition time_interval (tv2 tv1 : timeval) : timeval :=
  let sec := s32 (tv_sec tv2 - tv_sec tv1) in
  let usec := s32 (tv_usec tv2 - tv_usec tv1) in
  let '(sec, usec) :=
    if usec <? 0 then (s32 (sec - 1), s32 (usec + MILLION)) else (sec, usec) in
  if sec <? 0 then TV_ZERO else mkTv sec usec.

(** In milliseconds; C division truncates. *)
Definition time_minus (tv2 tv1 : timeval) : Z :=
  s32 (s32 (s32 (tv_sec tv2 - tv_sec tv1) * 1000)
       + Z.quot (s32 (tv_usec tv2 - tv_usec tv1)) 1000).

Definition time_overthan (tv2 tv1 : timeval) : bool :=
  (tv_sec tv1 <? tv_sec tv2)
  || ((tv_sec tv2 =? tv_sec tv1) && (tv_usec tv1 <=? tv_usec tv2)).

(** ** The queue *)

Inductive EventType := TIMED_CALLBACK | TIMED_RECYCLE | PERIOD_CONDITION | PERIOD_SEMAPHORE.

#[export] Instance EventType_eq_dec : EqDecision EventType.
Proof. solve_decision. Defined.

Record EventUnit := mkUnit {
  tvAbsolute : timeval;
  type : EventType;
  handler : Z;
  idToken : option Z;
  period : option Z
}.

Record TimedEventQ := mkQ {
  units : gmap Z EventUnit;
  mList : list Z;
  listToken : Z;
  tvLastSync : timeval
}.

Definition put_unit (p : Z) (e : EventUnit) (q : TimedEventQ) : TimedEventQ :=
  mkQ (<[p := e]> (units q)) (mList q) (listToken q) (tvLastSync q).
Definition free_unit (p : Z) (q : TimedEventQ) : TimedEventQ :=
  mkQ (delete p (units q)) (mList q) (listToken q) (tvLastSync q).
Definition set_list (l : list Z) (q : TimedEventQ) : TimedEventQ :=
  mkQ (units q) l (listToken q) (tvLastSync q).

(** The constructor. *)
Definition newQ (now : timeval) : TimedEventQ := mkQ ∅ [] 1 now.

(** The destructor: every unit of the list is deleted. *)
Definition destroyQ (q : TimedEventQ) : TimedEventQ :=
  set_list [] (foldr free_unit q (mList q)).

(** The loop that finds the place of an event due at [tv], and the insertion
    there. *)
Fixpoint insert_event (us : gmap Z EventUnit) (tv : timeval) (p : Z) (l : list Z) : option (list Z) :=
  match l with
  | [] => Some [p]
  | x :: l' =>
      e ← us !! x;
      if negb (time_overthan tv (tvAbsolute e)) then Some (p :: l)
      else r ← insert_event us tv p l'; Some (x :: r)
  end.

Definition addEventInternal (p : Z) (q : TimedEventQ) : option TimedEventQ :=
  e ← units q !! p;
  l ← insert_event (units q) (tvAbsolute e) p (mList q);
  Some (set_list l q).

(** [newEntry->idToken = listToken; listToken = (listToken + 1) & 0x0FFFFFFF] *)
Definition take_token (p : Z) (q : TimedEventQ) : option (Z * TimedEventQ) :=
  e ← units q !! p;
  Some (listToken q,
        mkQ (<[p := mkUnit (tvAbsolute e) (type e) (handler e) (Some (listToken q)) (period e)]> (units q))
            (mList q) (Z.land (listToken q + 1) 268435455) (tvLastSync q)).

Definition one_shot (t : EventType) : bool :=
  match t with TIMED_CALLBACK | TIMED_RECYCLE => true | _ => false end.

Section queue.
Variable new_unit : gmap Z EventUnit -> Z.

(** The part of [addLaterEvent] before the token is drawn; [None] inside is
    the refusal. *)
Definition later_link (now : timeval) (mseconds : Z) (t : EventType) (h : Z) (q : TimedEventQ)
  : option (option Z * TimedEventQ) :=
  if (h =? 0) || (MAX_PERIOD_DELAY <? mseconds) || negb (one_shot t) then Some (None, q)
  else
    let p := new_unit (units q) in
    if p =? 0 then Some (None, q)
    else
      tv ← time_plus now mseconds;
      q ← addEventInternal p (put_unit p (mkUnit tv t h None None) q);
      Some (Some p, q).

Definition period_link (now : timeval) (mseconds : Z) (t : EventType) (h : Z) (q : TimedEventQ)
  : option (option Z * TimedEventQ) :=
  if (h =? 0) || (MAX_PERIOD_DELAY <? mseconds) || one_shot t then Some (None, q)
  else
    let p := new_unit (units q) in
    if p =? 0 then Some (None, q)
    else
      tv ← time_plus now mseconds;
      q ← addEventInternal p (put_unit p (mkUnit tv t h None (Some mseconds)) q);
      Some (Some p, q).

Definition finish_add (r : option Z * TimedEventQ) : option (Z * TimedEventQ) :=
  match r.1 with None => Some (-1, r.2) | Some p => take_token p r.2 end.

Definition addLaterEvent (now : timeval) (mseconds : Z) (t : EventType) (h : Z) (q : TimedEventQ)
  : option (Z * TimedEventQ) :=
  r ← later_link now mseconds t h q; finish_add r.

Definition addPeriodEvent (now : timeval) (mseconds : Z) (t : EventType) (h : Z) (q : TimedEventQ)
  : option (Z * TimedEventQ) :=
  r ← period_link now mseconds t h q; finish_add r.

(** Here the token is drawn under the same lock. *)
Definition addAbsTimedEvent (absTime : timeval) (t : EventType) (h : Z) (q : TimedEventQ)
  : option (Z * TimedEventQ) :=
  if h =? 0 then Some (-1, q)
  else
    let p := new_unit (units q) in
    if p =? 0 then Some (-1, q)
    else
      let q := put_unit p (mkUnit absTime t h (Some (listToken q)) None) q in
      l ← insert_event (units q) absTime p (mList q);
      Some (listToken q, mkQ (units q) l (Z.land (listToken q + 1) 268435455) (tvLastSync q)).

Definition abstimeToNextEvent (q : TimedEventQ) : option (Z * timeval) :=
  match mList q with
  | [] => Some (-1, TV_INFINITY)
  | p :: _ => e ← units q !! p; Some (0, tvAbsolute e)
  end.

(** The value and the two out parameters. *)
Definition timeToNextEvent (now : timeval) (q : TimedEventQ) : option (Z * Z * Z) :=
  '(ret, tvRet) ← abstimeToNextEvent q;
  let tvRet := time_interval tvRet now in
  Some (ret, tv_sec tvRet, tv_usec tvRet).

(** [delete ( *iter)] comes before the handler is read. *)
Fixpoint find_token (us : gmap Z EventUnit) (token : Z) (l : list Z) : option (option Z) :=
  match l with
  | [] => Some None
  | p :: l =>
      e ← us !! p; t ← idToken e;
      if t =? token then Some (Some p) else find_token us token l
  end.

(** What the critical section leaves of the queue, and the unit it has deleted. *)
Definition del_section (token : Z) (q : TimedEventQ) : option (option Z * TimedEventQ) :=
  r ← find_token (units q) token (mList q);
  match r with
  | None => Some (None, q)
  | Some p => Some (Some p, set_list (filter (fun x => x <> p) (mList q)) (free_unit p q))
  end.

(** The value returned is read from the deleted unit. *)
Definition delTimedEvent (token : Z) (q : TimedEventQ) : option (Z * TimedEventQ) :=
  '(r, q) ← del_section token q;
  match r with
  | None => Some (0, q)
  | Some p => e ← units q !! p; Some (handler e, q)
  end.

Definition isEmpty (q : TimedEventQ) : bool := match mList q with [] => true | _ => false end.

(** ** Firing *)

(** What a due event does to its handler. *)
Inductive effect := Timeout (h : Z) | Recycle (h : Z) | Signal (h : Z) | Post (h : Z).

Definition effect_of (e : EventUnit) : effect :=
  match type e with
  | TIMED_CALLBACK => Timeout (handler e)
  | TIMED_RECYCLE => Recycle (handler e)
  | PERIOD_CONDITION => Signal (handler e)
  | PERIOD_SEMAPHORE => Post (handler e)
  end.

(** [handleTimeout] of a client may use the queue. *)
Inductive qcall :=
| CLater (mseconds : Z) (t : EventType) (h : Z)
| CAbs (absTime : timeval) (t : EventType) (h : Z)
| CPeriod (mseconds : Z) (t : EventType) (h : Z)
| CDel (token : Z).

Definition exec_call (now : timeval) (c : qcall) (q : TimedEventQ) : option TimedEventQ :=
  match c with
  | CLater ms t h => snd <$> addLaterEvent now ms t h q
  | CAbs tv t h => snd <$> addAbsTimedEvent tv t h q
  | CPeriod ms t h => snd <$> addPeriodEvent now ms t h q
  | CDel token => snd <$> delTimedEvent token q
  end.

Fixpoint exec_calls (now : timeval) (cs : list qcall) (q : TimedEventQ) : option TimedEventQ :=
  match cs with
  | [] => Some q
  | c :: cs => q ← exec_call now c q; exec_calls now cs q
  end.

Variable reaction : effect -> list qcall.

(** The entries at the front that are due. *)
Fixpoint due_split (us : gmap Z EventUnit) (now : timeval) (l : list Z) : option (list Z * list Z) :=
  match l with
  | [] => Some ([], [])
  | p :: l' =>
      e ← us !! p;
      if negb (time_overthan now (tvAbsolute e)) then Some ([], l)
      else '(d, r) ← due_split us now l'; Some (p :: d, r)
  end.

(** The critical section of [handleAlarmEvent]. *)
Definition splice_due (now : timeval) (q : TimedEventQ) : option (list Z * TimedEventQ) :=
  '(d, r) ← due_split (units q) now (mList q); Some (d, set_list r q).

(** One turn of its loop over the local list; [now] is the time [gettimeofday]
    answers when a periodic event is rearmed. *)
Definition fire_one (now : timeval) (p : Z) (q : TimedEventQ) : option (effect * TimedEventQ) :=
  e ← units q !! p;
  let eff := effect_of e in
  if one_shot (type e) then
    q ← match type e with TIMED_CALLBACK => exec_calls now (reaction eff) q | _ => Some q end;
    Some (eff, free_unit p q)
  else
    ms ← period e;
    tv ← time_plus now ms;
    q ← addEventInternal p (put_unit p (mkUnit tv (type e) (handler e) (idToken e) (period e)) q);
    Some (eff, q).

Fixpoint fire_loop (clock : nat -> timeval) (i : nat) (ps : list Z) (q : TimedEventQ)
  : option (list effect * TimedEventQ) :=
  match ps with
  | [] => Some ([], q)
  | p :: ps =>
      '(eff, q) ← fire_one (clock i) p q;
      '(effs, q) ← fire_loop clock (S i) ps q;
      Some (eff :: effs, q)
  end.

Definition handleAlarmEvent (clock : nat -> timeval) (q : TimedEventQ)
  : option (list effect * TimedEventQ) :=
  '(ps, q) ← splice_due (clock 0%nat) q; fire_loop clock 1 ps q.

(** ** Dump: [fmt token ms] is the text of one entry. *)
Variable fmt : Z -> Z -> bytes.

Fixpoint dump_loop (us : gmap Z EventUnit) (now : timeval) (l : list Z) (s : IoStream.ioStream)
  : option IoStream.ioStream :=
  match l with
  | [] => Some s
  | p :: l =>
      e ← us !! p; t ← idToken e;
      '(_, s) ← IoStream.ioStreamPrint s (Some (fmt t (time_minus (tvAbsolute e) now)));
      dump_loop us now l s
  end.

Definition dump (sgn : bool) (now : timeval) (stream : option IoStream.ioStream) (q : TimedEventQ)
  : option (option IoStream.ioStream) :=
  match stream with
  | None => Some None
  | Some s =>
      s ← (if isEmpty q then Some s
           else s ← dump_loop (units q) now (mList q) s;
                Some (IoStream.ioStreamSeek s (-3) IoStream.SEEK_CUR).2);
      '(_, s) ← IoStream.ioStreamPutc sgn 10 s;
      Some (Some s)
  end.

(** ** Specification *)

(** The deadline of a live unit, in microseconds. *)
Definition dl (u : gmap Z EventUnit) (p : Z) : Z :=
  match u !! p with Some e => us (tvAbsolute e) | None => 0 end.

(** A periodic unit knows its period. *)
Definition unit_ok (e : EventUnit) : Prop :=
  norm (tvAbsolute e)
  /\ (one_shot (type e) = false -> exists ms, period e = Some ms /\ 0 <= ms <= MAX_PERIOD_DELAY).

(** The invariant, when the units [out] are held by threads outside the list:
    every live unit is in the list or held, once; the list is sorted by
    deadline. *)
Record wfq (q : TimedEventQ) (out : list Z) : Prop := {
  wfq_nodup : NoDup (mList q ++ out);
  wfq_live p : is_Some (units q !! p) <-> p ∈ mList q ++ out;
  wfq_units p e : units q !! p = Some e -> unit_ok e;
  wfq_sorted : StronglySorted (fun a b => dl (units q) a <= dl (units q) b) (mList q);
  wfq_token : 0 <= listToken q
}.

Definition tokens (q : TimedEventQ) : Prop := forall p e, units q !! p = Some e -> is_Some (idToken e).

(** A clock whose readings leave room for the longest delay. *)
Definition reading_ok (now : timeval) : Prop := norm now /\ tv_sec now < 2 ^ 31 - 2148.

(** Calls that do not run into the two defects below: no deletion of a queued
    event, no periodic event without a period. *)
Definition call_ok (c : qcall) : Prop :=
  match c with
  | CLater ms _ _ | CPeriod ms _ _ => 0 <= ms < 2 ^ 32
  | CAbs tv t _ => norm tv /\ one_shot t = true
  | CDel _ => False
  end.
End queue.

(** ** Times *)

Lemma overthan_spec a b : norm a -> norm b -> time_overthan a b = true <-> us b <= us a.
Proof. exact (time_overthan_spec a b). Qed.

Lemma overthan_negb a b : norm a -> norm b -> negb (time_overthan a b) = true <-> us a < us b.
Proof.
  intros Ha Hb. rewrite negb_true_iff, <- not_true_iff_false, overthan_spec by done. lia.
Qed.

Lemma carry_loop_ok fuel tv :
  0 <= tv_usec tv < (Z.of_nat fuel + 1) * MILLION -> 0 <= tv_sec tv ->
  tv_sec tv + Z.of_nat fuel < 2 ^ 31 ->
  exists r, carry_loop fuel tv = Some r /\ norm r /\ us r = us tv.
Proof.
  revert tv. induction fuel as [|fuel IH]; intros tv Hu Hs Hb; simpl.
  - rewrite (proj2 (Z.ltb_lt _ _)) by lia. exists tv. split_and!; [done| |done].
    unfold norm. lia.
  - destruct (tv_usec tv <? MILLION) eqn:E; bool_to_prop.
    { exists tv. split_and!; [done| |done]. unfold norm. lia. }
    rewrite wraps_id by width_lia.
    destruct (IH (mkTv (tv_sec tv + 1) (tv_usec tv - MILLION))) as (r & Hr & Hn & Hus);
      [simpl; lia..|].
    exists r. split_and!; [done|done|]. rewrite Hus. unfold us. simpl. lia.
Qed.

Lemma time_plus_ok now ms :
  reading_ok now -> 0 <= ms <= MAX_PERIOD_DELAY ->
  exists r, time_plus now ms = Some r /\ norm r /\ us r = us now + ms * 1000.
Proof.
  intros [[Hs Hu] Hb] Hm. unfold time_plus, MAX_PERIOD_DELAY, MILLION in *.
  rewrite (proj2 (Z.ltb_ge _ _)) by lia.
  rewrite (wrapu_id 32 (ms * 1000)), (wrapu_id 32 (tv_usec now + ms * 1000)), wraps_id by width_lia.
  destruct (carry_loop_ok 2148 (mkTv (tv_sec now) (tv_usec now + ms * 1000))) as (r & Hr & Hn & Hus);
    [unfold MILLION; simpl; lia..|].
  exists r. split_and!; [done|done|]. rewrite Hus. unfold us, MILLION. simpl. lia.
Qed.

(** ** The list operations *)

Lemma dl_Some u p e : u !! p = Some e -> dl u p = us (tvAbsolute e).
Proof. unfold dl. by intros ->. Qed.

Lemma sorted_ext {A} (R R' : A -> A -> Prop) l :
  (forall x y, x ∈ l -> y ∈ l -> R x y -> R' x y) -> StronglySorted R l -> StronglySorted R' l.
Proof.
  intros H. induction 1 as [|x l Hs IH Hx]; constructor.
  - apply IH. intros. apply H; set_solver.
  - rewrite Forall_forall in *. intros y Hy. apply H; [set_solver..|by apply Hx].
Qed.

Lemma sorted_insert {A} (f : A -> Z) l1 x l2 :
  StronglySorted (fun a b => f a <= f b) (l1 ++ l2) ->
  Forall (fun y => f y <= f x) l1 -> Forall (fun y => f x <= f y) l2 ->
  StronglySorted (fun a b => f a <= f b) (l1 ++ x :: l2).
Proof.
  induction l1 as [|y l1 IH]; simpl; intros Hs H1 H2.
  - constructor; [done|]. done.
  - apply StronglySorted_inv in Hs as [Hs Hy]. apply Forall_cons in H1 as [Hyx H1].
    constructor; [by apply IH|]. apply Forall_app in Hy as [Hy1 Hy2].
    apply Forall_app. split; [done|]. constructor; done.
Qed.

Lemma insert_event_ok u tv p l :
  norm tv -> Forall (fun x => exists e, u !! x = Some e /\ norm (tvAbsolute e)) l ->
  StronglySorted (fun a b => dl u a <= dl u b) l ->
  exists l1 l2, l = l1 ++ l2 /\ insert_event u tv p l = Some (l1 ++ p :: l2)
    /\ Forall (fun x => dl u x <= us tv) l1 /\ Forall (fun x => us tv < dl u x) l2.
Proof.
  intros Htv. induction 1 as [|x l (e & He & Hn) _ IH]; intros Hs; cbn [insert_event].
  - by exists [], [].
  - apply StronglySorted_inv in Hs as [Hs Hx]. rewrite He. cbn [mbind option_bind].
    destruct (negb (time_overthan tv (tvAbsolute e))) eqn:E.
    + apply overthan_negb in E; [|done..]. exists [], (x :: l). split_and!; [done|done|done|].
      assert (us tv < dl u x) by (rewrite (dl_Some _ _ _ He); lia).
      constructor; [lia|]. eapply Forall_impl; [exact Hx|]. simpl. lia.
    + apply negb_false_iff, overthan_spec in E; [|done..].
      destruct (IH Hs) as (l1 & l2 & -> & -> & H1 & H2). exists (x :: l1), l2.
      split_and!; [done|done| |done]. constructor; [|done]. by rewrite (dl_Some _ _ _ He).
Qed.

Lemma due_split_ok u now l :
  norm now -> Forall (fun x => exists e, u !! x = Some e /\ norm (tvAbsolute e)) l ->
  StronglySorted (fun a b => dl u a <= dl u b) l ->
  exists d r, l = d ++ r /\ due_split u now l = Some (d, r)
    /\ Forall (fun x => dl u x <= us now) d /\ Forall (fun x => us now < dl u x) r.
Proof.
  intros Hn. induction 1 as [|x l (e & He & Hne) _ IH]; intros Hs; cbn [due_split].
  - by exists [], [].
  - apply StronglySorted_inv in Hs as [Hs Hx]. rewrite He. cbn [mbind option_bind].
    destruct (negb (time_overthan now (tvAbsolute e))) eqn:E.
    + apply overthan_negb in E; [|done..]. exists [], (x :: l). split_and!; [done|done|done|].
      assert (us now < dl u x) by (rewrite (dl_Some _ _ _ He); lia).
      constructor; [lia|]. eapply Forall_impl; [exact Hx|]. simpl. lia.
    + apply negb_false_iff, overthan_spec in E; [|done..].
      destruct (IH Hs) as (d & r & -> & -> & H1 & H2). exists (x :: d), r.
      split_and!; [done|done| |done]. constructor; [|done]. by rewrite (dl_Some _ _ _ He).
Qed.

(** ** The invariant *)

Lemma wfq_listed q out :
  wfq q out -> Forall (fun x => exists e, units q !! x = Some e /\ norm (tvAbsolute e)) (mList q).
Proof.
  intros W. apply Forall_forall. intros x Hx.
  destruct (proj2 (wfq_live _ _ W x)) as [e He]; [set_solver|].
  exists e. split; [done|]. by apply (wfq_units _ _ W x e).
Qed.

Lemma wfq_perm q out out' : wfq q out -> out ≡ₚ out' -> wfq q out'.
Proof.
  intros [H1 H2 H3 H4 H5] Hp. split; [|intros p|done|done|done].
  - by rewrite <- Hp.
  - rewrite (H2 p), !elem_of_app. by rewrite (elem_of_Permutation_proper p _ _ Hp).
Qed.

(** A unit outside the list may be written... *)
Lemma put_sorted q p e :
  p ∉ mList q ->
  StronglySorted (fun a b => dl (units q) a <= dl (units q) b) (mList q) ->
  StronglySorted (fun a b => dl (<[p := e]> (units q)) a <= dl (<[p := e]> (units q)) b) (mList q).
Proof.
  intros Hp. apply sorted_ext. intros x y Hx Hy.
  unfold dl. rewrite !lookup_insert_ne by set_solver. done.
Qed.

Lemma put_fresh q out p e :
  wfq q out -> units q !! p = None -> unit_ok e -> wfq (put_unit p e q) (p :: out).
Proof.
  intros [H1 H2 H3 H4 H5] Hp He.
  assert (Hn : p ∉ mList q ++ out) by (rewrite <- H2, Hp; by apply is_Some_None).
  split; simpl.
  - rewrite <- Permutation_middle. by apply NoDup_cons.
  - intros x. destruct (decide (x = p)) as [->|].
    + rewrite lookup_insert_eq. split; [set_solver|by eauto].
    + rewrite lookup_insert_ne by done. rewrite H2. set_solver.
  - intros x f. destruct (decide (x = p)) as [->|].
    + rewrite lookup_insert_eq. by intros [= <-].
    + rewrite lookup_insert_ne by done. apply H3.
  - apply put_sorted; [set_solver|done].
  - done.
Qed.

Lemma put_held q out p e : wfq q out -> p ∈ out -> unit_ok e -> wfq (put_unit p e q) out.
Proof.
  intros [H1 H2 H3 H4 H5] Hp He.
  assert (p ∉ mList q) by (apply NoDup_app in H1 as (_ & H & _); intros ?; by eapply H).
  split; simpl; [done| | |by apply put_sorted|done].
  - intros x. destruct (decide (x = p)) as [->|].
    + rewrite lookup_insert_eq. split; [set_solver|by eauto].
    + rewrite lookup_insert_ne by done. apply H2.
  - intros x f. destruct (decide (x = p)) as [->|].
    + rewrite lookup_insert_eq. by intros [= <-].
    + rewrite lookup_insert_ne by done. apply H3.
Qed.

(** ... or deleted. *)
Lemma free_held q out p : wfq q (p :: out) -> wfq (free_unit p q) out.
Proof.
  intros [H1 H2 H3 H4 H5]. rewrite <- Permutation_middle in H1. apply NoDup_cons in H1 as [Hp H1].
  split; simpl; [done| | | |done].
  - intros x. destruct (decide (x = p)) as [->|].
    + rewrite lookup_delete_eq. split; [by intros [? [=]]|done].
    + rewrite lookup_delete_ne by done. rewrite H2. set_solver.
  - intros x f Hx. apply lookup_delete_Some in Hx as [_ Hx]. by eapply H3.
  - eapply sorted_ext; [|exact H4]. intros x y Hx Hy. unfold dl.
    rewrite !lookup_delete_ne by set_solver. done.
Qed.

(** Writing the token of a live unit changes nothing the invariant sees. *)
Lemma take_token_ok q out p :
  wfq q out -> is_Some (units q !! p) ->
  exists q', take_token p q = Some (listToken q, q') /\ wfq q' out /\ mList q' = mList q
    /\ (forall x, dl (units q') x = dl (units q) x) /\ (tokens q -> tokens q').
Proof.
  intros [H1 H2 H3 H4 H5] [e He]. unfold take_token. rewrite He. cbn [mbind option_bind].
  set (e' := mkUnit _ _ _ _ _).
  assert (Hd : forall x, dl (<[p := e']> (units q)) x = dl (units q) x).
  { intros x. unfold dl. destruct (decide (x = p)) as [->|].
    - by rewrite lookup_insert_eq, He.
    - by rewrite lookup_insert_ne. }
  eexists. split; [done|]. split; [|split; [done|split; [done|]]]; simpl.
  - split; simpl; [done| | | |by apply Z.land_nonneg; right].
    + intros x. destruct (decide (x = p)) as [->|].
      * rewrite lookup_insert_eq, <- H2, He. split; eauto.
      * by rewrite lookup_insert_ne.
    + intros x f. destruct (decide (x = p)) as [->|].
      * rewrite lookup_insert_eq. intros [= <-]. exact (H3 _ _ He).
      * rewrite lookup_insert_ne by done. apply H3.
    + eapply sorted_ext; [|exact H4]. intros x y _ _. by rewrite !Hd.
  - intros Ht x f. simpl. destruct (decide (x = p)) as [->|].
    + rewrite lookup_insert_eq. intros [= <-]. by eexists.
    + rewrite lookup_insert_ne by done. apply Ht.
Qed.

Lemma internal_ok q p out e :
  wfq q (p :: out) -> units q !! p = Some e ->
  exists q' l1 l2, addEventInternal p q = Some q' /\ wfq q' out
    /\ units q' = units q /\ listToken q' = listToken q
    /\ mList q = l1 ++ l2 /\ mList q' = l1 ++ p :: l2
    /\ Forall (fun x => dl (units q) x <= us (tvAbsolute e)) l1
    /\ Forall (fun x => us (tvAbsolute e) < dl (units q) x) l2.
Proof.
  intros W He. unfold addEventInternal. rewrite He. cbn [mbind option_bind].
  destruct (insert_event_ok (units q) (tvAbsolute e) p (mList q)) as (l1 & l2 & Hl & -> & Hl1 & Hl2).
  { by apply (wfq_units _ _ W p e). }
  { by eapply wfq_listed. }
  { apply (wfq_sorted _ _ W). }
  cbn [mbind option_bind]. exists (set_list (l1 ++ p :: l2) q), l1, l2.
  split_and!; try done. destruct W as [H1 H2 H3 H4 H5]. rewrite Hl in *. split; simpl.
  - revert H1. apply NoDup_Permutation_proper. rewrite <- !app_assoc. simpl.
    apply Permutation_app_head. apply Permutation_middle.
  - intros x. rewrite H2. set_solver.
  - done.
  - apply (sorted_insert (dl (units q))); [done| |]; rewrite (dl_Some _ _ _ He); [done|].
    eapply Forall_impl; [exact Hl2|]. simpl. lia.
  - done.
Qed.

Lemma splice_ok now q out :
  wfq q out -> norm now ->
  exists d r, mList q = d ++ r /\ splice_due now q = Some (d, set_list r q)
    /\ wfq (set_list r q) (d ++ out)
    /\ Forall (fun x => dl (units q) x <= us now) d /\ Forall (fun x => us now < dl (units q) x) r.
Proof.
  intros W Hn. unfold splice_due.
  destruct (due_split_ok (units q) now (mList q) Hn (wfq_listed _ _ W) (wfq_sorted _ _ W))
    as (d & r & Hl & -> & Hd & Hr).
  exists d, r. split_and!; [done|done| |done|done]. destruct W as [H1 H2 H3 H4 H5]. rewrite Hl in *.
  split; simpl; [| |done| |done].
  - revert H1. apply NoDup_Permutation_proper. rewrite <- !app_assoc, (app_assoc d r out), (Permutation_app_comm d r).
    by rewrite <- app_assoc.
  - intros x. rewrite H2. set_solver.
  - exact (StronglySorted_app_1_r _ _ _ H4).
Qed.

(** ** The operations keep the invariant *)

Section ops.
Context (new_unit : gmap Z EventUnit -> Z).
Hypothesis new_unit_fresh : forall u, new_unit u <> 0 -> u !! new_unit u = None.

Lemma link_ok q out p e :
  wfq q out -> units q !! p = None -> unit_ok e ->
  exists q', addEventInternal p (put_unit p e q) = Some q' /\ wfq q' out
    /\ units q' = <[p := e]> (units q) /\ listToken q' = listToken q /\ p ∈ mList q'.
Proof.
  intros W Hp He.
  destruct (internal_ok (put_unit p e q) p out e) as (q' & l1 & l2 & H & W' & Hu & Ht & _ & Hl & _).
  - by apply put_fresh.
  - apply lookup_insert_eq.
  - exists q'. split_and!; [done..|]. rewrite Hl. set_solver.
Qed.

Lemma later_link_ok now ms t h q out :
  wfq q out -> reading_ok now -> 0 <= ms < 2 ^ 32 ->
  exists r q', later_link new_unit now ms t h q = Some (r, q') /\ wfq q' out
    /\ match r with
       | None => q' = q
       | Some p => units q !! p = None /\ p ∈ mList q'
           /\ exists tv, units q' = <[p := mkUnit tv t h None None]> (units q)
                /\ us tv = us now + ms * 1000 /\ one_shot t = true
       end.
Proof.
  intros W Hn Hms. unfold later_link. case_if; [by exists None, q|].
  match goal with H : (MAX_PERIOD_DELAY <? ms) = false |- _ => idtac | _ => bool_to_prop end.
  destruct (new_unit (units q) =? 0) eqn:Hz; [by exists None, q|]. apply Z.eqb_neq in Hz.
  destruct (time_plus_ok now ms) as (tv & -> & Htv & Hus); [done|lia|]. cbn [mbind option_bind].
  pose proof (new_unit_fresh _ Hz) as Hf.
  destruct (link_ok q out (new_unit (units q)) (mkUnit tv t h None None)) as (q' & -> & W' & Hu & _ & Hin).
  - done.
  - done.
  - split; [done|]. simpl. by destruct (one_shot t).
  - cbn [mbind option_bind]. eexists (Some _), q'. split_and!; [done|done|done|done|].
    exists tv. split_and!; [done|done|]. by destruct (one_shot t).
Qed.

Lemma period_link_ok now ms t h q out :
  wfq q out -> reading_ok now -> 0 <= ms < 2 ^ 32 ->
  exists r q', period_link new_unit now ms t h q = Some (r, q') /\ wfq q' out
    /\ match r with
       | None => q' = q
       | Some p => units q !! p = None /\ p ∈ mList q'
           /\ exists tv, units q' = <[p := mkUnit tv t h None (Some ms)]> (units q)
                /\ us tv = us now + ms * 1000 /\ one_shot t = false
       end.
Proof.
  intros W Hn Hms. unfold period_link. case_if; [by exists None, q|].
  destruct (new_unit (units q) =? 0) eqn:Hz; [by exists None, q|]. apply Z.eqb_neq in Hz.
  destruct (time_plus_ok now ms) as (tv & -> & Htv & Hus); [done|lia|]. cbn [mbind option_bind].
  pose proof (new_unit_fresh _ Hz) as Hf.
  destruct (link_ok q out (new_unit (units q)) (mkUnit tv t h None (Some ms))) as (q' & -> & W' & Hu & _ & Hin).
  - done.
  - done.
  - split; [done|]. simpl. intros _. exists ms. split; [done|lia].
  - cbn [mbind option_bind]. eexists (Some _), q'. split_and!; [done|done|done|done|].
    by exists tv.
Qed.

(** Linking and then drawing the token. *)
Lemma finish_ok r q q' out e :
  wfq q' out ->
  match r with
  | None => q' = q
  | Some p => units q !! p = None /\ p ∈ mList q' /\ units q' = <[p := e]> (units q)
  end ->
  exists v q'', finish_add (r, q') = Some (v, q'') /\ wfq q'' out /\ (tokens q -> tokens q'') /\ units q ⊆ units q''.
Proof.
  intros W Hr. unfold finish_add. cbn [fst snd]. destruct r as [p|]; [|subst; by eexists _, _].
  destruct Hr as (Hp & Hin & Hu).
  assert (Hlive : is_Some (units q' !! p)) by (apply (wfq_live _ _ W); set_solver).
  destruct (take_token_ok q' out p W Hlive) as (q'' & E & W'' & _). exists (listToken q'), q''.
  unfold take_token in E. rewrite Hu, lookup_insert_eq in E. cbn [mbind option_bind] in E.
  injection E as <-. simpl in *. split_and!; [|done| |].
  - unfold take_token. by rewrite Hu, lookup_insert_eq.
  - intros Ht x f. simpl. destruct (decide (x = p)) as [->|].
    + rewrite lookup_insert_eq. intros [= <-]. by eexists.
    + rewrite !lookup_insert_ne by done. apply Ht.
  - rewrite insert_insert_eq. by apply insert_subseteq.
Qed.

(** What every call of a client guarantees. *)
Definition call_done (q : TimedEventQ) (out : list Z) (r : option TimedEventQ) : Prop :=
  exists q', r = Some q' /\ wfq q' out /\ (tokens q -> tokens q') /\ units q ⊆ units q'.

Lemma addLater_ok now ms t h q out :
  wfq q out -> reading_ok now -> 0 <= ms < 2 ^ 32 ->
  call_done q out (snd <$> addLaterEvent new_unit now ms t h q).
Proof.
  intros W Hn Hms. unfold addLaterEvent.
  destruct (later_link_ok now ms t h q out W Hn Hms) as (r & q' & -> & W' & Hr). cbn [mbind option_bind].
  assert (exists e, match r with None => q' = q
    | Some p => units q !! p = None /\ p ∈ mList q' /\ units q' = <[p := e]> (units q) end) as [e He].
  { destruct r as [p|]; [destruct Hr as (? & ? & tv & ? & _); by eexists|by exists (mkUnit now t h None None)]. }
  destruct (finish_ok r q q' out e W' He) as (v & q'' & -> & H). by exists q''.
Qed.

Lemma addPeriod_ok now ms t h q out :
  wfq q out -> reading_ok now -> 0 <= ms < 2 ^ 32 ->
  call_done q out (snd <$> addPeriodEvent new_unit now ms t h q).
Proof.
  intros W Hn Hms. unfold addPeriodEvent.
  destruct (period_link_ok now ms t h q out W Hn Hms) as (r & q' & -> & W' & Hr). cbn [mbind option_bind].
  assert (exists e, match r with None => q' = q
    | Some p => units q !! p = None /\ p ∈ mList q' /\ units q' = <[p := e]> (units q) end) as [e He].
  { destruct r as [p|]; [destruct Hr as (? & ? & tv & ? & _); by eexists|by exists (mkUnit now t h None None)]. }
  destruct (finish_ok r q q' out e W' He) as (v & q'' & -> & H). by exists q''.
Qed.

(** An addition that answers -1 has changed nothing. *)
Lemma internal_token p q q' : addEventInternal p q = Some q' -> listToken q' = listToken q.
Proof.
  unfold addEventInternal. destruct (units q !! p); [|done]. cbn [mbind option_bind].
  destruct (insert_event _ _ _ _); [|done]. by intros [= <-].
Qed.

Lemma finish_refused r q q' tok :
  0 <= listToken q -> (r.1 = None -> r.2 = q) -> (is_Some r.1 -> listToken r.2 = listToken q) ->
  finish_add r = Some (tok, q') -> tok = -1 -> q' = q.
Proof.
  intros H0 Hn Hs E ->. destruct r as [[p|] q1]; unfold finish_add, take_token in E; simpl in *.
  - destruct (units q1 !! p); [|done]. injection E as E _. rewrite Hs in E by eauto. lia.
  - injection E as <-. by apply Hn.
Qed.

Lemma addLater_refused now ms t h q q' tok :
  0 <= listToken q -> addLaterEvent new_unit now ms t h q = Some (tok, q') -> tok = -1 -> q' = q.
Proof.
  intros H0. unfold addLaterEvent. destruct (later_link _ now ms t h q) as [r|] eqn:E; [|done].
  cbn [mbind option_bind]. unfold later_link in E. apply finish_refused; [done|..].
  all: case_if; [injection E as <-|]; simpl; try done; try by intros [].
  all: destruct (new_unit (units q) =? 0); [injection E as <-|]; simpl; try done; try by intros [].
  all: destruct (time_plus now ms); [|done]; cbn [mbind option_bind] in E.
  all: destruct (addEventInternal _ _) as [q1|] eqn:E1; [|done]; injection E as <-; simpl; try done.
  intros _. by apply internal_token in E1.
Qed.

Lemma addPeriod_refused now ms t h q q' tok :
  0 <= listToken q -> addPeriodEvent new_unit now ms t h q = Some (tok, q') -> tok = -1 -> q' = q.
Proof.
  intros H0. unfold addPeriodEvent. destruct (period_link _ now ms t h q) as [r|] eqn:E; [|done].
  cbn [mbind option_bind]. unfold period_link in E. apply finish_refused; [done|..].
  all: case_if; [injection E as <-|]; simpl; try done; try by intros [].
  all: destruct (new_unit (units q) =? 0); [injection E as <-|]; simpl; try done; try by intros [].
  all: destruct (time_plus now ms); [|done]; cbn [mbind option_bind] in E.
  all: destruct (addEventInternal _ _) as [q1|] eqn:E1; [|done]; injection E as <-; simpl; try done.
  intros _. by apply internal_token in E1.
Qed.

Lemma addAbs_ok tv t h q out :
  wfq q out -> norm tv -> one_shot t = true ->
  call_done q out (snd <$> addAbsTimedEvent new_unit tv t h q).
Proof.
  intros W Htv Ho. unfold addAbsTimedEvent. cbv zeta. case_if; [by exists q|].
  destruct (new_unit (units q) =? 0) eqn:Hz; [by exists q|]. apply Z.eqb_neq in Hz.
  pose proof (new_unit_fresh _ Hz) as Hf. set (p := new_unit (units q)) in *.
  set (e := mkUnit _ _ _ _ _).
  assert (He : unit_ok e) by (split; [done|]; simpl; congruence).
  pose proof (put_fresh q out p e W Hf He) as Wp.
  destruct (internal_ok (put_unit p e q) p out e Wp) as (q' & l1 & l2 & E & W' & Hu & Hl & _).
  { apply lookup_insert_eq. }
  unfold addEventInternal in E. simpl in E. rewrite lookup_insert_eq in E. cbn [mbind option_bind] in E.
  change (tvAbsolute e) with tv in E.
  simpl. destruct (insert_event _ tv p (mList q)) as [l|]; [|done]. cbn [mbind option_bind] in *.
  injection E as <-. eexists. split; [done|]. split_and!.
  - destruct W' as [H1 H2 H3 H4 H5]. split; try done. by apply Z.land_nonneg; right.
  - intros Ht x f. simpl. destruct (decide (x = p)) as [->|].
    + rewrite lookup_insert_eq. intros [= <-]. by eexists.
    + rewrite lookup_insert_ne by done. apply Ht.
  - by apply insert_subseteq.
Qed.

Lemma queue_call_ok now c q out :
  wfq q out -> reading_ok now -> call_ok c -> call_done q out (exec_call new_unit now c q).
Proof.
  intros W Hn Hc. destruct c as [ms t h|tv t h|ms t h|tok]; simpl in *.
  - by apply addLater_ok.
  - destruct Hc. by apply addAbs_ok.
  - by apply addPeriod_ok.
  - done.
Qed.

Lemma abs_calls_ok now cs q out :
  wfq q out -> reading_ok now -> Forall call_ok cs ->
  call_done q out (exec_calls new_unit now cs q).
Proof.
  intros W Hn Hcs. revert q W. induction Hcs as [|c cs Hc _ IH]; intros q W; cbn [exec_calls].
  - by exists q.
  - destruct (queue_call_ok now c q out) as (q1 & -> & W1 & Ht1 & Hs1); [done..|].
    cbn [mbind option_bind]. destruct (IH q1 W1) as (q2 & -> & W2 & Ht2 & Hs2). exists q2.
    split_and!; [done|done|by auto|]. by etrans.
Qed.

Context (reaction : effect -> list qcall).
Hypothesis reaction_ok : forall eff, Forall call_ok (reaction eff).

(** What firing the event [e] at [p] leaves: the other units as they were; a
    periodic event again in the list, one period later; a one-shot event
    deleted (until a client's callback reuses its memory). *)
Record fired (now : timeval) (p : Z) (e : EventUnit) (q q' : TimedEventQ) : Prop := {
  fired_frame x f : x <> p -> units q !! x = Some f -> units q' !! x = Some f;
  fired_only x : (forall eff, reaction eff = []) -> x <> p -> units q' !! x = units q !! x;
  fired_once : (forall eff, reaction eff = []) -> one_shot (type e) = true -> units q' !! p = None;
  fired_again ms : one_shot (type e) = false -> period e = Some ms ->
    exists tv, us tv = us now + ms * 1000
      /\ units q' !! p = Some (mkUnit tv (type e) (handler e) (idToken e) (period e))
}.

Lemma fire_one_ok now p q out e :
  wfq q (p :: out) -> reading_ok now -> units q !! p = Some e ->
  exists q', fire_one new_unit reaction now p q = Some (effect_of e, q') /\ wfq q' out
    /\ (tokens q -> tokens q')
    /\ fired now p e q q'.
Proof.
  intros W Hn He. unfold fire_one. rewrite He. cbn [mbind option_bind].
  destruct (one_shot (type e)) eqn:Ho.
  - assert (exists q', match type e with
        | TIMED_CALLBACK => exec_calls new_unit now (reaction (effect_of e)) q | _ => Some q end = Some q'
        /\ wfq q' (p :: out) /\ (tokens q -> tokens q') /\ units q ⊆ units q'
        /\ ((forall eff, reaction eff = []) -> q' = q)) as (q' & -> & W' & Ht' & Hs & Hq).
    { destruct (type e); try by exists q.
      destruct (abs_calls_ok now (reaction (effect_of e)) q (p :: out)) as (q' & E & ? & ? & ?); [done..|].
      exists q'. split_and!; [done..|]. intros Hr. rewrite Hr in E. by injection E. }
    cbn [mbind option_bind]. eexists. split_and!; [done|by apply free_held| |].
    + intros Ht x f Hx. simpl in Hx. apply lookup_delete_Some in Hx as [_ Hx]. by eapply Ht'.
    + split; simpl.
      * intros x f Hx Hf. rewrite lookup_delete_ne by done. by eapply lookup_weaken.
      * intros x Hr Hx. rewrite lookup_delete_ne by done. by rewrite Hq.
      * intros _ _. apply lookup_delete_eq.
      * intros ms. by rewrite Ho.
  - destruct (wfq_units _ _ W p e He) as [Hne Hp]. destruct (Hp Ho) as (ms & Hpe & Hms). rewrite Hpe.
    cbn [mbind option_bind]. destruct (time_plus_ok now ms Hn Hms) as (tv & -> & Htv & Hus).
    cbn [mbind option_bind]. set (e' := mkUnit _ _ _ _ _).
    assert (W' : wfq (put_unit p e' q) (p :: out)).
    { apply put_held; [done|set_solver|]. split; [done|]. intros _. by exists ms. }
    destruct (internal_ok _ p out e' W') as (q' & l1 & l2 & -> & W'' & Hu & _).
    { apply lookup_insert_eq. }
    cbn [mbind option_bind]. exists q'. split_and!; [done|done| |].
    + intros Ht x f. rewrite Hu. simpl. destruct (decide (x = p)) as [->|].
      * rewrite lookup_insert_eq. intros [= <-]. by eapply (Ht p e).
      * rewrite lookup_insert_ne by done. apply Ht.
    + split; rewrite Hu; simpl.
      * intros x f Hx Hf. by rewrite lookup_insert_ne.
      * intros x _ Hx. by rewrite lookup_insert_ne.
      * by rewrite Ho.
      * intros ms' _ Hms'. replace ms' with ms by congruence. exists tv. split; [done|].
        rewrite lookup_insert_eq. by rewrite Hpe.
Qed.

Lemma fire_loop_ok clock i ps q out :
  wfq q (ps ++ out) -> (forall j, reading_ok (clock j)) ->
  exists q', fire_loop new_unit reaction clock i ps q
      = Some (omap (fun p => effect_of <$> units q !! p) ps, q')
    /\ wfq q' out /\ (tokens q -> tokens q')
    /\ (forall x f, x ∉ ps -> units q !! x = Some f -> units q' !! x = Some f)
    /\ ((forall eff, reaction eff = []) -> forall x, x ∉ ps -> units q' !! x = units q !! x)
    /\ (forall p e, p ∈ ps -> units q !! p = Some e -> exists j,
         ((forall eff, reaction eff = []) -> one_shot (type e) = true -> units q' !! p = None)
         /\ (forall ms, one_shot (type e) = false -> period e = Some ms ->
             exists tv, us tv = us (clock j) + ms * 1000
               /\ units q' !! p = Some (mkUnit tv (type e) (handler e) (idToken e) (period e)))).
Proof.
  intros W Hc. revert i q W. induction ps as [|p ps IH]; intros i q W; cbn [fire_loop omap list_omap].
  - exists q. split_and!; try done. set_solver.
  - destruct (proj2 (wfq_live _ _ W p)) as [e He]; [set_solver|].
    assert (Hnp : p ∉ ps).
    { pose proof (wfq_nodup _ _ W) as Hnd. apply NoDup_app in Hnd as (_ & _ & Hnd).
      apply NoDup_cons in Hnd as [Hnd _]. set_solver. }
    destruct (fire_one_ok (clock i) p q (ps ++ out) e) as (q1 & -> & W1 & Ht1 & [F1 F2 F3 F4]); [done..|].
    cbn [mbind option_bind]. destruct (IH (S i) q1 W1) as (q2 & -> & W2 & Ht2 & G1 & G2 & G3).
    cbn [mbind option_bind]. exists q2. split_and!; [|done|by auto| | |].
    + rewrite He. simpl. do 3 f_equal.
      assert (Hsame : forall x, x ∈ ps -> units q1 !! x = units q !! x).
      { intros x Hx. destruct (proj2 (wfq_live _ _ W x)) as [f Hf]; [set_solver|].
        rewrite Hf. apply F1; [set_solver|done]. }
      clear -Hsame. induction ps as [|x ps IH]; [done|]. cbn [omap list_omap].
      rewrite Hsame by set_solver. rewrite IH by set_solver. done.
    + intros x f Hx Hf. apply G1; [set_solver|]. apply F1; [set_solver|done].
    + intros Hr x Hx. rewrite (G2 Hr) by set_solver. apply F2; [done|set_solver].
    + intros x f Hx Hf. apply elem_of_cons in Hx as [->|Hx].
      * replace f with e by congruence. exists i. split.
        -- intros Hr Ho. rewrite (G2 Hr) by done. by apply F3.
        -- intros ms Ho Hms. destruct (F4 ms Ho Hms) as (tv & Htv & Hu). exists tv. split; [done|].
           by apply G1.
      * assert (x <> p) by set_solver. destruct (G3 x f Hx) as (j & Hj); [by apply F1|]. by exists j.
Qed.
End ops.

(** ** Sequential runs *)

Section runs.
Context (new_unit : gmap Z EventUnit -> Z) (reaction : effect -> list qcall).

Inductive qreach : TimedEventQ -> Prop :=
| qr_new now : qreach (newQ now)
| qr_call now c q q' : qreach q -> reading_ok now -> call_ok c ->
    exec_call new_unit now c q = Some q' -> qreach q'
| qr_handle clock effs q q' : qreach q -> (forall j, reading_ok (clock j)) ->
    handleAlarmEvent new_unit reaction clock q = Some (effs, q') -> qreach q'.

(** ** Interleavings of threads

    [waiting] are the threads between the two critical sections of
    [addLaterEvent] or [addPeriodEvent] (their event is in the list, its token
    not yet written); [firing] are the entries of the local lists of the
    threads inside [handleAlarmEvent].  What a callback does to the queue is a
    step of its own.  [delTimedEvent] is the step of its critical section; the
    value it returns, which it reads from a unit it has deleted, is left out. *)
Record cstate := mkC { cq : TimedEventQ; waiting : list Z; firing : list Z }.

Definition remove1 (p : Z) (l : list Z) : list Z :=
  match list_find (.= p) l with Some (i, _) => delete i l | None => l end.

Inductive cstep : cstate -> cstate -> Prop :=
| c_later now ms t h p q q' w f : reading_ok now -> 0 <= ms < 2 ^ 32 ->
    later_link new_unit now ms t h q = Some (Some p, q') -> cstep (mkC q w f) (mkC q' (p :: w) f)
| c_period now ms t h p q q' w f : reading_ok now -> 0 <= ms < 2 ^ 32 ->
    period_link new_unit now ms t h q = Some (Some p, q') -> cstep (mkC q w f) (mkC q' (p :: w) f)
| c_abs tv t h q v q' w f : norm tv -> one_shot t = true ->
    addAbsTimedEvent new_unit tv t h q = Some (v, q') -> cstep (mkC q w f) (mkC q' w f)
| c_token p q v q' w f : p ∈ w ->
    take_token p q = Some (v, q') -> cstep (mkC q w f) (mkC q' (remove1 p w) f)
| c_splice now q d q' w f : norm now ->
    splice_due now q = Some (d, q') -> cstep (mkC q w f) (mkC q' w (d ++ f))
| c_fire now p q eff q' w f f' : reading_ok now -> f ≡ₚ p :: f' ->
    fire_one new_unit (fun _ => []) now p q = Some (eff, q') -> cstep (mkC q w f) (mkC q' w f')
| c_del token q r q' w f :
    del_section token q = Some (r, q') -> cstep (mkC q w f) (mkC q' w f).

Definition crun : cstate -> cstate -> Prop := rtc cstep.
End runs.

Lemma newQ_wfq now : wfq (newQ now) [].
Proof.
  split; simpl; [constructor| | |constructor|done].
  - intros p. rewrite lookup_empty. split; [by intros [? [=]]|set_solver].
  - intros p e. by rewrite lookup_empty.
Qed.

Lemma handle_ok new_unit reaction clock q :
  (forall u, new_unit u <> 0 -> u !! new_unit u = None) -> (forall eff, Forall call_ok (reaction eff)) ->
  wfq q [] -> (forall j, reading_ok (clock j)) ->
  exists d r q', mList q = d ++ r
    /\ Forall (fun x => dl (units q) x <= us (clock 0%nat)) d
    /\ Forall (fun x => us (clock 0%nat) < dl (units q) x) r
    /\ handleAlarmEvent new_unit reaction clock q = Some (omap (fun p => effect_of <$> units q !! p) d, q')
    /\ wfq q' [] /\ (tokens q -> tokens q')
    /\ (forall x f, x ∉ d -> units q !! x = Some f -> units q' !! x = Some f)
    /\ (forall p e, p ∈ d -> units q !! p = Some e -> exists j,
         ((forall eff, reaction eff = []) -> one_shot (type e) = true -> units q' !! p = None)
         /\ (forall ms, one_shot (type e) = false -> period e = Some ms ->
             exists tv, us tv = us (clock j) + ms * 1000
               /\ units q' !! p = Some (mkUnit tv (type e) (handler e) (idToken e) (period e)))).
Proof.
  intros Hf Hr W Hc. unfold handleAlarmEvent.
  destruct (splice_ok (clock 0%nat) q [] W) as (d & r & Hl & -> & W' & Hd & Hrr); [apply Hc|].
  cbn [mbind option_bind].
  destruct (fire_loop_ok new_unit Hf reaction Hr clock 1 d (set_list r q) []) as (q' & E & W'' & T & F1 & _ & F2);
    [done..|].
  exists d, r, q'. split_and!; done.
Qed.

Lemma qreach_ok new_unit reaction q :
  (forall u, new_unit u <> 0 -> u !! new_unit u = None) -> (forall eff, Forall call_ok (reaction eff)) ->
  qreach new_unit reaction q -> wfq q [] /\ tokens q.
Proof.
  intros Hf Hr. induction 1 as [now|now c q q' _ [W T] Hn Hc E|clock effs q q' _ [W T] Hc E].
  - split; [apply newQ_wfq|]. intros p e. simpl. by rewrite lookup_empty.
  - destruct (queue_call_ok new_unit Hf now c q [] W Hn Hc) as (q1 & E1 & W1 & T1 & _).
    rewrite E in E1. injection E1 as <-. auto.
  - destruct (handle_ok new_unit reaction clock q Hf Hr W Hc) as (d & r & q1 & _ & _ & _ & E1 & W1 & T1 & _).
    rewrite E in E1. injection E1 as _ <-. auto.
Qed.

(** Deleting: the unit found is a listed one that has the token, and it is gone. *)
Lemma find_token_found us token l p :
  find_token us token l = Some (Some p) -> p ∈ l /\ exists e, us !! p = Some e /\ idToken e = Some token.
Proof.
  induction l as [|x l IH]; cbn [find_token]; [done|].
  destruct (us !! x) as [e|] eqn:He; [|done]. cbn [mbind option_bind].
  destruct (idToken e) as [t|] eqn:Ht; [|done]. cbn [mbind option_bind].
  destruct (t =? token) eqn:E; bool_to_prop.
  - intros [= ->]. split; [set_solver|]. exists e. split; [done|congruence].
  - intros H. destruct (IH H) as [Hp He']. split; [set_solver|done].
Qed.

Lemma del_section_ok token q out r q' :
  wfq q out -> del_section token q = Some (r, q') ->
  wfq q' out /\
  match r with
  | None => q' = q
  | Some p => p ∈ mList q /\ units q' = delete p (units q) /\
      mList q' = filter (fun x => x <> p) (mList q) /\
      exists e, units q !! p = Some e /\ idToken e = Some token
  end.
Proof.
  intros W. unfold del_section. destruct (find_token _ _ _) as [[p|]|] eqn:E; [|by intros [= <- <-]|done].
  cbn [mbind option_bind]. intros [= <- <-]. destruct (find_token_found _ _ _ _ E) as [Hp He].
  split; [|done]. destruct W as [H1 H2 H3 H4 H5].
  pose proof H1 as H1'. apply NoDup_app in H1' as (N1 & N2 & N3). split; simpl.
  - apply NoDup_app. split; [by apply NoDup_filter|]. split; [|done].
    intros x [_ Hx]%list_elem_of_filter. by apply N2.
  - intros x. rewrite lookup_delete_is_Some, H2, !elem_of_app, list_elem_of_filter.
    split; [intuition|]. intros [[? ?]|Hx]; [auto|]. split; [|by right]. intros <-. by eapply N2.
  - intros x e [_ Hx]%lookup_delete_Some. by eapply H3.
  - assert (S : StronglySorted (fun a b => dl (units q) a <= dl (units q) b) (filter (fun x => x <> p) (mList q)))
      by (by apply StronglySorted_filter).
    eapply sorted_ext, S. intros x y [Hx _]%list_elem_of_filter [Hy _]%list_elem_of_filter.
    unfold dl. by rewrite !lookup_delete_ne by done.
  - done.
Qed.

Lemma cstep_wfq new_unit s s' :
  (forall u, new_unit u <> 0 -> u !! new_unit u = None) ->
  cstep new_unit s s' -> wfq (cq s) (firing s) -> wfq (cq s') (firing s').
Proof.
  intros Hf. destruct 1 as [now ms t h p q q' w f Hn Hms E|now ms t h p q q' w f Hn Hms E
    |tv t h q v q' w f Htv Ho E|p q v q' w f Hp E|now q d q' w f Hn E|now p q eff q' w f f' Hn Hf' E
    |token q r q' w f E];
    simpl; intros W.
  - destruct (later_link_ok new_unit Hf now ms t h q f W Hn Hms) as (r & q1 & E1 & W1 & _). congruence.
  - destruct (period_link_ok new_unit Hf now ms t h q f W Hn Hms) as (r & q1 & E1 & W1 & _). congruence.
  - destruct (addAbs_ok new_unit Hf tv t h q f W Htv Ho) as (q1 & E1 & W1 & _). rewrite E in E1.
    by injection E1 as <-.
  - destruct (units q !! p) as [e|] eqn:He; [|unfold take_token in E; by rewrite He in E].
    destruct (take_token_ok q f p W) as (q1 & E1 & W1 & _); [by eexists|]. congruence.
  - destruct (splice_ok now q f W Hn) as (d1 & r & _ & E1 & W1 & _). congruence.
  - pose proof (wfq_perm _ _ _ W Hf') as Wp.
    destruct (units q !! p) as [e|] eqn:He; [|unfold fire_one in E; by rewrite He in E].
    destruct (fire_one_ok new_unit Hf (fun _ => []) ltac:(done) now p q f' e Wp Hn He)
      as (q1 & E1 & W1 & _). congruence.
  - by apply (del_section_ok token q f r q' W).
Qed.

Lemma crun_wfq new_unit s s' :
  (forall u, new_unit u <> 0 -> u !! new_unit u = None) ->
  crun new_unit s s' -> wfq (cq s) (firing s) -> wfq (cq s') (firing s').
Proof. intros Hf. induction 1; eauto using cstep_wfq. Qed.

(** ** What the queue promises *)

(** The timer queue of [TimedEventQ] never faults in sequential use and
    keeps its books: in every state reached by adding events and handling
    alarms (client callbacks that add further events included), every unit
    ever allocated is live exactly while it is in the list, the list is sorted
    by deadline, and each further call and each alarm pass completes. *)
Theorem timer_queue_safe new_unit reaction q :
  (forall u, new_unit u <> 0 -> u !! new_unit u = None) -> (forall eff, Forall call_ok (reaction eff)) ->
  qreach new_unit reaction q ->
  NoDup (mList q) /\ (forall p, is_Some (units q !! p) <-> p ∈ mList q)
  /\ StronglySorted (fun a b => dl (units q) a <= dl (units q) b) (mList q)
  /\ (forall now c, reading_ok now -> call_ok c -> is_Some (exec_call new_unit now c q))
  /\ (forall clock, (forall j, reading_ok (clock j)) ->
       is_Some (handleAlarmEvent new_unit reaction clock q)).
Proof.
  intros Hf Hr Hq. destruct (qreach_ok new_unit reaction q Hf Hr Hq) as [W T].
  pose proof W as [H1 H2 H3 H4 H5]. rewrite app_nil_r in H1. split_and!; [done| |done| |].
  - intros p. rewrite H2, app_nil_r. done.
  - intros now c Hn Hc. destruct (queue_call_ok new_unit Hf now c q []) as (q' & -> & _); [done..|].
    by eexists.
  - intros clock Hc. destruct (handle_ok new_unit reaction clock q Hf Hr) as (d & r & q' & _ & _ & _ & -> & _);
      [done..|]. by eexists.
Qed.

(** one alarm pass fires exactly the events that are due: the effects are
    those of the listed events whose deadline is not after the time read, once
    each and in deadline order; the others stay as they are; a periodic event
    is rearmed one period after it fired, and a one-shot event is released. *)
Theorem alarm_pass_fires_due new_unit reaction clock q :
  (forall u, new_unit u <> 0 -> u !! new_unit u = None) -> (forall eff, Forall call_ok (reaction eff)) ->
  wfq q [] -> (forall j, reading_ok (clock j)) ->
  exists effs q', handleAlarmEvent new_unit reaction clock q = Some (effs, q')
    /\ effs = omap (fun p => effect_of <$> units q !! p)
                 (filter (fun p => dl (units q) p <= us (clock 0%nat)) (mList q))
    /\ (forall p e, units q !! p = Some e -> us (clock 0%nat) < us (tvAbsolute e) -> units q' !! p = Some e)
    /\ (forall p e, units q !! p = Some e -> us (tvAbsolute e) <= us (clock 0%nat) -> exists j,
         ((forall eff, reaction eff = []) -> one_shot (type e) = true -> units q' !! p = None)
         /\ (forall ms, one_shot (type e) = false -> period e = Some ms ->
             exists tv, us tv = us (clock j) + ms * 1000
               /\ units q' !! p = Some (mkUnit tv (type e) (handler e) (idToken e) (period e)))).
Proof.
  intros Hf Hr W Hc. destruct (handle_ok new_unit reaction clock q Hf Hr W Hc)
    as (d & r & q' & Hl & Hd & Hrr & E & _ & _ & F1 & F2).
  exists (omap (fun p => effect_of <$> units q !! p) d), q'. split_and!; [done| | |].
  - f_equal. rewrite Hl, filter_app, (filter_all _ d) by done.
    rewrite filter_none, app_nil_r; [done|]. eapply Forall_impl; [exact Hrr|]. simpl. lia.
  - intros p e He Hlt. apply F1; [|done]. intros Hp. rewrite Forall_forall in Hd. specialize (Hd p Hp).
    simpl in Hd. rewrite (dl_Some _ _ _ He) in Hd. lia.
  - intros p e He Hle. apply F2; [|done].
    assert (Hin : p ∈ mList q).
    { rewrite <- (app_nil_r (mList q)). apply (wfq_live _ _ W). by eexists. }
    rewrite Hl in Hin. apply elem_of_app in Hin as [?|Hin]; [done|]. rewrite Forall_forall in Hrr.
    specialize (Hrr p Hin). simpl in Hrr. rewrite (dl_Some _ _ _ He) in Hrr. lia.
Qed.

(** the time to sleep is right: [abstimeToNextEvent] reports, for a
    nonempty queue, the deadline of some pending event that no other pending
    event precedes, and -1 with an infinite time for an empty one. *)
Theorem next_event_is_earliest q :
  wfq q [] ->
  match mList q with
  | [] => abstimeToNextEvent q = Some (-1, TV_INFINITY) /\ units q = ∅
  | _ => exists p e, units q !! p = Some e /\ abstimeToNextEvent q = Some (0, tvAbsolute e)
      /\ forall p' e', units q !! p' = Some e' -> us (tvAbsolute e) <= us (tvAbsolute e')
  end.
Proof.
  intros W. pose proof W as [H1 H2 H3 H4 H5]. unfold abstimeToNextEvent.
  destruct (mList q) as [|p l] eqn:El.
  - split; [done|]. apply map_empty. intros x. apply eq_None_not_Some. rewrite H2. set_solver.
  - destruct (proj2 (H2 p)) as [e He]; [set_solver|]. exists p, e. rewrite He. split_and!; [done..|].
    intros p' e' He'. assert (Hin : p' ∈ (p :: l) ++ []) by (rewrite <- H2; by eexists).
    rewrite app_nil_r in Hin. apply StronglySorted_inv in H4 as [_ Hx].
    rewrite <- (dl_Some _ _ _ He), <- (dl_Some _ _ _ He').
    apply elem_of_cons in Hin as [->|Hin]; [lia|]. rewrite Forall_forall in Hx. by apply Hx.
Qed.

(** C24: threads share the queue without losing or doubling an event.  Let any
    number of threads add one-shot and periodic events with delays, and one-shot
    events at absolute times (a periodic one of these has no period), write their
    tokens, delete events by token, collect the due events and fire them, in any
    interleaving of critical sections, on a clock that is normalised and leaves
    room for the longest delay below 2^31 seconds, with an allocator that answers
    NULL or memory that is not in use.  Then each live unit is in the list or in
    the hands of exactly one thread that is firing it; the list stays sorted; a
    thread that fires an event, or that collects the due ones, never touches a
    released unit; and a deletion removes from the list and from memory exactly
    one listed unit, which has the token, or nothing at all.  Left out is the
    value that [delTimedEvent] returns, which it reads from the deleted unit; a
    search that meets a token not yet written, and a token written to an event
    that was fired in the meantime, are not steps. *)
Theorem events_owned_once new_unit now s :
  (forall u, new_unit u <> 0 -> u !! new_unit u = None) ->
  crun new_unit (mkC (newQ now) [] []) s ->
  NoDup (mList (cq s) ++ firing s)
  /\ (forall p, is_Some (units (cq s) !! p) <-> p ∈ mList (cq s) ++ firing s)
  /\ StronglySorted (fun a b => dl (units (cq s)) a <= dl (units (cq s)) b) (mList (cq s))
  /\ (forall t, norm t -> is_Some (splice_due t (cq s)))
  /\ (forall t p, reading_ok t -> p ∈ firing s -> is_Some (fire_one new_unit (fun _ => []) t p (cq s)))
  /\ (forall token r q', del_section token (cq s) = Some (r, q') ->
        match r with
        | None => q' = cq s
        | Some p => p ∈ mList (cq s) /\ units q' = delete p (units (cq s)) /\
            mList q' = filter (fun x => x <> p) (mList (cq s)) /\
            exists e, units (cq s) !! p = Some e /\ idToken e = Some token
        end).
Proof.
  intros Hf Hrun. pose proof (crun_wfq new_unit _ s Hf Hrun (newQ_wfq now)) as W.
  pose proof W as [H1 H2 H3 H4 H5]. split_and!; [done..| | |].
  - intros t Ht. destruct (splice_ok t (cq s) _ W Ht) as (d & r & _ & -> & _). by eexists.
  - intros t p Ht Hp. destruct (proj2 (H2 p)) as [e He]; [set_solver|].
    apply elem_of_Permutation in Hp as [f' Hf'].
    destruct (fire_one_ok new_unit Hf (fun _ => []) ltac:(done) t p (cq s) f' e) as (q' & -> & _);
      [by apply (wfq_perm _ _ _ W)|done..|by eexists].
  - intros token r q' E. by apply (del_section_ok token (cq s) (firing s) r q' W).
Qed.

(** the token race.  [addLaterEvent] publishes its event before it writes
    the token into it: with a zero delay another thread can fire and release
    the event in between, and the write is then a use after free. *)
Theorem token_written_after_free new_unit now h :
  (forall u, new_unit u <> 0 -> u !! new_unit u = None) -> new_unit ∅ <> 0 -> h <> 0 -> reading_ok now ->
  exists s p, crun new_unit (mkC (newQ now) [] []) s /\ p ∈ waiting s /\ take_token p (cq s) = None.
Proof.
  intros Hf Hz Hh Hn. set (p := new_unit ∅) in *.
  destruct (time_plus_ok now 0 Hn) as (tv & Htv & Hnt & Hus); [unfold MAX_PERIOD_DELAY; lia|].
  set (e := mkUnit tv TIMED_CALLBACK h None None).
  exists (mkC (free_unit p (set_list [] (set_list [p] (put_unit p e (newQ now))))) [p] []), p.
  split_and!; [|set_solver|].
  - eapply rtc_l; [|eapply rtc_l; [|eapply rtc_once]].
    + apply (c_later _ now 0 TIMED_CALLBACK h p); [done|lia|]. unfold later_link. simpl.
      rewrite (proj2 (Z.eqb_neq h 0)) by done. simpl. fold p. rewrite (proj2 (Z.eqb_neq p 0)) by done.
      rewrite Htv. cbn [mbind option_bind]. fold e. unfold addEventInternal. simpl.
      by rewrite lookup_insert_eq.
    + apply (c_splice _ now _ [p]); [by apply Hn|]. unfold splice_due. simpl.
      rewrite lookup_insert_eq. cbn [mbind option_bind]. simpl.
      assert (time_overthan now tv = true) as ->; [|done].
      apply overthan_spec; [by apply Hn|done|lia].
    + apply (c_fire _ now p _ (Timeout h) _ [p] [p] []); [done|done|]. unfold fire_one. simpl.
      by rewrite lookup_insert_eq.
  - unfold take_token. simpl. by rewrite lookup_delete_eq.
Qed.

(** [delTimedEvent] is safe only when it finds nothing: for a token of no
    listed event it answers NULL and changes nothing, for the token of a
    listed event it reads the handler from the unit it has just deleted. *)
Theorem delete_found_is_use_after_free q token :
  wfq q [] -> tokens q ->
  ((exists p e, units q !! p = Some e /\ idToken e = Some token) -> delTimedEvent token q = None)
  /\ (~ (exists p e, units q !! p = Some e /\ idToken e = Some token) -> delTimedEvent token q = Some (0, q)).
Proof.
  intros W T.
  assert (Hfind : forall l, (forall p, p ∈ l -> is_Some (units q !! p)) ->
    exists r, find_token (units q) token l = Some r
      /\ match r with
         | Some p => exists e, units q !! p = Some e /\ idToken e = Some token
         | None => forall p e, p ∈ l -> units q !! p = Some e -> idToken e <> Some token
         end).
  { induction l as [|p l IH]; intros Hl; cbn [find_token].
    - exists None. split; [done|set_solver].
    - destruct (Hl p) as [e He]; [set_solver|]. destruct (T p e He) as [t Ht].
      rewrite He. cbn [mbind option_bind]. rewrite Ht. cbn [mbind option_bind].
      destruct (t =? token) eqn:E; bool_to_prop.
      + subst. exists (Some p). split; [done|]. by exists e.
      + destruct IH as (r & -> & Hr); [set_solver|]. exists r. split; [done|].
        destruct r; [done|]. intros x f [->|Hx]%elem_of_cons Hf; [congruence|by eapply Hr]. }
  destruct (Hfind (mList q)) as (r & Er & Hr).
  { intros p Hp. apply (wfq_live _ _ W). set_solver. }
  unfold delTimedEvent, del_section. rewrite Er. cbn [mbind option_bind]. destruct r as [p|]; cbn [mbind option_bind].
  - split; [|intros Hn; by destruct Hn; exists p]. intros _. simpl. by rewrite lookup_delete_eq.
  - split; [|done]. intros (p & e & He & Ht). exfalso. apply (Hr p e); [|done..].
    rewrite <- (app_nil_r (mList q)). apply (wfq_live _ _ W). by eexists.
Qed.

(** [addAbsTimedEvent] also takes periodic types ("TODO: check validation"),
    and leaves their period uninitialised: firing one reads it. *)
Lemma abs_period_uninitialised new_unit reaction now tv h q p e :
  addAbsTimedEvent new_unit tv PERIOD_SEMAPHORE h (newQ now) = Some (1, q) ->
  units q !! p = Some e -> fire_one new_unit reaction now p q = None.
Proof.
  unfold addAbsTimedEvent. cbv zeta. intros H He.
  destruct (h =? 0); [done|]. destruct (new_unit (units (newQ now)) =? 0); [done|].
  simpl in H. injection H as <-. simpl in He. apply lookup_insert_Some in He as [[<- <-]|[_ He]].
  - unfold fire_one. simpl. by rewrite lookup_insert_eq.
  - by rewrite lookup_empty in He.
Qed.

(** The dump of a queue stays inside the stream's buffer. *)
Lemma dump_safe sgn fmt now q s :
  wfq q [] -> tokens q -> (forall t ms, Z.of_nat (length (fmt t ms)) < 2 ^ 31) -> IoStream.wf s ->
  exists s', dump fmt sgn now (Some s) q = Some (Some s') /\ IoStream.wf s'.
Proof.
  intros W T Hfmt Ws. unfold dump.
  assert (Hloop : forall l s, (forall p, p ∈ l -> is_Some (units q !! p)) -> IoStream.wf s ->
    exists s', dump_loop fmt (units q) now l s = Some s' /\ IoStream.wf s').
  { induction l as [|p l IH]; intros s0 Hl W0; cbn [dump_loop]; [by exists s0|].
    destruct (Hl p) as [e He]; [set_solver|]. destruct (T p e He) as [t Ht].
    rewrite He. cbn [mbind option_bind]. rewrite Ht. cbn [mbind option_bind].
    destruct (IoStream.exec_wf sgn s0 (IoStream.OPrint (Some (fmt t (time_minus (tvAbsolute e) now)))) W0)
      as (r & s1 & E & W1); [by apply Hfmt|]. simpl in E. rewrite E. cbn [mbind option_bind].
    apply IH; [set_solver|done]. }
  assert (Hputc : forall s0, IoStream.wf s0 -> exists r s1, IoStream.ioStreamPutc sgn 10 s0 = Some (r, s1) /\ IoStream.wf s1).
  { intros s0 W0. by apply (IoStream.exec_wf sgn s0 (IoStream.OPutc 10)). }
  destruct (isEmpty q).
  - cbn [mbind option_bind]. destruct (Hputc s Ws) as (r & s1 & -> & W1). by exists s1.
  - destruct (Hloop (mList q) s) as (s1 & -> & W1); [|done|].
    { intros p Hp. apply (wfq_live _ _ W). set_solver. }
    cbn [mbind option_bind].
    destruct (Hputc (IoStream.ioStreamSeek s1 (-3) IoStream.SEEK_CUR).2) as (r & s2 & -> & W2).
    { apply IoStream.seek_wf; [done|]. width_lia. }
    by exists s2.
Qed.

(** ** Instances *)

(** An allocator: past every live unit. *)
Definition bump (u : gmap Z EventUnit) : Z := foldr (fun e m => Z.max (e.1 + 32) m) 4096 (map_to_list u).

Lemma bump_fresh u : bump u <> 0 -> u !! bump u = None.
Proof.
  intros _. apply eq_None_not_Some. intros [e He]. apply elem_of_map_to_list in He. revert He.
  assert (forall l x f, (x, f) ∈ l -> x < foldr (fun e m => Z.max (e.1 + 32) m) 4096 (l : list (Z * EventUnit))) as H.
  { induction l as [|[y g] l IH]; intros x f [[= -> ->]|Hx]%elem_of_cons || (intros x f Hx; by apply elem_of_nil in Hx).
    - simpl. lia.
    - simpl. specialize (IH x f Hx). lia. }
  intros He. apply H in He. unfold bump in He. lia.
Qed.

Definition noon : timeval := mkTv 1000 999000.
Definition noon2 : nat -> timeval := fun _ => mkTv 1002 0.

Lemma noon_ok : reading_ok noon.
Proof. unfold reading_ok, norm, MILLION; simpl; lia. Qed.
Lemma noon2_ok j : reading_ok (noon2 j).
Proof. unfold reading_ok, norm, MILLION; simpl; lia. Qed.

(** A timer whose callback adds another one. *)
Definition again : effect -> list qcall :=
  fun eff => match eff with Timeout 100 => [CLater 5 TIMED_RECYCLE 300] | _ => [] end.

Lemma again_ok eff : Forall call_ok (again eff).
Proof.
  unfold again. destruct eff as [h|h|h|h]; try constructor.
  repeat case_match; repeat constructor; lia.
Qed.

Definition three_calls : list qcall :=
  [CPeriod 20 PERIOD_SEMAPHORE 200; CLater 5 TIMED_CALLBACK 100; CLater 2000 TIMED_CALLBACK 101].
Definition three_timers : TimedEventQ :=
  default (newQ noon) (exec_calls bump noon three_calls (newQ noon)).

Lemma qreach_calls new_unit reaction now cs q q' :
  qreach new_unit reaction q -> reading_ok now -> Forall call_ok cs ->
  exec_calls new_unit now cs q = Some q' -> qreach new_unit reaction q'.
Proof.
  intros Hq Hn Hcs. revert q Hq. induction Hcs as [|c cs Hc _ IH]; intros q Hq; cbn [exec_calls].
  - by intros [= <-].
  - intros (q1 & E1 & E)%bind_Some. apply (IH q1); [by eapply qr_call|done].
Qed.

Lemma three_timers_reach : qreach bump again three_timers.
Proof.
  apply (qreach_calls bump again noon three_calls (newQ noon) three_timers); [apply qr_new|exact noon_ok| |].
  - repeat constructor; lia.
  - vm_compute. reflexivity.
Qed.

Lemma three_timers_wf : wfq three_timers [] /\ tokens three_timers.
Proof. exact (qreach_ok bump again three_timers bump_fresh again_ok three_timers_reach). Qed.

Lemma timer_queue_safe_witness :
  mList three_timers = [4128; 4096; 4160]
  /\ is_Some (exec_call bump noon (CPeriod 1 PERIOD_CONDITION 9) three_timers)
  /\ is_Some (handleAlarmEvent bump again noon2 three_timers).
Proof.
  destruct (timer_queue_safe bump again three_timers bump_fresh again_ok three_timers_reach)
    as (_ & _ & _ & H1 & H2).
  split; [vm_compute; reflexivity|]. split.
  - apply H1; [exact noon_ok|simpl; lia].
  - apply H2. exact noon2_ok.
Defined.

Lemma alarm_pass_fires_due_witness :
  exists q', handleAlarmEvent bump again noon2 three_timers = Some ([Timeout 100; Post 200], q').
Proof.
  destruct (alarm_pass_fires_due bump again noon2 three_timers bump_fresh again_ok (proj1 three_timers_wf) noon2_ok)
    as (effs & q' & H & -> & _).
  exists q'. rewrite H. f_equal.
Defined.

Lemma next_event_is_earliest_witness :
  exists p e, units three_timers !! p = Some e /\ abstimeToNextEvent three_timers = Some (0, tvAbsolute e)
    /\ forall p' e', units three_timers !! p' = Some e' -> us (tvAbsolute e) <= us (tvAbsolute e').
Proof.
  pose proof (next_event_is_earliest three_timers (proj1 three_timers_wf)) as H.
  assert (E : mList three_timers = [4128; 4096; 4160]) by (vm_compute; reflexivity).
  rewrite E in H. exact H.
Defined.

Lemma events_owned_once_witness :
  exists s, crun bump (mkC (newQ noon) [] []) s /\ firing s = [4096] /\ NoDup (mList (cq s) ++ firing s).
Proof.
  assert (Hr : exists s, crun bump (mkC (newQ noon) [] []) s /\ firing s = [4096]).
  { eexists. split; [|shelve]. eapply rtc_l; [|apply rtc_once].
    - eapply (c_period _ noon 0 PERIOD_SEMAPHORE 7); [exact noon_ok|lia|vm_compute; reflexivity].
    - eapply (c_splice _ noon); [apply noon_ok|vm_compute; reflexivity].
    Unshelve. reflexivity. }
  destruct Hr as (s & Hs & Hf). exists s. split; [exact Hs|]. split; [exact Hf|].
  exact (proj1 (events_owned_once bump noon s bump_fresh Hs)).
Defined.

Lemma token_written_after_free_witness :
  exists s p, crun bump (mkC (newQ noon) [] []) s /\ p ∈ waiting s /\ take_token p (cq s) = None.
Proof.
  apply (token_written_after_free bump noon 7 bump_fresh); [vm_compute; discriminate|discriminate|exact noon_ok].
Defined.

Lemma delete_found_is_use_after_free_witness :
  delTimedEvent 2 three_timers = None /\ delTimedEvent 9 three_timers = Some (0, three_timers).
Proof.
  split.
  - apply (delete_found_is_use_after_free three_timers 2 (proj1 three_timers_wf) (proj2 three_timers_wf)).
    exists 4128. eexists. split; vm_compute; reflexivity.
  - vm_compute. reflexivity.
Defined.
