(* ===== verification/TokenPool.v ===== *)
(** * libaux/TokenPool.cpp: interned names

    The pool is a buffer of [CONST_TOKENPOOL_SIZE] bytes filled from the front
    ([bufferPtr] is an offset in it) and [CONST_TOKENPOOL_ROWS] rows of
    pointers into the buffer, a row per hash value; a pointer is [Some] offset,
    [None] is NULL.  [None] as a result is an undefined access.  The lock is
    held during a whole operation, so operations do not interleave. *)

From S2P Require Import Prelude.

Definition CONST_TOKENPOOL_SIZE : Z := 65536.
Definition CONST_TOKENPOOL_ROWS : nat := 128.

Record TokenPool := mkPool {
  mRows : list (list (option Z));
  tokenBuffer : bytes;
  bufferPtr : Z
}.

(** The constructor (of a static object, so the buffer is zero). *)
Definition newPool : TokenPool :=
  mkPool (replicate CONST_TOKENPOOL_ROWS []) (replicate (Z.to_nat CONST_TOKENPOOL_SIZE) 0) 0.

(** The C string at an offset: the bytes before the first NUL. *)
Fixpoint until_nul (m : bytes) : option cstr :=
  match m with
  | [] => None
  | c :: m => if c =? 0 then Some [] else s ← until_nul m; Some (c :: s)
  end.
Definition cstr_at (m : bytes) (off : Z) : option cstr :=
  if 0 <=? off then until_nul (drop (Z.to_nat off) m) else None.

Section pool.
Variable sgn : bool.   (* is [char] signed *)

Fixpoint hash_loop (hash : Z) (count : Z) (s : cstr) : Z :=
  match s with
  | [] => hash
  | c :: s =>
      if count =? 0 then hash
      else hash_loop (u32 (u32 (u32 (Z.shiftl hash 5) + hash) + chr sgn c)) (count - 1) s
  end.

Definition Hash (s : cstr) : Z :=
  let count := Z.of_nat (length s) in
  hash_loop 5381 (if (count <? 0) || (7 <=? count) then 7 else count) s.

Definition alloc_nolock (name : cstr) (p : TokenPool) : option (option Z * TokenPool) :=
  let size := 1 + Z.of_nat (length name) in
  if CONST_TOKENPOOL_SIZE <=? bufferPtr p + size then Some (None, p)
  else
    m ← store (tokenBuffer p) (bufferPtr p) (name ++ [0]);
    Some (Some (bufferPtr p), mkPool (mRows p) m (bufferPtr p + size)).

(** [strcmp] with a NULL pointer is undefined. *)
Fixpoint find_token (m : bytes) (name : cstr) (entry : list (option Z)) : option (option (option Z)) :=
  match entry with
  | [] => Some None
  | it :: entry =>
      off ← it; s ← cstr_at m off;
      if bool_decide (s = name) then Some (Some it) else find_token m name entry
  end.

Definition atomize (name : cstr) (p : TokenPool) : option (option Z * TokenPool) :=
  let n := Z.of_nat (length (mRows p)) in
  let index := Z.to_nat (Hash name mod n) in
  entry ← mRows p !! index;
  r ← find_token (tokenBuffer p) name entry;
  match r with
  | Some it => Some (it, p)
  | None =>
      '(it, p) ← alloc_nolock name p;
      Some (it, mkPool (<[index := entry ++ [it]]> (mRows p)) (tokenBuffer p) (bufferPtr p))
  end.

Definition clear (p : TokenPool) : TokenPool :=
  mkPool (replicate CONST_TOKENPOOL_ROWS []) (tokenBuffer p) 0.

(** What [dump] prints: the names of each row. *)
Definition dump (p : TokenPool) : option (list (list cstr)) :=
  mapM (mapM (fun it => off ← it; cstr_at (tokenBuffer p) off)) (mRows p).

(** ** Interning *)

(** [off] is the address of the token [name]. *)
Definition token_at (p : TokenPool) (off : Z) (name : cstr) : Prop :=
  0 <= off /\ off + Z.of_nat (length name) + 1 <= bufferPtr p /\ is_cstr name
  /\ take (length name + 1) (drop (Z.to_nat off) (tokenBuffer p)) = name ++ [0].

Definition row_of (name : cstr) : nat := Z.to_nat (Hash name mod 128).

Record pool_ok (p : TokenPool) : Prop := {
  pool_rows : length (mRows p) = CONST_TOKENPOOL_ROWS;
  pool_buffer : Z.of_nat (length (tokenBuffer p)) = CONST_TOKENPOOL_SIZE;
  pool_ptr : 0 <= bufferPtr p < CONST_TOKENPOOL_SIZE;
  pool_entries i row it : mRows p !! i = Some row -> it ∈ row ->
    exists off name, it = Some off /\ token_at p off name /\ row_of name = i;
  pool_unique i row j1 j2 off1 off2 name : mRows p !! i = Some row ->
    row !! j1 = Some (Some off1) -> row !! j2 = Some (Some off2) ->
    token_at p off1 name -> token_at p off2 name -> j1 = j2
}.

(** [off] is a token's address the pool has handed out. *)
Definition interned (p : TokenPool) (off : Z) : Prop := exists row, row ∈ mRows p /\ Some off ∈ row.

Lemma until_nul_app s rest : is_cstr s -> until_nul (s ++ 0 :: rest) = Some s.
Proof.
  induction 1 as [|c s Hc _ IH]; cbn [until_nul app]; [done|].
  rewrite (proj2 (Z.eqb_neq c 0)) by lia. by rewrite IH.
Qed.

Lemma token_cstr p off name : token_at p off name -> cstr_at (tokenBuffer p) off = Some name.
Proof.
  intros (H0 & _ & Hc & Ht). unfold cstr_at. rewrite (proj2 (Z.leb_le _ _)) by done.
  rewrite <- (take_drop (length name + 1) (drop (Z.to_nat off) (tokenBuffer p))), Ht, <- app_assoc.
  by apply until_nul_app.
Qed.

Lemma token_name_inj p off name name' : token_at p off name -> token_at p off name' -> name = name'.
Proof. intros H%token_cstr H'%token_cstr. congruence. Qed.

Lemma find_token_ok p name row :
  (forall it, it ∈ row -> exists off s, it = Some off /\ token_at p off s) ->
  (exists off, Some off ∈ row /\ token_at p off name /\ find_token (tokenBuffer p) name row = Some (Some (Some off)))
  \/ (find_token (tokenBuffer p) name row = Some None
      /\ forall off, Some off ∈ row -> ~ token_at p off name).
Proof.
  induction row as [|it row IH]; intros Hrow; cbn [find_token].
  - right. split; [done|set_solver].
  - destruct (Hrow it) as (off & s & -> & Hs); [set_solver|]. cbn [mbind option_bind].
    rewrite (token_cstr _ _ _ Hs). cbn [mbind option_bind]. case_bool_decide as Heq.
    + subst s. left. exists off. split_and!; [set_solver|done|done].
    + destruct IH as [(off' & Hin & Hn & E)|[E Hn]]; [set_solver| |].
      * left. exists off'. split_and!; [set_solver|done|done].
      * right. split; [done|]. intros off' [Ho|Ho]%elem_of_cons; [|by apply Hn].
        injection Ho as ->. intros Hn'. by apply Heq, (token_name_inj p off).
Qed.

Lemma store_token p m name :
  0 <= bufferPtr p -> is_cstr name ->
  store (tokenBuffer p) (bufferPtr p) (name ++ [0]) = Some m ->
  let p' := mkPool (mRows p) m (bufferPtr p + (1 + Z.of_nat (length name))) in
  token_at p' (bufferPtr p) name
  /\ (forall off s, token_at p off s -> token_at p' off s)
  /\ (forall off s, off + Z.of_nat (length s) + 1 <= bufferPtr p -> token_at p' off s -> token_at p off s).
Proof.
  intros Hp Hc Hm. pose proof (store_take _ _ _ _ Hm) as Ht.
  assert (Hkeep : forall off (s : cstr), 0 <= off -> off + Z.of_nat (length s) + 1 <= bufferPtr p ->
    take (length s + 1) (drop (Z.to_nat off) m) = take (length s + 1) (drop (Z.to_nat off) (tokenBuffer p))).
  { intros off s H0 H1. rewrite !take_drop_commute. f_equal.
    assert (Hle : (Z.to_nat off + (length s + 1) <= Z.to_nat (bufferPtr p))%nat) by lia.
    pose proof (f_equal (take (Z.to_nat off + (length s + 1))) Ht) as E.
    rewrite take_take, Nat.min_l in E by lia. rewrite E.
    assert (Hlen : (Z.to_nat (bufferPtr p) <= length (tokenBuffer p))%nat).
    { assert (is_Some (store (tokenBuffer p) (bufferPtr p) (name ++ [0]))) as [_ Hr]%store_is_Some by eauto. lia. }
    rewrite take_app_le by (rewrite length_take; lia). by rewrite take_take, Nat.min_l by lia. }
  split_and!.
  - unfold token_at. simpl. split_and!; [done|lia|done|].
    rewrite take_drop_commute.
    replace (Z.to_nat (bufferPtr p) + (length name + 1))%nat
      with (Z.to_nat (bufferPtr p) + length (name ++ [0%Z]))%nat by (rewrite length_app; simpl; lia).
    rewrite Ht. rewrite drop_app_ge; rewrite length_take.
    + assert (is_Some (store (tokenBuffer p) (bufferPtr p) (name ++ [0]))) as [_ Hr]%store_is_Some by eauto.
      by replace (_ - _)%nat with 0%nat by lia.
    + lia.
  - intros off s (H0 & H1 & H2 & H3). unfold token_at. simpl. split_and!; [done|lia|done|].
    rewrite Hkeep by lia. done.
  - intros off s H1 (H0 & _ & H2 & H3). simpl in *. unfold token_at. split_and!; [done|done|done|].
    by rewrite <- Hkeep.
Qed.

Lemma interned_inj p off1 off2 name :
  pool_ok p -> interned p off1 -> interned p off2 ->
  token_at p off1 name -> token_at p off2 name -> off1 = off2.
Proof.
  intros P (r1 & Hr1 & H1) (r2 & Hr2 & H2) T1 T2.
  apply list_elem_of_lookup in Hr1 as [i1 Hr1]. apply list_elem_of_lookup in Hr2 as [i2 Hr2].
  destruct (pool_entries _ P i1 r1 (Some off1) Hr1 H1) as (o & s & [= <-] & Hs & Hi1).
  destruct (pool_entries _ P i2 r2 (Some off2) Hr2 H2) as (o & s' & [= <-] & Hs' & Hi2).
  rewrite (token_name_inj _ _ _ _ Hs T1) in Hi1. rewrite (token_name_inj _ _ _ _ Hs' T2) in Hi2.
  subst i1 i2. assert (r1 = r2) as <- by congruence.
  apply list_elem_of_lookup in H1 as [j1 H1]. apply list_elem_of_lookup in H2 as [j2 H2].
  pose proof (pool_unique _ P _ _ _ _ _ _ _ Hr1 H1 H2 T1 T2) as ->. congruence.
Qed.

Lemma row_lookup p name :
  pool_ok p -> exists row, mRows p !! row_of name = Some row /\ row ∈ mRows p.
Proof.
  intros P. assert (row_of name < length (mRows p))%nat.
  { rewrite (pool_rows _ P). unfold row_of, CONST_TOKENPOOL_ROWS.
    pose proof (Z.mod_pos_bound (Hash name) 128). lia. }
  destruct (lookup_lt_is_Some_2 (mRows p) (row_of name)) as [row Hr]; [done|].
  exists row. split; [done|]. by eapply list_elem_of_lookup_2.
Qed.

(** A pool without room for [name]. *)
Definition full (p : TokenPool) (name : cstr) : Prop :=
  CONST_TOKENPOOL_SIZE <= bufferPtr p + 1 + Z.of_nat (length name)
  /\ forall off, interned p off -> ~ token_at p off name.

(** The pool grew by at most one token. *)
Record atomized (p p' : TokenPool) (name : cstr) (off : Z) : Prop := {
  at_ok : pool_ok p';
  at_token : token_at p' off name;
  at_interned : interned p' off;
  at_kept o s : interned p o -> token_at p o s -> interned p' o /\ token_at p' o s;
  at_size : bufferPtr p <= bufferPtr p' <= bufferPtr p + 1 + Z.of_nat (length name)
}.

Lemma insert_row {A} (rows : list (list A)) i row x j r :
  rows !! i = Some row -> <[i := row ++ [x]]> rows !! j = Some r ->
  (j = i /\ r = row ++ [x]) \/ (j <> i /\ rows !! j = Some r).
Proof.
  intros Hi Hj. destruct (decide (j = i)) as [->|Hne].
  - rewrite list_lookup_insert_eq in Hj by (by eapply lookup_lt_Some). left. by injection Hj as <-.
  - rewrite list_lookup_insert_ne in Hj by done. by right.
Qed.

Lemma atomize_cases name p :
  pool_ok p -> is_cstr name ->
  (exists off p', atomize name p = Some (Some off, p') /\ atomized p p' name off)
  \/ (full p name /\ exists row, mRows p !! row_of name = Some row
        /\ atomize name p = Some (None, mkPool (<[row_of name := row ++ [None]]> (mRows p))
                                          (tokenBuffer p) (bufferPtr p))).
Proof.
  intros P Hc. destruct (row_lookup p name P) as (row & Hrow & Hin). unfold atomize.
  rewrite (pool_rows _ P). change (Z.of_nat CONST_TOKENPOOL_ROWS) with 128.
  fold (row_of name). rewrite Hrow. cbn [mbind option_bind].
  destruct (find_token_ok p name row) as [(off & Ho & Hn & ->)|[-> Hn]].
  { intros it Hit. destruct (pool_entries _ P _ _ _ Hrow Hit) as (o & s & ? & ? & _). eauto. }
  - cbn [mbind option_bind]. left. exists off, p. split; [done|].
    assert (interned p off) by (by exists row). split; [done|done|done|done|lia].
  - cbn [mbind option_bind].
    assert (Hnone : forall off, interned p off -> ~ token_at p off name).
    { intros off (r & Hr & Ho) Ht. apply list_elem_of_lookup in Hr as [i Hr].
      destruct (pool_entries _ P i r (Some off) Hr Ho) as (o & s & [= <-] & Hs & Hi).
      rewrite (token_name_inj _ _ _ _ Hs Ht) in Hi. subst i. apply (Hn off); [congruence|done]. }
    unfold alloc_nolock. destruct (CONST_TOKENPOOL_SIZE <=? _) eqn:Hroom; bool_to_prop.
    { right. split; [split; [lia|done]|]. exists row. by split. }
    destruct (proj2 (store_is_Some (tokenBuffer p) (bufferPtr p) (name ++ [0]))) as [m Hm].
    { rewrite length_app. simpl. pose proof (pool_ptr _ P). rewrite (pool_buffer _ P). lia. }
    rewrite Hm. cbn [mbind option_bind]. left. cbn [mRows tokenBuffer bufferPtr].
    pose proof (store_token p m name (proj1 (pool_ptr _ P)) Hc Hm) as [T1 [T2 T3]].
    set (p1 := mkPool _ m _) in *. eexists _, _. split; [done|].
    set (p2 := mkPool _ m _).
    assert (Tsame : forall o s, token_at p2 o s <-> token_at p1 o s) by done.
    assert (Hold : forall o s r, r ∈ mRows p -> Some o ∈ r -> token_at p2 o s -> token_at p o s).
    { intros o s r Hr Ho Ht. apply T3; [|by apply Tsame]. apply list_elem_of_lookup in Hr as [i Hr].
      destruct (pool_entries _ P i r (Some o) Hr Ho) as (o' & s' & [= <-] & Hs & _).
      apply T2 in Hs as Hs'. rewrite (token_name_inj _ _ _ _ (proj1 (Tsame o s) Ht) Hs'). by apply Hs. }
    split.
    + split.
      * simpl. by rewrite length_insert, (pool_rows _ P).
      * simpl. by rewrite (store_length _ _ _ _ Hm), (pool_buffer _ P).
      * simpl. pose proof (pool_ptr _ P). lia.
      * intros i r it Hr Hit. apply (insert_row _ _ _ _ _ _ Hrow) in Hr as [[-> ->]|[Hne Hr]].
        -- apply elem_of_app in Hit as [Hit|Hit].
           ++ destruct (pool_entries _ P _ _ _ Hrow Hit) as (o & s & -> & Hs & Hi). exists o, s. eauto.
           ++ apply list_elem_of_singleton in Hit as ->. by exists (bufferPtr p), name.
        -- destruct (pool_entries _ P _ _ _ Hr Hit) as (o & s & -> & Hs & Hi). exists o, s. eauto.
      * intros i r j1 j2 o1 o2 s Hr Hj1 Hj2 H1 H2.
        apply (insert_row _ _ _ _ _ _ Hrow) in Hr as [[-> ->]|[Hne Hr]].
        -- assert (Hnew : forall j o, (row ++ [Some (bufferPtr p)]) !! j = Some (Some o) ->
             token_at p2 o s -> (j < length row)%nat /\ row !! j = Some (Some o) /\ token_at p o s
             \/ j = length row /\ s = name).
           { intros j o Hj Ht. apply lookup_app_Some in Hj as [Hj|[Hle Hj]].
             - left. split_and!; [by eapply lookup_lt_Some|done|]. apply (Hold o s row); [done| |done].
               by eapply list_elem_of_lookup_2.
             - right. apply list_lookup_singleton_Some in Hj as [Hj [= <-]]. split; [lia|].
               by apply (token_name_inj p2 (bufferPtr p)). }
           destruct (Hnew j1 o1 Hj1 H1) as [(_ & K1 & L1)|[-> ->]], (Hnew j2 o2 Hj2 H2) as [(_ & K2 & L2)|[-> E2]].
           ++ by eapply (pool_unique _ P _ row _ _ o1 o2 s).
           ++ subst s. exfalso. apply (Hn o1); [by eapply list_elem_of_lookup_2|done].
           ++ exfalso. apply (Hn o2); [by eapply list_elem_of_lookup_2|done].
           ++ done.
        -- assert (r ∈ mRows p) by (by eapply list_elem_of_lookup_2).
           eapply (pool_unique _ P _ r _ _ o1 o2 s); [done|done|done| |];
             eapply Hold; [done|by eapply list_elem_of_lookup_2|done|done|by eapply list_elem_of_lookup_2|done].
    + by apply Tsame.
    + exists (row ++ [Some (bufferPtr p)]). split; [|set_solver]. simpl.
      apply list_elem_of_lookup_2 with (row_of name). apply list_lookup_insert_eq. by eapply lookup_lt_Some.
    + intros o s (r & Hr & Ho) Hs. split; [|by apply Tsame, T2].
      apply list_elem_of_lookup in Hr as [i Hr]. destruct (decide (i = row_of name)) as [->|Hne].
      * exists (row ++ [Some (bufferPtr p)]). split; [|replace r with row in Ho by congruence; set_solver].
        simpl. apply list_elem_of_lookup_2 with (row_of name). apply list_lookup_insert_eq. by eapply lookup_lt_Some.
      * exists r. split; [|done]. simpl. apply list_elem_of_lookup_2 with i. by rewrite list_lookup_insert_ne.
    + simpl. lia.
Qed.

(** A name already interned is found, and nothing changes. *)
Lemma atomize_hit name off p :
  pool_ok p -> interned p off -> token_at p off name -> atomize name p = Some (Some off, p).
Proof.
  intros P I T. destruct (row_lookup p name P) as (row & Hrow & Hin). unfold atomize.
  rewrite (pool_rows _ P). change (Z.of_nat CONST_TOKENPOOL_ROWS) with 128.
  fold (row_of name). rewrite Hrow. cbn [mbind option_bind].
  destruct (find_token_ok p name row) as [(o & Ho & Ht & ->)|[_ Hn]].
  { intros it Hit. destruct (pool_entries _ P _ _ _ Hrow Hit) as (o & s & ? & ? & _). eauto. }
  - cbn [mbind option_bind]. do 3 f_equal. apply (interned_inj p o off name); [done|by exists row|done..].
  - exfalso. destruct I as (r & Hr & Ho). apply list_elem_of_lookup in Hr as [i Hr].
    destruct (pool_entries _ P i r (Some off) Hr Ho) as (o & s & [= <-] & Hs & Hi).
    rewrite (token_name_inj _ _ _ _ Hs T) in Hi. subst i. apply (Hn off); [congruence|done].
Qed.

Lemma newPool_ok : pool_ok newPool.
Proof.
  unfold newPool. split; cbn [mRows tokenBuffer bufferPtr].
  - apply length_replicate.
  - rewrite length_replicate. unfold CONST_TOKENPOOL_SIZE. lia.
  - unfold CONST_TOKENPOOL_SIZE. lia.
  - intros i row it Hr Hit. apply (lookup_replicate_1 CONST_TOKENPOOL_ROWS []) in Hr as [-> _]. exfalso. exact (not_elem_of_nil _ Hit).
  - intros i row j1 j2 o1 o2 name Hr Hj. apply (lookup_replicate_1 CONST_TOKENPOOL_ROWS []) in Hr as [-> _]. rewrite lookup_nil in Hj. discriminate Hj.
Qed.

(** [name] is interned, or there is room for it. *)
Definition known (p : TokenPool) (name : cstr) : Prop := exists off, interned p off /\ token_at p off name.
Definition has_room (p : TokenPool) (name : cstr) : Prop :=
  known p name \/ bufferPtr p + 1 + Z.of_nat (length name) < CONST_TOKENPOOL_SIZE.

Lemma atomize_room name p :
  pool_ok p -> is_cstr name -> has_room p name ->
  exists off p', atomize name p = Some (Some off, p') /\ atomized p p' name off.
Proof.
  intros P Hc R. destruct (atomize_cases name p P Hc) as [H|[[Hf Hn] _]]; [done|].
  exfalso. destruct R as [(off & I & T)|R]; [by eapply Hn|lia].
Qed.

(** The bytes that names take, each with its NUL. *)
Definition total_size (names : list cstr) : Z := foldr (fun n t => Z.of_nat (length n) + 1 + t) 0 names.

Lemma total_size_submseteq l k : l ⊆+ k -> total_size l <= total_size k.
Proof. induction 1; unfold total_size in *; simpl in *; lia. Qed.

(** The pool holds no more than the names [D], each once. *)
Record accounted (p : TokenPool) (D : list cstr) : Prop := {
  acc_nodup : NoDup D;
  acc_known n : n ∈ D -> known p n;
  acc_size : bufferPtr p <= total_size D
}.

Definition add_name (name : cstr) (names : list cstr) : list cstr :=
  if decide (name ∈ names) then names else names ++ [name].

Lemma add_name_sub name names (U : list cstr) :
  name ∈ U -> (forall n, n ∈ names -> n ∈ U) -> forall n, n ∈ add_name name names -> n ∈ U.
Proof.
  intros Hin Hsub n. unfold add_name. destruct (decide (name ∈ names)); [by apply Hsub|].
  rewrite elem_of_app, list_elem_of_singleton. intros [?| ->]; [by apply Hsub|done].
Qed.

Lemma accounted_room p D (U : list cstr) name :
  accounted p D -> (forall n, n ∈ D -> n ∈ U) -> name ∈ U -> total_size U < CONST_TOKENPOOL_SIZE ->
  has_room p name.
Proof.
  intros [A1 A2 A3] Hsub Hin HU. destruct (decide (name ∈ D)) as [Hd|Hd]; [left; by apply A2|].
  right. assert (H : total_size (name :: D) <= total_size U).
  { apply total_size_submseteq, NoDup_submseteq; [by constructor|].
    intros n [->|Hn]%elem_of_cons; [done|by apply Hsub]. }
  unfold total_size in *. simpl in H. lia.
Qed.

Lemma accounted_atomize p D name off p' :
  pool_ok p -> accounted p D -> atomize name p = Some (Some off, p') -> atomized p p' name off ->
  accounted p' (add_name name D).
Proof.
  intros P [A1 A2 A3] E [T1 T2 T3 T4 T5]. unfold add_name. destruct (decide (name ∈ D)) as [Hd|Hd].
  - destruct (A2 name Hd) as (o & I & T). rewrite (atomize_hit name o p P I T) in E. by injection E as _ <-.
  - split.
    + apply NoDup_app. split; [done|]. split; [set_solver|apply NoDup_singleton].
    + intros n [Hn|Hn]%elem_of_app.
      * destruct (A2 n Hn) as (o & I & T). exists o. by apply T4.
      * apply list_elem_of_singleton in Hn as ->. by exists off.
    + assert (H : total_size (name :: D) <= total_size (D ++ [name]))
        by (apply total_size_submseteq; by rewrite Permutation_app_comm).
      unfold total_size in *. simpl in H. lia.
Qed.

Lemma newPool_accounted : accounted newPool [].
Proof. split; [constructor|set_solver|done]. Qed.
End pool.

Fixpoint atomize_all (sgn : bool) (names : list cstr) (p : TokenPool) : option (list (option Z) * TokenPool) :=
  match names with
  | [] => Some ([], p)
  | name :: names =>
      '(it, p) ← atomize sgn name p; '(its, p) ← atomize_all sgn names p; Some (it :: its, p)
  end.

Lemma atomize_all_ok sgn U names p D :
  pool_ok sgn p -> accounted p D -> (forall n, n ∈ D -> n ∈ U) -> total_size U < CONST_TOKENPOOL_SIZE ->
  Forall (fun name => is_cstr name /\ name ∈ U) names ->
  exists offs p' D', atomize_all sgn names p = Some (map Some offs, p') /\ pool_ok sgn p'
    /\ accounted p' D' /\ (forall n, n ∈ D' -> n ∈ U)
    /\ (forall o s, interned p o -> token_at p o s -> interned p' o /\ token_at p' o s)
    /\ Forall2 (fun name off => interned p' off /\ token_at p' off name) names offs.
Proof.
  intros P A Hsub HU Hn. revert p D P A Hsub.
  induction Hn as [|name names [Hc Hin] _ IH]; intros p D P A Hsub; cbn [atomize_all].
  - exists [], p, D. split_and!; try done.
  - destruct (atomize_room sgn name p P Hc) as (off & p1 & E & T); [by eapply accounted_room|].
    pose proof (accounted_atomize sgn p D name off p1 P A E T) as A1. destruct T as [T1 T2 T3 T4 T5].
    rewrite E. cbn [mbind option_bind].
    destruct (IH p1 _ T1 A1 (add_name_sub _ _ _ Hin Hsub)) as (offs & p2 & D' & -> & P2 & A2 & Hs2 & Hk & Hall).
    cbn [mbind option_bind]. exists (off :: offs), p2, D'. split_and!; try done.
    + intros o s Ho Hs. destruct (T4 o s Ho Hs). by apply Hk.
    + constructor; [by apply Hk|done].
Qed.

(** C26: interning.  As long as the names asked for come from a list of names
    that, each counted once, take less than the 65536 bytes of the buffer (with
    a NUL each), [atomize] returns equal pointers exactly for equal names,
    whatever the order and however often each is asked for; every pointer it ever
    returned still reads as its name; and the space used is at most what that
    list takes, so that repetitions cost nothing. *)
Theorem atomize_interns sgn U names :
  Forall (fun name => is_cstr name /\ name ∈ U) names -> total_size U < CONST_TOKENPOOL_SIZE ->
  exists offs p, atomize_all sgn names newPool = Some (map Some offs, p)
    /\ bufferPtr p <= total_size U
    /\ Forall2 (fun name off => cstr_at (tokenBuffer p) off = Some name) names offs
    /\ forall i j ni nj oi oj, names !! i = Some ni -> names !! j = Some nj ->
         offs !! i = Some oi -> offs !! j = Some oj -> (oi = oj <-> ni = nj).
Proof.
  intros Hn Hs. destruct (atomize_all_ok sgn U names newPool [] (newPool_ok sgn) newPool_accounted
    ltac:(set_solver) Hs Hn) as (offs & p & D & E & P & [A1 _ A3] & Hsub & _ & H).
  exists offs, p. split_and!; [done| | |].
  - etrans; [exact A3|]. by apply total_size_submseteq, NoDup_submseteq.
  - eapply Forall2_impl; [exact H|]. intros name off [_ Ht]. by apply token_cstr.
  - intros i j ni nj oi oj Hi Hj Hoi Hoj.
    destruct (Forall2_lookup_lr _ _ _ _ _ _ H Hi Hoi) as [I1 T1].
    destruct (Forall2_lookup_lr _ _ _ _ _ _ H Hj Hoj) as [I2 T2]. split.
    + intros ->. by apply (token_name_inj p oj).
    + intros ->. by apply (interned_inj sgn p oi oj nj).
Qed.

(** exhaustion.  When a new name does not fit, [atomize] returns NULL, but
    it has queued that NULL in the name's row: asking for the name again
    compares it with a NULL string, which is undefined. *)
Theorem full_pool_poisons sgn p name :
  pool_ok sgn p -> is_cstr name -> full p name ->
  exists p', atomize sgn name p = Some (None, p') /\ atomize sgn name p' = None.
Proof.
  intros P Hc [Hf Hn]. destruct (atomize_cases sgn name p P Hc) as [(off & p1 & E & [A1 A2 A3 A4 A5])|[_ (row & Hrow & E)]].
  - exfalso. unfold atomize in E. destruct (row_lookup sgn p name P) as (row & Hrow & Hin).
    rewrite (pool_rows _ _ P) in E. change (Z.of_nat CONST_TOKENPOOL_ROWS) with 128 in E.
    fold (row_of sgn name) in E. rewrite Hrow in E. cbn [mbind option_bind] in E.
    destruct (find_token_ok p name row) as [(o & Ho & Ht & _)|[Ef _]].
    { intros it Hit. destruct (pool_entries _ _ P _ _ _ Hrow Hit) as (o & s & ? & ? & _). eauto. }
    + by apply (Hn o); [exists row|].
    + rewrite Ef in E. cbn [mbind option_bind] in E. unfold alloc_nolock in E.
      rewrite (proj2 (Z.leb_le _ _)) in E by lia. discriminate E.
  - eexists. split; [exact E|]. unfold atomize. cbn [mRows tokenBuffer].
    rewrite length_insert, (pool_rows _ _ P). change (Z.of_nat CONST_TOKENPOOL_ROWS) with 128.
    fold (row_of sgn name). rewrite list_lookup_insert_eq by (by eapply lookup_lt_Some). cbn [mbind option_bind].
    assert (find_token (tokenBuffer p) name (row ++ [None]) = None) as ->; [|done].
    assert (Hent : forall it, it ∈ row -> exists o s, it = Some o /\ token_at p o s /\ s <> name).
    { intros it Hit. destruct (pool_entries _ _ P _ _ _ Hrow Hit) as (o & s & -> & Hs & _).
      exists o, s. split_and!; [done|done|]. intros ->. apply (Hn o); [|done]. exists row. split; [|done].
      by eapply list_elem_of_lookup_2. }
    clear -Hent. induction row as [|it row IH]; cbn [find_token app]; [done|].
    destruct (Hent it) as (o & s & -> & Hs & Hne); [set_solver|]. cbn [mbind option_bind].
    rewrite (token_cstr _ _ _ Hs). cbn [mbind option_bind]. rewrite bool_decide_false by done.
    apply IH. set_solver.
Qed.

Lemma atomize_interns_witness :
  exists offs p, atomize_all true [[80; 84]; [77]; [80; 84]] newPool = Some (map Some offs, p)
    /\ offs = [0; 3; 0].
Proof.
  destruct (atomize_interns true [[77]; [80; 84]] [[80; 84]; [77]; [80; 84]]) as (offs & p & E & _).
  - repeat constructor; try lia; set_solver.
  - vm_compute. reflexivity.
  - exists offs, p. split; [exact E|].
    assert (Hv : fst <$> atomize_all true [[80; 84]; [77]; [80; 84]] newPool = Some [Some 0; Some 3; Some 0])
      by (vm_compute; reflexivity).
    rewrite E in Hv. cbn in Hv.
    destruct offs as [|a [|b [|c [|d l]]]]; cbn in Hv; congruence.
Defined.

(** A pool that an earlier name of 65000 bytes has nearly filled. *)
Definition long_name : cstr := replicate (Z.to_nat 65000) 97.
Definition second_name : cstr := replicate (Z.to_nat 600) 98.

Lemma full_pool_poisons_witness :
  exists p p', atomize true second_name p = Some (None, p') /\ atomize true second_name p' = None.
Proof.
  assert (Hl : is_cstr long_name) by (apply Forall_replicate; lia).
  assert (Hs : is_cstr second_name) by (apply Forall_replicate; lia).
  destruct (atomize_cases true long_name newPool (newPool_ok true) Hl) as [(off & p1 & E & A)|[[Hf _] _]].
  - exists p1. apply (full_pool_poisons true p1 second_name (at_ok _ _ _ _ _ A) Hs).
    assert (Hv : (fun r => bufferPtr r.2) <$> atomize true long_name newPool = Some 65001)
      by (vm_compute; reflexivity).
    rewrite E in Hv. cbn in Hv. injection Hv as Hv. split.
    + rewrite Hv. unfold second_name, CONST_TOKENPOOL_SIZE. rewrite length_replicate. lia.
    + intros o (row & Hr & Ho) Ht.
      assert (Hrows : exists x, atomize true long_name newPool = Some x
                /\ forall row o, row ∈ mRows x.2 -> Some o ∈ row -> o = 0).
      { eexists. split; [exact E|]. intros r o' Hr' Ho'.
        assert (Hall : (fun x => forallb (forallb (fun it => match it with Some o => o =? 0 | None => false end)) (mRows x.2))
                       <$> atomize true long_name newPool = Some true) by (vm_compute; reflexivity).
        rewrite E in Hall. cbn in Hall. injection Hall as Hall. rewrite forallb_forall in Hall.
        specialize (Hall r (proj1 (list_elem_of_In _ _) Hr')). rewrite forallb_forall in Hall.
        specialize (Hall _ (proj1 (list_elem_of_In _ _) Ho')). by apply Z.eqb_eq. }
      destruct Hrows as (x & Ex & Hx). rewrite E in Ex. injection Ex as <-.
      pose proof (Hx row o Hr Ho) as ->.
      assert (Hoff : off = 0).
      { destruct (at_interned _ _ _ _ _ A) as (r' & Hr' & Ho'). by apply (Hx r'). }
      subst off. pose proof (token_name_inj _ _ _ _ Ht (at_token _ _ _ _ _ A)) as Hbad.
      apply (f_equal length) in Hbad. unfold second_name, long_name in Hbad. rewrite !length_replicate in Hbad. lia.
  - exfalso. unfold long_name, CONST_TOKENPOOL_SIZE in Hf. rewrite length_replicate in Hf.
    change (bufferPtr newPool) with 0 in Hf. lia.
Defined.
