(* ===== verification/MetaBuffer.v ===== *)
(** * libaux/MetaBuffer.cpp: a media buffer with named fields

    The data is a block of bytes of [mCapacity] bytes with a current range; the
    fields are an array of at most [kMaxNumItems] items whose names are compared
    as pointers of the token pool, which every field operation threads.  A
    failed [CHECK] and an access outside the block give [None]. *)

From S2P Require Import Prelude TokenPool.

(** The union member an item was last given, with its value; floating-point
    values are their bits. *)
Inductive Type_ := kTypeInt32 | kTypeInt64 | kTypeSize | kTypeFloat | kTypeDouble | kTypePointer | kTypeString.

#[export] Instance Type_eq_dec : EqDecision Type_.
Proof. solve_decision. Defined.

Record Item := mkItem { mName : option Z; mType : Type_; u : Z }.

Record MetaBuffer := mkBuf {
  mData : bytes;
  mCapacity : Z;
  mRangeOffset : Z;
  mRangeLength : Z;
  mQuickData : Z;
  mOwnsData : bool;
  mDealloc : Z;
  mItems : list Item
}.

Definition kMaxNumItems : Z := 12.

(** [create]: with caller memory ([data]), or from [malloc] ([fresh] is what
    it returns, [None] when it fails; an empty object is deleted again). *)
Definition create (length_ : Z) (data : option bytes) (ff : Z) (fresh : option bytes) : option MetaBuffer :=
  match data with
  | Some d => Some (mkBuf d length_ 0 length_ 0 false ff [])
  | None => d ← fresh; Some (mkBuf d length_ 0 length_ 0 true 0 [])
  end.

Definition setRange (offset size : Z) (b : MetaBuffer) : MetaBuffer :=
  mkBuf (mData b) (mCapacity b) offset size (mQuickData b) (mOwnsData b) (mDealloc b) (mItems b).
Definition setQuickData (d : Z) (b : MetaBuffer) : MetaBuffer :=
  mkBuf (mData b) (mCapacity b) (mRangeOffset b) (mRangeLength b) d (mOwnsData b) (mDealloc b) (mItems b).
Definition set_items (items : list Item) (b : MetaBuffer) : MetaBuffer :=
  mkBuf (mData b) (mCapacity b) (mRangeOffset b) (mRangeLength b) (mQuickData b) (mOwnsData b) (mDealloc b) items.
Definition set_data (d : bytes) (b : MetaBuffer) : MetaBuffer :=
  mkBuf d (mCapacity b) (mRangeOffset b) (mRangeLength b) (mQuickData b) (mOwnsData b) (mDealloc b) (mItems b).

Definition clear (b : MetaBuffer) : MetaBuffer := set_items [] b.

(** The destructor frees its own memory or hands foreign memory to the
    caller's function: the calls it makes. *)
Inductive release := Free | Dealloc (ff : Z).
Definition destroy (b : MetaBuffer) : list release * MetaBuffer :=
  (if mOwnsData b then [Free] else if mDealloc b =? 0 then [] else [Dealloc (mDealloc b)], clear b).

(** [data()[i]], read and written. *)
Definition data_at (b : MetaBuffer) (i : Z) : option Z := load (mData b) (mRangeOffset b + i).
Definition data_put (b : MetaBuffer) (i : Z) (bs : bytes) : option MetaBuffer :=
  m ← store (mData b) (mRangeOffset b + i) bs; Some (set_data m b).

(** The [size()] bytes from [data()]. *)
Definition payload (b : MetaBuffer) : option bytes :=
  if (0 <=? mRangeOffset b) && (mRangeOffset b + mRangeLength b <=? Z.of_nat (length (mData b)))
  then Some (take (Z.to_nat (mRangeLength b)) (drop (Z.to_nat (mRangeOffset b)) (mData b))) else None.

Section fields.
Variable sgn : bool.

(** Overwrite the item named [name], or append one. *)
Fixpoint put_item (it : Item) (items : list Item) : list Item :=
  match items with
  | [] => [it]
  | x :: items => if bool_decide (mName x = mName it) then it :: items else x :: put_item it items
  end.

Fixpoint has_name (name : option Z) (items : list Item) : bool :=
  match items with
  | [] => false
  | x :: items => if bool_decide (mName x = name) then true else has_name name items
  end.

(** [set##NAME]: [allocateItem] and the two assignments. *)
Definition set_field (t : Type_) (name : cstr) (value : Z) (p : TokenPool) (b : MetaBuffer)
  : option (TokenPool * MetaBuffer) :=
  '(tok, p) ← atomize sgn name p;
  if negb (has_name tok (mItems b)) && negb (Z.of_nat (length (mItems b)) <? kMaxNumItems) then None
  else Some (p, set_items (put_item (mkItem tok t value) (mItems b)) b).

Fixpoint find_item (name : option Z) (t : Type_) (items : list Item) : option Item :=
  match items with
  | [] => None
  | x :: items =>
      if bool_decide (mName x = name) then (if bool_decide (mType x = t) then Some x else None)
      else find_item name t items
  end.

(** [find##NAME]: the value, when the answer is true. *)
Definition find_field (t : Type_) (name : cstr) (p : TokenPool) (b : MetaBuffer)
  : option (option Z * TokenPool) :=
  '(tok, p) ← atomize sgn name p;
  Some (u <$> find_item tok t (mItems b), p).

Definition setInt32 := set_field kTypeInt32.
Definition setInt64 := set_field kTypeInt64.
Definition findInt32 := find_field kTypeInt32.
Definition findInt64 := find_field kTypeInt64.

(** ** Fields as a map from names *)

(** What the field named by the token [tok] holds. *)
Definition field (items : list Item) (tok : option Z) : option (Type_ * Z) :=
  (fun r => (mType r.2, u r.2)) <$> list_find (fun it => mName it = tok) items.

Lemma field_cons x items tok :
  field (x :: items) tok = if decide (mName x = tok) then Some (mType x, u x) else field items tok.
Proof.
  unfold field. cbn [list_find]. destruct (decide (mName x = tok)); [done|].
  by destruct (list_find _ items) as [[]|].
Qed.

Lemma field_put it items tok :
  field (put_item it items) tok
  = if decide (mName it = tok) then Some (mType it, u it) else field items tok.
Proof.
  induction items as [|x items IH]; cbn [put_item].
  - by rewrite field_cons.
  - case_bool_decide as Hx; rewrite !field_cons.
    + rewrite Hx. by destruct (decide _).
    + rewrite IH. destruct (decide (mName x = tok)), (decide (mName it = tok)); congruence.
Qed.

Lemma find_item_field items tok t :
  u <$> find_item tok t items
  = match field items tok with Some (t', v) => if decide (t' = t) then Some v else None | None => None end.
Proof.
  induction items as [|x items IH]; [done|]. cbn [find_item]. rewrite field_cons.
  case_bool_decide; destruct (decide (mName x = tok)); try congruence.
  case_bool_decide; by destruct (decide (mType x = t)).
Qed.

Lemma has_name_field items tok : has_name tok items = true <-> is_Some (field items tok).
Proof.
  induction items as [|x items IH]; [split; [done|by intros [? [=]]]|].
  cbn [has_name]. rewrite field_cons.
  case_bool_decide; destruct (decide (mName x = tok)); try congruence. split; eauto.
Qed.

Lemma length_put_item it items :
  length (put_item it items) = if has_name (mName it) items then length items else S (length items).
Proof.
  induction items as [|x items IH]; [done|]. cbn [put_item has_name].
  case_bool_decide; [done|]. simpl. rewrite IH. by destruct (has_name _ _).
Qed.
End fields.

(** ** Runs of field operations *)

Inductive field_op := FSet (t : Type_) (name : cstr) (value : Z) | FFind (t : Type_) (name : cstr).

Fixpoint fields_run (sgn : bool) (os : list field_op) (p : TokenPool) (b : MetaBuffer)
  : option (list (option Z) * TokenPool * MetaBuffer) :=
  match os with
  | [] => Some ([], p, b)
  | FSet t name v :: os =>
      '(p, b) ← set_field sgn t name v p b; fields_run sgn os p b
  | FFind t name :: os =>
      '(r, p) ← find_field sgn t name p b;
      '(rs, p, b) ← fields_run sgn os p b; Some (r :: rs, p, b)
  end.

(** The specification: a finite map from names to typed values. *)
Fixpoint map_run (os : list field_op) (m : gmap (list Z) (Type_ * Z)) : list (option Z) :=
  match os with
  | [] => []
  | FSet t name v :: os => map_run os (<[name := (t, v)]> m)
  | FFind t name :: os =>
      match m !! name with Some (t', v) => if decide (t' = t) then Some v else None | None => None end
      :: map_run os m
  end.

Definition op_name (o : field_op) : cstr := match o with FSet _ n _ | FFind _ n => n end.

(** An item that holds what [m] says of the field [name], under the pool's
    token of that name. *)
Definition holds (p : TokenPool) (m : gmap (list Z) (Type_ * Z)) (it : Item) (name : cstr) : Prop :=
  exists off, mName it = Some off /\ interned p off /\ token_at p off name /\ m !! name = Some (mType it, u it).

(** The buffer's items represent the map [m], whose names are [names]. *)
Record fields_rep (sgn : bool) (p : TokenPool) (items : list Item) (m : gmap (list Z) (Type_ * Z))
    (names : list cstr) : Prop := {
  rep_pool : pool_ok sgn p;
  rep_items : Forall2 (holds p m) items names;
  rep_nodup : NoDup names;
  rep_dom name : is_Some (m !! name) -> name ∈ names
}.

Lemma rep_field sgn p items m names name off :
  fields_rep sgn p items m names -> interned p off -> token_at p off name ->
  field items (Some off) = m !! name.
Proof.
  intros [R1 R2 _ R4] I T.
  assert (H : field items (Some off) = if decide (name ∈ names) then m !! name else None).
  { clear R4. induction R2 as [|it n items names (o & H1 & H2 & H3 & H4) _ IH]; [done|].
    rewrite field_cons, H1. destruct (decide (Some o = Some off)) as [[= ->]|Hne].
    - rewrite (token_name_inj _ _ _ _ T H3), decide_True by set_solver. done.
    - rewrite IH. assert (name <> n).
      { intros ->. apply Hne. f_equal. by apply (interned_inj sgn p o off n). }
      repeat case_decide; set_solver. }
  rewrite H. destruct (decide (name ∈ names)) as [|Hn]; [done|]. symmetry. apply eq_None_not_Some.
  intros Hm. by apply Hn, R4.
Qed.

(** Interning one more name keeps the representation. *)
Lemma rep_atomized sgn p p' items m names name off :
  fields_rep sgn p items m names -> atomized sgn p p' name off -> fields_rep sgn p' items m names.
Proof.
  intros [R1 R2 R3 R4] [A1 _ _ A4 _]. split; [done| |done|done].
  eapply Forall2_impl; [exact R2|]. intros it n (o & H1 & H2 & H3 & H4).
  destruct (A4 o n H2 H3). by exists o.
Qed.

Lemma holds_insert p m it n name tv : n <> name -> holds p m it n -> holds p (<[name := tv]> m) it n.
Proof. intros Hne (o & H1 & H2 & H3 & H4). exists o. by rewrite lookup_insert_ne. Qed.

Lemma put_items sgn p items m names name off t v :
  pool_ok sgn p -> interned p off -> token_at p off name -> NoDup names ->
  Forall2 (holds p m) items names ->
  Forall2 (holds p (<[name := (t, v)]> m)) (put_item (mkItem (Some off) t v) items) (add_name name names).
Proof.
  intros P I T. revert names. induction items as [|x items IH]; intros names Hnd H; cbn [put_item].
  - inversion H. unfold add_name. rewrite decide_False by set_solver. constructor; [|constructor].
    exists off. by rewrite lookup_insert_eq.
  - inversion H as [|? n ? names' Hx Hrest]; subst. apply NoDup_cons in Hnd as [Hni Hnd].
    destruct Hx as (o & H1 & H2 & H3 & H4). cbn [mName]. rewrite H1. unfold add_name in *.
    case_bool_decide as Ho.
    + injection Ho as ->. pose proof (token_name_inj _ _ _ _ T H3) as ->. clear IH.
      rewrite decide_True by set_solver.
      constructor; [exists off; by rewrite lookup_insert_eq|].
      assert (forall l l', n ∉ l' -> Forall2 (holds p m) l l' -> Forall2 (holds p (<[n := (t, v)]> m)) l l') as K.
      { induction 2; constructor; [apply holds_insert; [set_solver|done]|]. apply IHForall2. set_solver. }
      by apply K.
    + assert (n <> name) by (intros ->; apply Ho; f_equal; by apply (interned_inj sgn p o off name)).
      specialize (IH names' Hnd Hrest).
      destruct (decide (name ∈ names')) as [Hin|Hnin]; [rewrite decide_True by set_solver|rewrite decide_False by set_solver];
        (constructor; [apply holds_insert; [done|by exists o]|done]).
Qed.

Lemma rep_put sgn p items m names name off t v :
  fields_rep sgn p items m names -> interned p off -> token_at p off name ->
  fields_rep sgn p (put_item (mkItem (Some off) t v) items) (<[name := (t, v)]> m) (add_name name names).
Proof.
  intros [R1 R2 R3 R4] I T. split; [done|by eapply put_items| |].
  - unfold add_name. destruct (decide (name ∈ names)) as [|Hn]; [done|]. apply NoDup_app.
    split_and!; [done|set_solver|apply NoDup_singleton].
  - intros n [x Hx]. unfold add_name. destruct (decide (n = name)) as [->|Hne].
    + destruct (decide (name ∈ names)); set_solver.
    + rewrite lookup_insert_ne in Hx by done. assert (n ∈ names) by (apply R4; by eexists).
      destruct (decide (name ∈ names)); set_solver.
Qed.

(** One field operation, from a pool with room for its name. *)
Lemma rep_atomize sgn p items m names name :
  fields_rep sgn p items m names -> is_cstr name -> has_room p name ->
  exists off p', atomize sgn name p = Some (Some off, p') /\ fields_rep sgn p' items m names
    /\ atomized sgn p p' name off.
Proof.
  intros R Hc Hroom.
  destruct (atomize_room sgn name p (rep_pool _ _ _ _ _ R) Hc Hroom) as (off & p' & E & A).
  exists off, p'. split_and!; [done|by eapply rep_atomized|done].
Qed.

Lemma set_field_ok sgn p b m names name t v (S : list cstr) :
  fields_rep sgn p (mItems b) m names -> is_cstr name -> has_room p name ->
  (length S <= 12)%nat -> name ∈ S -> (forall n, n ∈ names -> n ∈ S) ->
  exists p' b', set_field sgn t name v p b = Some (p', b')
    /\ fields_rep sgn p' (mItems b') (<[name := (t, v)]> m) (add_name name names)
    /\ exists off, atomize sgn name p = Some (Some off, p') /\ atomized sgn p p' name off.
Proof.
  intros R Hc Hroom HS Hin Hsub.
  destruct (rep_atomize sgn p (mItems b) m names name R Hc Hroom) as (off & p' & E & R' & A).
  pose proof (at_interned _ _ _ _ _ A) as I. pose proof (at_token _ _ _ _ _ A) as T.
  unfold set_field. rewrite E. cbn [mbind option_bind].
  assert (negb (has_name (Some off) (mItems b)) && negb (Z.of_nat (length (mItems b)) <? kMaxNumItems) = false) as ->.
  { apply andb_false_iff. destruct (has_name (Some off) (mItems b)) eqn:Eh; [by left|right].
    apply negb_false_iff, Z.ltb_lt. unfold kMaxNumItems.
    assert (Hnn : name ∉ names).
    { intros Hnn.
      assert (is_Some (m !! name)) as Hm.
      { pose proof (rep_items _ _ _ _ _ R') as H. clear -H Hnn.
        induction H as [|it n items names (o & _ & _ & _ & Hm) _ IH]; [set_solver|].
        apply elem_of_cons in Hnn as [->|Hnn]; [by eexists|by apply IH]. }
      rewrite <- (rep_field _ _ _ _ _ name off R' I T) in Hm. apply has_name_field in Hm. congruence. }
    assert (Hle : (length (name :: names) <= length S)%nat).
    { apply submseteq_length, NoDup_submseteq.
      - apply NoDup_cons. split; [done|]. apply (rep_nodup _ _ _ _ _ R').
      - intros n. rewrite elem_of_cons. intros [->|Hn]; [done|by apply Hsub]. }
    rewrite (Forall2_length _ _ _ (rep_items _ _ _ _ _ R')). simpl in Hle. lia. }
  eexists _, _. split; [done|]. split; [by apply rep_put|by exists off].
Qed.

Lemma fields_run_ok sgn (S : list cstr) os p b m names D :
  fields_rep sgn p (mItems b) m names -> (forall n, n ∈ names -> n ∈ S) -> (length S <= 12)%nat ->
  accounted p D -> (forall n, n ∈ D -> n ∈ S) -> total_size S < CONST_TOKENPOOL_SIZE ->
  Forall (fun o => is_cstr (op_name o) /\ op_name o ∈ S) os ->
  exists p' b', fields_run sgn os p b = Some (map_run os m, p', b').
Proof.
  intros R Hsub HS HA HD Hsize Hos. revert p b m names D R Hsub HA HD.
  induction Hos as [|o os [Hc Hin] _ IH]; intros p b m names D R Hsub HA HD; cbn [fields_run map_run].
  - by exists p, b.
  - pose proof (accounted_room p D S (op_name o) HA HD Hin Hsize) as Hroom.
    pose proof (rep_pool _ _ _ _ _ R) as P.
    destruct o as [t name v|t name]; cbn [op_name] in *.
    + destruct (set_field_ok sgn p b m names name t v S R Hc Hroom HS Hin Hsub) as (p1 & b1 & -> & R1 & off & E & A).
      cbn [mbind option_bind]. apply (IH p1 b1 _ _ (add_name name D) R1).
      * by apply add_name_sub.
      * by eapply accounted_atomize.
      * by apply add_name_sub.
    + destruct (rep_atomize sgn p (mItems b) m names name R Hc Hroom) as (off & p1 & E & R1 & A).
      unfold find_field. rewrite E. cbn [mbind option_bind].
      destruct (IH p1 b m names (add_name name D) R1 Hsub) as (p2 & b2 & ->).
      { by eapply accounted_atomize. }
      { by apply add_name_sub. }
      cbn [mbind option_bind]. exists p2, b2. do 4 f_equal.
      rewrite find_item_field, (rep_field _ _ _ _ _ name off R1 (at_interned _ _ _ _ _ A) (at_token _ _ _ _ _ A)). done.
Qed.

(** C25: the fields of a media buffer behave as a finite map from names to typed
    values.  Take any run of [set##NAME] and [find##NAME] on a buffer without
    fields, from an empty token pool, over at most twelve names that together,
    each counted once, take less than the 65536 bytes of the pool; the run may use
    each as often as it likes.  No operation fails, and a find answers the value last set
    under that name if it was set with the type asked for, and false
    otherwise. *)
Theorem fields_refine_map sgn (S : list cstr) os b :
  mItems b = [] -> (length S <= 12)%nat -> total_size S < CONST_TOKENPOOL_SIZE ->
  Forall (fun o => is_cstr (op_name o) /\ op_name o ∈ S) os ->
  exists p' b', fields_run sgn os newPool b = Some (map_run os ∅, p', b').
Proof.
  intros Hb HS Hsize Hos. apply (fields_run_ok sgn S os newPool b ∅ [] []); try done; try set_solver.
  - rewrite Hb. split; [apply newPool_ok|constructor|constructor|].
    intros n. rewrite lookup_empty. by intros [? [=]].
  - apply newPool_accounted.
Qed.

(** ** Fields whose names are interned already *)

Section labels.
Variable sgn : bool.

(** The token of a name in a pool. *)
Definition tok (p : TokenPool) (name : cstr) (off : Z) : Prop := interned p off /\ token_at p off name.

Lemma find_hit t name p off b :
  pool_ok sgn p -> tok p name off ->
  find_field sgn t name p b
  = Some (match field (mItems b) (Some off) with Some (t', v) => if decide (t' = t) then Some v else None
                                               | None => None end, p).
Proof.
  intros P [I T]. unfold find_field. rewrite (atomize_hit sgn name off p P I T). cbn [mbind option_bind].
  by rewrite find_item_field.
Qed.

Lemma set_hit t name v p off b :
  pool_ok sgn p -> tok p name off -> (length (mItems b) < 12)%nat ->
  set_field sgn t name v p b = Some (p, set_items (put_item (MetaBuffer.mkItem (Some off) t v) (mItems b)) b).
Proof.
  intros P [I T] HL. unfold set_field. rewrite (atomize_hit sgn name off p P I T). cbn [mbind option_bind].
  rewrite (proj2 (Z.ltb_lt _ kMaxNumItems)) by (unfold kMaxNumItems; lia). by rewrite andb_false_r.
Qed.

Lemma tok_ne p n1 n2 o1 o2 : tok p n1 o1 -> tok p n2 o2 -> n1 <> n2 -> Some o1 <> Some o2 :> option Z.
Proof. intros [_ T1] [_ T2] Hne [= ->]. by apply Hne, (token_name_inj p o2). Qed.
End labels.

Definition some_buffer : MetaBuffer := mkBuf (replicate 4 0) 4 0 4 0 true 0 [].
Definition ssrc : cstr := [115; 115; 114; 99].
Definition pt : cstr := [80; 84].
Definition some_ops : list field_op :=
  [FSet kTypeInt32 ssrc 7; FSet kTypeInt32 pt 8; FFind kTypeInt32 ssrc; FFind kTypeInt64 ssrc;
   FSet kTypeInt32 ssrc 9; FFind kTypeInt32 ssrc].

Lemma fields_refine_map_witness :
  exists p' b', fields_run true some_ops newPool some_buffer = Some ([Some 7; None; Some 9], p', b').
Proof.
  destruct (fields_refine_map true [ssrc; pt] some_ops some_buffer) as (p' & b' & E).
  - reflexivity.
  - simpl. lia.
  - vm_compute. reflexivity.
  - repeat constructor; simpl; try lia; set_solver.
  - exists p', b'. rewrite E. f_equal.
Defined.

(** A thirteenth name fails the [CHECK]. *)
Lemma thirteenth_field_aborts sgn p p' b t name v tok :
  atomize sgn name p = Some (tok, p') -> has_name tok (mItems b) = false -> length (mItems b) = 12%nat ->
  set_field sgn t name v p b = None.
Proof. intros E Hn Hl. unfold set_field. rewrite E. cbn [mbind option_bind]. by rewrite Hn, Hl. Qed.
