(* ===== verification/Rtp.v ===== *)
(** * libnet/Transport.cpp and RTPTransport.cpp: STUN, RTP and RTCP packets

    Packets are read through a [MetaBuffer]; a read or write outside its block
    gives [None].  The socket calls' results, the clock and [rand()] are
    arguments.  [ntp_now] stands for what [getWholeNTPNow] leaves in its argument,
    any value at all: the function shifts a 32-bit word by 32, which is undefined
    ([WallClock.getWholeNTPNow_undefined]), so nothing is proved of that value, and
    every theorem holds whatever it is.  [BREAK_IF(c)] leaves the enclosing
    loop when [c] holds and [DOING_IF(c)] when it does not; both come from a
    header that is not part of the repository.  Observers are told through
    [notes], the list of messages they received, the latest last. *)

From S2P Require Import Prelude TokenPool MetaBuffer.

(** ** Byte access *)

Definition u16at (b : MetaBuffer) (i : Z) : option Z :=
  x ← data_at b i; y ← data_at b (i + 1); Some (Z.lor (Z.shiftl x 8) y).
Definition u32at (b : MetaBuffer) (i : Z) : option Z :=
  x ← u16at b i; y ← u16at b (i + 2); Some (u32 (Z.lor (Z.shiftl x 16) y)).
Definition u64at (b : MetaBuffer) (i : Z) : option Z :=
  x ← u32at b i; y ← u32at b (i + 4); Some (Z.lor (Z.shiftl x 32) y).

(** The bytes of a word in network order. *)
Definition be16 (x : Z) : bytes := [Z.land (Z.shiftr x 8) 255; Z.land x 255].
Definition be32 (x : Z) : bytes :=
  [u8 (Z.shiftr x 24); Z.land (Z.shiftr x 16) 255; Z.land (Z.shiftr x 8) 255; Z.land x 255].

(** ** The transport *)

Record rtpInfo := mkInfo {
  nRTPSent : Z;
  nRTPOctetsSent : Z;
  nRcvdLost : Z;
  rcvdSourceId : Z;
  rcvdMaxSeqNum : Z;
  rcvdRTP : Z;
  rcvdRTPOctets : Z;
  rcvdRTCP : Z;
  totalRcvdLost : Z;
  arrivalJitter : Z;
  lastSR : Z
}.

Inductive note :=
  | FIRST_PACKET (rtpTime : Z)
  | RTCP_FIRST_PACKET
  | TIME_UPDATE (ntpTime rtpTime : Z)
  | END_OF_STREAM.

Record RTPTransport := mkRtp {
  useRTCP : bool;
  symmRTP : bool;
  firstRTP : bool;
  mObserver : bool;          (* is there an observer *)
  mEventId : Z;
  mRTPAddr : Z * Z;          (* address and port *)
  mRTCPAddr : Z * Z;
  mInfo : rtpInfo;
  mSourceID : Z;
  mSeqNo : Z;
  mRTPTimeBase : Z;
  mLastRTPTime : Z;
  mLastNTPSec : Z;
  mLastNTPUSec : Z;
  mPType : Z;
  notes : list note
}.

Definition set_info (i : rtpInfo) (s : RTPTransport) : RTPTransport :=
  mkRtp (useRTCP s) (symmRTP s) (firstRTP s) (mObserver s) (mEventId s) (mRTPAddr s) (mRTCPAddr s) i
    (mSourceID s) (mSeqNo s) (mRTPTimeBase s) (mLastRTPTime s) (mLastNTPSec s) (mLastNTPUSec s)
    (mPType s) (notes s).
Definition set_first (f : bool) (s : RTPTransport) : RTPTransport :=
  mkRtp (useRTCP s) (symmRTP s) f (mObserver s) (mEventId s) (mRTPAddr s) (mRTCPAddr s) (mInfo s)
    (mSourceID s) (mSeqNo s) (mRTPTimeBase s) (mLastRTPTime s) (mLastNTPSec s) (mLastNTPUSec s)
    (mPType s) (notes s).
Definition set_event (e : Z) (s : RTPTransport) : RTPTransport :=
  mkRtp (useRTCP s) (symmRTP s) (firstRTP s) (mObserver s) e (mRTPAddr s) (mRTCPAddr s) (mInfo s)
    (mSourceID s) (mSeqNo s) (mRTPTimeBase s) (mLastRTPTime s) (mLastNTPSec s) (mLastNTPUSec s)
    (mPType s) (notes s).
Definition set_addrs (rtp rtcp : Z * Z) (sym : bool) (s : RTPTransport) : RTPTransport :=
  mkRtp (useRTCP s) sym (firstRTP s) (mObserver s) (mEventId s) rtp rtcp (mInfo s)
    (mSourceID s) (mSeqNo s) (mRTPTimeBase s) (mLastRTPTime s) (mLastNTPSec s) (mLastNTPUSec s)
    (mPType s) (notes s).

(** [notify]. *)
Definition notify (m : note) (s : RTPTransport) : RTPTransport :=
  if mObserver s then
    mkRtp (useRTCP s) (symmRTP s) (firstRTP s) (mObserver s) (mEventId s) (mRTPAddr s) (mRTCPAddr s)
      (mInfo s) (mSourceID s) (mSeqNo s) (mRTPTimeBase s) (mLastRTPTime s) (mLastNTPSec s)
      (mLastNTPUSec s) (mPType s) (notes s ++ [m])
  else s.

(** [setTarget]: the RTCP port is one higher. *)
Definition setTarget (addr : Z * Z) (symmetric : bool) (s : RTPTransport) : RTPTransport :=
  set_addrs addr (if useRTCP s then (addr.1, u16 (addr.2 + 1)) else mRTCPAddr s) symmetric s.

(** [setBindPort]: the ports bound; [bind] answers for each. *)
Definition setBindPort (port : Z) (rtp_bind rtcp_bind : Z) (s : RTPTransport) : Z * list Z :=
  if negb (Z.land port 4294901760 =? 0) then (BAD_VALUE, [])
  else if useRTCP s && negb (Z.land port 1 =? 0) then (BAD_VALUE, [])
  else if negb (rtp_bind =? OK) then (rtp_bind, [port])
  else if useRTCP s then (rtcp_bind, [port; u16 (port + 1)])
  else (OK, [port]).

(** ** Sending RTP *)

Definition rtp_time (timeUs : Z) (video : bool) (s : RTPTransport) : Z :=
  if video then u32 (mRTPTimeBase s + timeUs * 90) else u32 timeUs.

Definition rtp_header (rtpTime : Z) (marker : bool) (s : RTPTransport) : bytes :=
  [128; Z.lor (if marker then 128 else 0) (mPType s)] ++ be16 (mSeqNo s) ++ be32 rtpTime ++ be32 (mSourceID s).

(** [doSend]: the packet handed to [sendto], if any. *)
Definition doSend (ntpsec ntpusec timeUs : Z) (video marker : bool) (b : MetaBuffer) (s : RTPTransport)
  : option (option bytes * MetaBuffer * RTPTransport) :=
  let rtpTime := rtp_time timeUs video s in
  let stamp s := mkRtp (useRTCP s) (symmRTP s) (firstRTP s) (mObserver s) (mEventId s) (mRTPAddr s)
    (mRTCPAddr s) (mInfo s) (mSourceID s) (mSeqNo s) (mRTPTimeBase s) rtpTime ntpsec ntpusec (mPType s) (notes s) in
  if 12 <=? mCapacity b then
    b ← data_put b 0 (rtp_header rtpTime marker s);
    pk ← payload b;
    let i := mInfo s in
    let i := mkInfo (u32 (nRTPSent i + 1)) (u32 (nRTPOctetsSent i + u32 (mRangeLength b - 12))) (nRcvdLost i)
      (rcvdSourceId i) (rcvdMaxSeqNum i) (rcvdRTP i) (rcvdRTPOctets i) (rcvdRTCP i) (totalRcvdLost i)
      (arrivalJitter i) (lastSR i) in
    let s := mkRtp (useRTCP s) (symmRTP s) (firstRTP s) (mObserver s) (mEventId s) (mRTPAddr s)
      (mRTCPAddr s) i (mSourceID s) (u32 (mSeqNo s + 1)) (mRTPTimeBase s) (mLastRTPTime s) (mLastNTPSec s)
      (mLastNTPUSec s) (mPType s) (notes s) in
    Some (Some pk, b, stamp s)
  else Some (None, b, stamp s).

(** ** STUN *)

Record stun := mkStun {
  mStunRequested : bool;
  mStunResponsed : bool;
  mReflAddr : bytes * bytes        (* port and address, in network order *)
}.

(** The request's 20 bytes; the transaction identifier is random.  The answer
    of [sendto] is compared with a [size_t], so that -1 passes for a large
    number. *)
Definition sendStunRequest (ids : bytes) (sent : Z) (t : stun) : Z * option bytes * stun :=
  if mStunRequested t then (OK, None, t)
  else
    let msg := be16 1 ++ [0; 0] ++ be32 554869826 ++ ids in
    if u32 sent <? 16 then (UNKNOWN_ERROR, Some msg, t)
    else (OK, Some msg, mkStun true false (mReflAddr t)).

Definition dropStunParsing (t : stun) : Z * stun := (OK, mkStun false false ([0; 0], [0; 0; 0; 0])).

Definition getStunReflect (t : stun) : Z * option (bytes * bytes) :=
  if mStunResponsed t then (OK, Some (mReflAddr t)) else (NO_INIT, None).

(** How the attribute loop ends: with the position of the address attribute's
    value or without one; by an access outside the buffer's block; or not within
    the fuel, which [stun_attrs_ends] excludes. *)
Inductive stun_end :=
  | Stopped (v : option Z) (b : MetaBuffer)
  | Outside
  | OutOfFuel.

(** The attribute loop: [pAttrHdr->len] is converted in place (on a
    little-endian machine its two bytes are swapped), and the cursor then
    advances by the attribute's length alone. *)
Fixpoint stun_attrs (fuel : nat) (b : MetaBuffer) (cursor len_ : Z) : stun_end :=
  if (Z.land len_ 3 =? 0) && (4 <=? len_) then
    match fuel with
    | O => OutOfFuel
    | S fuel =>
        match data_at b (cursor + 2), data_at b (cursor + 3) with
        | Some x, Some y =>
            let len := Z.lor (Z.shiftl x 8) y in
            match data_put b (cursor + 2) [y; x] with
            | None => Outside
            | Some b =>
                if negb (Z.land len 3 =? 0) then Stopped None b
                else if negb (len =? 8) then Stopped None b
                else
                  match u16at b cursor with
                  | None => Outside
                  | Some attr =>
                      if attr =? 1 then Stopped (Some (cursor + 4)) b
                      else stun_attrs fuel b (cursor + len) (u16 (len_ - len))
                  end
            end
        | _, _ => Outside
        end
    end
  else Stopped None b.

Definition parseStunResponse (b : MetaBuffer) (t : stun) : option (MetaBuffer * stun) :=
  if negb (mStunRequested t) || mStunResponsed t then Some (b, t)
  else
    method ← u16at b 0;
    if negb (method =? 257) then Some (b, t)
    else
      magic ← u32at b 4;
      if negb (magic =? 554869826) then Some (b, t)
      else
        len_ ← u16at b 2;
        match stun_attrs 16384 b 20 len_ with
        | Outside | OutOfFuel => None
        | Stopped None b => Some (b, t)
        | Stopped (Some v) b =>
            p0 ← data_at b (v + 2); p1 ← data_at b (v + 3);
            a0 ← data_at b (v + 4); a1 ← data_at b (v + 5); a2 ← data_at b (v + 6); a3 ← data_at b (v + 7);
            Some (b, mkStun true true ([p0; p1], [a0; a1; a2; a3]))
        end.

(** ** Receiving RTP *)

(** The checks of [parseRTP]: payload offset and the size without padding. *)
Definition parse_frame (b : MetaBuffer) : option (option (Z * Z)) :=
  let size := mRangeLength b in
  if size <? 12 then Some None
  else
    d0 ← data_at b 0;
    if negb (Z.shiftr d0 6 =? 2) then Some None
    else
      padding ← (if negb (Z.land d0 32 =? 0) then data_at b (size - 1) else Some 0);
      if size <? padding + 12 then Some None
      else
        let size := size - padding in
        let payloadOffset := 12 + 4 * Z.land d0 15 in
        if size <? payloadOffset then Some None
        else if negb (Z.land d0 16 =? 0) then
          if size <? payloadOffset + 4 then Some None
          else
            e ← u16at b (payloadOffset + 2);
            if size <? payloadOffset + 4 + 4 * e then Some None
            else Some (Some (payloadOffset + (4 + 4 * e), size))
        else Some (Some (payloadOffset, size)).

Definition n_ssrc : cstr := [115; 115; 114; 99].
Definition n_rtp_time : cstr := [114; 116; 112; 45; 116; 105; 109; 101].
Definition n_PT : cstr := [80; 84].
Definition n_M : cstr := [77].

Definition count_rtp (s : RTPTransport) : RTPTransport :=
  let i := mInfo s in
  set_info (mkInfo (nRTPSent i) (nRTPOctetsSent i) (nRcvdLost i) (rcvdSourceId i) (rcvdMaxSeqNum i)
    (u32 (rcvdRTP i + 1)) (rcvdRTPOctets i) (rcvdRTCP i) (totalRcvdLost i) (arrivalJitter i) (lastSR i)) s.
Definition set_source (id : Z) (s : RTPTransport) : RTPTransport :=
  let i := mInfo s in
  set_info (mkInfo (nRTPSent i) (nRTPOctetsSent i) (nRcvdLost i) id (rcvdMaxSeqNum i)
    (rcvdRTP i) (rcvdRTPOctets i) (rcvdRTCP i) (totalRcvdLost i) (arrivalJitter i) (lastSR i)) s.

Definition parseRTP (sgn : bool) (p : TokenPool) (b : MetaBuffer) (s : RTPTransport)
  : option (Z * TokenPool * MetaBuffer * RTPTransport) :=
  let s := count_rtp s in
  f ← parse_frame b;
  match f with
  | None => Some (UNKNOWN_ERROR, p, b, s)
  | Some (payloadOffset, size) =>
      id ← u32at b 8;
      let s := set_source id s in
      rtpTime ← u32at b 4;
      d1 ← data_at b 1;
      seq ← u16at b 2;
      '(p, b) ← setInt32 sgn n_ssrc (s32 id) p b;
      '(p, b) ← setInt32 sgn n_rtp_time (s32 rtpTime) p b;
      '(p, b) ← setInt32 sgn n_PT (Z.land d1 127) p b;
      '(p, b) ← setInt32 sgn n_M (Z.shiftr d1 7) p b;
      let b := setRange payloadOffset (size - payloadOffset) (setQuickData seq b) in
      let s := if firstRTP s then set_first false (notify (FIRST_PACKET rtpTime) s) else s in
      Some (OK, p, b, s)
  end.

(** [udpTransport::receive]: [recvfrom]'s answer is a datagram, cut to the
    capacity, or [None] for an error; a response to a pending STUN request is
    looked for in it. *)
Definition udp_receive (dgram : option bytes) (b : MetaBuffer) (t : stun) : option (Z * MetaBuffer * stun) :=
  match dgram with
  | None => Some (UNKNOWN_ERROR, b, t)
  | Some d =>
      let d := take (Z.to_nat (mCapacity b)) d in
      b ← data_put b 0 d;
      match d with
      | [] => Some (DEAD_OBJECT, b, t)
      | _ =>
          let b := setRange 0 (Z.of_nat (length d)) b in
          if mStunRequested t && negb (mStunResponsed t) then
            '(b, t) ← parseStunResponse b t; Some (OK, b, t)
          else Some (OK, b, t)
      end
  end.

Definition MaxCapacity : Z := 1664.

(** [receive]: the answer of [udpTransport::receive] is not looked at, except
    that it stores the peer's address [from] only when it got a packet. *)
Definition receive (sgn : bool) (fresh : bytes) (dgram : option bytes) (from : Z * Z) (p : TokenPool)
    (t : stun) (s : RTPTransport) : option (Z * TokenPool * MetaBuffer * stun * RTPTransport) :=
  b ← create MaxCapacity None 0 (Some fresh);
  '(r, b, t) ← udp_receive dgram b t;
  let s := if symmRTP s && (r =? OK) then set_addrs from (mRTCPAddr s) (symmRTP s) s else s in
  '(r, p, b, s) ← parseRTP sgn p b s;
  Some (r, p, b, t, s).

(** ** RTCP *)

Definition set_lastSR (t : Z) (s : RTPTransport) : RTPTransport :=
  let i := mInfo s in
  set_info (mkInfo (nRTPSent i) (nRTPOctetsSent i) (nRcvdLost i) (rcvdSourceId i) (rcvdMaxSeqNum i)
    (rcvdRTP i) (rcvdRTPOctets i) (rcvdRTCP i) (totalRcvdLost i) (arrivalJitter i) t) s.
Definition count_rtcp (s : RTPTransport) : RTPTransport :=
  let i := mInfo s in
  set_info (mkInfo (nRTPSent i) (nRTPOctetsSent i) (nRcvdLost i) (rcvdSourceId i) (rcvdMaxSeqNum i)
    (rcvdRTP i) (rcvdRTPOctets i) (u32 (rcvdRTCP i + 1)) (totalRcvdLost i) (arrivalJitter i) (lastSR i)) s.

Section rtcp.
Variable ntp_now : Z.

(** [off] is the position of [data] in the buffer. *)
Definition parseBYE (b : MetaBuffer) (off size : Z) (s : RTPTransport) : option (Z * RTPTransport) :=
  d0 ← data_at b off;
  let SC := Z.land d0 63 in
  if (SC =? 0) || (size <? 4 + SC * 4) then Some (-1, s)
  else
    _ ← u32at b (off + 4);
    Some (OK, notify END_OF_STREAM s).

Definition parseSR (b : MetaBuffer) (off size : Z) (s : RTPTransport) : option (Z * RTPTransport) :=
  let s := set_lastSR ntp_now s in
  d0 ← data_at b off;
  let RC := Z.land d0 31 in
  if size <? (7 + RC * 6) * 4 then Some (-1, s)
  else
    _ ← u32at b (off + 4);
    ntpTime ← u64at b (off + 8);
    rtpTime ← u32at b (off + 16);
    Some (OK, notify (TIME_UPDATE ntpTime rtpTime) s).

(** The body of the loop of [parseRTCP] up to the packet length: [None] inside
    is the malformed case. *)
Definition rtcp_frame (b : MetaBuffer) (off size : Z) : option (option (Z * Z)) :=
  if size <? 8 then Some None
  else
    d0 ← data_at b off;
    if negb (Z.shiftr d0 6 =? 2) then Some None
    else
      padding ← (if negb (Z.land d0 32 =? 0) then data_at b (off + (size - 1)) else Some 0);
      if size <? padding + 8 then Some None
      else
        let size := size - padding in
        len ← u16at b (off + 2);
        let headerLength := 4 * len + 4 in
        if size <? headerLength then Some None else Some (Some (headerLength, size)).

Fixpoint rtcp_loop (fuel : nat) (b : MetaBuffer) (off size : Z) (s : RTPTransport)
  : option (Z * RTPTransport) :=
  if size =? 0 then Some (OK, s)
  else match fuel with
  | O => None
  | S fuel =>
      f ← rtcp_frame b off size;
      match f with
      | None => Some (-1, s)
      | Some (headerLength, size) =>
          d1 ← data_at b (off + 1);
          '(_, s) ← (if d1 =? 200 then parseSR b off headerLength s
                     else if d1 =? 203 then parseBYE b off headerLength s else Some (OK, s));
          rtcp_loop fuel b (off + headerLength) (size - headerLength) s
      end
  end.

(** Each turn consumes at least four bytes. *)
Definition parseRTCP (b : MetaBuffer) (s : RTPTransport) : option (Z * RTPTransport) :=
  let first := rcvdRTCP (mInfo s) =? 0 in
  let s := count_rtcp s in
  let s := if first then notify RTCP_FIRST_PACKET s else s in
  rtcp_loop (Z.to_nat (mRangeLength b)) b 0 (mRangeLength b) s.

(** [handleRTCP]; [open] tells whether there is an RTCP transport. *)
Definition handleRTCP (open : bool) (fresh : bytes) (dgram : option bytes) (from : Z * Z)
    (t : stun) (s : RTPTransport) : option (stun * RTPTransport) :=
  if negb open then Some (t, s)
  else
    b ← create MaxCapacity None 0 (Some fresh);
    '(r, b, t) ← udp_receive dgram b t;
    let s := if symmRTP s && (r =? OK) then set_addrs (mRTPAddr s) from (symmRTP s) s else s in
    '(_, s) ← parseRTCP b s;
    Some (t, s).
End rtcp.

(** *** The sender report

    [junk] is the stack memory of the 88 bytes of [_buffer], [delay] the
    answer of [minusNTPDelay], [host] the text of the host address. *)
Definition clamp_lost (s : RTPTransport) : RTPTransport :=
  let i := mInfo s in
  let total := u32 (totalRcvdLost i + nRcvdLost i) in
  let total := if 16777215 <? total then 16777215 else total in
  let lost := if 255 <? nRcvdLost i then 255 else nRcvdLost i in
  set_info (mkInfo (nRTPSent i) (nRTPOctetsSent i) lost (rcvdSourceId i) (rcvdMaxSeqNum i)
    (rcvdRTP i) (rcvdRTPOctets i) (rcvdRTCP i) total (arrivalJitter i) (lastSR i)) s.
Definition reset_lost (s : RTPTransport) : RTPTransport :=
  let i := mInfo s in
  set_info (mkInfo (nRTPSent i) (nRTPOctetsSent i) 0 (rcvdSourceId i) (rcvdMaxSeqNum i)
    (rcvdRTP i) (rcvdRTPOctets i) (rcvdRTCP i) (totalRcvdLost i) (arrivalJitter i) (lastSR i)) s.

(** The first 52 bytes: header, sender info and one report block. *)
Definition sender_report (delay : Z) (s : RTPTransport) : bytes :=
  let i := mInfo s in
  [129; 200; 0; 12] ++ be32 (mSourceID s)
  ++ be32 (mLastNTPSec s) ++ be32 (mLastNTPUSec s) ++ be32 (mLastRTPTime s) ++ be32 (nRTPSent i)
  ++ be32 (nRTPOctetsSent i)
  ++ be32 (rcvdSourceId i) ++ be32 (Z.lor (u32 (Z.shiftl (nRcvdLost i) 24)) (totalRcvdLost i))
  ++ be32 (rcvdMaxSeqNum i) ++ be32 0
  ++ (if negb (lastSR i =? 0) then be32 (u32 (Z.shiftr (lastSR i) 16)) ++ be32 delay else be32 0 ++ be32 0).

(** The source description: at most 16 characters of the address and [@]. *)
Definition sdes_head (s : RTPTransport) : bytes := [129; 202; 0; 6] ++ be32 (mSourceID s) ++ [1; 16].
Definition sdes_text (host : cstr) : bytes := take 16 (host ++ [64]) ++ [0].

Definition sr_packet (junk : bytes) (delay : Z) (host : cstr) (s : RTPTransport) : option bytes :=
  m ← store junk 0 (sender_report delay s);
  m ← store m 52 (sdes_head s);
  m ← store m 62 (sdes_text host);
  m ← store m 78 [0; 0];
  Some (take 80 m).

(** The RTCP timer: the packet sent, the new timer's identifier. *)
Definition handleTimeout (junk : bytes) (delay : Z) (host : cstr) (event : Z) (s : RTPTransport)
  : option (bytes * RTPTransport) :=
  let s := clamp_lost s in
  pk ← sr_packet junk delay host s;
  Some (pk, set_event event (reset_lost s)).

(** ** Reading words *)

Record wfbuf (b : MetaBuffer) : Prop := {
  wfbuf_offset : mRangeOffset b = 0;
  wfbuf_length : 0 <= mRangeLength b <= Z.of_nat (length (mData b));
  wfbuf_bytes : Forall is_byte (mData b)
}.

Lemma data_at_ok b i :
  wfbuf b -> 0 <= i < Z.of_nat (length (mData b)) -> exists x, data_at b i = Some x /\ is_byte x.
Proof.
  intros [H1 H2 H3] Hi. unfold data_at, load. rewrite H1, Z.add_0_l, (proj2 (Z.leb_le _ _)) by lia.
  destruct (lookup_lt_is_Some_2 (mData b) (Z.to_nat i)) as [x Hx]; [lia|].
  exists x. split; [done|]. by eapply Forall_lookup_1.
Qed.

Lemma u16at_ok b i :
  wfbuf b -> 0 <= i -> i + 1 < Z.of_nat (length (mData b)) ->
  exists x, u16at b i = Some x /\ 0 <= x < 65536.
Proof.
  intros W H0 H1. unfold u16at.
  destruct (data_at_ok b i W) as (x & -> & Hx); [lia|]. destruct (data_at_ok b (i + 1) W) as (y & -> & Hy); [lia|].
  cbn [mbind option_bind]. eexists. split; [done|]. unfold is_byte in *.
  rewrite lor_shiftl by lia. lia.
Qed.

Lemma u32at_ok b i :
  wfbuf b -> 0 <= i -> i + 3 < Z.of_nat (length (mData b)) -> exists x, u32at b i = Some x /\ 0 <= x < 2 ^ 32.
Proof.
  intros W H0 H1. unfold u32at.
  destruct (u16at_ok b i W) as (x & -> & Hx); [lia..|]. destruct (u16at_ok b (i + 2) W) as (y & -> & Hy); [lia..|].
  cbn [mbind option_bind]. eexists. split; [done|]. by apply wrapu_range.
Qed.

Lemma u64at_ok b i :
  wfbuf b -> 0 <= i -> i + 7 < Z.of_nat (length (mData b)) -> is_Some (u64at b i).
Proof.
  intros W H0 H1. unfold u64at.
  destruct (u32at_ok b i W) as (x & -> & _); [lia..|]. destruct (u32at_ok b (i + 4) W) as (y & -> & _); [lia..|].
  by eexists.
Qed.

(** A word stored in network order at [i] reads back. *)
Definition bytes_at (b : MetaBuffer) (i : Z) (bs : bytes) : Prop :=
  forall k x, bs !! k = Some x -> data_at b (i + Z.of_nat k) = Some x.

Lemma bytes_at_app b i l1 l2 :
  bytes_at b i (l1 ++ l2) <-> bytes_at b i l1 /\ bytes_at b (i + Z.of_nat (length l1)) l2.
Proof.
  split.
  - intros H. split; intros k x Hk.
    + apply H. by apply lookup_app_l_Some.
    + rewrite <- Z.add_assoc, <- Nat2Z.inj_add. apply H. rewrite lookup_app_r by lia. by rewrite Nat.add_comm, Nat.add_sub.
  - intros [H1 H2] k x [Hk|[Hle Hk]]%lookup_app_Some; [by apply H1|].
    specialize (H2 _ _ Hk). rewrite <- H2. f_equal. lia.
Qed.

Lemma bytes_at_get b i bs k x : bytes_at b i bs -> bs !! k = Some x -> forall j, j = i + Z.of_nat k -> data_at b j = Some x.
Proof. intros H Hk j ->. by apply H. Qed.

Lemma be16_read b i x : 0 <= x < 65536 -> bytes_at b i (be16 x) -> u16at b i = Some x.
Proof.
  intros Hx H. unfold u16at.
  rewrite (bytes_at_get _ _ _ 0 _ H eq_refl i), (bytes_at_get _ _ _ 1 _ H eq_refl (i + 1)) by lia.
  cbn [mbind option_bind]. f_equal.
  rewrite !land_255, Z.shiftr_div_pow2, lor_shiftl by div_lia. div_lia.
Qed.

Lemma be32_split x : 0 <= x < 2 ^ 32 -> be32 x = be16 (x / 65536) ++ be16 (x mod 65536).
Proof.
  intros Hx. unfold be32, be16, u8, wrapu. cbn [app].
  assert (x / 2 ^ 24 = x / 65536 / 256) as E1 by (rewrite Z.div_div by lia; done).
  assert (x / 2 ^ 8 = (x mod 65536) / 256 + x / 65536 * 256) as E2 by (eval_pow2; div_lia).
  assert (x mod 256 = (x mod 65536) mod 256) as E3 by div_lia.
  rewrite !land_255, !Z.shiftr_div_pow2, E1, E2, E3, Z_mod_plus_full by lia. done.
Qed.

Lemma be32_read b i x : 0 <= x < 2 ^ 32 -> bytes_at b i (be32 x) -> u32at b i = Some x.
Proof.
  intros Hx. rewrite be32_split, bytes_at_app by done. change (Z.of_nat (length (be16 (x / 65536)))) with 2.
  intros [H1 H2]. unfold u32at.
  rewrite (be16_read b i (x / 65536)), (be16_read b (i + 2) (x mod 65536)) by (done || div_lia).
  cbn [mbind option_bind]. f_equal. rewrite lor_shiftl by div_lia. unfold u32, wrapu. div_lia.
Qed.

Lemma be64_read b i x y : 0 <= x < 2 ^ 32 -> 0 <= y < 2 ^ 32 -> bytes_at b i (be32 x ++ be32 y) ->
  u64at b i = Some (x * 2 ^ 32 + y).
Proof.
  intros Hx Hy [H1 H2]%bytes_at_app. unfold u64at.
  rewrite (be32_read b i x), (be32_read b (i + 4) y) by done. cbn [mbind option_bind]. f_equal.
  by rewrite lor_shiftl.
Qed.

(** ** RTCP on any datagram *)

(** A packet of [size] bytes at [off] lies inside the buffer. *)
Definition inside (b : MetaBuffer) (off size : Z) : Prop :=
  wfbuf b /\ 0 <= off /\ 0 <= size /\ off + size <= Z.of_nat (length (mData b)).

Definition answers (r : option (Z * RTPTransport)) : Prop :=
  exists z s, r = Some (z, s) /\ (z = OK \/ z = -1).

Lemma parseSR_total ntp b off size s : inside b off size -> 1 <= size -> answers (parseSR ntp b off size s).
Proof.
  intros (W & H0 & H1 & H2) H3. unfold parseSR.
  destruct (data_at_ok b off W) as (c & -> & Hc); [lia|]. cbn [mbind option_bind].
  assert (0 <= Z.land c 31) by (apply Z.land_nonneg; lia). case_if; [repeat eexists; auto|].
  destruct (u32at_ok b (off + 4) W) as (x & -> & _); [lia..|].
  destruct (u64at_ok b (off + 8) W) as (y & ->); [lia..|].
  destruct (u32at_ok b (off + 16) W) as (z & -> & _); [lia..|]. repeat eexists; auto.
Qed.

Lemma parseBYE_total b off size s : inside b off size -> 1 <= size -> answers (parseBYE b off size s).
Proof.
  intros (W & H0 & H1 & H2) H3. unfold parseBYE.
  destruct (data_at_ok b off W) as (c & -> & Hc); [lia|]. cbn [mbind option_bind].
  assert (0 <= Z.land c 63) by (apply Z.land_nonneg; lia). case_if; [repeat eexists; auto|].
  destruct (u32at_ok b (off + 4) W) as (x & -> & _); [lia..|]. repeat eexists; auto.
Qed.

Lemma rtcp_frame_total b off size :
  inside b off size -> exists f, rtcp_frame b off size = Some f /\
    match f with None => True | Some (h, size') => 4 <= h <= size' /\ size' <= size end.
Proof.
  intros (W & H0 & H1 & H2). unfold rtcp_frame. case_if; [by exists None|].
  destruct (data_at_ok b off W) as (d0 & -> & _); [lia|]. cbn [mbind option_bind].
  case_if; [by exists None|]. bool_to_prop.
  assert (exists pd, (if negb (Z.land d0 32 =? 0) then data_at b (off + (size - 1)) else Some 0) = Some pd
    /\ 0 <= pd) as (pd & -> & Hpd).
  { case_if; [|by exists 0]. destruct (data_at_ok b (off + (size - 1)) W) as (pd & -> & Hpd); [lia|].
    exists pd. unfold is_byte in Hpd. split; [done|lia]. }
  cbn [mbind option_bind]. case_if; [by exists None|].
  destruct (u16at_ok b (off + 2) W) as (len & -> & Hlen); [lia..|]. cbn [mbind option_bind].
  case_if; [by exists None|]. eexists. split; [done|]. cbn beta iota. lia.
Qed.

Lemma loop_total ntp fuel b off size s :
  inside b off size -> size <= Z.of_nat fuel -> answers (rtcp_loop ntp fuel b off size s).
Proof.
  revert off size s. induction fuel as [|fuel IH]; intros off size s I Hf; cbn [rtcp_loop];
    pose proof I as (W & H0 & H1 & H2).
  - rewrite (proj2 (Z.eqb_eq _ _)) by lia. repeat eexists; auto.
  - case_if; [repeat eexists; auto|].
    destruct (rtcp_frame_total b off size I) as ([[h size']|] & -> & Hh); cbn [mbind option_bind];
      [|repeat eexists; auto].
    destruct (data_at_ok b (off + 1) W) as (d1 & -> & _); [lia|]. cbn [mbind option_bind].
    assert (I' : inside b off h) by (unfold inside; split_and!; [done|lia..]).
    assert (answers (if d1 =? 200 then parseSR ntp b off h s
        else if d1 =? 203 then parseBYE b off h s else Some (OK, s))) as (z & s' & -> & _).
    { case_if; [apply parseSR_total; [done|lia]|]. case_if; [apply parseBYE_total; [done|lia]|].
      repeat eexists; auto. }
    apply IH; [|lia]. unfold inside. split_and!; [done|lia..].
Qed.

(** C22: [parseRTCP] accepts any datagram that [recvfrom] may have put into the
    buffer: it terminates, every byte it looks at is inside the buffer, and it
    answers [OK] or -1. *)
Theorem parseRTCP_total ntp b s :
  wfbuf b -> exists z s', parseRTCP ntp b s = Some (z, s') /\ (z = OK \/ z = -1).
Proof.
  intros W. unfold parseRTCP. apply loop_total; [|destruct W; lia]. unfold inside. destruct W; split_and!; [done|lia..].
Qed.

(** ** Compound RTCP packets

    An RTCP packet of version 2 without padding is a count, a type and at most
    [2 ^ 16 - 1] words after its header; a datagram holds several. *)
Record rtcp_packet := mkPacket { rcount : Z; rtype : Z; rwords : list Z }.

Definition is_word (w : Z) : Prop := 0 <= w < 2 ^ 32.

Record packet_ok (k : rtcp_packet) : Prop := {
  packet_count : 0 <= rcount k < 32;
  packet_type : is_byte (rtype k);
  packet_size : Z.of_nat (length (rwords k)) < 65536;
  packet_words : Forall is_word (rwords k)
}.

Definition encode (k : rtcp_packet) : bytes :=
  [128 + rcount k; rtype k] ++ be16 (Z.of_nat (length (rwords k))) ++ concat (be32 <$> rwords k).

(** What RFC 3550 makes of a packet: a sender report (with enough words for its
    report blocks) carries the sender's time, a BYE with its sources ends the
    stream. *)
Definition receive_packet (ntp : Z) (s : RTPTransport) (k : rtcp_packet) : RTPTransport :=
  if rtype k =? 200 then
    let s := set_lastSR ntp s in
    match rwords k with
    | _ :: sec :: frac :: rtp :: _ :: _ :: blocks =>
        if 6 * rcount k <=? Z.of_nat (length blocks)
        then notify (TIME_UPDATE (sec * 2 ^ 32 + frac) rtp) s else s
    | _ => s
    end
  else if rtype k =? 203 then
    if (1 <=? rcount k) && (rcount k <=? Z.of_nat (length (rwords k))) then notify END_OF_STREAM s else s
  else s.

Lemma length_words ws : length (concat (be32 <$> ws)) = (4 * length ws)%nat.
Proof. induction ws as [|w ws IH]; [done|]. cbn [fmap list_fmap concat]. rewrite length_app, IH. simpl. lia. Qed.

Lemma length_encode k : Z.of_nat (length (encode k)) = 4 * Z.of_nat (length (rwords k)) + 4.
Proof. unfold encode. rewrite !length_app, length_words. simpl. lia. Qed.

Lemma words_read b i ws k w :
  Forall is_word ws -> bytes_at b i (concat (be32 <$> ws)) -> ws !! k = Some w ->
  forall j, j = i + 4 * Z.of_nat k -> u32at b j = Some w.
Proof.
  intros F. revert i k. induction F as [|x ws Hx F IH]; intros i k H Hk j ->; [done|].
  cbn [fmap list_fmap concat] in H. apply bytes_at_app in H as [H1 H2].
  destruct k as [|k].
  - injection Hk as <-. rewrite Z.add_0_r. by apply be32_read.
  - eapply IH; [exact H2|exact Hk|]. change (Z.of_nat (length (be32 x))) with 4. lia.
Qed.

Lemma packet_header b off k :
  packet_ok k -> bytes_at b off (encode k) ->
  data_at b off = Some (128 + rcount k) /\ data_at b (off + 1) = Some (rtype k) /\
  u16at b (off + 2) = Some (Z.of_nat (length (rwords k))) /\
  bytes_at b (off + 4) (concat (be32 <$> rwords k)).
Proof.
  intros [K1 K2 K3 K4] H. unfold encode in H.
  apply bytes_at_app in H as [H1 H2]. apply bytes_at_app in H2 as [H2 H3].
  change (Z.of_nat (length [128 + rcount k; rtype k])) with 2 in *.
  change (Z.of_nat (length (be16 (Z.of_nat (length (rwords k)))))) with 2 in *.
  split_and!.
  - by apply (bytes_at_get _ _ _ 0 _ H1 eq_refl); lia.
  - by apply (bytes_at_get _ _ _ 1 _ H1 eq_refl).
  - apply be16_read; [lia|done].
  - by rewrite <- Z.add_assoc in H3.
Qed.

(** The count field's bits under the version bits. *)
Lemma count_bits c : 0 <= c < 32 ->
  Z.shiftr (128 + c) 6 = 2 /\ Z.land (128 + c) 32 = 0 /\ Z.land (128 + c) 63 = c /\ Z.land (128 + c) 31 = c.
Proof.
  intros Hc. assert (E : Forall (fun c => Z.shiftr (128 + c) 6 = 2 /\ Z.land (128 + c) 32 = 0 /\
    Z.land (128 + c) 63 = c /\ Z.land (128 + c) 31 = c) (seqZ 0 32)) by (repeat constructor).
  rewrite Forall_forall in E. apply E, elem_of_seqZ. lia.
Qed.

Lemma parseSR_packet ntp b off k s :
  packet_ok k -> rtype k = 200 -> bytes_at b off (encode k) ->
  exists z, parseSR ntp b off (Z.of_nat (length (encode k))) s = Some (z, receive_packet ntp s k).
Proof.
  intros K T H. destruct (packet_header b off k K H) as (E0 & _ & _ & Hw). destruct K as [K1 _ _ K4].
  unfold parseSR, receive_packet. rewrite E0, length_encode, T. cbn [mbind option_bind Z.eqb Pos.eqb].
  rewrite (proj2 (proj2 (proj2 (count_bits _ K1)))).
  assert (R : forall i w j, rwords k !! i = Some w -> j = off + 4 + 4 * Z.of_nat i -> u32at b j = Some w)
    by (intros; eapply words_read; eauto).
  destruct (rwords k) as [|w0 [|w1 [|w2 [|w3 [|w4 [|w5 blocks]]]]]];
    try (cbn [length]; rewrite (proj2 (Z.ltb_lt _ _)) by lia; by eexists).
  cbn [length]. destruct (6 * rcount k <=? Z.of_nat (length blocks)) eqn:Hr; bool_to_prop.
  - rewrite (proj2 (Z.ltb_ge _ _)) by lia.
    rewrite (R 0%nat w0 (off + 4) eq_refl) by lia. cbn [mbind option_bind]. unfold u64at.
    rewrite (R 1%nat w1 (off + 8) eq_refl), (R 2%nat w2 (off + 8 + 4) eq_refl), (R 3%nat w3 (off + 16) eq_refl) by lia.
    cbn [mbind option_bind]. inversion_clear K4 as [|? ? _ K]. inversion_clear K as [|? ? _ K']. inversion_clear K' as [|? ? K2 _].
    rewrite lor_shiftl by (done || lia). by eexists.
  - rewrite (proj2 (Z.ltb_lt _ _)) by lia. by eexists.
Qed.

Lemma parseBYE_packet ntp b off k s :
  packet_ok k -> rtype k = 203 -> bytes_at b off (encode k) ->
  exists z, parseBYE b off (Z.of_nat (length (encode k))) s = Some (z, receive_packet ntp s k).
Proof.
  intros K T H. destruct (packet_header b off k K H) as (E0 & _ & _ & Hw). destruct K as [K1 _ K3 K4].
  unfold parseBYE, receive_packet. rewrite E0, length_encode, T. cbn [mbind option_bind Z.eqb Pos.eqb].
  rewrite (proj1 (proj2 (proj2 (count_bits _ K1)))).
  destruct (rwords k) as [|w ws] eqn:Ew.
  { destruct (rcount k =? 0) eqn:Ez; bool_to_prop; cbn [orb length].
    - rewrite Ez. by eexists.
    - rewrite (proj2 (Z.leb_le 1 _)), (proj2 (Z.leb_gt (rcount k) _)), (proj2 (Z.ltb_lt _ _)) by lia.
      by eexists. }
  destruct (rcount k =? 0) eqn:Ez; bool_to_prop; cbn [orb].
  - rewrite Ez. by eexists.
  - rewrite (proj2 (Z.leb_le 1 _)) by lia. cbn [andb].
    destruct (rcount k <=? Z.of_nat (length (w :: ws))) eqn:El; bool_to_prop.
    + rewrite (proj2 (Z.ltb_ge _ _)) by lia.
      rewrite (words_read b (off + 4) (w :: ws) 0 w K4 Hw eq_refl (off + 4)) by lia. by eexists.
    + rewrite (proj2 (Z.ltb_lt _ _)) by lia. by eexists.
Qed.

(** The last packet is more than a header: [parseRTCP] wants eight bytes. *)
Definition last_has_words (ks : list rtcp_packet) : Prop := forall k, last ks = Some k -> rwords k <> [].

Lemma loop_packets ntp b ks fuel off s :
  Forall packet_ok ks -> last_has_words ks -> bytes_at b off (concat (encode <$> ks)) ->
  (length (concat (encode <$> ks)) <= fuel)%nat ->
  rtcp_loop ntp fuel b off (Z.of_nat (length (concat (encode <$> ks)))) s
  = Some (OK, fold_left (receive_packet ntp) ks s).
Proof.
  intros F. revert fuel off s. induction F as [|k ks K F IH]; intros fuel off s Hw H Hf; [by destruct fuel|].
  assert (Hw' : last_has_words ks).
  { intros x Hx. apply Hw. by destruct ks. }
  assert (H8 : 8 <= Z.of_nat (length (encode k)) + Z.of_nat (length (concat (encode <$> ks)))).
  { destruct ks as [|k' ks]; rewrite length_encode.
    - specialize (Hw k eq_refl). destruct (rwords k); [done|simpl; lia].
    - cbn [fmap list_fmap concat]. rewrite length_app. pose proof (length_encode k'). lia. }
  cbn [fmap list_fmap concat fold_left] in *. rewrite length_app, Nat2Z.inj_add in *.
  apply bytes_at_app in H as [H1 H2]. pose proof (length_encode k) as L.
  destruct (packet_header b off k K H1) as (E0 & E1 & E2 & _). pose proof K as [K1 K2 K3 _].
  destruct fuel as [|fuel]; [lia|]. cbn [rtcp_loop]. rewrite (proj2 (Z.eqb_neq _ _)) by lia.
  destruct (count_bits _ K1) as (B1 & B2 & _).
  set (rest := Z.of_nat (length (concat (encode <$> ks)))) in *.
  assert (rtcp_frame b off (Z.of_nat (length (encode k)) + rest)
    = Some (Some (Z.of_nat (length (encode k)), Z.of_nat (length (encode k)) + rest))) as ->.
  { unfold rtcp_frame. rewrite (proj2 (Z.ltb_ge _ _)), E0 by lia. cbn [mbind option_bind].
    rewrite B1, B2, E2, L. cbn [mbind option_bind Z.eqb Pos.eqb negb].
    rewrite !(proj2 (Z.ltb_ge _ _)) by lia. repeat f_equal; lia. }
  cbn [mbind option_bind]. rewrite E1. cbn [mbind option_bind].
  assert (exists z, (if rtype k =? 200 then parseSR ntp b off (Z.of_nat (length (encode k))) s
      else if rtype k =? 203 then parseBYE b off (Z.of_nat (length (encode k))) s else Some (OK, s))
      = Some (z, receive_packet ntp s k)) as (z & ->).
  { destruct (rtype k =? 200) eqn:T1; bool_to_prop; [by apply parseSR_packet|].
    destruct (rtype k =? 203) eqn:T2; bool_to_prop; [by apply parseBYE_packet|].
    unfold receive_packet. rewrite !(proj2 (Z.eqb_neq _ _)) by done. by eexists. }
  cbn [mbind option_bind]. rewrite Z.add_simpl_l. apply IH; [done|done|lia].
Qed.

(** The transport when the first packet is counted. *)
Definition rtcp_arrived (s : RTPTransport) : RTPTransport :=
  let s1 := count_rtcp s in
  if rcvdRTCP (mInfo s) =? 0 then notify RTCP_FIRST_PACKET s1 else s1.

Lemma parseRTCP_packets ntp b ks s :
  Forall packet_ok ks -> last_has_words ks -> bytes_at b 0 (concat (encode <$> ks)) ->
  mRangeLength b = Z.of_nat (length (concat (encode <$> ks))) ->
  parseRTCP ntp b s = Some (OK, fold_left (receive_packet ntp) ks (rtcp_arrived s)).
Proof. intros F W H L. unfold parseRTCP. rewrite L, Nat2Z.id. by apply loop_packets. Qed.

(** C21: A datagram that holds a sequence of RTCP packets of version 2, of any
    type, each with a count below 32 and without padding, is taken apart into
    exactly those packets: each complete sender report is answered with its NTP
    and RTP times, each BYE that has its sources ends the stream, everything else
    is skipped, and the answer is [OK].  Each packet may be a bare header of four
    bytes except the last, which must have at least one word behind its header:
    [parseRTCP] answers -1 when less than eight bytes are left, hence for a
    datagram that ends in a BYE or source description without sources.  The
    reading of the clock that a sender report stores is any value. *)
Theorem parseRTCP_compound ntp b ks s :
  Forall packet_ok ks -> last_has_words ks -> bytes_at b 0 (concat (encode <$> ks)) ->
  mRangeLength b = Z.of_nat (length (concat (encode <$> ks))) ->
  parseRTCP ntp b s = Some (OK, fold_left (receive_packet ntp) ks (rtcp_arrived s)).
Proof. apply parseRTCP_packets. Qed.

(** A BYE without sources at the end of a datagram: four bytes of which the
    answer is -1. *)
Lemma bare_bye_refused ntp b s :
  wfbuf b -> bytes_at b 0 (encode (mkPacket 0 203 [])) -> mRangeLength b = 4 ->
  parseRTCP ntp b s = Some (-1, rtcp_arrived s).
Proof. intros W H L. unfold parseRTCP. by rewrite L. Qed.

(** The padding of an RTCP packet is taken off the size before the size is
    compared with the packet's length field, which counts the padding: a padded
    packet is always refused as a partial one. *)
Theorem rtcp_padding_refused ntp b s c len pd :
  wfbuf b -> 0 <= c < 32 -> data_at b 0 = Some (160 + c) -> 8 <= mRangeLength b ->
  u16at b 2 = Some len -> 4 * len + 4 = mRangeLength b ->
  data_at b (mRangeLength b - 1) = Some pd -> 1 <= pd ->
  exists s', parseRTCP ntp b s = Some (-1, s').
Proof.
  intros W Hc E0 Hsize E2 Hlen Ep Hpd. unfold parseRTCP.
  destruct (Z.to_nat (mRangeLength b)) as [|fuel] eqn:Ef; [lia|]. cbn [rtcp_loop].
  rewrite (proj2 (Z.eqb_neq _ _)) by lia. unfold rtcp_frame.
  rewrite (proj2 (Z.ltb_ge _ _)) by lia. rewrite E0. cbn [mbind option_bind].
  assert (Z.shiftr (160 + c) 6 = 2 /\ Z.land (160 + c) 32 = 32) as [-> ->].
  { assert (E : Forall (fun c => Z.shiftr (160 + c) 6 = 2 /\ Z.land (160 + c) 32 = 32) (seqZ 0 32)) by (repeat constructor).
    rewrite Forall_forall in E. apply E, elem_of_seqZ. lia. }
  cbn [Z.eqb Pos.eqb negb]. change (0 + (mRangeLength b - 1)) with (mRangeLength b - 1). rewrite Ep. cbn [mbind option_bind].
  destruct (mRangeLength b <? pd + 8); [by eexists|]. cbn [mbind option_bind]. change (0 + 2) with 2. rewrite E2. cbn [mbind option_bind].
  rewrite (proj2 (Z.ltb_lt (mRangeLength b - pd) _)) by lia. by eexists.
Qed.

(** *** The sender report *)

Lemma four_bytes_word a b c d :
  is_byte a -> is_byte b -> is_byte c -> is_byte d -> exists w, is_word w /\ be32 w = [a; b; c; d].
Proof.
  unfold is_byte, is_word. intros Ha Hb Hc Hd. exists ((a * 256 + b) * 65536 + (c * 256 + d)).
  split; [lia|]. rewrite be32_split by lia.
  rewrite Z.div_add_l, (Z.div_small (c * 256 + d)), Z.add_0_r by lia.
  rewrite (Z.add_comm _ (c * 256 + d)), Z_mod_plus_full, (Z.mod_small (c * 256 + d)) by lia.
  unfold be16. rewrite !land_255, !Z.shiftr_div_pow2 by lia. change (2 ^ 8) with 256.
  rewrite !Z.div_add_l, (Z.div_small b), (Z.div_small d), !Z.add_0_r, !(Z.mod_small a), !(Z.mod_small c) by lia.
  rewrite !(Z.add_comm (_ * 256)), !Z_mod_plus_full, !Z.mod_small by lia. done.
Qed.

Lemma words_of_bytes n bs :
  length bs = (4 * n)%nat -> Forall is_byte bs ->
  exists ws, length ws = n /\ Forall is_word ws /\ concat (be32 <$> ws) = bs.
Proof.
  revert bs. induction n as [|n IH]; intros bs L F; [destruct bs; [by exists []|done]|].
  destruct bs as [|a [|b [|c [|d bs]]]]; try (simpl in L; lia).
  inversion_clear F as [|? ? Ha F']. inversion_clear F' as [|? ? Hb F]. inversion_clear F as [|? ? Hc F'].
  inversion_clear F' as [|? ? Hd F].
  destruct (four_bytes_word a b c d) as (w & Hw & Ew); try done.
  destruct (IH bs) as (ws & L' & F' & E); [simpl in L; lia|done|].
  exists (w :: ws). split_and!; [simpl; lia|by constructor|]. cbn [fmap list_fmap concat]. by rewrite Ew, E.
Qed.

(** The 32-bit fields of a transport. *)
Record rtp_wf (s : RTPTransport) : Prop := {
  wf_source : is_word (mSourceID s);
  wf_sec : is_word (mLastNTPSec s);
  wf_usec : is_word (mLastNTPUSec s);
  wf_rtptime : is_word (mLastRTPTime s);
  wf_sent : is_word (nRTPSent (mInfo s));
  wf_octets : is_word (nRTPOctetsSent (mInfo s));
  wf_rcvd : is_word (rcvdSourceId (mInfo s));
  wf_lost : is_word (nRcvdLost (mInfo s));
  wf_total : is_word (totalRcvdLost (mInfo s));
  wf_max : is_word (rcvdMaxSeqNum (mInfo s))
}.

(** The words of the sender report of a transport whose losses are clamped. *)
Definition report_words (delay : Z) (s : RTPTransport) : list Z :=
  let i := mInfo s in
  [mSourceID s; mLastNTPSec s; mLastNTPUSec s; mLastRTPTime s; nRTPSent i; nRTPOctetsSent i; rcvdSourceId i;
   Z.lor (u32 (Z.shiftl (nRcvdLost i) 24)) (totalRcvdLost i); rcvdMaxSeqNum i; 0;
   if negb (lastSR i =? 0) then u32 (Z.shiftr (lastSR i) 16) else 0; if negb (lastSR i =? 0) then delay else 0].

Lemma sender_report_encode delay s :
  sender_report delay s = encode (mkPacket 1 200 (report_words delay s)).
Proof. unfold sender_report, encode, report_words. destruct (negb _); reflexivity. Qed.

Lemma u32_word x : is_word (u32 x).
Proof. exact (wrapu_range 32 x ltac:(lia)). Qed.

Lemma clamped_lost s : rtp_wf s ->
  let i := mInfo (clamp_lost s) in 0 <= nRcvdLost i <= 255 /\ 0 <= totalRcvdLost i <= 16777215.
Proof.
  intros W. pose proof (wf_lost s W) as L. pose proof (wf_total s W) as T. unfold is_word in *.
  unfold clamp_lost. cbn [mInfo set_info nRcvdLost totalRcvdLost].
  pose proof (u32_word (totalRcvdLost (mInfo s) + nRcvdLost (mInfo s))) as U. unfold is_word in U.
  split; case_if; lia.
Qed.

Lemma report_ok delay s : rtp_wf s -> is_word delay -> packet_ok (mkPacket 1 200 (report_words delay (clamp_lost s))).
Proof.
  intros W D. pose proof (clamped_lost s W) as [L T]. split; try (unfold is_byte; simpl; lia).
  destruct W as [W1 W2 W3 W4 W5 W6 W7 _ _ W8]. unfold report_words. cbn [rwords].
  assert (is_word 0) by done.
  set (n := nRcvdLost _) in *. set (t := totalRcvdLost _) in *.
  assert (is_word (Z.lor (u32 (Z.shiftl n 24)) t)).
  { rewrite wrapu_id by (rewrite Z.shiftl_mul_pow2 by lia; width_lia).
    rewrite lor_shiftl by (eval_pow2; lia). unfold is_word. eval_pow2. lia. }
  repeat apply Forall_cons_2; try apply Forall_nil_2; try done; case_if; try done. apply u32_word.
Qed.

(** Storing behind a prefix. *)
Lemma length_sender_report delay s : length (sender_report delay s) = 52%nat.
Proof. unfold sender_report. destruct (negb _); reflexivity. Qed.

(** The packet: the report, the description's head and 18 bytes of text. *)
Lemma sr_packet_shape junk delay host s :
  length junk = 88%nat -> Forall is_byte junk -> is_cstr host ->
  exists X, length X = 18%nat /\ Forall is_byte X /\
    sr_packet junk delay host s = Some (sender_report delay s ++ sdes_head s ++ X).
Proof.
  intros Lj Fj Fh.
  assert (Lh : length (sdes_head s) = 10%nat) by reflexivity.
  pose proof (length_sender_report delay s) as Lr.
  set (T := sdes_text host). assert (LT : (length T <= 17)%nat).
  { unfold T, sdes_text. rewrite length_app, length_take. cbn [length]. lia. }
  assert (FT : Forall is_byte T).
  { unfold T, sdes_text. rewrite Forall_app. split; [|by constructor; [unfold is_byte; lia|]].
    apply Forall_take. rewrite Forall_app. split; [|by constructor; [unfold is_byte; lia|]].
    eapply Forall_impl; [exact Fh|]. unfold is_byte. intros; lia. }
  set (R := T ++ drop (length T) (drop 62 junk)).
  assert (LR : length R = 26%nat) by (unfold R; rewrite length_app, !length_drop; lia).
  exists (take 16 R ++ [0; 0]). split_and!.
  - rewrite length_app, length_take. cbn [length]. lia.
  - rewrite Forall_app. split; [|repeat constructor; unfold is_byte; lia].
    apply Forall_take. unfold R. rewrite Forall_app. split; [done|]. by do 2 apply Forall_drop.
  - unfold sr_packet. fold T. change junk with ([] ++ junk) at 1.
    rewrite store_behind by (rewrite ?length_sender_report, ?Lj; simpl; lia). cbn [mbind option_bind app].
    rewrite Lr, store_behind by (rewrite ?length_drop; lia). cbn [mbind option_bind].
    rewrite Lh, drop_drop, app_assoc, store_behind by (rewrite ?length_app, ?length_drop; lia).
    cbn [mbind option_bind]. change (52 + 10)%nat with 62%nat. fold T. fold R.
    rewrite <- (take_drop 16 R), app_assoc at 1.
    rewrite store_behind by (rewrite ?length_app, ?length_take, ?length_drop; cbn [length]; lia).
    cbn [mbind option_bind]. f_equal.
    rewrite !app_assoc, take_app_le by (rewrite !length_app, length_take; cbn [length]; lia).
    rewrite <- !app_assoc. apply take_ge. rewrite !length_app, length_take. cbn [length]. lia.
Qed.

(** The packet that the RTCP timer sends is understood by [parseRTCP]: the
    receiver is told the sender's NTP time (seconds and fraction) and RTP time,
    the source description behind the report is skipped, and the answer is
    [OK], whatever the stack held behind the host address. *)
Theorem sender_report_received ntp junk delay host event s s' pk b r :
  rtp_wf s -> length junk = 88%nat -> Forall is_byte junk -> is_word delay -> is_cstr host ->
  handleTimeout junk delay host event s = Some (pk, s') ->
  bytes_at b 0 pk -> mRangeLength b = Z.of_nat (length pk) -> rcvdRTCP (mInfo r) <> 0 ->
  parseRTCP ntp b r
  = Some (OK, notify (TIME_UPDATE (mLastNTPSec s * 2 ^ 32 + mLastNTPUSec s) (mLastRTPTime s))
                (set_lastSR ntp (count_rtcp r))).
Proof.
  intros W Lj Fj D Fh H Hb Hl Hr. unfold handleTimeout in H.
  destruct (sr_packet_shape junk delay host (clamp_lost s) Lj Fj Fh) as (X & LX & FX & E).
  rewrite E in H. cbn [mbind option_bind] in H.
  apply (inj Some) in H. apply (f_equal fst) in H. cbn [fst] in H.
  destruct (words_of_bytes 5 ([1; 16] ++ X)) as (ws & Lw & Fw & Ew); [simpl; lia|repeat constructor; try done; unfold is_byte; lia|].
  set (ks := [mkPacket 1 200 (report_words delay (clamp_lost s)); mkPacket 1 202 (mSourceID s :: ws)]).
  assert (sender_report delay (clamp_lost s) ++ sdes_head (clamp_lost s) ++ X = concat (encode <$> ks)) as P.
  { rewrite sender_report_encode. unfold ks. cbn [fmap list_fmap concat]. rewrite app_nil_r. f_equal.
    unfold sdes_head, encode. cbn [rwords rcount rtype fmap list_fmap concat length]. rewrite Lw, Ew. reflexivity. }
  rewrite <- H, P in Hb, Hl.
  rewrite (parseRTCP_packets ntp b ks r); [| | |done|done].
  - unfold rtcp_arrived. rewrite (proj2 (Z.eqb_neq _ _)) by done. reflexivity.
  - unfold ks. repeat apply Forall_cons_2; try apply Forall_nil_2; [by apply report_ok|].
    constructor; cbn [rcount rtype rwords length]; try (unfold is_byte; lia). by apply Forall_cons_2; [apply W|].
  - by intros k [= <-].
Qed.

(** ** RTP *)

Definition rtp_names : list cstr := [n_ssrc; n_rtp_time; n_PT; n_M].

(** The fields that [parseRTP] leaves in the buffer. *)
Definition rtp_fields (id rtpTime d1 : Z) : gmap (list Z) (Type_ * Z) :=
  <[n_M := (kTypeInt32, Z.shiftr d1 7)]> (<[n_PT := (kTypeInt32, Z.land d1 127)]>
    (<[n_rtp_time := (kTypeInt32, s32 rtpTime)]> (<[n_ssrc := (kTypeInt32, s32 id)]> ∅))).

Lemma set_field_items sgn t name v p b p' b' :
  set_field sgn t name v p b = Some (p', b') -> b' = set_items (mItems b') b.
Proof.
  unfold set_field. destruct (atomize sgn name p) as [[tok q]|]; [|done]. cbn [mbind option_bind].
  case_if; [done|]. intros E. apply (inj Some) in E. apply (f_equal snd) in E. cbn [snd] in E. by subst b'.
Qed.

(** A pool with room for the four names. *)
Definition pool_ready (sgn : bool) (p : TokenPool) : Prop :=
  pool_ok sgn p /\ bufferPtr p + 19 < CONST_TOKENPOOL_SIZE.

Lemma rtp_names_cstr : Forall is_cstr rtp_names.
Proof. repeat constructor; lia. Qed.

Lemma fields_step sgn p b m names name v (n : Z) :
  fields_rep sgn p (mItems b) m names -> name ∈ rtp_names -> (forall x, x ∈ names -> x ∈ rtp_names) ->
  bufferPtr p + n < CONST_TOKENPOOL_SIZE -> 1 + Z.of_nat (length name) <= n ->
  exists p' items, setInt32 sgn name v p b = Some (p', set_items items b)
    /\ fields_rep sgn p' items (<[name := (kTypeInt32, v)]> m) (add_name name names)
    /\ (forall x, x ∈ add_name name names -> x ∈ rtp_names)
    /\ bufferPtr p' + (n - (1 + Z.of_nat (length name))) < CONST_TOKENPOOL_SIZE.
Proof.
  intros R Hin Hsub Hroom Hn.
  destruct (set_field_ok sgn p b m names name kTypeInt32 v rtp_names R) as (p' & b' & E & R' & off & _ & A).
  - exact (proj1 (Forall_forall is_cstr _) rtp_names_cstr _ Hin).
  - right. lia.
  - cbn [length rtp_names]. lia.
  - done.
  - done.
  - pose proof (at_size _ _ _ _ _ A). exists p', (mItems b'). split_and!; [|done| |lia].
    + unfold setInt32. rewrite E. by rewrite <- (set_field_items _ _ _ _ _ _ _ _ E).
    + intros x. unfold add_name. destruct (decide _); [by apply Hsub|].
      rewrite elem_of_app, list_elem_of_singleton. intros [?| ->]; [by apply Hsub|done].
Qed.

Lemma rep_empty sgn p : pool_ok sgn p -> fields_rep sgn p [] ∅ [].
Proof.
  intros P. split; [done|constructor|constructor|]. intros n. rewrite lookup_empty. by intros [? [=]].
Qed.

Lemma set_four sgn p b id rtpTime d1 :
  pool_ready sgn p -> mItems b = [] ->
  exists p' items names,
    ('(p, b) ← setInt32 sgn n_ssrc (s32 id) p b;
     '(p, b) ← setInt32 sgn n_rtp_time (s32 rtpTime) p b;
     '(p, b) ← setInt32 sgn n_PT (Z.land d1 127) p b;
     setInt32 sgn n_M (Z.shiftr d1 7) p b) = Some (p', set_items items b)
    /\ fields_rep sgn p' items (rtp_fields id rtpTime d1) names.
Proof.
  intros [P Hroom] Hb. pose proof (rep_empty sgn p P) as R. rewrite <- Hb in R.
  destruct (fields_step sgn p b ∅ [] n_ssrc (s32 id) 19 R) as (p1 & i1 & -> & R1 & S1 & H1);
    [set_solver|set_solver|done|simpl; lia|]. cbn [mbind option_bind].
  destruct (fields_step sgn p1 (set_items i1 b) _ _ n_rtp_time (s32 rtpTime) 14 R1) as (p2 & i2 & -> & R2 & S2 & H2);
    [set_solver|done|exact H1|simpl; lia|]. cbn [mbind option_bind].
  destruct (fields_step sgn p2 (set_items i2 b) _ _ n_PT (Z.land d1 127) 5 R2) as (p3 & i3 & E3 & R3 & S3 & H3);
    [set_solver|done|exact H2|simpl; lia|].
  change (set_items i2 (set_items i1 b)) with (set_items i2 b). rewrite E3. cbn [mbind option_bind].
  destruct (fields_step sgn p3 (set_items i3 b) _ _ n_M (Z.shiftr d1 7) 2 R3) as (p4 & i4 & E4 & R4 & _);
    [set_solver|done|exact H3|simpl; lia|].
  change (set_items i3 (set_items i2 b)) with (set_items i3 b). rewrite E4.
  exists p4, i4. eexists. split; [done|exact R4].
Qed.

(** A field that the map holds is found, and the pool stays as it is. *)
Lemma rep_find sgn p b m names name v :
  fields_rep sgn p (mItems b) m names -> m !! name = Some (kTypeInt32, v) ->
  findInt32 sgn name p b = Some (Some v, p).
Proof.
  intros R Hm. assert (name ∈ names) as Hin by (apply (rep_dom _ _ _ _ _ R); by eexists).
  assert (exists off, interned p off /\ token_at p off name) as (off & I & T).
  { pose proof (rep_items _ _ _ _ _ R) as F. clear -F Hin.
    induction F as [|it n items names (o & _ & H2 & H3 & _) _ IH]; [set_solver|].
    apply elem_of_cons in Hin as [->|Hin]; [by exists o|by apply IH]. }
  unfold findInt32, find_field. rewrite (atomize_hit sgn name off p (rep_pool _ _ _ _ _ R) I T).
  cbn [mbind option_bind]. rewrite find_item_field, (rep_field _ _ _ _ _ name off R I T), Hm. done.
Qed.

Lemma parse_frame_total b :
  wfbuf b -> exists f, parse_frame b = Some f /\
    match f with None => True | Some (po, size) => 12 <= po <= size /\ size <= mRangeLength b end.
Proof.
  intros W. pose proof W as [_ [H1 H2] _]. unfold parse_frame. case_if; [by exists None|].
  destruct (data_at_ok b 0 W) as (d0 & -> & Hd0); [lia|]. cbn [mbind option_bind].
  case_if; [by exists None|]. bool_to_prop.
  assert (exists pd, (if negb (Z.land d0 32 =? 0) then data_at b (mRangeLength b - 1) else Some 0) = Some pd
    /\ 0 <= pd) as (pd & -> & Hpd).
  { case_if; [|by exists 0]. destruct (data_at_ok b (mRangeLength b - 1) W) as (pd & -> & Hpd); [lia|].
    exists pd. unfold is_byte in Hpd. split; [done|lia]. }
  cbn [mbind option_bind]. case_if; [by exists None|].
  assert (0 <= Z.land d0 15) by (apply Z.land_nonneg; lia). case_if; [by exists None|].
  case_if; [|eexists; split; [done|]; cbn beta iota; lia].
  case_if; [by exists None|].
  destruct (u16at_ok b (12 + 4 * Z.land d0 15 + 2) W) as (e & -> & He); [lia..|]. cbn [mbind option_bind].
  case_if; [by exists None|]. eexists. split; [done|]. cbn beta iota. lia.
Qed.

(** The state after an accepted packet. *)
Definition accepted (id rtpTime : Z) (s : RTPTransport) : RTPTransport :=
  let s := set_source id (count_rtp s) in
  if firstRTP s then set_first false (notify (FIRST_PACKET rtpTime) s) else s.

Lemma parseRTP_accepts sgn p b s po size id rtpTime d1 seq :
  pool_ready sgn p -> mItems b = [] -> parse_frame b = Some (Some (po, size)) ->
  u32at b 8 = Some id -> u32at b 4 = Some rtpTime -> data_at b 1 = Some d1 -> u16at b 2 = Some seq ->
  exists p' items names,
    parseRTP sgn p b s
    = Some (OK, p', setRange po (size - po) (setQuickData seq (set_items items b)), accepted id rtpTime s)
    /\ fields_rep sgn p' items (rtp_fields id rtpTime d1) names.
Proof.
  intros P Hb Ef E8 E4 E1 E2. unfold parseRTP. rewrite Ef, E8, E4, E1, E2. cbn [mbind option_bind].
  destruct (set_four sgn p b id rtpTime d1 P Hb) as (p' & items & names & E & R).
  exists p', items, names. split; [|done]. cbn [mbind option_bind] in E.
  destruct (setInt32 sgn n_ssrc _ p b) as [[p1 b1]|]; [|done]. cbn [mbind option_bind] in *.
  destruct (setInt32 sgn n_rtp_time _ p1 b1) as [[p2 b2]|]; [|done]. cbn [mbind option_bind] in *.
  destruct (setInt32 sgn n_PT _ p2 b2) as [[p3 b3]|]; [|done]. cbn [mbind option_bind] in *.
  rewrite E. reflexivity.
Qed.

(** What is received is at most the block that [create] allocated. *)
Lemma udp_receive_ok fresh dgram t b :
  Z.of_nat (length fresh) = MaxCapacity -> Forall is_byte fresh ->
  (forall d, dgram = Some d -> Forall is_byte d) ->
  mStunRequested t && negb (mStunResponsed t) = false ->
  create MaxCapacity None 0 (Some fresh) = Some b ->
  exists r b', udp_receive dgram b t = Some (r, b', t) /\ wfbuf b' /\ mItems b' = []
    /\ Z.of_nat (length (mData b')) = MaxCapacity
    /\ match dgram with
       | Some ((_ :: _) as d) => r = OK /\ mRangeLength b' = Z.min (Z.of_nat (length d)) MaxCapacity
           /\ bytes_at b' 0 (take (Z.to_nat MaxCapacity) d)
       | _ => r <> OK
       end.
Proof.
  intros Lf Ff Fd Ht [= <-]. unfold udp_receive. destruct dgram as [d|].
  2: { eexists _, _. split; [done|]. split; [|done]. split; cbn; [done|unfold MaxCapacity in *; lia|done]. }
  cbn [mCapacity]. set (d' := take (Z.to_nat MaxCapacity) d).
  assert (Ld : (length d' <= length fresh)%nat) by (unfold d'; rewrite length_take; lia).
  assert (Fd' : Forall is_byte d') by (apply Forall_take; by apply Fd).
  unfold data_put. cbn [mData mRangeOffset]. rewrite (store_behind [] fresh d') by (done || lia). cbn [mbind option_bind app]. rewrite Ht.
  assert (Lm : Z.of_nat (length (d' ++ drop (length d') fresh)) = MaxCapacity)
    by (rewrite length_app, length_drop; lia).
  assert (Fm : Forall is_byte (d' ++ drop (length d') fresh)).
  { rewrite Forall_app. split; [done|]. by apply Forall_drop. }
  assert (Ed : d = [] <-> d' = []).
  { split; [by intros ->; unfold d'; rewrite take_nil|]. intros E. destruct d; [done|].
    apply (f_equal length) in E. unfold d' in E. rewrite length_take in E. unfold MaxCapacity in E. simpl in E. lia. }
  destruct d' as [|x d''] eqn:E'.
  - rewrite (proj2 Ed) by done. eexists _, _. split; [done|]. cbn.
    split; [|done]. split; cbn; [done|cbn [app drop length] in Lm; unfold MaxCapacity in *; lia|done].
  - rewrite <- E' in *. eexists _, _. split; [reflexivity|].
    destruct d as [|y d]; [naive_solver|]. cbn [mItems mData mRangeLength setRange set_data].
    split_and!; [|done|done|done| |].
    + split; cbn [mRangeOffset mRangeLength mData setRange set_data]; [done| |done].
      rewrite length_app. lia.
    + unfold d'. rewrite length_take. lia.
    + intros k z Hk. unfold data_at, load. cbn [mRangeOffset mData setRange set_data].
      rewrite (proj2 (Z.leb_le _ _)) by lia. rewrite !Z.add_0_l, Nat2Z.id. by apply lookup_app_l_Some.
Qed.

(** C23: As long as no STUN request is pending (none was sent, or its response
    has come; with one pending the attribute loop can leave the buffer) and the
    token pool, well formed, has room for the four field names, [receive] accepts any datagram
    (also a failed or empty [recvfrom], whose answer it ignores: the block then
    holds what [malloc] left in it): nothing outside the buffer is read or
    written, the pool stays well formed, the answer is [OK] or [UNKNOWN_ERROR],
    and after [OK] the payload's range lies between the twelve-byte header and the
    end of what was received, which is cut to 1664 bytes. *)
Theorem receive_total sgn fresh dgram from p t s :
  Z.of_nat (length fresh) = MaxCapacity -> Forall is_byte fresh ->
  (forall d, dgram = Some d -> Forall is_byte d) -> pool_ready sgn p ->
  mStunRequested t && negb (mStunResponsed t) = false ->
  exists r p' b' s', receive sgn fresh dgram from p t s = Some (r, p', b', t, s') /\ pool_ok sgn p'
    /\ (r = UNKNOWN_ERROR \/ r = OK /\ 12 <= mRangeOffset b' /\ 0 <= mRangeLength b'
        /\ mRangeOffset b' + mRangeLength b'
           <= match dgram with Some ((_ :: _) as d) => Z.min (Z.of_nat (length d)) MaxCapacity
                             | _ => MaxCapacity end).
Proof.
  intros Lf Ff Fd P Ht. unfold receive. destruct (create MaxCapacity None 0 (Some fresh)) as [b0|] eqn:E0; [|done].
  cbn [mbind option_bind].
  destruct (udp_receive_ok fresh dgram t b0 Lf Ff Fd Ht E0) as (r & b & -> & W & Hb & Lm & Hr). cbn [mbind option_bind].
  set (s1 := if symmRTP s && (r =? OK) then _ else _).
  assert (Hlen : mRangeLength b <= match dgram with Some ((_ :: _) as d) => Z.min (Z.of_nat (length d)) MaxCapacity
                                              | _ => MaxCapacity end).
  { pose proof (wfbuf_length b W). destruct dgram as [[|? ?]|]; try (rewrite <- Lm; lia). }
  destruct (parse_frame_total b W) as ([[po size]|] & Ef & Hf).
  - pose proof (wfbuf_length b W) as [_ HL].
    destruct (u32at_ok b 8 W) as (id & E8 & _); [lia..|]. destruct (u32at_ok b 4 W) as (rt & E4 & _); [lia..|].
    destruct (data_at_ok b 1 W) as (d1 & E1 & _); [lia|]. destruct (u16at_ok b 2 W) as (seq & E2 & _); [lia..|].
    destruct (parseRTP_accepts sgn p b s1 po size id rt d1 seq P Hb Ef E8 E4 E1 E2) as (p' & items & names & -> & R).
    cbn [mbind option_bind]. do 4 eexists. split; [reflexivity|]. split; [apply (rep_pool _ _ _ _ _ R)|].
    right. cbn [mRangeOffset mRangeLength setRange]. split_and!; [done|lia..].
  - unfold parseRTP. rewrite Ef. cbn [mbind option_bind]. do 4 eexists. split; [reflexivity|].
    split; [apply P|by left].
Qed.

(** *** From sender to receiver *)

Lemma bytes_at_data b l r : mRangeOffset b = 0 -> mData b = l ++ r -> bytes_at b 0 l.
Proof.
  intros H0 E k x Hk. unfold data_at, load. rewrite H0, E, (proj2 (Z.leb_le _ _)) by lia.
  rewrite !Z.add_0_l, Nat2Z.id. by apply lookup_app_l_Some.
Qed.

Lemma length_rtp_header rt m s : length (rtp_header rt m s) = 12%nat.
Proof. reflexivity. Qed.

Lemma be32_bytes x : is_word x -> Forall is_byte (be32 x).
Proof.
  unfold is_word, be32, is_byte. intros Hx. rewrite !land_255.
  pose proof (wrapu_range 8 (Z.shiftr x 24) ltac:(lia)). unfold in_u in *.
  repeat apply Forall_cons_2; try apply Forall_nil_2; try (apply Z.mod_pos_bound; lia).
Qed.

(** The marker and payload type of the second byte. *)
Lemma marker_bits (m : bool) pt : 0 <= pt < 128 ->
  Z.land (Z.lor (if m then 128 else 0) pt) 127 = pt /\
  Z.shiftr (Z.lor (if m then 128 else 0) pt) 7 = (if m then 1 else 0) /\
  Z.lor (if m then 128 else 0) pt = (if m then 128 else 0) + pt.
Proof.
  intros Hp. assert (E : Forall (fun pt => Z.land (Z.lor (if m then 128 else 0) pt) 127 = pt /\
    Z.shiftr (Z.lor (if m then 128 else 0) pt) 7 = (if m then 1 else 0) /\
    Z.lor (if m then 128 else 0) pt = (if m then 128 else 0) + pt) (seqZ 0 128))
    by (destruct m; repeat constructor).
  rewrite Forall_forall in E. apply E, elem_of_seqZ. lia.
Qed.

Lemma rtp_header_bytes rt m s : is_word rt -> is_word (mSourceID s) -> 0 <= mPType s < 128 ->
  Forall is_byte (rtp_header rt m s).
Proof.
  intros Hr Hs Hp. unfold rtp_header. rewrite !Forall_app. split_and!;
    [| |exact (be32_bytes _ Hr)|exact (be32_bytes _ Hs)].
  - destruct (marker_bits m (mPType s) Hp) as (_ & _ & ->). unfold is_byte.
    repeat apply Forall_cons_2; try apply Forall_nil_2; [lia|]. destruct m; lia.
  - unfold be16, is_byte. rewrite !land_255.
    repeat apply Forall_cons_2; try apply Forall_nil_2; apply Z.mod_pos_bound; lia.
Qed.

Lemma be16_wrap x : be16 x = be16 (x mod 65536).
Proof.
  assert (x / 2 ^ 8 = (x mod 65536) / 256 + x / 65536 * 256) as E1 by (eval_pow2; div_lia).
  assert (x mod 256 = (x mod 65536) mod 256) as E2 by div_lia.
  unfold be16. rewrite !land_255, !Z.shiftr_div_pow2, E1, E2, Z_mod_plus_full by lia. done.
Qed.

(** What [doSend] hands to [sendto]. *)
Lemma doSend_packet sec usec timeUs video marker b s :
  mRangeOffset b = 0 -> 12 <= mRangeLength b <= Z.of_nat (length (mData b)) ->
  12 <= mCapacity b ->
  exists b' s', doSend sec usec timeUs video marker b s
    = Some (Some (rtp_header (rtp_time timeUs video s) marker s
                  ++ take (Z.to_nat (mRangeLength b) - 12) (drop 12 (mData b))), b', s').
Proof.
  intros H0 HL HC. unfold doSend. rewrite (proj2 (Z.leb_le 12 _)) by done. unfold data_put. rewrite H0.
  set (hd := rtp_header _ _ _). assert (length hd = 12%nat) as Lh by done.
  rewrite (store_behind [] (mData b) hd) by (done || lia). cbn [mbind option_bind app].
  unfold payload. cbn [mData mRangeOffset mRangeLength set_data]. rewrite H0, Lh.
  rewrite (proj2 (Z.leb_le 0 0)) by done. cbn [andb].
  rewrite (proj2 (Z.leb_le _ _)) by (rewrite length_app, length_drop; lia).
  cbn [mbind option_bind Z.to_nat]. rewrite drop_0.
  assert (take (Z.to_nat (mRangeLength b)) (hd ++ drop 12 (mData b))
          = hd ++ take (Z.to_nat (mRangeLength b) - 12) (drop 12 (mData b))) as ->.
  { rewrite take_app, Lh. f_equal. apply take_ge. lia. }
  eexists _, _. reflexivity.
Qed.

Lemma bytes_at_take b i l : mRangeOffset b = 0 -> 0 <= i -> bytes_at b i l ->
  take (length l) (drop (Z.to_nat i) (mData b)) = l.
Proof.
  intros H0 Hi H. apply list_eq_same_length with (length l); [done| |].
  - rewrite length_take, length_drop. destruct l as [|x l]; [done|].
    destruct (lookup_lt_is_Some_2 (x :: l) (length l)) as [z Hz]; [simpl; lia|].
    specialize (H _ _ Hz). unfold data_at, load in H. rewrite H0 in H. case_if; [|done].
    apply lookup_lt_Some in H. cbn [length] in *. lia.
  - intros k x y Hk Hx Hy. rewrite lookup_take_lt, lookup_drop in Hx by done.
    specialize (H _ _ Hy). unfold data_at, load in H. rewrite H0, (proj2 (Z.leb_le _ _)) in H by lia.
    replace (Z.to_nat (0 + (i + Z.of_nat k))) with (Z.to_nat i + k)%nat in H by lia. congruence.
Qed.

Lemma header_reads b rt (marker : bool) s :
  is_word rt -> is_word (mSourceID s) -> 0 <= mPType s < 128 -> bytes_at b 0 (rtp_header rt marker s) ->
  data_at b 0 = Some 128 /\ data_at b 1 = Some (Z.lor (if marker then 128 else 0) (mPType s)) /\
  u16at b 2 = Some (mSeqNo s mod 65536) /\ u32at b 4 = Some rt /\ u32at b 8 = Some (mSourceID s).
Proof.
  intros Hr Hs Hp H. unfold rtp_header in H.
  apply bytes_at_app in H as [H1 H]. apply bytes_at_app in H as [H2 H]. apply bytes_at_app in H as [H3 H4].
  cbn [length be16 be32 Z.of_nat Pos.of_succ_nat Pos.succ Z.add Pos.add] in H2, H3, H4.
  split_and!.
  - exact (H1 0%nat _ eq_refl).
  - exact (H1 1%nat _ eq_refl).
  - apply be16_read; [div_lia|]. by rewrite <- be16_wrap.
  - by apply be32_read.
  - by apply be32_read.
Qed.

(** A packet of header and body is accepted, with the header's fields. *)
Lemma packet_accepted sgn p rb s r rt (marker : bool) body :
  wfbuf rb -> mItems rb = [] -> pool_ready sgn p -> is_word rt -> is_word (mSourceID s) -> 0 <= mPType s < 128 ->
  bytes_at rb 0 (rtp_header rt marker s ++ body) -> mRangeLength rb = 12 + Z.of_nat (length body) ->
  exists p' items r', parseRTP sgn p rb r
      = Some (OK, p', setRange 12 (mRangeLength rb - 12) (setQuickData (mSeqNo s mod 65536) (set_items items rb)), r')
    /\ (forall name v, rtp_fields (mSourceID s) rt (Z.lor (if marker then 128 else 0) (mPType s)) !! name
          = Some (kTypeInt32, v) -> forall b', mItems b' = items -> findInt32 sgn name p' b' = Some (Some v, p'))
    /\ take (length body) (drop 12 (mData rb)) = body.
Proof.
  intros W Hi P Hrt Hid Hpt H Hsize. apply bytes_at_app in H as [Hhead Hbody].
  destruct (header_reads rb rt marker s Hrt Hid Hpt Hhead) as (E0 & E1 & E2 & E4 & E8).
  assert (parse_frame rb = Some (Some (12, mRangeLength rb))) as Ef.
  { unfold parse_frame. rewrite (proj2 (Z.ltb_ge _ _)), E0 by lia. cbn [mbind option_bind].
    change (Z.shiftr 128 6 =? 2) with true. change (Z.land 128 32 =? 0) with true.
    change (Z.land 128 16 =? 0) with true. change (12 + 4 * Z.land 128 15) with 12.
    cbn [negb mbind option_bind]. rewrite Z.sub_0_r, !(proj2 (Z.ltb_ge _ _)) by lia. done. }
  destruct (parseRTP_accepts sgn p rb r 12 (mRangeLength rb) _ _ _ _ P Hi Ef E8 E4 E1 E2)
    as (p' & items & names & E' & R).
  exists p', items. eexists. split; [exact E'|]. split.
  - intros name v Hm b' <-. by apply (rep_find sgn p' b' _ names name v R).
  - exact (bytes_at_take rb 12 body (wfbuf_offset _ W) ltac:(done) Hbody).
Qed.

(** C20: A packet of at most 1664 bytes, with a payload type below 128, that
    [doSend] hands to the network from a buffer whose block is at least 12 bytes
    and holds the packet at its start, is accepted by [receive] at the other end,
    when no STUN answer is pending there and the token pool has room for the four
    field names: the fields "ssrc", "rtp-time", "PT" and "M" and the quick
    data hold the sender's source, time stamp, payload type, marker and
    sequence number (modulo 2^16), and the payload is the sender's data behind
    the twelve bytes it left for the header.  (A larger packet is sent all the
    same, and [receive] answers [OK] with its first 1664 bytes.) *)
Theorem rtp_roundtrip sgn sec usec timeUs video marker b s fresh from p t r pk b1 s1 :
  mRangeOffset b = 0 -> 12 <= mRangeLength b <= Z.of_nat (length (mData b)) -> mRangeLength b <= MaxCapacity ->
  12 <= mCapacity b -> Forall is_byte (mData b) ->
  is_word (mSourceID s) -> 0 <= mPType s < 128 ->
  Z.of_nat (length fresh) = MaxCapacity -> Forall is_byte fresh -> pool_ready sgn p ->
  mStunRequested t && negb (mStunResponsed t) = false ->
  doSend sec usec timeUs video marker b s = Some (Some pk, b1, s1) ->
  exists p' b' r', receive sgn fresh (Some pk) from p t r = Some (OK, p', b', t, r')
    /\ findInt32 sgn n_ssrc p' b' = Some (Some (s32 (mSourceID s)), p')
    /\ findInt32 sgn n_rtp_time p' b' = Some (Some (s32 (rtp_time timeUs video s)), p')
    /\ findInt32 sgn n_PT p' b' = Some (Some (mPType s), p')
    /\ findInt32 sgn n_M p' b' = Some (Some (if marker then 1 else 0), p')
    /\ mQuickData b' = mSeqNo s mod 65536
    /\ payload b' = Some (take (Z.to_nat (mRangeLength b) - 12) (drop 12 (mData b))).
Proof.
  intros H0 HL HM HC Fb Hid Hpt Lf Ff P Ht Hsend.
  destruct (doSend_packet sec usec timeUs video marker b s H0 HL HC) as (b2 & s2 & E).
  rewrite E in Hsend. apply (inj Some) in Hsend. apply (f_equal (fst ∘ fst)) in Hsend.
  cbn [compose fst] in Hsend. apply (inj Some) in Hsend.
  set (rt := rtp_time timeUs video s) in *. set (body := take _ (drop 12 (mData b))) in *.
  assert (Hrt : is_word rt) by (unfold rt, rtp_time; destruct video; apply u32_word).
  assert (Lb : Z.of_nat (length pk) = mRangeLength b).
  { rewrite <- Hsend, length_app, length_rtp_header. unfold body. rewrite length_take, length_drop. lia. }
  assert (Fp : Forall is_byte pk).
  { rewrite <- Hsend, Forall_app. split; [by apply rtp_header_bytes|]. by apply Forall_take, Forall_drop. }
  unfold receive. destruct (create MaxCapacity None 0 (Some fresh)) as [b0|] eqn:E0; [|done]. cbn [mbind option_bind].
  destruct (udp_receive_ok fresh (Some pk) t b0 Lf Ff) as (z & rb & -> & W & Hi & Lm & Hr); [by intros ? [= <-]|done|done|].
  cbn [mbind option_bind]. destruct pk as [|x pk'] eqn:Epk; [simpl in Lb; lia|]. rewrite <- Epk in *.
  destruct Hr as (_ & Hsize & Hbytes). rewrite take_ge in Hbytes by lia. rewrite Lb, Z.min_l in Hsize by lia.
  rewrite <- Hsend in Hbytes.
  assert (Lbody : Z.of_nat (length body) = mRangeLength b - 12).
  { unfold body. rewrite length_take, length_drop. lia. }
  set (r1 := if symmRTP r && _ then _ else _).
  destruct (packet_accepted sgn p rb s r1 rt marker body) as (p' & items & r' & -> & Find & Hbody); try done; [lia|].
  cbn [mbind option_bind]. set (b' := setRange _ _ _). eexists p', b', _. split; [reflexivity|].
  destruct (marker_bits marker (mPType s) Hpt) as (Em1 & Em2 & _).
  split_and!; try (apply Find; [|done]; unfold rtp_fields; rewrite ?Em1, ?Em2; done); [done|].
  unfold payload, b'. cbn [mRangeOffset mRangeLength mData setRange setQuickData set_items].
  rewrite (proj2 (Z.leb_le 0 12)) by done. cbn [andb]. rewrite (proj2 (Z.leb_le _ _)) by lia.
  f_equal. rewrite <- Hbody. do 2 f_equal. lia.
Qed.

(** ** STUN responses *)

Lemma data_put_length b i bs b' : data_put b i bs = Some b' -> length (mData b') = length (mData b).
Proof.
  unfold data_put. destruct (store _ _ _) as [m|] eqn:E; [|done]. cbn [mbind option_bind].
  intros [= <-]. cbn [mData set_data]. by apply (store_length _ _ _ _ E).
Qed.

Lemma data_at_inside b i x : data_at b i = Some x -> mRangeOffset b + i < Z.of_nat (length (mData b)).
Proof. unfold data_at, load. case_if; [|done]. intros H%lookup_lt_Some. lia. Qed.

(** The fuel is enough: the cursor moves eight bytes a turn, so before it runs
    out a read has left the buffer. *)
Lemma stun_attrs_ends fuel b c l :
  Z.of_nat (length (mData b)) - (mRangeOffset b + c) + 6 <= 8 * Z.of_nat fuel ->
  0 < Z.of_nat fuel -> stun_attrs fuel b c l <> OutOfFuel.
Proof.
  revert b c l. induction fuel as [|fuel IH]; intros b c l H H0; [lia|]. cbn [stun_attrs]. case_if; [|done].
  destruct (data_at b (c + 2)) as [x|] eqn:Ex; [|done]. apply data_at_inside in Ex.
  destruct (data_at b (c + 3)) as [y|]; [|done].
  destruct (data_put b (c + 2) [y; x]) as [b'|] eqn:Eb; [|done].
  repeat (case_if; [done|]). destruct (u16at b' c); [|done].
  case_if; [done|]. bool_to_prop.
  assert (Z.lor (Z.shiftl x 8) y = 8) as -> by done. pose proof (data_put_length _ _ _ _ Eb) as L.
  assert (mRangeOffset b' = mRangeOffset b) as O.
  { unfold data_put in Eb. destruct (store _ _ _); [|done]. by injection Eb as <-. }
  apply IH; rewrite ?L, ?O; lia.
Qed.

Lemma store_lookup_other m off bs m' k :
  store m off bs = Some m' -> (k < Z.to_nat off \/ Z.to_nat off + length bs <= k)%nat -> m' !! k = m !! k.
Proof.
  intros E. pose proof (store_length _ _ _ _ E) as L. unfold store in E. case_if; [|done]. injection E as <-.
  assert (length (take (Z.to_nat off) m) = Z.to_nat off) as Lt by (rewrite length_take; lia).
  intros [Hk|Hk].
  - rewrite lookup_app_l by lia. by apply lookup_take_lt.
  - rewrite lookup_app_r by lia. rewrite lookup_app_r by lia. rewrite lookup_drop. f_equal. lia.
Qed.

Lemma data_put_other b i bs b' j :
  mRangeOffset b = 0 -> 0 <= i -> data_put b i bs = Some b' ->
  0 <= j < i \/ i + Z.of_nat (length bs) <= j -> data_at b' j = data_at b j.
Proof.
  unfold data_put. intros H0 Hi E Hj. destruct (store _ _ _) as [m|] eqn:Em; [|done]. injection E as <-.
  unfold data_at, load. cbn [mData mRangeOffset set_data]. rewrite H0 in *. case_if; [|done].
  eapply store_lookup_other; [exact Em|]. lia.
Qed.

Lemma data_put_some b i bs :
  mRangeOffset b = 0 -> 0 <= i -> i + Z.of_nat (length bs) <= Z.of_nat (length (mData b)) ->
  exists b', data_put b i bs = Some b' /\ mRangeOffset b' = 0 /\ length (mData b') = length (mData b).
Proof.
  intros H0 Hi HL. unfold data_put. rewrite H0.
  destruct (proj2 (store_is_Some (mData b) (0 + i) bs)) as [m Em]; [lia|]. rewrite Em. cbn [mbind option_bind].
  eexists. split; [done|]. split; [done|]. by apply (store_length _ _ _ _ Em).
Qed.

(** A response whose first attribute has an eight-byte value. *)
Definition stun_response (len_ : Z) (ids : bytes) (ty : Z) (v rest : bytes) : bytes :=
  be16 257 ++ be16 len_ ++ be32 554869826 ++ ids ++ be16 ty ++ be16 8 ++ v ++ rest.

Definition pending : stun := mkStun true false ([0; 0], [0; 0; 0; 0]).

(** One turn of the attribute loop on such a response. *)
Lemma stun_first_attribute b len_ ids ty v rest :
  mRangeOffset b = 0 -> length ids = 12%nat -> length v = 8%nat ->
  0 <= ty < 65536 -> 0 <= len_ < 65536 -> len_ mod 4 = 0 -> 4 <= len_ ->
  bytes_at b 0 (stun_response len_ ids ty v rest) ->
  u16at b 0 = Some 257 /\ u16at b 2 = Some len_ /\ u32at b 4 = Some 554869826 /\
  exists b', (forall j, 24 <= j -> data_at b' j = data_at b j) /\ mRangeOffset b' = 0 /\
    bytes_at b 24 (v ++ rest) /\
    forall f, stun_attrs (S f) b 20 len_
      = if ty =? 1 then Stopped (Some 24) b' else stun_attrs f b' 28 (u16 (len_ - 8)).
Proof.
  intros H0 Li Lv Hty Hl Hm Hl4 H. unfold stun_response in H.
  apply bytes_at_app in H as [H1 H]. apply bytes_at_app in H as [H2 H]. apply bytes_at_app in H as [H3 H].
  apply bytes_at_app in H as [_ H]. apply bytes_at_app in H as [H4 H]. apply bytes_at_app in H as [H5 H6].
  rewrite Li in *. cbn [length be16 be32 Z.of_nat Pos.of_succ_nat Pos.succ Z.add Pos.add] in H2, H3, H4, H5, H6.
  split_and!; [apply be16_read; [lia|exact H1]|apply be16_read; [done|exact H2]|apply be32_read; [done|exact H3]|].
  assert (data_at b 22 = Some 0) as E22 by exact (H5 0%nat _ eq_refl).
  assert (data_at b 23 = Some 8) as E23 by exact (H5 1%nat _ eq_refl).
  destruct (data_put_some b 22 [8; 0] H0) as (b' & Eb & O' & L'); [done| |].
  { apply data_at_inside in E23. cbn [length]. lia. }
  exists b'. split_and!; [|done|exact H6|].
  - intros j Hj. apply (data_put_other b 22 [8; 0]); [done|done|done|]. cbn [length]. lia.
  - intros f. cbn [stun_attrs]. change 3 with (2 ^ 2 - 1) at 1. rewrite land_ones_mod by done.
    change (2 ^ 2) with 4. rewrite Hm, (proj2 (Z.leb_le 4 _)) by done. cbn [Z.eqb andb].
    change (20 + 2) with 22. change (20 + 3) with 23. rewrite E22, E23.
    change (Z.lor (Z.shiftl 0 8) 8) with 8. rewrite Eb.
    change (negb (Z.land 8 3 =? 0)) with false. change (negb (8 =? 8)) with false. cbn iota.
    assert (u16at b' 20 = Some ty) as ->; [|done].
    unfold u16at. rewrite !(data_put_other b 22 [8; 0] b') by (done || cbn [length]; lia).
    by apply (be16_read b 20 ty).
Qed.

(** A STUN response to a pending request whose first attribute is
    MAPPED-ADDRESS is understood: [getStunReflect] then answers the port and
    address of that attribute. *)
Theorem stun_mapped_first b len_ ids reserved family p0 p1 a0 a1 a2 a3 rest :
  mRangeOffset b = 0 -> length ids = 12%nat -> 0 <= len_ < 65536 -> len_ mod 4 = 0 -> 4 <= len_ ->
  bytes_at b 0 (stun_response len_ ids 1 [reserved; family; p0; p1; a0; a1; a2; a3] rest) ->
  exists b' t', parseStunResponse b pending = Some (b', t')
    /\ getStunReflect t' = (OK, Some ([p0; p1], [a0; a1; a2; a3])).
Proof.
  intros H0 Li Hl Hm Hl4 H.
  destruct (stun_first_attribute b len_ ids 1 [reserved; family; p0; p1; a0; a1; a2; a3] rest H0 Li eq_refl
    ltac:(lia) Hl Hm Hl4 H)
    as (E0 & E2 & E4 & b' & Hb & O & Hv & E).
  unfold parseStunResponse. cbn [pending mStunRequested mStunResponsed negb orb].
  rewrite E0, E4, E2. cbn [mbind option_bind]. change (negb (257 =? 257)) with false.
  change (negb (554869826 =? 554869826)) with false. cbn iota.
  change 16384%nat with (S 16383). rewrite E. change (1 =? 1) with true. cbn iota. cbn [mbind option_bind].
  rewrite !Hb by lia.
  rewrite (Hv 2%nat p0 eq_refl : data_at b (24 + 2) = _), (Hv 3%nat p1 eq_refl : data_at b (24 + 3) = _),
    (Hv 4%nat a0 eq_refl : data_at b (24 + 4) = _), (Hv 5%nat a1 eq_refl : data_at b (24 + 5) = _),
    (Hv 6%nat a2 eq_refl : data_at b (24 + 6) = _), (Hv 7%nat a3 eq_refl : data_at b (24 + 7) = _).
  cbn [mbind option_bind]. eexists _, _. split; reflexivity.
Qed.

(** The attribute loop advances by the length of an attribute's value
    without its four-byte header: behind a first attribute of eight bytes that
    is not MAPPED-ADDRESS it takes the value's last four bytes for the next
    header, so a response that carries its MAPPED-ADDRESS second is not
    understood, unless those value bytes happen to look like a header. *)
Theorem stun_second_attribute_missed b len_ ids ty v0 v1 v2 v3 v4 v5 v6 v7 rest :
  mRangeOffset b = 0 -> length ids = 12%nat -> 0 <= len_ < 65536 -> len_ mod 4 = 0 -> 12 <= len_ ->
  2 <= ty < 65536 -> is_byte v6 -> is_byte v7 -> v6 * 256 + v7 <> 8 ->
  32 <= Z.of_nat (length (mData b)) ->
  bytes_at b 0 (stun_response len_ ids ty [v0; v1; v2; v3; v4; v5; v6; v7] rest) ->
  exists b' t', parseStunResponse b pending = Some (b', t') /\ getStunReflect t' = (NO_INIT, None).
Proof.
  intros H0 Li Hl Hm Hl12 Hty H6 H7 Hlen Hsize H. unfold is_byte in *.
  destruct (stun_first_attribute b len_ ids ty [v0; v1; v2; v3; v4; v5; v6; v7] rest H0 Li eq_refl
    ltac:(lia) Hl Hm ltac:(lia) H) as (E0 & E2 & E4 & b' & Hb & O & Hv & E).
  unfold parseStunResponse. cbn [pending mStunRequested mStunResponsed negb orb].
  rewrite E0, E4, E2. cbn [mbind option_bind]. change (negb (257 =? 257)) with false.
  change (negb (554869826 =? 554869826)) with false. cbn iota.
  change 16384%nat with (S (S 16382)). rewrite E, (proj2 (Z.eqb_neq ty 1)) by lia. cbn iota.
  assert (exists b2, stun_attrs (S 16382) b' 28 (u16 (len_ - 8)) = Stopped None b2) as [b2 ->];
    [|eexists _, _; split; reflexivity].
  cbn [stun_attrs]. rewrite (wrapu_id 16) by width_lia.
  case_if; [|by eexists].
  rewrite !Hb, (Hv 6%nat v6 eq_refl : data_at b (28 + 2) = _), (Hv 7%nat v7 eq_refl : data_at b (28 + 3) = _) by lia.
  assert (data_at b' 31 = Some v7) as Hd by (rewrite Hb by lia; exact (Hv 7%nat v7 eq_refl)).
  apply data_at_inside in Hd.
  destruct (data_put_some b' (28 + 2) [v7; v6] O) as (b2 & Eb & _); [lia|cbn [length]; lia|].
  rewrite Eb. case_if; [by eexists|]. rewrite lor_shiftl by lia.
  change (2 ^ 8) with 256. rewrite (proj2 (Z.eqb_neq (v6 * 256 + v7) 8)) by done. cbn [negb]. by eexists.
Qed.

(** From turn [k] on every eight bytes of the block look like an attribute of
    eight bytes that is not MAPPED-ADDRESS. *)
Definition looks_like_attributes (b : MetaBuffer) (k : Z) : Prop :=
  forall j, k <= j <= 205 ->
    data_at b (22 + 8 * j) = Some 0 /\ data_at b (23 + 8 * j) = Some 8 /\ u16at b (20 + 8 * j) <> Some 1.

Lemma data_at_beyond b i : mRangeOffset b = 0 -> Z.of_nat (length (mData b)) <= i -> data_at b i = None.
Proof.
  intros H0 Hi. destruct (data_at b i) as [x|] eqn:E; [|done]. apply data_at_inside in E. lia.
Qed.

Lemma data_at_inside_some b i :
  mRangeOffset b = 0 -> 0 <= i < Z.of_nat (length (mData b)) -> exists x, data_at b i = Some x.
Proof.
  intros H0 Hi. unfold data_at, load. rewrite H0, (proj2 (Z.leb_le _ _)) by lia.
  apply lookup_lt_is_Some_2. lia.
Qed.

(** One turn: the cursor moves on, the count goes down by eight, modulo 2^16. *)
Lemma stun_turn b k l :
  mRangeOffset b = 0 -> Z.of_nat (length (mData b)) = MaxCapacity -> looks_like_attributes b k ->
  0 <= k <= 205 -> 0 <= l -> l mod 8 = 4 ->
  exists b', mRangeOffset b' = 0 /\ Z.of_nat (length (mData b')) = MaxCapacity /\
    looks_like_attributes b' (k + 1) /\
    forall f, stun_attrs (S f) b (20 + 8 * k) l = stun_attrs f b' (20 + 8 * (k + 1)) (u16 (l - 8)).
Proof.
  intros H0 HL Hs Hk Hl Hm. destruct (Hs k ltac:(lia)) as (E2 & E3 & Ha). unfold MaxCapacity in *.
  destruct (data_put_some b (20 + 8 * k + 2) [8; 0] H0) as (b' & Eb & O & L); [lia|cbn [length]; lia|].
  assert (Hd : forall j, 0 <= j < 22 + 8 * k \/ 24 + 8 * k <= j -> data_at b' j = data_at b j).
  { intros j Hj. apply (data_put_other b (20 + 8 * k + 2) [8; 0] b' j H0 ltac:(lia) Eb). cbn [length]. lia. }
  exists b'. split; [done|]. split; [lia|]. split.
  { intros j Hj. unfold u16at. rewrite !Hd by lia. by apply Hs; lia. }
  intros f. cbn [stun_attrs]. change 3 with (2 ^ 2 - 1) at 1. rewrite land_ones_mod by done.
  assert (l mod 2 ^ 2 = 0 /\ 4 <= l) as [-> Hl4] by (eval_pow2; div_lia).
  rewrite (proj2 (Z.leb_le 4 l)) by done. cbn [Z.eqb andb].
  replace (20 + 8 * k + 2) with (22 + 8 * k) in * by lia.
  replace (20 + 8 * k + 3) with (23 + 8 * k) by lia. rewrite E2, E3.
  change (Z.lor (Z.shiftl 0 8) 8) with 8. rewrite Eb.
  change (negb (Z.land 8 3 =? 0)) with false. change (negb (8 =? 8)) with false. cbn iota.
  assert (Eu : u16at b' (20 + 8 * k) = u16at b (20 + 8 * k)) by (unfold u16at; rewrite !Hd by lia; done).
  rewrite Eu. destruct (u16at b (20 + 8 * k)) as [ty|] eqn:Et; cycle 1.
  { exfalso. unfold u16at in Et.
    destruct (data_at_inside_some b (20 + 8 * k) H0) as [p Ep]; [lia|].
    destruct (data_at_inside_some b (20 + 8 * k + 1) H0) as [q Eq]; [lia|].
    by rewrite Ep, Eq in Et. }
  rewrite (proj2 (Z.eqb_neq ty 1)) by congruence. f_equal. lia.
Qed.

Lemma stun_runs f : forall b k l,
  mRangeOffset b = 0 -> Z.of_nat (length (mData b)) = MaxCapacity -> looks_like_attributes b k ->
  0 <= k <= 206 -> 206 - k < Z.of_nat f -> 0 <= l -> l mod 8 = 4 ->
  stun_attrs f b (20 + 8 * k) l = Outside.
Proof.
  induction f as [|f IH]; intros b k l H0 HL Hs Hk Hf Hl Hm; [lia|]. destruct (decide (k = 206)) as [->|].
  - cbn [stun_attrs]. change 3 with (2 ^ 2 - 1) at 1. rewrite land_ones_mod by done.
    assert (l mod 2 ^ 2 = 0 /\ 4 <= l) as [-> Hl4] by (eval_pow2; div_lia).
    rewrite (proj2 (Z.leb_le 4 l)) by done. cbn [Z.eqb andb].
    rewrite data_at_beyond; [done|done|]. rewrite HL. unfold MaxCapacity. lia.
  - destruct (stun_turn b k l H0 HL Hs ltac:(lia) Hl Hm) as (b' & O & L & Hs' & ->).
    apply IH; try done; try lia.
    + apply (wrapu_range 16). lia.
    + unfold wrapu. eval_pow2. div_lia.
Qed.

(** The buffer after [recvfrom]: the datagram, cut to the capacity, over what the
    block held. *)
Definition received (d fresh : bytes) : MetaBuffer :=
  let d := take (Z.to_nat MaxCapacity) d in
  mkBuf (d ++ drop (length d) fresh) MaxCapacity 0 (Z.of_nat (length d)) 0 true 0 [].

(** C40: The attribute loop neither bounds the cursor by what was received nor
    the attribute's length by what is left of the 16-bit count.  With a STUN
    request pending, take any datagram whose header is that of a response and
    announces a length [L] that is 4 modulo 8, when from byte 20 on every eight
    bytes of the 1664-byte block (the datagram and what the block held behind it)
    start with a type other than MAPPED-ADDRESS and a length of eight: a turn that
    has four bytes left goes on with a count of 65532, the loop does not end
    before it reads behind the block (which is not a matter of fuel), and so
    [udpTransport::receive] faults. *)
Theorem stun_response_overruns d fresh t L :
  Z.of_nat (length fresh) = MaxCapacity -> d <> [] ->
  mStunRequested t = true -> mStunResponsed t = false ->
  u16at (received d fresh) 0 = Some 257 -> u32at (received d fresh) 4 = Some 554869826 ->
  u16at (received d fresh) 2 = Some L -> 0 <= L -> L mod 8 = 4 ->
  looks_like_attributes (received d fresh) 0 ->
  (exists b', forall fuel, stun_attrs (S fuel) (received d fresh) 20 4 = stun_attrs fuel b' 28 65532) /\
  stun_attrs 16384 (received d fresh) 20 L = Outside /\
  udp_receive (Some d) (mkBuf fresh MaxCapacity 0 MaxCapacity 0 true 0 []) t = None.
Proof.
  intros Lf Hd Hq Hr E0 E4 E2 H0 Hm Hs. set (b := received d fresh) in *.
  assert (HL : Z.of_nat (length (mData b)) = MaxCapacity).
  { unfold b, received. cbn [mData]. rewrite length_app, length_drop, length_take. unfold MaxCapacity in *. lia. }
  assert (HO : stun_attrs 16384 b 20 L = Outside) by (by apply (stun_runs 16384 b 0 L)).
  split; [|split; [done|]].
  { destruct (stun_turn b 0 4 eq_refl HL Hs) as (b' & _ & _ & _ & E); [done..|]. by exists b'. }
  unfold udp_receive. cbn [mCapacity]. set (d' := take _ d) in *.
  assert (Ld : (length d' <= length fresh)%nat) by (unfold d'; rewrite length_take; lia).
  unfold data_put. cbn [mData mRangeOffset]. rewrite (store_behind [] fresh d') by (done || lia).
  cbn [app mbind option_bind]. destruct d' as [|x d''] eqn:Ed.
  { exfalso. apply (f_equal length) in Ed. unfold d' in Ed. rewrite length_take in Ed.
    destruct d; [done|]. unfold MaxCapacity in *. simpl in Ed. lia. }
  rewrite <- Ed in *. rewrite Hq, Hr. cbn [negb andb].
  change (setRange _ _ _) with b. unfold parseStunResponse. rewrite Hq, Hr, E0, E4, E2.
  cbn [negb orb mbind option_bind Z.eqb Pos.eqb]. by rewrite HO.
Qed.

(** ** Concrete packets *)

Definition some_info : rtpInfo := mkInfo 0 0 0 0 0 0 0 0 0 0 0.
Definition some_rtp : RTPTransport :=
  mkRtp true true true true 5 (1, 5004) (1, 5005) some_info 287454020 70000 0 1234 3000000 500 96 [].
Definition seen_rtp : RTPTransport := count_rtcp some_rtp.
Definition blank : bytes := replicate 1664 0.
Definition idle : stun := mkStun false false ([0; 0], [0; 0; 0; 0]).

(** A block that holds [d]. *)
Definition block_with (d : bytes) : MetaBuffer :=
  mkBuf (d ++ replicate 8 0) (Z.of_nat (length d) + 8) 0 (Z.of_nat (length d)) 0 true 0 [].

Lemma block_bytes d : bytes_at (block_with d) 0 d.
Proof. by apply (bytes_at_data _ d (replicate 8 0)). Qed.

Definition bye : rtcp_packet := mkPacket 1 203 [287454020].
Definition bye_bytes : bytes := encode bye.

Lemma bye_ok : packet_ok bye.
Proof.
  split; cbn [rcount rtype rwords bye length]; try (unfold is_byte; lia).
  apply Forall_cons_2; [unfold is_word; lia|constructor].
Qed.

Lemma parseRTCP_total_witness :
  exists z s', parseRTCP 0 (block_with bye_bytes) some_rtp = Some (z, s') /\ (z = OK \/ z = -1).
Proof.
  apply (parseRTCP_total 0 (block_with bye_bytes) some_rtp). split.
  - reflexivity.
  - vm_compute. split; congruence.
  - apply Forall_app_2; [|apply Forall_replicate; unfold is_byte; lia].
    vm_compute. repeat constructor; congruence.
Defined.

Lemma parseRTCP_compound_witness :
  (notes <$> (snd <$> parseRTCP 0 (block_with (concat (encode <$> [bye; bye]))) some_rtp))
  = Some [RTCP_FIRST_PACKET; END_OF_STREAM; END_OF_STREAM].
Proof.
  rewrite (parseRTCP_compound 0 (block_with (concat (encode <$> [bye; bye]))) [bye; bye] some_rtp).
  - vm_compute. reflexivity.
  - repeat constructor; apply bye_ok.
  - by intros k [= <-].
  - apply block_bytes.
  - reflexivity.
Defined.

Definition padded_bye : bytes := [161; 203; 0; 2; 17; 34; 51; 68; 0; 0; 0; 4].
Lemma rtcp_padding_refused_witness :
  exists s', parseRTCP 0 (block_with padded_bye) some_rtp = Some (-1, s').
Proof.
  apply (rtcp_padding_refused 0 (block_with padded_bye) some_rtp 1 2 4); try (vm_compute; congruence); try lia.
  split; [reflexivity|vm_compute; split; congruence|vm_compute; repeat constructor; congruence].
Defined.

Lemma some_rtp_wf : rtp_wf some_rtp.
Proof. split; unfold is_word; cbn; lia. Qed.

Definition some_report : bytes :=
  match handleTimeout (replicate 88 170) 0 [49; 46; 50; 46; 51; 46; 52] 9 some_rtp with
  | Some (pk, _) => pk | None => [] end.
Definition after_report : RTPTransport :=
  match handleTimeout (replicate 88 170) 0 [49; 46; 50; 46; 51; 46; 52] 9 some_rtp with
  | Some (_, s) => s | None => some_rtp end.

Lemma sender_report_received_witness :
  parseRTCP 77 (block_with some_report) seen_rtp
  = Some (OK, notify (TIME_UPDATE (3000000 * 2 ^ 32 + 500) 1234) (set_lastSR 77 (count_rtcp seen_rtp))).
Proof.
  apply (sender_report_received 77 (replicate 88 170) 0 [49; 46; 50; 46; 51; 46; 52] 9 some_rtp after_report
    some_report (block_with some_report) seen_rtp).
  - apply some_rtp_wf.
  - reflexivity.
  - apply Forall_replicate. unfold is_byte. lia.
  - unfold is_word. lia.
  - repeat constructor.
  - vm_compute. reflexivity.
  - apply block_bytes.
  - reflexivity.
  - vm_compute. congruence.
Defined.

Lemma newPool_ready sgn : pool_ready sgn newPool.
Proof. split; [apply newPool_ok|]. unfold newPool. cbn [bufferPtr]. unfold CONST_TOKENPOOL_SIZE. lia. Qed.

Lemma blank_length : Z.of_nat (length blank) = MaxCapacity.
Proof. vm_compute. reflexivity. Qed.
Lemma blank_bytes : Forall is_byte blank.
Proof. apply Forall_replicate. unfold is_byte. lia. Qed.

Lemma receive_total_witness :
  exists r p' b' s', receive true blank (Some [128; 0; 1]) (9, 9) newPool idle some_rtp = Some (r, p', b', idle, s')
    /\ r = UNKNOWN_ERROR.
Proof.
  destruct (receive_total true blank (Some [128; 0; 1]) (9, 9) newPool idle some_rtp) as (r & p' & b' & s' & E & _ & H).
  - apply blank_length.
  - apply blank_bytes.
  - intros d [= <-]. vm_compute; repeat constructor; congruence.
  - apply newPool_ready.
  - reflexivity.
  - exists r, p', b', s'. split; [exact E|]. destruct H as [H|(_ & H1 & H2 & H3)]; [exact H|]. simpl in H3. lia.
Defined.

(** Twelve bytes for the header and a payload of three. *)
Definition outgoing : MetaBuffer := mkBuf (replicate 12 0 ++ [11; 22; 33]) 15 0 15 0 true 0 [].
Definition sent : option (option bytes * MetaBuffer * RTPTransport) := doSend 1 2 160 false true outgoing some_rtp.
Definition sent_packet : bytes := match sent with Some (Some pk, _, _) => pk | _ => [] end.
Definition sent_buffer : MetaBuffer := match sent with Some (_, b, _) => b | _ => outgoing end.
Definition sent_state : RTPTransport := match sent with Some (_, _, s) => s | _ => some_rtp end.

Lemma rtp_roundtrip_witness :
  exists p' b' r', receive true blank (Some sent_packet) (9, 9) newPool idle some_rtp = Some (OK, p', b', idle, r')
    /\ mQuickData b' = 4464 /\ payload b' = Some [11; 22; 33].
Proof.
  destruct (rtp_roundtrip true 1 2 160 false true outgoing some_rtp blank (9, 9) newPool idle some_rtp sent_packet
    sent_buffer sent_state) as (p' & b' & r' & E & _ & _ & _ & _ & Eq & Ep).
  - reflexivity.
  - vm_compute. split; congruence.
  - vm_compute. congruence.
  - vm_compute. congruence.
  - vm_compute. repeat constructor; congruence.
  - unfold is_word. cbn. lia.
  - cbn. lia.
  - apply blank_length.
  - apply blank_bytes.
  - apply newPool_ready.
  - reflexivity.
  - vm_compute. reflexivity.
  - exists p', b', r'. split; [exact E|]. split; [rewrite Eq; reflexivity|rewrite Ep; reflexivity].
Defined.

Definition good_response : bytes := stun_response 12 (replicate 12 7) 1 [0; 1; 19; 140; 10; 0; 0; 1] [].
Definition late_response : bytes := stun_response 24 (replicate 12 7) 3 [0; 0; 0; 0; 0; 0; 0; 0] [0; 1; 0; 8; 0; 1; 19; 140; 10; 0; 0; 1].

Lemma stun_mapped_first_witness :
  exists b' t', parseStunResponse (block_with good_response) pending = Some (b', t')
    /\ getStunReflect t' = (OK, Some ([19; 140], [10; 0; 0; 1])).
Proof.
  apply (stun_mapped_first (block_with good_response) 12 (replicate 12 7) 0 1 19 140 10 0 0 1 []); try reflexivity; try lia.
  apply block_bytes.
Defined.

Lemma stun_second_attribute_missed_witness :
  exists b' t', parseStunResponse (block_with late_response) pending = Some (b', t')
    /\ getStunReflect t' = (NO_INIT, None).
Proof.
  apply (stun_second_attribute_missed (block_with late_response) 24 (replicate 12 7) 3 0 0 0 0 0 0 0 0
    [0; 1; 0; 8; 0; 1; 19; 140; 10; 0; 0; 1]); try reflexivity; try lia; try (unfold is_byte; lia).
  - vm_compute. congruence.
  - apply block_bytes.
Defined.

(** A response of 1664 bytes whose header announces four bytes of attributes. *)
Definition runaway : bytes :=
  be16 257 ++ be16 4 ++ be32 554869826 ++ replicate 12 0 ++ concat (replicate 411 [0; 2; 0; 8]).

Lemma stun_response_overruns_witness :
  udp_receive (Some runaway) (mkBuf blank MaxCapacity 0 MaxCapacity 0 true 0 []) pending = None.
Proof.
  apply (stun_response_overruns runaway blank pending 4); try (by vm_compute).
  intros j Hj. revert j Hj.
  assert (H : forallb (fun j => bool_decide (data_at (received runaway blank) (22 + 8 * j) = Some 0 /\
      data_at (received runaway blank) (23 + 8 * j) = Some 8 /\
      u16at (received runaway blank) (20 + 8 * j) <> Some 1)) (seqZ 0 206) = true) by (by vm_compute).
  rewrite forallb_forall in H. intros j Hj. specialize (H j). rewrite bool_decide_eq_true in H. apply H.
  apply list_elem_of_In, elem_of_seqZ. lia.
Defined.
