(* ===== verification/Holder.v ===== *)
(** * libnet/Holder.cpp: from socket descriptors to transports

    [SocketHolder] keeps at most fifty items in the slots of a [SlotAlloc]
    allocator, on a list ordered by descriptor.  An item is named by its
    address, which is its slot; the list is the sequence of its items (the
    sentinel [mQueue] is not among them).  [weak] counts the weak references
    that the items hold on their transports; whether a transport is still
    alive ([attemptIncStrong]) and which socket it then names are the
    transport's business and arguments of [fetch].  Each operation runs under
    [mLock].  [None] is an access outside the slots' links. *)

From S2P Require Import Prelude CList SlotAlloc.

Definition CONTAINER_LIMIT : Z := 50.
Definition SOCKET_ITEM : Z := 24.      (* sizeof(socketItem) with 4-byte pointers *)
Definition WORD : Z := 4.

Record socketItem := mkItem { addr : Z; socket_fd : Z; socket_inst : Z }.

Section holder.
Context {H : Type} {IL : IntrusiveList H}.

Record SocketHolder := mkHolder {
  mQueue : list socketItem;
  mAlloc : slot_alloc_t;
  mem : H;
  weak : gmap Z Z
}.

Definition refs (w : gmap Z Z) (inst : Z) : Z := default 0 (w !! inst).
Definition createWeak (inst : Z) (w : gmap Z Z) : gmap Z Z := <[inst := refs w inst + 1]> w.
Definition decWeak (inst : Z) (w : gmap Z Z) : gmap Z Z := <[inst := refs w inst - 1]> w.

(** The constructor, over the array at [mArray] with the allocator's list head
    at [head]. *)
Definition holder_alloc (mArray head : Z) : slot_alloc_t :=
  mkSlotAlloc SOCKET_ITEM head mArray (CONTAINER_LIMIT * SOCKET_ITEM).
Definition newHolder (mArray head : Z) (h : H) : option SocketHolder :=
  '(_, a, h) ← init_slot_allocator WORD (holder_alloc mArray head) h;
  Some (mkHolder [] a h ∅).

(** [removeItem], the unlinking apart. *)
Definition drop_item (c : socketItem) (s : SocketHolder) : option SocketHolder :=
  h ← slot_free (mAlloc s) (addr c) (mem s);
  Some (mkHolder (mQueue s) (mAlloc s) h (decWeak (socket_inst c) (weak s))).

(** The loop of [insert] and the linking: the new list and the item of the
    same descriptor that was taken out.  [None] is the case the code logs as a
    bug. *)
Fixpoint place (unit : socketItem) (q : list socketItem) : option (list socketItem * option socketItem) :=
  match q with
  | [] => Some ([unit], None)
  | cursor :: q =>
      if socket_fd unit <? socket_fd cursor then Some (unit :: cursor :: q, None)
      else if socket_fd cursor =? socket_fd unit then
        if addr cursor =? addr unit then None else Some (unit :: q, Some cursor)
      else '(q, old) ← place unit q; Some (cursor :: q, old)
  end.

Definition insert (sock inst : Z) (s : SocketHolder) : option (Z * SocketHolder) :=
  if inst =? 0 then Some (UNKNOWN_ERROR, s)
  else
    '(p, h) ← slot_malloc (mAlloc s) SOCKET_ITEM (mem s);
    if p =? NULL then Some (UNKNOWN_ERROR, mkHolder (mQueue s) (mAlloc s) h (weak s))
    else
      let w := createWeak inst (weak s) in
      match place (mkItem p sock inst) (mQueue s) with
      | None => Some (UNKNOWN_ERROR, mkHolder (mQueue s) (mAlloc s) h w)
      | Some (q, old) =>
          let s := mkHolder q (mAlloc s) h w in
          match old with
          | Some c => s ← drop_item c s; Some (NO_ERROR, s)
          | None => Some (NO_ERROR, s)
          end
      end.

(** The search of [fetch] and [remove]: the items before, the item, the rest. *)
Fixpoint find_sock (sock : Z) (q : list socketItem) : option (list socketItem * socketItem) :=
  match q with
  | [] => None
  | cursor :: q =>
      if sock <? socket_fd cursor then None
      else if socket_fd cursor =? sock then Some (q, cursor)
      else '(q, c) ← find_sock sock q; Some (cursor :: q, c)
  end.

(** [alive]: does [attemptIncStrong] succeed; [isock]: the transport's [sock]. *)
Definition fetch (sock : Z) (alive : bool) (isock : Z) (s : SocketHolder)
  : option (Z * option Z * SocketHolder) :=
  match find_sock sock (mQueue s) with
  | None => Some (NAME_NOT_FOUND, None, s)
  | Some (q, cursor) =>
      if negb alive || negb (isock =? sock) then
        s ← drop_item cursor (mkHolder q (mAlloc s) (mem s) (weak s)); Some (DEAD_OBJECT, None, s)
      else Some (NO_ERROR, Some (socket_inst cursor), s)
  end.

(** [fetch] where [alive] and [isock] tell the state of each transport. *)
Definition fetch_at (alive : Z -> bool) (isock : Z -> Z) (sock : Z) (s : SocketHolder) : option (Z * option Z * SocketHolder) :=
  match find_sock sock (mQueue s) with
  | Some (_, c) => fetch sock (alive (socket_inst c)) (isock (socket_inst c)) s
  | None => fetch sock false 0 s
  end.

Definition remove (sock : Z) (s : SocketHolder) : option (Z * SocketHolder) :=
  match find_sock sock (mQueue s) with
  | None => Some (NAME_NOT_FOUND, s)
  | Some (q, cursor) =>
      s ← drop_item cursor (mkHolder q (mAlloc s) (mem s) (weak s)); Some (NO_ERROR, s)
  end.

(** The destructor. *)
Fixpoint drop_all (q : list socketItem) (s : SocketHolder) : option SocketHolder :=
  match q with
  | [] => Some s
  | c :: q => s ← drop_item c s; drop_all q s
  end.
Definition destroy (s : SocketHolder) : option SocketHolder :=
  drop_all (mQueue s) (mkHolder [] (mAlloc s) (mem s) (weak s)).

(** What [dumpInfo] prints: the number of free slots and the descriptors; the
    walk over the free slots is the allocator's list. *)
Definition dump_fds (s : SocketHolder) : list Z := map socket_fd (mQueue s).

(** ** The list as a map *)

Definition ordered (q : list socketItem) : Prop := StronglySorted (fun a b => socket_fd a < socket_fd b) q.
Definition denote (q : list socketItem) : gmap Z Z := list_to_map (map (fun c => (socket_fd c, socket_inst c)) q).

Lemma ordered_cons c q : ordered (c :: q) <-> ordered q /\ Forall (fun b => socket_fd c < socket_fd b) q.
Proof. split; [apply StronglySorted_inv|intros [? ?]; by constructor]. Qed.

Lemma denote_cons c q : denote (c :: q) = <[socket_fd c := socket_inst c]> (denote q).
Proof. done. Qed.

Lemma denote_above q fd : Forall (fun b => fd < socket_fd b) q -> denote q !! fd = None.
Proof.
  induction 1 as [|c q Hc _ IH]; [done|]. rewrite denote_cons, lookup_insert_ne by lia. done.
Qed.

Lemma place_ok unit q :
  ordered q -> (forall c, c ∈ q -> addr c <> addr unit) ->
  exists q' old, place unit q = Some (q', old) /\ ordered q'
    /\ denote q' = <[socket_fd unit := socket_inst unit]> (denote q)
    /\ (forall fd, Forall (fun b => fd < socket_fd b) q -> fd < socket_fd unit -> Forall (fun b => fd < socket_fd b) q')
    /\ match old with
       | None => Permutation q' (unit :: q) /\ denote q !! socket_fd unit = None
       | Some c => Permutation (c :: q') (unit :: q)
       end.
Proof.
  induction q as [|c q IH]; intros Hq Ha; cbn [place].
  - exists [unit], None. split_and!; try done; [by repeat constructor|by repeat constructor].
  - apply ordered_cons in Hq as [Hq Hc]. case_if; [|case_if].
    + exists (unit :: c :: q), None. split_and!; try done.
      * apply ordered_cons. split; [by apply ordered_cons|]. constructor; [done|].
        eapply Forall_impl; [exact Hc|]. simpl. lia.
      * intros fd H1 H2. by constructor.
      * apply denote_above. constructor; [done|]. eapply Forall_impl; [exact Hc|]. simpl. lia.
    + rewrite (proj2 (Z.eqb_neq _ _)) by (apply Ha; set_solver).
      exists (unit :: q), (Some c). split_and!; try done.
      * apply ordered_cons. split; [done|]. by rewrite <- Heqb0.
      * rewrite !denote_cons, Heqb0. by rewrite insert_insert_eq.
      * intros fd H1 H2. apply Forall_cons in H1 as [_ H1]. by constructor.
      * constructor.
    + destruct IH as (q' & old & -> & Ho & Hd & Hlow & Hold); [done|set_solver|]. cbn [mbind option_bind].
      exists (c :: q'), old. split_and!; try done.
      * apply ordered_cons. split; [done|]. apply Hlow; [done|lia].
      * rewrite !denote_cons, Hd. apply insert_insert_ne. lia.
      * intros fd H1 H2. apply Forall_cons in H1 as [H1 H1']. constructor; [done|]. by apply Hlow.
      * destruct old as [o|].
        -- rewrite Permutation_swap, Hold. constructor.
        -- destruct Hold as [Hp Hn]. split; [rewrite Hp; constructor|]. by rewrite denote_cons, lookup_insert_ne by lia.
Qed.

Lemma find_sock_ok sock q :
  ordered q ->
  match find_sock sock q with
  | None => denote q !! sock = None
  | Some (q', c) => Permutation q (c :: q') /\ socket_fd c = sock /\ ordered q'
      /\ denote q !! sock = Some (socket_inst c) /\ denote q' = delete sock (denote q)
      /\ (forall fd, Forall (fun b => fd < socket_fd b) q -> Forall (fun b => fd < socket_fd b) q')
  end.
Proof.
  induction q as [|c q IH]; intros Hq; cbn [find_sock]; [done|]. apply ordered_cons in Hq as [Hq Hc].
  case_if; [|case_if].
  - apply denote_above. constructor; [done|]. eapply Forall_impl; [exact Hc|]. simpl. lia.
  - subst sock. split_and!; try done.
    + rewrite denote_cons. apply lookup_insert_eq.
    + rewrite denote_cons, delete_insert_eq, delete_id; [done|]. by apply denote_above.
    + intros fd H1. by apply Forall_cons in H1 as [_ H1].
  - specialize (IH Hq). destruct (find_sock sock q) as [[q' o]|]; cbn [mbind option_bind].
    + destruct IH as (Hp & Hf & Ho & Hl & Hd & Hlow). split_and!; try done.
      * rewrite Hp. constructor.
      * apply ordered_cons. split; [done|]. by apply Hlow.
      * by rewrite denote_cons, lookup_insert_ne by lia.
      * rewrite !denote_cons, Hd, delete_insert_ne by lia. done.
      * intros fd H1. apply Forall_cons in H1 as [H1 H1']. constructor; [done|]. by apply Hlow.
    + by rewrite denote_cons, lookup_insert_ne by lia.
Qed.

(** The size of the map is the number of items. *)
Lemma denote_size q : ordered q -> size (denote q) = length q.
Proof.
  induction q as [|c q IH]; intros Hq; [done|]. apply ordered_cons in Hq as [Hq Hc].
  rewrite denote_cons, map_size_insert_None, IH by (done || by apply denote_above). done.
Qed.

(** ** The invariant *)

Variable mArray head : Z.
Hypothesis alloc_invalid : slot_invalid (holder_alloc mArray head) = false.
Hypothesis alloc_valid : valid WORD (initialised WORD (holder_alloc mArray head)).
Abbreviation alloc := (initialised WORD (holder_alloc mArray head)).

Definition uses (q : list socketItem) (inst : Z) : Z :=
  Z.of_nat (length (filter (fun c => socket_inst c = inst) q)).

(** [extra]: slots taken from the allocator that are not on the list. *)
Record holder_inv (s : SocketHolder) (extra : list socketItem) : Prop := {
  hi_ordered : ordered (mQueue s);
  hi_alloc : mAlloc s = alloc;
  hi_slots : exists free, slot_state alloc (mem s) free (map addr (extra ++ mQueue s));
  hi_weak inst : refs (weak s) inst = uses (extra ++ mQueue s) inst
}.

Lemma WORD_pos : 0 < WORD.
Proof. unfold WORD. lia. Qed.

Lemma alloc_fits : 0 < SOCKET_ITEM <= slotSize alloc.
Proof. vm_compute. split; congruence. Qed.

Lemma alloc_slots : length (slots alloc) = 50%nat.
Proof. unfold slots. by rewrite length_map, length_seq. Qed.

Lemma uses_perm q1 q2 inst : Permutation q1 q2 -> uses q1 inst = uses q2 inst.
Proof. intros P. unfold uses. by rewrite P. Qed.

Lemma uses_cons c q inst : uses (c :: q) inst = (if decide (socket_inst c = inst) then 1 else 0) + uses q inst.
Proof. unfold uses. rewrite filter_cons. destruct (decide _); simpl; lia. Qed.

Lemma refs_insert w x y v : refs (<[x := v]> w) y = if decide (x = y) then v else refs w y.
Proof.
  unfold refs. destruct (decide (x = y)) as [->|Hne]; [by rewrite lookup_insert_eq|by rewrite lookup_insert_ne].
Qed.

Lemma drop_item_ok c s extra :
  holder_inv s (c :: extra) ->
  exists s', drop_item c s = Some s' /\ holder_inv s' extra /\ mQueue s' = mQueue s.
Proof.
  intros [H1 H2 (free & Hst) H4]. unfold drop_item. rewrite H2.
  destruct (free_state WORD WORD_pos alloc (mem s) free (map addr (extra ++ mQueue s)) (addr c) alloc_valid Hst)
    as (h & -> & Hst'). cbn [mbind option_bind]. eexists. split; [done|]. split; [|done].
  split; cbn [mQueue mAlloc mem weak]; [done|done|by eexists|].
  intros inst. unfold decWeak. rewrite refs_insert, !H4. cbn [app]. rewrite !uses_cons.
  destruct (decide (socket_inst c = inst)) as [->|]; [rewrite decide_True by done|]; lia.
Qed.

Lemma inv_perm s s' extra extra' :
  holder_inv s extra -> ordered (mQueue s') -> mAlloc s' = mAlloc s -> mem s' = mem s -> weak s' = weak s ->
  Permutation (extra ++ mQueue s) (extra' ++ mQueue s') -> holder_inv s' extra'.
Proof.
  intros [H1 H2 (free & Hl & Hp) H4] Ho Ea Em Ew P. split; [done|congruence| |].
  - exists free. rewrite Em. split; [done|]. by rewrite <- P.
  - intros inst. by rewrite Ew, H4, (uses_perm _ _ _ P).
Qed.

Lemma newHolder_ok h : exists s, newHolder mArray head h = Some s /\ holder_inv s [] /\ mQueue s = [].
Proof.
  destruct (init_state WORD WORD_pos (holder_alloc mArray head) h alloc_valid alloc_invalid) as (h' & E & Hst).
  unfold newHolder. rewrite E. cbn [mbind option_bind]. eexists. split; [done|]. split; [|done].
  split; cbn [mQueue mAlloc mem weak app map]; [constructor|done|by eexists|done].
Qed.

Lemma length_queue s : holder_inv s [] -> (length (mQueue s) <= 50)%nat.
Proof.
  intros [_ _ (free & _ & Hp) _]. apply Permutation_length in Hp.
  rewrite length_app, length_map, alloc_slots in Hp. simpl in Hp. lia.
Qed.

(** ** Against the specification *)

Lemma insert_ok sock inst s :
  holder_inv s [] -> inst <> 0 ->
  exists s', insert sock inst s
    = Some (if (size (denote (mQueue s)) <? 50)%nat then NO_ERROR else UNKNOWN_ERROR, s')
    /\ holder_inv s' []
    /\ denote (mQueue s') = if (size (denote (mQueue s)) <? 50)%nat then <[sock := inst]> (denote (mQueue s))
                            else denote (mQueue s).
Proof.
  intros I Hi. pose proof I as [H1 H2 (free & Hst) H4]. rewrite denote_size by done.
  unfold insert. rewrite (proj2 (Z.eqb_neq _ _)) by done. rewrite H2.
  pose proof (malloc_state WORD alloc (mem s) free _ SOCKET_ITEM alloc_valid Hst alloc_fits) as Hm.
  pose proof Hst as [_ Hp]. apply Permutation_length in Hp. rewrite length_app, length_map, alloc_slots in Hp. cbn [app] in Hp.
  destruct free as [|p free].
  - rewrite Hm. cbn [mbind option_bind]. rewrite Z.eqb_refl.
    rewrite (proj2 (Nat.ltb_ge _ _)) by (simpl in Hp; lia). eexists. split; [done|]. split; [|done].
    by apply (inv_perm s _ []).
  - destruct Hm as (h & -> & Hst'). cbn [mbind option_bind].
    destruct (slot_state_used WORD WORD_pos alloc _ _ _ alloc_valid Hst) as [Hnd Hin].
    assert (p <> NULL) as Hpn.
    { pose proof (slots_range WORD WORD_pos alloc p alloc_valid (Hin p ltac:(set_solver))) as [Hr _].
      pose proof alloc_valid as (_ & _ & _ & Hc & _). unfold NULL. lia. }
    rewrite (proj2 (Z.eqb_neq p NULL)) by done.
    rewrite (proj2 (Nat.ltb_lt _ _)) by (simpl in Hp; lia).
    set (unit := mkItem p sock inst).
    destruct (place_ok unit (mQueue s)) as (q' & old & -> & Ho & Hd & _ & Hold); [done| |].
    { intros c Hc E. apply NoDup_app in Hnd as (_ & Hx & _). apply (Hx p); [set_solver|].
      change p with (addr unit). rewrite <- E. by apply (list_elem_of_fmap_2 addr). }
    assert (I2 : holder_inv (mkHolder (mQueue s) (mAlloc s) h (createWeak inst (weak s))) [unit]).
    { split; cbn [mQueue mAlloc mem weak app map]; [done|done|by exists free|].
      intros i. unfold createWeak. rewrite refs_insert, !H4, uses_cons. cbn [app socket_inst unit].
      destruct (decide (inst = i)); subst; lia. }
    destruct old as [c|].
    + assert (I3 : holder_inv (mkHolder q' (mAlloc s) h (createWeak inst (weak s))) [c]).
      { by apply (inv_perm _ _ [unit] [c] I2). }
      rewrite <- H2. destruct (drop_item_ok c _ [] I3) as (s' & -> & I4 & Eq). cbn [mbind option_bind].
      exists s'. split; [done|]. split; [done|]. by rewrite Eq.
    + destruct Hold as [Hperm _]. rewrite <- H2. eexists. split; [done|]. split; [|done].
      by apply (inv_perm _ _ [unit] [] I2).
Qed.

Lemma cut_ok sock s :
  holder_inv s [] ->
  match find_sock sock (mQueue s) with
  | None => denote (mQueue s) !! sock = None
  | Some (q, c) => denote (mQueue s) !! sock = Some (socket_inst c) /\
      exists s', drop_item c (mkHolder q (mAlloc s) (mem s) (weak s)) = Some s' /\ holder_inv s' []
        /\ denote (mQueue s') = delete sock (denote (mQueue s))
  end.
Proof.
  intros I. pose proof (find_sock_ok sock (mQueue s) (hi_ordered _ _ I)) as F.
  destruct (find_sock sock (mQueue s)) as [[q c]|]; [|done]. destruct F as (Hp & _ & Ho & Hl & Hd & _).
  split; [done|].
  assert (I2 : holder_inv (mkHolder q (mAlloc s) (mem s) (weak s)) [c]).
  { by apply (inv_perm s _ [] [c] I). }
  destruct (drop_item_ok c _ [] I2) as (s' & -> & I3 & Eq). exists s'. split_and!; [done|done|]. by rewrite Eq.
Qed.

Lemma remove_sock_ok sock s :
  holder_inv s [] ->
  exists r s', remove sock s = Some (r, s') /\ holder_inv s' [] /\ denote (mQueue s') = delete sock (denote (mQueue s)).
Proof.
  intros I. pose proof (cut_ok sock s I) as C. unfold remove.
  destruct (find_sock sock (mQueue s)) as [[q c]|].
  - destruct C as (_ & s' & -> & I' & Ed). cbn [mbind option_bind]. by exists NO_ERROR, s'.
  - exists NAME_NOT_FOUND, s. by rewrite delete_id.
Qed.

Section live.
Variable alive : Z -> bool.
Variable isock : Z -> Z.

(** The transport that [fetch] finds. *)
Definition live (h : SocketHolder) (fd inst : Z) : Prop :=
  denote (mQueue h) !! fd = Some inst /\ alive inst = true /\ isock inst = fd.

Lemma fetch_at_ok fd h :
  holder_inv h [] ->
  exists err r h', fetch_at alive isock fd h = Some (err, r, h') /\ holder_inv h' []
    /\ (forall fd' inst, live h' fd' inst <-> live h fd' inst)
    /\ match r with Some inst => live h fd inst | None => forall inst, ~ live h fd inst end.
Proof.
  intros I. unfold fetch_at, fetch.
  pose proof (cut_ok fd h I) as C.
  destruct (find_sock fd (mQueue h)) as [[q c]|] eqn:Ef.
  - destruct C as (Hl & s' & E & I' & Ed).
    destruct (negb (alive (socket_inst c)) || negb (isock (socket_inst c) =? fd)) eqn:Eb.
    + rewrite E. cbn [mbind option_bind]. eexists _, None, s'. split; [done|]. split; [done|].
      assert (Hdead : forall inst, ~ live h fd inst).
      { intros inst (Hm & Ha & Hs). rewrite Hm in Hl. injection Hl as ->. rewrite Ha, Hs, Z.eqb_refl in Eb. done. }
      split; [|done]. intros fd' inst. unfold live. rewrite Ed.
      destruct (decide (fd' = fd)) as [->|Hne]; [|by rewrite lookup_delete_ne].
      rewrite lookup_delete_eq. split; [by intros [? _]|]. intros Hlive. by destruct (Hdead inst).
    + apply orb_false_iff in Eb as [Ea Es]. apply negb_false_iff in Ea, Es. apply Z.eqb_eq in Es.
      eexists _, (Some _), h. split; [done|]. split_and!; done.
  - eexists _, None, h. split; [done|]. split; [done|]. split; [done|].
    intros inst (Hm & _). congruence.
Qed.

End live.

Inductive holder_op := HInsert (sock inst : Z) | HFetch (sock : Z) (alive : bool) (isock : Z) | HRemove (sock : Z).

Definition holder_exec (o : holder_op) (s : SocketHolder) : option ((Z * option Z) * SocketHolder) :=
  match o with
  | HInsert sock inst => '(r, s) ← insert sock inst s; Some ((r, None), s)
  | HFetch sock alive isock => '(r, i, s) ← fetch sock alive isock s; Some ((r, i), s)
  | HRemove sock => '(r, s) ← remove sock s; Some ((r, None), s)
  end.

Fixpoint holder_run (os : list holder_op) (s : SocketHolder) : option (list (Z * option Z) * SocketHolder) :=
  match os with
  | [] => Some ([], s)
  | o :: os => '(r, s) ← holder_exec o s; '(rs, s) ← holder_run os s; Some (r :: rs, s)
  end.

(** The specification: a finite map of at most fifty descriptors; a descriptor
    whose transport is gone, or has another socket by now, is dropped when it
    is fetched. *)
Definition spec_exec (o : holder_op) (m : gmap Z Z) : (Z * option Z) * gmap Z Z :=
  match o with
  | HInsert sock inst =>
      if inst =? 0 then ((UNKNOWN_ERROR, None), m)
      else if (size m <? 50)%nat then ((NO_ERROR, None), <[sock := inst]> m)
      else ((UNKNOWN_ERROR, None), m)
  | HFetch sock alive isock =>
      match m !! sock with
      | None => ((NAME_NOT_FOUND, None), m)
      | Some inst => if alive && (isock =? sock) then ((NO_ERROR, Some inst), m)
                     else ((DEAD_OBJECT, None), delete sock m)
      end
  | HRemove sock =>
      match m !! sock with None => ((NAME_NOT_FOUND, None), m) | Some _ => ((NO_ERROR, None), delete sock m) end
  end.

Fixpoint spec_run (os : list holder_op) (m : gmap Z Z) : list (Z * option Z) * gmap Z Z :=
  match os with
  | [] => ([], m)
  | o :: os => let '(r, m) := spec_exec o m in let '(rs, m) := spec_run os m in (r :: rs, m)
  end.

Lemma exec_refines o s :
  holder_inv s [] ->
  exists s', holder_exec o s = Some ((spec_exec o (denote (mQueue s))).1, s') /\ holder_inv s' []
    /\ denote (mQueue s') = (spec_exec o (denote (mQueue s))).2.
Proof.
  intros I. destruct o as [sock inst|sock alive isock|sock]; cbn [holder_exec spec_exec].
  - destruct (Z.eqb_spec inst 0) as [->|Hi]; [by exists s|].
    destruct (insert_ok sock inst s I Hi) as (s' & -> & I' & Ed). cbn [mbind option_bind]. exists s'.
    destruct (size (denote (mQueue s)) <? 50)%nat; by split_and!.
  - pose proof (cut_ok sock s I) as C. unfold fetch.
    destruct (find_sock sock (mQueue s)) as [[q c]|]; [|rewrite C; by exists s].
    destruct C as (-> & s' & E & I' & Ed).
    destruct (alive && (isock =? sock)) eqn:Ea.
    + apply andb_true_iff in Ea as [-> ->]. cbn [negb orb]. by exists s.
    + assert (negb alive || negb (isock =? sock) = true) as -> by (destruct alive, (isock =? sock); done).
      rewrite E. cbn [mbind option_bind]. by exists s'.
  - pose proof (cut_ok sock s I) as C. unfold remove.
    destruct (find_sock sock (mQueue s)) as [[q c]|]; [|rewrite C; by exists s].
    destruct C as (-> & s' & E & I' & Ed). rewrite E. cbn [mbind option_bind]. by exists s'.
Qed.

Lemma run_refines os s :
  holder_inv s [] ->
  exists s', holder_run os s = Some ((spec_run os (denote (mQueue s))).1, s') /\ holder_inv s' []
    /\ denote (mQueue s') = (spec_run os (denote (mQueue s))).2.
Proof.
  revert s. induction os as [|o os IH]; intros s I; cbn [holder_run spec_run]; [by exists s|].
  destruct (exec_refines o s I) as (s1 & -> & I1 & E1). cbn [mbind option_bind].
  destruct (spec_exec o (denote (mQueue s))) as [r m]. cbn [fst snd] in *. subst m.
  destruct (IH s1 I1) as (s2 & -> & I2 & E2). cbn [mbind option_bind].
  destruct (spec_run os (denote (mQueue s1))) as [rs m2]. by exists s2.
Qed.

Lemma drop_all_ok q s extra :
  holder_inv s (q ++ extra) -> exists s', drop_all q s = Some s' /\ holder_inv s' extra /\ mQueue s' = mQueue s.
Proof.
  revert s. induction q as [|c q IH]; intros s I; cbn [drop_all]; [by exists s|].
  destruct (drop_item_ok c s (q ++ extra) I) as (s1 & -> & I1 & E1). cbn [mbind option_bind].
  destruct (IH s1 I1) as (s2 & -> & I2 & E2). exists s2. split_and!; [done|done|congruence].
Qed.

(** C36: The holder of sockets implements a finite map of at most fifty
    descriptors: for any sequence of insertions, fetches and removals it gives
    the answers of the map, never touches memory outside its slots, keeps its
    list ordered by descriptor, and at the end holds one slot and one weak
    reference per entry, all of which its destructor gives back. *)
Theorem holder_refines_map h os :
  exists s0 s s', newHolder mArray head h = Some s0
    /\ holder_run os s0 = Some ((spec_run os ∅).1, s)
    /\ denote (mQueue s) = (spec_run os ∅).2 /\ ordered (mQueue s)
    /\ (exists free, slot_state alloc (mem s) free (map addr (mQueue s))
          /\ (length free + length (mQueue s) = 50)%nat)
    /\ (forall inst, refs (weak s) inst = uses (mQueue s) inst)
    /\ destroy s = Some s' /\ (exists free, slot_state alloc (mem s') free [] /\ length free = 50%nat)
    /\ (forall inst, refs (weak s') inst = 0).
Proof.
  destruct (newHolder_ok h) as (s0 & E0 & I0 & Eq). destruct (run_refines os s0 I0) as (s & E & I & Ed).
  rewrite Eq in E, Ed. change (denote []) with (∅ : gmap Z Z) in E, Ed.
  assert (I2 : holder_inv (mkHolder [] (mAlloc s) (mem s) (weak s)) (mQueue s ++ [])).
  { apply (inv_perm s _ [] _ I); try done; [constructor|]. by rewrite !app_nil_r. }
  destruct (drop_all_ok (mQueue s) _ [] I2) as (s' & E' & I' & Eq'). cbn [mQueue] in Eq'.
  pose proof I as [H1 _ (free & Hst) H4]. pose proof I' as [_ _ (free' & Hst') H4']. rewrite Eq' in Hst', H4'.
  assert (Hlen : forall f l m, slot_state alloc m f l -> (length f + length l = 50)%nat).
  { intros f l m [_ P]. apply Permutation_length in P. rewrite length_app in P. by rewrite <- alloc_slots. }
  exists s0, s, s'. split_and!; try done.
  - exists free. split; [done|]. specialize (Hlen _ _ _ Hst). rewrite length_map in Hlen. exact Hlen.
  - exists free'. split; [done|]. specialize (Hlen _ _ _ Hst'). simpl in Hlen. lia.
Qed.
End holder.

(** An array of items that an allocator takes. *)
Lemma some_alloc_valid : valid WORD (initialised WORD (holder_alloc 1000 100)).
Proof. repeat split; try (by vm_compute); try (simpl; lia). all: unfold NULL; simpl; lia. Qed.

(** Fifty slots at address 1000, the list head at 100. *)
Lemma holder_refines_map_witness :
  exists s0 s, newHolder 1000 100 empty_heap = Some s0
    /\ holder_run [HInsert 7 70; HInsert 5 50; HInsert 7 71; HFetch 7 true 7; HFetch 5 true 6; HFetch 5 true 5; HRemove 9] s0
        = Some ([(NO_ERROR, None); (NO_ERROR, None); (NO_ERROR, None); (NO_ERROR, Some 71); (DEAD_OBJECT, None);
                 (NAME_NOT_FOUND, None); (NAME_NOT_FOUND, None)], s)
    /\ dump_fds s = [7].
Proof.
  destruct (holder_refines_map 1000 100 eq_refl) with (h := empty_heap)
    (os := [HInsert 7 70; HInsert 5 50; HInsert 7 71; HFetch 7 true 7; HFetch 5 true 6; HFetch 5 true 5; HRemove 9])
    as (s0 & s & s' & E0 & E & _).
  - repeat split; try (by vm_compute); try (simpl; lia). all: unfold NULL; simpl; lia.
  - exists s0, s. split; [exact E0|]. split; [rewrite E; reflexivity|].
    vm_compute in E0. injection E0 as <-. vm_compute in E. injection E as <-. reflexivity.
Defined.
