(* ===== verification/Sender.v ===== *)
(** * libnet/Sender.cpp: the sending thread

    [RTPTransport::deliver] labels a buffer with its socket and hands it to
    [SocketSender], whose thread sends at most six packets per tick of a
    ten-millisecond timer.  Buffers are shared ([sp<MetaBuffer>]): the queues
    hold their addresses and [bufs] is the store.  The thread finds the
    transport of a packet through the [SocketHolder] of [Holder]; [alive] and
    [isock] say of a transport whether it still lives and which socket it has.
    A tick is the body of [threadLoop]; the queue is handed over under [mLock].
    [findInt32] stores four bytes into the one-byte variables [video] and
    [marker], so the variables are modelled in the stack frame: a [layout] says
    where the compiler has put them and which bytes of the frame hold anything
    else.  [None] is undefined behaviour, as in the components, and a store over
    something else in the frame. *)

From S2P Require Import Prelude CList SlotAlloc TokenPool MetaBuffer Rtp.
From S2P Require Holder.

Definition MAX_SENDING_PACKETS : nat := 6.

Definition n_fd : cstr := [102; 100].
Definition n_ts : cstr := [116; 115].
Definition n_video : cstr := [118; 105; 100; 101; 111].
Definition n_marker : cstr := [109; 97; 114; 107; 101; 114].

Definition Zb (b : bool) : Z := if b then 1 else 0.

(** ** The stack frame of [threadLoop] *)

(** Integers in memory, the low byte first. *)
Fixpoint le (n : nat) (v : Z) : bytes :=
  match n with O => [] | S n => v mod 256 :: le n (v / 256) end.
Fixpoint unle (bs : bytes) : Z := match bs with [] => 0 | b :: bs => b + 256 * unle bs end.

Record layout := mkLayout {
  at_fd : Z; at_ts : Z; at_video : Z; at_marker : Z;
  occupied : Z -> bool                 (* a byte of another variable *)
}.

(** A store through a pointer to a variable. *)
Definition put_local (L : layout) (off : Z) (bs f : bytes) : option bytes :=
  if existsb (occupied L) (seqZ off (Z.of_nat (length bs))) then None else store f off bs.

(** [n] bytes of a variable. *)
Definition get_local (n : nat) (off : Z) (f : bytes) : option Z :=
  if (0 <=? off) && (off + Z.of_nat n <=? Z.of_nat (length f))
  then Some (unle (take n (drop (Z.to_nat off) f))) else None.

(** [find##NAME(name, &variable)]: a field that is not there leaves the variable alone. *)
Definition found (L : layout) (off : Z) (n : nat) (v : option Z) (f : bytes) : option bytes :=
  match v with Some v => put_local L off (le n v) f | None => Some f end.

(** A layout of a frame of [size] bytes for which the stores do no harm: they stay
    inside the frame and off other variables, and the four bytes that go to
    [marker] do not cover [video]. *)
Definition apart (a n b k : Z) : Prop := a + n <= b \/ b + k <= a.

Record layout_ok (L : layout) (size : Z) : Prop := {
  lay_inside off n : (off, n) ∈ [(at_fd L, 4); (at_ts L, 8); (at_video L, 4); (at_marker L, 4)] ->
    0 <= off /\ off + n <= size /\ forall i, off <= i < off + n -> occupied L i = false;
  lay_fd_video : apart (at_fd L) 4 (at_video L) 4;
  lay_fd_marker : apart (at_fd L) 4 (at_marker L) 4;
  lay_fd_ts : apart (at_fd L) 4 (at_ts L) 8;
  lay_video_marker : apart (at_video L) 1 (at_marker L) 4;
  lay_video_ts : apart (at_video L) 1 (at_ts L) 8;
  lay_marker_ts : apart (at_marker L) 1 (at_ts L) 8
}.

Lemma length_le n v : length (le n v) = n.
Proof. revert v. induction n as [|n IH]; intros v; simpl; [done|]. by rewrite IH. Qed.

Lemma unle_le n v : unle (le n v) = v mod 2 ^ (8 * Z.of_nat n).
Proof.
  revert v. induction n as [|n IH]; intros v; cbn [le unle]; [by rewrite Z.mod_1_r|].
  rewrite IH. replace (8 * Z.of_nat (S n)) with (8 + 8 * Z.of_nat n) by lia.
  rewrite Z.pow_add_r by lia. rewrite Z.rem_mul_r by lia. done.
Qed.

Lemma wraps_mod_id w x : 0 < w -> in_s w x -> wraps w (x mod 2 ^ w) = x.
Proof.
  intros Hw Hx. rewrite <- (wraps_id w x) at 2 by done. unfold wraps. by rewrite Zplus_mod_idemp_l.
Qed.

Lemma put_local_ok L off n v f size :
  Z.of_nat (length f) = size -> 0 <= off -> off + Z.of_nat n <= size ->
  (forall i, off <= i < off + Z.of_nat n -> occupied L i = false) ->
  exists f', put_local L off (le n v) f = Some f' /\ Z.of_nat (length f') = size
    /\ (forall j k, (j + k <= n)%nat -> get_local k (off + Z.of_nat j) f' = Some (unle (take k (drop j (le n v)))))
    /\ (forall k o, apart o (Z.of_nat k) off (Z.of_nat n) -> get_local k o f' = get_local k o f).
Proof.
  intros Hf H0 Hn Hocc. unfold put_local. rewrite length_le.
  assert (existsb (occupied L) (seqZ off (Z.of_nat n)) = false) as ->.
  { apply not_true_iff_false. rewrite existsb_exists. intros (i & Hi & E).
    apply list_elem_of_In, elem_of_seqZ in Hi. rewrite Hocc in E; [done|lia]. }
  rewrite store_in_range by (rewrite ?length_le; lia). rewrite length_le.
  set (f' := take (Z.to_nat off) f ++ le n v ++ drop (Z.to_nat off + n) f).
  assert (Lt : length (take (Z.to_nat off) f) = Z.to_nat off) by (rewrite length_take; lia).
  assert (Lf : Z.of_nat (length f') = size).
  { unfold f'. rewrite !length_app, length_le, length_drop, Lt. lia. }
  exists f'. split; [done|]. split; [done|]. split.
  - intros j k Hk. unfold get_local. rewrite Lf, !(proj2 (Z.leb_le _ _)) by lia. cbn [andb]. do 2 f_equal.
    unfold f'. rewrite drop_app_ge by lia. rewrite Lt. replace (_ - _)%nat with j by lia.
    rewrite drop_app_le by (rewrite length_le; lia).
    by rewrite take_app_le by (rewrite length_drop, length_le; lia).
  - intros k o Ho. unfold get_local. rewrite Lf, Hf. destruct ((0 <=? o) && _) eqn:E; [|done].
    apply andb_true_iff in E as [E1%Z.leb_le E2%Z.leb_le]. do 2 f_equal. apply list_eq. intros i.
    destruct (decide (i < k)%nat) as [Hi|Hi]; [|rewrite !lookup_take_ge by lia; done].
    rewrite !lookup_take_lt, !lookup_drop by lia. unfold f', apart in *. destruct Ho as [Ho|Ho].
    + rewrite lookup_app_l by lia. by apply lookup_take_lt; lia.
    + rewrite !lookup_app_r by (rewrite ?length_le, ?Lt; lia). rewrite lookup_drop, length_le, Lt. f_equal. lia.
Qed.

(** The first bytes of the variable just stored. *)
Lemma get_stored off n v f' (k : nat) :
  (forall j k, (j + k <= n)%nat -> get_local k (off + Z.of_nat j) f' = Some (unle (take k (drop j (le n v))))) ->
  (k <= n)%nat -> get_local k off f' = Some (unle (take k (le n v))).
Proof. intros G Hk. specialize (G 0%nat k Hk). by rewrite Z.add_0_r in G. Qed.

(** With [video] behind [marker], the four bytes of the marker wipe out the
    video flag: the picture goes out with the clock of sound. *)
Lemma video_flag_lost L (marker : bool) f size :
  Z.of_nat (length f) = size -> 0 <= at_marker L -> at_marker L + 4 <= size ->
  (forall i, at_marker L <= i < at_marker L + 4 -> occupied L i = false) ->
  at_video L = at_marker L + 1 ->
  exists f', found L (at_marker L) 4 (Some (Zb marker)) f = Some f' /\ get_local 1 (at_video L) f' = Some 0.
Proof.
  intros Hf H0 H4 Ho ->. unfold found.
  destruct (put_local_ok L (at_marker L) 4 (Zb marker) f size Hf H0 H4 Ho) as (f' & E & _ & G & _).
  exists f'. split; [done|]. transitivity (Some (unle (take 1 (drop 1 (le 4 (Zb marker)))))); [apply (G 1%nat 1%nat); lia|by destruct marker].
Qed.

(** The four stores, and what the variables hold then. *)
Lemma locals_ok L frame_size fd ts (video marker : bool) f :
  layout_ok L frame_size -> Z.of_nat (length f) = frame_size -> in_s 32 fd -> in_s 64 ts ->
  exists f1 f2 f3 f4 vf vt, found L (at_fd L) 4 (Some fd) f = Some f1
    /\ found L (at_video L) 4 (Some (Zb video)) f1 = Some f2
    /\ found L (at_marker L) 4 (Some (Zb marker)) f2 = Some f3
    /\ found L (at_ts L) 8 (Some ts) f3 = Some f4 /\ Z.of_nat (length f4) = frame_size
    /\ get_local 4 (at_fd L) f4 = Some vf /\ s32 vf = fd
    /\ get_local 8 (at_ts L) f4 = Some vt /\ s64 vt = ts
    /\ get_local 1 (at_video L) f4 = Some (Zb video) /\ get_local 1 (at_marker L) f4 = Some (Zb marker).
Proof.
  intros L_ok Hf Hfd Hts. destruct L_ok as [Hin A1 A2 A3 A4 A5 A6]. unfold found.
  destruct (Hin (at_fd L) 4) as (B1 & C1 & O1); [set_solver|].
  destruct (Hin (at_video L) 4) as (B2 & C2 & O2); [set_solver|].
  destruct (Hin (at_marker L) 4) as (B3 & C3 & O3); [set_solver|].
  destruct (Hin (at_ts L) 8) as (B4 & C4 & O4); [set_solver|].
  destruct (put_local_ok L (at_fd L) 4 fd f frame_size Hf B1 C1 O1) as (f1 & E1 & L1 & G1 & K1).
  destruct (put_local_ok L (at_video L) 4 (Zb video) f1 frame_size L1 B2 C2 O2) as (f2 & E2 & L2 & G2 & K2).
  destruct (put_local_ok L (at_marker L) 4 (Zb marker) f2 frame_size L2 B3 C3 O3) as (f3 & E3 & L3 & G3 & K3).
  destruct (put_local_ok L (at_ts L) 8 ts f3 frame_size L3 B4 C4 O4) as (f4 & E4 & L4 & G4 & K4).
  exists f1, f2, f3, f4. do 2 eexists. split_and!; try done.
  - rewrite (K4 4%nat), (K3 4%nat), (K2 4%nat) by done. exact (get_stored _ _ _ _ 4 G1 ltac:(lia)).
  - rewrite take_ge by (by rewrite length_le). rewrite unle_le.
    by apply (wraps_mod_id 32).
  - exact (get_stored _ _ _ _ 8 G4 ltac:(lia)).
  - rewrite take_ge by (by rewrite length_le). rewrite unle_le. by apply (wraps_mod_id 64).
  - rewrite (K4 1%nat), (K3 1%nat) by done. rewrite (get_stored _ _ _ _ 1 G2) by lia. by destruct video.
  - rewrite (K4 1%nat) by done. rewrite (get_stored _ _ _ _ 1 G3) by lia. by destruct marker.
Qed.

Section sender.
Context {H : Type} {IL : IntrusiveList H}.
Variable sgn : bool.
Variable alive : Z -> bool.
Variable isock : Z -> Z.
Variable ntp : nat -> Z * Z.      (* the NTP time at the n-th packet of a tick *)
Variable L : layout.

Record world := mkWorld {
  mBuffers : list Z;
  mPending : list Z;
  bufs : gmap Z MetaBuffer;
  pool : TokenPool;
  holder : @Holder.SocketHolder H;
  rtps : gmap Z RTPTransport;
  wire : list (Z * bytes)          (* transport and packet, the latest last *)
}.

Definition put_buffer (b : Z) (buf : MetaBuffer) (p : TokenPool) (w : world) : world :=
  mkWorld (mBuffers w) (mPending w) (<[b := buf]> (bufs w)) p (holder w) (rtps w) (wire w).
Definition set_queues (bs ps : list Z) (w : world) : world :=
  mkWorld bs ps (bufs w) (pool w) (holder w) (rtps w) (wire w).

(** [SocketSender::deliver] on a buffer that is not NULL. *)
Definition sender_deliver (b timeUs : Z) (video marker : bool) (w : world) : option (Z * world) :=
  buf ← bufs w !! b;
  '(fd, p) ← findInt32 sgn n_fd (pool w) buf;
  match fd with
  | None => Some (BAD_VALUE, put_buffer b buf p w)
  | Some _ =>
      '(p, buf) ← setInt64 sgn n_ts timeUs p buf;
      '(p, buf) ← setInt32 sgn n_video (Zb video) p buf;
      '(p, buf) ← setInt32 sgn n_marker (Zb marker) p buf;
      let w := put_buffer b buf p w in
      Some (NO_ERROR, set_queues (mBuffers w ++ [b]) (mPending w) w)
  end.

(** [RTPTransport::deliver] on the transport with socket [sock]. *)
Definition deliver (sock b timeUs : Z) (video marker : bool) (w : world) : option (Z * world) :=
  if sock =? -1 then Some (BAD_VALUE, w)
  else
    buf ← bufs w !! b;
    '(p, buf) ← setInt32 sgn n_fd sock (pool w) buf;
    sender_deliver b timeUs video marker (put_buffer b buf p w).

(** The packet at the head of [mPending]; the answer tells whether it was sent.
    [f] is the frame, which keeps what it holds from one packet to the next: a
    buffer without one of the four fields would be sent with what the variables
    held. *)
Definition send_one (i : nat) (b : Z) (f : bytes) (w : world) : option (bool * bytes * world) :=
  buf ← bufs w !! b;
  '(fd, p) ← findInt32 sgn n_fd (pool w) buf;
  f ← found L (at_fd L) 4 fd f;
  '(video, p) ← findInt32 sgn n_video p buf;
  f ← found L (at_video L) 4 video f;
  '(marker, p) ← findInt32 sgn n_marker p buf;
  f ← found L (at_marker L) 4 marker f;
  '(ts, p) ← find_field sgn kTypeInt64 n_ts p buf;
  f ← found L (at_ts L) 8 ts f;
  fd ← get_local 4 (at_fd L) f;
  '(err, inst, h) ← Holder.fetch_at alive isock (s32 fd) (holder w);
  match inst with
  | Some inst =>
      rtp ← rtps w !! inst;
      ts ← get_local 8 (at_ts L) f;
      video ← get_local 1 (at_video L) f;
      marker ← get_local 1 (at_marker L) f;
      '(pk, buf, rtp) ← doSend (ntp i).1 (ntp i).2 (s64 ts) (negb (video =? 0)) (negb (marker =? 0)) buf rtp;
      Some (true, f, mkWorld (mBuffers w) (mPending w) (<[b := buf]> (bufs w)) p h (<[inst := rtp]> (rtps w))
                    (match pk with Some pk => wire w ++ [(inst, pk)] | None => wire w end))
  | None => Some (false, f, mkWorld (mBuffers w) (mPending w) (bufs w) p h (rtps w) (wire w))
  end.

Fixpoint send_loop (i sendnum : nat) (pending : list Z) (f : bytes) (w : world) : option world :=
  match pending with
  | [] => Some (set_queues (mBuffers w) [] w)
  | b :: pending' =>
      if (sendnum <=? i)%nat then Some (set_queues (mBuffers w) pending w)
      else
        '(sent, f, w) ← send_one i b f w;
        send_loop (if sent : bool then S i else i) sendnum pending' f w
  end.

(** [f] is what the stack holds when the function is entered. *)
Definition tick (f : bytes) (w : world) : option world :=
  let pending := match mPending w with [] => mBuffers w | _ => mPending w ++ mBuffers w end in
  send_loop 0 (Nat.min (length pending) MAX_SENDING_PACKETS) pending f (set_queues [] pending w).

(** ** Labels *)

(** The four tokens of a pool. *)
Record tokens (p : TokenPool) (ofd ots ovideo omarker : Z) : Prop := {
  tk_ok : pool_ok sgn p;
  tk_fd : tok p n_fd ofd;
  tk_ts : tok p n_ts ots;
  tk_video : tok p n_video ovideo;
  tk_marker : tok p n_marker omarker
}.

(** ** Packets ready to be sent *)

(** A buffer with room for the header. *)
Record frame_ok (buf : MetaBuffer) : Prop := {
  frame_offset : mRangeOffset buf = 0;
  frame_range : 12 <= mRangeLength buf <= Z.of_nat (length (mData buf));
  frame_capacity : 12 <= mCapacity buf
}.

Definition body_of (buf : MetaBuffer) : bytes :=
  take (Z.to_nat (mRangeLength buf) - 12) (drop 12 (mData buf)).

(** [doSend] writes the header into the buffer and nothing else. *)
Lemma doSend_buffer sec usec timeUs video marker buf s :
  frame_ok buf ->
  exists buf' s',
    doSend sec usec timeUs video marker buf s
      = Some (Some (rtp_header (rtp_time timeUs video s) marker s ++ body_of buf), buf', s')
    /\ mItems buf' = mItems buf /\ frame_ok buf' /\ body_of buf' = body_of buf.
Proof.
  intros [F1 F2 F3]. destruct (doSend_packet sec usec timeUs video marker buf s F1 F2 F3) as (b' & s' & E).
  exists b', s'. split; [exact E|].
  unfold doSend in E. rewrite (proj2 (Z.leb_le 12 _)) in E by done.
  destruct (data_put buf 0 _) as [b1|] eqn:Ed; [|done]. cbn [mbind option_bind] in E.
  destruct (payload b1) as [pk|]; [|done]. cbn [mbind option_bind] in E.
  apply (inj Some) in E. apply (f_equal (snd ∘ fst)) in E. cbn [compose fst snd] in E. subst b'.
  set (hd := rtp_header _ _ _) in *. assert (length hd = 12%nat) as Lh by done.
  unfold data_put in Ed. rewrite F1, (store_behind [] (mData buf) hd) in Ed by (done || lia).
  cbn [mbind option_bind app] in Ed. apply (inj Some) in Ed. subst b1.
  split; [done|]. split.
  - split; cbn [mRangeOffset mRangeLength mCapacity mData set_data]; [done| |done].
    rewrite length_app, length_drop. lia.
  - unfold body_of. cbn [mRangeLength mData set_data]. reflexivity.
Qed.

Variable ofd ots ovideo omarker : Z.

Definition labelled (items : list MetaBuffer.Item) (fd ts video marker : Z) : Prop :=
  field items (Some ofd) = Some (kTypeInt32, fd) /\ field items (Some ots) = Some (kTypeInt64, ts)
  /\ field items (Some ovideo) = Some (kTypeInt32, video) /\ field items (Some omarker) = Some (kTypeInt32, marker).

(** What there is to send, and to which socket. *)
Record job := mkJob { j_fd : Z; j_ts : Z; j_video : bool; j_marker : bool; j_body : bytes }.

(** The packet that a transport in state [s] makes of it. *)
Definition packet_of (j : job) (s : RTPTransport) : bytes :=
  rtp_header (rtp_time (j_ts j) (j_video j) s) (j_marker j) s ++ j_body j.

(** The buffer [b] is ready to go out as [j]. *)
Definition queued (w : world) (b : Z) (j : job) : Prop :=
  exists buf, bufs w !! b = Some buf
    /\ labelled (mItems buf) (j_fd j) (j_ts j) (Zb (j_video j)) (Zb (j_marker j))
    /\ frame_ok buf /\ body_of buf = j_body j /\ in_s 32 (j_fd j) /\ in_s 64 (j_ts j).

(** ** The transports in the holder *)

Variable mArray head : Z.
Hypothesis alloc_invalid : slot_invalid (Holder.holder_alloc mArray head) = false.
Variable frame_size : Z.
Hypothesis L_ok : layout_ok L frame_size.
Hypothesis alloc_valid : valid Holder.WORD (initialised Holder.WORD (Holder.holder_alloc mArray head)).
Abbreviation live := (Holder.live alive isock).

(** ** The invariant of the world *)

Record world_ok (w : world) : Prop := {
  wo_tokens : tokens (pool w) ofd ots ovideo omarker;
  wo_holder : Holder.holder_inv mArray head (holder w) [];
  wo_rtps fd inst : live (holder w) fd inst -> is_Some (rtps w !! inst)
}.

(** What a step leaves alone. *)
Record keeps (w w' : world) : Prop := {
  kp_queued b j : queued w b j -> queued w' b j;
  kp_live fd inst : live (holder w') fd inst <-> live (holder w) fd inst
}.

Lemma keeps_trans w1 w2 w3 : keeps w1 w2 -> keeps w2 w3 -> keeps w1 w3.
Proof.
  intros [A1 A2] [B1 B2]. split; [auto|]. intros fd inst. by rewrite B2, A2.
Qed.

(** The packet sent for a buffer, if any, against where it had to go. *)
Definition sent_right (h : @Holder.SocketHolder H) (j : job) (r : option (Z * bytes)) : Prop :=
  match r with
  | Some (inst, pk) => live h (j_fd j) inst /\ exists s, pk = packet_of j s
  | None => forall inst, ~ live h (j_fd j) inst
  end.

Lemma send_one_ok i b j f w :
  world_ok w -> queued w b j -> Z.of_nat (length f) = frame_size ->
  exists r f' w', send_one i b f w = Some (bool_decide (is_Some r), f', w')
    /\ Z.of_nat (length f') = frame_size
    /\ world_ok w' /\ keeps w w' /\ sent_right (holder w) j r
    /\ wire w' = wire w ++ option_list r /\ mBuffers w' = mBuffers w.
Proof.
  intros [T HI HR] (buf & Eb & (L1 & L2 & L3 & L4) & F & Ebody & Rfd & Rts) Hf.
  destruct j as [fd ts video marker body]. cbn [j_fd j_ts j_video j_marker j_body] in *.
  pose proof T as [P K1 K2 K3 K4]. unfold send_one. rewrite Eb. cbn [mbind option_bind].
  destruct (locals_ok L frame_size fd ts video marker f L_ok Hf Rfd Rts)
    as (f1 & f2 & f3 & f4 & vf & vt & E1 & E2 & E3 & E4 & Lf & Gf & Ef & Gt & Et & Gv & Gm).
  unfold findInt32.
  rewrite (find_hit sgn kTypeInt32 n_fd (pool w) ofd buf P K1), L1. cbn [mbind option_bind].
  rewrite decide_True, E1 by done. cbn [mbind option_bind].
  rewrite (find_hit sgn kTypeInt32 n_video (pool w) ovideo buf P K3), L3. cbn [mbind option_bind].
  rewrite decide_True, E2 by done. cbn [mbind option_bind].
  rewrite (find_hit sgn kTypeInt32 n_marker (pool w) omarker buf P K4), L4. cbn [mbind option_bind].
  rewrite decide_True, E3 by done. cbn [mbind option_bind].
  rewrite (find_hit sgn kTypeInt64 n_ts (pool w) ots buf P K2), L2. cbn [mbind option_bind].
  rewrite decide_True, E4 by done. cbn [mbind option_bind]. rewrite Gf. cbn [mbind option_bind]. rewrite Ef.
  destruct (Holder.fetch_at_ok mArray head alloc_valid alive isock fd (holder w) HI) as (err & r & h' & -> & HI' & Hlive & Hr). cbn [mbind option_bind].
  destruct r as [inst|].
  - destruct (HR fd inst Hr) as [rtp Er]. rewrite Er. cbn [mbind option_bind].
    rewrite Gt, Gv, Gm. cbn [mbind option_bind]. rewrite Et.
    assert (negb (Zb video =? 0) = video) as -> by (by destruct video).
    assert (negb (Zb marker =? 0) = marker) as -> by (by destruct marker).
    destruct (doSend_buffer (ntp i).1 (ntp i).2 ts video marker buf rtp F)
      as (buf' & rtp' & -> & Ei & F' & Eb'). cbn [mbind option_bind].
    eexists (Some (inst, _)), f4, _. split; [reflexivity|]. split_and!.
    + done.
    + split; cbn [pool holder rtps]; [done|done|]. intros fd' inst' Hl. apply Hlive in Hl.
      destruct (decide (inst = inst')) as [->|Hne]; [rewrite lookup_insert_eq; by eexists|].
      rewrite lookup_insert_ne by done. by apply (HR fd').
    + split; cbn [bufs holder]; [|done]. intros b' j' (buf2 & Eb2 & LL & F2 & B2 & R2).
      destruct (decide (b = b')) as [->|Hne].
      * rewrite Eb in Eb2. injection Eb2 as ->. exists buf'. cbn [bufs].
        rewrite lookup_insert_eq, Ei. split_and!; try done; [congruence|apply R2..].
      * exists buf2. cbn [bufs]. by rewrite lookup_insert_ne.
    + split; [done|]. exists rtp. unfold packet_of. cbn [j_ts j_video j_marker j_body]. by rewrite <- Ebody.
    + done.
    + done.
  - eexists None, f4, _. split; [reflexivity|]. split_and!.
    + done.
    + split; cbn [pool holder rtps]; [done|done|]. intros fd' inst' Hl. apply Hlive in Hl. by apply (HR fd').
    + split; cbn [bufs holder]; [|done]. intros b' j' (buf2 & Hq). by exists buf2.
    + exact Hr.
    + cbn [wire option_list]. by rewrite app_nil_r.
    + done.
Qed.

Lemma length_omap_id {A} (l : list (option A)) : (length (omap id l) <= length l)%nat.
Proof. induction l as [|[x|] l IH]; [done|..]; cbn [omap list_omap id length] in *; lia. Qed.

Lemma send_loop_ok n pending i f w (jobs : list job) :
  (i <= n)%nat -> world_ok w -> Forall2 (queued w) pending jobs -> Z.of_nat (length f) = frame_size ->
  exists w' log, send_loop i n pending f w = Some w' /\ world_ok w' /\ keeps w w' /\ mBuffers w' = mBuffers w
    /\ pending = take (length log) pending ++ mPending w'
    /\ Forall2 (sent_right (holder w)) (take (length log) jobs) log
    /\ wire w' = wire w ++ omap id log
    /\ (i + length (omap id log) <= n)%nat /\ (mPending w' <> [] -> i + length (omap id log) = n)%nat.
Proof.
  revert i f w jobs. induction pending as [|b pending IH]; intros i f w jobs Hi W HJ Hf; cbn [send_loop].
  - eexists _, []. split; [done|]. inversion HJ. cbn. rewrite app_nil_r.
    split_and!; try done; try lia; try (by destruct W); by split.
  - destruct (n <=? i)%nat eqn:En.
    + apply Nat.leb_le in En. eexists _, []. split; [done|]. cbn. rewrite app_nil_r.
      split_and!; try done; try lia; try (by destruct W); by split.
    + apply Nat.leb_gt in En. apply Forall2_cons_inv_l in HJ as (j & jobs' & Hb & HJ' & ->).
      destruct (send_one_ok i b j f w W Hb Hf) as (r & f1 & w1 & -> & Hf1 & W1 & K1 & R1 & E1 & B1). cbn [mbind option_bind].
      assert (HJ1 : Forall2 (queued w1) pending jobs').
      { eapply Forall2_impl; [exact HJ'|]. intros x y Hx. by apply (kp_queued _ _ K1). }
      destruct (IH (if bool_decide (is_Some r) then S i else i) f1 w1 jobs') as (w' & log & -> & W' & K' & B' & EP & FL & EW & Hle & Heq).
      { destruct (bool_decide _); lia. }
      { done. }
      { done. }
      { done. }
      exists w', (r :: log). split; [done|]. cbn [length take omap list_omap]. split_and!.
      * done.
      * by apply (keeps_trans w w1 w').
      * congruence.
      * cbn [app]. by rewrite <- EP.
      * constructor; [done|]. eapply Forall2_impl; [exact FL|]. intros j' [[inst pk]|]; unfold sent_right; cbn.
        -- rewrite (kp_live _ _ K1). done.
        -- intros Hn inst. rewrite <- (kp_live _ _ K1). apply Hn.
      * rewrite EW, E1, <- app_assoc. by destruct r.
      * destruct r; cbn [bool_decide] in *; simpl in *; lia.
      * intros Hp. specialize (Heq Hp). destruct r; simpl in *; lia.
Qed.

(** One tick of the sending thread takes packets from the front of its
    queue, in the order they were delivered.  Each one goes, with its payload,
    to the transport that the holder has for its socket, or is dropped when the
    holder has none that still lives; at most six are sent, and exactly six
    when packets remain; those that remain, and the newly delivered ones behind
    them, wait for the next tick in order. *)
Lemma tick_sends f w (jobs : list job) :
  world_ok w -> Forall2 (queued w) (mPending w ++ mBuffers w) jobs -> Z.of_nat (length f) = frame_size ->
  exists w' log, tick f w = Some w' /\ world_ok w' /\ mBuffers w' = []
    /\ mPending w ++ mBuffers w = take (length log) (mPending w ++ mBuffers w) ++ mPending w'
    /\ Forall2 (sent_right (holder w)) (take (length log) jobs) log
    /\ wire w' = wire w ++ omap id log
    /\ (length (omap id log) <= MAX_SENDING_PACKETS)%nat
    /\ (mPending w' <> [] -> length (omap id log) = MAX_SENDING_PACKETS).
Proof.
  intros W HJ Hf. unfold tick.
  assert ((match mPending w with [] => mBuffers w | _ => mPending w ++ mBuffers w end) = mPending w ++ mBuffers w) as ->
    by (by destruct (mPending w)).
  set (pending := mPending w ++ mBuffers w) in *.
  destruct (send_loop_ok (Nat.min (length pending) MAX_SENDING_PACKETS) pending 0 f (set_queues [] pending w) jobs)
    as (w' & log & -> & W' & K & B & EP & FL & EW & Hle & Heq).
  - lia.
  - by destruct W.
  - exact HJ.
  - exact Hf.
  - exists w', log. split_and!; try done; [lia|]. intros Hp. specialize (Heq Hp).
    pose proof (f_equal length EP) as EL. rewrite length_app, length_take in EL.
    pose proof (length_omap_id log).
    destruct (mPending w') as [|x rest]; [done|]. cbn [length] in EL. lia.
Qed.

(** ** From [deliver] to the wire *)

Definition put4 (fd ts video marker : Z) (items : list MetaBuffer.Item) : list MetaBuffer.Item :=
  put_item (MetaBuffer.mkItem (Some omarker) kTypeInt32 marker)
    (put_item (MetaBuffer.mkItem (Some ovideo) kTypeInt32 video)
      (put_item (MetaBuffer.mkItem (Some ots) kTypeInt64 ts)
        (put_item (MetaBuffer.mkItem (Some ofd) kTypeInt32 fd) items))).

Lemma put4_labelled p fd ts video marker items :
  tokens p ofd ots ovideo omarker -> labelled (put4 fd ts video marker items) fd ts video marker.
Proof.
  intros [P K1 K2 K3 K4]. unfold labelled, put4. rewrite !field_put. cbn [MetaBuffer.mName mType u].
  pose proof (tok_ne p _ _ _ _ K1 K2 ltac:(done)). pose proof (tok_ne p _ _ _ _ K1 K3 ltac:(done)).
  pose proof (tok_ne p _ _ _ _ K1 K4 ltac:(done)). pose proof (tok_ne p _ _ _ _ K2 K3 ltac:(done)).
  pose proof (tok_ne p _ _ _ _ K2 K4 ltac:(done)). pose proof (tok_ne p _ _ _ _ K3 K4 ltac:(done)).
  split_and!; repeat case_decide; congruence.
Qed.

Lemma length_put4 it items : (length (put_item it items) <= S (length items))%nat.
Proof. rewrite length_put_item. by destruct (has_name _ _); lia. Qed.

(** A buffer with room for the header and the four labels. *)
Definition fresh_buffer (buf : MetaBuffer) : Prop := frame_ok buf /\ (length (mItems buf) <= 8)%nat.

Lemma deliver_ok sock b ts video marker w buf :
  world_ok w -> bufs w !! b = Some buf -> fresh_buffer buf -> sock <> -1 ->
  deliver sock b ts video marker w
  = Some (NO_ERROR, mkWorld (mBuffers w ++ [b]) (mPending w)
      (<[b := set_items (put4 sock ts (Zb video) (Zb marker) (mItems buf)) buf]> (bufs w))
      (pool w) (holder w) (rtps w) (wire w)).
Proof.
  intros [T HI HR] Eb [F Hn] Hs. pose proof T as [P K1 K2 K3 K4]. unfold deliver.
  rewrite (proj2 (Z.eqb_neq _ _)), Eb by done. cbn [mbind option_bind]. unfold setInt32 at 1.
  rewrite (set_hit sgn kTypeInt32 n_fd sock (pool w) ofd buf P K1) by lia. cbn [mbind option_bind].
  set (i1 := put_item _ (mItems buf)). assert (L1 : (length i1 <= 9)%nat).
  { unfold i1. pose proof (length_put4 (MetaBuffer.mkItem (Some ofd) kTypeInt32 sock) (mItems buf)). lia. }
  unfold sender_deliver. cbn [put_buffer bufs pool]. rewrite lookup_insert_eq. cbn [mbind option_bind].
  unfold findInt32. rewrite (find_hit sgn kTypeInt32 n_fd (pool w) ofd _ P K1). cbn [mItems set_items mbind option_bind].
  unfold i1 at 1. rewrite field_put. cbn [MetaBuffer.mName mType u]. rewrite !decide_True by done.
  unfold setInt64. rewrite (set_hit sgn kTypeInt64 n_ts ts (pool w) ots _ P K2) by (cbn [mItems set_items]; lia).
  cbn [mbind option_bind mItems set_items]. set (i2 := put_item _ i1). assert (L2 : (length i2 <= 10)%nat).
  { unfold i2. pose proof (length_put4 (MetaBuffer.mkItem (Some ots) kTypeInt64 ts) i1). lia. }
  unfold setInt32. rewrite (set_hit sgn kTypeInt32 n_video (Zb video) (pool w) ovideo _ P K3) by (cbn [mItems set_items]; lia).
  cbn [mbind option_bind mItems set_items]. set (i3 := put_item _ i2). assert (L3 : (length i3 <= 11)%nat).
  { unfold i3. pose proof (length_put4 (MetaBuffer.mkItem (Some ovideo) kTypeInt32 (Zb video)) i2). lia. }
  rewrite (set_hit sgn kTypeInt32 n_marker (Zb marker) (pool w) omarker _ P K4) by (cbn [mItems set_items]; lia).
  cbn [mbind option_bind mItems set_items]. unfold put_buffer, set_queues. cbn. by rewrite insert_insert_eq.
Qed.

(** After [deliver] the buffer is queued for the socket, and other buffers are
    as they were. *)
Lemma deliver_queued sock b ts video marker w buf :
  world_ok w -> bufs w !! b = Some buf -> fresh_buffer buf -> sock <> -1 -> in_s 32 sock -> in_s 64 ts ->
  exists w', deliver sock b ts video marker w = Some (NO_ERROR, w') /\ world_ok w'
    /\ mBuffers w' = mBuffers w ++ [b] /\ mPending w' = mPending w /\ holder w' = holder w /\ wire w' = wire w
    /\ queued w' b (mkJob sock ts video marker (body_of buf))
    /\ (forall b', b' <> b -> bufs w' !! b' = bufs w !! b').
Proof.
  intros W Eb Fb Hs Rs Rt. rewrite (deliver_ok sock b ts video marker w buf) by done.
  eexists. split; [reflexivity|]. split_and!; try done.
  - by destruct W.
  - eexists _. cbn [bufs]. rewrite lookup_insert_eq. split; [done|].
    split; [by apply (put4_labelled (pool w)), wo_tokens|]. split; [|done]. destruct Fb as [[F1 F2 F3] _]. by split.
  - intros b' Hne. cbn [bufs]. by rewrite lookup_insert_ne.
Qed.

(** A request to send: socket, buffer, and the rest of the arguments. *)
Record request := mkReq { q_sock : Z; q_buf : Z; q_ts : Z; q_video : bool; q_marker : bool }.

Fixpoint deliver_all (qs : list request) (w : world) : option (list Z * world) :=
  match qs with
  | [] => Some ([], w)
  | q :: qs =>
      '(r, w) ← deliver (q_sock q) (q_buf q) (q_ts q) (q_video q) (q_marker q) w;
      '(rs, w) ← deliver_all qs w; Some (r :: rs, w)
  end.

Definition request_ok (w : world) (q : request) : Prop :=
  q_sock q <> -1 /\ in_s 32 (q_sock q) /\ in_s 64 (q_ts q) /\ exists buf, bufs w !! q_buf q = Some buf /\ fresh_buffer buf.

Definition body_at (w : world) (b : Z) : bytes :=
  match bufs w !! b with Some buf => body_of buf | None => [] end.

(** What a request asks for. *)
Definition job_of (w : world) (q : request) : job :=
  mkJob (q_sock q) (q_ts q) (q_video q) (q_marker q) (body_at w (q_buf q)).

Lemma deliver_all_ok qs w :
  world_ok w -> Forall (request_ok w) qs -> NoDup (map q_buf qs) ->
  exists w', deliver_all qs w = Some (map (fun _ => NO_ERROR) qs, w') /\ world_ok w'
    /\ mBuffers w' = mBuffers w ++ map q_buf qs /\ mPending w' = mPending w
    /\ holder w' = holder w /\ wire w' = wire w
    /\ (forall b, b ∉ map q_buf qs -> bufs w' !! b = bufs w !! b)
    /\ Forall (fun q => queued w' (q_buf q) (job_of w q)) qs.
Proof.
  revert w. induction qs as [|q qs IH]; intros w W HF Hnd; cbn [deliver_all map].
  - exists w. rewrite app_nil_r. split_and!; try done; by constructor.
  - apply Forall_cons in HF as [(Hs & Rs & Rt & buf & Eb & Fb) HF]. apply NoDup_cons in Hnd as [Hni Hnd].
    destruct (deliver_queued (q_sock q) (q_buf q) (q_ts q) (q_video q) (q_marker q) w buf W Eb Fb Hs Rs Rt)
      as (w1 & -> & W1 & B1 & P1 & H1 & X1 & Q1 & O1). cbn [mbind option_bind].
    destruct (IH w1 W1) as (w' & -> & W' & B' & P' & H' & X' & O' & Q'); [|done|].
    { apply Forall_forall. intros q' Hin. destruct (proj1 (Forall_forall _ _) HF q' Hin) as (Hs' & Rs' & Rt' & buf' & Eb' & Fb').
      split_and!; [done..|]. exists buf'. split; [|done]. rewrite O1; [done|]. intros E. apply Hni. rewrite <- E. by apply list_elem_of_fmap_2. }
    cbn [mbind option_bind]. exists w'. split_and!; try done; try congruence.
    + rewrite B', B1, <- app_assoc. done.
    + intros b Hb. apply not_elem_of_cons in Hb as [Hb1 Hb2]. rewrite O', O1; done.
    + constructor.
      * destruct Q1 as (buf1 & E1 & L1 & F1 & D1 & R1). exists buf1.
        rewrite O' by done. split_and!; try done. unfold job_of, body_at. cbn [j_body]. by rewrite Eb.
      * apply Forall_forall. intros q' Hin.
        destruct (proj1 (Forall_forall _ _) Q' q' Hin) as (buf1 & E1 & L1 & F1 & D1 & R1).
        exists buf1. split_and!; try done; [|apply R1..]. rewrite D1. unfold job_of, body_at. cbn [j_body].
        rewrite O1; [done|]. intros E. apply Hni. rewrite <- E. by apply list_elem_of_fmap_2.
Qed.

Lemma omap_id_Some {A} (l : list A) : omap id (map Some l) = l.
Proof. induction l as [|x l IH]; [done|]. cbn [map omap list_omap id]. by f_equal. Qed.

(** When every job's transport lives, every one is sent. *)
Lemma all_sent h (jobs : list job) log :
  Forall (fun j => exists inst, live h (j_fd j) inst) jobs ->
  Forall2 (sent_right h) jobs log ->
  exists packets, log = map Some packets
    /\ Forall2 (fun j pk => live h (j_fd j) pk.1 /\ exists s, pk.2 = packet_of j s) jobs packets.
Proof.
  intros HL H2. revert HL. induction H2 as [|j r jobs log Hr _ IH]; intros HL; [by exists []|].
  apply Forall_cons in HL as [[i Hi] HL]. destruct (IH HL) as (packets & -> & HP).
  destruct r as [[inst pk]|]; [|by destruct (Hr i)]. exists ((inst, pk) :: packets). split; [done|]. by constructor.
Qed.


(** Delivering one buffer to two transports before the thread's next tick
    sends it twice to the second: the socket is a label of the shared buffer,
    and the second [deliver] overwrites the first one's. *)
Theorem shared_buffer_misrouted f w b sock1 sock2 ts1 ts2 v1 v2 m1 m2 buf inst :
  Z.of_nat (length f) = frame_size -> in_s 32 sock1 -> in_s 32 sock2 -> in_s 64 ts1 -> in_s 64 ts2 ->
  world_ok w -> mPending w = [] -> mBuffers w = [] -> bufs w !! b = Some buf ->
  frame_ok buf -> (length (mItems buf) <= 4)%nat -> sock1 <> -1 -> sock2 <> -1 -> live (holder w) sock2 inst ->
  exists w1 w2 w3 pk1 pk2, deliver sock1 b ts1 v1 m1 w = Some (NO_ERROR, w1)
    /\ deliver sock2 b ts2 v2 m2 w1 = Some (NO_ERROR, w2) /\ tick f w2 = Some w3
    /\ wire w3 = wire w ++ [(inst, pk1); (inst, pk2)] /\ drop 12 pk1 = body_of buf /\ drop 12 pk2 = body_of buf.
Proof.
  intros Hf Rs1 Rs2 Rt1 Rt2 W P0 B0 Eb F Hn Hs1 Hs2 Hl.
  assert (W1 : world_ok (mkWorld (mBuffers w ++ [b]) (mPending w)
    (<[b := set_items (put4 sock1 ts1 (Zb v1) (Zb m1) (mItems buf)) buf]> (bufs w)) (pool w) (holder w) (rtps w) (wire w)))
    by (by destruct W).
  assert (F0 : fresh_buffer buf) by (split; [done|lia]).
  pose proof (deliver_ok sock1 b ts1 v1 m1 w buf W Eb F0 Hs1) as E1.
  set (w1 := mkWorld _ _ _ _ _ _ _) in *. set (buf1 := set_items _ _) in *.
  assert (Eb1 : bufs w1 !! b = Some buf1) by apply lookup_insert_eq.
  assert (F1 : fresh_buffer buf1).
  { split; [destruct F as [F1 F2 F3]; by split|]. unfold buf1, put4. cbn [mItems set_items].
    pose proof (length_put4 (MetaBuffer.mkItem (Some ofd) kTypeInt32 sock1) (mItems buf)).
    set (i1 := put_item _ (mItems buf)) in *.
    pose proof (length_put4 (MetaBuffer.mkItem (Some ots) kTypeInt64 ts1) i1). set (i2 := put_item _ i1) in *.
    pose proof (length_put4 (MetaBuffer.mkItem (Some ovideo) kTypeInt32 (Zb v1)) i2). set (i3 := put_item _ i2) in *.
    pose proof (length_put4 (MetaBuffer.mkItem (Some omarker) kTypeInt32 (Zb m1)) i3). lia. }
  destruct (deliver_queued sock2 b ts2 v2 m2 w1 buf1 W1 Eb1 F1 Hs2 Rs2 Rt2) as (w2 & E2 & W2 & B2 & P2 & H2 & X2 & Q2 & _).
  unfold w1 in B2, P2, H2, X2. cbn [mBuffers mPending holder wire] in B2, P2, H2, X2. rewrite B0 in B2. rewrite P0 in P2.
  set (j2 := mkJob sock2 ts2 v2 m2 (body_of buf1)) in *. set (jobs := [j2; j2]).
  destruct (tick_sends f w2 jobs W2) as (w3 & log & E3 & W3 & B3 & EP & FL & X3 & Hle & Heq); [|done|].
  { rewrite P2, B2. unfold jobs. by repeat constructor. }
  rewrite P2, B2, H2, X2 in *. cbn [app] in *.
  destruct (all_sent (holder w) (take (length log) jobs) log) as (packets & El & HP).
  { apply Forall_take. unfold jobs. by repeat constructor; exists inst. }
  { done. }
  rewrite El, omap_id_Some in X3, Hle, Heq. pose proof (f_equal length EP) as L1. pose proof (f_equal length El) as L2.
  rewrite length_app, length_take in L1. rewrite length_map in L2. cbn [length] in L1.
  assert (EQ : mPending w3 = []).
  { destruct (mPending w3) as [|x rest]; [done|]. specialize (Heq ltac:(done)). unfold MAX_SENDING_PACKETS in Heq.
    cbn [length] in L1. lia. }
  rewrite EQ in L1. cbn [length] in L1. rewrite take_ge in HP by (unfold jobs; cbn [length]; lia).
  inversion HP as [|? [i1 pk1] ? ? (Hi1 & s1 & Hb1) HP']; subst.
  inversion HP' as [|? [i2 pk2] ? ? (Hi2 & s2 & Hb2) HP'']; subst.
  inversion HP''; subst. cbn [fst snd] in *.
  assert (i1 = inst /\ i2 = inst) as [-> ->] by (change (j_fd j2) with sock2 in *; destruct Hi1, Hi2, Hl; split; congruence).
  exists w1, w2, w3, pk1, pk2. split_and!; try done; [by rewrite Hb1|by rewrite Hb2].
Qed.
End sender.

(** ** A concrete world: transport 70 has socket 7, the buffer at 1 is
    [outgoing] *)

Definition up : Z -> bool := fun _ => true.
Definition seven : Z -> Z := fun _ => 7.
Definition sender_names : list cstr := [n_fd; n_ts; n_video; n_marker].

Lemma some_tokens : exists p ofd ots ovideo omarker, tokens true p ofd ots ovideo omarker.
Proof.
  destruct (atomize_all_ok true sender_names sender_names newPool [] (newPool_ok true) newPool_accounted)
    as (offs & p & D & _ & P & _ & _ & _ & F).
  - set_solver.
  - vm_compute. reflexivity.
  - repeat constructor; try lia; set_solver.
  - inversion F as [|? o1 ? l1 T1 F1]; subst. inversion F1 as [|? o2 ? l2 T2 F2]; subst.
    inversion F2 as [|? o3 ? l3 T3 F3]; subst. inversion F3 as [|? o4 ? l4 T4 F4]; subst.
    exists p, o1, o2, o3, o4. by split.
Qed.

Lemma outgoing_fresh : fresh_buffer outgoing.
Proof. split; [split; cbn; [done|lia|lia]|cbn; lia]. Qed.

Lemma some_world : exists ofd ots ovideo omarker (w : @world heap),
  world_ok true up seven ofd ots ovideo omarker 1000 100 w /\ mPending w = [] /\ mBuffers w = [] /\ wire w = []
  /\ bufs w !! 1 = Some outgoing /\ Holder.live up seven (holder w) 7 70.
Proof.
  destruct some_tokens as (p & o1 & o2 & o3 & o4 & T).
  destruct (Holder.newHolder_ok 1000 100 eq_refl Holder.some_alloc_valid empty_heap) as (s0 & _ & I0 & E0).
  destruct (Holder.insert_ok 1000 100 eq_refl Holder.some_alloc_valid 7 70 s0 I0 ltac:(done)) as (s & _ & I & Ed).
  rewrite E0 in Ed. change (Holder.denote (Holder.mQueue s) = <[7 := 70]> ∅) in Ed.
  exists o1, o2, o3, o4, (mkWorld [] [] {[1 := outgoing]} p s {[70 := some_rtp]} []).
  split_and!; try done.
  - split; cbn [pool holder rtps]; [done|done|]. intros fd inst (Hm & _). rewrite Ed in Hm.
    apply lookup_insert_Some in Hm as [[_ <-]|[_ Hm]]; [by eexists|]. by rewrite lookup_empty in Hm.
  - split; [|done]. cbn [holder]. rewrite Ed. apply lookup_insert_eq.
Qed.

Definition no_ntp : nat -> Z * Z := fun _ => (0, 0).

(** A frame of 24 bytes with gaps behind the two flags, and what it holds at first. *)
Definition some_layout : layout := mkLayout 0 16 4 8 (fun i => (i <? 0) || (24 <=? i)).
Definition some_frame : bytes := replicate 24 205.

Lemma some_layout_ok : layout_ok some_layout 24.
Proof.
  split; try (unfold apart; cbn; lia). intros off n Hin. cbn [at_fd at_ts at_video at_marker some_layout] in Hin.
  assert (off = 0 /\ n = 4 \/ off = 16 /\ n = 8 \/ off = 4 /\ n = 4 \/ off = 8 /\ n = 4) as Ho by (set_solver).
  split; [lia|]. split; [lia|]. intros i Hi. cbn [occupied some_layout].
  by rewrite (proj2 (Z.ltb_ge _ _)), (proj2 (Z.leb_gt _ _)) by lia.
Qed.


Lemma shared_buffer_misrouted_witness :
  exists (w w1 w2 w3 : @world heap) pk1 pk2, deliver true 5 1 160 false true w = Some (NO_ERROR, w1)
    /\ deliver true 7 1 160 false true w1 = Some (NO_ERROR, w2) /\ tick true up seven no_ntp some_layout some_frame w2 = Some w3
    /\ wire w3 = [(70, pk1); (70, pk2)].
Proof.
  destruct some_world as (o1 & o2 & o3 & o4 & w & W & P0 & B0 & X0 & Eb & Hl).
  destruct (shared_buffer_misrouted true up seven no_ntp some_layout o1 o2 o3 o4 1000 100 24 some_layout_ok Holder.some_alloc_valid
    some_frame w 1 5 7 160 160 false false true true outgoing 70 eq_refl ltac:(done) ltac:(done) ltac:(done) ltac:(done)
    W P0 B0 Eb (proj1 outgoing_fresh)) as (w1 & w2 & w3 & pk1 & pk2 & E1 & E2 & E3 & X3 & _).
  - simpl. lia.
  - done.
  - done.
  - exact Hl.
  - exists w, w1, w2, w3, pk1, pk2. rewrite X0 in X3. split; [exact E1|]. split; [exact E2|]. split; [exact E3|exact X3].
Defined.
