(* ===== verification/Poller.v ===== *)
(** * libnet/Poller.cpp: the poller

    [SocketPoller] is the thread that waits in [epoll_wait], fires the timers
    of [AbsTimer] and dispatches the events of the sockets to the transports it
    finds in the [Holder].  A transport is its address; [sock] maps the live
    transports to their [sock] field, and the thread's own pipe, which wakes it
    when another thread adds a timer, is the transport [mWakeOn].

    The kernel is the class [Kernel]: what the code relies on of [epoll_ctl]
    and [close].  Handlers (user code) are the function [reaction]: what a
    handler calls back.  The turn of the thread is given the results of
    [epoll_wait].  [log] records what the poller did, [reads] counts the
    readings of the clock.  [None] is undefined behaviour: a call on a
    transport that is not alive, or a defect of the components below. *)

From S2P Require Import Prelude TimeList CList SlotAlloc AbsTimer.
From S2P Require Holder.

(** A descriptor that is closed leaves the interest list (the descriptors are
    not duplicated). *)
Class Kernel (K : Type) := {
  is_open : K -> Z -> bool;
  is_watched : K -> Z -> bool;
  epoll_add : Z -> K -> bool * K;
  epoll_del : Z -> K -> bool * K;
  close_fd : Z -> K -> K;
  add_open k fd x : is_open (epoll_add fd k).2 x = is_open k x;
  add_watched k fd x : is_watched (epoll_add fd k).2 x = is_watched k x || ((epoll_add fd k).1 && (x =? fd));
  del_succeeds k fd : (epoll_del fd k).1 = is_watched k fd;
  del_open k fd x : is_open (epoll_del fd k).2 x = is_open k x;
  del_watched k fd x : is_watched (epoll_del fd k).2 x = is_watched k x && negb (x =? fd);
  close_open k fd x : is_open (close_fd fd k) x = is_open k x && negb (x =? fd);
  close_watched k fd x : is_watched (close_fd fd k) x = is_watched k x && negb (x =? fd)
}.

Definition EPOLLIN : Z := 1.
Definition EPOLLOUT : Z := 4.
Definition EPOLLERR : Z := 8.
Definition EPOLLHUP : Z := 16.
Definition MAX_EPOLL_EVENT_NUM : nat := 50.

Record epoll_event := mkEv { ev_fd : Z; ev_events : Z }.
Inductive wait_result := WEvents (evs : list epoll_event) | WInterrupted | WFailed.

(** The calls of a transport's or a timer's handler, and what is logged. *)
Inductive hcall := HRead (i : Z) | HWrite (i : Z) | HClose (i : Z) | HTimer (h : Z).
Inductive act := Called (c : hcall) | ClosedFd (i fd : Z) | Effected (e : effect) | Waited (ms : Z).

(** What a handler may call. *)
Inductive pcall := PAdd (i : Z) | PClose (i : Z) | PLater (ms h : Z) | PPeriod (ms c : Z) | PDiscard (tok : Z).

Definition FUNC : Z := 1718972003.   (* 'func' *)
Definition COND : Z := 1668247140.   (* 'cond' *)

Section poller.
Context {H : Type} {IL : IntrusiveList H} {K : Type} {KL : Kernel K}.
Variable new_unit : gmap Z EventUnit -> Z.
Variable clock : nat -> timeval.
Variable mWakeOn : Z.
Variable pipe_room : nat.            (* tokens the pipe takes before write fails *)
Variable reaction : hcall -> list pcall.

Record poller := mkPoller {
  holder : @Holder.SocketHolder H;
  timers : TimedEventQ;
  kernel : K;
  sock : gmap Z Z;
  pipe : list Z;
  log : list act;
  reads : nat
}.

Definition set_holder h s := mkPoller h (timers s) (kernel s) (sock s) (pipe s) (log s) (reads s).
Definition set_timers q s := mkPoller (holder s) q (kernel s) (sock s) (pipe s) (log s) (reads s).
Definition set_kernel k s := mkPoller (holder s) (timers s) k (sock s) (pipe s) (log s) (reads s).
Definition set_sock i fd s := mkPoller (holder s) (timers s) (kernel s) (<[i := fd]> (sock s)) (pipe s) (log s) (reads s).
Definition set_pipe p s := mkPoller (holder s) (timers s) (kernel s) (sock s) p (log s) (reads s).
Definition add_log a s := mkPoller (holder s) (timers s) (kernel s) (sock s) (pipe s) (log s ++ [a]) (reads s).
Definition read_clock s := mkPoller (holder s) (timers s) (kernel s) (sock s) (pipe s) (log s) (S (reads s)).

Definition alive (s : poller) (i : Z) : bool := bool_decide (is_Some (sock s !! i)).
Definition isock (s : poller) (i : Z) : Z := default (-1) (sock s !! i).

(** [wakePipe::wake]: a write that does not block. *)
Definition wake (token : Z) (s : poller) : poller :=
  if (length (pipe s) <? pipe_room)%nat then set_pipe (pipe s ++ [token]) s else s.

(** [wakePipe::handleRead]: at most 128 words. *)
Definition wake_read (s : poller) : poller := set_pipe (drop 128 (pipe s)) s.

(** The result of [insert] is not looked at. *)
Definition AddTransport (transport : Z) (s : poller) : option (Z * poller) :=
  if transport =? 0 then Some (UNKNOWN_ERROR, s)
  else
    fd ← sock s !! transport;
    if fd =? -1 then Some (UNKNOWN_ERROR, s)
    else
      '(_, h) ← Holder.insert fd transport (holder s);
      let '(ok, k) := epoll_add fd (kernel s) in
      Some (if ok then NO_ERROR else UNKNOWN_ERROR, set_kernel k (set_holder h s)).

Definition CloseTransport (call : hcall -> poller -> option poller) (transport : Z) (s : poller)
  : option (Z * poller) :=
  if transport =? 0 then Some (UNKNOWN_ERROR, s)
  else
    fd ← sock s !! transport;
    if fd =? -1 then Some (UNKNOWN_ERROR, s)
    else
      let s := set_sock transport (-1) s in
      '(_, h) ← Holder.remove fd (holder s);
      let '(ok, k) := epoll_del fd (kernel s) in
      let s := set_kernel k (set_holder h s) in
      if ok then
        s ← call (HClose transport) (add_log (ClosedFd transport fd) (set_kernel (close_fd fd (kernel s)) s));
        Some (NO_ERROR, s)
      else Some (UNKNOWN_ERROR, s).

(** The destructor of the base class: by then the object is an [ITransport],
    whose [handleClose] is pure. *)
Definition destroy_ITransport (i : Z) (s : poller) : option poller :=
  '(_, s) ← CloseTransport (fun _ _ => None) i s;
  Some (mkPoller (holder s) (timers s) (kernel s) (delete i (sock s)) (pipe s) (log s) (reads s)).

(** Calls that other threads make, too: a thread inside one is about to answer,
    or to run a section and go on with its result; between sections threads
    interleave. *)
Inductive thread :=
  | Done (ret : Z)
  | Step (section : poller -> option (Z * poller)) (rest : Z -> thread).

Fixpoint run (t : thread) (s : poller) : option (Z * poller) :=
  match t with
  | Done v => Some (v, s)
  | Step f k => '(v, s) ← f s; run (k v) s
  end.

(** The timer is added, then the poller's thread is woken. *)
Definition AddTimedCallback_sections (mseconds cbfunc : Z) : thread :=
  if (cbfunc =? 0) || (mseconds =? 0) then Done BAD_VALUE
  else
    Step (fun s =>
      '(token, q) ← addLaterEvent new_unit (clock (reads s)) mseconds TIMED_CALLBACK cbfunc (timers s);
      Some (token, read_clock (set_timers q s)))
    (fun token =>
      if token =? -1 then Done token else Step (fun s => Some (0, wake FUNC s)) (fun _ => Done token)).

Definition AddPeriodSignal_sections (mseconds cond : Z) : thread :=
  if (cond =? 0) || (mseconds =? 0) then Done BAD_VALUE
  else
    Step (fun s =>
      '(token, q) ← addPeriodEvent new_unit (clock (reads s)) mseconds PERIOD_CONDITION cond (timers s);
      Some (token, read_clock (set_timers q s)))
    (fun token =>
      if token =? -1 then Done token else Step (fun s => Some (0, wake COND s)) (fun _ => Done token)).

(** By the poller's own thread, from a handler, they run to their end. *)
Definition AddTimedCallback (mseconds cbfunc : Z) : poller -> option (Z * poller) :=
  run (AddTimedCallback_sections mseconds cbfunc).
Definition AddPeriodSignal (mseconds cond : Z) : poller -> option (Z * poller) :=
  run (AddPeriodSignal_sections mseconds cond).

Definition DiscardEvent (id : Z) (s : poller) : option (Z * poller) :=
  '(h, q) ← delTimedEvent id (timers s); Some (h, set_timers q s).

(** ** Handlers *)

Definition exec_pcall (call : hcall -> poller -> option poller) (c : pcall) (s : poller) : option poller :=
  match c with
  | PAdd i => snd <$> AddTransport i s
  | PClose i => snd <$> CloseTransport call i s
  | PLater ms h => snd <$> AddTimedCallback ms h s
  | PPeriod ms c => snd <$> AddPeriodSignal ms c s
  | PDiscard tok => snd <$> DiscardEvent tok s
  end.

Fixpoint run_calls (call : hcall -> poller -> option poller) (cs : list pcall) (s : poller) : option poller :=
  match cs with
  | [] => Some s
  | c :: cs => s ← exec_pcall call c s; run_calls call cs s
  end.

(** A handler runs; closing a transport from it runs that one's [handleClose]
    in turn.  The pipe has handlers of its own. *)
Fixpoint handle (fuel : nat) (c : hcall) (s : poller) : option poller :=
  match fuel with
  | O => None
  | S fuel =>
      match c with
      | HRead i | HWrite i | HClose i =>
          if i =? mWakeOn then Some (match c with HRead _ => wake_read s | _ => s end)
          else run_calls (handle fuel) (reaction c) (add_log (Called c) s)
      | HTimer _ => run_calls (handle fuel) (reaction c) (add_log (Called c) s)
      end
  end.

(** A closed transport stays closed in a turn, so the depth is bounded by the
    number of transports. *)
Definition call_handler (c : hcall) (s : poller) : option poller := handle (S (size (sock s))) c s.

(** ** The turn *)

(** [TimedEventQ::handleAlarmEvent] with handlers that may call the poller. *)
Definition fire (p : Z) (s : poller) : option poller :=
  e ← units (timers s) !! p;
  match type e with
  | TIMED_CALLBACK =>
      s ← call_handler (HTimer (AbsTimer.handler e)) s;
      Some (set_timers (free_unit p (timers s)) s)
  | _ =>
      '(eff, q) ← fire_one new_unit (fun _ => []) (clock (reads s)) p (timers s);
      Some (read_clock (add_log (Effected eff) (set_timers q s)))
  end.

Fixpoint fire_all (ps : list Z) (s : poller) : option poller :=
  match ps with [] => Some s | p :: ps => s ← fire p s; fire_all ps s end.

Definition alarm (s : poller) : option poller :=
  '(due, q) ← splice_due (clock (reads s)) (timers s);
  fire_all due (read_clock (set_timers q s)).

Definition has (flags bit : Z) : bool := negb (Z.land flags bit =? 0).

(** One event of the array. *)
Definition dispatch_one (ev : epoll_event) (s : poller) : option poller :=
  '(_, inst, h) ← Holder.fetch_at (alive s) (isock s) (ev_fd ev) (holder s);
  let s := set_holder h s in
  match inst with
  | None => Some s
  | Some i =>
      fd ← sock s !! i;
      if has (ev_events ev) (Z.lor EPOLLHUP EPOLLERR) then
        if 0 <=? fd then
          '(_, h) ← Holder.remove fd (holder s);
          call_handler (HClose i)
            (set_sock i (-1) (set_holder h (add_log (ClosedFd i fd) (set_kernel (close_fd fd (kernel s)) s))))
        else Some s
      else if 0 <=? fd then
        s ← (if has (ev_events ev) EPOLLIN then call_handler (HRead i) s else Some s);
        if has (ev_events ev) EPOLLOUT then call_handler (HWrite i) s else Some s
      else Some s
  end.

Fixpoint dispatch (evs : list epoll_event) (s : poller) : option poller :=
  match evs with [] => Some s | ev :: evs => s ← dispatch_one ev s; dispatch evs s end.

Definition time_out (now : timeval) (q : TimedEventQ) : option Z :=
  '(_, sec, usec) ← timeToNextEvent now q; Some (s32 (s32 (sec * 1000) + Z.quot usec 1000)).

(** [threadLoop]; each element of [rs] is [exitPending] and what
    [epoll_wait] answered in one round of the loop. *)
Inductive outcome := Again | Stop | Blocked.

(** Up to [epoll_wait], which is given the time [ms]. *)
Definition loop_sleep (s : poller) : option (Z * poller) :=
  ms ← time_out (clock (reads s)) (timers s);
  Some (ms, add_log (Waited ms) (read_clock s)).

(** From there: [None] inside is another round of the loop. *)
Definition loop_awake (exit : bool) (r : wait_result) (s : poller) : option (option outcome * poller) :=
  if exit then Some (Some Stop, s)
  else match r with
  | WFailed => Some (Some Stop, s)
  | WInterrupted | WEvents [] => s ← alarm s; Some (None, s)
  | WEvents evs => s ← alarm s; s ← dispatch evs s; Some (Some Again, s)
  end.

Fixpoint threadLoop (rs : list (bool * wait_result)) (s : poller) : option (outcome * poller) :=
  match rs with
  | [] => Some (Blocked, s)
  | (exit, r) :: rs =>
      '(_, s) ← loop_sleep s;
      '(o, s) ← loop_awake exit r s;
      match o with Some o => Some (o, s) | None => threadLoop rs s end
  end.

Ltac psimpl := cbn [holder timers kernel sock pipe log reads set_holder set_timers set_kernel set_sock set_pipe
                    add_log read_clock wake_read fst snd] in *.

(** ** The invariant *)

Variable mArray head : Z.
Hypothesis alloc_invalid : slot_invalid (Holder.holder_alloc mArray head) = false.
Hypothesis alloc_valid : valid Holder.WORD (initialised Holder.WORD (Holder.holder_alloc mArray head)).
Hypothesis new_unit_fresh : forall u, new_unit u <> 0 -> u !! new_unit u = None.
Hypothesis clock_ok : forall n, reading_ok (clock n).
Variable D : gset Z.                 (* the live transports *)
Hypothesis D_nonzero : 0 ∉ D.

(** Handlers touch live transports, do not close the poller's pipe, and do not
    run into the defect of [delTimedEvent]. *)
Definition pcall_ok (c : pcall) : Prop :=
  match c with
  | PAdd i => i ∈ D
  | PClose i => i ∈ D /\ i <> mWakeOn
  | PLater ms _ | PPeriod ms _ => 0 <= ms < 2 ^ 32
  | PDiscard _ => False
  end.
Hypothesis reaction_ok : forall c, Forall pcall_ok (reaction c).

(** The descriptors that the holder knows, by transport. *)
Abbreviation table s := (Holder.denote (Holder.mQueue (holder s))).

Record pinv (s : poller) (out : list Z) : Prop := {
  pi_holder : Holder.holder_inv mArray head (holder s) [];
  pi_timers : wfq (timers s) out;
  pi_dom : dom (sock s) = D;
  pi_open i fd : sock s !! i = Some fd -> fd = -1 \/ 0 <= fd /\ is_open (kernel s) fd = true;
  pi_distinct i j fd : sock s !! i = Some fd -> sock s !! j = Some fd -> fd <> -1 -> i = j;
  pi_wake : exists fd, 0 <= fd /\ sock s !! mWakeOn = Some fd /\ table s !! fd = Some mWakeOn
              /\ is_watched (kernel s) fd = true
}.

Lemma live_sock s out i : pinv s out -> i ∈ D -> exists fd, sock s !! i = Some fd.
Proof. intros I Hi. rewrite <- (pi_dom _ _ I) in Hi. by apply elem_of_dom in Hi. Qed.

(** The invariant sees neither log, clock nor pipe. *)
Lemma pinv_same s s' out :
  pinv s out -> holder s' = holder s -> timers s' = timers s -> kernel s' = kernel s -> sock s' = sock s -> pinv s' out.
Proof. intros [I1 I2 I3 I4 I5 I6] E1 E2 E3 E4. split; rewrite ?E1, ?E2, ?E3, ?E4; done. Qed.

Lemma pinv_timers s out q out' : pinv s out -> wfq q out' -> pinv (set_timers q s) out'.
Proof. intros [I1 I2 I3 I4 I5 I6] W. by split. Qed.

Lemma wake_same token s :
  holder (wake token s) = holder s /\ timers (wake token s) = timers s /\ kernel (wake token s) = kernel s
  /\ sock (wake token s) = sock s /\ log (wake token s) = log s.
Proof. unfold wake. by destruct (_ <? _)%nat. Qed.

(** What a call leaves alone. *)
Record quiet (s s' : poller) : Prop := { qu_sock : sock s' = sock s; qu_log : log s' = log s }.

Lemma AddTransport_ok i s out :
  pinv s out -> i ∈ D -> exists r s', AddTransport i s = Some (r, s') /\ pinv s' out /\ quiet s s'.
Proof.
  intros I Hi. destruct (live_sock s out i I Hi) as [fd Hfd]. pose proof I as [I1 I2 I3 I4 I5 (wfd & W1 & W2 & W3 & W4)].
  unfold AddTransport. rewrite (proj2 (Z.eqb_neq i 0)) by (intros ->; done). rewrite Hfd. cbn [mbind option_bind].
  destruct (Z.eqb_spec fd (-1)) as [->|Hne]; [by exists UNKNOWN_ERROR, s|].
  destruct (Holder.insert_ok mArray head alloc_invalid alloc_valid fd i (holder s) I1) as (h & -> & Ih & Ed);
    [by intros ->|]. cbn [mbind option_bind].
  pose proof (add_open (kernel s) fd) as Ko. pose proof (add_watched (kernel s) fd) as Kw.
  destruct (epoll_add fd (kernel s)) as [ok k]. cbn [fst snd] in *. eexists _, _. split; [done|].
  split; [|done]. split; psimpl; try done.
  - intros j fd' Hj. rewrite Ko. by apply (I4 j).
  - exists wfd. split_and!; [done|done| |by rewrite Kw, W4].
    rewrite Ed. destruct (_ <? 50)%nat; [|done]. destruct (decide (fd = wfd)) as [->|]; [|by rewrite lookup_insert_ne].
    rewrite lookup_insert_eq. f_equal. by apply (I5 _ _ wfd).
Qed.

(** A call that changes the timers, reads the clock and wakes the thread. *)
Lemma timed_ok (r : option (Z * TimedEventQ)) token s out :
  pinv s out -> call_done (timers s) out (snd <$> r) ->
  exists v s', ('(tok, q) ← r; let s := read_clock (set_timers q s) in
                Some (tok, if tok =? -1 then s else wake token s)) = Some (v, s') /\ pinv s' out /\ quiet s s'.
Proof.
  intros I (q & E & W & _). destruct r as [[tok q']|]; [|done]. injection E as ->. cbn [mbind option_bind].
  eexists _, _. split; [done|]. assert (I' : pinv (read_clock (set_timers q s)) out).
  { eapply (pinv_same (set_timers q s)); [by eapply pinv_timers|done..]. }
  destruct (tok =? -1); [by split|]. destruct (wake_same token (read_clock (set_timers q s))) as (E1 & E2 & E3 & E4 & E5).
  split; [by eapply pinv_same|by split].
Qed.

Lemma AddTimedCallback_run ms h s :
  AddTimedCallback ms h s =
    if (h =? 0) || (ms =? 0) then Some (BAD_VALUE, s)
    else '(tok, q) ← addLaterEvent new_unit (clock (reads s)) ms TIMED_CALLBACK h (timers s);
         let s := read_clock (set_timers q s) in Some (tok, if tok =? -1 then s else wake FUNC s).
Proof.
  unfold AddTimedCallback, AddTimedCallback_sections. destruct (_ || _); [done|]. cbn [run].
  destruct (addLaterEvent _ _ _ _ _ _) as [[tok q]|]; [|done]. cbn [mbind option_bind run].
  by destruct (tok =? -1).
Qed.

Lemma AddPeriodSignal_run ms h s :
  AddPeriodSignal ms h s =
    if (h =? 0) || (ms =? 0) then Some (BAD_VALUE, s)
    else '(tok, q) ← addPeriodEvent new_unit (clock (reads s)) ms PERIOD_CONDITION h (timers s);
         let s := read_clock (set_timers q s) in Some (tok, if tok =? -1 then s else wake COND s).
Proof.
  unfold AddPeriodSignal, AddPeriodSignal_sections. destruct (_ || _); [done|]. cbn [run].
  destruct (addPeriodEvent _ _ _ _ _ _) as [[tok q]|]; [|done]. cbn [mbind option_bind run].
  by destruct (tok =? -1).
Qed.

Lemma AddTimedCallback_ok ms h s out :
  pinv s out -> 0 <= ms < 2 ^ 32 -> exists r s', AddTimedCallback ms h s = Some (r, s') /\ pinv s' out /\ quiet s s'.
Proof.
  intros I Hms. rewrite AddTimedCallback_run. destruct (_ || _); [by exists BAD_VALUE, s|].
  apply timed_ok; [done|]. apply addLater_ok; [done|apply (pi_timers _ _ I)|done|done].
Qed.

Lemma AddPeriodSignal_ok ms c s out :
  pinv s out -> 0 <= ms < 2 ^ 32 -> exists r s', AddPeriodSignal ms c s = Some (r, s') /\ pinv s' out /\ quiet s s'.
Proof.
  intros I Hms. rewrite AddPeriodSignal_run. destruct (_ || _); [by exists BAD_VALUE, s|].
  apply timed_ok; [done|]. apply addPeriod_ok; [done|apply (pi_timers _ _ I)|done|done].
Qed.

(** Closing takes a transport's descriptor out of the table and the kernel. *)
Lemma shut_ok s s' out i fd :
  pinv s out -> sock s !! i = Some fd -> fd <> -1 -> i <> mWakeOn ->
  Holder.holder_inv mArray head (holder s') [] -> table s' = delete fd (table s) ->
  timers s' = timers s -> sock s' = <[i := -1]> (sock s) ->
  (forall x, x <> fd -> is_open (kernel s') x = is_open (kernel s) x /\ is_watched (kernel s') x = is_watched (kernel s) x) ->
  pinv s' out.
Proof.
  intros [I1 I2 I3 I4 I5 (wfd & W1 & W2 & W3 & W4)] Hi Hfd Hw Ih Et Eq Es Hk.
  split; rewrite ?Et, ?Eq, ?Es; try done.
  - rewrite dom_insert_lookup_L; [done|by eexists].
  - intros j x. destruct (decide (i = j)) as [->|Hne].
    + rewrite lookup_insert_eq. intros [= <-]. by left.
    + rewrite lookup_insert_ne by done. intros Hj. destruct (I4 j x Hj) as [?|[Hx Ho]]; [by left|]. right. split; [done|].
      rewrite (proj1 (Hk x ltac:(intros ->; apply Hne; by apply (I5 _ _ fd)))). done.
  - intros j l x. destruct (decide (i = j)) as [->|Hj]; [rewrite lookup_insert_eq; intros [= <-]; by intros _ ?|].
    destruct (decide (i = l)) as [->|Hl]; [rewrite lookup_insert_eq; intros _ [= <-]; done|].
    rewrite !lookup_insert_ne by done. apply I5.
  - assert (wfd <> fd) by (intros ->; apply Hw; by apply (I5 _ _ fd)).
    exists wfd. rewrite lookup_insert_ne, lookup_delete_ne by done. split_and!; try done. by rewrite (proj2 (Hk wfd ltac:(done))).
Qed.

(** What [CloseTransport] has done when it comes to the handler, if it does. *)
Definition shut (i fd : Z) (s s' : poller) : Prop :=
  sock s !! i = Some fd /\ 0 <= fd /\ sock s' = <[i := -1]> (sock s) /\ log s' = log s ++ [ClosedFd i fd]
  /\ is_open (kernel s') fd = false /\ is_watched (kernel s') fd = false /\ table s' !! fd = None
  /\ reads s' = reads s.

Lemma CloseTransport_ok call i s out :
  pinv s out -> i ∈ D -> i <> mWakeOn ->
  (exists s', CloseTransport call i s = Some (UNKNOWN_ERROR, s') /\ pinv s' out /\ log s' = log s
     /\ (sock s' = sock s \/ sock s' = <[i := -1]> (sock s)))
  \/ (exists fd s1, shut i fd s s1 /\ pinv s1 out
     /\ CloseTransport call i s = s' ← call (HClose i) s1; Some (NO_ERROR, s')).
Proof.
  intros I Hi Hw. destruct (live_sock s out i I Hi) as [fd Hfd].
  unfold CloseTransport. rewrite (proj2 (Z.eqb_neq i 0)) by (intros ->; done). rewrite Hfd. cbn [mbind option_bind].
  destruct (Z.eqb_spec fd (-1)) as [->|Hne]; [left; exists s; auto|].
  destruct (pi_open _ _ I _ _ Hfd) as [?|[Hpos Hopen]]; [done|]. psimpl.
  destruct (Holder.remove_sock_ok mArray head alloc_valid fd (holder s) (pi_holder _ _ I)) as (r & h & -> & Ih & Ed).
  cbn [mbind option_bind]. psimpl.
  pose proof (del_open (kernel s) fd) as Ko. pose proof (del_watched (kernel s) fd) as Kw.
  destruct (epoll_del fd (kernel s)) as [ok k]. cbn [fst snd] in *. destruct ok; psimpl.
  - right. exists fd. eexists. split; [|split; [|reflexivity]].
    + split_and!; try done; psimpl.
      * by rewrite close_open, Z.eqb_refl, andb_false_r.
      * by rewrite close_watched, Z.eqb_refl, andb_false_r.
      * rewrite Ed. apply lookup_delete_eq.
    + apply (shut_ok s _ out i fd); psimpl; try done. intros x Hx.
      rewrite close_open, close_watched, Ko, Kw, (proj2 (Z.eqb_neq x fd)) by done. by rewrite !andb_true_r.
  - left. eexists. split; [done|]. split; [|auto].
    apply (shut_ok s _ out i fd); psimpl; try done. intros x Hx.
    rewrite Ko, Kw, (proj2 (Z.eqb_neq x fd)) by done. by rewrite andb_true_r.
Qed.

(** ** What a turn did, against the sockets [S0] at its beginning *)

Definition closes (l : list act) : list (Z * Z) :=
  omap (fun a => match a with ClosedFd i fd => Some (i, fd) | _ => None end) l.
Definition close_calls (l : list act) : list Z :=
  omap (fun a => match a with Called (HClose i) => Some i | _ => None end) l.

(** No handler for reading or writing runs after the transport was closed. *)
Definition no_late_io (l : list act) : Prop :=
  forall l1 l2 i, l = l1 ++ Called (HRead i) :: l2 \/ l = l1 ++ Called (HWrite i) :: l2 -> i ∉ (closes l1).*1.

Record since (S0 : gmap Z Z) (s : poller) : Prop := {
  sn_sock i : sock s !! i = S0 !! i \/ is_Some (S0 !! i) /\ sock s !! i = Some (-1);
  sn_closed i fd : (i, fd) ∈ closes (log s) -> S0 !! i = Some fd /\ fd <> -1 /\ sock s !! i = Some (-1);
  sn_nodup : NoDup (closes (log s)).*1;
  sn_late : no_late_io (log s)
}.

Lemma closes_snoc l a : closes (l ++ [a]) = closes l ++ closes [a].
Proof. apply omap_app. Qed.
Lemma close_calls_snoc l a : close_calls (l ++ [a]) = close_calls l ++ close_calls [a].
Proof. apply omap_app. Qed.

Lemma no_late_snoc l a :
  no_late_io l -> (forall i, a = Called (HRead i) \/ a = Called (HWrite i) -> i ∉ (closes l).*1) -> no_late_io (l ++ [a]).
Proof.
  intros Hl Ha l1 l2 i E. destruct l2 as [|b l2 _] using rev_ind.
  - destruct E as [E|E]; apply app_inj_tail in E as [<- ->]; apply Ha; auto.
  - rewrite !app_comm_cons, !app_assoc in E. apply (Hl l1 l2).
    destruct E as [E|E]; apply app_inj_tail in E as [-> _]; auto.
Qed.

Lemma since_same S0 s s' : since S0 s -> sock s' = sock s -> log s' = log s -> since S0 s'.
Proof. intros [A B C F] Es El. split; rewrite ?Es, ?El; done. Qed.

(** A transport that is given up without being closed. *)
Lemma since_lost S0 s s' i :
  since S0 s -> is_Some (sock s !! i) -> sock s' = <[i := -1]> (sock s) -> log s' = log s -> since S0 s'.
Proof.
  intros [A B C F] [x Hi] Es El. split; rewrite ?Es, ?El; try done.
  - intros j. destruct (decide (i = j)) as [<-|Hne]; [|by rewrite lookup_insert_ne].
    right. rewrite lookup_insert_eq. split; [|done]. destruct (A i) as [E|[? _]]; [|done]. rewrite <- E. by eexists.
  - intros j fd Hj. destruct (B j fd Hj) as (B1 & B2 & B3). split_and!; [done|done|].
    destruct (decide (i = j)) as [<-|Hne]; [by rewrite lookup_insert_eq|by rewrite lookup_insert_ne].
Qed.

Lemma since_closed S0 s s' i fd :
  since S0 s -> sock s !! i = Some fd -> fd <> -1 -> sock s' = <[i := -1]> (sock s) ->
  log s' = log s ++ [ClosedFd i fd] -> since S0 s'.
Proof.
  intros [A B C F] Hi Hfd Es El.
  assert (H0 : S0 !! i = Some fd) by (destruct (A i) as [E|[_ E]]; congruence).
  split; rewrite ?Es, ?El, ?closes_snoc.
  - intros j. destruct (decide (i = j)) as [<-|Hne]; [|rewrite lookup_insert_ne by done; apply A].
    right. rewrite lookup_insert_eq, H0. by split; [eexists|].
  - intros j x [Hj|Hj]%elem_of_app.
    + destruct (B j x Hj) as (B1 & B2 & B3). split_and!; [done|done|].
      destruct (decide (i = j)) as [<-|Hne]; [by rewrite lookup_insert_eq|by rewrite lookup_insert_ne].
    + apply list_elem_of_singleton in Hj as [= -> ->]. split_and!; [done|done|]. apply lookup_insert_eq.
  - rewrite fmap_app. apply NoDup_app. split; [done|]. split; [|apply NoDup_singleton].
    intros j Hj Hc. apply list_elem_of_singleton in Hc as ->. cbn [fst] in *.
    apply list_elem_of_fmap in Hj as ([j x] & E & Hj). cbn [fst] in E. subst j. destruct (B i x Hj) as (_ & _ & B3). congruence.
  - apply no_late_snoc; [done|]. by intros j [?|?].
Qed.

Lemma since_logged S0 s s' a :
  since S0 s -> closes [a] = [] ->
  (forall i, a = Called (HRead i) \/ a = Called (HWrite i) -> exists fd, sock s !! i = Some fd /\ fd <> -1) ->
  sock s' = sock s -> log s' = log s ++ [a] -> since S0 s'.
Proof.
  intros [A B C F] Hn Ha Es El. split; rewrite ?Es, ?El, ?closes_snoc, ?Hn, ?app_nil_r; try done.
  apply no_late_snoc; [done|]. intros i Hi. destruct (Ha i Hi) as (fd & Hfd & Hne).
  intros Hin. apply list_elem_of_fmap in Hin as ([j x] & -> & Hj). destruct (B _ _ Hj) as (_ & _ & B3). cbn [fst] in *. congruence.
Qed.

(** ** Handlers return *)

Definition open_count (s : poller) : nat := size (filter (fun kv => kv.2 <> -1) (sock s)).

Lemma open_count_shut s s' i fd :
  sock s !! i = Some fd -> sock s' = <[i := -1]> (sock s) ->
  (open_count s' <= open_count s)%nat /\ (fd <> -1 -> (open_count s' < open_count s)%nat).
Proof.
  intros Hi Es. unfold open_count. rewrite Es, map_filter_insert_False by (simpl; congruence).
  rewrite map_filter_delete. destruct (decide (fd = -1)) as [->|Hne].
  - rewrite delete_id; [done|]. apply map_lookup_filter_None. right. intros x Hx. rewrite Hi in Hx. injection Hx as <-.
    intros Hx. by apply Hx.
  - assert (Hin : filter (fun kv : Z * Z => kv.2 <> -1) (sock s) !! i = Some fd) by by apply map_lookup_filter_Some.
    rewrite map_size_delete_Some by by eexists.
    assert (size (filter (fun kv : Z * Z => kv.2 <> -1) (sock s)) <> O); [|lia].
    intros E0. apply map_size_empty_inv in E0. rewrite E0 in Hin. by rewrite lookup_empty in Hin.
Qed.

Lemma open_count_size s : (open_count s <= size (sock s))%nat.
Proof. apply map_subseteq_size, map_filter_subseteq. Qed.

(** Between two handlers: each closed transport had its handler called. *)
Definition settled (S0 : gmap Z Z) (out : list Z) (s : poller) : Prop :=
  pinv s out /\ since S0 s /\ (closes (log s)).*1 = close_calls (log s).

Definition ready (S0 : gmap Z Z) (out : list Z) (c : hcall) (s : poller) : Prop :=
  pinv s out /\ since S0 s
  /\ match c with
     | HRead i | HWrite i => (closes (log s)).*1 = close_calls (log s)
         /\ exists fd, sock s !! i = Some fd /\ fd <> -1
     | HClose i => (closes (log s)).*1 = close_calls (log s) ++ [i] /\ i <> mWakeOn
     | HTimer _ => (closes (log s)).*1 = close_calls (log s)
     end.

Definition returns (S0 : gmap Z Z) (out : list Z) (s : poller) (r : option poller) : Prop :=
  exists s', r = Some s' /\ settled S0 out s' /\ (open_count s' <= open_count s)%nat.

Lemma settled_quiet S0 out s s' : settled S0 out s -> pinv s' out -> quiet s s' -> settled S0 out s'.
Proof.
  intros (I & Sn & E) I' [Es El]. split; [done|]. split; [by eapply since_same|]. by rewrite El.
Qed.

Lemma returns_quiet S0 out s (r : option (Z * poller)) :
  settled S0 out s -> (exists v s', r = Some (v, s') /\ pinv s' out /\ quiet s s') -> returns S0 out s (snd <$> r).
Proof.
  intros St (v & s' & -> & I & Q). exists s'. split; [done|]. split; [by eapply settled_quiet|].
  unfold open_count. by rewrite (qu_sock _ _ Q).
Qed.

Lemma shut_settled S0 out s s1 i fd :
  settled S0 out s -> shut i fd s s1 -> pinv s1 out -> i <> mWakeOn ->
  ready S0 out (HClose i) s1 /\ (open_count s1 < open_count s)%nat.
Proof.
  intros (I & Sn & E) (Hi & Hpos & Es & El & _) I1 Hw. split.
  - split; [done|]. split; [eapply since_closed; [done..| |done|done]; lia|]. split; [|done].
    rewrite El, closes_snoc, close_calls_snoc, fmap_app, E. cbn [close_calls omap list_omap]. by rewrite app_nil_r.
  - eapply (open_count_shut s s1); [done|done|lia].
Qed.

Lemma run_calls_ok call n S0 out :
  (forall c s, ready S0 out c s -> (open_count s < n)%nat -> returns S0 out s (call c s)) ->
  forall cs s, Forall pcall_ok cs -> settled S0 out s -> (open_count s <= n)%nat -> returns S0 out s (run_calls call cs s).
Proof.
  intros Hcall cs s Hcs. revert s. induction Hcs as [|c cs Hc _ IH]; intros s St Hn; cbn [run_calls]; [by exists s|].
  assert (returns S0 out s (exec_pcall call c s)) as (s1 & -> & St1 & Hn1).
  { pose proof St as (I & Sn & E). destruct c as [i|i|ms h|ms c|tok]; cbn [exec_pcall pcall_ok] in *.
    - by apply returns_quiet, AddTransport_ok.
    - destruct Hc as [Hi Hw]. destruct (CloseTransport_ok call i s out I Hi Hw)
        as [(s' & -> & I' & El & Es)|(fd & s1 & Sh & I1 & ->)].
      + exists s'. destruct (live_sock s out i I Hi) as [fd Hfd]. split; [done|]. destruct Es as [Es|Es].
        * split; [by eapply settled_quiet|]. unfold open_count. by rewrite Es.
        * split; [|by eapply open_count_shut]. split; [done|]. rewrite El. split; [|done].
          eapply since_lost; [done| |done|done]. by eexists.
      + destruct (shut_settled S0 out s s1 i fd St Sh I1 Hw) as [R L].
        destruct (Hcall (HClose i) s1 R ltac:(lia)) as (s' & -> & St' & L'). exists s'. cbn [mbind option_bind].
        split_and!; [done|done|lia].
    - by apply returns_quiet, AddTimedCallback_ok.
    - by apply returns_quiet, AddPeriodSignal_ok.
    - done. }
  cbn [mbind option_bind]. destruct (IH s1 St1 ltac:(lia)) as (s2 & -> & St2 & Hn2). exists s2. split_and!; [done|done|lia].
Qed.

Lemma handle_returns S0 out n c s :
  ready S0 out c s -> (open_count s < n)%nat -> returns S0 out s (handle n c s).
Proof.
  revert c s. induction n as [|n IH]; intros c s R Hn; [lia|]. pose proof R as (I & Sn & E).
  assert (Hrun : returns S0 out s (run_calls (handle n) (reaction c) (add_log (Called c) s))).
  { destruct (run_calls_ok (handle n) n S0 out IH (reaction c) (add_log (Called c) s)) as (s' & -> & St & L);
      [done| |unfold open_count; psimpl; fold (open_count s); lia|by exists s'].
    split; [by eapply pinv_same|]. split.
    - apply (since_logged S0 s _ (Called c)); try done. intros i [Ec|Ec]; injection Ec as ->; apply E.
    - psimpl. rewrite closes_snoc, close_calls_snoc. cbn [closes omap list_omap]. rewrite app_nil_r.
      destruct c; cbn [close_calls omap list_omap]; rewrite ?app_nil_r; try done; apply E. }
  cbn [handle]. destruct c as [i|i|i|h]; [..|done]; (destruct (Z.eqb_spec i mWakeOn) as [->|]; [|done]).
  - exists (wake_read s). split; [done|]. split; [|done]. split; [by eapply pinv_same|]. split; [by eapply since_same|apply E].
  - exists s. split; [done|]. split; [|done]. split; [done|]. split; [done|apply E].
  - by destruct E as [_ ?].
Qed.

Lemma call_handler_returns S0 out c s : ready S0 out c s -> returns S0 out s (call_handler c s).
Proof. intros R. apply handle_returns; [done|]. pose proof (open_count_size s). lia. Qed.

(** ** The alarm pass *)

Lemma settled_timers S0 out out' s q : settled S0 out s -> wfq q out' -> settled S0 out' (set_timers q s).
Proof. intros (I & Sn & E) W. split; [by eapply pinv_timers|]. split; [by eapply since_same|done]. Qed.

Lemma fire_returns S0 out p s :
  settled S0 (p :: out) s -> exists s', fire p s = Some s' /\ settled S0 out s'.
Proof.
  intros St. pose proof St as (I & Sn & E). pose proof (pi_timers _ _ I) as W. unfold fire.
  destruct (proj2 (wfq_live _ _ W p)) as [e He]; [set_solver|]. rewrite He. cbn [mbind option_bind].
  destruct (fire_one_ok new_unit new_unit_fresh (fun _ => []) ltac:(done) (clock (reads s)) p (timers s) out e)
    as (q & E1 & Wq & _); [done..|].
  assert (Hother : exists s', ('(eff, q) ← fire_one new_unit (fun _ => []) (clock (reads s)) p (timers s);
      Some (read_clock (add_log (Effected eff) (set_timers q s)))) = Some s' /\ settled S0 out s').
  { rewrite E1. cbn [mbind option_bind]. eexists. split; [done|].
    destruct (settled_timers S0 _ out s q St Wq) as (I' & Sn' & E'). split; [by eapply pinv_same|]. split.
    - apply (since_logged S0 (set_timers q s) _ (Effected (effect_of e))); try done. by intros i [?|?].
    - psimpl. rewrite closes_snoc, close_calls_snoc. cbn [closes close_calls omap list_omap]. by rewrite !app_nil_r. }
  destruct (type e); try exact Hother.
  destruct (call_handler_returns S0 (p :: out) (HTimer (AbsTimer.handler e)) s) as (s1 & -> & St1 & _); [done|].
  cbn [mbind option_bind]. eexists. split; [done|]. eapply settled_timers; [done|].
  apply free_held. apply (pi_timers _ _ (proj1 St1)).
Qed.

Lemma fire_all_returns S0 out ps s :
  settled S0 (ps ++ out) s -> exists s', fire_all ps s = Some s' /\ settled S0 out s'.
Proof.
  revert s. induction ps as [|p ps IH]; intros s St; cbn [fire_all]; [by exists s|].
  destruct (fire_returns S0 (ps ++ out) p s St) as (s1 & -> & St1). cbn [mbind option_bind]. by apply IH.
Qed.

Lemma settled_read S0 out s s' :
  settled S0 out s -> holder s' = holder s -> timers s' = timers s -> kernel s' = kernel s -> sock s' = sock s ->
  log s' = log s -> settled S0 out s'.
Proof. intros St E1 E2 E3 E4 E5. eapply settled_quiet; [done|eapply pinv_same; [apply St|done..]|by split]. Qed.

Lemma alarm_returns S0 s : settled S0 [] s -> exists s', alarm s = Some s' /\ settled S0 [] s'.
Proof.
  intros St. pose proof St as (I & Sn & E). unfold alarm.
  destruct (splice_ok (clock (reads s)) (timers s) [] (pi_timers _ _ I) (proj1 (clock_ok _))) as (d & r & _ & -> & W & _).
  cbn [mbind option_bind]. apply (fire_all_returns S0 [] d).
  eapply settled_read; [by eapply (settled_timers S0 [] (d ++ []) s (set_list r (timers s)))|done..].
Qed.

(** ** Dispatching *)

(** The poller subscribes to reading only, and the pipe's other end stays
    open. *)
Definition ev_ok (S0 : gmap Z Z) (ev : epoll_event) : Prop :=
  has (ev_events ev) EPOLLOUT = false
  /\ (S0 !! mWakeOn = Some (ev_fd ev) -> has (ev_events ev) (Z.lor EPOLLHUP EPOLLERR) = false).

(** [fetch] finds the transport that is registered for the descriptor, lives
    and still has it; it may drop an entry that is none. *)
Lemma fetch_settled S0 out s fd :
  settled S0 out s ->
  exists err r h, Holder.fetch_at (alive s) (isock s) fd (holder s) = Some (err, r, h)
    /\ settled S0 out (set_holder h s)
    /\ match r with
       | Some i => table s !! fd = Some i /\ sock s !! i = Some fd
       | None => forall i, table s !! fd = Some i -> sock s !! i <> Some fd
       end.
Proof.
  intros (I & Sn & E).
  destruct (Holder.fetch_at_ok mArray head alloc_valid (alive s) (isock s) fd (holder s) (pi_holder _ _ I))
    as (err & r & h & -> & Ih & Hl & Hr). exists err, r, h. split; [done|].
  assert (Hlive : forall x i, Holder.live (alive s) (isock s) (holder s) x i <-> table s !! x = Some i /\ sock s !! i = Some x \/
     table s !! x = Some i /\ x = -1 /\ sock s !! i = Some (-1)).
  { intros x i. unfold Holder.live, alive, isock. rewrite bool_decide_eq_true. destruct (sock s !! i) as [y|]; simpl.
    - split; [intros (? & _ & ->); auto|]. intros [[? [= ->]]|(? & -> & [= ->])]; (split; [done|]; split; [by eexists|done]).
    - split; [by intros (_ & [? [=]] & _)|]. intros [[_ [=]]|(_ & _ & [=])]. }
  split.
  - split; [|split; [by eapply since_same|done]]. destruct I as [I1 I2 I3 I4 I5 (wfd & W1 & W2 & W3 & W4)].
    split; psimpl; try done. exists wfd. split_and!; try done.
    assert (HL : Holder.live (alive s) (isock s) h wfd mWakeOn) by (apply Hl, Hlive; by left). apply HL.
  - destruct r as [i|].
    + apply Hlive in Hr as [?|(? & -> & ?)]; done.
    + intros i Ht Hs. apply (Hr i), Hlive. by left.
Qed.

Lemma dispatch_one_returns S0 s ev :
  settled S0 [] s -> ev_ok S0 ev -> exists s', dispatch_one ev s = Some s' /\ settled S0 [] s'.
Proof.
  intros St [Hout Hhup]. unfold dispatch_one. destruct (fetch_settled S0 [] s (ev_fd ev) St) as (err & r & h & -> & St1 & Hr).
  cbn [mbind option_bind]. destruct r as [i|]; [|by eexists]. destruct Hr as [Ht Hi]. psimpl. rewrite Hi.
  cbn [mbind option_bind]. rewrite Hout. pose proof St1 as (I & Sn & E).
  destruct (has (ev_events ev) (Z.lor EPOLLHUP EPOLLERR)) eqn:Eh.
  - destruct (Z.leb_spec 0 (ev_fd ev)) as [Hpos|]; [|by eexists].
    assert (Hw : i <> mWakeOn).
    { intros ->. cut (S0 !! mWakeOn = Some (ev_fd ev)); [intros H0; specialize (Hhup H0); congruence|]. destruct (sn_sock _ _ Sn mWakeOn) as [E0|[_ E0]]; psimpl; [congruence|].
      rewrite Hi in E0. injection E0 as E0. lia. }
    destruct (Holder.remove_sock_ok mArray head alloc_valid (ev_fd ev) h (pi_holder _ _ I)) as (v & h' & -> & Ih & Ed).
    cbn [mbind option_bind]. set (s1 := set_sock i (-1) _).
    assert (Sh : shut i (ev_fd ev) (set_holder h s) s1).
    { split_and!; try done; unfold s1; psimpl.
      - by rewrite close_open, Z.eqb_refl, andb_false_r.
      - by rewrite close_watched, Z.eqb_refl, andb_false_r.
      - rewrite Ed. apply lookup_delete_eq. }
    assert (I1 : pinv s1 []).
    { apply (shut_ok (set_holder h s) s1 [] i (ev_fd ev)); unfold s1; psimpl; try done; [lia|].
      intros x Hx. rewrite close_open, close_watched, (proj2 (Z.eqb_neq x _)) by done. by rewrite !andb_true_r. }
    destruct (shut_settled S0 [] _ s1 i (ev_fd ev) St1 Sh I1 Hw) as [R _].
    destruct (call_handler_returns S0 [] _ s1 R) as (s' & -> & St' & _). by exists s'.
  - destruct (Z.leb_spec 0 (ev_fd ev)) as [Hpos|]; [|by eexists].
    destruct (has (ev_events ev) EPOLLIN); [|by eexists].
    destruct (call_handler_returns S0 [] (HRead i) (set_holder h s)) as (s' & -> & St' & _); [|by exists s'].
    split; [done|]. split; [done|]. split; [done|]. exists (ev_fd ev). psimpl. split; [done|lia].
Qed.

Lemma dispatch_returns S0 evs s :
  Forall (ev_ok S0) evs -> settled S0 [] s -> exists s', dispatch evs s = Some s' /\ settled S0 [] s'.
Proof.
  intros Hevs. revert s. induction Hevs as [|ev evs Hev _ IH]; intros s St; cbn [dispatch]; [by exists s|].
  destruct (dispatch_one_returns S0 s ev St Hev) as (s1 & -> & St1). cbn [mbind option_bind]. by apply IH.
Qed.

Definition result_ok (S0 : gmap Z Z) (r : bool * wait_result) : Prop :=
  match r.2 with WEvents evs => Forall (ev_ok S0) evs | _ => True end.

Lemma time_out_defined s out : pinv s out -> is_Some (time_out (clock (reads s)) (timers s)).
Proof.
  intros I. unfold time_out, timeToNextEvent, abstimeToNextEvent. pose proof (pi_timers _ _ I) as W.
  destruct (mList (timers s)) as [|p l] eqn:El; [by eexists|].
  destruct (proj2 (wfq_live _ _ W p)) as [e He]; [rewrite El; set_solver|]. rewrite He. by eexists.
Qed.

Lemma loop_sleep_returns S0 s :
  settled S0 [] s -> exists ms s', loop_sleep s = Some (ms, s') /\ settled S0 [] s'.
Proof.
  intros St. unfold loop_sleep. destruct (time_out_defined s [] (proj1 St)) as [ms ->]. cbn [mbind option_bind].
  eexists _, _. split; [done|]. pose proof St as (I & Sn & E). split; [by eapply pinv_same|]. split.
  - apply (since_logged S0 s _ (Waited ms)); try done. by intros i [?|?].
  - psimpl. rewrite closes_snoc, close_calls_snoc. cbn [closes close_calls omap list_omap]. by rewrite !app_nil_r.
Qed.

Lemma loop_awake_returns S0 exit r s :
  result_ok S0 (exit, r) -> settled S0 [] s ->
  exists o s', loop_awake exit r s = Some (o, s') /\ settled S0 [] s'.
Proof.
  intros Hr St. unfold loop_awake. destruct exit; [by do 2 eexists|].
  destruct (alarm_returns S0 s St) as (s2 & E2 & St2).
  destruct r as [[|ev evs]| |]; try by do 2 eexists.
  - rewrite E2. cbn [mbind option_bind]. by do 2 eexists.
  - rewrite E2. cbn [mbind option_bind]. destruct (dispatch_returns S0 (ev :: evs) s2 Hr St2) as (s3 & -> & St3).
    cbn [mbind option_bind]. by do 2 eexists.
  - rewrite E2. cbn [mbind option_bind]. by do 2 eexists.
Qed.

Lemma threadLoop_returns S0 rs s :
  Forall (result_ok S0) rs -> settled S0 [] s ->
  exists o s', threadLoop rs s = Some (o, s') /\ settled S0 [] s'.
Proof.
  intros Hrs. revert s. induction Hrs as [|[exit r] rs Hr _ IH]; intros s St; cbn [threadLoop]; [by exists Blocked, s|].
  destruct (loop_sleep_returns S0 s St) as (ms & s1 & -> & St1). cbn [mbind option_bind].
  destruct (loop_awake_returns S0 exit r s1 Hr St1) as ([o|] & s2 & -> & St2); cbn [mbind option_bind]; [by exists o, s2|].
  by apply IH.
Qed.

Lemma settled_start s : pinv s [] -> log s = [] -> settled (sock s) [] s.
Proof.
  intros I L. split; [done|]. rewrite L. split; [|done]. split; rewrite ?L; [by left|set_solver|constructor|].
  intros l1 l2 i [E|E]; by destruct l1.
Qed.

(** C29: A turn of the poller's thread always comes to its end, whatever the
    handlers of sockets and timers call back (they may add and close
    transports and add timers, from inside each other): the table, the timers
    and the sockets stay consistent; a descriptor is closed at most once, by
    the transport that had it, whose [handleClose] is called exactly then; and
    no transport is asked to read or write after it was closed, although
    events for it may still be in the array. *)
Theorem turn_safe rs s :
  pinv s [] -> log s = [] -> Forall (result_ok (sock s)) rs ->
  exists o s', threadLoop rs s = Some (o, s') /\ pinv s' []
    /\ (forall i, sock s' !! i = sock s !! i \/ is_Some (sock s !! i) /\ sock s' !! i = Some (-1))
    /\ NoDup (closes (log s')).*1 /\ close_calls (log s') = (closes (log s')).*1
    /\ (forall i fd, (i, fd) ∈ closes (log s') -> sock s !! i = Some fd /\ fd <> -1 /\ sock s' !! i = Some (-1))
    /\ no_late_io (log s').
Proof.
  intros I L Hrs. destruct (threadLoop_returns (sock s) rs s Hrs (settled_start s I L)) as (o & s' & E & I' & [A B C F] & Ec).
  exists o, s'. by split_and!.
Qed.

(** ** Delivery *)

Lemma CloseTransport_extends call i s v s' :
  (forall c s s', call c s = Some s' -> log s `prefix_of` log s') ->
  CloseTransport call i s = Some (v, s') -> log s `prefix_of` log s'.
Proof.
  intros Hcall. unfold CloseTransport. destruct (i =? 0); [by intros [= <- <-]|].
  intros (fd & _ & E)%bind_Some. destruct (fd =? -1); [by injection E as <- <-|].
  apply bind_Some in E as ([r h] & _ & E). psimpl. destruct (epoll_del fd (kernel s)) as [[] k]; psimpl.
  - apply bind_Some in E as (s1 & E1 & E). injection E as <- <-. apply Hcall in E1. psimpl.
    etrans; [|exact E1]. by apply prefix_app_r.
  - by injection E as <- <-.
Qed.

Lemma exec_pcall_extends call c s s' :
  (forall c s s', call c s = Some s' -> log s `prefix_of` log s') ->
  exec_pcall call c s = Some s' -> log s `prefix_of` log s'.
Proof.
  intros Hcall E. destruct c; cbn [exec_pcall] in E; apply fmap_Some in E as ([v s1] & E & ->); cbn [snd].
  - unfold AddTransport in E. destruct (_ =? 0); [by injection E as <- <-|]. apply bind_Some in E as (fd & _ & E).
    destruct (fd =? -1); [by injection E as <- <-|]. apply bind_Some in E as ([r h] & _ & E).
    destruct (epoll_add _ _). by injection E as <- <-.
  - by eapply CloseTransport_extends.
  - rewrite AddTimedCallback_run in E. destruct (_ || _); [by injection E as <- <-|]. apply bind_Some in E as ([tok q] & _ & E).
    injection E as <- <-. destruct (_ =? _); [done|]. by rewrite (proj2 (proj2 (proj2 (proj2 (wake_same _ _))))).
  - rewrite AddPeriodSignal_run in E. destruct (_ || _); [by injection E as <- <-|]. apply bind_Some in E as ([tok q] & _ & E).
    injection E as <- <-. destruct (_ =? _); [done|]. by rewrite (proj2 (proj2 (proj2 (proj2 (wake_same _ _))))).
  - apply bind_Some in E as ([h q] & _ & E). by injection E as <- <-.
Qed.

Lemma handle_extends n c s s' : handle n c s = Some s' -> log s `prefix_of` log s'.
Proof.
  revert c s s'. induction n as [|n IH]; intros c s s' E; cbn [handle] in E; [done|].
  assert (Hrun : forall cs s1 s2, run_calls (handle n) cs s1 = Some s2 -> log s1 `prefix_of` log s2).
  { induction cs as [|d cs IHcs]; intros s1 s2; cbn [run_calls]; [by intros [= <-]|].
    intros (s3 & E1 & E2)%bind_Some. etrans; [by eapply exec_pcall_extends|by apply IHcs]. }
  assert (Hlog : forall s1, run_calls (handle n) (reaction c) (add_log (Called c) s) = Some s1 -> log s `prefix_of` log s1).
  { intros s1 E1. apply Hrun in E1. etrans; [|exact E1]. by apply prefix_app_r. }
  destruct c; try (destruct (_ =? mWakeOn); [by injection E as <-|]); by apply Hlog.
Qed.

(** The handler's call is the first thing its run records. *)
Lemma call_handler_first c s s' :
  (forall i, c = HRead i \/ c = HWrite i \/ c = HClose i -> i <> mWakeOn) ->
  call_handler c s = Some s' -> log s ++ [Called c] `prefix_of` log s'.
Proof.
  intros Hw E. unfold call_handler in E. cbn [handle] in E.
  assert (Hrun : run_calls (handle (size (sock s))) (reaction c) (add_log (Called c) s) = Some s').
  { destruct c as [i|i|i|h]; try (rewrite (proj2 (Z.eqb_neq i mWakeOn)) in E by (apply Hw; auto)); exact E. }
  clear E. revert Hrun. generalize (reaction c). intros cs.
  change (log s ++ [Called c]) with (log (add_log (Called c) s)). generalize (add_log (Called c) s). clear -cs.
  induction cs as [|d cs IH]; intros s1; cbn [run_calls]; [by intros [= <-]|].
  intros (s2 & E1 & E2)%bind_Some. etrans; [|by apply IH]. eapply exec_pcall_extends; [|exact E1]. apply handle_extends.
Qed.

Lemma dispatch_one_extends ev s s' : dispatch_one ev s = Some s' -> log s `prefix_of` log s'.
Proof.
  unfold dispatch_one. intros ([[err r] h] & _ & E)%bind_Some. psimpl. destruct r as [i|]; [|by injection E as <-].
  apply bind_Some in E as (fd & _ & E). destruct (has _ _).
  - destruct (0 <=? fd); [|by injection E as <-]. apply bind_Some in E as ([v h'] & _ & E).
    apply handle_extends in E. psimpl. etrans; [|exact E]. by apply prefix_app_r.
  - destruct (0 <=? fd); [|by injection E as <-]. apply bind_Some in E as (s1 & E1 & E2).
    etrans; [|destruct (has (ev_events ev) EPOLLOUT); [by eapply handle_extends|by injection E2 as <-]].
    destruct (has _ _); [by apply handle_extends in E1|by injection E1 as <-].
Qed.

Lemma dispatch_app evs1 evs2 s : dispatch (evs1 ++ evs2) s = s1 ← dispatch evs1 s; dispatch evs2 s1.
Proof.
  revert s. induction evs1 as [|ev evs1 IH]; intros s; cbn [app dispatch]; [done|].
  destruct (dispatch_one ev s); [apply IH|done].
Qed.

(** What an event makes the poller do with the transport [i]. *)
Definition served (i : Z) (ev : epoll_event) : list act :=
  if has (ev_events ev) (Z.lor EPOLLHUP EPOLLERR) then [ClosedFd i (ev_fd ev); Called (HClose i)]
  else if has (ev_events ev) EPOLLIN then [Called (HRead i)] else [].

Lemma dispatch_one_serves S0 s ev i :
  settled S0 [] s -> ev_ok S0 ev -> i <> mWakeOn -> 0 <= ev_fd ev ->
  table s !! ev_fd ev = Some i -> sock s !! i = Some (ev_fd ev) ->
  exists s', dispatch_one ev s = Some s' /\ settled S0 [] s' /\ log s ++ served i ev `prefix_of` log s'.
Proof.
  intros St Hev Hw Hpos Ht Hi. destruct (dispatch_one_returns S0 s ev St Hev) as (s' & E & St'). exists s'.
  split; [done|]. split; [done|]. revert E. unfold dispatch_one, served.
  destruct (fetch_settled S0 [] s (ev_fd ev) St) as (err & r & h & -> & St1 & Hr). cbn [mbind option_bind].
  destruct r as [j|]; [|by destruct (Hr i Ht)]. destruct Hr as [Ht' _]. rewrite Ht in Ht'. injection Ht' as <-.
  psimpl. rewrite Hi. cbn [mbind option_bind]. rewrite (proj1 Hev), (proj2 (Z.leb_le _ _)) by done.
  destruct (has (ev_events ev) (Z.lor EPOLLHUP EPOLLERR)).
  - destruct (Holder.remove _ _) as [[v h']|]; [|done]. cbn [mbind option_bind]. intros E.
    apply call_handler_first in E; [|by intros ? [?|[?|[= <-]]]]. psimpl.
    change [ClosedFd i (ev_fd ev); Called (HClose i)] with ([ClosedFd i (ev_fd ev)] ++ [Called (HClose i)]).
    by rewrite app_assoc.
  - destruct (has (ev_events ev) EPOLLIN).
    + intros (s1 & E1 & E2)%bind_Some. injection E2 as <-. apply call_handler_first in E1; [|by intros ? [[= <-]|[?|?]]].
      exact E1.
    + cbn [mbind option_bind]. intros [= <-]. by rewrite app_nil_r.
Qed.

(** Every event in the array reaches its transport: when the poller comes
    to an event whose descriptor still belongs to a registered transport, it
    calls that transport's [handleRead], or closes the descriptor and calls
    [handleClose] when the event reports a hang-up or an error, whatever the
    handlers of the events before it did to other transports. *)
Theorem event_delivered evs1 ev evs2 s :
  pinv s [] -> log s = [] -> Forall (ev_ok (sock s)) (evs1 ++ ev :: evs2) -> 0 <= ev_fd ev ->
  exists s1 s', dispatch evs1 s = Some s1 /\ dispatch (evs1 ++ ev :: evs2) s = Some s'
    /\ forall i, i <> mWakeOn -> table s1 !! ev_fd ev = Some i -> sock s1 !! i = Some (ev_fd ev) ->
         log s1 ++ served i ev `prefix_of` log s'.
Proof.
  intros I L [H1 [Hev H2]%Forall_cons]%Forall_app Hpos. pose proof (settled_start s I L) as St.
  destruct (dispatch_returns (sock s) evs1 s H1 St) as (s1 & E1 & St1).
  destruct (dispatch_one_returns (sock s) s1 ev St1 Hev) as (s2 & E2 & St2).
  destruct (dispatch_returns (sock s) evs2 s2 H2 St2) as (s3 & E3 & St3).
  exists s1, s3. split; [done|]. rewrite dispatch_app, E1. cbn [mbind option_bind dispatch]. rewrite E2. cbn [mbind option_bind].
  split; [done|]. intros i Hw Ht Hi.
  destruct (dispatch_one_serves (sock s) s1 ev i St1 Hev Hw Hpos Ht Hi) as (s2' & E2' & _ & Hp).
  rewrite E2 in E2'. injection E2' as <-. etrans; [exact Hp|]. clear -E3.
  revert s2 E3. induction evs2 as [|e evs2 IH]; intros s2; cbn [dispatch]; [by intros [= <-]|].
  intros (s4 & E4 & E5)%bind_Some. etrans; [by eapply dispatch_one_extends|by apply IH].
Qed.

(** A transport that a derived class did not close before is destroyed with a
    call of a pure function; a closed one is destroyed in peace. *)
Lemma destroy_watched_undefined i fd s :
  pinv s [] -> i <> 0 -> sock s !! i = Some fd -> fd <> -1 -> is_watched (kernel s) fd = true ->
  destroy_ITransport i s = None.
Proof.
  intros I Hi Hfd Hne Hw. unfold destroy_ITransport, CloseTransport. rewrite (proj2 (Z.eqb_neq i 0)) by done.
  rewrite Hfd. cbn [mbind option_bind]. rewrite (proj2 (Z.eqb_neq fd (-1))) by done. psimpl.
  destruct (Holder.remove_sock_ok mArray head alloc_valid fd (holder s) (pi_holder _ _ I)) as (r & h & -> & _).
  cbn [mbind option_bind]. psimpl. pose proof (del_succeeds (kernel s) fd) as Hd.
  destruct (epoll_del fd (kernel s)) as [ok k]. cbn [fst] in Hd. by rewrite Hd, Hw.
Qed.

Lemma destroy_closed i s :
  i <> 0 -> sock s !! i = Some (-1) -> is_Some (destroy_ITransport i s).
Proof.
  intros Hi Hfd. unfold destroy_ITransport, CloseTransport. rewrite (proj2 (Z.eqb_neq i 0)) by done.
  rewrite Hfd. by eexists.
Qed.

(** ** A table that is full *)

(** When the table is full, [AddTransport] reports success and the kernel
    watches the descriptor, but its events are for nobody: each one is taken
    from the array without any handler being called, without anything being
    read or closed, so that the next [epoll_wait] reports it again at once. *)
Theorem full_table_starves s i fd flags :
  pinv s [] -> i ∈ D -> sock s !! i = Some fd -> fd <> -1 ->
  (50 <= size (table s))%nat -> table s !! fd = None -> (epoll_add fd (kernel s)).1 = true ->
  exists s1 s', AddTransport i s = Some (NO_ERROR, s1) /\ is_watched (kernel s1) fd = true
    /\ dispatch_one (mkEv fd flags) s1 = Some s' /\ log s' = log s /\ sock s' = sock s
    /\ is_watched (kernel s') fd = true /\ is_open (kernel s') fd = is_open (kernel s) fd.
Proof.
  intros I Hi Hfd Hne Hfull Hnone Hadd. unfold AddTransport. rewrite (proj2 (Z.eqb_neq i 0)) by (intros ->; done).
  rewrite Hfd. cbn [mbind option_bind]. rewrite (proj2 (Z.eqb_neq fd (-1))) by done.
  destruct (Holder.insert_ok mArray head alloc_invalid alloc_valid fd i (holder s) (pi_holder _ _ I)) as (h & -> & Ih & Ed);
    [by intros ->|]. cbn [mbind option_bind]. rewrite (proj2 (Nat.ltb_ge _ _)) in Ed by done.
  pose proof (add_open (kernel s) fd fd) as Ko. pose proof (add_watched (kernel s) fd fd) as Kw.
  destruct (epoll_add fd (kernel s)) as [ok k]. cbn [fst snd] in *. subst ok.
  rewrite Z.eqb_refl, orb_true_r in Kw. eexists _, _. split; [done|]. psimpl. split; [done|].
  unfold dispatch_one, Holder.fetch_at. cbn [ev_fd]. psimpl.
  pose proof (Holder.cut_ok mArray head alloc_valid fd h Ih) as C. unfold Holder.fetch.
  destruct (Holder.find_sock fd (Holder.mQueue h)) as [[q c]|].
  - destruct C as [C _]. congruence.
  - cbn [mbind option_bind]. split; [done|]. psimpl. done.
Qed.

(** ** No wake-up is lost

    The poller's thread and other threads that add timers and open or close
    transports, interleaved: [waiting] is the time at which the thread went to
    sleep and its timeout, if it sleeps; [adding] are the threads inside
    [AddTimedCallback] and [AddPeriodSignal].  What the thread does between two
    sleeps is one step; what a [handleClose] called by another thread does is
    steps of its own. *)

Record pstate := mkP { st : poller; waiting : option (timeval * Z); adding : list thread }.

Definition clear_log (s : poller) : poller :=
  mkPoller (holder s) (timers s) (kernel s) (sock s) (pipe s) [] (reads s).

(** The clock was not set back by more than three weeks since a timer was
    added. *)
Definition clock_sane (now : timeval) (q : TimedEventQ) : Prop :=
  forall p e, units q !! p = Some e -> us (tvAbsolute e) - us now <= 2000000 * MILLION.

Inductive pstep : pstate -> pstate -> Prop :=
| p_sleep s ts ms s' : clock_sane (clock (reads s)) (timers s) -> loop_sleep s = Some (ms, s') ->
    pstep (mkP s None ts) (mkP s' (Some (clock (reads s), ms)) ts)
| p_awake s w ts exit r o s' : result_ok (sock s) (exit, r) ->
    loop_awake exit r (clear_log s) = Some (o, s') -> o <> Some Stop ->
    pstep (mkP s (Some w) ts) (mkP s' None ts)
| p_callback s w ts ms h : 0 <= ms < 2 ^ 32 ->
    pstep (mkP s w ts) (mkP s w (AddTimedCallback_sections ms h :: ts))
| p_signal s w ts ms h : 0 <= ms < 2 ^ 32 ->
    pstep (mkP s w ts) (mkP s w (AddPeriodSignal_sections ms h :: ts))
| p_section s w ts f k ts' v s' : ts ≡ₚ Step f k :: ts' -> f s = Some (v, s') ->
    pstep (mkP s w ts) (mkP s' w (k v :: ts'))
| p_return s w ts v ts' : ts ≡ₚ Done v :: ts' -> pstep (mkP s w ts) (mkP s w ts')
| p_add s w ts i v s' : i ∈ D -> AddTransport i s = Some (v, s') -> pstep (mkP s w ts) (mkP s' w ts)
| p_close s w ts i v s' : i ∈ D -> i <> mWakeOn ->
    CloseTransport (fun _ s => Some s) i s = Some (v, s') -> pstep (mkP s w ts) (mkP s' w ts).

(** While the thread sleeps, no timer is added and the pipe is empty, the sleep
    ends before any timer is due. *)
Definition covered (s : poller) (w : option (timeval * Z)) : Prop :=
  match w with
  | None => True
  | Some (now, ms) => pipe s = [] -> forall p e, units (timers s) !! p = Some e ->
      0 <= ms /\ us now + ms * 1000 <= Z.max (us now) (us (tvAbsolute e))
  end.

(** A thread whose timer is in the queue, and which has yet to wake the poller. *)
Definition about_to_wake (t : thread) : Prop :=
  exists token v, t = Step (fun s => Some (0, wake token s)) (fun _ => Done v).

Inductive phase : thread -> Prop :=
| ph_callback ms h : 0 <= ms < 2 ^ 32 -> phase (AddTimedCallback_sections ms h)
| ph_signal ms h : 0 <= ms < 2 ^ 32 -> phase (AddPeriodSignal_sections ms h)
| ph_wake t : about_to_wake t -> phase t
| ph_done v : phase (Done v).

Definition covered_state (x : pstate) : Prop :=
  pinv (st x) [] /\ Forall phase (adding x) /\
  (Exists about_to_wake (adding x) \/ covered (st x) (waiting x)).

Lemma time_out_value now tv :
  norm now -> norm tv -> us tv - us now <= 2000000 * MILLION ->
  let r := time_interval tv now in
  s32 (s32 (tv_sec r * 1000) + Z.quot (tv_usec r) 1000) = Z.max 0 (us tv - us now) / 1000.
Proof.
  intros [Hs Hu] [Hs' Hu'] Hb. unfold time_interval. cbv zeta.
  unfold us, MILLION in *.
  rewrite (wraps_id 32 (tv_sec tv - _)), (wraps_id 32 (tv_usec tv - _)) by width_lia.
  destruct (Z.ltb_spec (tv_usec tv - tv_usec now) 0).
  - rewrite (wraps_id 32 (_ - 1)), (wraps_id 32 (_ + 1000000)) by width_lia.
    destruct (Z.ltb_spec (tv_sec tv - tv_sec now - 1) 0); cbn [tv_sec tv_usec TV_ZERO].
    + rewrite Z.max_l by lia. reflexivity.
    + rewrite Z.quot_div_nonneg by lia. rewrite (wraps_id 32 (_ * 1000)) by width_lia.
      rewrite wraps_id by div_lia. rewrite Z.max_r by lia. div_lia.
  - destruct (Z.ltb_spec (tv_sec tv - tv_sec now) 0); cbn [tv_sec tv_usec TV_ZERO].
    + rewrite Z.max_l by lia. reflexivity.
    + rewrite Z.quot_div_nonneg by lia. rewrite (wraps_id 32 (_ * 1000)) by width_lia.
      rewrite wraps_id by div_lia. rewrite Z.max_r by lia. div_lia.
Qed.

Lemma time_out_covers now q ms :
  wfq q [] -> norm now -> clock_sane now q -> time_out now q = Some ms ->
  forall p e, units q !! p = Some e -> 0 <= ms /\ us now + ms * 1000 <= Z.max (us now) (us (tvAbsolute e)).
Proof.
  intros W Hn Hsane E p e He. unfold time_out, timeToNextEvent, abstimeToNextEvent in E.
  assert (Hin : p ∈ mList q) by (rewrite <- (app_nil_r (mList q)); apply (wfq_live _ _ W); by eexists).
  destruct (mList q) as [|p0 l] eqn:El; [by apply elem_of_nil in Hin|].
  destruct (proj2 (wfq_live _ _ W p0)) as [e0 He0]; [rewrite El; set_solver|]. rewrite He0 in E.
  cbn [mbind option_bind] in E. injection E as <-.
  rewrite (time_out_value now (tvAbsolute e0)); [|done|by apply (wfq_units _ _ W p0 e0)|by apply (Hsane p0)].
  assert (us (tvAbsolute e0) <= us (tvAbsolute e)).
  { rewrite <- (dl_Some _ _ _ He0), <- (dl_Some _ _ _ He). pose proof (wfq_sorted _ _ W) as Hs. rewrite El in Hs.
    apply StronglySorted_inv in Hs as [_ Hx]. rewrite Forall_forall in Hx.
    apply elem_of_cons in Hin as [->|Hin]; [lia|by apply Hx]. }
  set (x := Z.max 0 _). assert (0 <= x) by lia. assert (x / 1000 * 1000 <= x) by div_lia. split; [div_lia|lia].
Qed.

(** Calls that leave the timers and the pipe alone. *)
Lemma AddTransport_still i s v s' : AddTransport i s = Some (v, s') -> timers s' = timers s /\ pipe s' = pipe s.
Proof.
  unfold AddTransport. destruct (i =? 0); [by intros [= <- <-]|]. intros (fd & _ & E)%bind_Some.
  destruct (fd =? -1); [by injection E as <- <-|]. apply bind_Some in E as ([r h] & _ & E).
  destruct (epoll_add _ _). by injection E as <- <-.
Qed.

Lemma CloseTransport_still i s v s' :
  CloseTransport (fun _ s => Some s) i s = Some (v, s') -> timers s' = timers s /\ pipe s' = pipe s.
Proof.
  unfold CloseTransport. destruct (i =? 0); [by intros [= <- <-]|]. intros (fd & _ & E)%bind_Some.
  destruct (fd =? -1); [by injection E as <- <-|]. apply bind_Some in E as ([r h] & _ & E). psimpl.
  destruct (epoll_del fd (kernel s)) as [[] k]; by injection E as <- <-.
Qed.

Lemma wake_nonempty token s : (0 < pipe_room)%nat -> pipe (wake token s) <> [].
Proof.
  intros Hr. unfold wake. destruct (Nat.ltb_spec (length (pipe s)) pipe_room); psimpl.
  - by destruct (pipe s).
  - destruct (pipe s); [simpl in *; lia|done].
Qed.

Lemma link_pinv s (r : option (Z * TimedEventQ)) tok q :
  pinv s [] -> call_done (timers s) [] (snd <$> r) -> r = Some (tok, q) -> pinv (read_clock (set_timers q s)) [].
Proof.
  intros I (q' & E & W & _) ->. injection E as <-. eapply pinv_same; [by eapply pinv_timers|done..].
Qed.

(** What a section of a thread does: it leaves the sleep covered, or the thread
    about to wake the poller. *)
Definition section_ok (s : poller) (w : option (timeval * Z)) (t : thread) (s' : poller) : Prop :=
  pinv s' [] /\ phase t /\ (about_to_wake t \/ (covered s w -> covered s' w)).

Lemma section_adds s w (r : option (Z * TimedEventQ)) token v s' :
  pinv s [] -> call_done (timers s) [] (snd <$> r) ->
  (forall tok q, r = Some (tok, q) -> tok = -1 -> q = timers s) ->
  ('(tok, q) ← r; Some (tok, read_clock (set_timers q s))) = Some (v, s') ->
  section_ok s w (if v =? -1 then Done v else Step (fun s => Some (0, wake token s)) (fun _ => Done v)) s'.
Proof.
  intros I Hd Href E. destruct r as [[tok q]|] eqn:Er; [|done]. injection E as <- <-.
  split; [by eapply link_pinv|]. destruct (Z.eqb_spec tok (-1)) as [->|].
  - split; [apply ph_done|]. right. rewrite (Href (-1) q) by done. done.
  - split; [apply ph_wake|left]; by do 2 eexists.
Qed.

Lemma waker_ok s w f k v s' :
  (0 < pipe_room)%nat -> pinv s [] -> about_to_wake (Step f k) -> f s = Some (v, s') ->
  pinv s' [] /\ phase (k v) /\ covered s' w.
Proof.
  intros Hroom I (token & u & E0) E. injection E0 as -> ->. injection E as <- <-.
  destruct (wake_same token s) as (E1 & E2 & E3 & E4 & _). split; [by eapply pinv_same|].
  split; [apply ph_done|]. destruct w as [[now ms]|]; [|done]. intros Hp. by destruct (wake_nonempty token s Hroom).
Qed.

Lemma phase_ok s w f k v s' :
  (0 < pipe_room)%nat -> pinv s [] -> phase (Step f k) -> f s = Some (v, s') -> section_ok s w (k v) s'.
Proof.
  intros Hroom I Hph E. pose proof (pi_timers _ _ I) as W. pose proof (wfq_token _ _ W) as H0.
  remember (Step f k) as t0 eqn:E0. destruct Hph as [ms h Hms|ms h Hms|t0 Hw|u]; [..|done].
  - unfold AddTimedCallback_sections in E0. destruct (_ || _); [done|]. injection E0 as <- <-.
    eapply section_adds; [done|by apply addLater_ok| |exact E].
    intros tok q E'. by eapply addLater_refused.
  - unfold AddPeriodSignal_sections in E0. destruct (_ || _); [done|]. injection E0 as <- <-.
    eapply section_adds; [done|by apply addPeriod_ok| |exact E].
    intros tok q E'. by eapply addPeriod_refused.
  - subst t0. destruct (waker_ok s w f k v s' Hroom I Hw E) as (H1 & H2 & H3). split; [done|]. split; [done|]. by right.
Qed.

Lemma pstep_covered x y : (0 < pipe_room)%nat -> pstep x y -> covered_state x -> covered_state y.
Proof.
  intros Hroom. destruct 1 as [s ts ms s' Hs E|s w ts exit r o s' Hr E Ho|s w ts ms h Hms|s w ts ms h Hms
    |s w ts f k ts' v s' Hp E|s w ts v ts' Hp|s w ts i v s' Hi E|s w ts i v s' Hi Hw E];
    intros (I & P & C); unfold covered_state; cbn [st waiting adding] in *.
  - unfold loop_sleep in E. apply bind_Some in E as (ms' & E1 & E). injection E as <- <-.
    split; [by eapply pinv_same|]. split; [done|]. right. intros _. psimpl. apply time_out_covers; try done.
    + apply (pi_timers _ _ I).
    + apply clock_ok.
  - assert (St : settled (sock s) [] (clear_log s)).
    { apply (settled_start (clear_log s)); [by eapply pinv_same|done]. }
    destruct (loop_awake_returns _ exit r _ Hr St) as (o2 & s2 & E' & St2). rewrite E in E'. injection E' as <- <-.
    split; [apply St2|]. split; [done|]. by right.
  - split; [done|]. split; [constructor; [by apply ph_callback|done]|]. destruct C as [C|C]; [left; by apply Exists_cons_tl|by right].
  - split; [done|]. split; [constructor; [by apply ph_signal|done]|]. destruct C as [C|C]; [left; by apply Exists_cons_tl|by right].
  - rewrite Hp in P, C. apply Forall_cons in P as [P0 P]. rewrite !Exists_cons in *.
    destruct (phase_ok s w f k v s' Hroom I P0 E) as (I' & Pv & Cv).
    split; [done|]. split; [by constructor|]. destruct C as [[C|C]|C]; [|tauto|tauto].
    right. by destruct (waker_ok s w f k v s' Hroom I C E) as (_ & _ & ?).
  - rewrite Hp in P, C. apply Forall_cons in P as [_ P]. rewrite Exists_cons in C.
    split; [done|]. split; [done|]. destruct C as [[(? & ? & ?)|C]|C]; [done|by left|by right].
  - destruct (AddTransport_ok i s [] I Hi) as (r & s2 & E' & I' & _). rewrite E in E'. injection E' as <- <-.
    destruct (AddTransport_still i s v s' E) as [Et Ep]. split; [done|]. split; [done|].
    unfold covered. rewrite Et, Ep. exact C.
  - destruct (CloseTransport_still i s v s' E) as [Et Ep]. split; [|split; [done|]].
    + destruct (CloseTransport_ok (fun _ s => Some s) i s [] I Hi Hw) as [(s2 & E' & I' & _)|(fd & s2 & _ & I' & E')].
      * rewrite E in E'. by injection E' as _ <-.
      * rewrite E in E'. by injection E' as _ <-.
    + unfold covered. rewrite Et, Ep. exact C.
Qed.

(** C30: No wake-up is lost.  The poller's thread runs its loop, its handlers
    add timers and add and close transports, and any number of other threads
    call [AddTimedCallback] and [AddPeriodSignal] and open and close transports,
    in any interleaving of their sections (nobody deletes a timer; an addition
    to the queue, with its token, is one section; the pipe takes at least one
    word).  Let no timer be due more than 2,000,000 seconds after the clock's
    reading whenever the thread goes to sleep, which holds unless the clock was
    set back.  Then whenever the poller sleeps and no other thread is between
    adding its timer and waking the poller, either the pipe, which the poller
    watches, has something to read, or the sleep ends before any pending timer is
    due. *)
Theorem no_lost_wakeup x y now ms :
  (0 < pipe_room)%nat -> pinv (st x) [] -> waiting x = None -> adding x = [] -> rtc pstep x y ->
  Forall (fun t => ~ about_to_wake t) (adding y) -> waiting y = Some (now, ms) ->
  (exists fd, sock (st y) !! mWakeOn = Some fd /\ is_watched (kernel (st y)) fd = true)
  /\ (pipe (st y) <> [] \/
      forall p e, units (timers (st y)) !! p = Some e ->
        0 <= ms /\ us now + ms * 1000 <= Z.max (us now) (us (tvAbsolute e))).
Proof.
  intros Hroom I Hx Hax Hrun Hn Hw. assert (C : covered_state y).
  { assert (C : covered_state x) by (split; [done|]; rewrite Hx, Hax; split; [constructor|by right]).
    clear -Hrun C Hroom alloc_invalid alloc_valid
      new_unit_fresh clock_ok D_nonzero reaction_ok. induction Hrun; [done|]. eauto using pstep_covered. }
  destruct C as (I' & _ & C). destruct (pi_wake _ _ I') as (fd & _ & E1 & _ & E2). split; [by exists fd|].
  destruct C as [C|C].
  { apply Exists_exists in C as (t & Ht & Hwt). rewrite Forall_forall in Hn. by destruct (Hn t Ht). }
  rewrite Hw in C. destruct (pipe (st y)) as [|z l] eqn:Ep; [|by left]. right. by apply C.
Qed.
End poller.

(** ** A concrete poller *)

Record fdset := mkFd { opened : gset Z; watched : gset Z }.

#[export] Instance fdset_kernel : Kernel fdset.
Proof.
  refine {| is_open k fd := bool_decide (fd ∈ opened k);
            is_watched k fd := bool_decide (fd ∈ watched k);
            epoll_add fd k := if bool_decide (fd ∈ opened k /\ fd ∉ watched k)
                              then (true, mkFd (opened k) ({[fd]} ∪ watched k)) else (false, k);
            epoll_del fd k := if bool_decide (fd ∈ watched k)
                              then (true, mkFd (opened k) (watched k ∖ {[fd]})) else (false, k);
            close_fd fd k := mkFd (opened k ∖ {[fd]}) (watched k ∖ {[fd]}) |}.
  all: intros k fd; try intros x; repeat case_bool_decide; simpl; try done;
    destruct (Z.eqb_spec x fd); repeat case_bool_decide; set_solver.
Defined.

(** The pipe is transport 60 with descriptor 3; transport 70 closes 71 when it
    is asked to read and sets a timer; closing 71 closes 70. *)
Definition some_reaction (c : hcall) : list pcall :=
  match c with
  | HRead 70 => [PClose 71; PLater 20 500]
  | HClose 71 => [PClose 70; PAdd 71]
  | _ => []
  end.
Definition some_socks : gmap Z Z := {[60 := 3; 70 := 7; 71 := 8]}.
Definition some_fds : fdset := mkFd {[3; 7; 8]} {[3; 7; 8]}.
Definition idle (h : @Holder.SocketHolder heap) (k : fdset) : poller :=
  mkPoller h (newQ noon) k some_socks [] [] 0.

Abbreviation some_pinv := (pinv 60 1000 100 (dom some_socks)).

Lemma some_reaction_ok c : Forall (pcall_ok 60 (dom some_socks)) (some_reaction c).
Proof.
  unfold some_reaction. destruct c as [i|i|i|h]; repeat case_match; repeat constructor; simpl; try lia;
    unfold some_socks; rewrite ?dom_insert_L; set_solver.
Qed.

Lemma some_dom : 0 ∉ dom some_socks.
Proof. rewrite not_elem_of_dom. by vm_compute. Qed.

Lemma idle_pinv h k :
  Holder.holder_inv 1000 100 h [] -> Holder.denote (Holder.mQueue h) !! 3 = Some 60 ->
  opened k = {[3; 7; 8]} -> 3 ∈ watched k -> some_pinv (idle h k) [].
Proof.
  intros I Ed Ho Hw. split; cbn [holder timers sock kernel idle]; [done|apply newQ_wfq|done| | |].
  - intros i fd Hi. right. unfold some_socks in Hi.
    assert (fd = 3 \/ fd = 7 \/ fd = 8).
    { repeat (apply lookup_insert_Some in Hi as [[_ <-]|[_ Hi]]; [auto|]). apply lookup_singleton_Some in Hi as [_ <-]. auto. }
    split; [lia|]. apply bool_decide_eq_true_2. rewrite Ho. set_solver.
  - intros i j fd Hi Hj _. unfold some_socks in Hi, Hj.
    repeat (apply lookup_insert_Some in Hi as [[<- <-]|[_ Hi]] || apply lookup_singleton_Some in Hi as [<- <-]);
      repeat (apply lookup_insert_Some in Hj as [[<- ?]|[_ Hj]] || apply lookup_singleton_Some in Hj as [<- ?]); done.
  - exists 3. split_and!; [lia|by vm_compute|done|]. by apply bool_decide_eq_true_2.
Qed.

Lemma some_holder : exists h : @Holder.SocketHolder heap,
  Holder.holder_inv 1000 100 h [] /\ Holder.denote (Holder.mQueue h) = <[8 := 71]> (<[7 := 70]> (<[3 := 60]> ∅)).
Proof.
  destruct (Holder.newHolder_ok 1000 100 eq_refl Holder.some_alloc_valid empty_heap) as (s0 & _ & I0 & E0).
  destruct (Holder.insert_ok 1000 100 eq_refl Holder.some_alloc_valid 3 60 s0 I0 ltac:(done)) as (s1 & _ & I1 & E1).
  rewrite E0 in E1. change (Holder.denote (Holder.mQueue s1) = <[3 := 60]> ∅) in E1.
  destruct (Holder.insert_ok 1000 100 eq_refl Holder.some_alloc_valid 7 70 s1 I1 ltac:(done)) as (s2 & _ & I2 & E2).
  rewrite E1 in E2. change (Holder.denote (Holder.mQueue s2) = <[7 := 70]> (<[3 := 60]> ∅)) in E2.
  destruct (Holder.insert_ok 1000 100 eq_refl Holder.some_alloc_valid 8 71 s2 I2 ltac:(done)) as (s3 & _ & I3 & E3).
  rewrite E2 in E3. by exists s3.
Qed.

Lemma some_idle : exists h : @Holder.SocketHolder heap, some_pinv (idle h some_fds) []
  /\ Holder.denote (Holder.mQueue h) = <[8 := 71]> (<[7 := 70]> (<[3 := 60]> ∅)).
Proof.
  destruct some_holder as (h & I & E). exists h. split; [|done]. apply idle_pinv; [done|by rewrite E|done|].
  cbn [watched some_fds]. set_solver.
Qed.

Lemma some_events_ok : Forall (ev_ok 60 some_socks) [mkEv 7 1; mkEv 8 1].
Proof. repeat constructor. Qed.

Lemma turn_safe_witness :
  exists (s s' : @poller heap fdset) o, sock s = some_socks
    /\ threadLoop bump noon2 60 16 some_reaction [(false, WInterrupted); (false, WEvents [mkEv 7 1; mkEv 8 1])] s = Some (o, s')
    /\ NoDup (closes (log s')).*1 /\ no_late_io (log s').
Proof.
  destruct some_idle as (h & I & _).
  destruct (turn_safe bump noon2 60 16 some_reaction 1000 100 eq_refl Holder.some_alloc_valid bump_fresh noon2_ok
    (dom some_socks) some_dom some_reaction_ok [(false, WInterrupted); (false, WEvents [mkEv 7 1; mkEv 8 1])]
    (idle h some_fds) I eq_refl) as (o & s' & E & _ & _ & Hn & _ & _ & Hl).
  - repeat constructor.
  - by exists (idle h some_fds), s', o.
Defined.

Lemma event_delivered_witness :
  exists (s s' : @poller heap fdset),
    dispatch bump noon2 60 16 some_reaction [mkEv 7 1; mkEv 8 1] s = Some s' /\ [Called (HRead 70)] `prefix_of` log s'.
Proof.
  destruct some_idle as (h & I & Ed).
  destruct (event_delivered bump noon2 60 16 some_reaction 1000 100 eq_refl Holder.some_alloc_valid bump_fresh noon2_ok
    (dom some_socks) some_dom some_reaction_ok [] (mkEv 7 1) [mkEv 8 1] (idle h some_fds) I eq_refl some_events_ok ltac:(simpl; lia))
    as (s1 & s' & [= <-] & E & Hd).
  exists (idle h some_fds), s'. split; [exact E|]. apply (Hd 70); [done| |done]. cbn [holder idle ev_fd]. rewrite Ed. by vm_compute.
Defined.

(** A table with [n] entries, among them the pipe's. *)
Lemma filled n : (0 < n <= 50)%nat -> exists h : @Holder.SocketHolder heap,
  Holder.holder_inv 1000 100 h [] /\ size (Holder.denote (Holder.mQueue h)) = n
  /\ Holder.denote (Holder.mQueue h) !! 3 = Some 60
  /\ forall fd, is_Some (Holder.denote (Holder.mQueue h) !! fd) -> fd = 3 \/ 100 < fd <= 100 + Z.of_nat n.
Proof.
  induction n as [|n IH]; [lia|]. intros Hn. destruct (decide (n = 0)%nat) as [->|Hne].
  - destruct (Holder.newHolder_ok 1000 100 eq_refl Holder.some_alloc_valid empty_heap) as (s0 & _ & I0 & E0).
    destruct (Holder.insert_ok 1000 100 eq_refl Holder.some_alloc_valid 3 60 s0 I0 ltac:(done)) as (s1 & _ & I1 & E1).
    rewrite E0 in E1. change (Holder.denote (Holder.mQueue s1) = {[3 := 60]}) in E1. exists s1. rewrite E1.
    split_and!; [done|by rewrite map_size_singleton|by rewrite lookup_singleton_eq|].
    intros fd [x Hx]. apply lookup_singleton_Some in Hx as [<- _]. by left.
  - destruct IH as (h & I & Hs & H3 & Hfd); [lia|]. set (fd := 100 + Z.of_nat (S n)).
    destruct (Holder.insert_ok 1000 100 eq_refl Holder.some_alloc_valid fd 80 h I ltac:(done)) as (h' & _ & I' & E').
    rewrite Hs, (proj2 (Nat.ltb_lt n 50)) in E' by lia. exists h'. rewrite E'.
    assert (Hnew : Holder.denote (Holder.mQueue h) !! fd = None).
    { apply eq_None_not_Some. intros Hx. destruct (Hfd fd Hx) as [?|?]; unfold fd in *; lia. }
    split_and!; [done| | |].
    + rewrite map_size_insert_None by done. by rewrite Hs.
    + rewrite lookup_insert_ne by (unfold fd; lia). done.
    + intros x Hx. destruct (decide (x = fd)) as [->|Hxne]; [right; unfold fd; lia|].
      rewrite lookup_insert_ne in Hx by done. destruct (Hfd x Hx); [by left|right; lia].
Qed.

Lemma full_table_starves_witness :
  exists s s1 s' : @poller heap fdset, AddTransport 70 s = Some (NO_ERROR, s1)
    /\ dispatch_one bump noon2 60 16 some_reaction (mkEv 7 1) s1 = Some s' /\ log s' = []
    /\ is_watched (kernel s') 7 = true.
Proof.
  destruct (filled 50) as (h & I & Hs & H3 & Hfd); [lia|]. set (k := mkFd {[3; 7; 8]} {[3]}).
  assert (I' : some_pinv (idle h k) []) by (apply idle_pinv; [done|done|done|cbn; set_solver]).
  destruct (full_table_starves bump noon2 60 16 some_reaction 1000 100 eq_refl Holder.some_alloc_valid
    (dom some_socks) some_dom (idle h k) 70 7 1 I') as (s1 & s' & E1 & _ & E2 & L & _ & Hw & _).
  - unfold some_socks. rewrite !dom_insert_L. set_solver.
  - done.
  - done.
  - cbn [holder idle]. lia.
  - apply eq_None_not_Some. intros Hx. destruct (Hfd 7 Hx); lia.
  - by vm_compute.
  - by exists (idle h k), s1, s'.
Defined.

Lemma no_lost_wakeup_witness :
  exists (y : @pstate heap fdset), adding y = [Done 1] /\ is_Some (waiting y) /\ pipe (st y) = [FUNC]
    /\ exists fd, is_watched (kernel (st y)) fd = true.
Proof.
  destruct some_idle as (h & I & _). set (s := idle h some_fds).
  set (step := pstep bump noon2 60 16 some_reaction (dom some_socks)).
  destruct (addLaterEvent bump (noon2 1%nat) 20 TIMED_CALLBACK 500 (newQ noon)) as [[tok q]|] eqn:E; [|by vm_compute in E].
  assert (tok = 1) as -> by (vm_compute in E; congruence).
  destruct (loop_sleep noon2 s) as [[ms s1]|] eqn:Es; [|by vm_compute in Es].
  assert (Hs1 : s1 = add_log (Waited ms) (read_clock s)) by (vm_compute in Es; by injection Es as <- <-).
  set (s2 := read_clock (set_timers q s1)).
  set (y := mkP (wake 16 FUNC s2) (Some (noon2 0%nat, ms)) [Done 1]).
  assert (Hrun : rtc step (mkP s None []) y).
  { eapply rtc_l; [apply (p_sleep _ _ _ _ _ _ s [] ms s1)|].
    { intros p e He. change ((∅ : gmap Z EventUnit) !! p = Some e) in He. by rewrite lookup_empty in He. }
    { exact Es. }
    eapply rtc_l; [apply (p_callback _ _ _ _ _ _ s1 _ [] 20 500); lia|].
    unfold AddTimedCallback_sections. cbn [Z.eqb orb].
    eapply rtc_l; [eapply (p_section _ _ _ _ _ _ s1 _ _ _ _ [] 1 s2); [reflexivity|]|].
    { cbn beta. assert (reads s1 = 1%nat) as -> by (by rewrite Hs1).
      assert (timers s1 = newQ noon) as -> by (by rewrite Hs1). by rewrite E. }
    cbn [Z.eqb]. apply rtc_once.
    apply (p_section _ _ _ _ _ _ s2 _ _ (fun s => Some (0, wake 16 FUNC s)) (fun _ => Done 1) [] 0); done. }
  destruct (no_lost_wakeup bump noon2 60 16 some_reaction 1000 100 eq_refl Holder.some_alloc_valid bump_fresh noon2_ok
    (dom some_socks) some_dom some_reaction_ok (mkP s None []) y (noon2 0%nat) ms ltac:(lia) I eq_refl eq_refl Hrun)
    as ((fd & _ & Hw) & _).
  - constructor; [|constructor]. by intros (? & ? & ?).
  - done.
  - exists y. split_and!; [done|by eexists|unfold y, s2; by rewrite Hs1|by exists fd].
Defined.
