(* ===== verification/VideoConf.v ===== *)
(** * libconf/VideoConfMix.cpp: the video conference

    The conference keeps its nodes in a list ordered by node type.  A turn of
    its thread pulls a picture from every node into the table [mMetas], hands
    the encoder's picture to every client and the camera's to the encoder, and
    pushes; the list may change while it mixes, so the turn is two critical
    sections with the mixing between them.  A picture is a buffer's address.
    Node types come from a header that is not part of the repository and are
    parameters; the sources rely on cameras coming before clients and clients
    before encoders.  [mClientNum] stays far from the width of an [int].  *)

From S2P Require Import Prelude.
From S2P Require AudioConf.

Definition MAX_VIDEO_CLIENT : Z := 2.
Definition MAX_VIDEO_CAMERA : Z := 1.
Definition MAX_VIDEO_ENCODER : Z := 1.
Definition MAX_VIDEO_ITEMS : nat := 4.

Record mixMeta := mkMeta { txBuffer : option Z; rxBuffer : option Z }.

Record vconf := mkVconf {
  mNodeList : list Z;
  mClientNum : Z;
  mEncoderNum : Z;
  mCameraNum : Z
}.

Section video.
Variable nodeType : Z -> Z.
Variable NODE_V_IP_RENDER NODE_V_CAMERA_SET NODE_V_ENCODER : Z.

Definition newVconf : vconf := mkVconf [] 0 0 0.
Definition newMetas : list mixMeta := replicate MAX_VIDEO_ITEMS (mkMeta None None).

(** The list is searched and written as in the audio conference. *)
Abbreviation insert_node := (AudioConf.insert_node nodeType).
Abbreviation erase_node := AudioConf.erase_node.

(** The third test of the source is the constant [NODE_V_ENCODER] itself. *)
Definition doInsertNode (node : Z) (c : vconf) : Z * vconf :=
  if node =? 0 then (UNKNOWN_ERROR, c)
  else
    let t := nodeType node in
    let l := insert_node node (mNodeList c) in
    if NODE_V_IP_RENDER =? t then
      if MAX_VIDEO_CLIENT <=? mClientNum c then (UNKNOWN_ERROR, c)
      else (NO_ERROR, mkVconf l (mClientNum c + 1) (mEncoderNum c) (mCameraNum c))
    else if NODE_V_CAMERA_SET =? t then
      if MAX_VIDEO_CAMERA <=? mCameraNum c then (UNKNOWN_ERROR, c)
      else (NO_ERROR, mkVconf l (mClientNum c) (mEncoderNum c) (u32 (mCameraNum c + 1)))
    else if negb (NODE_V_ENCODER =? 0) then
      if MAX_VIDEO_ENCODER <=? mEncoderNum c then (UNKNOWN_ERROR, c)
      else (NO_ERROR, mkVconf l (mClientNum c) (u32 (mEncoderNum c + 1)) (mCameraNum c))
    else (NO_ERROR, c).

Definition doRemoveNode (node : Z) (c : vconf) : Z * vconf :=
  if node =? 0 then (UNKNOWN_ERROR, c)
  else
    match erase_node node (mNodeList c) with
    | None => (UNKNOWN_ERROR, c)
    | Some l =>
        let t := nodeType node in
        (NO_ERROR,
         if NODE_V_IP_RENDER =? t then mkVconf l (mClientNum c - 1) (mEncoderNum c) (mCameraNum c)
         else if NODE_V_CAMERA_SET =? t then mkVconf l (mClientNum c) (mEncoderNum c) (u32 (mCameraNum c - 1))
         else if negb (NODE_V_ENCODER =? 0) then mkVconf l (mClientNum c) (u32 (mEncoderNum c - 1)) (mCameraNum c)
         else mkVconf l (mClientNum c) (mEncoderNum c) (mCameraNum c))
    end.

(** [reset], when the thread has ended ([err] is the answer of
    [requestExitAndWait]): the nodes stay. *)
Definition reset (err : Z) (c : vconf) : Z * vconf :=
  if negb (err =? NO_ERROR) then (err, c)
  else (err, mkVconf (mNodeList c) 0 (mEncoderNum c) (mCameraNum c)).

(** *** One round of [threadLoop] *)

(** The pulling section: [pulls] are the pictures the nodes give, in the order
    of the list ([None]: no picture).  [None] as the result is an access behind
    [mMetas]. *)
Fixpoint pull_loop (i : nat) (nodes : list Z) (pulls : list (option Z)) (m : list mixMeta) : option (list mixMeta) :=
  match nodes, pulls with
  | [], _ => Some m
  | _ :: nodes, p :: pulls => x ← m !! i; pull_loop (S i) nodes pulls (<[i := mkMeta (txBuffer x) p]> m)
  | _ :: _, [] => None
  end.

Record offsets := mkOff { offsetDec : Z; offsetEnc : Z }.

Definition pull_section (pulls : list (option Z)) (c : vconf) (m : list mixMeta) : option (offsets * list mixMeta) :=
  m ← pull_loop 0 (mNodeList c) pulls m;
  Some (mkOff (mCameraNum c) (mCameraNum c + mClientNum c), m).

Definition meta_at (m : list mixMeta) (i : Z) : option mixMeta :=
  if i <? 0 then None else m !! Z.to_nat i.
Definition set_tx (i : Z) (p : option Z) (m : list mixMeta) : option (list mixMeta) :=
  x ← meta_at m i; Some (<[Z.to_nat i := mkMeta p (rxBuffer x)]> m).

(** The mixing, outside the lock: [n] is [mClientNum] as it is read now. *)
Fixpoint mix_clients (n : nat) (i : Z) (o : offsets) (m : list mixMeta) : option (list mixMeta) :=
  match n with
  | O => Some m
  | S n => e ← meta_at m (offsetEnc o); m ← set_tx (offsetDec o + i) (rxBuffer e) m; mix_clients n (i + 1) o m
  end.

Definition mix (n : Z) (o : offsets) (m : list mixMeta) : option (list mixMeta) :=
  m ← mix_clients (Z.to_nat n) 0 o m;
  if negb (offsetDec o =? 0) then x ← m !! 0%nat; set_tx (offsetEnc o) (rxBuffer x) m else Some m.

Fixpoint push_loop (i : nat) (nodes : list Z) (m : list mixMeta) : option (list (Z * option Z)) :=
  match nodes with
  | [] => Some []
  | node :: nodes => x ← m !! i; r ← push_loop (S i) nodes m; Some ((node, txBuffer x) :: r)
  end.

(** The pushing section: nothing when the conference changed meanwhile. *)
Definition push_section (o : offsets) (c : vconf) (m : list mixMeta) : option (list (Z * option Z)) :=
  if negb (offsetDec o =? mCameraNum c) || negb (offsetEnc o =? mCameraNum c + mClientNum c) then Some []
  else push_loop 0 (mNodeList c) m.

(** The conference is [c1] while pulling, [c2] while mixing, [c3] while pushing. *)
Definition round (pulls : list (option Z)) (c1 c2 c3 : vconf) (m : list mixMeta)
  : option (list (Z * option Z) * list mixMeta) :=
  '(o, m) ← pull_section pulls c1 m;
  m ← mix (mClientNum c2) o m;
  r ← push_section o c3 m;
  Some (r, m).

(** ** Membership *)

Inductive kind := Client | Camera | Encoder.
#[local] Instance kind_eq_dec : EqDecision kind.
Proof. solve_decision. Defined.

(** What the conference takes a node for. *)
Definition kind_of (node : Z) : kind :=
  if NODE_V_IP_RENDER =? nodeType node then Client else if NODE_V_CAMERA_SET =? nodeType node then Camera else Encoder.
Definition of_kind (k : kind) (l : list Z) : list Z := filter (fun n => kind_of n = k) l.
Definition number (k : kind) (l : list Z) : Z := Z.of_nat (length (of_kind k l)).

Record vinv (c : vconf) : Prop := {
  vi_sorted : AudioConf.sorted_nodes nodeType (mNodeList c);
  vi_clients : mClientNum c = number Client (mNodeList c) /\ number Client (mNodeList c) <= MAX_VIDEO_CLIENT;
  vi_cameras : mCameraNum c = number Camera (mNodeList c) /\ number Camera (mNodeList c) <= MAX_VIDEO_CAMERA;
  vi_encoders : mEncoderNum c = number Encoder (mNodeList c) /\ number Encoder (mNodeList c) <= MAX_VIDEO_ENCODER
}.

Hypothesis encoder_nonzero : NODE_V_ENCODER <> 0.

Lemma number_perm k l1 l2 : l1 ≡ₚ l2 -> number k l1 = number k l2.
Proof. intros P. unfold number, of_kind. by rewrite P. Qed.

Lemma number_cons k x l : number k (x :: l) = (if decide (kind_of x = k) then 1 else 0) + number k l.
Proof. unfold number, of_kind. rewrite filter_cons. destruct (decide _); simpl; lia. Qed.

Lemma number_pos k l : 0 <= number k l.
Proof. unfold number. lia. Qed.

Lemma number_total l : Z.of_nat (length l) = number Client l + number Camera l + number Encoder l.
Proof.
  induction l as [|x l IH]; [done|]. rewrite !number_cons. cbn [length]. destruct (kind_of x); simpl; lia.
Qed.

Lemma length_nodes c : vinv c -> (length (mNodeList c) <= MAX_VIDEO_ITEMS)%nat.
Proof.
  intros [_ H1 H2 H3]. pose proof (number_total (mNodeList c)).
  unfold MAX_VIDEO_CLIENT, MAX_VIDEO_CAMERA, MAX_VIDEO_ENCODER, MAX_VIDEO_ITEMS in *. lia.
Qed.

Inductive video_op := VInsert (node : Z) | VRemove (node : Z).
Definition video_exec (o : video_op) (c : vconf) : Z * vconf :=
  match o with VInsert n => doInsertNode n c | VRemove n => doRemoveNode n c end.
Fixpoint video_run (os : list video_op) (c : vconf) : list Z * vconf :=
  match os with
  | [] => ([], c)
  | o :: os => let '(r, c) := video_exec o c in let '(rs, c) := video_run os c in (r :: rs, c)
  end.

Lemma insert_inv node c : vinv c -> vinv (doInsertNode node c).2.
Proof.
  intros I. pose proof I as [H1 H2 H3 H4]. unfold doInsertNode. destruct (node =? 0); [done|].
  pose proof (AudioConf.insert_node_sorted nodeType node _ H1) as Hs.
  assert (N : forall k, number k (insert_node node (mNodeList c))
                        = (if decide (kind_of node = k) then 1 else 0) + number k (mNodeList c)).
  { intros k. by rewrite (number_perm k _ _ (AudioConf.insert_node_perm nodeType node _)), number_cons. }
  pose proof (number_pos Camera (mNodeList c)). pose proof (number_pos Encoder (mNodeList c)).
  rewrite (proj2 (Z.eqb_neq NODE_V_ENCODER 0)) by done. cbn [negb].
  unfold kind_of, MAX_VIDEO_CLIENT, MAX_VIDEO_CAMERA, MAX_VIDEO_ENCODER in *.
  destruct (NODE_V_IP_RENDER =? nodeType node); [|destruct (NODE_V_CAMERA_SET =? nodeType node)].
  - destruct (Z.leb_spec 2 (mClientNum c)); [done|]. split; cbn [snd mNodeList mClientNum mCameraNum mEncoderNum]; [done|..];
      unfold MAX_VIDEO_CLIENT, MAX_VIDEO_CAMERA, MAX_VIDEO_ENCODER; rewrite N; simpl; lia.
  - destruct (Z.leb_spec 1 (mCameraNum c)); [done|]. rewrite wrapu_id by width_lia.
    split; cbn [snd mNodeList mClientNum mCameraNum mEncoderNum]; [done|..]; unfold MAX_VIDEO_CLIENT, MAX_VIDEO_CAMERA, MAX_VIDEO_ENCODER; rewrite N; simpl; lia.
  - destruct (Z.leb_spec 1 (mEncoderNum c)); [done|]. rewrite wrapu_id by width_lia.
    split; cbn [snd mNodeList mClientNum mCameraNum mEncoderNum]; [done|..]; unfold MAX_VIDEO_CLIENT, MAX_VIDEO_CAMERA, MAX_VIDEO_ENCODER; rewrite N; simpl; lia.
Qed.

Lemma remove_inv node c : vinv c -> vinv (doRemoveNode node c).2.
Proof.
  intros I. pose proof I as [H1 H2 H3 H4]. unfold doRemoveNode. destruct (node =? 0); [done|].
  pose proof (AudioConf.erase_node_spec nodeType node (mNodeList c)) as Hs.
  destruct (erase_node node (mNodeList c)) as [l|]; [|done]. destruct Hs as (l1 & l2 & El & -> & _).
  rewrite El in H1. apply AudioConf.sorted_erase in H1.
  assert (N : forall k, number k (mNodeList c) = (if decide (kind_of node = k) then 1 else 0) + number k (l1 ++ l2)).
  { intros k. rewrite El, (number_perm k (l1 ++ node :: l2) (node :: l1 ++ l2)) by (symmetry; apply Permutation_middle).
    apply number_cons. }
  rewrite N in H2, H3, H4. pose proof (number_pos Camera (l1 ++ l2)). pose proof (number_pos Encoder (l1 ++ l2)).
  rewrite (proj2 (Z.eqb_neq NODE_V_ENCODER 0)) by done. cbn [negb snd].
  unfold kind_of, MAX_VIDEO_CLIENT, MAX_VIDEO_CAMERA, MAX_VIDEO_ENCODER in *.
  destruct (NODE_V_IP_RENDER =? nodeType node); [|destruct (NODE_V_CAMERA_SET =? nodeType node)]; simpl in H2, H3, H4;
    split; cbn [mNodeList mClientNum mCameraNum mEncoderNum]; try done; rewrite ?wrapu_id by width_lia;
    unfold MAX_VIDEO_CLIENT, MAX_VIDEO_CAMERA, MAX_VIDEO_ENCODER; lia.
Qed.

Lemma run_inv os c : vinv c -> vinv (video_run os c).2.
Proof.
  revert c. induction os as [|o os IH]; intros c I; cbn [video_run]; [done|].
  assert (vinv (video_exec o c).2) as I' by (destruct o; [by apply insert_inv|by apply remove_inv]).
  destruct (video_exec o c) as [r c']. specialize (IH c' I'). by destruct (video_run os c').
Qed.

Lemma newVconf_inv : vinv newVconf.
Proof. split; simpl; [constructor|..]; split; done. Qed.

(** ** Rounds *)

Lemma pull_loop_ok nodes pulls i m :
  length nodes = length pulls -> (i + length nodes <= length m)%nat ->
  exists m', pull_loop i nodes pulls m = Some m' /\ length m' = length m.
Proof.
  revert pulls i m. induction nodes as [|n nodes IH]; intros [|p pulls] i m L Hi; try done; cbn [pull_loop]; [by exists m|].
  cbn [length] in *. destruct (lookup_lt_is_Some_2 m i) as [x ->]; [lia|]. cbn [mbind option_bind].
  destruct (IH pulls (S i) (<[i := mkMeta (txBuffer x) p]> m)) as (m' & -> & L'); [lia|rewrite length_insert; lia|].
  exists m'. by rewrite length_insert in L'.
Qed.

Lemma meta_at_ok m i : 0 <= i < Z.of_nat (length m) -> exists x, meta_at m i = Some x.
Proof.
  intros H. unfold meta_at. rewrite (proj2 (Z.ltb_ge _ _)) by lia. apply lookup_lt_is_Some_2. lia.
Qed.

Lemma set_tx_ok i p m : 0 <= i < Z.of_nat (length m) -> exists m', set_tx i p m = Some m' /\ length m' = length m.
Proof.
  intros H. unfold set_tx. destruct (meta_at_ok m i H) as [x ->]. eexists. split; [done|]. apply length_insert.
Qed.

Lemma mix_clients_ok n i o m :
  0 <= offsetEnc o < Z.of_nat (length m) -> 0 <= offsetDec o + i ->
  offsetDec o + i + Z.of_nat n <= Z.of_nat (length m) ->
  exists m', mix_clients n i o m = Some m' /\ length m' = length m.
Proof.
  revert i m. induction n as [|n IH]; intros i m H1 H2 H3; cbn [mix_clients]; [by exists m|].
  destruct (meta_at_ok m (offsetEnc o) H1) as [e ->]. cbn [mbind option_bind].
  destruct (set_tx_ok (offsetDec o + i) (rxBuffer e) m) as (m1 & -> & L1); [lia|]. cbn [mbind option_bind].
  destruct (IH (i + 1) m1) as (m' & -> & L'); [rewrite ?L1; lia..|]. exists m'. by rewrite L', L1.
Qed.

Lemma push_loop_ok i nodes m :
  (i + length nodes <= length m)%nat -> exists r, push_loop i nodes m = Some r /\ r.*1 = nodes.
Proof.
  revert i. induction nodes as [|n nodes IH]; intros i Hi; cbn [push_loop]; [by exists []|]. cbn [length] in Hi.
  destruct (lookup_lt_is_Some_2 m i) as [x ->]; [lia|]. cbn [mbind option_bind].
  destruct (IH (S i)) as (r & -> & E); [lia|]. cbn [mbind option_bind]. eexists. split; [done|]. cbn. by rewrite E.
Qed.

(** C33: A round of the video conference never leaves its table of four
    pictures, even when nodes join and leave between its pulling, its mixing
    and its pushing, as long as the conference was not reset: it comes to its
    end and pushes either nothing or one picture to every node. *)
Theorem video_round_safe os1 os2 os3 pulls m :
  let c1 := (video_run os1 newVconf).2 in let c2 := (video_run os2 c1).2 in let c3 := (video_run os3 c2).2 in
  length m = MAX_VIDEO_ITEMS -> length pulls = length (mNodeList c1) ->
  exists r m', round pulls c1 c2 c3 m = Some (r, m') /\ length m' = MAX_VIDEO_ITEMS
    /\ (r = [] \/ r.*1 = mNodeList c3).
Proof.
  intros c1 c2 c3 Lm Lp. pose proof (run_inv os1 _ newVconf_inv) as I1. fold c1 in I1.
  pose proof (run_inv os2 _ I1) as I2. fold c2 in I2. pose proof (run_inv os3 _ I2) as I3. fold c3 in I3.
  pose proof (length_nodes c1 I1) as L1. pose proof (length_nodes c3 I3) as L3.
  destruct I1 as [_ A1 A2 _], I2 as [_ B1 _ _].
  pose proof (number_pos Client (mNodeList c1)). pose proof (number_pos Camera (mNodeList c1)).
  pose proof (number_pos Client (mNodeList c2)).
  unfold MAX_VIDEO_CLIENT, MAX_VIDEO_CAMERA, MAX_VIDEO_ITEMS in *. unfold round, pull_section.
  destruct (pull_loop_ok (mNodeList c1) pulls 0 m) as (m1 & -> & E1); [done|lia|]. cbn [mbind option_bind].
  set (o := mkOff _ _). unfold mix.
  destruct (mix_clients_ok (Z.to_nat (mClientNum c2)) 0 o m1) as (m2 & -> & E2); [unfold o; cbn [offsetDec offsetEnc]; lia..|].
  cbn [mbind option_bind].
  assert (exists m3, (if negb (offsetDec o =? 0) then x ← m2 !! 0%nat; set_tx (offsetEnc o) (rxBuffer x) m2 else Some m2) = Some m3
            /\ length m3 = 4%nat) as (m3 & -> & E3).
  { destruct (negb _); [|exists m2; split; [done|lia]]. destruct (lookup_lt_is_Some_2 m2 0) as [x ->]; [lia|].
    cbn [mbind option_bind]. destruct (set_tx_ok (offsetEnc o) (rxBuffer x) m2) as (m3 & -> & E3); [unfold o; cbn [offsetEnc]; lia|].
    exists m3. split; [done|lia]. }
  cbn [mbind option_bind]. unfold push_section. destruct (_ || _); [by exists [], m3; auto|].
  destruct (push_loop_ok 0 (mNodeList c3) m3) as (r & -> & E); [lia|]. exists r, m3. auto.
Qed.

(** The order of the list when the types are ordered as the sources take them
    to be. *)
Lemma sorted_parts l :
  NODE_V_CAMERA_SET < NODE_V_IP_RENDER ->
  (forall n, n ∈ l -> kind_of n = Encoder -> NODE_V_IP_RENDER < nodeType n) ->
  AudioConf.sorted_nodes nodeType l -> l = of_kind Camera l ++ of_kind Client l ++ of_kind Encoder l.
Proof.
  intros Ho. induction l as [|x l IH]; intros He Hs; [done|]. apply StronglySorted_inv in Hs as [Hs Hx].
  rewrite Forall_forall in Hx. specialize (IH ltac:(set_solver) Hs).
  assert (Hnone : forall k, (forall n, n ∈ l -> kind_of n <> k) -> of_kind k l = []).
  { intros k Hk. unfold of_kind. apply filter_none, Forall_forall. exact Hk. }
  assert (Ht : forall n, match kind_of n with Client => nodeType n = NODE_V_IP_RENDER
                                         | Camera => nodeType n = NODE_V_CAMERA_SET | Encoder => True end).
  { intros n. unfold kind_of. destruct (Z.eqb_spec NODE_V_IP_RENDER (nodeType n)); [done|].
    by destruct (Z.eqb_spec NODE_V_CAMERA_SET (nodeType n)). }
  pose proof (Ht x) as Hxt. pose proof (He x ltac:(set_solver)) as Hxe.
  unfold of_kind in *. rewrite !filter_cons. destruct (kind_of x) eqn:Ek; simpl.
  - rewrite (Hnone Camera); [|intros n Hn E; pose proof (Ht n) as E'; rewrite E in E'; specialize (Hx n Hn); lia].
    rewrite (Hnone Camera) in IH; [|intros n Hn E; pose proof (Ht n) as E'; rewrite E in E'; specialize (Hx n Hn); lia].
    simpl. by f_equal.
  - by f_equal.
  - specialize (Hxe eq_refl). rewrite (Hnone Camera), (Hnone Client) in *;
      try (intros n Hn E; pose proof (Ht n) as E'; rewrite E in E'; specialize (Hx n Hn); lia). simpl. by f_equal.
Qed.

(** C34: When nobody joins or leaves during a round of a conference with a
    camera and an encoder, every client is given the encoder's picture and the
    encoder is given the camera's; the camera is given what the table held
    before. *)
Theorem video_round_mixes os cam enc pic m x0 :
  let c := (video_run os newVconf).2 in
  NODE_V_CAMERA_SET < NODE_V_IP_RENDER ->
  (forall n, n ∈ mNodeList c -> kind_of n = Encoder -> NODE_V_IP_RENDER < nodeType n) ->
  of_kind Camera (mNodeList c) = [cam] -> of_kind Encoder (mNodeList c) = [enc] ->
  length m = MAX_VIDEO_ITEMS -> m !! 0%nat = Some x0 ->
  exists m', round (map pic (mNodeList c)) c c c m
    = Some ((cam, txBuffer x0) :: map (fun n => (n, pic enc)) (of_kind Client (mNodeList c)) ++ [(enc, pic cam)], m').
Proof.
  intros c Ho He Hc Hn Lm H0. pose proof (run_inv os _ newVconf_inv) as [Hs H1 H2 _]. fold c in Hs, H1, H2.
  pose proof (sorted_parts _ Ho He Hs) as El. rewrite Hc, Hn in El.
  unfold number, MAX_VIDEO_CLIENT in H1, H2. rewrite Hc in H2. destruct H1 as [H1 Hle], H2 as [H2 _]. cbn [length] in H2.
  destruct m as [|m0 [|m1 [|m2 [|m3 [|]]]]]; try done. injection H0 as ->.
  unfold round, pull_section, mix, push_section. rewrite H1, H2.
  set (cl := of_kind Client (mNodeList c)) in *. clearbody cl. rewrite El. clear -Hle.
  destruct cl as [|a [|b [|d cl]]]; [..|cbn [length] in Hle; lia]; by eexists.
Qed.

End video.

(** ** A concrete conference

    Cameras are 10 to 19, clients 20 to 29, encoders 30 to 39; 40 is an audio
    node. *)

Definition some_type (n : Z) : Z := n / 10.
Abbreviation some_run := (video_run some_type 2 1 3).

(** Between pulling and pushing, a client leaves and another joins. *)
Lemma video_round_safe_witness :
  exists r m', round [None; Some 4; Some 5]
      (some_run [VInsert 31; VInsert 11; VInsert 21] newVconf).2
      (some_run [VRemove 21] (some_run [VInsert 31; VInsert 11; VInsert 21] newVconf).2).2
      (some_run [VInsert 22] (some_run [VRemove 21] (some_run [VInsert 31; VInsert 11; VInsert 21] newVconf).2).2).2
      newMetas = Some (r, m') /\ (r = [] \/ r.*1 = [11; 22; 31]).
Proof.
  destruct (video_round_safe some_type 2 1 3 ltac:(lia) [VInsert 31; VInsert 11; VInsert 21] [VRemove 21] [VInsert 22]
    [None; Some 4; Some 5] newMetas eq_refl eq_refl) as (r & m' & E & _ & H).
  exists r, m'. split; [exact E|exact H].
Defined.

Lemma video_round_mixes_witness :
  exists m', round [Some 100; Some 101; Some 102; Some 103]
      (some_run [VInsert 31; VInsert 21; VInsert 11; VInsert 22] newVconf).2
      (some_run [VInsert 31; VInsert 21; VInsert 11; VInsert 22] newVconf).2
      (some_run [VInsert 31; VInsert 21; VInsert 11; VInsert 22] newVconf).2 newMetas
    = Some ([(11, None); (21, Some 103); (22, Some 103); (31, Some 100)], m').
Proof.
  apply (video_round_mixes some_type 2 1 3 ltac:(lia) [VInsert 31; VInsert 21; VInsert 11; VInsert 22] 11 31
    (fun n => Some (if n =? 11 then 100 else if n =? 21 then 101 else if n =? 22 then 102 else 103)) newMetas (mkMeta None None)
    ltac:(lia)); try reflexivity.
  intros n Hn Hk. change (n ∈ [11; 21; 22; 31]) in Hn.
  repeat (apply elem_of_cons in Hn as [->|Hn]; [(by vm_compute in Hk) || by vm_compute|]). by apply elem_of_nil in Hn.
Defined.

(** After a reset the nodes are still in the list but no longer counted: more
    than four can join, and the next round leaves the table. *)
Definition after_reset : vconf :=
  (some_run [VInsert 23; VInsert 24] (reset NO_ERROR (some_run [VInsert 11; VInsert 21; VInsert 22; VInsert 31] newVconf).2).2).2.

Lemma reset_forgets_clients :
  mNodeList after_reset = [11; 21; 22; 23; 24; 31] /\ mClientNum after_reset = 2
  /\ pull_section (replicate 6 None) after_reset newMetas = None.
Proof. by vm_compute. Qed.

(** A node that is none of the three is taken for the encoder. *)
Lemma audio_node_takes_encoder :
  (some_run [VInsert 40; VInsert 31] newVconf).1 = [NO_ERROR; UNKNOWN_ERROR].
Proof. by vm_compute. Qed.
