(* ===== verification/Waiting.v ===== *)
(** * libconf/WaitingRoom.cpp and libconf/MOHPlayer.cpp: the waiting room

    Lines that wait for a conference hear music: in each round of its thread
    the room pulls a block from the player of music on hold, the first of its
    audio nodes, and pushes it to all others.  The player reads a file of
    16-bit samples over and over; [music] is the file's content and position.
    [FS_HZ], [EVENTTIME_MS], [EVENT_SAMPLES] and the node types come from a
    header that is not part of the repository and are parameters, clock
    readings are arguments.  The room's counters stay far from the width of an
    [int].  [None] is an access outside a buffer or a defect of [MetaBuffer]. *)

From S2P Require Import Prelude TokenPool MetaBuffer.
From S2P Require AudioConf TimeList.

Definition MILLION : Z := 1000000.
Definition n_ntp_time : cstr := [110; 116; 112; 45; 116; 105; 109; 101].
Definition n_samples : cstr := [115; 97; 109; 112; 108; 101; 115].

(** [fread] of [n] samples at [pos]: the bytes and the new position; fewer than
    asked for means that the end of the file was met. *)
Definition fread (n : Z) (file : bytes) (pos : nat) : bytes * nat :=
  let d := take (Z.to_nat (2 * n)) (drop pos file) in (d, (pos + length d)%nat).

(** The milliseconds of the day in 32 bits. *)
Definition GetTimeInMS (tv : TimeList.timeval) : Z :=
  u32 (TimeList.tv_sec tv * 1000 + Z.quot (TimeList.tv_usec tv) 1000).

Record MOHPlayer := mkMoh {
  music : option (bytes * nat);
  written : option bytes;
  firstRun : bool;
  eventTime : Z;
  eventSample : Z;
  timeStamp : Z
}.

Section player.
Variable sgn : bool.
Variable FS_HZ : Z.

(** The constructor and [initOpen]: [file] is [None] when the file cannot be
    opened, [stamp] is made of two [rand()]. *)
Definition newPlayer (timeInMs : Z) (file record : option bytes) (stamp : Z) : MOHPlayer :=
  mkMoh ((fun f => (f, O)) <$> file) record true (s32 timeInMs) (u32 (timeInMs * FS_HZ) / 1000) stamp.

Definition onStart (s : MOHPlayer) : Z * MOHPlayer :=
  (NO_ERROR, mkMoh (music s) (written s) true (eventTime s) (eventSample s) (timeStamp s)).
Definition onReset := onStart.

(** The file read into [data()]; at its end it is read again from the start,
    over what was read before. *)
Definition read_music (n : Z) (m : option (bytes * nat)) (b : MetaBuffer)
  : option (MetaBuffer * option (bytes * nat)) :=
  match m with
  | None => Some (b, None)
  | Some (file, pos) =>
      let '(d, pos) := fread n file pos in
      b ← data_put b 0 d;
      if Z.of_nat (length d) / 2 <? n then
        let '(d, pos) := fread n file 0 in
        b ← data_put b 0 d; Some (b, Some (file, pos))
      else Some (b, Some (file, pos))
  end.

(** [pullMedia] on a buffer that is not NULL, entered at [t1] and left at
    [t2]: the status, the milliseconds it sleeps, the buffer. *)
Definition pullMedia (t1 t2 : TimeList.timeval) (p : TokenPool) (b : MetaBuffer) (s : MOHPlayer)
  : option (Z * Z * TokenPool * MetaBuffer * MOHPlayer) :=
  if mCapacity b <? u32 (eventSample s * 2) then Some (BAD_VALUE, 0, p, b, s)
  else
    b ← data_put b 0 (replicate (Z.to_nat (u32 (2 * eventSample s))) 0);
    let timer := s32 (u32 (GetTimeInMS t1 - timeStamp s)) in
    let sleep := if firstRun s then 0 else if timer <? eventTime s then s32 (eventTime s - timer) else 0 in
    '(b, m) ← read_music (eventSample s) (music s) b;
    let stamp := GetTimeInMS t2 in
    '(p, b) ← setInt64 sgn n_ntp_time (Z.quot (s64 (stamp * FS_HZ)) 1000) p b;
    '(p, b) ← setInt32 sgn n_samples (s32 (eventSample s)) p b;
    Some (NO_ERROR, sleep, p, setRange 0 (u32 (eventSample s * 2)) b,
          mkMoh m (written s) false (eventTime s) (eventSample s) stamp).

Definition pushMedia (b : MetaBuffer) (s : MOHPlayer) : option (Z * MOHPlayer) :=
  if negb (mRangeLength b =? u32 (eventSample s * 2)) then Some (BAD_VALUE, s)
  else
    match written s with
    | None => Some (NO_ERROR, s)
    | Some w => d ← payload b;
        Some (NO_ERROR, mkMoh (music s) (Some (w ++ d)) (firstRun s) (eventTime s) (eventSample s) (timeStamp s))
    end.
End player.

(** ** The room *)

Record WaitingRoom := mkRoom {
  mAudioList : list Z;
  mVideoList : list Z;
  mAudioNum : Z;
  mVideoNum : Z;
  mClientNum : Z;
  strong : gmap Z Z
}.

Section room.
Variable nodeType : Z -> Z.
Variable NODE_A_IP_CODEC NODE_V_IP_RENDER : Z.

(** The constructor and [initMixer], with the player at [media]. *)
Definition newRoom (media : Z) : WaitingRoom := mkRoom [media] [] 0 0 0 (AudioConf.incStrong media ∅).

(** Nodes of other types are accepted and left out. *)
Definition doInsertNode (node : Z) (r : WaitingRoom) : Z * WaitingRoom :=
  if node =? 0 then (BAD_VALUE, r)
  else if nodeType node =? NODE_A_IP_CODEC then
    (NO_ERROR, mkRoom (mAudioList r ++ [node]) (mVideoList r) (mAudioNum r + 1) (mVideoNum r) (mClientNum r + 1)
                 (AudioConf.incStrong node (strong r)))
  else if nodeType node =? NODE_V_IP_RENDER then
    (NO_ERROR, mkRoom (mAudioList r) (mVideoList r ++ [node]) (mAudioNum r) (mVideoNum r + 1) (mClientNum r + 1)
                 (AudioConf.incStrong node (strong r)))
  else (NO_ERROR, r).

(** [mClientNum] is decremented whether or not the node was found. *)
Definition doRemoveNode (node : Z) (r : WaitingRoom) : Z * WaitingRoom :=
  if node =? 0 then (BAD_VALUE, r)
  else if nodeType node =? NODE_A_IP_CODEC then
    (NO_ERROR, match AudioConf.erase_node node (mAudioList r) with
               | Some l => mkRoom l (mVideoList r) (mAudioNum r - 1) (mVideoNum r) (mClientNum r - 1)
                             (AudioConf.decStrong node (strong r))
               | None => mkRoom (mAudioList r) (mVideoList r) (mAudioNum r) (mVideoNum r) (mClientNum r - 1) (strong r)
               end)
  else if nodeType node =? NODE_V_IP_RENDER then
    (NO_ERROR, match AudioConf.erase_node node (mVideoList r) with
               | Some l => mkRoom (mAudioList r) l (mAudioNum r) (mVideoNum r - 1) (mClientNum r - 1)
                             (AudioConf.decStrong node (strong r))
               | None => mkRoom (mAudioList r) (mVideoList r) (mAudioNum r) (mVideoNum r) (mClientNum r - 1) (strong r)
               end)
  else (BAD_VALUE, r).

(** The destructor. *)
Definition destroyRoom (r : WaitingRoom) : WaitingRoom :=
  mkRoom [] [] 0 0 0
    (fold_left (fun s n => AudioConf.decStrong n s) (mVideoList r)
       (fold_left (fun s n => AudioConf.decStrong n s) (mAudioList r) (strong r))).

(** One round of [threadLoop]: what each node is given.  [answers] are the
    statuses of the other nodes' [pullMedia] and [pushMedia], which are only
    logged.  When the player fails, the array behind [_buffer] is cleared. *)
Definition room_round (sgn : bool) (FS_HZ : Z) (t1 t2 : TimeList.timeval) (p : TokenPool) (b : MetaBuffer)
    (s : MOHPlayer) (r : WaitingRoom) : option (list (Z * bytes) * TokenPool * MetaBuffer * MOHPlayer) :=
  match mAudioList r with
  | [] => Some ([], p, b, s)
  | _ :: others =>
      '(err, _, p, b, s) ← pullMedia sgn FS_HZ t1 t2 p b s;
      let b := if err =? NO_ERROR then b else set_data (replicate (length (mData b)) 0) b in
      d ← payload b;
      Some (map (fun node => (node, d)) others, p, b, s)
  end.

(** The time to wait until the next round, of a round that began at [start]. *)
Definition wait_time (EVENTTIME_US : Z) (start now : TimeList.timeval) : TimeList.timeval :=
  let sec := s32 (TimeList.tv_sec start - TimeList.tv_sec now) in
  let usec := s32 (s32 (TimeList.tv_usec start + EVENTTIME_US) - TimeList.tv_usec now) in
  let '(sec, usec) := if usec <? 0 then (s32 (sec - 1), s32 (usec + MILLION)) else (sec, usec) in
  if sec <? 0 then TimeList.mkTv 0 0 else TimeList.mkTv sec usec.
End room.

(** ** The stream of music *)

Section stream.
Variable sgn : bool.
Variable FS_HZ : Z.
Variable file : bytes.
Variable k : Z.                        (* samples in a block *)
Hypothesis k_range : 0 < k < 2 ^ 30.
Abbreviation B := (Z.to_nat (2 * k)).
Hypothesis file_long : (B <= length file)%nat.
Variable o1 o2 : Z.

(** The blocks the file consists of, a rest apart. *)
Definition blocks : nat := length file / B.
Definition block (j : nat) : bytes := take B (drop (j * B) file).

Lemma B_pos : (0 < B)%nat.
Proof. lia. Qed.

Lemma blocks_pos : (0 < blocks)%nat.
Proof. unfold blocks. pose proof B_pos. apply Nat.div_str_pos. lia. Qed.

Lemma blocks_rest : (blocks * B <= length file < (blocks + 1) * B)%nat.
Proof.
  unfold blocks. pose proof (Nat.div_mod_eq (length file) B). pose proof (Nat.mod_upper_bound (length file) B). nia.
Qed.

Lemma block_length j : (j < blocks)%nat -> length (block j) = B.
Proof.
  intros Hj. unfold block. rewrite length_take, length_drop. pose proof blocks_rest. nia.
Qed.

(** The buffer between two rounds. *)
Record buffer_ok (b : MetaBuffer) : Prop := {
  bo_offset : mRangeOffset b = 0;
  bo_capacity : 2 * k <= mCapacity b;
  bo_data : (B <= length (mData b))%nat;
  bo_items : mItems b = [] \/ exists v1 v2,
    mItems b = [MetaBuffer.mkItem (Some o1) kTypeInt64 v1; MetaBuffer.mkItem (Some o2) kTypeInt32 v2]
}.

Lemma data_put_start bs b :
  mRangeOffset b = 0 -> (length bs <= length (mData b))%nat ->
  data_put b 0 bs = Some (set_data (bs ++ drop (length bs) (mData b)) b).
Proof.
  intros H0 L. unfold data_put. rewrite H0. by rewrite (store_behind [] (mData b) bs).
Qed.

Lemma read_music_at j b :
  (j <= blocks)%nat -> mRangeOffset b = 0 -> (B <= length (mData b))%nat ->
  let i := (if j <? blocks then j else O)%nat in
  exists d, read_music k (Some (file, j * B)%nat) b = Some (set_data (block i ++ d) b, Some (file, (i + 1) * B)%nat)
    /\ (length (block i ++ d) = length (mData b))%nat.
Proof.
  intros Hj H0 L i. unfold read_music, fread. pose proof blocks_rest. pose proof blocks_pos.
  set (d0 := take B (drop (j * B) file)). assert (Ld : (length d0 <= B)%nat) by (unfold d0; rewrite length_take; lia).
  rewrite data_put_start by (done || lia). cbn [mbind option_bind].
  destruct (Nat.ltb_spec j blocks) as [Hlt|Hge]; subst i.
  - change d0 with (block j) in *. rewrite block_length in * by done.
    rewrite (proj2 (Z.ltb_ge _ _)) by (rewrite Z2Nat.id by lia; rewrite Z.mul_comm, Z.div_mul; lia).
    exists (drop B (mData b)). replace (j * B + B)%nat with ((j + 1) * B)%nat by lia. split; [done|].
    rewrite length_app, block_length, length_drop by done. lia.
  - assert (j = blocks) as -> by lia.
    assert (Hshort : (length d0 < B)%nat) by (unfold d0; rewrite length_take, length_drop; nia).
    rewrite (proj2 (Z.ltb_lt _ _)) by (apply Z.div_lt_upper_bound; lia).
    rewrite drop_0. change (take B file) with (take B (drop (0 * B) file)). fold (block 0).
    rewrite data_put_start; cbn [mRangeOffset mData set_data]; [|done|].
    2:{ rewrite block_length by done. rewrite length_app, length_drop. lia. }
    cbn [mbind option_bind]. rewrite block_length by done. exists (drop B (d0 ++ drop (length d0) (mData b))).
    replace ((0 + 1) * B)%nat with (0 + B)%nat by lia. split; [done|].
    rewrite length_app, block_length, length_drop, length_app, length_drop by done. lia.
Qed.

(** The fields that the player writes. *)
Lemma label_ok p b v1 v2 :
  pool_ok sgn p -> tok p n_ntp_time o1 -> tok p n_samples o2 -> buffer_ok b ->
  exists b1 b2, setInt64 sgn n_ntp_time v1 p b = Some (p, b1) /\ setInt32 sgn n_samples v2 p b1 = Some (p, b2)
    /\ mData b2 = mData b /\ buffer_ok b2.
Proof.
  intros P T1 T2 [H1 H2 H3 H4]. pose proof (tok_ne p _ _ _ _ T1 T2 ltac:(done)) as Hne.
  unfold setInt64, setInt32.
  rewrite (set_hit sgn kTypeInt64 n_ntp_time v1 p o1 b P T1) by (destruct H4 as [->|(x1 & x2 & ->)]; simpl; lia).
  eexists. eexists. split; [done|].
  rewrite (set_hit sgn kTypeInt32 n_samples v2 p o2 _ P T2); cbn [mItems set_items].
  2:{ destruct H4 as [->|(x1 & x2 & ->)]; cbn [put_item mName]; [simpl; lia|].
      rewrite bool_decide_eq_true_2 by done. simpl. lia. }
  split; [done|]. split; [done|]. split; cbn [mRangeOffset mCapacity mData mItems set_items]; try done.
  right. exists v1, v2. destruct H4 as [->|(x1 & x2 & ->)]; cbn [put_item mName];
    repeat (first [rewrite bool_decide_eq_true_2 by done | rewrite bool_decide_eq_false_2 by congruence]; cbn [put_item mName]); done.
Qed.

Lemma pull_block t1 t2 p b s j :
  pool_ok sgn p -> tok p n_ntp_time o1 -> tok p n_samples o2 -> buffer_ok b ->
  eventSample s = k -> music s = Some (file, j * B)%nat -> (j <= blocks)%nat ->
  let i := (if j <? blocks then j else O)%nat in
  exists sleep b' s', pullMedia sgn FS_HZ t1 t2 p b s = Some (NO_ERROR, sleep, p, b', s')
    /\ buffer_ok b' /\ payload b' = Some (block i)
    /\ eventSample s' = k /\ music s' = Some (file, (i + 1) * B)%nat.
Proof.
  intros P T1 T2 Ob Ek Em Hj i. pose proof Ob as [H1 H2 H3 H4]. unfold pullMedia. rewrite Ek.
  rewrite (wrapu_id 32 (k * 2)), (wrapu_id 32 (2 * k)) by width_lia. rewrite (proj2 (Z.ltb_ge _ _)) by lia.
  rewrite data_put_start by (done || (rewrite length_replicate; lia)). cbn [mbind option_bind]. rewrite Em.
  rewrite length_replicate. set (b1 := set_data _ b).
  assert (L1 : length (mData b1) = length (mData b)).
  { unfold b1. cbn [mData set_data]. rewrite length_app, length_replicate, length_drop. lia. }
  destruct (read_music_at j b1 Hj) as (d & -> & Ld); [done|lia|]. cbn [mbind option_bind]. fold i in Ld |- *.
  assert (Hi : (i < blocks)%nat) by (unfold i; pose proof blocks_pos; destruct (Nat.ltb_spec j blocks); lia).
  destruct (label_ok p (set_data (block i ++ d) b1) (Z.quot (s64 (GetTimeInMS t2 * FS_HZ)) 1000) (s32 k) P T1 T2)
    as (b2 & b3 & -> & E & Ed & Ob3).
  { split; [done|done| |done]. cbn [mData set_data]. lia. }
  cbn [mbind option_bind]. rewrite E. cbn [mbind option_bind].
  eexists _, _, _. split; [reflexivity|]. cbn [mData set_data] in Ed. pose proof Ob3 as [G1 G2 G3 G4]. split; [by split|]. split; [|done].
  unfold payload, setRange. cbn [mRangeOffset mRangeLength mData]. rewrite Ed in *.
  rewrite (proj2 (Z.leb_le 0 0)) by lia. rewrite (proj2 (Z.leb_le _ _)) by lia.
  cbn [andb]. f_equal. change (Z.to_nat 0) with O. rewrite drop_0, (Z.mul_comm k 2).
  apply take_app_length'. by rewrite block_length.
Qed.

(** [n] rounds of the room's thread from round [i] on. *)
Fixpoint rounds (clock : nat -> TimeList.timeval * TimeList.timeval) (i n : nat) (p : TokenPool) (b : MetaBuffer)
    (s : MOHPlayer) (r : WaitingRoom) : option (list (list (Z * bytes))) :=
  match n with
  | O => Some []
  | S n =>
      '(out, p, b, s) ← room_round sgn FS_HZ (clock i).1 (clock i).2 p b s r;
      outs ← rounds clock (S i) n p b s r; Some (out :: outs)
  end.

(** C35: Those who wait hear the music: in its i-th round the waiting room
    gives every waiting line the same block of samples, which is block number
    i of the file, counted round and round over the whole blocks that the file
    has. *)
Theorem room_hears_music clock n p b s r media clients :
  pool_ok sgn p -> tok p n_ntp_time o1 -> tok p n_samples o2 -> buffer_ok b ->
  eventSample s = k -> music s = Some (file, O) -> mAudioList r = media :: clients ->
  rounds clock 0 n p b s r = Some (map (fun i => map (fun node => (node, block (i mod blocks))) clients) (seq 0 n)).
Proof.
  intros P T1 T2 Ob Ek Em Ea. assert (G : forall n' i b s j, buffer_ok b -> eventSample s = k ->
    music s = Some (file, j * B)%nat -> (j <= blocks)%nat -> (if (j <? blocks)%nat then j else O) = (i mod blocks)%nat ->
    rounds clock i n' p b s r = Some (map (fun i => map (fun node => (node, block (i mod blocks))) clients) (seq i n'))).
  { clear b s Ob Ek Em. induction n' as [|m IH]; intros i b s j Ob Ek Em Hj Hi; [done|]. cbn [rounds].
    unfold room_round. rewrite Ea.
    destruct (pull_block (clock i).1 (clock i).2 p b s j P T1 T2 Ob Ek Em Hj) as (sleep & b' & s' & -> & Ob' & Ep & Ek' & Em').
    cbn [mbind option_bind]. rewrite Z.eqb_refl, Ep. cbn [mbind option_bind].
    pose proof blocks_pos as Hb. rewrite Hi in *.
    assert (Hmod : (i mod blocks < blocks)%nat) by (apply Nat.mod_upper_bound; lia).
    rewrite (IH (S i) b' s' (i mod blocks + 1)%nat); try done; [lia|].
    replace (S i) with (i + 1)%nat by lia. rewrite (Nat.Div0.add_mod i 1).
    destruct (Nat.ltb_spec (i mod blocks + 1) blocks) as [Hlt|Hge].
    - rewrite (Nat.mod_small 1) by lia. symmetry. by apply Nat.mod_small.
    - destruct (decide (blocks = 1)%nat) as [E1|E1].
      + rewrite E1. by rewrite !Nat.mod_1_r.
      + rewrite (Nat.mod_small 1) by lia. replace (i mod blocks + 1)%nat with blocks by lia. by rewrite Nat.Div0.mod_same. }
  apply (G n O b s O); try done; [lia|]. pose proof blocks_pos. rewrite (proj2 (Nat.ltb_lt _ _)) by done.
  by rewrite Nat.Div0.mod_0_l.
Qed.
End stream.

(** ** Who waits *)

Section membership.
Variable nodeType : Z -> Z.
Variable NODE_A_IP_CODEC NODE_V_IP_RENDER : Z.
Variable media : Z.
Hypothesis media_type : nodeType media <> NODE_A_IP_CODEC.
Abbreviation occurrences := AudioConf.occurrences.
Abbreviation held := AudioConf.held.
Abbreviation insert := (doInsertNode nodeType NODE_A_IP_CODEC NODE_V_IP_RENDER).
Abbreviation remove := (doRemoveNode nodeType NODE_A_IP_CODEC NODE_V_IP_RENDER).

Inductive room_op := RInsert (node : Z) | RRemove (node : Z).
Definition room_exec (o : room_op) (r : WaitingRoom) : Z * WaitingRoom :=
  match o with RInsert n => insert n r | RRemove n => remove n r end.
Definition room_run (os : list room_op) (r : WaitingRoom) : WaitingRoom :=
  fold_left (fun r o => (room_exec o r).2) os r.

(** Removals of a line that does not wait here. *)
Definition miss (o : room_op) (r : WaitingRoom) : Z :=
  match o with
  | RInsert _ => 0
  | RRemove n =>
      if negb (n =? 0) && (((nodeType n =? NODE_A_IP_CODEC) && negb (bool_decide (n ∈ mAudioList r)))
        || (negb (nodeType n =? NODE_A_IP_CODEC) && (nodeType n =? NODE_V_IP_RENDER)
            && negb (bool_decide (n ∈ mVideoList r))))
      then 1 else 0
  end.
Fixpoint misses (os : list room_op) (r : WaitingRoom) : Z :=
  match os with [] => 0 | o :: os => miss o r + misses os (room_exec o r).2 end.

Record room_ok (r : WaitingRoom) : Prop := {
  ro_music : exists clients, mAudioList r = media :: clients;
  ro_audio : mAudioNum r + 1 = Z.of_nat (length (mAudioList r));
  ro_video : mVideoNum r = Z.of_nat (length (mVideoList r));
  ro_held n : held (strong r) n = occurrences (mAudioList r) n + occurrences (mVideoList r) n
}.

Lemma occurrences_snoc l x n : occurrences (l ++ [x]) n = (if decide (x = n) then 1 else 0) + occurrences l n.
Proof.
  rewrite (AudioConf.occurrences_perm (l ++ [x]) (x :: l)) by (symmetry; apply Permutation_cons_append).
  apply AudioConf.occurrences_cons.
Qed.

Lemma occurrences_erase l1 x l2 n :
  occurrences (l1 ++ x :: l2) n = (if decide (x = n) then 1 else 0) + occurrences (l1 ++ l2) n.
Proof.
  rewrite (AudioConf.occurrences_perm (l1 ++ x :: l2) (x :: l1 ++ l2)) by (symmetry; apply Permutation_middle).
  apply AudioConf.occurrences_cons.
Qed.

Lemma insert_room_ok n r : room_ok r -> room_ok (insert n r).2 /\
  mClientNum (insert n r).2 - (mAudioNum (insert n r).2 + mVideoNum (insert n r).2)
  = mClientNum r - (mAudioNum r + mVideoNum r).
Proof.
  intros R. pose proof R as [(cl & H1) H2 H3 H4]. unfold doInsertNode. destruct (n =? 0); [done|].
  assert (Hh : forall x, held (AudioConf.incStrong n (strong r)) x
            = (if decide (n = x) then 1 else 0) + held (strong r) x).
  { intros x. unfold AudioConf.incStrong. rewrite AudioConf.held_insert. destruct (decide (n = x)) as [->|]; lia. }
  destruct (nodeType n =? NODE_A_IP_CODEC); [|destruct (nodeType n =? NODE_V_IP_RENDER); [|done]];
    cbn [snd mClientNum mAudioNum mVideoNum]; (split; [|lia]);
    split; cbn [mAudioList mVideoList mAudioNum mVideoNum strong]; try done; rewrite ?length_app; cbn [length]; try lia.
  - exists (cl ++ [n]). by rewrite H1.
  - intros x. rewrite Hh, occurrences_snoc, H4. lia.
  - by exists cl.
  - intros x. rewrite Hh, occurrences_snoc, H4. lia.
Qed.

Lemma remove_room_ok n r : room_ok r -> room_ok (remove n r).2 /\
  mClientNum (remove n r).2 - (mAudioNum (remove n r).2 + mVideoNum (remove n r).2)
  = mClientNum r - (mAudioNum r + mVideoNum r) - miss (RRemove n) r.
Proof.
  intros R. pose proof R as [(cl & H1) H2 H3 H4]. unfold doRemoveNode, miss. destruct (n =? 0); [cbn; split; [done|lia]|].
  cbn [negb andb].
  assert (Hh : forall x, held (AudioConf.decStrong n (strong r)) x
            = held (strong r) x - (if decide (n = x) then 1 else 0)).
  { intros x. unfold AudioConf.decStrong. rewrite AudioConf.held_insert. destruct (decide (n = x)) as [->|]; lia. }
  destruct (Z.eqb_spec (nodeType n) NODE_A_IP_CODEC) as [Ht|Ht]; [|destruct (nodeType n =? NODE_V_IP_RENDER)]; cbn [negb andb orb].
  - pose proof (AudioConf.erase_node_spec nodeType n (mAudioList r)) as Hs.
    destruct (AudioConf.erase_node n (mAudioList r)) as [l|]; cbn [snd mClientNum mAudioNum mVideoNum].
    + destruct Hs as (l1 & l2 & El & -> & Hn). rewrite bool_decide_eq_true_2 by (rewrite El; set_solver).
      cbn [negb orb]. split; [|lia].
      split; cbn [mAudioList mVideoList mAudioNum mVideoNum strong]; try done.
      * destruct l1 as [|y l1]; [exfalso; apply media_type|exists (l1 ++ l2)]; cbn [app] in *; rewrite H1 in El.
        -- by injection El as -> _.
        -- by injection El as <- _.
      * rewrite El in H2. rewrite length_app in *. cbn [length] in H2. lia.
      * intros x. rewrite Hh, H4, El, occurrences_erase. lia.
    + rewrite bool_decide_eq_false_2 by done. cbn [negb orb]. split; [|lia]. by split; [exists cl|..].
  - pose proof (AudioConf.erase_node_spec nodeType n (mVideoList r)) as Hs.
    destruct (AudioConf.erase_node n (mVideoList r)) as [l|]; cbn [snd mClientNum mAudioNum mVideoNum].
    + destruct Hs as (l1 & l2 & El & -> & Hn). rewrite bool_decide_eq_true_2 by (rewrite El; set_solver).
      cbn [negb orb]. split; [|lia].
      split; cbn [mAudioList mVideoList mAudioNum mVideoNum strong]; try done.
      * by exists cl.
      * rewrite El in H3. rewrite length_app in *. cbn [length] in H3. lia.
      * intros x. rewrite Hh, H4, El, occurrences_erase. lia.
    + rewrite bool_decide_eq_false_2 by done. cbn [negb orb]. split; [|lia]. by split; [exists cl|..].
  - cbn [snd]. split; [done|lia].
Qed.

Lemma room_run_ok os r : room_ok r -> room_ok (room_run os r) /\
  mClientNum (room_run os r) - (mAudioNum (room_run os r) + mVideoNum (room_run os r))
  = mClientNum r - (mAudioNum r + mVideoNum r) - misses os r.
Proof.
  revert r. induction os as [|o os IH]; intros r R; [split; [done|simpl; lia]|].
  cbn [room_run fold_left misses]. fold (room_run os (room_exec o r).2).
  assert (room_ok (room_exec o r).2 /\ mClientNum (room_exec o r).2 - (mAudioNum (room_exec o r).2 + mVideoNum (room_exec o r).2)
    = mClientNum r - (mAudioNum r + mVideoNum r) - miss o r) as [R' E'].
  { destruct o as [n|n]; [|by apply remove_room_ok]. destruct (insert_room_ok n r R) as [R' E']. split; [done|].
    cbn [room_exec miss]. lia. }
  destruct (IH _ R') as [R'' E'']. split; [done|]. lia.
Qed.

(** Whatever lines join and leave the waiting room, the music stays at the
    head of its audio nodes, its two counters agree with its lists, every line
    is held by one reference per place and all references are given back by the
    destructor; the number of clients it tells the conference is the number of
    lines less one for every removal of a line that was not there. *)
Theorem waiting_room_membership os :
  let r := room_run os (newRoom media) in
  (exists clients, mAudioList r = media :: clients /\ mAudioNum r = Z.of_nat (length clients))
  /\ mVideoNum r = Z.of_nat (length (mVideoList r))
  /\ mClientNum r = mAudioNum r + mVideoNum r - misses os (newRoom media)
  /\ (forall n, held (strong r) n = occurrences (mAudioList r) n + occurrences (mVideoList r) n)
  /\ (forall n, held (strong (destroyRoom r)) n = 0).
Proof.
  intros r. assert (R0 : room_ok (newRoom media)).
  { split; cbn [newRoom mAudioList mVideoList mAudioNum mVideoNum strong]; [by exists []|done|done|].
    intros n. unfold AudioConf.incStrong. rewrite AudioConf.held_insert, AudioConf.occurrences_cons. by destruct (decide _). }
  destruct (room_run_ok os _ R0) as [[(cl & H1) H2 H3 H4] E]. fold r in H1, H2, H3, H4, E.
  cbn [newRoom mClientNum mAudioNum mVideoNum] in E. split_and!; [|done|lia|done|].
  - exists cl. split; [done|]. rewrite H1 in H2. cbn [length] in H2. lia.
  - intros n. unfold destroyRoom. cbn [strong]. rewrite !AudioConf.destroy_none, H4. lia.
Qed.
End membership.

(** ** Pacing *)

(** In the second in which it began, a round waits for the rest of its
    interval... *)
Lemma wait_time_same_second EVENTTIME_US start now :
  0 <= EVENTTIME_US < MILLION -> 0 <= TimeList.tv_usec start < MILLION ->
  TimeList.tv_sec now = TimeList.tv_sec start -> TimeList.tv_usec start <= TimeList.tv_usec now < MILLION ->
  wait_time EVENTTIME_US start now =
    TimeList.mkTv 0 (Z.max 0 (TimeList.tv_usec start + EVENTTIME_US - TimeList.tv_usec now)).
Proof.
  unfold MILLION. intros He Hs Hsec Hu. unfold wait_time, MILLION. rewrite Hsec, Z.sub_diag. change (s32 0) with 0.
  rewrite (wraps_id 32 (TimeList.tv_usec start + _)), (wraps_id 32 (_ - TimeList.tv_usec now)) by width_lia.
  destruct (Z.ltb_spec (TimeList.tv_usec start + EVENTTIME_US - TimeList.tv_usec now) 0).
  - rewrite wraps_id by width_lia. cbn [Z.sub Z.opp Z.add]. by rewrite Z.max_l by lia.
  - by rewrite Z.max_r by lia.
Qed.

(** ... but not when the clock has passed to the next second meanwhile. *)
Lemma wait_time_next_second :
  wait_time 20000 (TimeList.mkTv 5 995000) (TimeList.mkTv 6 1000) = TimeList.mkTv 0 0.
Proof. reflexivity. Qed.

(** ** Instances *)

Definition some_file : bytes := [1; 2; 3; 4; 5; 6; 7].
Definition line_type (n : Z) : Z := n / 10.

Lemma waiting_names : exists p o1 o2, pool_ok true p /\ tok p n_ntp_time o1 /\ tok p n_samples o2.
Proof.
  destruct (atomize_all_ok true [n_ntp_time; n_samples] [n_ntp_time; n_samples] newPool [] (newPool_ok true) newPool_accounted)
    as (offs & p & D & _ & P & _ & _ & _ & F).
  - set_solver.
  - vm_compute. reflexivity.
  - repeat constructor; try lia; set_solver.
  - inversion F as [|? o1 ? l1 T1 F1]; subst. inversion F1 as [|? o2 ? l2 T2 F2]; subst. by exists p, o1, o2.
Qed.

(** Blocks of one sample: the file has three, and a byte that is never heard. *)
Lemma room_hears_music_witness :
  exists p b, rounds true 8000 (fun _ => (TimeList.mkTv 5 0, TimeList.mkTv 5 1000)) 0 4 p b
      (mkMoh (Some (some_file, O)) None true 20 1 0) (mkRoom [9; 31; 32] [] 2 0 2 ∅)
    = Some [[(31, [1; 2]); (32, [1; 2])]; [(31, [3; 4]); (32, [3; 4])]; [(31, [5; 6]); (32, [5; 6])]; [(31, [1; 2]); (32, [1; 2])]].
Proof.
  destruct waiting_names as (p & o1 & o2 & P & T1 & T2). exists p, (mkBuf [0; 0] 2 0 2 0 true 0 []).
  apply (room_hears_music true 8000 some_file 1 ltac:(lia) ltac:(simpl; lia) o1 o2
    (fun _ => (TimeList.mkTv 5 0, TimeList.mkTv 5 1000)) 4 p (mkBuf [0; 0] 2 0 2 0 true 0 [])
    (mkMoh (Some (some_file, O)) None true 20 1 0) (mkRoom [9; 31; 32] [] 2 0 2 ∅) 9 [31; 32] P T1 T2); try reflexivity.
  split; [done|cbn; lia|simpl; lia|by left].
Defined.

Lemma waiting_room_membership_witness :
  let r := room_run line_type 3 4 [RInsert 31; RInsert 41; RRemove 32; RRemove 31] (newRoom 9) in
  mAudioList r = [9] /\ mVideoList r = [41] /\ mClientNum r = mAudioNum r + mVideoNum r - 1.
Proof.
  destruct (waiting_room_membership line_type 3 4 9 ltac:(done) [RInsert 31; RInsert 41; RRemove 32; RRemove 31])
    as (_ & _ & E & _).
  split; [reflexivity|]. split; [reflexivity|exact E].
Defined.
