(* ===== verification/Compound.v ===== *)
(** * libconf/CompoundMix.cpp: audio and video conference together

    A full conference is an audio and a video conference; nodes go to one or the
    other by the class in their type, and the number of clients is the sum.
    What it asks of the two is the class [ConfMix], which [AudioConf] and
    [VideoConf] implement: the base class's [insertNode] and [removeNode], in a
    header that is not part of the repository, stand for [doInsertNode] and
    [doRemoveNode].  The answers of [Thread::run] and [requestExitAndWait] are
    arguments. *)

From S2P Require Import Prelude.
From S2P Require AudioConf VideoConf.

Class ConfMix (S : Type) := {
  cm_insert : Z -> S -> Z * S;
  cm_remove : Z -> S -> Z * S;
  cm_clients : S -> Z;
  cm_start : Z -> S -> Z * S;
  cm_reset : Z -> S -> Z * S;
  cm_insert_refused n s : (cm_insert n s).1 <> NO_ERROR -> cm_clients (cm_insert n s).2 = cm_clients s;
  cm_remove_refused n s : (cm_remove n s).1 <> NO_ERROR -> cm_clients (cm_remove n s).2 = cm_clients s
}.

Section compound.
Context {A V : Type} {AM : ConfMix A} {VM : ConfMix V}.
Variable nodeType : Z -> Z.
Variable NODE_CLASS_MASK NODE_A_CLASS NODE_V_CLASS : Z.

Record CompoundMix := mkCompound {
  mAudioMix : option A;
  mVideoMix : option V;
  mClientNum : Z
}.

(** [create], given what the parts' [create] answer. *)
Definition create (a : option A) (v : option V) : option CompoundMix :=
  match a, v with Some a, Some v => Some (mkCompound (Some a) (Some v) 0) | _, _ => None end.

Definition reset (erra errv : Z) (c : CompoundMix) : Z * CompoundMix :=
  (NO_ERROR, mkCompound ((fun a => (cm_reset erra a).2) <$> mAudioMix c)
               ((fun v => (cm_reset errv v).2) <$> mVideoMix c) (mClientNum c)).

(** [ra] and [rv] are the answers of [run] in the parts; [None]: a part is
    missing. *)
Definition start (ra rv erra errv : Z) (c : CompoundMix) : option (Z * CompoundMix) :=
  a ← mAudioMix c;
  let '(err, a) := cm_start ra a in
  let c := mkCompound (Some a) (mVideoMix c) (mClientNum c) in
  if negb (err =? NO_ERROR) then Some (err, (reset erra errv c).2)
  else
    v ← mVideoMix c;
    if negb (cm_clients v =? 0) then
      let '(err, v) := cm_start rv v in
      let c := mkCompound (mAudioMix c) (Some v) (mClientNum c) in
      Some (err, if negb (err =? NO_ERROR) then (reset erra errv c).2 else c)
    else Some (NO_ERROR, c).

Definition doUpdateClientNum (c : CompoundMix) : Z * CompoundMix :=
  match mAudioMix c, mVideoMix c with
  | Some a, Some v => (NO_ERROR, mkCompound (mAudioMix c) (mVideoMix c) (cm_clients a + cm_clients v))
  | Some a, None => (NO_ERROR, mkCompound (mAudioMix c) (mVideoMix c) (cm_clients a))
  | None, Some v => (NO_ERROR, mkCompound (mAudioMix c) (mVideoMix c) (cm_clients v))
  | None, None => (UNKNOWN_ERROR, c)
  end.

Definition node_class (node : Z) : Z := Z.land (nodeType node) NODE_CLASS_MASK.

(** [doInsertNode] and [doRemoveNode] differ in the parts' operation only. *)
Definition forward (on_a : Z -> A -> Z * A) (on_v : Z -> V -> Z * V) (node : Z) (c : CompoundMix) : Z * CompoundMix :=
  if node =? 0 then (BAD_VALUE, c)
  else
    let '(err, c) :=
      if node_class node =? NODE_A_CLASS then
        match mAudioMix c with
        | None => (NO_INIT, c)
        | Some a => let '(err, a) := on_a node a in (err, mkCompound (Some a) (mVideoMix c) (mClientNum c))
        end
      else if node_class node =? NODE_V_CLASS then
        match mVideoMix c with
        | None => (NO_INIT, c)
        | Some v => let '(err, v) := on_v node v in (err, mkCompound (mAudioMix c) (Some v) (mClientNum c))
        end
      else (UNKNOWN_ERROR, c) in
    if negb (err =? NO_ERROR) then (err, c) else doUpdateClientNum c.

Definition doInsertNode : Z -> CompoundMix -> Z * CompoundMix := forward cm_insert cm_insert.
Definition doRemoveNode : Z -> CompoundMix -> Z * CompoundMix := forward cm_remove cm_remove.

(** ** Runs *)

Inductive comp_op := CInsert (node : Z) | CRemove (node : Z).
Definition comp_exec (o : comp_op) (c : CompoundMix) : Z * CompoundMix :=
  match o with CInsert n => doInsertNode n c | CRemove n => doRemoveNode n c end.
Definition comp_run (os : list comp_op) (c : CompoundMix) : CompoundMix :=
  fold_left (fun c o => (comp_exec o c).2) os c.

(** The same calls on one part. *)
Definition part_exec {S} {SM : ConfMix S} (o : comp_op) (s : S) : Z * S :=
  match o with CInsert n => cm_insert n s | CRemove n => cm_remove n s end.
Definition part_run {S} {SM : ConfMix S} (os : list comp_op) (s : S) : S :=
  fold_left (fun s o => (part_exec o s).2) os s.

Definition op_node (o : comp_op) : Z := match o with CInsert n | CRemove n => n end.
Definition for_audio (o : comp_op) : bool := negb (op_node o =? 0) && (node_class (op_node o) =? NODE_A_CLASS).
Definition for_video (o : comp_op) : bool :=
  negb (op_node o =? 0) && negb (node_class (op_node o) =? NODE_A_CLASS) && (node_class (op_node o) =? NODE_V_CLASS).

Definition counts (c : CompoundMix) (a : A) (v : V) : Prop :=
  mAudioMix c = Some a /\ mVideoMix c = Some v /\ mClientNum c = cm_clients a + cm_clients v.

Lemma part_refused {S} {SM : ConfMix S} o (s : S) :
  (part_exec o s).1 <> NO_ERROR -> cm_clients (part_exec o s).2 = cm_clients s.
Proof. destruct o; [apply cm_insert_refused|apply cm_remove_refused]. Qed.

Lemma comp_exec_ok o c a v :
  counts c a v ->
  counts (comp_exec o c).2 (if for_audio o then (part_exec o a).2 else a) (if for_video o then (part_exec o v).2 else v).
Proof.
  intros (Ea & Ev & En). pose proof (part_refused o a) as Ra. pose proof (part_refused o v) as Rv.
  unfold for_audio, for_video. assert (G : forall on_a on_v, on_a (op_node o) a = part_exec o a -> on_v (op_node o) v = part_exec o v ->
    counts (forward on_a on_v (op_node o) c).2
      (if negb (op_node o =? 0) && (node_class (op_node o) =? NODE_A_CLASS) then (part_exec o a).2 else a)
      (if negb (op_node o =? 0) && negb (node_class (op_node o) =? NODE_A_CLASS) && (node_class (op_node o) =? NODE_V_CLASS)
       then (part_exec o v).2 else v)).
  { intros on_a on_v Ha Hv. unfold forward. destruct (op_node o =? 0); [done|]. cbn [negb andb].
    destruct (node_class (op_node o) =? NODE_A_CLASS); cbn [negb andb]; [|destruct (node_class (op_node o) =? NODE_V_CLASS); [|done]].
    - rewrite Ea, Ha. destruct (part_exec o a) as [err a']. cbn [fst snd] in *.
      destruct (Z.eqb_spec err NO_ERROR) as [->|Hne]; cbn [negb].
      + unfold doUpdateClientNum. cbn [mAudioMix mVideoMix]. by rewrite Ev.
      + unfold counts. cbn [snd mAudioMix mVideoMix mClientNum]. split_and!; [done|done|]. by rewrite (Ra Hne).
    - rewrite Ev, Hv. destruct (part_exec o v) as [err v']. cbn [fst snd] in *.
      destruct (Z.eqb_spec err NO_ERROR) as [->|Hne]; cbn [negb].
      + unfold doUpdateClientNum. cbn [mAudioMix mVideoMix]. by rewrite Ea.
      + unfold counts. cbn [snd mAudioMix mVideoMix mClientNum]. split_and!; [done|done|]. by rewrite (Rv Hne). }
  by destruct o; apply G.
Qed.

(** C32: Whatever nodes join and leave a full conference, its audio part is the
    audio conference that only the audio nodes had joined and left, its video
    part the one of the video nodes, nodes of other classes are refused, and
    the number of clients is the sum of the parts'. *)
Theorem compound_is_pair os a v :
  exists c, create (Some a) (Some v) = Some c
    /\ (cm_clients a + cm_clients v = 0 ->
        counts (comp_run os c) (part_run (filter (fun o => for_audio o = true) os) a)
          (part_run (filter (fun o => for_video o = true) os) v)).
Proof.
  eexists. split; [reflexivity|]. intros H0.
  assert (C : counts (mkCompound (Some a) (Some v) 0) a v) by (split_and!; done || (symmetry; exact H0)).
  revert C. generalize (mkCompound (Some a) (Some v) 0). clear H0. intros c. revert c a v.
  induction os as [|o os IH]; intros c a v C; [done|]. rewrite !filter_cons.
  pose proof (comp_exec_ok o c a v C) as C'. specialize (IH _ _ _ C').
  destruct (for_audio o), (for_video o); exact IH.
Qed.

(** A start that fails leaves both parts reset. *)
Lemma start_fails_reset ra rv erra errv c err c' :
  start ra rv erra errv c = Some (err, c') -> err <> NO_ERROR ->
  exists a v, mAudioMix c' = (fun a => (cm_reset erra a).2) <$> a
    /\ mVideoMix c' = (fun v => (cm_reset errv v).2) <$> v.
Proof.
  unfold start. intros (a & Ea & E)%bind_Some Hne. destruct (cm_start ra a) as [e a'].
  destruct (negb (e =? NO_ERROR)); [injection E as <- <-; by eexists (Some _), _|].
  apply bind_Some in E as (v & Ev & E). destruct (negb (cm_clients v =? 0)); [|by injection E as <- <-].
  destruct (cm_start rv v) as [e' v']. injection E as <- <-.
  rewrite (proj2 (Z.eqb_neq e' NO_ERROR)) by done. by eexists (Some _), (Some _).
Qed.
End compound.

(** ** The parts *)

Section parts.
Variable nodeType : Z -> Z.
Variable NODE_A_IP_CODEC NODE_V_IP_RENDER NODE_V_CAMERA_SET NODE_V_ENCODER : Z.

(** [start] runs the thread; [reset] asks it to end. *)
#[export, refine] Instance audio_conf : ConfMix AudioConf.conf := {|
  cm_insert := AudioConf.doInsertNode nodeType NODE_A_IP_CODEC;
  cm_remove := AudioConf.doRemoveNode nodeType NODE_A_IP_CODEC;
  cm_clients := AudioConf.mClientNum;
  cm_start r c := (r, c);
  cm_reset r c := (NO_ERROR, c)
|}.
Proof.
  - intros n c. unfold AudioConf.doInsertNode. repeat case_match; done.
  - intros n c. unfold AudioConf.doRemoveNode. repeat case_match; done.
Defined.

#[export, refine] Instance video_conf : ConfMix VideoConf.vconf := {|
  cm_insert := VideoConf.doInsertNode nodeType NODE_V_IP_RENDER NODE_V_CAMERA_SET NODE_V_ENCODER;
  cm_remove := VideoConf.doRemoveNode nodeType NODE_V_IP_RENDER NODE_V_CAMERA_SET NODE_V_ENCODER;
  cm_clients := VideoConf.mClientNum;
  cm_start r c := (r, c);
  cm_reset := VideoConf.reset
|}.
Proof.
  - intros n c. unfold VideoConf.doInsertNode. repeat case_match; done.
  - intros n c. unfold VideoConf.doRemoveNode. repeat case_match; done.
Defined.
End parts.

(** ** A concrete conference: types 257 (codec), 513 (camera), 514 (client),
    515 (encoder) *)

Definition some_types (n : Z) : Z := n / 10.
#[export] Instance some_audio : ConfMix AudioConf.conf := audio_conf some_types 257.
#[export] Instance some_video : ConfMix VideoConf.vconf := video_conf some_types 514 513 515.
Definition some_calls : list comp_op := [CInsert 2571; CInsert 5141; CInsert 9990; CInsert 5142; CRemove 2571; CInsert 5143].

Lemma compound_is_pair_witness :
  exists c, create (Some (AudioConf.newConf 160 None)) (Some VideoConf.newVconf) = Some c
    /\ mClientNum (comp_run some_types 3840 256 512 some_calls c) = 2.
Proof.
  destruct (compound_is_pair some_types 3840 256 512 some_calls (AudioConf.newConf 160 None) VideoConf.newVconf) as (c & E & H).
  exists c. split; [exact E|]. destruct (H eq_refl) as (_ & _ & ->). vm_compute. reflexivity.
Defined.

(** A reset forgets the video clients but not their number. *)
Lemma reset_keeps_count :
  forall c, create (Some (AudioConf.newConf 160 None)) (Some VideoConf.newVconf) = Some c ->
  let c' := (reset NO_ERROR NO_ERROR (comp_run some_types 3840 256 512 some_calls c)).2 in
  mClientNum c' = 2 /\ VideoConf.mClientNum <$> mVideoMix c' = Some 0.
Proof. intros c [= <-]. by vm_compute. Qed.
