(* ===== verification/GenTone.v ===== *)
(** * libaux/gentone.c: the DTMF tone generator

    Two oscillators y[n] = a*y[n-1] - y[n-2] in Q14 fixed point, mixed and
    scaled.  [signal] is the caller's vector; writing past it, and using the
    variable the code leaves uninitialised, give [None]. *)

From S2P Require Import Prelude.

Definition DTMF_DEC_PARAMETER_ERROR : Z := -6001.
Definition DTMF_GEN_UNKNOWN_SAMP_FREQ : Z := -6003.
Definition DTMF_AMP_LOW : Z := 23171.

Definition dtmf_aTbl8Khz : list Z := [27980; 26956; 25701; 24219; 19073; 16325; 13085; 9315].
Definition dtmf_aTbl16Khz : list Z := [31548; 31281; 30951; 30556; 29144; 28361; 27409; 26258].
Definition dtmf_aTbl32Khz : list Z := [32462; 32394; 32311; 32210; 31849; 31647; 31400; 31098].
Definition dtmf_aTbl48Khz : list Z := [32632; 32602; 32564; 32520; 32359; 32268; 32157; 32022].
Definition dtmf_yInitTab8Khz : list Z := [8528; 9315; 10163; 11036; 13323; 14206; 15021; 15708].
Definition dtmf_yInitTab16Khz : list Z := [4429; 4879; 5380; 5918; 7490; 8207; 8979; 9801].
Definition dtmf_yInitTab32Khz : list Z := [2235; 2468; 2728; 3010; 3853; 4249; 4685; 5164].
Definition dtmf_yInitTab48Khz : list Z := [1493; 1649; 1823; 2013; 2582; 2851; 3148; 3476].

Definition dtfm_dBm0 : list Z :=
  [16141; 14386; 12821; 11427; 10184; 9077; 8090; 7210; 6426; 5727; 5104; 4549; 4054; 3614;
   3221; 2870; 2558; 2280; 2032; 1811; 1614; 1439; 1282; 1143; 1018; 908; 809; 721; 643;
   573; 510; 455; 405; 361; 322; 287; 256].

Record dtmf_tone_inst_t := mkInst {
  reinit : Z;
  oldOutputLow0 : Z; oldOutputLow1 : Z;
  oldOutputHigh0 : Z; oldOutputHigh1 : Z;
  lastDtmfSample : Z
}.

Definition FIX_MUL_W16 (a b : Z) : Z := s16 a * s16 b.

(** [y = a * y1 - y0], rounded, as a [short]. *)
Definition osc (a y1 y0 : Z) : Z := s16 (s32 (Z.shiftr (s32 (FIX_MUL_W16 a y1 + 8192)) 14 - y0)).

(** The body of the generation loop: one sample and the next history. *)
Definition tone_sample (a1 a2 vol : Z) (d : dtmf_tone_inst_t) : Z * dtmf_tone_inst_t :=
  let tempValLow := osc a1 (oldOutputLow1 d) (oldOutputLow0 d) in
  let tempValHigh := osc a2 (oldOutputHigh1 d) (oldOutputHigh0 d) in
  let d' := mkInst (reinit d) (oldOutputLow1 d) tempValLow (oldOutputHigh1 d) tempValHigh
              (lastDtmfSample d) in
  let tempVal := s32 (FIX_MUL_W16 DTMF_AMP_LOW tempValLow + s32 (Z.shiftl tempValHigh 15)) in
  let tempVal := Z.shiftr (s32 (tempVal + 16384)) 15 in
  (s16 (Z.shiftr (s32 (FIX_MUL_W16 tempVal vol + 8192)) 14), d').

#[global] Arguments tone_sample : simpl never.

Fixpoint tone_loop (n : nat) (a1 a2 vol : Z) (d : dtmf_tone_inst_t) : list Z * dtmf_tone_inst_t :=
  match n with
  | O => ([], d)
  | S n =>
      let '(x, d) := tone_sample a1 a2 vol d in
      let '(xs, d) := tone_loop n a1 a2 vol d in (x :: xs, d)
  end.

Definition init_osc (y1 y2 : Z) (d : dtmf_tone_inst_t) : dtmf_tone_inst_t :=
  if reinit d =? 0 then d else mkInst 0 y1 0 y2 0 (lastDtmfSample d).

(** [signal[0 .. frameLen-1]] is overwritten. *)
Definition emit (frameLen : Z) (a1 a2 vol : Z) (signal : list Z) (d : dtmf_tone_inst_t)
    : option (Z * list Z * dtmf_tone_inst_t) :=
  let '(xs, d') := tone_loop (Z.to_nat frameLen) a1 a2 vol d in
  if Z.of_nat (length signal) <? frameLen then None
  else Some (s16 frameLen, xs ++ drop (length xs) signal, d').

(** The two switches on the key. *)
Definition lowIndex (value : Z) : option nat :=
  match value with
  | 49 | 50 | 51 | 97 => Some 0%nat      (* 1 2 3 a *)
  | 52 | 53 | 54 | 98 => Some 1%nat      (* 4 5 6 b *)
  | 55 | 56 | 57 | 99 => Some 2%nat      (* 7 8 9 c *)
  | 42 | 48 | 35 | 100 => Some 3%nat     (* * 0 # d *)
  | _ => None
  end.

Definition highIndex (value : Z) : nat :=
  match value with
  | 49 | 52 | 55 | 42 => 4%nat
  | 50 | 53 | 56 | 48 => 5%nat
  | 51 | 54 | 57 | 35 => 6%nat
  | 97 | 98 | 99 | 100 => 7%nat
  | _ => 4%nat
  end.

Definition rate_tables (sampFreq : Z) : option (list Z * list Z * Z) :=
  if sampFreq =? 8000 then Some (dtmf_aTbl8Khz, dtmf_yInitTab8Khz, 80)
  else if sampFreq =? 16000 then Some (dtmf_aTbl16Khz, dtmf_yInitTab16Khz, 160)
  else if sampFreq =? 32000 then Some (dtmf_aTbl32Khz, dtmf_yInitTab32Khz, 320)
  else if sampFreq =? 48000 then Some (dtmf_aTbl48Khz, dtmf_yInitTab48Khz, 480)
  else None.

Definition GenDtmf (d : dtmf_tone_inst_t) (value volume : Z) (signal : list Z) (sampFreq extLen : Z)
    : option (Z * list Z * dtmf_tone_inst_t) :=
  if (volume <? 0) || (36 <? volume) then Some (DTMF_DEC_PARAMETER_ERROR, signal, d)
  else if extLen <? -1 then Some (DTMF_DEC_PARAMETER_ERROR, signal, d)
  else
    match rate_tables sampFreq with
    | None => Some (DTMF_GEN_UNKNOWN_SAMP_FREQ, signal, d)
    | Some (aTbl, yInitTable, frameLen) =>
        let frameLen := if 0 <=? extLen then extLen else frameLen in
        match lowIndex value with
        | None => Some (DTMF_DEC_PARAMETER_ERROR, signal, d)
        | Some low =>
            let high := highIndex value in
            a1 ← aTbl !! low; a2 ← aTbl !! high;
            y1 ← yInitTable !! low; y2 ← yInitTable !! high;
            vol ← dtfm_dBm0 !! Z.to_nat volume;
            emit frameLen a1 a2 vol signal (init_osc y1 y2 d)
        end
    end.

(** [yInit] and [aTbl] have two entries; with [extLen = -1] the code never sets
    [frameLen]. *)
Definition GenTone (d : dtmf_tone_inst_t) (yInit aTbl : list Z) (volume : Z) (signal : list Z)
    (sampFreq extLen : Z) : option (Z * list Z * dtmf_tone_inst_t) :=
  if (volume <? 0) || (36 <? volume) then Some (DTMF_DEC_PARAMETER_ERROR, signal, d)
  else if extLen <? -1 then Some (DTMF_DEC_PARAMETER_ERROR, signal, d)
  else
    a1 ← aTbl !! 0%nat; a2 ← aTbl !! 1%nat;
    y1 ← yInit !! 0%nat; y2 ← yInit !! 1%nat;
    vol ← dtfm_dBm0 !! Z.to_nat volume;
    if 0 <=? extLen then emit extLen a1 a2 vol signal (init_osc y1 y2 d) else None.

(** ** The loop *)

Lemma tone_loop_app n m a1 a2 vol d :
  tone_loop (n + m) a1 a2 vol d =
  let '(xs, d1) := tone_loop n a1 a2 vol d in
  let '(ys, d2) := tone_loop m a1 a2 vol d1 in (xs ++ ys, d2).
Proof.
  revert d. induction n as [|n IH]; intros d; cbn [Nat.add tone_loop].
  { by destruct (tone_loop m a1 a2 vol d). }
  destruct (tone_sample a1 a2 vol d) as [x d']. rewrite IH.
  destruct (tone_loop n a1 a2 vol d') as [xs d1]. by destruct (tone_loop m a1 a2 vol d1).
Qed.

Lemma tone_loop_length n a1 a2 vol d : length (tone_loop n a1 a2 vol d).1 = n.
Proof.
  revert d. induction n as [|n IH]; intros d; cbn [tone_loop]; [done|].
  destruct (tone_sample a1 a2 vol d) as [x d']. specialize (IH d').
  destruct (tone_loop n a1 a2 vol d') as [xs d1]. simpl in *. by f_equal.
Qed.

Lemma tone_loop_reinit n a1 a2 vol d : reinit (tone_loop n a1 a2 vol d).2 = reinit d.
Proof.
  revert d. induction n as [|n IH]; intros d; cbn [tone_loop]; [done|].
  destruct (tone_sample a1 a2 vol d) as [x d'] eqn:E. specialize (IH d').
  destruct (tone_loop n a1 a2 vol d') as [xs d1]. simpl in *. rewrite IH.
  change (reinit (x, d').2 = reinit d). by rewrite <- E.
Qed.

(** The tone a successful call of [GenDtmf] produces, and the history it
    continues. *)
Definition dtmf_tone (value volume sampFreq : Z) : option (Z * Z * Z * Z * Z) :=
  '(aTbl, yInitTable, _) ← rate_tables sampFreq;
  low ← lowIndex value;
  a1 ← aTbl !! low; a2 ← aTbl !! highIndex value;
  y1 ← yInitTable !! low; y2 ← yInitTable !! highIndex value;
  vol ← dtfm_dBm0 !! Z.to_nat volume;
  Some (a1, a2, y1, y2, vol).

Lemma GenDtmf_tone d value volume signal sampFreq extLen a1 a2 y1 y2 vol :
  0 <= volume <= 36 -> 0 <= extLen -> dtmf_tone value volume sampFreq = Some (a1, a2, y1, y2, vol) ->
  GenDtmf d value volume signal sampFreq extLen = emit extLen a1 a2 vol signal (init_osc y1 y2 d).
Proof.
  intros Hv Hl Ht. unfold GenDtmf, dtmf_tone in *.
  rewrite (proj2 (Z.ltb_ge volume 0)), (proj2 (Z.ltb_ge 36 volume)) by lia. simpl orb. cbv iota.
  rewrite (proj2 (Z.ltb_ge extLen (-1))), (proj2 (Z.leb_le 0 extLen)) by lia.
  destruct (rate_tables sampFreq) as [[[aTbl yTbl] fl]|]; [|done]. cbn [mbind option_bind] in Ht.
  destruct (lowIndex value) as [low|]; [|done]. cbn [mbind option_bind] in Ht.
  repeat (apply bind_Some in Ht as (? & -> & Ht); cbn [mbind option_bind]). by simplify_eq.
Qed.

Lemma emit_ok n a1 a2 vol signal d :
  0 <= n <= 32767 -> n <= Z.of_nat (length signal) ->
  emit n a1 a2 vol signal d
  = Some (n, (tone_loop (Z.to_nat n) a1 a2 vol d).1 ++ drop (Z.to_nat n) signal,
          (tone_loop (Z.to_nat n) a1 a2 vol d).2).
Proof.
  intros Hn Hl. unfold emit. pose proof (tone_loop_length (Z.to_nat n) a1 a2 vol d) as Hlen.
  destruct (tone_loop (Z.to_nat n) a1 a2 vol d) as [xs d']. simpl in *.
  rewrite (proj2 (Z.ltb_ge _ _)) by done. by rewrite wraps_id, Hlen by width_lia.
Qed.

Lemma init_osc_done y1 y2 d : reinit (init_osc y1 y2 d) = 0.
Proof. unfold init_osc. destruct (Z.eqb_spec (reinit d) 0); done. Qed.

Lemma init_osc_id y1 y2 d : reinit d = 0 -> init_osc y1 y2 d = d.
Proof. intros H. unfold init_osc. by rewrite H. Qed.

(** The tone is continuous across calls: generating [n] samples and then [m]
    more of the same key gives the same samples, and leaves the same oscillator
    history, as generating [n + m] at once, whether or not the first call
    reinitialises the oscillators. *)
Theorem GenDtmf_streams d value volume sampFreq n m s1 s2 s12 tone :
  0 <= volume <= 36 -> 0 <= n -> 0 <= m -> n + m <= 32767 ->
  dtmf_tone value volume sampFreq = Some tone ->
  Z.of_nat (length s1) = n -> Z.of_nat (length s2) = m -> Z.of_nat (length s12) = n + m ->
  exists xs ys d1 d2,
    GenDtmf d value volume s1 sampFreq n = Some (n, xs, d1)
    /\ GenDtmf d1 value volume s2 sampFreq m = Some (m, ys, d2)
    /\ GenDtmf d value volume s12 sampFreq (n + m) = Some (n + m, xs ++ ys, d2).
Proof.
  intros Hv Hn Hm Hnm Ht H1 H2 H12. destruct tone as [[[[a1 a2] y1] y2] vol].
  pose proof (fun d s l H => GenDtmf_tone d value volume s sampFreq l a1 a2 y1 y2 vol Hv H Ht) as G.
  rewrite !G by lia. set (d0 := init_osc y1 y2 d).
  rewrite !emit_ok by lia. replace (Z.to_nat (n + m)) with (Z.to_nat n + Z.to_nat m)%nat by lia.
  rewrite tone_loop_app. pose proof (tone_loop_reinit (Z.to_nat n) a1 a2 vol d0) as Hr.
  destruct (tone_loop (Z.to_nat n) a1 a2 vol d0) as [xs d1]. simpl in Hr.
  exists xs, (tone_loop (Z.to_nat m) a1 a2 vol d1).1, d1, (tone_loop (Z.to_nat m) a1 a2 vol d1).2.
  rewrite drop_ge, app_nil_r by lia. split; [done|].
  rewrite G, init_osc_id by (try rewrite Hr; try apply init_osc_done; lia).
  rewrite emit_ok, drop_ge, app_nil_r by lia. split; [done|].
  destruct (tone_loop (Z.to_nat m) a1 a2 vol d1) as [ys d2]. simpl.
  by rewrite drop_ge, app_nil_r by lia.
Qed.

Definition fresh : dtmf_tone_inst_t := mkInst 1 0 0 0 0 0.

Lemma GenDtmf_streams_witness :
  exists xs ys d1 d2, GenDtmf fresh 53 10 [0; 0] 8000 2 = Some (2, xs, d1)
    /\ GenDtmf d1 53 10 [0; 0; 0] 8000 3 = Some (3, ys, d2)
    /\ GenDtmf fresh 53 10 [0; 0; 0; 0; 0] 8000 5 = Some (5, xs ++ ys, d2).
Proof.
  apply (GenDtmf_streams fresh 53 10 8000 2 3 [0; 0] [0; 0; 0] [0; 0; 0; 0; 0] (26956, 16325, 9315, 14206, 5104));
    first [lia | reflexivity].
Defined.

(** ** Keys *)

Definition keys : list Z := [48; 49; 50; 51; 52; 53; 54; 55; 56; 57; 42; 35; 97; 98; 99; 100].

Lemma lowIndex_key value low : lowIndex value = Some low -> value ∈ keys.
Proof.
  intros H. unfold lowIndex in H.
  repeat (case_match; try discriminate); unfold keys; set_solver.
Qed.

(** the keypad: each of the sixteen keys has a tone at every rate, two keys
    never share their pair of frequencies, and any other character is refused
    without touching the signal or the oscillators. *)
Theorem dtmf_keypad d value value' volume signal sampFreq extLen :
  (value ∈ keys -> exists low, lowIndex value = Some low
     /\ (low < 4)%nat /\ (4 <= highIndex value < 8)%nat
     /\ (value' ∈ keys -> lowIndex value' = Some low -> highIndex value' = highIndex value -> value' = value))
  /\ (value ∉ keys -> exists err, err < 0 /\ GenDtmf d value volume signal sampFreq extLen = Some (err, signal, d)).
Proof.
  split.
  - intros Hin. unfold keys in *.
    assert (Hall : Forall (fun v => match lowIndex v with
        | Some low => ((low < 4) /\ (4 <= highIndex v < 8))%nat
            /\ Forall (fun v' => lowIndex v' = Some low -> highIndex v' = highIndex v -> v' = v) keys
        | None => False end) keys).
    { unfold keys. repeat constructor; simpl; try lia; intros; try done. }
    rewrite Forall_forall in Hall. specialize (Hall value Hin).
    destruct (lowIndex value) as [low|]; [|done]. destruct Hall as [Hb Hf]. exists low.
    split; [done|]. split; [lia|]. split; [lia|]. intros Hin'. rewrite Forall_forall in Hf. by apply Hf.
  - intros Hnot. assert (Hlow : lowIndex value = None).
    { destruct (lowIndex value) eqn:E; [|done]. by apply lowIndex_key in E. }
    unfold GenDtmf. rewrite Hlow.
    case_if; [by exists DTMF_DEC_PARAMETER_ERROR|]. case_if; [by exists DTMF_DEC_PARAMETER_ERROR|].
    destruct (rate_tables sampFreq) as [[[? ?] ?]|]; [by exists DTMF_DEC_PARAMETER_ERROR|].
    by exists DTMF_GEN_UNKNOWN_SAMP_FREQ.
Qed.

Lemma dtmf_keypad_witness :
  exists low, lowIndex 53 = Some low /\ (low < 4)%nat.
Proof.
  destruct (proj1 (dtmf_keypad fresh 53 54 0 [] 8000 0)) as (low & H1 & H2 & _).
  - by apply (bool_decide_unpack _).
  - by exists low.
Defined.

(** The sampling rate is a [short]: the branch for 48 kHz is dead, and a caller
    that asks for 48000 Hz is told the rate is unknown. *)
Lemma GenDtmf_48k_unreachable d value volume signal extLen :
  0 <= volume <= 36 -> -1 <= extLen ->
  (forall sampFreq, in_s 16 sampFreq -> sampFreq <> 48000)
  /\ GenDtmf d value volume signal (s16 48000) extLen = Some (DTMF_GEN_UNKNOWN_SAMP_FREQ, signal, d).
Proof.
  intros Hv He. split; [intros f Hf; width_lia|]. unfold GenDtmf.
  rewrite (proj2 (Z.ltb_ge volume 0)), (proj2 (Z.ltb_ge 36 volume)), (proj2 (Z.ltb_ge extLen (-1))) by lia.
  done.
Qed.

(** ** No overflow *)

(** The same arithmetic on unbounded integers. *)
Definition osc_exact (a y1 y0 : Z) : Z := Z.shiftr (a * y1 + 8192) 14 - y0.

Definition exact_sample (a1 a2 vol : Z) (d : dtmf_tone_inst_t) : Z * dtmf_tone_inst_t :=
  let l := osc_exact a1 (oldOutputLow1 d) (oldOutputLow0 d) in
  let h := osc_exact a2 (oldOutputHigh1 d) (oldOutputHigh0 d) in
  (Z.shiftr (Z.shiftr (DTMF_AMP_LOW * l + h * 32768 + 16384) 15 * vol + 8192) 14,
   mkInst (reinit d) (oldOutputLow1 d) l (oldOutputHigh1 d) h (lastDtmfSample d)).

Fixpoint exact_loop (n : nat) (a1 a2 vol : Z) (d : dtmf_tone_inst_t) : list Z * dtmf_tone_inst_t :=
  match n with
  | O => ([], d)
  | S n =>
      let '(x, d) := exact_sample a1 a2 vol d in
      let '(xs, d) := exact_loop n a1 a2 vol d in (x :: xs, d)
  end.

(** [n] samples of one oscillator stay within 17000. *)
Fixpoint osc_small (n : nat) (a y1 y0 : Z) : bool :=
  match n with
  | O => true
  | S n =>
      let y := osc_exact a y1 y0 in
      (-17000 <=? y) && (y <=? 17000) && osc_small n a y y1
  end.

Definition small (y : Z) : Prop := -17000 <= y <= 17000.

Lemma osc_is_exact a y1 y0 :
  0 <= a < 32768 -> small y1 -> small y0 -> small (osc_exact a y1 y0) -> osc a y1 y0 = osc_exact a y1 y0.
Proof.
  unfold small, osc, osc_exact, FIX_MUL_W16. intros Ha H1 H0 Hy.
  rewrite (wraps_id 16 a), (wraps_id 16 y1) by width_lia.
  assert (-557056000 <= a * y1 <= 557056000) by nia.
  rewrite (wraps_id 32 (a * y1 + 8192)) by width_lia.
  rewrite (wraps_id 32 (_ - y0)) by width_lia. apply wraps_id; width_lia.
Qed.

Lemma sample_is_exact a1 a2 vol d :
  0 <= a1 < 32768 -> 0 <= a2 < 32768 -> 0 <= vol < 16384 ->
  small (oldOutputLow0 d) -> small (oldOutputLow1 d) -> small (oldOutputHigh0 d) -> small (oldOutputHigh1 d) ->
  small (osc_exact a1 (oldOutputLow1 d) (oldOutputLow0 d)) ->
  small (osc_exact a2 (oldOutputHigh1 d) (oldOutputHigh0 d)) ->
  tone_sample a1 a2 vol d = exact_sample a1 a2 vol d.
Proof.
  intros Ha1 Ha2 Hv Hl0 Hl1 Hh0 Hh1 Hl Hh. unfold tone_sample, exact_sample.
  rewrite !osc_is_exact by done. set (l := osc_exact a1 _ _) in *. set (h := osc_exact a2 _ _) in *.
  f_equal. unfold FIX_MUL_W16, DTMF_AMP_LOW, small in *. rewrite Z.shiftl_mul_pow2 by lia.
  change (2 ^ 15) with 32768. rewrite (wraps_id 16 23171), (wraps_id 16 l) by width_lia.
  rewrite (wraps_id 32 (h * 32768)), (wraps_id 32 (23171 * l + _)), (wraps_id 32 (_ + 16384)) by width_lia.
  rewrite !Z.shiftr_div_pow2 by lia. change (2 ^ 15) with 32768. change (2 ^ 14) with 16384.
  set (t := (23171 * l + h * 32768 + 16384) / 32768).
  assert (Ht : -29022 <= t <= 29022) by (subst t; div_lia).
  clearbody t.
  rewrite (wraps_id 16 t), (wraps_id 16 vol) by width_lia.
  assert (-475500000 <= t * vol <= 475500000) by nia.
  rewrite (wraps_id 32 (t * vol + 8192)) by width_lia.
  set (p := t * vol) in *. clearbody p. rewrite wraps_id; [done|lia|div_lia].
Qed.

Lemma loop_is_exact n a1 a2 vol d :
  0 <= a1 < 32768 -> 0 <= a2 < 32768 -> 0 <= vol < 16384 ->
  small (oldOutputLow0 d) -> small (oldOutputLow1 d) -> small (oldOutputHigh0 d) -> small (oldOutputHigh1 d) ->
  osc_small n a1 (oldOutputLow1 d) (oldOutputLow0 d) = true ->
  osc_small n a2 (oldOutputHigh1 d) (oldOutputHigh0 d) = true ->
  tone_loop n a1 a2 vol d = exact_loop n a1 a2 vol d.
Proof.
  intros Ha1 Ha2 Hv. revert d. induction n as [|n IH]; intros d Hl0 Hl1 Hh0 Hh1 Hsl Hsh; [done|].
  cbn [osc_small] in Hsl, Hsh. bool_to_prop. cbn [tone_loop exact_loop].
  rewrite sample_is_exact by done. unfold exact_sample. rewrite IH by done. done.
Qed.

(** The tables, checked: every oscillator stays small for [N] samples from its
    initial values. *)
Definition N : nat := 8000.
Definition tables_small (aTbl yTbl : list Z) : bool :=
  forallb (fun p => (0 <=? p.1) && (p.1 <? 32768) && (-17000 <=? p.2) && (p.2 <=? 17000)
                    && osc_small N p.1 0 p.2)
    (zip aTbl yTbl).

Lemma tables_checked :
  tables_small dtmf_aTbl8Khz dtmf_yInitTab8Khz && tables_small dtmf_aTbl16Khz dtmf_yInitTab16Khz
  && tables_small dtmf_aTbl32Khz dtmf_yInitTab32Khz = true.
Proof. vm_compute. reflexivity. Qed.

Lemma N_val : Z.of_nat N = 8000.
Proof. vm_compute. reflexivity. Qed.

#[local] Opaque N.

Lemma osc_small_le n m a y1 y0 : (n <= m)%nat -> osc_small m a y1 y0 = true -> osc_small n a y1 y0 = true.
Proof.
  revert m y1 y0. induction n as [|n IH]; intros m y1 y0 Hle H; [done|].
  destruct m as [|m]; [lia|]. cbn [osc_small] in *. bool_to_prop.
  rewrite !andb_true_iff. split_and!; try (apply Z.leb_le; lia). apply (IH m); [lia|done].
Qed.

Lemma table_entry aTbl yTbl i a y :
  tables_small aTbl yTbl = true -> aTbl !! i = Some a -> yTbl !! i = Some y ->
  0 <= a < 32768 /\ small y /\ osc_small N a 0 y = true.
Proof.
  unfold tables_small. rewrite forallb_forall. intros H Ha Hy. specialize (H (a, y)).
  assert (Hin : In (a, y) (zip aTbl yTbl)).
  { apply list_elem_of_In. eapply list_elem_of_lookup_2. by apply lookup_zip_with_Some; exists a, y. }
  specialize (H Hin). cbn [fst snd] in H. bool_to_prop. unfold small.
  split; [lia|]. split; [lia|assumption].
Qed.

Lemma volume_entry volume vol : dtfm_dBm0 !! volume = Some vol -> 0 <= vol < 16384.
Proof.
  intros H. apply list_elem_of_lookup_2 in H.
  assert (Hall : Forall (fun v => 0 <= v < 16384) dtfm_dBm0) by (unfold dtfm_dBm0; repeat constructor; lia).
  rewrite Forall_forall in Hall. by apply Hall.
Qed.

(** No conversion to [short] or [int] in the generator loses bits: at the
    three rates that can be asked for, for every key and volume, the first 8000
    samples of a tone are those of the recursion over unbounded integers, and
    each is a 16-bit sample. *)
Theorem GenDtmf_no_overflow d value volume sampFreq signal n tone :
  sampFreq ∈ [8000; 16000; 32000] -> 0 <= volume <= 36 -> 0 <= n <= 8000 -> reinit d <> 0 ->
  Z.of_nat (length signal) = n ->
  dtmf_tone value volume sampFreq = Some tone ->
  let '(a1, a2, y1, y2, vol) := tone in
  let '(xs, d') := exact_loop (Z.to_nat n) a1 a2 vol (mkInst 0 y1 0 y2 0 (lastDtmfSample d)) in
  GenDtmf d value volume signal sampFreq n = Some (n, xs, d').
Proof.
  intros Hrate Hv Hn Hri Hlen Ht. destruct tone as [[[[a1 a2] y1] y2] vol].
  rewrite (GenDtmf_tone d value volume signal sampFreq n a1 a2 y1 y2 vol) by (done || lia).
  unfold init_osc. rewrite (proj2 (Z.eqb_neq _ 0)) by done. rewrite emit_ok by lia.
  rewrite drop_ge, app_nil_r by lia.
  unfold dtmf_tone in Ht. apply bind_Some in Ht as ([[aTbl yTbl] fl] & Er & Ht).
  apply bind_Some in Ht as (low & _ & Ht).
  apply bind_Some in Ht as (x1 & Ea1 & Ht). apply bind_Some in Ht as (x2 & Ea2 & Ht).
  apply bind_Some in Ht as (x3 & Ey1 & Ht). apply bind_Some in Ht as (x4 & Ey2 & Ht).
  apply bind_Some in Ht as (x5 & Ev & Ht). injection Ht as -> -> -> -> ->.
  assert (Htab : tables_small aTbl yTbl = true).
  { pose proof tables_checked as [[H8 H16]%andb_true_iff H32]%andb_true_iff.
    rewrite !elem_of_cons in Hrate.
    destruct Hrate as [-> | [-> | [-> | Hr]]]; [| | |exfalso; exact (not_elem_of_nil _ Hr)].
    - change (Some (dtmf_aTbl8Khz, dtmf_yInitTab8Khz, 80) = Some (aTbl, yTbl, fl)) in Er.
      injection Er as <- <- _. exact H8.
    - change (Some (dtmf_aTbl16Khz, dtmf_yInitTab16Khz, 160) = Some (aTbl, yTbl, fl)) in Er.
      injection Er as <- <- _. exact H16.
    - change (Some (dtmf_aTbl32Khz, dtmf_yInitTab32Khz, 320) = Some (aTbl, yTbl, fl)) in Er.
      injection Er as <- <- _. exact H32. }
  destruct (table_entry _ _ _ a1 y1 Htab Ea1 Ey1) as (? & ? & Hs1).
  destruct (table_entry _ _ _ a2 y2 Htab Ea2 Ey2) as (? & ? & Hs2).
  assert (small 0) by (unfold small; lia).
  pose proof N_val as HN.
  rewrite loop_is_exact; cbn [oldOutputLow0 oldOutputLow1 oldOutputHigh0 oldOutputHigh1];
    [|assumption|assumption|eapply volume_entry; eassumption|assumption..| |].
  - destruct (exact_loop (Z.to_nat n) a1 a2 vol _); reflexivity.
  - eapply osc_small_le; [|exact Hs1]. lia.
  - eapply osc_small_le; [|exact Hs2]. lia.
Qed.

Lemma GenDtmf_no_overflow_witness :
  exists d', GenDtmf fresh 53 10 [0; 0; 0] 8000 3 = Some (3, [-6478; -7786; -3471], d').
Proof.
  pose proof (GenDtmf_no_overflow fresh 53 10 8000 [0; 0; 0] 3 (26956, 16325, 9315, 14206, 5104)) as H.
  assert (H' : let '(xs, d') := exact_loop 3 26956 16325 5104 (mkInst 0 9315 0 14206 0 0) in
               GenDtmf fresh 53 10 [0; 0; 0] 8000 3 = Some (3, xs, d')).
  { apply H; [by apply (bool_decide_unpack _)|lia|lia|discriminate|reflexivity|reflexivity]. }
  destruct (exact_loop 3 _ _ _ _) as [xs d'] eqn:E. exists d'. vm_compute in E.
  injection E as <- _. exact H'.
Defined.
