(* ===== verification/WallClock.v ===== *)
(** * libckits/wallClock.c: uptime and NTP time differences

    [long] has 32 bits.  The conversion of microseconds to an NTP fraction is
    floating-point arithmetic and is not modelled: [getWholeNTPNow] takes the
    two words [getApartNTPNow] produced. *)

From S2P Require Import Prelude.

Definition EPOCH : Z := 2208988800.

(** The static [initTime.tv_sec]. *)
Definition saveStartTime (now : Z) : Z * Z := (0, now).

Record uptime := mkUptime { up_day : Z; up_hour : Z; up_min : Z; up_sec : Z }.

Definition showUptime (initSec nowSec : Z) : uptime :=
  let sec := u32 (nowSec - initSec) in
  let min := sec / 60 in
  let sec := sec mod 60 in
  let hour := min / 60 in
  let min := min mod 60 in
  let day := hour / 24 in
  let hour := hour mod 24 in
  mkUptime day hour min sec.

(** The digits printed: [day, hour/10, hour%10, ...]. *)
Definition uptime_args (u : uptime) : list Z :=
  [up_day u; up_hour u / 10; up_hour u mod 10; up_min u / 10; up_min u mod 10;
   up_sec u / 10; up_sec u mod 10].

(** [*ntpsec = tv.tv_sec + EPOCH]. *)
Definition ntp_seconds (tv_sec : Z) : Z := u32 (tv_sec + EPOCH).

(** A shift of a [uint32_t]: by its width or more it is undefined ([None]). *)
Definition shl32 (x n : Z) : option Z :=
  if (0 <=? n) && (n <? 32) then Some (u32 (Z.shiftl x n)) else None.

Definition getWholeNTPNow (ntpsec ntpusec : Z) : option Z :=
  hi ← shl32 ntpsec 32; Some (u64 (Z.lor hi ntpusec)).

Definition minusNTP (ntp1 ntp2 : Z) : Z :=
  let diff := Z.shiftr (u64 (ntp1 - ntp2)) 16 in
  if diff <? 4294967295 then u32 diff else 4294967295.

Definition minusNTPDelay (ntpsec ntpusec ntptime : Z) : option Z :=
  now ← getWholeNTPNow ntpsec ntpusec; Some (minusNTP now ntptime).

(** the uptime shown is the elapsed time: its fields are in range and add up
    to the seconds since [saveStartTime], modulo 2^32, and each is printed as
    two decimal digits. *)
Theorem showUptime_adds_up init now :
  let u := showUptime init now in
  up_day u * 86400 + up_hour u * 3600 + up_min u * 60 + up_sec u = u32 (now - init)
  /\ 0 <= up_hour u < 24 /\ 0 <= up_min u < 60 /\ 0 <= up_sec u < 60
  /\ Forall (fun d => 0 <= d < 10) (tail (uptime_args u)).
Proof.
  unfold showUptime, uptime_args. cbn [up_day up_hour up_min up_sec tail].
  pose proof (wrapu_range 32 (now - init) ltac:(lia)) as Hr.
  set (x := u32 (now - init)) in *. clearbody x.
  split_and!; try (div_lia). repeat constructor; div_lia.
Qed.

(** [minusNTP] is a saturating difference in units of 1/65536 second: for a
    later first time it is the exact difference cut to 32 bits of range; when the
    first time is earlier by up to half the epoch it saturates. *)
Theorem minusNTP_saturates ntp1 ntp2 :
  in_u 64 ntp1 -> in_u 64 ntp2 ->
  (ntp2 <= ntp1 -> minusNTP ntp1 ntp2 = Z.min ((ntp1 - ntp2) / 65536) (2 ^ 32 - 1))
  /\ (ntp1 < ntp2 -> ntp2 - ntp1 <= 2 ^ 63 -> minusNTP ntp1 ntp2 = 2 ^ 32 - 1).
Proof.
  intros H1 H2. unfold minusNTP. rewrite Z.shiftr_div_pow2 by lia. change (2 ^ 16) with 65536. split.
  - intros Hle. rewrite (wrapu_id 64) by width_lia. case_if; [|width_lia].
    rewrite (wrapu_id 32); [width_lia|]. split; [|width_lia]. apply Z.div_pos; lia.
  - intros Hlt Hb. replace (u64 (ntp1 - ntp2)) with (ntp1 - ntp2 + 2 ^ 64).
    + case_if; [|done]. exfalso. div_lia.
    + unfold wrapu. rewrite <- (Z.mod_add _ 1) by lia. rewrite Z.mod_small; width_lia.
Qed.

Lemma minusNTP_saturates_witness : minusNTP 655360 65536 = 9.
Proof.
  rewrite (proj1 (minusNTP_saturates 655360 65536 ltac:(width_lia) ltac:(width_lia))); [reflexivity|lia].
Defined.

(** [ntpsec << 32] shifts a 32-bit value by its width: the combined NTP time, and
    every delay computed from it, is undefined. *)
Lemma getWholeNTPNow_undefined ntpsec ntpusec ntptime :
  getWholeNTPNow ntpsec ntpusec = None /\ minusNTPDelay ntpsec ntpusec ntptime = None.
Proof. done. Qed.
