(* ===== verification/Doubles.v ===== *)
(** * Binary64 arithmetic on integers

    On integers below [2^53] the operations of [SpecFloat] are exact.  [fin s m]
    is the double for the integer [m] with sign [s]: its mantissa has 53 bits. *)

From S2P Require Import Prelude.
From Stdlib Require Import Floats.SpecFloat.

Definition of_int (n : Z) : spec_float := binary_normalize 53 1024 n 0 false.

(** ** Shifted mantissas *)

Definition dbl (m : positive) (k : nat) : positive := Nat.iter k xO m.
Definition digits (m : positive) : Z := Zpos (digits2_pos m).

Lemma dbl_value m k : Zpos (dbl m k) = Zpos m * 2 ^ Z.of_nat k.
Proof.
  induction k as [|k IH]; [cbn; lia|]. change (dbl m (S k)) with (xO (dbl m k)).
  rewrite Nat2Z.inj_succ, Z.pow_succ_r, Pos2Z.inj_xO, IH by lia. lia.
Qed.

Lemma dbl_add m j k : dbl (dbl m j) k = dbl m (j + k).
Proof. apply Pos2Z.inj. rewrite !dbl_value, Nat2Z.inj_add, Z.pow_add_r by lia. lia. Qed.

Lemma iter_xO m p : Pos.iter xO m p = dbl m (Pos.to_nat p).
Proof. by rewrite Pos2Nat.inj_iter. Qed.

Lemma digits_log m : digits m = Z.log2 (Zpos m) + 1.
Proof.
  unfold digits. induction m as [m IH|m IH|]; [| |done]; cbn [digits2_pos]; rewrite Pos2Z.inj_succ, IH.
  - rewrite Pos2Z.inj_xI, Z.log2_succ_double by lia. lia.
  - rewrite Pos2Z.inj_xO, Z.log2_double by lia. lia.
Qed.

Lemma digits_pos m : 1 <= digits m.
Proof. rewrite digits_log. pose proof (Z.log2_nonneg (Zpos m)). lia. Qed.

Lemma digits_dbl m k : digits (dbl m k) = digits m + Z.of_nat k.
Proof. rewrite !digits_log, dbl_value, Z.log2_mul_pow2 by lia. lia. Qed.

Lemma digits_le a b : (a <= b)%positive -> digits a <= digits b.
Proof. intros H. rewrite !digits_log. pose proof (Z.log2_le_mono (Zpos a) (Zpos b)). lia. Qed.

Lemma digits_lt a b : digits a < digits b -> (a < b)%positive.
Proof.
  rewrite !digits_log. intros H. destruct (Pos.lt_total a b) as [|[->|E]]; [done|lia|].
  pose proof (Z.log2_le_mono (Zpos b) (Zpos a)). lia.
Qed.

Lemma digits_53 m : Zpos m < 2 ^ 53 <-> digits m <= 53.
Proof. rewrite digits_log. rewrite (Z.log2_lt_pow2 (Zpos m) 53) by lia. lia. Qed.

(** ** Rounding *)

Definition fin (s : bool) (m : positive) : spec_float :=
  S754_finite s (dbl m (Z.to_nat (53 - digits m))) (digits m - 53).

Definition exact (m : positive) : shr_record := Build_shr_record (Zpos m) false false.

Lemma shr_dbl m j : Nat.iter j shr_1 (exact (dbl m j)) = exact m.
Proof.
  revert m. induction j as [|j IH]; intros m; [done|]. rewrite Nat.iter_succ_r. cbn [dbl Nat.iter].
  fold (dbl m j). apply IH.
Qed.

Lemma iter_pos_nat {A} (f : A -> A) p x : iter_pos f p x = Nat.iter (Pos.to_nat p) f x.
Proof.
  revert x. induction p as [p IH|p IH|]; intros x; cbn [iter_pos]; [| |done].
  - rewrite !IH, <- Nat.iter_add, <- Nat.iter_succ_r, Pos2Nat.inj_xI. f_equal. lia.
  - rewrite !IH, <- Nat.iter_add, Pos2Nat.inj_xO. f_equal. lia.
Qed.

Lemma shr_exact m j e : shr (exact (dbl m j)) e (Z.of_nat j) = (exact m, e + Z.of_nat j).
Proof.
  destruct j as [|j]; [cbn [Z.of_nat]; by rewrite Z.add_0_r|].
  change (Z.of_nat (S j)) with (Zpos (Pos.of_succ_nat j)). unfold shr.
  by rewrite iter_pos_nat, SuccNat2Pos.id_succ, shr_dbl.
Qed.

Lemma fexp_53 d : -1000 <= d -> fexp 53 1024 d = d - 53.
Proof. unfold fexp, emin. lia. Qed.

Lemma round_fin s m k :
  digits m <= 53 -> 53 - digits m <= Z.of_nat k ->
  binary_round_aux 53 1024 s (Zpos (dbl m k)) (- Z.of_nat k) loc_Exact = fin s m.
Proof.
  intros Hm Hk. pose proof (digits_pos m) as Hd. set (i := Z.to_nat (53 - digits m)).
  assert (Ek : k = (i + (k - i))%nat) by lia. set (j := (k - i)%nat) in *. clearbody j. subst k.
  unfold binary_round_aux, shr_fexp. cbn [shr_record_of_loc]. change (Build_shr_record (Zpos ?x) false false) with (exact x).
  change (Zdigits2 (Zpos ?x)) with (digits x). rewrite digits_dbl, fexp_53 by lia.
  replace (_ - 53 - - _) with (Z.of_nat j) by lia. rewrite <- dbl_add, shr_exact.
  cbn [exact shr_m loc_of_shr_record round_nearest_even]. change (Zdigits2 (Zpos ?x)) with (digits x).
  rewrite digits_dbl, fexp_53 by lia. replace (_ - 53 - _) with 0 by lia. cbn [shr shr_m].
  rewrite (proj2 (Z.leb_le _ _)) by lia. unfold fin. f_equal. lia.
Qed.

Lemma shl_align_dbl m e e' : e' <= e -> shl_align m e e' = (dbl m (Z.to_nat (e - e')), e').
Proof.
  intros H. unfold shl_align. destruct (e' - e) as [|p|p] eqn:E; [|lia|].
  - replace e with e' by lia. by rewrite Z.sub_diag.
  - rewrite iter_xO. do 2 f_equal. lia.
Qed.

Lemma shl_align_no m e e' : e <= e' -> shl_align m e e' = (m, e).
Proof. intros H. unfold shl_align. destruct (e' - e) eqn:E; (done || lia). Qed.

Lemma of_int_pos m : Zpos m < 2 ^ 53 -> of_int (Zpos m) = fin false m /\ of_int (Zneg m) = fin true m.
Proof.
  rewrite digits_53. intros H. pose proof (digits_pos m).
  assert (E : forall s, binary_round 53 1024 s m 0 = fin s m); [|by split; apply E].
  intros s. unfold binary_round. change (Zpos (digits2_pos m)) with (digits m).
  rewrite fexp_53, shl_align_dbl by lia. rewrite <- (round_fin s m (Z.to_nat (53 - digits m))) by lia.
  do 2 f_equal; [do 2 f_equal|]; lia.
Qed.

Ltac to_fin := repeat match goal with
  | |- context [of_int (Zpos ?m)] => rewrite (proj1 (of_int_pos m ltac:(lia)))
  | |- context [of_int (Zneg ?m)] => rewrite (proj2 (of_int_pos m ltac:(lia)))
  end.

Lemma of_int_0 : of_int 0 = S754_zero false.
Proof. done. Qed.

(** ** The operations *)

Lemma fin_mul sa a sb b : Zpos (a * b) < 2 ^ 53 ->
  SFmul 53 1024 (fin sa a) (fin sb b) = fin (xorb sa sb) (a * b).
Proof.
  intros H. assert (Ha : Zpos a < 2 ^ 53) by nia. assert (Hb : Zpos b < 2 ^ 53) by nia.
  rewrite digits_53 in *. pose proof (digits_le a (a * b) ltac:(nia)). unfold fin at 1 2. cbn [SFmul].
  rewrite <- (round_fin _ (a * b) (Z.to_nat (53 - digits a) + Z.to_nat (53 - digits b))) by lia.
  f_equal; [|lia]. f_equal. apply Pos2Z.inj. rewrite Pos2Z.inj_mul, !dbl_value, Nat2Z.inj_add, Z.pow_add_r by lia. lia.
Qed.

Lemma fin_add a b : Zpos (a + b) < 2 ^ 53 ->
  SFadd 53 1024 (fin false a) (fin false b) = fin false (a + b).
Proof.
  intros H. assert (Ha : Zpos a < 2 ^ 53) by lia. assert (Hb : Zpos b < 2 ^ 53) by lia.
  rewrite digits_53 in *. pose proof (digits_le a (a + b) ltac:(lia)). pose proof (digits_le b (a + b) ltac:(lia)).
  pose proof (digits_pos a). pose proof (digits_pos b). unfold fin at 1 2. cbn [SFadd].
  set (e := Z.min _ _). assert (He : e = Z.min (digits a - 53) (digits b - 53)) by done. clearbody e.
  set (k := Z.to_nat (- e)). assert (Hk : Z.of_nat k = - e) by lia.
  assert (Es : forall x, e <= digits x - 53 -> digits x <= 53 ->
    fst (shl_align (dbl x (Z.to_nat (53 - digits x))) (digits x - 53) e) = dbl x k).
  { intros x Hx Hd. rewrite shl_align_dbl by done. cbn [fst]. rewrite dbl_add. f_equal. lia. }
  rewrite !Es by lia. cbn [cond_Zopp].
  replace (Zpos (dbl a k) + Zpos (dbl b k)) with (Zpos (dbl (a + b) k))
    by (rewrite !dbl_value, Pos2Z.inj_add; lia).
  cbn [binary_normalize]. unfold binary_round. change (Zpos (digits2_pos ?x)) with (digits x).
  rewrite digits_dbl, fexp_53, shl_align_no by lia.
  replace e with (- Z.of_nat k) by lia. apply round_fin; lia.
Qed.

Lemma fin_sub_self s a : SFsub 53 1024 (fin s a) (fin s a) = S754_zero false.
Proof. unfold fin. cbn [SFsub]. rewrite Z.sub_diag. done. Qed.

Lemma fin_compare_pos a b : Zpos a < 2 ^ 53 -> Zpos b < 2 ^ 53 ->
  match digits a - 53 ?= digits b - 53 with
  | Lt => Lt
  | Gt => Gt
  | Eq => Pos.compare_cont Eq (dbl a (Z.to_nat (53 - digits a))) (dbl b (Z.to_nat (53 - digits b)))
  end = (a ?= b)%positive.
Proof.
  rewrite !digits_53. intros Ha Hb. destruct (Z.compare_spec (digits a - 53) (digits b - 53)) as [E|E|E].
  - replace (digits b) with (digits a) by lia. change (Pos.compare_cont Eq ?x ?y) with (x ?= y)%positive.
    change ((Zpos (dbl a (Z.to_nat (53 - digits a))) ?= Zpos (dbl b (Z.to_nat (53 - digits a)))) = (Zpos a ?= Zpos b)).
    rewrite !dbl_value. set (q := 2 ^ _). assert (0 < q) by (apply Z.pow_pos_nonneg; lia).
    destruct (Z.compare_spec (Zpos a) (Zpos b)); [apply Z.compare_eq_iff|apply Z.compare_lt_iff|apply Z.compare_gt_iff]; nia.
  - symmetry. apply Pos.compare_lt_iff, digits_lt. lia.
  - symmetry. apply Pos.compare_gt_iff, digits_lt. lia.
Qed.

Lemma of_int_le a b : - 2 ^ 53 < a < 2 ^ 53 -> - 2 ^ 53 < b < 2 ^ 53 ->
  SFleb (of_int a) (of_int b) = (a <=? b).
Proof.
  intros Ha Hb. unfold SFleb, Z.leb.
  assert (E : SFcompare (of_int a) (of_int b) = Some (a ?= b)); [|rewrite E; by destruct (a ?= b)].
  destruct a as [|a|a], b as [|b|b]; rewrite ?of_int_0; to_fin; try done; unfold fin; cbn [SFcompare].
  - f_equal. apply fin_compare_pos; lia.
  - f_equal. change (Zneg a ?= Zneg b) with (CompOpp (a ?= b)%positive). rewrite <- (fin_compare_pos a b) by lia.
    by destruct (_ ?= _).
Qed.

Lemma of_int_mul a b : Z.abs (a * b) < 2 ^ 53 -> a <> 0 -> b <> 0 ->
  SFmul 53 1024 (of_int a) (of_int b) = of_int (a * b).
Proof.
  intros H Ha Hb. destruct a as [|a|a]; [done| |]; destruct b as [|b|b]; try done.
  all: assert (Zpos (a * b) < 2 ^ 53) by (simpl in H; lia).
  all: assert (Zpos a < 2 ^ 53 /\ Zpos b < 2 ^ 53) as [? ?] by nia.
  all: match goal with
    | |- _ = of_int (Zpos _ * Zpos _) => change (Zpos a * Zpos b) with (Zpos (a * b))
    | |- _ = of_int (Zneg _ * Zneg _) => change (Zneg a * Zneg b) with (Zpos (a * b))
    | |- _ = of_int (Zpos _ * _) => change (Zpos a * Zneg b) with (Zneg (a * b))
    | |- _ => change (Zneg a * Zpos b) with (Zneg (a * b))
    end; to_fin; by rewrite fin_mul.
Qed.

Lemma of_int_add a b : 0 <= a -> 0 <= b -> a + b < 2 ^ 53 ->
  SFadd 53 1024 (of_int a) (of_int b) = of_int (a + b).
Proof.
  intros Ha Hb H. destruct a as [|a|a]; [| |lia]; (destruct b as [|b|b]; [| |lia]); try done.
  - rewrite Z.add_0_l, of_int_0. by to_fin.
  - rewrite Z.add_0_r, of_int_0. by to_fin.
  - change (Zpos a + Zpos b) with (Zpos (a + b)) in *. to_fin. by apply fin_add.
Qed.

Lemma of_int_sub_self n : Z.abs n < 2 ^ 53 -> SFsub 53 1024 (of_int n) (of_int n) = S754_zero false.
Proof.
  intros H. destruct n as [|m|m]; [done| |]; to_fin; apply fin_sub_self.
Qed.

(** The integer back from the mantissa. *)
Lemma fin_value m : Zpos m < 2 ^ 53 ->
  (if 0 <=? digits m - 53 then Z.shiftl (Zpos (dbl m (Z.to_nat (53 - digits m)))) (digits m - 53)
   else Z.shiftr (Zpos (dbl m (Z.to_nat (53 - digits m)))) (- (digits m - 53))) = Zpos m.
Proof.
  rewrite digits_53. intros H. pose proof (digits_pos m). destruct (Z.leb_spec 0 (digits m - 53)) as [E|E].
  - by replace (digits m) with 53 by lia.
  - rewrite Z.shiftr_div_pow2, dbl_value by lia. replace (Z.of_nat _) with (- (digits m - 53)) by lia.
    apply Z.div_mul, Z.pow_nonzero; lia.
Qed.
