(* ===== verification/CJson.v ===== *)
(** * libckits/cJSON.c: the JSON parser and printer

    A node of the tree is an [item]; the [next]/[prev] chain of a node's children
    is the list [child].  Text is read through a pointer, here the bytes from the
    pointer to the terminating NUL; moving past the NUL, writing past a buffer's
    [malloc]ed size and using an uninitialised variable give [Fault].  Doubles
    are the binary64 values of [SpecFloat]; [pow10 k] is [pow(10.0, k)],
    [big_int] the conversion to [int] of a double no [int] represents, and
    [sprintf_double] what [sprintf] writes for a double that is not printed as an
    integer.  Allocation is taken to succeed. *)

From S2P Require Import Prelude.
From S2P Require Import Doubles.
From Stdlib Require Import Floats.SpecFloat.

(** ** Doubles *)

Abbreviation double := spec_float (only parsing).
Definition fadd : double -> double -> double := SFadd 53 1024.
Definition fmul : double -> double -> double := SFmul 53 1024.
Definition fsub : double -> double -> double := SFsub 53 1024.
Definition f10 : double := of_int 10.
Definition DBL_EPSILON : double := S754_finite false 4503599627370496 (-104).   (* 2^-52 *)

(** Truncation towards zero; [None] outside the [int] range. *)
Definition trunc (d : double) : option Z :=
  match d with
  | S754_zero _ => Some 0
  | S754_finite s m e =>
      let a := if 0 <=? e then Z.shiftl (Z.pos m) e else Z.shiftr (Z.pos m) (- e) in
      let n := if s then - a else a in
      if (-2147483648 <=? n) && (n <=? 2147483647) then Some n else None
  | _ => None
  end.

(** ** Items *)

Definition cJSON_False : Z := 0.
Definition cJSON_True : Z := 1.
Definition cJSON_NULL : Z := 2.
Definition cJSON_Number : Z := 3.
Definition cJSON_String : Z := 4.
Definition cJSON_Array : Z := 5.
Definition cJSON_Object : Z := 6.
Definition cJSON_IsReference : Z := 256.

#[warnings="-register-all"]
Inductive item := mkItem {
  type : Z;
  valuestring : option cstr;
  valueint : Z;
  valuedouble : double;
  string : option cstr;
  child : list item
}.

(** [cJSON_New_Item]: all zeros. *)
Definition new_item : item := mkItem 0 None 0 (S754_zero false) None [].

Definition set_name (n : option cstr) (i : item) : item :=
  mkItem (type i) (valuestring i) (valueint i) (valuedouble i) n (child i).
Definition with_type (t : Z) (i : item) : item :=
  mkItem t (valuestring i) (valueint i) (valuedouble i) (string i) (child i).

(** ** Results of the parsing functions

    [Err ep]: NULL is returned and [ep] points to the offending text. *)
Inductive presult (A : Type) :=
  | Fault
  | OutOfFuel
  | Err (ep : cstr)
  | Ok (a : A) (rest : cstr).
Arguments Fault {A}. Arguments OutOfFuel {A}. Arguments Err {A} ep. Arguments Ok {A} a rest.

Definition pbind {A B} (m : presult A) (k : A -> cstr -> presult B) : presult B :=
  match m with
  | Fault => Fault
  | OutOfFuel => OutOfFuel
  | Err ep => Err ep
  | Ok a rest => k a rest
  end.

(** [*ptr]. *)
Definition peek (s : cstr) : Z := match s with [] => 0 | c :: _ => c end.

(** [ptr += n]. *)
Definition advance (n : nat) (s : cstr) : option cstr :=
  if decide (n <= length s)%nat then Some (drop n s) else None.

(** Bytes 1 to 32 are skipped. *)
Fixpoint skip (s : cstr) : cstr :=
  match s with
  | c :: s' => if c <=? 32 then skip s' else s
  | [] => []
  end.

(** ** Numbers *)

Definition is_digit (c : Z) : bool := (48 <=? c) && (c <=? 57).

(** One decimal digit after another is added to [n]; they are also counted. *)
Fixpoint digits_loop (n : double) (count : Z) (s : cstr) : double * Z * cstr :=
  match s with
  | c :: s' =>
      if is_digit c then digits_loop (fadd (fmul n f10) (of_int (c - 48))) (count + 1) s'
      else (n, count, s)
  | [] => (n, count, [])
  end.

Fixpoint exponent_loop (subscale : Z) (s : cstr) : Z * cstr :=
  match s with
  | c :: s' =>
      if is_digit c then exponent_loop (s32 (subscale * 10 + (c - 48))) s' else (subscale, s)
  | [] => (subscale, [])
  end.

(** The formats [%.0f], [%e] and [%f]. *)
Inductive double_format := fmt_0f | fmt_e | fmt_f.

Section json.
Variable pow10 : Z -> double.
Variable big_int : double -> Z.
Variable sprintf_double : double_format -> double -> cstr.

Definition to_int (d : double) : Z := match trunc d with Some n => n | None => big_int d end.

Definition number_value (neg : bool) (n : double) (scale subscale signsubscale : Z) : double :=
  fmul (fmul (if neg then of_int (-1) else of_int 1) n)
       (pow10 (scale + s32 (subscale * signsubscale))).

Definition parse_number (i : item) (num : cstr) : presult item :=
  let neg := peek num =? 45 in
  let num := if neg then tail num else num in
  let num := if peek num =? 48 then tail num else num in
  let '(n, _, num) :=
    if (49 <=? peek num) && (peek num <=? 57) then digits_loop (S754_zero false) 0 num
    else (S754_zero false, 0, num) in
  let '(n, frac, num) :=
    if (peek num =? 46) && is_digit (peek (tail num)) then digits_loop n 0 (tail num)
    else (n, 0, num) in
  let '(subscale, signsubscale, num) :=
    if (peek num =? 101) || (peek num =? 69) then
      let num := tail num in
      let '(sgn, num) :=
        if peek num =? 43 then (1, tail num)
        else if peek num =? 45 then (-1, tail num) else (1, num) in
      let '(subscale, num) := exponent_loop 0 num in (subscale, sgn, num)
    else (0, 1, num) in
  let d := number_value neg n (- frac) subscale signsubscale in
  Ok (mkItem cJSON_Number (valuestring i) (to_int d) d (string i) (child i)) num.

(** ** Strings *)

(** The first loop of [parse_string]: how much to allocate. *)
Fixpoint prescan (len : Z) (s : cstr) : option Z :=
  match s with
  | [] => Some len
  | c :: s' =>
      if c =? 34 then Some len
      else if c =? 92 then
        match s' with [] => None | _ :: s'' => prescan (len + 1) s'' end
      else prescan (len + 1) s'
  end.

Definition hex_digit (c : Z) : option Z :=
  if is_digit c then Some (c - 48)
  else if (97 <=? c) && (c <=? 102) then Some (c - 87)
  else if (65 <=? c) && (c <=? 70) then Some (c - 55)
  else None.

Fixpoint hex_run (width : nat) (acc : Z) (any : bool) (s : cstr) : option Z :=
  match width, s with
  | S width, c :: s' =>
      match hex_digit c with
      | Some d => hex_run width (acc * 16 + d) true s'
      | None => if any then Some acc else None
      end
  | _, _ => if any then Some acc else None
  end.

Fixpoint skip_space (s : cstr) : cstr :=
  match s with
  | c :: s' => if (c =? 32) || ((9 <=? c) && (c <=? 13)) then skip_space s' else s
  | [] => []
  end.

(** [sscanf(s, "%4x", &uc)]: white space, then at most four characters: a sign,
    [0x], hexadecimal digits.  [None]: nothing is stored. *)
Definition sscanf_4x (s : cstr) : option Z :=
  let s := skip_space s in
  let '(neg, width, s) :=
    if peek s =? 45 then (true, 3%nat, tail s)
    else if peek s =? 43 then (false, 3%nat, tail s) else (false, 4%nat, s) in
  let hex := (peek s =? 48) && ((peek (tail s) =? 120) || (peek (tail s) =? 88)) in
  v ← (if hex then hex_run (width - 2) 0 false (tail (tail s)) else hex_run width 0 false s);
  Some (if neg : bool then u32 (- v) else v).

Definition low6 (uc : Z) : Z := u8 (Z.land (Z.lor uc 128) 191).

(** The UTF-8 bytes written for [uc]. *)
Definition utf8 (uc : Z) : bytes :=
  let uc1 := Z.shiftr uc 6 in
  let uc2 := Z.shiftr uc1 6 in
  let uc3 := Z.shiftr uc2 6 in
  if uc <? 128 then [u8 (Z.lor uc 0)]
  else if uc <? 2048 then [u8 (Z.lor uc1 192); low6 uc]
  else if uc <? 65536 then [u8 (Z.lor uc2 224); low6 uc1; low6 uc]
  else [u8 (Z.lor uc3 240); low6 uc2; low6 uc1; low6 uc].

(** What is left in [uc], which is shifted in place as the bytes are written. *)
Definition shifted (uc : Z) : Z :=
  if uc <? 128 then uc
  else if uc <? 2048 then Z.shiftr uc 6
  else if uc <? 65536 then Z.shiftr uc 12
  else Z.shiftr uc 18.

(** The escape [\u]: [s] starts at the [u]; the result starts at its last
    character.  [uc] and [uc2] keep their value when [sscanf] stores nothing;
    they start uninitialised. *)
Definition escape_u (uc uc2 : option Z) (s : cstr)
    : option (bytes * option Z * option Z * cstr) :=
  let uc := match sscanf_4x (tail s) with Some v => Some v | None => uc end in
  s ← advance 4 s;
  v ← uc;
  if ((56320 <=? v) && (v <=? 57343)) || (v =? 0) then Some ([], uc, uc2, s)
  else if (55296 <=? v) && (v <=? 56319) then
    match s with
    | [] => None
    | _ :: s1 =>
        if negb (peek s1 =? 92) then Some ([], uc, uc2, s)
        else if negb (peek (tail s1) =? 117) then Some ([], uc, uc2, s)
        else
          let uc2 := match sscanf_4x (tail (tail s1)) with Some v => Some v | None => uc2 end in
          s ← advance 6 s;
          v2 ← uc2;
          if (v2 <? 56320) || (57343 <? v2) then Some ([], uc, uc2, s)
          else
            let v := 65536 + Z.lor (Z.shiftl (Z.land v 1023) 10) (Z.land v2 1023) in
            Some (utf8 v, Some (shifted v), uc2, s)
    end
  else Some (utf8 v, Some (shifted v), uc2, s).

Definition escape_char (c : Z) : Z :=
  if c =? 98 then 8 else if c =? 102 then 12 else if c =? 110 then 10
  else if c =? 114 then 13 else if c =? 116 then 9 else c.

(** The second loop of [parse_string]. *)
Fixpoint unescape (fuel : nat) (uc uc2 : option Z) (s : cstr) : option (bytes * cstr) :=
  match s with
  | [] => Some ([], [])
  | c :: s' =>
      if c =? 34 then Some ([], s)
      else
        match fuel with
        | O => None
        | S fuel =>
            if c =? 92 then
              match s' with
              | [] => None
              | e :: s'' =>
                  if e =? 117 then
                    '(bs, uc, uc2, s) ← escape_u uc uc2 s';
                    s ← advance 1 s;
                    '(out, rest) ← unescape fuel uc uc2 s;
                    Some (bs ++ out, rest)
                  else
                    '(out, rest) ← unescape fuel uc uc2 s'';
                    Some (escape_char e :: out, rest)
              end
            else
              '(out, rest) ← unescape fuel uc uc2 s';
              Some (c :: out, rest)
        end
  end.

(** Every round moves the pointer on, so [length s] rounds are enough. *)
Definition parse_string (i : item) (str : cstr) : presult item :=
  if negb (peek str =? 34) then Err str
  else
    let ptr := tail str in
    match prescan 0 ptr with
    | None => Fault
    | Some len =>
        match unescape (length ptr) None None ptr with
        | None => Fault
        | Some (out, ptr) =>
            if len <? Z.of_nat (length out) then Fault
            else
              let ptr := if peek ptr =? 34 then tail ptr else ptr in
              Ok (mkItem cJSON_String (Some out) (valueint i) (valuedouble i) (string i) (child i)) ptr
        end
    end.

(** ** Values, arrays, objects *)

Definition lit_null : cstr := [110; 117; 108; 108].
Definition lit_false : cstr := [102; 97; 108; 115; 101].
Definition lit_true : cstr := [116; 114; 117; 101].

(** [strncmp(value, lit, n)] with [n = strlen(lit)]. *)
Definition starts_with (lit value : cstr) : bool := bool_decide (take (length lit) value = lit).

Definition is_object_key (i : item) : item :=
  mkItem (type i) None (valueint i) (valuedouble i) (valuestring i) (child i).

Fixpoint parse_value (fuel : nat) (i : item) (value : cstr) {struct fuel} : presult item :=
  match fuel with
  | O => OutOfFuel
  | S fuel =>
      if starts_with lit_null value then Ok (with_type cJSON_NULL i) (drop 4 value)
      else if starts_with lit_false value then Ok (with_type cJSON_False i) (drop 5 value)
      else if starts_with lit_true value then
        Ok (mkItem cJSON_True (valuestring i) 1 (valuedouble i) (string i) (child i)) (drop 4 value)
      else if peek value =? 34 then parse_string i value
      else if (peek value =? 45) || is_digit (peek value) then parse_number i value
      else if peek value =? 91 then parse_array fuel i value
      else if peek value =? 123 then parse_object fuel i value
      else Err value
  end
with parse_array (fuel : nat) (i : item) (value : cstr) {struct fuel} : presult item :=
  match fuel with
  | O => OutOfFuel
  | S fuel =>
      if negb (peek value =? 91) then Err value
      else
        let value := skip (tail value) in
        if peek value =? 93 then Ok (with_type cJSON_Array i) (tail value)
        else
          pbind (parse_value fuel new_item (skip value)) (fun c value =>
          pbind (array_rest fuel [c] (skip value)) (fun cs value =>
          Ok (mkItem cJSON_Array (valuestring i) (valueint i) (valuedouble i) (string i) cs) value))
  end
with array_rest (fuel : nat) (done : list item) (value : cstr) {struct fuel} : presult (list item) :=
  match fuel with
  | O => OutOfFuel
  | S fuel =>
      if peek value =? 44 then
        pbind (parse_value fuel new_item (skip (tail value))) (fun c value =>
        array_rest fuel (done ++ [c]) (skip value))
      else if peek value =? 93 then Ok done (tail value)
      else Err value
  end
with parse_object (fuel : nat) (i : item) (value : cstr) {struct fuel} : presult item :=
  match fuel with
  | O => OutOfFuel
  | S fuel =>
      if negb (peek value =? 123) then Err value
      else
        let value := skip (tail value) in
        if peek value =? 125 then Ok (with_type cJSON_Object i) (tail value)
        else
          pbind (parse_member fuel value) (fun c value =>
          pbind (object_rest fuel [c] (skip value)) (fun cs value =>
          Ok (mkItem cJSON_Object (valuestring i) (valueint i) (valuedouble i) (string i) cs) value))
  end
with parse_member (fuel : nat) (value : cstr) {struct fuel} : presult item :=
  match fuel with
  | O => OutOfFuel
  | S fuel =>
      pbind (parse_string new_item (skip value)) (fun c value =>
      let value := skip value in
      if negb (peek value =? 58) then Err value
      else parse_value fuel (is_object_key c) (skip (tail value)))
  end
with object_rest (fuel : nat) (done : list item) (value : cstr) {struct fuel} : presult (list item) :=
  match fuel with
  | O => OutOfFuel
  | S fuel =>
      if peek value =? 44 then
        pbind (parse_member fuel (tail value)) (fun c value =>
        object_rest fuel (done ++ [c]) (skip value))
      else if peek value =? 125 then Ok done (tail value)
      else Err value
  end.

Definition cJSON_ParseWithOpts (value : cstr) (require_null_terminated : bool) : presult item :=
  pbind (parse_value (2 * length value + 2) new_item (skip value)) (fun c rest =>
    if require_null_terminated then
      let rest := skip rest in match rest with [] => Ok c rest | _ => Err rest end
    else Ok c rest).

Definition cJSON_Parse (value : cstr) : presult item := cJSON_ParseWithOpts value false.

(** ** Printing

    [None] is a write past the end of the buffer allocated; [Some None] is the
    NULL returned for a node of unknown type. *)

Fixpoint dec_loop (fuel : nat) (n : Z) (acc : cstr) : cstr :=
  match fuel with
  | O => acc
  | S fuel =>
      let acc := (48 + n mod 10) :: acc in
      if n / 10 =? 0 then acc else dec_loop fuel (n / 10) acc
  end.

(** [sprintf("%d")] of an [int]. *)
Definition print_dec (n : Z) : cstr :=
  if n <? 0 then 45 :: dec_loop 10 (- n) [] else dec_loop 10 n [].

Definition as_integer (k : Z) (d : double) : bool :=
  SFleb (SFabs (fsub (of_int k) d)) DBL_EPSILON
  && SFleb d (of_int 2147483647) && SFleb (of_int (-2147483648)) d.

(** A text of [n] bytes and its NUL, in a buffer of [size] bytes. *)
Definition in_buffer (size : Z) (text : cstr) : option cstr :=
  if Z.of_nat (length text) + 1 <=? size then Some text else None.

(** [floor]. *)
Definition ffloor (d : double) : double :=
  match d with
  | S754_finite s m e =>
      if 0 <=? e then d
      else
        let n := if s then Z.neg m else Z.pos m in
        binary_normalize 53 1024 (n / 2 ^ (- e)) 0 s
  | _ => d
  end.

Definition format_of (d : double) : double_format :=
  if SFleb (SFabs (fsub (ffloor d) d)) DBL_EPSILON && SFltb (SFabs d) (of_int (10 ^ 60)) then fmt_0f
  else if SFltb (SFabs d) (SFdiv 53 1024 (of_int 1) (of_int (10 ^ 6)))
          || SFltb (of_int (10 ^ 9)) (SFabs d) then fmt_e
  else fmt_f.

Definition print_number (i : item) : option cstr :=
  let d := valuedouble i in
  if as_integer (valueint i) d then in_buffer 21 (print_dec (valueint i))
  else in_buffer 64 (sprintf_double (format_of d) d).

Definition hex_char (d : Z) : Z := if d <? 10 then 48 + d else 87 + d.

(** [sprintf(ptr2, "u%04x", token)]. *)
Definition print_u (token : Z) : cstr :=
  [117; hex_char (Z.shiftr token 12 mod 16); hex_char (Z.shiftr token 8 mod 16);
   hex_char (Z.shiftr token 4 mod 16); hex_char (token mod 16)].

(** What follows the backslash. *)
Definition escape_of (token : Z) : cstr :=
  if token =? 92 then [92] else if token =? 34 then [34] else if token =? 8 then [98]
  else if token =? 12 then [102] else if token =? 10 then [110] else if token =? 13 then [114]
  else if token =? 9 then [116] else print_u token.

Definition plain_char (c : Z) : bool := (31 <? c) && negb (c =? 34) && negb (c =? 92).

(** The length loop and the copying loop of [print_string_ptr]. *)
Fixpoint escaped_len (s : cstr) : Z :=
  match s with
  | [] => 0
  | token :: s =>
      (if (token =? 34) || (token =? 92) || (token =? 8) || (token =? 12) || (token =? 10)
          || (token =? 13) || (token =? 9) then 2
       else if token <? 32 then 6 else 1) + escaped_len s
  end.

Fixpoint escape_body (s : cstr) : cstr :=
  match s with
  | [] => []
  | c :: s => (if plain_char c then [c] else 92 :: escape_of c) ++ escape_body s
  end.

Definition print_string_ptr (str : option cstr) : option cstr :=
  match str with
  | None => Some []
  | Some s => in_buffer (escaped_len s + 3) (34 :: escape_body s ++ [34])
  end.

Definition all_some {A} (l : list (option A)) : option (list A) := mapM id l.

(** The [', '] after every entry but the last. *)
Fixpoint join_array (fmt : bool) (entries : list cstr) : cstr :=
  match entries with
  | [] => []
  | [e] => e
  | e :: es => e ++ 44 :: (if fmt then [32] else []) ++ join_array fmt es
  end.

(** [print_array] once the entries are printed. *)
Definition compose_array (fmt : bool) (entries : list (option cstr)) : option (option cstr) :=
  match entries with
  | [] => t ← in_buffer 3 [91; 93]; Some (Some t)
  | _ =>
      match all_some entries with
      | None => Some None
      | Some es =>
          let len := foldl (fun len e => len + Z.of_nat (length e) + 2 + (if fmt then 1 else 0)) 5 es in
          t ← in_buffer len (91 :: join_array fmt es ++ [93]); Some (Some t)
      end
  end.

Definition tabs (n : Z) : cstr := replicate (Z.to_nat n) 9.

Fixpoint join_object (fmt : bool) (depth : Z) (members : list (cstr * cstr)) : cstr :=
  match members with
  | [] => []
  | (n, e) :: ms =>
      (if fmt then tabs depth else []) ++ n ++ 58 :: (if fmt then [9] else []) ++ e
      ++ (match ms with [] => [] | _ => [44] end) ++ (if fmt then [10] else [])
      ++ join_object fmt depth ms
  end.

(** [print_object] once names and entries are printed. *)
Definition compose_object (depth : Z) (fmt : bool) (names : list cstr) (entries : list (option cstr))
    : option (option cstr) :=
  match entries with
  | [] =>
      t ← in_buffer (if fmt then depth + 3 else 3)
            (123 :: (if fmt then 10 :: tabs (depth - 1) else []) ++ [125]);
      Some (Some t)
  | _ =>
      match all_some entries with
      | None => Some None
      | Some es =>
          let depth := depth + 1 in
          let len := foldl (fun len m => len + Z.of_nat (length m.2) + Z.of_nat (length m.1) + 2
                                         + (if fmt then 2 + depth else 0))
                           (7 + (if fmt then depth else 0)) (zip names es) in
          t ← in_buffer len
                (123 :: (if fmt then [10] else []) ++ join_object fmt depth (zip names es)
                 ++ (if fmt then tabs (depth - 1) else []) ++ [125]);
          Some (Some t)
      end
  end.

Fixpoint print_value (depth : Z) (fmt : bool) (i : item) {struct i} : option (option cstr) :=
  let t := Z.land (type i) 255 in
  if t =? cJSON_NULL then Some (Some lit_null)
  else if t =? cJSON_False then Some (Some lit_false)
  else if t =? cJSON_True then Some (Some lit_true)
  else if t =? cJSON_Number then s ← print_number i; Some (Some s)
  else if t =? cJSON_String then s ← print_string_ptr (valuestring i); Some (Some s)
  else if t =? cJSON_Array then
    es ← mapM (print_value (depth + 1) fmt) (child i); compose_array fmt es
  else if t =? cJSON_Object then
    names ← mapM (fun c => print_string_ptr (string c)) (child i);
    es ← mapM (print_value (depth + 1) fmt) (child i);
    compose_object depth fmt names es
  else Some None.

Definition cJSON_Print (i : item) : option (option cstr) := print_value 0 true i.
Definition cJSON_PrintUnformatted (i : item) : option (option cstr) := print_value 0 false i.
End json.

(** ** Strings: printing then parsing *)

Lemma escape_body_len s : Z.of_nat (length (escape_body s)) = escaped_len s.
Proof.
  induction s as [|c s IH]; simpl; [done|]. rewrite length_app, Nat2Z.inj_add, IH. f_equal.
  unfold plain_char, escape_of.
  destruct (Z.ltb_spec 31 c), (Z.eqb_spec c 34), (Z.eqb_spec c 92), (Z.eqb_spec c 8), (Z.eqb_spec c 12),
    (Z.eqb_spec c 10), (Z.eqb_spec c 13), (Z.eqb_spec c 9), (Z.ltb_spec c 32); simpl; lia.
Qed.

(** The buffer [print_string_ptr] allocates is exactly filled. *)
Lemma print_string_ptr_ok s : print_string_ptr (Some s) = Some (34 :: escape_body s ++ [34]).
Proof.
  unfold print_string_ptr, in_buffer. pose proof (escape_body_len s).
  rewrite (proj2 (Z.leb_le _ _)); [done|]. simpl. rewrite length_app. simpl. lia.
Qed.

(** How one escaped character is scanned and read back. *)
Definition escaped (c : Z) : cstr := if plain_char c then [c] else 92 :: escape_of c.

Lemma escape_body_cons c s : escape_body (c :: s) = escaped c ++ escape_body s.
Proof. done. Qed.

Lemma small_cases (P : Z -> Prop) (lo n : nat) c :
  Z.of_nat lo <= c < Z.of_nat (lo + n) -> Forall P (map Z.of_nat (seq lo n)) -> P c.
Proof.
  intros Hc HP. rewrite Forall_forall in HP. apply HP, list_elem_of_fmap.
  exists (Z.to_nat c). split; [lia|]. apply elem_of_seq. lia.
Qed.

Lemma advance_app p s : advance (length p) (p ++ s) = Some s.
Proof.
  unfold advance. rewrite decide_True by (rewrite length_app; lia). by rewrite drop_app_length.
Qed.

(** A character is written as itself, as a two-character escape, or as [\u00XX]. *)
Inductive escape_form : Z -> cstr -> Prop :=
| form_plain c : c <> 34 -> c <> 92 -> escape_form c [c]
| form_short c e : e <> 117 -> escape_char e = c -> escape_form c [92; e]
| form_u c h1 h2 :
    (forall s, sscanf_4x (48 :: 48 :: h1 :: h2 :: s) = Some c) -> 0 < c < 32 ->
    h1 <> 34 -> h1 <> 92 -> h2 <> 34 -> h2 <> 92 ->
    escape_form c [92; 117; 48; 48; h1; h2].

Lemma escaped_form c : 0 < c < 256 -> escape_form c (escaped c).
Proof.
  intros Hc. unfold escaped. destruct (Z.lt_ge_cases c 32) as [Hlt|Hge].
  - apply (small_cases (fun c => escape_form c (if plain_char c then [c] else 92 :: escape_of c)) 1 31 c);
      [simpl; lia|].
    cbn [map seq]. repeat (apply Forall_cons; split); [..|apply Forall_nil; exact I]; vm_compute;
      first [ apply form_short; [discriminate|reflexivity]
            | apply form_u; [intros; reflexivity|lia|discriminate..] ].
  - unfold plain_char. rewrite (proj2 (Z.ltb_lt 31 c)) by lia.
    destruct (Z.eqb_spec c 34) as [->|]; [by apply form_short|].
    destruct (Z.eqb_spec c 92) as [->|]; [by apply form_short|]. by constructor.
Qed.

Lemma prescan_escaped c e len s :
  escape_form c e -> exists k, 1 <= k /\ prescan len (e ++ s) = prescan (len + k) s.
Proof.
  destruct 1 as [c H1 H2|c e H1 H2|c h1 h2 Hs Hc H1 H2 H3 H4]; simpl.
  - exists 1. rewrite (proj2 (Z.eqb_neq c 34)), (proj2 (Z.eqb_neq c 92)) by done. split; [lia|done].
  - exists 1. split; [lia|done].
  - exists 5. rewrite (proj2 (Z.eqb_neq h1 34)), (proj2 (Z.eqb_neq h1 92)),
      (proj2 (Z.eqb_neq h2 34)), (proj2 (Z.eqb_neq h2 92)) by done. split; [lia|f_equal; lia].
Qed.

Lemma unescape_escaped c e fuel uc uc2 s :
  escape_form c e ->
  exists uc', unescape (S fuel) uc uc2 (e ++ s)
    = '(out, rest) ← unescape fuel uc' uc2 s; Some (c :: out, rest).
Proof.
  destruct 1 as [c H1 H2|c e H1 H2|c h1 h2 Hs Hc H1 H2 H3 H4]; simpl.
  - rewrite (proj2 (Z.eqb_neq c 34)), (proj2 (Z.eqb_neq c 92)) by done. by exists uc.
  - rewrite (proj2 (Z.eqb_neq e 117)), H2 by done. by exists uc.
  - exists (Some (shifted c)). unfold escape_u. simpl tail. rewrite Hs.
    change (117 :: 48 :: 48 :: h1 :: h2 :: s) with ([117; 48; 48; h1] ++ h2 :: s).
    change 4%nat with (length [117; 48; 48; h1]). rewrite advance_app. cbn [mbind option_bind].
    rewrite (proj2 (Z.leb_gt 56320 c)), (proj2 (Z.leb_gt 55296 c)), (proj2 (Z.eqb_neq c 0)) by lia.
    cbn [andb orb]. cbv iota. cbn [mbind option_bind].
    change (h2 :: s) with ([h2] ++ s). change 1%nat with (length [h2]). rewrite advance_app.
    cbn [mbind option_bind]. unfold utf8. rewrite (proj2 (Z.ltb_lt c 128)) by lia.
    rewrite Z.lor_0_r, wrapu_id by width_lia.
    by destruct (unescape fuel (Some (shifted c)) uc2 s) as [[out rest]|].
Qed.

Lemma prescan_body s len rest :
  is_cstr s -> exists k, Z.of_nat (length s) <= k /\ prescan len (escape_body s ++ 34 :: rest) = Some (len + k).
Proof.
  intros Hs. revert len. induction Hs as [|c s Hc Hs IH]; intros len.
  - exists 0. simpl. split; [lia|]. by rewrite Z.add_0_r.
  - rewrite escape_body_cons, <- app_assoc.
    destruct (prescan_escaped c (escaped c) len (escape_body s ++ 34 :: rest)) as (k & Hk & ->);
      [by apply escaped_form|].
    destruct (IH (len + k)) as (k' & Hk' & ->). exists (k + k'). simpl length. split; [lia|].
    by rewrite Z.add_assoc.
Qed.

Lemma unescape_body s fuel uc uc2 rest :
  is_cstr s -> (length s <= fuel)%nat ->
  unescape fuel uc uc2 (escape_body s ++ 34 :: rest) = Some (s, 34 :: rest).
Proof.
  intros Hs. revert fuel uc. induction Hs as [|c s Hc Hs IH]; intros fuel uc Hf.
  - destruct fuel; done.
  - destruct fuel as [|fuel]; [simpl in Hf; lia|]. rewrite escape_body_cons, <- app_assoc.
    destruct (unescape_escaped c (escaped c) fuel uc uc2 (escape_body s ++ 34 :: rest)) as (uc' & ->);
      [by apply escaped_form|].
    rewrite IH by (simpl in Hf; lia). done.
Qed.

Lemma escape_body_length s : (length s <= length (escape_body s))%nat.
Proof.
  induction s as [|c s IH]; simpl; [lia|]. rewrite length_app. destruct (plain_char c); simpl; lia.
Qed.

(** strings survive: for every C string, [parse_string] applied to what
    [print_string_ptr] prints, whatever text follows, gives the string back,
    stops right behind the closing quote, and stays inside both buffers. *)
Theorem string_roundtrip s i rest :
  is_cstr s ->
  exists text, print_string_ptr (Some s) = Some text
    /\ parse_string i (text ++ rest)
       = Ok (mkItem cJSON_String (Some s) (valueint i) (valuedouble i) (string i) (child i)) rest.
Proof.
  intros Hs. exists (34 :: escape_body s ++ [34]). split; [apply print_string_ptr_ok|].
  unfold parse_string. simpl. rewrite <- app_assoc. simpl.
  destruct (prescan_body s 0 rest Hs) as (k & Hk & ->).
  rewrite unescape_body; [|done|rewrite length_app; pose proof (escape_body_length s); lia].
  rewrite (proj2 (Z.ltb_ge _ _)) by lia. done.
Qed.

Lemma string_roundtrip_witness :
  exists text, print_string_ptr (Some [97; 34; 7; 200; 10]) = Some text
    /\ parse_string new_item (text ++ [44])
       = Ok (mkItem cJSON_String (Some [97; 34; 7; 200; 10]) 0 (S754_zero false) None []) [44].
Proof.
  apply (string_roundtrip [97; 34; 7; 200; 10] new_item [44]). repeat constructor; lia.
Defined.

(** A [\u] escape shorter than four digits makes the parser step over the
    closing quote: the string [\u1] followed by more text than the two bytes
    allocated overruns the buffer.  With no digit at all the code point is
    uninitialised. *)
Lemma parse_string_short_escape :
  parse_string new_item [34; 92; 117; 49; 34; 65; 65; 65; 65; 65; 65; 34] = Fault
  /\ parse_string new_item [34; 92; 117; 120; 120; 120; 120; 34] = Fault.
Proof. split; vm_compute; reflexivity. Qed.

(** A backslash at the end of the text moves the pointer past the NUL. *)
Lemma parse_string_trailing_backslash : parse_string new_item [34; 97; 92] = Fault.
Proof. vm_compute. reflexivity. Qed.

(** ** Numbers: printing then parsing *)

Definition is_int32 (k : Z) : Prop := -2147483648 <= k <= 2147483647.

Lemma int_exact k : is_int32 k -> Z.abs k < 2 ^ 53 /\ trunc (of_int k) = Some k.
Proof.
  intros H. unfold is_int32 in H. split; [lia|]. destruct k as [|m|m]; [done| |]; to_fin; unfold fin, trunc;
    rewrite fin_value by lia; (case_if; [done|]); bool_to_prop; lia.
Qed.

(** The value of a text of decimal digits that follow the number [n]. *)
Definition dec_value (n : Z) (s : cstr) : Z := foldl (fun n c => n * 10 + (c - 48)) n s.

Lemma dec_loop_S fuel n acc :
  dec_loop (S fuel) n acc =
    if n / 10 =? 0 then (48 + n mod 10) :: acc else dec_loop fuel (n / 10) ((48 + n mod 10) :: acc).
Proof. done. Qed.

Lemma dec_value_step n acc m : 0 <= n -> m = n / 10 -> dec_value m ((48 + n mod 10) :: acc) = dec_value n acc.
Proof. intros Hn ->. unfold dec_value. cbn [foldl]. f_equal. div_lia. Qed.

Lemma dec_loop_value fuel : forall n acc,
  0 <= n < 10 ^ Z.of_nat (S fuel) -> dec_value 0 (dec_loop (S fuel) n acc) = dec_value n acc.
Proof.
  induction fuel as [|fuel IH]; intros n acc Hn; rewrite dec_loop_S; destruct (Z.eqb_spec (n / 10) 0) as [E|E].
  1, 3: by apply dec_value_step; lia.
  - exfalso. change (10 ^ Z.of_nat 1) with 10 in Hn. div_lia.
  - rewrite IH; [by apply dec_value_step; lia|].
    rewrite Nat2Z.inj_succ, Z.pow_succ_r in Hn by lia. set (p := 10 ^ Z.of_nat (S fuel)) in *. div_lia.
Qed.

(** Digits without a leading zero. *)
Lemma dec_loop_digits fuel : forall n acc,
  0 <= n -> Forall (fun c => is_digit c = true) acc ->
  Forall (fun c => is_digit c = true) (dec_loop fuel n acc)
  /\ (length (dec_loop fuel n acc) <= fuel + length acc)%nat
  /\ (0 < n < 10 ^ Z.of_nat fuel -> 49 <= peek (dec_loop fuel n acc) <= 57).
Proof.
  induction fuel as [|fuel IH]; intros n acc Hn Ha; cbn [dec_loop].
  { split; [done|]. split; [simpl; lia|]. change (10 ^ Z.of_nat 0) with 1. lia. }
  assert (Hc : Forall (fun c => is_digit c = true) ((48 + n mod 10) :: acc)).
  { constructor; [|done]. unfold is_digit. apply andb_true_iff. rewrite !Z.leb_le. div_lia. }
  destruct (Z.eqb_spec (n / 10) 0) as [E|E].
  - split; [done|]. split; [simpl; lia|]. intros Hb. cbn [peek]. div_lia.
  - destruct (IH (n / 10) _ ltac:(div_lia) Hc) as (H1 & H2 & H3). split; [done|]. split; [simpl in H2; lia|].
    intros Hb. apply H3. rewrite Nat2Z.inj_succ, Z.pow_succ_r in Hb by lia.
    set (p := 10 ^ Z.of_nat fuel) in *. div_lia.
Qed.

(** [digits_loop] reads the digits exactly. *)
Lemma digits_loop_exact s : forall n count rest,
  Forall (fun c => is_digit c = true) s -> is_digit (peek rest) = false ->
  0 <= n -> dec_value n s < 2 ^ 53 ->
  exists count', digits_loop (of_int n) count (s ++ rest) = (of_int (dec_value n s), count', rest).
Proof.
  induction s as [|c s IH]; intros n count rest Hs Hr Hn Hv.
  - exists count. destruct rest as [|r rest]; [done|]. cbn [app digits_loop]. simpl in Hr. by rewrite Hr.
  - apply Forall_cons in Hs as [Hc Hs]. cbn [app digits_loop]. rewrite Hc.
    assert (Hd : 0 <= c - 48 <= 9) by (unfold is_digit in Hc; bool_to_prop; lia).
    change (dec_value n (c :: s)) with (dec_value (n * 10 + (c - 48)) s) in *.
    assert (Hle : forall l k, Forall (fun c => is_digit c = true) l -> 0 <= k -> k <= dec_value k l).
    { clear. induction l as [|c l IH]; intros k Hl Hk; [done|]. apply Forall_cons in Hl as [Hc Hl].
      unfold is_digit in Hc. bool_to_prop. specialize (IH (k * 10 + (c - 48)) Hl ltac:(lia)).
      change (dec_value k (c :: l)) with (dec_value (k * 10 + (c - 48)) l). lia. }
    specialize (Hle s (n * 10 + (c - 48)) Hs ltac:(lia)).
    assert (E : fadd (fmul (of_int n) f10) (of_int (c - 48)) = of_int (n * 10 + (c - 48))).
    { unfold fadd, fmul, f10. rewrite <- of_int_add by lia. f_equal.
      destruct (decide (n = 0)) as [->|]; [done|]. apply (of_int_mul n 10); lia. }
    rewrite E. apply IH; [done|done|lia|done].
Qed.

Section int_roundtrip.
Variable pow10 : Z -> double.
Variable big_int : double -> Z.
Variable sprintf_double : double_format -> double -> cstr.
Hypothesis pow10_0 : pow10 0 = of_int 1.

Lemma number_value_int neg n :
  0 <= n -> is_int32 (if neg : bool then - n else n) -> (neg = true -> n <> 0) ->
  number_value pow10 neg (of_int n) (- 0) 0 1 = of_int (if neg then - n else n).
Proof.
  intros Hn Hi Hz. unfold number_value, fmul, is_int32 in *. change (- 0 + s32 (0 * 1)) with 0. rewrite pow10_0.
  destruct (decide (n = 0)) as [->|Hn0]; [destruct neg; [by destruct Hz|done]|].
  assert (E : SFmul 53 1024 (if neg : bool then of_int (-1) else of_int 1) (of_int n)
              = of_int (if neg then - n else n)).
  { destruct neg; rewrite of_int_mul by lia; f_equal; lia. }
  rewrite E, of_int_mul by (destruct neg; lia). f_equal. lia.
Qed.

Lemma delim_char rest : (match rest with [] => True | c :: _ => c = 44 \/ c = 93 \/ c = 125 \/ c <= 32 end) ->
  is_digit (peek rest) = false /\ (peek rest =? 48) = false /\ (peek rest =? 46) = false
  /\ (peek rest =? 101) || (peek rest =? 69) = false.
Proof.
  intros H. assert (Hp : peek rest = 44 \/ peek rest = 93 \/ peek rest = 125 \/ peek rest <= 32)
    by (destruct rest; simpl in *; lia).
  unfold is_digit. split_and!; [|apply Z.eqb_neq; lia|apply Z.eqb_neq; lia|].
  - destruct (Z.leb_spec 48 (peek rest)); [|done]. apply Z.leb_gt. lia.
  - by rewrite (proj2 (Z.eqb_neq _ 101)), (proj2 (Z.eqb_neq _ 69)) by lia.
Qed.

(** The digits of [n], and what [parse_number] makes of them. *)
Lemma parse_digits t nm neg n rest :
  0 <= n -> is_int32 (if neg : bool then - n else n) -> (neg = true -> n <> 0) ->
  (match rest with [] => True | c :: _ => c = 44 \/ c = 93 \/ c = 125 \/ c <= 32 end) ->
  parse_number pow10 big_int (mkItem t None 0 (S754_zero false) nm [])
    ((if neg then [45] else []) ++ dec_loop 10 n [] ++ rest)
  = Ok (mkItem cJSON_Number None (if neg then - n else n) (of_int (if neg then - n else n)) nm []) rest.
Proof.
  intros Hn Hi Hz Hr. destruct (delim_char rest Hr) as (R1 & R2 & R3 & R4).
  assert (Hn10 : 0 <= n < 10 ^ Z.of_nat 10) by (unfold is_int32 in Hi; destruct neg; simpl; lia).
  destruct (dec_loop_digits 10 n [] Hn ltac:(constructor)) as (Hd & _ & Hfst).
  set (text := dec_loop 10 n []) in *.
  assert (Hne : text <> []). { unfold text. cbn [dec_loop]. clear. repeat case_if; done. }
  assert (Hpk : peek (text ++ rest) = peek text) by by destruct text.
  assert (Hdig : is_digit (peek text) = true) by (destruct text; [done|]; by apply Forall_cons in Hd as [? _]).
  assert (E1 : (if peek ((if neg then [45] else []) ++ text ++ rest) =? 45
                then tail ((if neg then [45] else []) ++ text ++ rest)
                else (if neg then [45] else []) ++ text ++ rest) = text ++ rest
               /\ (peek ((if neg then [45] else []) ++ text ++ rest) =? 45) = neg).
  { destruct neg; [done|]. cbn [app]. rewrite Hpk. unfold is_digit in Hdig. bool_to_prop.
    by rewrite (proj2 (Z.eqb_neq _ 45)) by lia. }
  destruct E1 as [E1 E2]. unfold parse_number. rewrite E2. rewrite E2 in E1. rewrite E1. clear E1 E2.
  assert (Hfin : to_int big_int (of_int (if neg then - n else n)) = if neg then - n else n).
  { unfold to_int. by rewrite (proj2 (int_exact _ Hi)). }
  destruct (decide (n = 0)) as [->|Hn0].
  - change text with [48]. cbn [app peek tail]. change (48 =? 48) with true. cbv iota.
    unfold is_digit in R1. assert ((49 <=? peek rest) && (peek rest <=? 57) = false) as ->.
    { destruct (Z.leb_spec 49 (peek rest)); [|done]. rewrite (proj2 (Z.leb_le 48 _)) in R1 by lia. done. }
    rewrite R3. cbn [andb]. rewrite R4. change (S754_zero false) with (of_int 0).
    rewrite number_value_int by done. by rewrite Hfin.
  - specialize (Hfst ltac:(lia)). rewrite Hpk, (proj2 (Z.eqb_neq _ 48)) by lia. rewrite Hpk.
    rewrite (proj2 (Z.leb_le 49 _)), (proj2 (Z.leb_le _ 57)) by lia. cbn [andb].
    pose proof (dec_loop_value 9 n [] Hn10) as Hv. fold text in Hv. change (dec_value n []) with n in Hv.
    destruct (digits_loop_exact text 0 0 rest Hd R1 ltac:(lia)) as (count & E).
    { rewrite Hv. unfold is_int32 in Hi. destruct neg; lia. }
    change (S754_zero false) with (of_int 0). rewrite E, Hv. rewrite R3. cbn [andb]. rewrite R4.
    rewrite number_value_int by done. by rewrite Hfin.
Qed.

Lemma print_dec_split k :
  print_dec k = (if k <? 0 then [45] else []) ++ dec_loop 10 (if k <? 0 then - k else k) [].
Proof. unfold print_dec. by destruct (k <? 0). Qed.

(** An [int] is printed within its 21 bytes. *)
Lemma print_int k n : is_int32 k ->
  print_number sprintf_double (mkItem cJSON_Number None k (of_int k) n []) = Some (print_dec k).
Proof.
  intros Hk. pose proof (int_exact k Hk) as [Ha _]. unfold print_number. cbn [valuedouble valueint].
  unfold as_integer, fsub. rewrite of_int_sub_self by done. unfold is_int32 in Hk.
  rewrite !of_int_le by lia. rewrite (proj2 (Z.leb_le k _)), (proj2 (Z.leb_le _ k)) by lia.
  cbn. unfold in_buffer. rewrite print_dec_split.
  destruct (dec_loop_digits 10 (if k <? 0 then - k else k) []) as (_ & Hl & _);
    [destruct (Z.ltb_spec k 0); lia|constructor|].
  rewrite (proj2 (Z.leb_le _ _)); [done|]. rewrite length_app. simpl length in Hl. destruct (k <? 0); simpl length; lia.
Qed.

Lemma print_dec_peek k : is_int32 k -> peek (print_dec k) = 45 \/ is_digit (peek (print_dec k)) = true.
Proof.
  intros Hk. rewrite print_dec_split. destruct (Z.ltb_spec k 0) as [H|H]; [by left|right]. cbn [app].
  destruct (dec_loop_digits 10 k []) as (Hd & _); [done|constructor|].
  destruct (dec_loop 10 k []) eqn:E; [|by apply Forall_cons in Hd as [? _]].
  cbn [dec_loop] in E. exfalso. revert E. clear. repeat case_if; done.
Qed.

Lemma parse_int k t nm rest :
  is_int32 k -> (match rest with [] => True | c :: _ => c = 44 \/ c = 93 \/ c = 125 \/ c <= 32 end) ->
  parse_number pow10 big_int (mkItem t None 0 (S754_zero false) nm []) (print_dec k ++ rest)
  = Ok (mkItem cJSON_Number None k (of_int k) nm []) rest.
Proof.
  intros Hk Hr. rewrite print_dec_split, <- app_assoc.
  pose proof (parse_digits t nm (k <? 0) (if k <? 0 then - k else k) rest) as H.
  destruct (Z.ltb_spec k 0) as [Hlt|Hge].
  - rewrite Z.opp_involutive in H. apply H; (done || lia).
  - apply H; (done || lia).
Qed.
End int_roundtrip.

(** ** Trees *)

Section item_ind.
Variable P : item -> Prop.
Hypothesis step : forall t vs vi vd n cs, Forall P cs -> P (mkItem t vs vi vd n cs).

Fixpoint item_ind' (i : item) : P i :=
  match i with
  | mkItem t vs vi vd n cs =>
      step t vs vi vd n cs
        ((fix go cs : Forall P cs :=
            match cs with
            | [] => Forall_nil_2 P
            | c :: cs => Forall_cons_2 P c cs (item_ind' c) (go cs)
            end) cs)
  end.
End item_ind.

(** What may follow a value: nothing, white space, or the punctuation of the
    enclosing array or object. *)
Definition delim (rest : cstr) : Prop :=
  match rest with [] => True | c :: _ => c = 44 \/ c = 93 \/ c = 125 \/ c <= 32 end.

(** A token: what [skip] does not eat and no closing bracket. *)
Definition tok (t : cstr) : Prop := 32 < peek t /\ peek t <> 93 /\ peek t <> 125 /\ t <> [].

Lemma skip_tok t rest : 32 < peek t -> t <> [] -> skip (t ++ rest) = t ++ rest.
Proof.
  destruct t as [|c t]; [done|]. simpl. intros Hc _. by rewrite (proj2 (Z.leb_gt c 32)).
Qed.

Lemma skip_ws w s : Forall (fun c => c <= 32) w -> skip (w ++ s) = skip s.
Proof. induction 1 as [|c w Hc Hw IH]; simpl; [done|]. by rewrite (proj2 (Z.leb_le c 32)). Qed.

Lemma skip_idem s : skip (skip s) = skip s.
Proof.
  induction s as [|c s IH]; simpl; [done|]. destruct (Z.leb_spec c 32); [done|].
  simpl. by rewrite (proj2 (Z.leb_gt c 32)).
Qed.

Lemma starts_with_no lit value : lit <> [] -> peek value <> peek lit -> starts_with lit value = false.
Proof.
  intros Hl Hp. apply bool_decide_eq_false. destruct lit as [|l lit]; [done|].
  destruct value as [|v value]; simpl; [done|]. simpl in Hp. congruence.
Qed.

Lemma starts_with_app lit rest : starts_with lit (lit ++ rest) = true.
Proof. apply bool_decide_eq_true. by rewrite take_app_length. Qed.

Section roundtrip.
Variable pow10 : Z -> double.
Variable big_int : double -> Z.
Variable sprintf_double : double_format -> double -> cstr.
Hypothesis pow10_0 : pow10 0 = of_int 1.

Local Abbreviation parse_value := (parse_value pow10 big_int).
Local Abbreviation parse_array := (parse_array pow10 big_int).
Local Abbreviation array_rest := (array_rest pow10 big_int).
Local Abbreviation parse_object := (parse_object pow10 big_int).
Local Abbreviation parse_member := (parse_member pow10 big_int).
Local Abbreviation object_rest := (object_rest pow10 big_int).
Local Abbreviation print_value := (print_value sprintf_double).

Definition zero : double := S754_zero false.

(** The trees [cJSON_Parse] builds from text whose numbers are [int]s. *)
#[warnings="-register-all"]
Inductive wfi : item -> Prop :=
| wf_null n : wfi (mkItem cJSON_NULL None 0 zero n [])
| wf_false n : wfi (mkItem cJSON_False None 0 zero n [])
| wf_true n : wfi (mkItem cJSON_True None 1 zero n [])
| wf_number k n : is_int32 k -> wfi (mkItem cJSON_Number None k (of_int k) n [])
| wf_string s n : is_cstr s -> wfi (mkItem cJSON_String (Some s) 0 zero n [])
| wf_array n cs : Forall (fun c => wfi c /\ string c = None) cs ->
    wfi (mkItem cJSON_Array None 0 zero n cs)
| wf_object n cs : Forall (fun c => wfi c /\ exists s, string c = Some s /\ is_cstr s) cs ->
    wfi (mkItem cJSON_Object None 0 zero n cs).

(** [text] reads back as [c], into a node that holds only a name. *)
Definition reads (c : item) (text : cstr) : Prop :=
  tok text /\ forall fuel t rest, (2 * length text <= fuel)%nat -> delim rest ->
    parse_value fuel (mkItem t None 0 zero (string c) []) (text ++ rest) = Ok c rest.

Lemma reads_named c text fuel t n rest :
  reads c text -> string c = n -> (2 * length text <= fuel)%nat -> delim rest ->
  parse_value fuel (mkItem t None 0 zero n []) (text ++ rest) = Ok c rest.
Proof. intros [_ Hr] <-. apply Hr. Qed.

Lemma reads_tok c text : reads c text -> tok text.
Proof. by intros [? _]. Qed.

Lemma all_some_spec {A} (l : list (option A)) r : all_some l = Some r -> l = map Some r.
Proof.
  unfold all_some. rewrite mapM_Some. induction 1 as [|x y l r E _ IH]; [done|].
  unfold id in E. simpl. by rewrite E, IH.
Qed.

Lemma in_buffer_Some size t t' : in_buffer size t = Some t' -> t' = t.
Proof. unfold in_buffer. case_if; by intros [=]. Qed.

(** *** Arrays *)

Fixpoint arr_tail (fmt : bool) (ts : list cstr) : cstr :=
  match ts with
  | [] => [93]
  | t :: ts => 44 :: (if fmt then [32] else []) ++ t ++ arr_tail fmt ts
  end.

Lemma join_array_tail fmt t ts : join_array fmt (t :: ts) ++ [93] = t ++ arr_tail fmt ts.
Proof.
  revert t. induction ts as [|u ts IH]; intros t; [done|].
  cbn [join_array arr_tail]. rewrite <- !app_assoc. f_equal. cbn. f_equal.
  rewrite <- !app_assoc. f_equal. apply IH.
Qed.

Lemma arr_tail_delim fmt ts rest : delim (arr_tail fmt ts ++ rest) /\ skip (arr_tail fmt ts ++ rest) = arr_tail fmt ts ++ rest.
Proof. destruct ts; simpl; split; auto. Qed.

Lemma sep_skip fmt t rest :
  tok t -> skip ((if fmt : bool then [32] else []) ++ t ++ rest) = t ++ rest.
Proof.
  intros (Ht & _ & _ & Hn). rewrite skip_ws; [by apply skip_tok|]. destruct fmt; repeat constructor; lia.
Qed.

Lemma array_rest_ok fmt cs ts :
  Forall2 (fun c t => reads c t /\ string c = None) cs ts ->
  forall done fuel rest, (2 * length (arr_tail fmt ts) <= fuel)%nat ->
  array_rest fuel done (arr_tail fmt ts ++ rest) = Ok (done ++ cs) rest.
Proof.
  induction 1 as [|c t cs ts [Hr Hn] Hf IH]; intros done fuel rest Hfuel;
    (destruct fuel as [|fuel]; [simpl in Hfuel; lia|]).
  - simpl. by rewrite app_nil_r.
  - cbn [arr_tail] in Hfuel. simpl in Hfuel. rewrite !length_app in Hfuel.
    cbn [arr_tail app CJson.array_rest peek tail]. rewrite Z.eqb_refl.
    rewrite <- !app_assoc, sep_skip by by eapply reads_tok.
    unfold new_item. fold zero. rewrite (reads_named c); [|done|done|lia|apply arr_tail_delim].
    cbn [pbind]. rewrite (proj2 (arr_tail_delim fmt ts rest)), IH by lia.
    by rewrite <- app_assoc.
Qed.

Lemma parse_array_ok fmt cs ts t0 n fuel rest text :
  Forall2 (fun c t => reads c t /\ string c = None) cs ts ->
  compose_array fmt (map Some ts) = Some (Some text) -> (2 * length text <= S fuel)%nat ->
  tok text /\ peek text = 91 /\
  parse_array fuel (mkItem t0 None 0 zero n []) (text ++ rest)
  = Ok (mkItem cJSON_Array None 0 zero n cs) rest.
Proof.
  intros Hf Hc Hfuel. assert (Htext : text = 91 :: match ts with [] => [93] | t :: ts => t ++ arr_tail fmt ts end).
  { unfold compose_array in Hc. destruct ts as [|t ts].
    - apply bind_Some in Hc as (t' & Hb & Hc). apply in_buffer_Some in Hb. by simplify_eq.
    - cbn [map] in Hc. change (Some t :: map Some ts) with (map Some (t :: ts)) in Hc.
      destruct (all_some (map Some (t :: ts))) as [es|] eqn:Ea; [|done].
      apply all_some_spec in Ea. apply (inj (map Some)) in Ea. subst es.
      apply bind_Some in Hc as (t' & Hb & Hc). apply in_buffer_Some in Hb. simplify_eq.
      f_equal. apply join_array_tail. }
  subst text. split; [by repeat split|]. split; [done|].
  destruct fuel as [|fuel]; [simpl in Hfuel; destruct ts; simpl in Hfuel; lia|].
  inversion Hf as [|c t cs' ts' [Hr Hn] Hf' E1 E2]; subst; [done|].
  pose proof (reads_tok _ _ Hr) as Htok.
  cbn [CJson.parse_array app peek tail negb]. rewrite Z.eqb_refl. cbn [negb].
  destruct Htok as (H1 & H2 & H3 & H4). rewrite <- app_assoc, skip_tok by done.
  assert (Hpk : peek (t ++ arr_tail fmt ts' ++ rest) = peek t) by by destruct t.
  rewrite Hpk, (proj2 (Z.eqb_neq (peek t) 93)) by done. rewrite skip_tok by done.
  simpl in Hfuel. rewrite length_app in Hfuel.
  unfold new_item. fold zero. rewrite (reads_named c); [|done|done|lia|apply arr_tail_delim].
  cbn [pbind]. rewrite (proj2 (arr_tail_delim fmt ts' rest)), (array_rest_ok fmt cs' ts') by (done || lia).
  done.
Qed.

(** *** Objects *)

Definition nl (fmt : bool) : cstr := if fmt then [10] else [].
Definition tab (fmt : bool) : cstr := if fmt then [9] else [].
Definition indent (fmt : bool) (depth : Z) : cstr := if fmt then tabs depth else [].

Definition member (fmt : bool) (depth : Z) (m : cstr * cstr) : cstr :=
  indent fmt depth ++ m.1 ++ 58 :: tab fmt ++ m.2.

Fixpoint obj_tail (fmt : bool) (depth : Z) (close : cstr) (ms : list (cstr * cstr)) : cstr :=
  match ms with
  | [] => nl fmt ++ close ++ [125]
  | m :: ms => 44 :: nl fmt ++ member fmt depth m ++ obj_tail fmt depth close ms
  end.

Lemma join_object_cons fmt depth m ms :
  join_object fmt depth (m :: ms)
  = member fmt depth m ++ (match ms with [] => [] | _ => [44] end) ++ nl fmt ++ join_object fmt depth ms.
Proof.
  destruct m as [n e]. unfold member, nl, tab, indent. cbn [join_object fst snd].
  rewrite <- !app_assoc. cbn. by rewrite <- !app_assoc.
Qed.

Lemma join_object_tail fmt depth close m ms :
  join_object fmt depth (m :: ms) ++ close ++ [125] = member fmt depth m ++ obj_tail fmt depth close ms.
Proof.
  revert m. induction ms as [|m' ms IH]; intros m; rewrite join_object_cons, <- !app_assoc; f_equal.
  cbn [obj_tail app]. f_equal. f_equal. apply IH.
Qed.

Lemma ws_fmt fmt : Forall (fun c => c <= 32) (nl fmt) /\ Forall (fun c => c <= 32) (tab fmt).
Proof. destruct fmt; split; repeat constructor; lia. Qed.
Lemma ws_indent fmt d : Forall (fun c => c <= 32) (indent fmt d).
Proof. unfold indent, tabs. destruct fmt; [|constructor]. apply Forall_replicate. lia. Qed.

Lemma obj_tail_delim fmt depth close ms rest :
  (fmt = false -> close = []) -> Forall (fun c => c <= 32) close ->
  delim (obj_tail fmt depth close ms ++ rest).
Proof.
  intros Hc Hw. destruct ms; simpl; [|auto]. destruct fmt; simpl; [lia|]. rewrite (Hc eq_refl). simpl. auto.
Qed.

Lemma obj_tail_length fmt depth close ms : (1 <= length (obj_tail fmt depth close ms))%nat.
Proof. destruct ms; simpl; rewrite ?length_app; simpl; lia. Qed.

Lemma member_length fmt depth m : (length m.2 < length (member fmt depth m))%nat.
Proof. unfold member. rewrite !length_app. cbn [length]. rewrite !length_app. lia. Qed.

(** A printed name. *)
Definition name_of (s : cstr) : cstr := 34 :: escape_body s ++ [34].

Lemma parse_member_ok fmt depth c s e fuel rest w :
  reads c e -> string c = Some s -> is_cstr s -> Forall (fun c => c <= 32) w ->
  (2 * length e < fuel)%nat -> delim rest ->
  parse_member fuel (w ++ member fmt depth (name_of s, e) ++ rest) = Ok c rest.
Proof.
  intros Hr Hn Hs Hw Hfuel Hd. pose proof (reads_tok _ _ Hr) as Htok. destruct fuel as [|fuel]; [lia|].
  cbn [CJson.parse_member]. unfold member. cbn [fst snd]. rewrite <- !app_assoc.
  rewrite skip_ws by done. rewrite skip_ws by apply ws_indent.
  rewrite (skip_tok (name_of s)) by done.
  destruct (string_roundtrip s new_item ((58 :: tab fmt ++ e) ++ rest) Hs) as (text & E & Ep).
  rewrite print_string_ptr_ok in E. injection E as <-. fold (name_of s) in Ep. rewrite Ep.
  cbn [pbind]. cbn [app skip]. change (58 <=? 32) with false. cbv iota. cbn [peek tail].
  change (negb (58 =? 58)) with false. cbv iota.
  rewrite <- app_assoc, skip_ws by apply ws_fmt. destruct Htok as (H1 & H2 & H3 & H4).
  rewrite skip_tok by done. unfold is_object_key, new_item. cbn [type valueint valuedouble child valuestring].
  fold zero. apply reads_named; [done|done|lia|done].
Qed.

Definition member_reads (c : item) (m : cstr * cstr) : Prop :=
  reads c m.2 /\ exists s, string c = Some s /\ is_cstr s /\ m.1 = name_of s.

Lemma object_rest_ok fmt depth close cs ms :
  (fmt = false -> close = []) -> Forall (fun c => c <= 32) close ->
  Forall2 member_reads cs ms ->
  forall done fuel rest, (2 * length (obj_tail fmt depth close ms) <= fuel)%nat ->
  object_rest fuel done (skip (obj_tail fmt depth close ms ++ rest)) = Ok (done ++ cs) rest.
Proof.
  intros Hc Hw. induction 1 as [|c m cs ms [Hr (s & Hn & Hs & Hm)] Hf IH]; intros done fuel rest Hfuel;
    (destruct fuel as [|fuel]; [pose proof (obj_tail_length fmt depth close) as Hl;
       match goal with H : (2 * length (obj_tail _ _ _ ?ms) <= _)%nat |- _ => specialize (Hl ms) end; lia|]).
  - cbn [obj_tail]. rewrite <- !app_assoc, skip_ws by apply ws_fmt. rewrite skip_ws by done.
    simpl. by rewrite app_nil_r.
  - cbn [obj_tail] in Hfuel. simpl in Hfuel. rewrite !length_app in Hfuel.
    cbn [obj_tail app skip]. change (44 <=? 32) with false. cbv iota.
    cbn [CJson.object_rest peek tail]. rewrite Z.eqb_refl. rewrite <- !app_assoc.
    destruct m as [n e]. simpl in Hm. subst n.
    rewrite (parse_member_ok fmt depth c s e); [|done|done|done|apply ws_fmt| |by apply obj_tail_delim].
    2:{ pose proof (member_length fmt depth (name_of s, e)) as Hl. cbn [snd] in Hl. lia. }
    cbn [pbind]. rewrite IH by lia. by rewrite <- app_assoc.
Qed.

Lemma parse_object_eq fuel i value :
  parse_object (S fuel) i value =
    if negb (peek value =? 123) then Err value
    else
      let value := skip (tail value) in
      if peek value =? 125 then Ok (with_type cJSON_Object i) (tail value)
      else
        pbind (parse_member fuel value) (fun c value =>
        pbind (object_rest fuel [c] (skip value)) (fun cs value =>
        Ok (mkItem cJSON_Object (valuestring i) (valueint i) (valuedouble i) (string i) cs) value)).
Proof. done. Qed.

Lemma parse_member_eq fuel value :
  parse_member (S fuel) value =
    pbind (parse_string new_item (skip value)) (fun c value =>
      let value := skip value in
      if negb (peek value =? 58) then Err value
      else parse_value fuel (is_object_key c) (skip (tail value))).
Proof. done. Qed.

Lemma parse_object_ok fmt depth cs names ts t0 n fuel rest text :
  Forall2 member_reads cs (zip names ts) -> length names = length ts ->
  compose_object depth fmt names (map Some ts) = Some (Some text) -> (2 * length text <= S fuel)%nat ->
  tok text /\ peek text = 123 /\
  parse_object fuel (mkItem t0 None 0 zero n []) (text ++ rest)
  = Ok (mkItem cJSON_Object None 0 zero n cs) rest.
Proof.
  intros Hf Hlen Hc Hfuel. set (close := if fmt then tabs (depth + 1 - 1) else []).
  assert (Hcw : Forall (fun c => c <= 32) close /\ (fmt = false -> close = [])).
  { unfold close. destruct fmt; split; try done. apply (ws_indent true). }
  destruct Hcw as [Hcw Hcf].
  destruct ts as [|t ts].
  { destruct names; [|done]. simpl in Hf. inversion Hf; subst.
    apply bind_Some in Hc as (t' & Hb & Hc). apply in_buffer_Some in Hb. simplify_eq.
    split; [by repeat split|]. split; [done|]. destruct fuel as [|fuel]; [simpl in Hfuel; lia|].
    rewrite parse_object_eq. cbn [app peek tail negb]. rewrite Z.eqb_refl. cbn [negb]. cbv zeta.
    rewrite <- app_assoc, skip_ws; [done|]. destruct fmt; [|constructor].
    constructor; [lia|apply (ws_indent true)]. }
  destruct names as [|nm names]; [done|]. cbn [zip zip_with] in Hf.
  assert (Htext : text = 123 :: nl fmt ++ member fmt (depth + 1) (nm, t)
                           ++ obj_tail fmt (depth + 1) close (zip names ts)).
  { unfold compose_object in Hc. cbn [map] in Hc. change (Some t :: map Some ts) with (map Some (t :: ts)) in Hc.
    destruct (all_some (map Some (t :: ts))) as [es|] eqn:Ea; [|done].
    apply all_some_spec in Ea. apply (inj (map Some)) in Ea. subst es.
    apply bind_Some in Hc as (t' & Hb & Hc). apply in_buffer_Some in Hb. injection Hc as <-.
    rewrite Hb. f_equal. f_equal. apply join_object_tail. }
  subst text. split; [by repeat split|]. split; [done|].
  inversion Hf as [|c m cs' ms' [Hr (s & Hn & Hs & Hnm)] Hf' E1 E2]; subst.
  cbn [fst snd] in *. subst nm.
  destruct fuel as [|fuel]; [simpl in Hfuel; lia|].
  rewrite parse_object_eq. cbn [app peek tail negb]. rewrite Z.eqb_refl. cbn [negb]. cbv zeta.
  rewrite <- !app_assoc, skip_ws by apply ws_fmt.
  assert (Hsk : forall r, skip (member fmt (depth + 1) (name_of s, t) ++ r)
               = name_of s ++ (58 :: tab fmt ++ t) ++ r).
  { intros r. unfold member. cbn [fst snd]. rewrite <- !app_assoc, skip_ws by apply ws_indent.
    by apply skip_tok. }
  rewrite Hsk. assert (Hpk : forall r, peek (name_of s ++ r) = 34) by done.
  rewrite Hpk. change (34 =? 125) with false. cbv iota.
  simpl length in Hfuel. rewrite !length_app in Hfuel.
  pose proof (member_length fmt (depth + 1) (name_of s, t)) as Hl. cbn [snd] in Hl.
  pose proof (parse_member_ok fmt (depth + 1) c s t fuel
    (obj_tail fmt (depth + 1) close (zip names ts) ++ rest) [] Hr Hn Hs) as Hm.
  assert (Hskip : parse_member fuel (name_of s ++ (58 :: tab fmt ++ t)
      ++ obj_tail fmt (depth + 1) close (zip names ts) ++ rest)
    = parse_member fuel ([] ++ member fmt (depth + 1) (name_of s, t)
      ++ obj_tail fmt (depth + 1) close (zip names ts) ++ rest)).
  { destruct fuel; [done|]. rewrite !parse_member_eq. cbn [app]. rewrite Hsk.
    by rewrite (skip_tok (name_of s)). }
  rewrite Hskip, Hm;
    [|constructor|lia|by apply obj_tail_delim].
  cbn [pbind]. rewrite (object_rest_ok fmt (depth + 1) close cs' (zip names ts)); [done|done|done|done|lia].
Qed.

Lemma parse_value_eq fuel i value :
  parse_value (S fuel) i value =
    if starts_with lit_null value then Ok (with_type cJSON_NULL i) (drop 4 value)
    else if starts_with lit_false value then Ok (with_type cJSON_False i) (drop 5 value)
    else if starts_with lit_true value then
      Ok (mkItem cJSON_True (valuestring i) 1 (valuedouble i) (string i) (child i)) (drop 4 value)
    else if peek value =? 34 then parse_string i value
    else if (peek value =? 45) || is_digit (peek value) then parse_number pow10 big_int i value
    else if peek value =? 91 then parse_array fuel i value
    else if peek value =? 123 then parse_object fuel i value
    else Err value.
Proof. done. Qed.

(** A value that does not start with a letter goes past the literals. *)
Lemma parse_value_nonletter fuel i value :
  peek value <> 110 -> peek value <> 102 -> peek value <> 116 ->
  parse_value (S fuel) i value =
    if peek value =? 34 then parse_string i value
    else if (peek value =? 45) || is_digit (peek value) then parse_number pow10 big_int i value
    else if peek value =? 91 then parse_array fuel i value
    else if peek value =? 123 then parse_object fuel i value
    else Err value.
Proof. intros. rewrite parse_value_eq, !starts_with_no by done. done. Qed.

Lemma peek_app t rest : t <> [] -> peek (t ++ rest) = peek t.
Proof. by destruct t. Qed.

Lemma reads_null n : reads (mkItem cJSON_NULL None 0 zero n []) lit_null.
Proof.
  split; [by repeat split|]. intros fuel t rest Hf _. destruct fuel; [simpl in Hf; lia|].
  by rewrite parse_value_eq, starts_with_app.
Qed.

Lemma reads_false n : reads (mkItem cJSON_False None 0 zero n []) lit_false.
Proof.
  split; [by repeat split|]. intros fuel t rest Hf _. destruct fuel; [simpl in Hf; lia|].
  by rewrite parse_value_eq, (starts_with_no lit_null), starts_with_app.
Qed.

Lemma reads_true n : reads (mkItem cJSON_True None 1 zero n []) lit_true.
Proof.
  split; [by repeat split|]. intros fuel t rest Hf _. destruct fuel; [simpl in Hf; lia|].
  by rewrite parse_value_eq, (starts_with_no lit_null), (starts_with_no lit_false), starts_with_app.
Qed.

Lemma reads_number k n : is_int32 k -> reads (mkItem cJSON_Number None k (of_int k) n []) (print_dec k).
Proof.
  intros Hk. pose proof (print_dec_peek k Hk) as Hp.
  assert (Hpk : peek (print_dec k) = 45 \/ 48 <= peek (print_dec k) <= 57).
  { destruct Hp as [?|Hp]; [by left|right]. unfold is_digit in Hp. bool_to_prop. lia. }
  assert (Hne : print_dec k <> []) by (intros E; rewrite E in Hpk; simpl in Hpk; lia).
  split; [repeat split; try done; lia|]. intros fuel t rest Hf Hd.
  destruct fuel; [destruct (print_dec k); simpl in Hf; [done|lia]|].
  rewrite parse_value_nonletter by (rewrite peek_app by done; lia).
  rewrite !peek_app by done. rewrite (proj2 (Z.eqb_neq (peek (print_dec k)) 34)) by lia.
  assert ((peek (print_dec k) =? 45) || is_digit (peek (print_dec k)) = true) as ->.
  { destruct Hp as [-> | ->]; [done|]. by rewrite orb_true_r. }
  by apply parse_int.
Qed.

Lemma reads_string s n : is_cstr s -> reads (mkItem cJSON_String (Some s) 0 zero n []) (name_of s).
Proof.
  intros Hs. split; [by repeat split|]. intros fuel t rest Hf _. destruct fuel; [simpl in Hf; lia|].
  rewrite parse_value_nonletter by done. cbn [name_of app peek]. change (34 =? 34) with true. cbv iota.
  destruct (string_roundtrip s (mkItem t None 0 zero n []) rest Hs) as (text & E & Ep).
  rewrite print_string_ptr_ok in E. injection E as <-. exact Ep.
Qed.

Lemma compose_array_all fmt es text : compose_array fmt es = Some (Some text) -> exists ts, es = map Some ts.
Proof.
  destruct es as [|e es]; [by exists []|]. unfold compose_array.
  destruct (all_some (e :: es)) eqn:E; [|done]. intros _. apply all_some_spec in E. eauto.
Qed.

Lemma compose_object_all depth fmt ns es text :
  compose_object depth fmt ns es = Some (Some text) -> exists ts, es = map Some ts.
Proof.
  destruct es as [|e es]; [by exists []|]. unfold compose_object.
  destruct (all_some (e :: es)) eqn:E; [|done]. intros _. apply all_some_spec in E. eauto.
Qed.

Lemma entries_read depth fmt cs es ts (P : item -> Prop) :
  mapM (print_value depth fmt) cs = Some es -> es = map Some ts ->
  Forall (fun c => wfi c /\ P c) cs ->
  Forall (fun i => wfi i -> forall depth fmt text, print_value depth fmt i = Some (Some text) -> reads i text) cs ->
  Forall2 (fun c t => reads c t /\ P c) cs ts.
Proof.
  intros Hm -> Hwf IH. apply mapM_Some in Hm.
  revert ts Hm Hwf IH. induction cs as [|c cs IHcs]; intros ts Hm Hwf IH.
  - inversion Hm as [E|]. destruct ts; [constructor|done].
  - inversion Hm as [|? y ? ys Hy Hys E1 E2]. destruct ts as [|t ts]; [done|].
    injection E2 as -> ->. apply Forall_cons in Hwf as [[Hw HP] Hwf]. apply Forall_cons in IH as [IHc IH].
    constructor; [split; [by eapply IHc|done]|by apply IHcs].
Qed.

(** Every printed tree reads back. *)
Lemma print_reads i :
  wfi i -> forall depth fmt text, print_value depth fmt i = Some (Some text) -> reads i text.
Proof.
  induction i as [t vs vi vd n cs IH] using item_ind'. intros Hwf depth fmt text Hp.
  inversion Hwf as [n' E|n' E|n' E|k n' Hk E|s n' Hs E|n' cs' Hcs E|n' cs' Hcs E]; subst.
  - injection Hp as <-. apply reads_null.
  - injection Hp as <-. apply reads_false.
  - injection Hp as <-. apply reads_true.
  - change ((s ← print_number sprintf_double (mkItem cJSON_Number None vi (of_int vi) n []); Some (Some s))
            = Some (Some text)) in Hp.
    rewrite print_int in Hp by done. injection Hp as <-. by apply reads_number.
  - change ((s ← print_string_ptr (Some s); Some (Some s)) = Some (Some text)) in Hp.
    rewrite print_string_ptr_ok in Hp. injection Hp as <-. by apply reads_string.
  - change ((es ← mapM (print_value (depth + 1) fmt) cs; compose_array fmt es) = Some (Some text)) in Hp.
    apply bind_Some in Hp as (es & Hm & Hc). destruct (compose_array_all _ _ _ Hc) as (ts & ->).
    pose proof (entries_read _ _ _ _ ts _ Hm eq_refl Hcs IH) as Hf.
    split; [by destruct (parse_array_ok fmt cs ts 0 n (2 * length text) [] text Hf Hc ltac:(lia))|].
    intros fuel t rest Hfuel Hd. destruct fuel as [|fuel].
    { destruct (parse_array_ok fmt cs ts 0 n (2 * length text) [] text Hf Hc ltac:(lia)) as ((_ & _ & _ & Hne) & _).
      destruct text; [done|simpl in Hfuel; lia]. }
    destruct (parse_array_ok fmt cs ts t n fuel rest text Hf Hc Hfuel) as ((_ & _ & _ & Hne) & Hpk & E').
    rewrite parse_value_nonletter; rewrite !peek_app, Hpk by done; done.
  - change ((names ← mapM (fun c => print_string_ptr (string c)) cs;
             es ← mapM (print_value (depth + 1) fmt) cs; compose_object depth fmt names es)
            = Some (Some text)) in Hp.
    apply bind_Some in Hp as (names & Hnm & Hp). apply bind_Some in Hp as (es & Hm & Hc).
    destruct (compose_object_all _ _ _ _ _ Hc) as (ts & ->).
    pose proof (entries_read _ _ _ _ ts _ Hm eq_refl Hcs IH) as Hf.
    assert (Hmem : length names = length ts /\ Forall2 member_reads cs (zip names ts)).
    { apply mapM_Some in Hnm. clear -Hnm Hf. revert ts Hf. induction Hnm as [|c nm cs names Hn _ IHn]; intros ts Hf.
      - inversion Hf. split; [done|constructor].
      - inversion Hf as [|? t ? ts' [Hr (s & Hs & Hcs)] Hf']; subst. destruct (IHn ts' Hf') as [Hl Hz].
        split; [simpl; by f_equal|]. constructor; [|done]. split; [done|]. exists s. split_and!; [done|done|].
        rewrite Hs, print_string_ptr_ok in Hn. by injection Hn as <-. }
    destruct Hmem as [Hl Hz].
    split; [by destruct (parse_object_ok fmt depth cs names ts 0 n (2 * length text) [] text Hz Hl Hc ltac:(lia))|].
    intros fuel t rest Hfuel Hd. destruct fuel as [|fuel].
    { destruct (parse_object_ok fmt depth cs names ts 0 n (2 * length text) [] text Hz Hl Hc ltac:(lia)) as ((_ & _ & _ & Hne) & _).
      destruct text; [done|simpl in Hfuel; lia]. }
    destruct (parse_object_ok fmt depth cs names ts t n fuel rest text Hz Hl Hc Hfuel) as ((_ & _ & _ & Hne) & Hpk & E').
    rewrite parse_value_nonletter; rewrite !peek_app, Hpk by done; done.
Qed.

(** *** The buffers are large enough *)

Lemma in_buffer_fits size t : Z.of_nat (length t) + 1 <= size -> in_buffer size t = Some t.
Proof. intros H. unfold in_buffer. by rewrite (proj2 (Z.leb_le _ _)). Qed.

Lemma all_some_map {A} (l : list A) : all_some (map Some l) = Some l.
Proof. unfold all_some. apply mapM_Some. induction l; simpl; constructor; done. Qed.

Definition array_len (fmt : bool) (a : Z) (es : list cstr) : Z :=
  foldl (fun len e => len + Z.of_nat (length e) + 2 + (if fmt then 1 else 0)) a es.

Lemma array_len_ge fmt a es : a + Z.of_nat (length (join_array fmt es)) <= array_len fmt a es.
Proof.
  revert a. induction es as [|e es IH]; intros a; simpl; [lia|].
  specialize (IH (a + Z.of_nat (length e) + 2 + (if fmt then 1 else 0))). unfold array_len in *.
  destruct es as [|e' es]; [simpl in *; destruct fmt; lia|].
  rewrite length_app. cbn [length]. rewrite length_app. destruct fmt; cbn [length] in *; lia.
Qed.

Lemma compose_array_fits fmt ts : exists text, compose_array fmt (map Some ts) = Some (Some text).
Proof.
  destruct ts as [|t ts]; [by eexists|]. unfold compose_array. cbn [map].
  change (Some t :: map Some ts) with (map Some (t :: ts)). rewrite all_some_map.
  eexists. rewrite in_buffer_fits; [done|]. pose proof (array_len_ge fmt 5 (t :: ts)) as H.
  unfold array_len in H. cbn [length]. rewrite length_app. cbn [length]. lia.
Qed.

Definition object_len (fmt : bool) (depth a : Z) (ms : list (cstr * cstr)) : Z :=
  foldl (fun len m => len + Z.of_nat (length m.2) + Z.of_nat (length m.1) + 2
                      + (if fmt then 2 + depth else 0)) a ms.

Lemma object_len_ge fmt depth a ms :
  0 <= depth -> a + Z.of_nat (length (join_object fmt depth ms)) <= object_len fmt depth a ms.
Proof.
  intros Hd. revert a. induction ms as [|m ms IH]; intros a; [simpl; lia|]. rewrite join_object_cons.
  unfold object_len in *. cbn [foldl].
  specialize (IH (a + Z.of_nat (length m.2) + Z.of_nat (length m.1) + 2 + (if fmt then 2 + depth else 0))).
  unfold member, indent, tab, nl, tabs. rewrite !length_app. cbn [length]. rewrite !length_app.
  destruct fmt, ms; cbn [length] in *; rewrite ?length_replicate; lia.
Qed.

Lemma compose_object_fits depth fmt names ts :
  0 <= depth -> length names = length ts -> (fmt = true -> ts = [] -> 1 <= depth) ->
  exists text, compose_object depth fmt names (map Some ts) = Some (Some text).
Proof.
  intros Hd Hl He. destruct ts as [|t ts].
  - unfold compose_object. cbn [map]. eexists. rewrite in_buffer_fits; [done|].
    destruct fmt; cbn [length app]; [|lia]. specialize (He eq_refl eq_refl).
    rewrite length_app. unfold tabs. rewrite length_replicate. cbn [length]. lia.
  - destruct names as [|nm names]; [done|]. unfold compose_object. cbn [map].
    change (Some t :: map Some ts) with (map Some (t :: ts)). rewrite all_some_map. eexists.
    rewrite in_buffer_fits; [done|].
    pose proof (object_len_ge fmt (depth + 1) (7 + (if fmt then depth + 1 else 0)) (zip (nm :: names) (t :: ts))
                  ltac:(lia)) as H.
    unfold object_len in H. cbn [length]. rewrite !length_app.
    destruct fmt; cbn [length]; unfold tabs; rewrite ?length_replicate; lia.
Qed.

Lemma mapM_total {A B} (f : A -> option B) l :
  Forall (fun x => is_Some (f x)) l -> exists l', mapM f l = Some l' /\ length l' = length l.
Proof.
  induction 1 as [|x l [y Hy] _ (l' & E & Hl)]; [by exists []|].
  exists (y :: l'). split; [simpl; by rewrite Hy, E|simpl; by f_equal].
Qed.

Lemma mapM_texts depth fmt cs :
  Forall (fun c => exists text, print_value depth fmt c = Some (Some text)) cs ->
  exists ts, mapM (print_value depth fmt) cs = Some (map Some ts) /\ length ts = length cs.
Proof.
  induction 1 as [|c cs [t Ht] _ (ts & E & Hl)]; [by exists []|].
  exists (t :: ts). split; [cbn; by rewrite Ht, E|simpl; by f_equal].
Qed.

Definition empty_object (i : item) : Prop := type i = cJSON_Object /\ child i = [].

Lemma print_total i :
  wfi i -> forall depth fmt, 0 <= depth -> (fmt = true -> depth = 0 -> ~ empty_object i) ->
  exists text, print_value depth fmt i = Some (Some text).
Proof.
  induction i as [t vs vi vd n cs IH] using item_ind'. intros Hwf depth fmt Hd He.
  assert (Hchild : forall (P : item -> Prop), Forall (fun c => wfi c /\ P c) cs ->
    Forall (fun c => exists text, print_value (depth + 1) fmt c = Some (Some text)) cs).
  { intros P Hcs. rewrite Forall_forall in *. intros c Hc. apply IH; [done|by apply Hcs|lia|lia]. }
  inversion Hwf as [n' E|n' E|n' E|k n' Hk E|s n' Hs E|n' cs' Hcs E|n' cs' Hcs E]; subst.
  - by exists lit_null.
  - by exists lit_false.
  - by exists lit_true.
  - change (exists text, (s ← print_number sprintf_double (mkItem cJSON_Number None vi (of_int vi) n []);
                          Some (Some s)) = Some (Some text)).
    rewrite print_int by done. by eexists.
  - change (exists text, (s ← print_string_ptr (Some s); Some (Some s)) = Some (Some text)).
    rewrite print_string_ptr_ok. by eexists.
  - change (exists text, (es ← mapM (print_value (depth + 1) fmt) cs; compose_array fmt es) = Some (Some text)).
    destruct (mapM_texts (depth + 1) fmt cs (Hchild _ Hcs)) as (ts & -> & _). apply compose_array_fits.
  - change (exists text, (names ← mapM (fun c => print_string_ptr (string c)) cs;
             es ← mapM (print_value (depth + 1) fmt) cs; compose_object depth fmt names es)
            = Some (Some text)).
    destruct (mapM_total (fun c => print_string_ptr (string c)) cs) as (names & -> & Hln).
    { eapply Forall_impl; [exact Hcs|]. intros c (_ & s & -> & _). rewrite print_string_ptr_ok. by eexists. }
    destruct (mapM_texts (depth + 1) fmt cs (Hchild _ Hcs)) as (ts & -> & Hlt).
    apply compose_object_fits; [done|congruence|]. intros -> ->.
    destruct (decide (depth = 0)) as [->|]; [|lia]. exfalso. apply (He eq_refl eq_refl).
    split; [done|]. by destruct cs.
Qed.

(** C17: JSON round trip: every tree of the kind the parser builds whose numbers
    are [int]s, formatted ([cJSON_Print]) or not, prints inside the buffers the
    printer allocates (those of the numbers included), and the text parses back
    to the same tree, with nothing left over.  The one exception is the formatted
    empty object at top level.  Of the library it is assumed that [pow(10.0, 0)]
    is 1; that the arithmetic of the parser on doubles is exact for the digits of
    an [int] is proved. *)
Theorem json_roundtrip i fmt require_null_terminated :
  wfi i -> string i = None -> (fmt = true -> ~ empty_object i) ->
  exists text, (if fmt then cJSON_Print sprintf_double i else cJSON_PrintUnformatted sprintf_double i)
               = Some (Some text)
    /\ cJSON_ParseWithOpts pow10 big_int text require_null_terminated = Ok i [].
Proof.
  intros Hwf Hn He. destruct (print_total i Hwf 0 fmt) as [text Hp]; [lia|by intros ? _; apply He|].
  exists text. split; [by destruct fmt|].
  destruct (print_reads i Hwf 0 fmt text Hp) as [Htok Hr]. destruct Htok as (H1 & H2 & H3 & H4).
  unfold cJSON_ParseWithOpts. pose proof (skip_tok text [] H1 H4) as Hs. rewrite app_nil_r in Hs. rewrite Hs.
  specialize (Hr (2 * length text + 2)%nat 0 [] ltac:(lia) I). rewrite app_nil_r, Hn in Hr.
  unfold new_item. fold zero. rewrite Hr. by destruct require_null_terminated.
Qed.
End roundtrip.

Definition sample_tree : item :=
  mkItem cJSON_Object None 0 zero None
    [mkItem cJSON_Array None 0 zero (Some [97; 34])
       [mkItem cJSON_True None 1 zero None []; mkItem cJSON_String (Some [10; 92]) 0 zero None [];
        mkItem cJSON_Number None (-2147483648) (of_int (-2147483648)) None [];
        mkItem cJSON_Number None 0 (of_int 0) None []; mkItem cJSON_Number None 120 (of_int 120) None []];
     mkItem cJSON_NULL None 0 zero (Some []) []].

Lemma json_roundtrip_witness :
  let pow10 := fun _ => of_int 1 in
  exists text, cJSON_Print (fun _ _ => []) sample_tree = Some (Some text)
    /\ cJSON_ParseWithOpts pow10 (fun _ => 0) text true = Ok sample_tree [].
Proof.
  intros pow10. apply (json_roundtrip pow10 (fun _ => 0) (fun _ _ => []) eq_refl sample_tree true true).
  - repeat first [apply wf_object | apply wf_number | apply wf_array | apply wf_null | apply wf_true | apply wf_string
                 | apply Forall_cons | apply Forall_nil | split | progress unfold is_int32 | lia | reflexivity | eexists | unfold is_cstr].
  - reflexivity.
  - intros _ [_ H]. discriminate H.
Defined.

(** A formatted empty object at top level: [compose_object] writes four bytes
    into the three it allocated. *)
Lemma print_empty_object_overflows sprintf_double :
  cJSON_Print sprintf_double (mkItem cJSON_Object None 0 zero None []) = None
  /\ cJSON_PrintUnformatted sprintf_double (mkItem cJSON_Object None 0 zero None []) = Some (Some [123; 125]).
Proof. split; vm_compute; reflexivity. Qed.
