(* ===== verification/JsonTree.v ===== *)
(** * libckits/cJSON.c: the item tree as a linked structure

    [CJson] treats parsing and printing on trees as values.  Here is the rest of
    the file, which builds and changes trees in place: items are structures in
    memory that point to their neighbours, to their first child and to the two
    strings they own.  Memory is two finite maps from addresses, one to items and
    one to strings; using an address that holds neither (NULL, or after [free])
    is [None].

    The allocator is a parameter: [malloc n l] is the answer to the [n]th call
    when [l] is the set of the addresses in use, 0 when it refuses.  [consts] are
    the strings of the caller (literals), which are read but never freed. *)

From S2P Require Import Prelude Doubles CJson.
From Stdlib Require Import Floats.SpecFloat.

(** ** Memory *)

Record node := mkNode {
  next : Z; prev : Z; child : Z;
  type : Z;
  valuestring : Z; valueint : Z; valuedouble : double;
  string : Z
}.

Definition set_next (v : Z) (n : node) : node :=
  mkNode v (prev n) (child n) (type n) (valuestring n) (valueint n) (valuedouble n) (string n).
Definition set_prev (v : Z) (n : node) : node :=
  mkNode (next n) v (child n) (type n) (valuestring n) (valueint n) (valuedouble n) (string n).
Definition set_child (v : Z) (n : node) : node :=
  mkNode (next n) (prev n) v (type n) (valuestring n) (valueint n) (valuedouble n) (string n).
Definition set_type (v : Z) (n : node) : node :=
  mkNode (next n) (prev n) (child n) v (valuestring n) (valueint n) (valuedouble n) (string n).
Definition set_valuestring (v : Z) (n : node) : node :=
  mkNode (next n) (prev n) (child n) (type n) v (valueint n) (valuedouble n) (string n).
Definition set_number (i : Z) (d : double) (n : node) : node :=
  mkNode (next n) (prev n) (child n) (type n) (valuestring n) i d (string n).
Definition set_string (v : Z) (n : node) : node :=
  mkNode (next n) (prev n) (child n) (type n) (valuestring n) (valueint n) (valuedouble n) v.

Record mem := mkMem {
  nodes : gmap Z node;
  strs : gmap Z cstr;
  consts : gmap Z cstr;
  calls : nat
}.

Definition live (m : mem) : gset Z := dom (nodes m) ∪ dom (strs m).

(** [p->field = ...]. *)
Definition upd (p : Z) (f : node -> node) (m : mem) : option mem :=
  n ← nodes m !! p; Some (mkMem (<[p := f n]> (nodes m)) (strs m) (consts m) (calls m)).

(** The string at an address. *)
Definition text (a : Z) (m : mem) : option cstr :=
  match strs m !! a with Some s => Some s | None => consts m !! a end.

Definition cJSON_free (p : Z) (m : mem) : option mem :=
  if decide (p ∈ live m)
  then Some (mkMem (delete p (nodes m)) (delete p (strs m)) (consts m) (calls m))
  else None.

(** [cJSON_InitHooks]: the two functions in use afterwards. *)
Definition cJSON_InitHooks {M F : Type} (malloc : M) (free : F)
    (hooks : option (option M * option F)) : M * F :=
  match hooks with
  | None => (malloc, free)
  | Some (malloc_fn, free_fn) => (default malloc malloc_fn, default free free_fn)
  end.

(** [tolower] of the C locale. *)
Definition tolower (c : Z) : Z := if (65 <=? c) && (c <=? 90) then c + 32 else c.

Fixpoint strcasecmp (s1 s2 : cstr) : Z :=
  match s1, s2 with
  | c1 :: s1', c2 :: s2' =>
      if tolower c1 =? tolower c2 then strcasecmp s1' s2' else tolower c1 - tolower c2
  | _, _ => tolower (peek s1) - tolower (peek s2)
  end.

Definition cJSON_strcasecmp (s1 s2 : Z) (m : mem) : option Z :=
  if s1 =? 0 then Some (if s1 =? s2 then 0 else 1)
  else if s2 =? 0 then Some 1
  else t1 ← text s1 m; t2 ← text s2 m; Some (strcasecmp t1 t2).

(** ** Walking a chain of items

    A chain that the code walks to its end visits every item of memory at most
    once, so that the number of items is fuel for every loop. *)
Definition fuel_of (m : mem) : nat := size (nodes m).

(** [while (c) i++, c = c->next]. *)
Fixpoint count_loop (fuel : nat) (c i : Z) (m : mem) : option Z :=
  if c =? 0 then Some i
  else match fuel with
       | O => None
       | S fuel => n ← nodes m !! c; count_loop fuel (next n) (s32 (i + 1)) m
       end.

(** [while (c && which > 0) c = c->next, which--]. *)
Fixpoint nth_loop (fuel : nat) (c which : Z) (m : mem) : option Z :=
  if (c =? 0) || negb (0 <? which) then Some c
  else match fuel with
       | O => None
       | S fuel => n ← nodes m !! c; nth_loop fuel (next n) (which - 1) m
       end.

(** [while (c && cJSON_strcasecmp(c->string, string)) i++, c = c->next]. *)
Fixpoint find_loop (fuel : nat) (c i name : Z) (m : mem) : option (Z * Z) :=
  if c =? 0 then Some (c, i)
  else match fuel with
       | O => None
       | S fuel =>
           n ← nodes m !! c;
           r ← cJSON_strcasecmp (string n) name m;
           if r =? 0 then Some (c, i) else find_loop fuel (next n) (s32 (i + 1)) name m
       end.

(** [while (c && c->next) c = c->next], entered with an item. *)
Fixpoint last_loop (fuel : nat) (c : Z) (m : mem) : option Z :=
  n ← nodes m !! c;
  if next n =? 0 then Some c
  else match fuel with O => None | S fuel => last_loop fuel (next n) m end.

Definition cJSON_GetArraySize (array : Z) (m : mem) : option Z :=
  a ← nodes m !! array; count_loop (fuel_of m) (child a) 0 m.

Definition cJSON_GetArrayItem (array which : Z) (m : mem) : option Z :=
  a ← nodes m !! array; nth_loop (fuel_of m) (child a) which m.

Definition cJSON_GetObjectItem (object name : Z) (m : mem) : option Z :=
  o ← nodes m !! object; fst <$> find_loop (fuel_of m) (child o) 0 name m.

(** ** Deletion *)

(** [type & cJSON_IsReference]. *)
Definition is_ref (t : Z) : bool := negb (Z.land t cJSON_IsReference =? 0).

Fixpoint delete_loop (fuel : nat) (c : Z) (m : mem) : option mem :=
  if c =? 0 then Some m
  else match fuel with
       | O => None
       | S fuel =>
           n ← nodes m !! c;
           let next := next n in
           m ← if negb (is_ref (type n)) && negb (child n =? 0)
               then delete_loop fuel (child n) m else Some m;
           n ← nodes m !! c;
           m ← if negb (is_ref (type n)) && negb (valuestring n =? 0)
               then cJSON_free (valuestring n) m else Some m;
           n ← nodes m !! c;
           m ← if negb (string n =? 0) then cJSON_free (string n) m else Some m;
           m ← cJSON_free c m;
           delete_loop fuel next m
       end.

Definition cJSON_Delete (c : Z) (m : mem) : option mem := delete_loop (fuel_of m) c m.

(** ** Adding, detaching and replacing *)

Definition suffix_object (prev item : Z) (m : mem) : option mem :=
  m ← upd prev (set_next item) m; upd item (set_prev prev) m.

Definition cJSON_AddItemToArray (array item : Z) (m : mem) : option mem :=
  a ← nodes m !! array;
  if item =? 0 then Some m
  else if child a =? 0 then upd array (set_child item) m
  else c ← last_loop (fuel_of m) (child a) m; suffix_object c item m.

Definition cJSON_DetachItemFromArray (array which : Z) (m : mem) : option (Z * mem) :=
  a ← nodes m !! array;
  c ← nth_loop (fuel_of m) (child a) which m;
  if c =? 0 then Some (0, m)
  else
    n ← nodes m !! c;
    m ← if negb (prev n =? 0) then upd (prev n) (set_next (next n)) m else Some m;
    n ← nodes m !! c;
    m ← if negb (next n =? 0) then upd (next n) (set_prev (prev n)) m else Some m;
    a ← nodes m !! array; n ← nodes m !! c;
    m ← if c =? child a then upd array (set_child (next n)) m else Some m;
    m ← upd c (set_next 0) m; m ← upd c (set_prev 0) m;
    Some (c, m).

Definition cJSON_DeleteItemFromArray (array which : Z) (m : mem) : option mem :=
  '(c, m) ← cJSON_DetachItemFromArray array which m; cJSON_Delete c m.

Definition cJSON_DetachItemFromObject (object name : Z) (m : mem) : option (Z * mem) :=
  o ← nodes m !! object;
  '(c, i) ← find_loop (fuel_of m) (child o) 0 name m;
  if c =? 0 then Some (0, m) else cJSON_DetachItemFromArray object i m.

Definition cJSON_DeleteItemFromObject (object name : Z) (m : mem) : option mem :=
  '(c, m) ← cJSON_DetachItemFromObject object name m; cJSON_Delete c m.

Definition cJSON_ReplaceItemInArray (array which newitem : Z) (m : mem) : option mem :=
  a ← nodes m !! array;
  c ← nth_loop (fuel_of m) (child a) which m;
  if c =? 0 then Some m
  else
    n ← nodes m !! c;
    m ← upd newitem (set_next (next n)) m;
    n ← nodes m !! c;
    m ← upd newitem (set_prev (prev n)) m;
    w ← nodes m !! newitem;
    m ← if negb (next w =? 0) then upd (next w) (set_prev newitem) m else Some m;
    a ← nodes m !! array; w ← nodes m !! newitem;
    m ← if c =? child a then upd array (set_child newitem) m
        else upd (prev w) (set_next newitem) m;
    m ← upd c (set_prev 0) m; m ← upd c (set_next 0) m;
    cJSON_Delete c m.

Section alloc.
Variable malloc : nat -> gset Z -> Z.
Variable big_int : double -> Z.

Definition cJSON_malloc (m : mem) : Z * mem :=
  (malloc (calls m) (live m ∪ dom (consts m)), mkMem (nodes m) (strs m) (consts m) (S (calls m))).

Definition zero_node : node := mkNode 0 0 0 0 0 0 (S754_zero false) 0.

Definition cJSON_New_Item (m : mem) : Z * mem :=
  let '(p, m) := cJSON_malloc m in
  if p =? 0 then (0, m)
  else (p, mkMem (<[p := zero_node]> (nodes m)) (strs m) (consts m) (calls m)).

Definition cJSON_strdup (str : Z) (m : mem) : option (Z * mem) :=
  s ← text str m;
  let '(p, m) := cJSON_malloc m in
  Some (if p =? 0 then (0, m) else (p, mkMem (nodes m) (<[p := s]> (strs m)) (consts m) (calls m))).

Definition cJSON_AddItemToObject (object name item : Z) (m : mem) : option mem :=
  if item =? 0 then Some m
  else
    n ← nodes m !! item;
    m ← if negb (string n =? 0) then cJSON_free (string n) m else Some m;
    '(s, m) ← cJSON_strdup name m;
    m ← upd item (set_string s) m;
    cJSON_AddItemToArray object item m.

Definition create_reference (item : Z) (m : mem) : option (Z * mem) :=
  let '(ref, m) := cJSON_New_Item m in
  if ref =? 0 then Some (0, m)
  else
    n ← nodes m !! item;
    m ← upd ref (fun _ => n) m;
    m ← upd ref (set_string 0) m;
    m ← upd ref (fun n => set_type (Z.lor (type n) cJSON_IsReference) n) m;
    m ← upd ref (set_prev 0) m; m ← upd ref (set_next 0) m;
    Some (ref, m).

Definition cJSON_AddItemReferenceToArray (array item : Z) (m : mem) : option mem :=
  '(ref, m) ← create_reference item m; cJSON_AddItemToArray array ref m.

Definition cJSON_AddItemReferenceToObject (object name item : Z) (m : mem) : option mem :=
  '(ref, m) ← create_reference item m; cJSON_AddItemToObject object name ref m.

Definition cJSON_ReplaceItemInObject (object name newitem : Z) (m : mem) : option mem :=
  o ← nodes m !! object;
  '(c, i) ← find_loop (fuel_of m) (child o) 0 name m;
  if c =? 0 then Some m
  else
    '(s, m) ← cJSON_strdup name m;
    m ← upd newitem (set_string s) m;
    cJSON_ReplaceItemInArray object i newitem m.

(** ** Creation *)

(** A new item, changed by [f] when there is one. *)
Definition create (f : node -> node) (m : mem) : option (Z * mem) :=
  let '(item, m) := cJSON_New_Item m in
  if item =? 0 then Some (0, m) else m ← upd item f m; Some (item, m).

Definition cJSON_CreateNull : mem -> option (Z * mem) := create (set_type cJSON_NULL).
Definition cJSON_CreateTrue : mem -> option (Z * mem) := create (set_type cJSON_True).
Definition cJSON_CreateFalse : mem -> option (Z * mem) := create (set_type cJSON_False).
Definition cJSON_CreateBool (b : Z) : mem -> option (Z * mem) :=
  create (set_type (if negb (b =? 0) then cJSON_True else cJSON_False)).
Definition cJSON_CreateNumber (num : double) : mem -> option (Z * mem) :=
  create (fun n => set_number (to_int big_int num) num (set_type cJSON_Number n)).
Definition cJSON_CreateString (str : Z) (m : mem) : option (Z * mem) :=
  '(item, m) ← create (set_type cJSON_String) m;
  if item =? 0 then Some (0, m)
  else '(s, m) ← cJSON_strdup str m; m ← upd item (set_valuestring s) m; Some (item, m).
Definition cJSON_CreateArray : mem -> option (Z * mem) := create (set_type cJSON_Array).
Definition cJSON_CreateObject : mem -> option (Z * mem) := create (set_type cJSON_Object).

(** The loop of the four functions that create an array of [count] items. *)
Fixpoint fill_array {A} (mk : A -> mem -> option (Z * mem)) (a : Z) (first : bool) (p : Z)
    (xs : list A) (m : mem) : option mem :=
  match xs with
  | [] => Some m
  | x :: xs =>
      '(n, m) ← mk x m;
      m ← if first then upd a (set_child n) m else suffix_object p n m;
      fill_array mk a false n xs m
  end.

Definition create_array {A} (mk : A -> mem -> option (Z * mem)) (xs : list A) (count : Z)
    (m : mem) : option (Z * mem) :=
  '(a, m) ← cJSON_CreateArray m;
  if a =? 0 then Some (0, m)
  else if decide (Z.to_nat count <= length xs)%nat
       then m ← fill_array mk a true 0 (take (Z.to_nat count) xs) m; Some (a, m)
       else None.

Definition cJSON_CreateIntArray : list Z -> Z -> mem -> option (Z * mem) :=
  create_array (fun i => cJSON_CreateNumber (of_int i)).
(** Elements as the doubles they are converted to. *)
Definition cJSON_CreateFloatArray : list double -> Z -> mem -> option (Z * mem) :=
  create_array cJSON_CreateNumber.
Definition cJSON_CreateDoubleArray : list double -> Z -> mem -> option (Z * mem) :=
  create_array cJSON_CreateNumber.
Definition cJSON_CreateStringArray : list Z -> Z -> mem -> option (Z * mem) :=
  create_array cJSON_CreateString.

(** ** Duplication *)

Definition copy_vars (item : node) (n : node) : node :=
  set_number (valueint item) (valuedouble item)
    (set_type (Z.land (type item) (Z.lnot cJSON_IsReference)) n).

(** [if (item->s) { newitem->s = cJSON_strdup(item->s); ... }]: whether the copy succeeded. *)
Definition copy_string (s : Z) (set : Z -> node -> node) (newitem : Z) (m : mem) :
    option (bool * mem) :=
  if s =? 0 then Some (true, m)
  else '(t, m) ← cJSON_strdup s m; m ← upd newitem (set t) m; Some (negb (t =? 0), m).

Fixpoint cJSON_Duplicate (fuel : nat) (item : Z) (recurse : bool) (m : mem) {struct fuel} :
    option (Z * mem) :=
  if item =? 0 then Some (0, m)
  else match fuel with
       | O => None
       | S fuel =>
           let '(newitem, m) := cJSON_New_Item m in
           if newitem =? 0 then Some (0, m)
           else
             i ← nodes m !! item;
             m ← upd newitem (copy_vars i) m;
             '(ok, m) ← copy_string (valuestring i) set_valuestring newitem m;
             if negb ok then m ← cJSON_Delete newitem m; Some (0, m)
             else
               '(ok, m) ← copy_string (string i) set_string newitem m;
               if negb ok then m ← cJSON_Delete newitem m; Some (0, m)
               else if negb recurse then Some (newitem, m)
               else i ← nodes m !! item; dup_loop fuel (child i) 0 newitem m
       end
(** [while (cptr)]: the children, [nptr] being the copy made last. *)
with dup_loop (fuel : nat) (cptr nptr newitem : Z) (m : mem) {struct fuel} :
    option (Z * mem) :=
  if cptr =? 0 then Some (newitem, m)
  else match fuel with
       | O => None
       | S fuel =>
           '(newchild, m) ← cJSON_Duplicate fuel cptr true m;
           if newchild =? 0 then m ← cJSON_Delete newitem m; Some (0, m)
           else
             m ← if negb (nptr =? 0)
                 then m ← upd nptr (set_next newchild) m; upd newchild (set_prev nptr) m
                 else upd newitem (set_child newchild) m;
             c ← nodes m !! cptr;
             dup_loop fuel (next c) newchild newitem m
       end.
End alloc.

(** ** Trees in memory

    A [tree] is an item with what its pointers lead to.  [shape f m pv nx t]: the
    tree [t] is in [m], its root linked between [pv] and [nx].  An item marked
    [cJSON_IsReference] borrows its value string and children; these are required
    to be there if [f], which is what reading needs, and are nobody's business
    if not, which is what ownership means.  [foot f t] are the addresses used. *)

Record data := mkData {
  dtype : Z; dvalue : option (Z * cstr); dint : Z; ddouble : double; dname : option (Z * cstr)
}.

#[warnings="-register-all"]
Inductive tree := Tree (addr : Z) (d : data) (kids : list tree).

Definition addr (t : tree) : Z := let '(Tree p _ _) := t in p.
Definition dat (t : tree) : data := let '(Tree _ d _) := t in d.
Definition kids (t : tree) : list tree := let '(Tree _ _ ks) := t in ks.

Section tree_ind.
Variable P : tree -> Prop.
Hypothesis step : forall p d ks, Forall P ks -> P (Tree p d ks).

Fixpoint tree_ind' (t : tree) : P t :=
  match t with
  | Tree p d ks =>
      step p d ks ((fix go (l : list tree) : Forall P l :=
        match l with
        | [] => List.Forall_nil P
        | x :: l => List.Forall_cons P x l (tree_ind' x) (go l)
        end) ks)
  end.
End tree_ind.

Definition ptr (s : option (Z * cstr)) : Z := from_option fst 0 s.
Definition sfoot (s : option (Z * cstr)) : list Z := from_option (fun x => [fst x]) [] s.
Definition first (nx : Z) (ts : list tree) : Z := match ts with [] => nx | t :: _ => addr t end.
Fixpoint lastp (pv : Z) (ts : list tree) : Z :=
  match ts with [] => pv | t :: ts => lastp (addr t) ts end.

Definition node_of (pv nx : Z) (d : data) (ks : list tree) : node :=
  mkNode nx pv (first 0 ks) (dtype d) (ptr (dvalue d)) (dint d) (ddouble d) (ptr (dname d)).

Definition str_at (s : option (Z * cstr)) (m : mem) : Prop :=
  match s with Some (a, x) => a <> 0 /\ strs m !! a = Some x | None => True end.

(** Whether the value string and the children count. *)
Definition opens (f : bool) (d : data) : bool := f || negb (is_ref (dtype d)).
Arguments opens : simpl never.

Definition chain_with (S : Z -> Z -> tree -> Prop) (nx : Z) : Z -> list tree -> Prop :=
  fix go pv ts :=
    match ts with [] => True | t :: ts => S pv (first nx ts) t /\ go (addr t) ts end.

Fixpoint shape (f : bool) (m : mem) (pv nx : Z) (t : tree) {struct t} : Prop :=
  let '(Tree p d ks) := t in
  p <> 0 /\ nodes m !! p = Some (node_of pv nx d ks) /\ str_at (dname d) m /\
  (opens f d = true -> str_at (dvalue d) m /\ chain_with (shape f m) 0 0 ks).

Definition chain (f : bool) (m : mem) (pv nx : Z) (ts : list tree) : Prop :=
  chain_with (shape f m) nx pv ts.
Arguments chain : simpl never.

Fixpoint foot (f : bool) (t : tree) : list Z :=
  let '(Tree p d ks) := t in
  p :: sfoot (dname d) ++
  (if opens f d then sfoot (dvalue d) ++ (ks ≫= foot f) else []).

Definition foots (f : bool) (ts : list tree) : list Z := ts ≫= foot f.
Arguments foots : simpl never.

Fixpoint weight (t : tree) : nat :=
  let '(Tree _ _ ks) := t in S (S (sum_list_with weight ks)).

(** [m'] has at the addresses [l] what [m] has. *)
Definition agree (l : list Z) (m m' : mem) : Prop :=
  forall a, a ∈ l -> nodes m' !! a = nodes m !! a /\ strs m' !! a = strs m !! a.

(** [m] without the addresses [l]. *)
Definition remove (l : list Z) (m : mem) : mem :=
  mkMem (filter (fun kv => kv.1 ∉ l) (nodes m)) (filter (fun kv => kv.1 ∉ l) (strs m))
    (consts m) (calls m).
Arguments remove : simpl never.

Lemma mem_ext m m' :
  (forall a, nodes m !! a = nodes m' !! a) -> (forall a, strs m !! a = strs m' !! a) ->
  consts m = consts m' -> calls m = calls m' -> m = m'.
Proof.
  destruct m, m'; simpl. intros H1%map_eq H2%map_eq ??. congruence.
Qed.

Lemma lookup_filter_notin {A} (l : list Z) (h : gmap Z A) a :
  filter (fun kv => kv.1 ∉ l) h !! a = if decide (a ∈ l) then None else h !! a.
Proof.
  case_decide as E.
  - apply map_lookup_filter_None. right. intros x _ Hn. by apply Hn.
  - destruct (h !! a) as [x|] eqn:Hx.
    + by apply map_lookup_filter_Some.
    + apply map_lookup_filter_None. by left.
Qed.

Lemma nodes_remove l m a : nodes (remove l m) !! a = if decide (a ∈ l) then None else nodes m !! a.
Proof. apply lookup_filter_notin. Qed.
Lemma strs_remove l m a : strs (remove l m) !! a = if decide (a ∈ l) then None else strs m !! a.
Proof. apply lookup_filter_notin. Qed.

Lemma remove_nil m : remove [] m = m.
Proof. apply mem_ext; try done; intros a; by rewrite ?nodes_remove, ?strs_remove. Qed.

Lemma remove_remove l1 l2 m : remove l2 (remove l1 m) = remove (l1 ++ l2) m.
Proof.
  apply mem_ext; try done; intros a; rewrite ?nodes_remove, ?strs_remove;
    repeat case_decide; set_solver.
Qed.

Lemma remove_same l1 l2 m : (forall a, a ∈ l1 <-> a ∈ l2) -> remove l1 m = remove l2 m.
Proof.
  intros H. apply mem_ext; try done; intros a; rewrite ?nodes_remove, ?strs_remove;
    specialize (H a); repeat case_decide; tauto.
Qed.

Lemma agree_remove l l' m : (forall a, a ∈ l -> a ∉ l') -> agree l m (remove l' m).
Proof.
  intros H a Ha. rewrite nodes_remove, strs_remove. specialize (H a Ha).
  by rewrite !decide_False by done.
Qed.

Lemma elem_of_live a m : a ∈ live m <-> is_Some (nodes m !! a) \/ is_Some (strs m !! a).
Proof. unfold live. by rewrite elem_of_union, !elem_of_dom. Qed.

Lemma free_live p m : p ∈ live m -> cJSON_free p m = Some (remove [p] m).
Proof.
  intros H. unfold cJSON_free. rewrite decide_True by done. f_equal.
  apply mem_ext; try done; intros a; rewrite ?nodes_remove, ?strs_remove; simpl;
    rewrite lookup_delete; repeat case_decide; try done; exfalso; set_solver.
Qed.

(** ** Shapes *)

Lemma chain_nil f m pv nx : chain f m pv nx [].
Proof. done. Qed.

Lemma chain_cons f m pv nx t ts :
  chain f m pv nx (t :: ts) <-> shape f m pv (first nx ts) t /\ chain f m (addr t) nx ts.
Proof. done. Qed.

Lemma first_app nx ts1 ts2 : first nx (ts1 ++ ts2) = first (first nx ts2) ts1.
Proof. by destruct ts1. Qed.

Lemma chain_app f m pv nx ts1 ts2 :
  chain f m pv nx (ts1 ++ ts2) <->
  chain f m pv (first nx ts2) ts1 /\ chain f m (lastp pv ts1) nx ts2.
Proof.
  revert pv. induction ts1 as [|t ts1 IH]; intros pv; simpl; [by split; [|intros [_ ?]]|].
  rewrite !chain_cons, IH, first_app. tauto.
Qed.

Lemma shape_root f m pv nx t :
  shape f m pv nx t -> addr t <> 0 /\ nodes m !! addr t = Some (node_of pv nx (dat t) (kids t)).
Proof. destruct t. simpl. tauto. Qed.

(** What the shape says apart from the root's own links. *)
Definition inner (f : bool) (m : mem) (t : tree) : Prop :=
  str_at (dname (dat t)) m /\
  (opens f (dat t) = true -> str_at (dvalue (dat t)) m /\ chain f m 0 0 (kids t)).

Definition inner_foot (f : bool) (t : tree) : list Z :=
  sfoot (dname (dat t)) ++
  (if opens f (dat t) then sfoot (dvalue (dat t)) ++ foots f (kids t) else []).

Lemma shape_inner f m pv nx t :
  shape f m pv nx t <->
  addr t <> 0 /\ nodes m !! addr t = Some (node_of pv nx (dat t) (kids t)) /\ inner f m t.
Proof. by destruct t. Qed.

Lemma foot_inner f t : foot f t = addr t :: inner_foot f t.
Proof. by destruct t. Qed.

Lemma foots_cons f t ts : foots f (t :: ts) = foot f t ++ foots f ts.
Proof. done. Qed.

Lemma foots_app f ts1 ts2 : foots f (ts1 ++ ts2) = foots f ts1 ++ foots f ts2.
Proof. apply bind_app. Qed.

Lemma elem_of_foots f a ts : a ∈ foots f ts <-> exists t, t ∈ ts /\ a ∈ foot f t.
Proof. unfold foots. rewrite list_elem_of_bind. set_solver. Qed.

Lemma str_at_agree s m m' : agree (sfoot s) m m' -> str_at s m -> str_at s m'.
Proof.
  destruct s as [[a x]|]; simpl; [|done]. intros H [? Hx]. split; [done|].
  by rewrite (proj2 (H a ltac:(set_solver))).
Qed.

Lemma agree_app l1 l2 m m' : agree (l1 ++ l2) m m' <-> agree l1 m m' /\ agree l2 m m'.
Proof. unfold agree. set_solver. Qed.

Lemma agree_sub l l' m m' : (forall a, a ∈ l -> a ∈ l') -> agree l' m m' -> agree l m m'.
Proof. intros H Ha a Hin. auto. Qed.

Lemma agree_trans l m1 m2 m3 : agree l m1 m2 -> agree l m2 m3 -> agree l m1 m3.
Proof. intros H1 H2 a Ha. destruct (H1 a Ha), (H2 a Ha). split; congruence. Qed.

Lemma shape_agree f m m' t pv nx : agree (foot f t) m m' -> shape f m pv nx t -> shape f m' pv nx t.
Proof.
  revert pv nx. induction t as [p d ks IH] using tree_ind'. intros pv nx.
  rewrite foot_inner, !shape_inner. unfold inner_foot, inner. simpl.
  intros Ha (Hp & Hn & Hname & Hopen).
  apply (agree_app [p]) in Ha as [Hp' Ha]. apply agree_app in Ha as [Hname' Ha].
  split; [done|]. split; [by rewrite (proj1 (Hp' p ltac:(set_solver)))|].
  split; [by eapply str_at_agree|]. simpl. intros Ho. specialize (Hopen Ho) as [Hv Hks].
  rewrite Ho in Ha. apply agree_app in Ha as [Hv' Ha].
  split; [by eapply str_at_agree|].
  clear -IH Ha Hks. simpl in *. revert Ha Hks. generalize 0 at 1 3. 
  induction IH as [|t ks Ht IH' IHks]; intros pv Ha Hks; [done|].
  apply agree_app in Ha as [??]. apply chain_cons in Hks as [??]. apply chain_cons. auto.
Qed.

Lemma chain_agree f m m' ts pv nx :
  agree (foots f ts) m m' -> chain f m pv nx ts -> chain f m' pv nx ts.
Proof.
  revert pv. induction ts as [|t ts IH]; intros pv; [done|].
  rewrite !chain_cons, foots_cons, agree_app. intros [??] [??].
  split; [by eapply shape_agree|auto].
Qed.

(** A root whose links are changed, and nothing else. *)
Lemma shape_relink f m m' t pv nx pv' nx' :
  shape f m pv nx t -> agree (inner_foot f t) m m' ->
  nodes m' !! addr t = Some (node_of pv' nx' (dat t) (kids t)) -> shape f m' pv' nx' t.
Proof.
  rewrite !shape_inner. unfold inner_foot, inner. intros (Hp & _ & Hn & Ho) Ha Hr. split; [done|]. split; [done|].
  apply agree_app in Ha as [Hn' Ha]. split; [by eapply str_at_agree|].
  intros E. specialize (Ho E) as [Hv Hk]. rewrite E in Ha. apply agree_app in Ha as [??].
  split; [by eapply str_at_agree|by eapply chain_agree].
Qed.

Lemma first_live f m pv nx ts a :
  chain f m pv nx ts -> first nx ts = a -> ts <> [] -> is_Some (nodes m !! a) /\ a <> 0.
Proof.
  destruct ts as [|t ts]; [done|]. intros [Hs _]%chain_cons <- _.
  apply shape_root in Hs as [? H]. simpl. eauto.
Qed.

(** ** Fuel *)

(** The addresses of the items alone. *)
Fixpoint items (f : bool) (t : tree) : list Z :=
  let '(Tree p d ks) := t in p :: (if opens f d then ks ≫= items f else []).

Lemma items_sublist f ts : (ts ≫= items f) `sublist_of` foots f ts.
Proof.
  assert (H : forall t, items f t `sublist_of` foot f t).
  { induction t as [p d ks IH] using tree_ind'. simpl. apply sublist_skip.
    destruct (opens f d); [|apply sublist_nil_l].
    apply sublist_inserts_l, sublist_inserts_l.
    induction IH as [|t ks Ht _ IH]; simpl; [done|by apply sublist_app]. }
  induction ts as [|t ts IH]; [done|]. rewrite foots_cons. simpl. by apply sublist_app.
Qed.

Lemma items_live f m ts pv nx a :
  chain f m pv nx ts -> a ∈ ts ≫= items f -> a ∈ dom (nodes m).
Proof.
  assert (H : forall t pv nx a, shape f m pv nx t -> a ∈ items f t -> a ∈ dom (nodes m)).
  { clear. induction t as [p d ks IH] using tree_ind'. intros pv nx a.
    rewrite shape_inner. simpl. intros (_ & Hn & _ & Ho) [->|Ha]%elem_of_cons.
    - apply elem_of_dom. simpl in Hn. eauto.
    - simpl in Ho. destruct (opens f d); [|set_solver]. destruct (Ho eq_refl) as [_ Hk].
      clear -IH Ha Hk. revert Ha Hk. generalize 0 at 1.
      induction IH as [|t ks Ht _ IH]; intros pv' Ha Hk; simpl in Ha; [set_solver|].
      apply chain_cons in Hk as [Hs Hk]. apply elem_of_app in Ha as [Ha|Ha]; eauto. }
  revert pv. induction ts as [|t ts IH]; intros pv; simpl; [set_solver|].
  rewrite chain_cons, elem_of_app. intros [??] [?|?]; eauto.
Qed.

Lemma items_fuel f m ts pv nx :
  chain f m pv nx ts -> NoDup (foots f ts) -> (length (ts ≫= items f) <= fuel_of m)%nat.
Proof.
  intros Hc Hnd. pose proof (sublist_NoDup _ _ Hnd (items_sublist f ts)) as Hnd'.
  unfold fuel_of. rewrite <- size_dom, <- (size_list_to_set (C := gset Z) _ Hnd').
  apply subseteq_size. intros a Ha%elem_of_list_to_set. by eapply items_live.
Qed.

Lemma length_items f ts : (length ts <= length (ts ≫= items f))%nat.
Proof.
  induction ts as [|[p d ks] ts IH]; [done|]. rewrite bind_cons, length_app. simpl. lia.
Qed.

Lemma chain_fuel f m ts pv nx :
  chain f m pv nx ts -> NoDup (foots f ts) -> (length ts <= fuel_of m)%nat.
Proof.
  intros Hc Hnd. pose proof (items_fuel _ _ _ _ _ Hc Hnd). pose proof (length_items f ts). lia.
Qed.

(** ** Deletion frees what is owned *)

Lemma free_string s m :
  str_at s m ->
  (if negb (ptr s =? 0) then cJSON_free (ptr s) m else Some m) = Some (remove (sfoot s) m).
Proof.
  destruct s as [[a x]|]; simpl; [|by rewrite remove_nil]. intros [Ha Hx].
  rewrite (proj2 (Z.eqb_neq a 0)) by done. apply free_live, elem_of_live. eauto.
Qed.

Lemma delete_loop_null fuel m : delete_loop fuel 0 m = Some m.
Proof. by destruct fuel. Qed.

Lemma delete_chain fuel ts pv m :
  chain false m pv 0 ts -> NoDup (foots false ts) ->
  (length (ts ≫= items false) <= fuel)%nat ->
  delete_loop fuel (first 0 ts) m = Some (remove (foots false ts) m).
Proof.
  revert ts pv m. induction fuel as [|fuel IH]; intros ts pv m Hc Hnd Hf.
  { destruct ts as [|[]]; simpl in Hf; [|lia]. by rewrite remove_nil. }
  destruct ts as [|[p d ks] ts]; [by rewrite remove_nil|].
  apply chain_cons in Hc as [(Hp & Hn & Hname & Ho)%shape_inner Hc]. simpl in Hp, Hn, Hname, Ho.
  rewrite foots_cons, foot_inner in Hnd. unfold inner_foot in Hnd. simpl in Hnd.
  apply NoDup_cons in Hnd as [Hpin Hnd]. rewrite !not_elem_of_app in Hpin.
  apply NoDup_app in Hnd as (Hnd & Hdis & Hnd2). apply NoDup_app in Hnd as (_ & Hdn & Hnd1).
  rewrite bind_cons, length_app in Hf. simpl in Hf. rewrite foots_cons, foot_inner. unfold inner_foot.
  cbn [delete_loop first addr dat kids]. rewrite (proj2 (Z.eqb_neq p 0)) by done.
  rewrite Hn. cbn [mbind option_bind].
  change (negb (is_ref (type (node_of pv (first 0 ts) d ks)))) with (opens false d).
  cbn [next child valuestring string node_of].
  set (l1 := if opens false d then foots false ks else []).
  set (l2 := if opens false d then sfoot (dvalue d) else []).
  assert (E : forall a, a ∈ (if opens false d then sfoot (dvalue d) ++ foots false ks else [])
    <-> a ∈ l1 \/ a ∈ l2) by (unfold l1, l2; destruct (opens false d); set_solver).
  assert (Hl12 : forall a, a ∈ l1 -> a ∉ l2).
  { unfold l1, l2. destruct (opens false d); [|set_solver].
    apply NoDup_app in Hnd1 as (_ & H & _). intros a ??. by eapply H. }
  assert (S1 : (if opens false d && negb (first 0 ks =? 0)
                then delete_loop fuel (first 0 ks) m else Some m) = Some (remove l1 m)).
  { unfold l1. destruct (opens false d); [|by rewrite remove_nil].
    destruct (Ho eq_refl) as [_ Hk]. apply NoDup_app in Hnd1 as (_ & _ & Hnd1). simpl in *.
    rewrite <- (IH ks 0 m) by (done || lia).
    destruct (Z.eqb_spec (first 0 ks) 0) as [->|]; simpl; [|done]. by rewrite delete_loop_null. }
  rewrite S1. cbn [mbind option_bind].
  rewrite nodes_remove, decide_False, Hn by set_solver. cbn [mbind option_bind].
  change (negb (is_ref (type (node_of pv (first 0 ts) d ks)))) with (opens false d).
  cbn [next child valuestring string node_of].
  assert (S2 : (if opens false d && negb (ptr (dvalue d) =? 0)
                then cJSON_free (ptr (dvalue d)) (remove l1 m) else Some (remove l1 m))
               = Some (remove l2 (remove l1 m))).
  { unfold l2 in *. destruct (opens false d); [|by rewrite remove_nil]. simpl.
    apply free_string. destruct (Ho eq_refl) as [Hv _].
    eapply str_at_agree, Hv. apply agree_remove. set_solver. }
  rewrite S2. cbn [mbind option_bind]. rewrite remove_remove.
  rewrite nodes_remove, decide_False, Hn by set_solver. cbn [mbind option_bind string node_of].
  rewrite free_string by (eapply str_at_agree, Hname; apply agree_remove; set_solver).
  cbn [mbind option_bind]. rewrite remove_remove, free_live; cycle 1.
  { apply elem_of_live. left. rewrite nodes_remove, decide_False by set_solver. eauto. }
  cbn [mbind option_bind]. rewrite remove_remove, (IH ts p); [|..|done|lia].
  - f_equal. rewrite remove_remove. apply remove_same. set_solver.
  - eapply chain_agree, Hc. apply agree_remove. set_solver.
Qed.

(** ** Updates of links *)

(** [m'] differs from [m] at the addresses [l] at most. *)
Definition frame (l : list Z) (m m' : mem) : Prop :=
  (forall a, a ∉ l -> nodes m' !! a = nodes m !! a /\ strs m' !! a = strs m !! a) /\
  consts m' = consts m.

Lemma frame_refl l m : frame l m m.
Proof. done. Qed.

Lemma frame_trans l l1 l2 m1 m2 m3 :
  frame l1 m1 m2 -> frame l2 m2 m3 -> (forall a, a ∈ l1 \/ a ∈ l2 -> a ∈ l) -> frame l m1 m3.
Proof.
  intros [H1 C1] [H2 C2] Hl. split; [|congruence]. intros a Ha.
  destruct (H1 a ltac:(naive_solver)), (H2 a ltac:(naive_solver)). split; congruence.
Qed.

Lemma frame_sub l l' m m' : frame l m m' -> (forall a, a ∈ l -> a ∈ l') -> frame l' m m'.
Proof. intros H Hl. apply (frame_trans l' l [] m m' m'); [done|apply frame_refl|set_solver]. Qed.

Lemma frame_agree l l' m m' : frame l m m' -> (forall a, a ∈ l' -> a ∉ l) -> agree l' m m'.
Proof. intros [H _] Hl a Ha. auto. Qed.

Lemma frame_agree1 p l m m' : frame [p] m m' -> p ∉ l -> agree l m m'.
Proof. intros H Hp. eapply frame_agree; [done|]. by intros a Ha ->%list_elem_of_singleton. Qed.

Lemma frame_remove l m : frame l m (remove l m).
Proof. split; [|done]. intros a Ha. by rewrite nodes_remove, strs_remove, !decide_False. Qed.

Lemma upd_frame p g m n :
  nodes m !! p = Some n ->
  exists m', upd p g m = Some m' /\ nodes m' !! p = Some (g n) /\ frame [p] m m' /\
    strs m' = strs m /\ calls m' = calls m.
Proof.
  intros Hn. unfold upd. rewrite Hn. eexists. split; [done|]. simpl.
  split; [by rewrite lookup_insert_eq|]. split; [|done]. split; [|done].
  intros a Ha. simpl. split; [|done]. apply lookup_insert_ne. set_solver.
Qed.

Lemma shape_upd f g m pv nx pv' nx' t :
  shape f m pv nx t -> addr t ∉ inner_foot f t ->
  g (node_of pv nx (dat t) (kids t)) = node_of pv' nx' (dat t) (kids t) ->
  exists m', upd (addr t) g m = Some m' /\ shape f m' pv' nx' t /\ frame [addr t] m m'.
Proof.
  intros Hs Hnin Hg. destruct (shape_root _ _ _ _ _ Hs) as [_ Hn].
  destruct (upd_frame _ g _ _ Hn) as (m' & Hu & Hn' & Hf & _).
  exists m'. split; [done|]. split; [|done]. eapply shape_relink; [done| |by rewrite Hn', Hg].
  eapply frame_agree; [done|]. set_solver.
Qed.

Lemma NoDup_foot f t : NoDup (foot f t) -> addr t ∉ inner_foot f t.
Proof. rewrite foot_inner. by intros [? _]%NoDup_cons. Qed.

Lemma addr_foot f t : addr t ∈ foot f t.
Proof. rewrite foot_inner. set_solver. Qed.

Lemma lastp_app pv ts1 ts2 : lastp pv (ts1 ++ ts2) = lastp (lastp pv ts1) ts2.
Proof. revert pv. induction ts1; intros; simpl; auto. Qed.

Lemma chain_upd_first f m pv nx ts pv' :
  chain f m pv nx ts -> NoDup (foots f ts) -> ts <> [] ->
  exists m', upd (first nx ts) (set_prev pv') m = Some m' /\ chain f m' pv' nx ts /\
    frame [first nx ts] m m'.
Proof.
  destruct ts as [|t ts]; [done|]. intros [Hs Hc]%chain_cons Hnd _.
  rewrite foots_cons in Hnd. apply NoDup_app in Hnd as (Hnd & Hdis & _).
  destruct (shape_upd f (set_prev pv') m pv (first nx ts) pv' (first nx ts) t)
    as (m' & Hu & Hs' & Hf); [done|by apply NoDup_foot|done|].
  exists m'. split; [done|]. split; [|done]. apply chain_cons. split; [done|].
  eapply chain_agree, Hc. eapply frame_agree; [done|]. pose proof (addr_foot f t). set_solver.
Qed.

Lemma chain_upd_last f m pv nx ts nx' :
  chain f m pv nx ts -> NoDup (foots f ts) -> ts <> [] ->
  exists m', upd (lastp pv ts) (set_next nx') m = Some m' /\ chain f m' pv nx' ts /\
    frame [lastp pv ts] m m'.
Proof.
  intros Hc Hnd Hne. destruct (exists_last Hne) as (ts' & t & ->).
  apply chain_app in Hc as [Hc Ht]. apply chain_cons in Ht as [Ht _].
  rewrite foots_app in Hnd. apply NoDup_app in Hnd as (_ & Hdis & Hnd).
  rewrite foots_cons, app_nil_r in Hnd. rewrite lastp_app. simpl in *.
  destruct (shape_upd f (set_next nx') m (lastp pv ts') nx (lastp pv ts') nx' t)
    as (m' & Hu & Hs' & Hf); [done|by apply NoDup_foot|done|].
  exists m'. split; [done|]. split; [|done]. apply chain_app. simpl. split; [|done].
  eapply chain_agree, Hc. eapply frame_agree; [done|].
  intros a Ha ->%list_elem_of_singleton. apply (Hdis _ Ha).
  rewrite foots_cons, app_nil_r. apply addr_foot.
Qed.

(** ** Walks *)

Lemma last_loop_chain f m pv ts fuel :
  chain f m pv 0 ts -> ts <> [] -> (length ts <= fuel)%nat ->
  last_loop fuel (first 0 ts) m = Some (lastp pv ts).
Proof.
  revert pv fuel. induction ts as [|t ts IH]; intros pv fuel Hc Hne Hf; [done|].
  apply chain_cons in Hc as [Hs Hc]. destruct (shape_root _ _ _ _ _ Hs) as [_ Hn].
  destruct fuel as [|fuel]; [simpl in Hf; lia|]. cbn [first lastp last_loop].
  rewrite Hn. cbn [mbind option_bind next node_of].
  destruct ts as [|t' ts]; [done|].
  destruct (shape_root _ _ _ _ _ (proj1 (proj1 (chain_cons _ _ _ _ _ _) Hc))) as [Ht' _].
  cbn [first] in *. rewrite (proj2 (Z.eqb_neq (addr t') 0)) by done.
  apply (IH (addr t) fuel); [done|done|simpl in *; lia].
Qed.

Lemma nth_loop_chain f m pv ts fuel which :
  chain f m pv 0 ts -> (length ts <= fuel)%nat ->
  nth_loop fuel (first 0 ts) which m = Some (first 0 (drop (Z.to_nat which) ts)).
Proof.
  revert pv fuel which. induction ts as [|t ts IH]; intros pv fuel which Hc Hf.
  { rewrite drop_nil. by destruct fuel. }
  apply chain_cons in Hc as [Hs Hc]. destruct (shape_root _ _ _ _ _ Hs) as [Ht Hn].
  destruct fuel as [|fuel]; [simpl in Hf; lia|]. cbn [first nth_loop].
  rewrite (proj2 (Z.eqb_neq (addr t) 0)) by done. simpl.
  destruct (Z.ltb_spec 0 which) as [Hw|Hw]; simpl.
  - rewrite Hn. cbn [mbind option_bind next node_of]. rewrite (IH (addr t)) by (done || simpl in *; lia).
    by replace (Z.to_nat which) with (S (Z.to_nat (which - 1))) by lia.
  - by replace (Z.to_nat which) with O by lia.
Qed.

Lemma count_loop_chain f m pv ts fuel i :
  chain f m pv 0 ts -> (length ts <= fuel)%nat -> 0 <= i ->
  i + Z.of_nat (length ts) < 2 ^ 31 ->
  count_loop fuel (first 0 ts) i m = Some (i + Z.of_nat (length ts)).
Proof.
  revert pv fuel i. induction ts as [|t ts IH]; intros pv fuel i Hc Hf Hi Hlen; simpl length in *.
  { rewrite Z.add_0_r. by destruct fuel. }
  apply chain_cons in Hc as [Hs Hc]. destruct (shape_root _ _ _ _ _ Hs) as [Ht Hn].
  destruct fuel as [|fuel]; [lia|]. cbn [first count_loop].
  rewrite (proj2 (Z.eqb_neq (addr t) 0)) by done. rewrite Hn.
  cbn [mbind option_bind next node_of].
  rewrite (wraps_id 32) by width_lia. rewrite (IH (addr t)) by (done || lia).
  f_equal. lia.
Qed.

(** ** The operations on arrays *)

(** Position of the first element that satisfies [q], the length if none does. *)
Fixpoint index {A} (q : A -> bool) (l : list A) : nat :=
  match l with [] => O | x :: l => if q x then O else S (index q l) end.

Definition name_is (s : cstr) (nm : option cstr) : bool :=
  match nm with Some t => strcasecmp t s =? 0 | None => false end.

Definition named (s : cstr) (t : tree) : bool := name_is s (snd <$> dname (dat t)).

Lemma index_le {A} (q : A -> bool) l : (index q l <= length l)%nat.
Proof. induction l as [|x l IH]; simpl; [lia|]. destruct (q x); lia. Qed.

Lemma strcasecmp_at f m pv nx t name s :
  shape f m pv nx t -> name <> 0 -> text name m = Some s ->
  exists r, cJSON_strcasecmp (ptr (dname (dat t))) name m = Some r /\ (r =? 0) = named s t.
Proof.
  rewrite shape_inner. intros (_ & _ & Hn & _) H0 Hs. unfold cJSON_strcasecmp, named.
  destruct (dname (dat t)) as [[a x]|]; simpl in *.
  - destruct Hn as [Ha Hx]. rewrite !(proj2 (Z.eqb_neq _ 0)) by done.
    assert (text a m = Some x) as -> by (unfold text; by rewrite Hx).
    rewrite Hs. simpl. eauto.
  - destruct name; [done|eauto..].
Qed.

Lemma find_loop_chain f m pv ts fuel i name s :
  chain f m pv 0 ts -> (length ts <= fuel)%nat -> 0 <= i -> i + Z.of_nat (length ts) < 2 ^ 31 ->
  name <> 0 -> text name m = Some s ->
  let k := index (named s) ts in
  find_loop fuel (first 0 ts) i name m = Some (first 0 (drop k ts), i + Z.of_nat k).
Proof.
  revert pv fuel i. induction ts as [|t ts IH]; intros pv fuel i Hc Hf Hi Hlen H0 Hs; simpl length in *.
  { simpl. rewrite Z.add_0_r. by destruct fuel. }
  apply chain_cons in Hc as [Ht Hc]. destruct (shape_root _ _ _ _ _ Ht) as [Hp Hn].
  destruct fuel as [|fuel]; [lia|]. cbn [first find_loop index].
  rewrite (proj2 (Z.eqb_neq (addr t) 0)) by done. rewrite Hn.
  cbn [mbind option_bind next string node_of].
  destruct (strcasecmp_at _ _ _ _ _ _ _ Ht H0 Hs) as (r & -> & Hr).
  cbn [mbind option_bind]. rewrite Hr. destruct (named s t).
  { simpl. by rewrite Z.add_0_r. }
  rewrite (wraps_id 32) by width_lia. rewrite (IH (addr t)) by (done || lia).
  simpl. do 2 f_equal. lia.
Qed.

Lemma shape_open f m pv nx a d ks :
  opens f d = true ->
  shape f m pv nx (Tree a d ks) <->
  a <> 0 /\ nodes m !! a = Some (node_of pv nx d ks) /\
  str_at (dname d) m /\ str_at (dvalue d) m /\ chain f m 0 0 ks.
Proof. intros Ho. rewrite shape_inner. unfold inner. simpl. rewrite Ho. naive_solver. Qed.

Lemma foot_open f a d ks :
  opens f d = true ->
  foot f (Tree a d ks) = a :: sfoot (dname d) ++ sfoot (dvalue d) ++ foots f ks.
Proof. intros Ho. simpl. by rewrite Ho. Qed.

(** An array whose children have been exchanged. *)
Lemma array_update f m m' l pv nx a d ks ks' :
  opens f d = true -> shape f m pv nx (Tree a d ks) -> frame l m m' ->
  (forall x, x ∈ sfoot (dname d) ++ sfoot (dvalue d) -> x ∉ l) ->
  nodes m' !! a = Some (node_of pv nx d ks') -> chain f m' 0 0 ks' ->
  shape f m' pv nx (Tree a d ks').
Proof.
  intros Ho. rewrite !shape_open by done. intros (Ha & _ & H1 & H2 & _) Hf Hl Hn Hc.
  pose proof (frame_agree _ _ _ _ Hf Hl) as Hag. apply agree_app in Hag as [A1 A2].
  repeat split; try done; by eapply str_at_agree.
Qed.

(** The same when the first child stays: the array's own structure is untouched. *)
Lemma array_same_first f m m' l pv nx a d ks ks' :
  opens f d = true -> shape f m pv nx (Tree a d ks) -> frame l m m' ->
  (forall x, x ∈ a :: sfoot (dname d) ++ sfoot (dvalue d) -> x ∉ l) ->
  first 0 ks' = first 0 ks -> chain f m' 0 0 ks' -> shape f m' pv nx (Tree a d ks').
Proof.
  intros Ho Hs Hf Hl H1 Hc. eapply array_update; [done..|set_solver| |done].
  rewrite (proj1 (proj1 Hf a ltac:(set_solver))).
  destruct (shape_root _ _ _ _ _ Hs) as [_ Hn]. simpl in Hn. rewrite Hn.
  unfold node_of. by rewrite H1.
Qed.

Lemma first_zero f m pv ts : chain f m pv 0 ts -> (first 0 ts =? 0) = bool_decide (ts = []).
Proof.
  destruct ts as [|t ts]; [done|]. intros [Hs _]%chain_cons.
  apply shape_root in Hs as [? _]. simpl. by rewrite (proj2 (Z.eqb_neq _ 0)).
Qed.

Lemma lastp_zero f m nx ts : chain f m 0 nx ts -> (lastp 0 ts =? 0) = bool_decide (ts = []).
Proof.
  destruct ts as [|t ts] using rev_ind; [done|]. intros [_ [Hs _]%chain_cons]%chain_app.
  apply shape_root in Hs as [? _]. rewrite lastp_app. simpl.
  rewrite (proj2 (Z.eqb_neq _ 0)) by done. by destruct ts.
Qed.

Lemma first_foots f nx ts : ts <> [] -> first nx ts ∈ foots f ts.
Proof. destruct ts; [done|]. intros _. rewrite foots_cons. pose proof (addr_foot f t). set_solver. Qed.

Lemma lastp_foots f pv ts : ts <> [] -> lastp pv ts ∈ foots f ts.
Proof.
  destruct ts as [|t ts] using rev_ind; [done|]. intros _. rewrite lastp_app, foots_app, foots_cons.
  pose proof (addr_foot f t). set_solver.
Qed.

(** Linking an item behind the last child, as three functions do. *)
Lemma append_link_ok m pv nx a d ks t :
  opens false d = true -> shape false m pv nx (Tree a d ks) -> shape false m 0 0 t ->
  NoDup (foots false [Tree a d ks; t]) ->
  exists m', (if bool_decide (ks = []) then upd a (set_child (addr t)) m
              else suffix_object (lastp 0 ks) (addr t) m) = Some m' /\
    shape false m' pv nx (Tree a d (ks ++ [t])) /\ frame (foots false [Tree a d ks; t]) m m'.
Proof.
  intros Ho Ha Ht Hnd. rewrite !foots_cons, app_nil_r, foot_open in * by done.
  apply NoDup_app in Hnd as (Hnd & Hdis & Hndt).
  apply NoDup_cons in Hnd as [Hna Hnd]. rewrite app_assoc in Hnd.
  apply NoDup_app in Hnd as (_ & Hd2 & Hndk).
  pose proof Ha as Ha'. rewrite shape_open in Ha' by done.
  destruct Ha' as (Ha0 & Han & _ & _ & Hc). pose proof (addr_foot false t) as Hta.
  pose proof (NoDup_foot _ _ Hndt) as Hti.
  assert (Hta' : forall x, x ∈ a :: sfoot (dname d) ++ sfoot (dvalue d) ++ foots false ks -> x <> addr t)
    by (intros x Hx ->; by eapply Hdis).
  case_bool_decide as Hks.
  - subst ks. destruct (upd_frame a (set_child (addr t)) _ _ Han) as (m' & Hu & Hn & Hf & _).
    exists m'. split; [done|]. split; [|eapply frame_sub; [done|clear; set_solver]].
    eapply array_update; [done|done|done|clear -Hna; set_solver|done|]. apply chain_cons.
    split; [|done]. eapply shape_agree, Ht. eapply frame_agree1; [done|].
    apply Hdis. clear. set_solver.
  - unfold suffix_object. pose proof (lastp_foots false 0 ks Hks) as Hl.
    assert (Hlt : lastp 0 ks ∉ foot false t) by (apply Hdis; clear -Hl; set_solver).
    destruct (chain_upd_last false m 0 0 ks (addr t) Hc Hndk Hks) as (m1 & -> & Hc1 & Hf1).
    cbn [mbind option_bind].
    assert (Ht1 : shape false m1 0 0 t)
      by (eapply shape_agree, Ht; by eapply frame_agree1).
    destruct (shape_upd false (set_prev (lastp 0 ks)) m1 0 0 (lastp 0 ks) 0 t Ht1 Hti eq_refl)
      as (m' & -> & Ht' & Hf2).
    exists m'. split; [done|]. assert (Hf : frame [lastp 0 ks; addr t] m m')
      by (eapply frame_trans; [done|done|clear; set_solver]).
    split; [|eapply frame_sub; [done|clear -Hl Hta; set_solver]].
    eapply array_same_first; [done|done|done| |by destruct ks|].
    + intros x Hx. specialize (Hta' x). specialize (Hd2 (lastp 0 ks)). set_solver.
    + apply chain_app. split; [|by apply chain_cons].
      eapply chain_agree, Hc1. eapply frame_agree1; [done|].
      intros H. apply (Hta' (addr t)); [|done]. clear -H. set_solver.
Qed.

Lemma open_chain m pv nx a d ks :
  opens false d = true -> shape false m pv nx (Tree a d ks) ->
  NoDup (foot false (Tree a d ks)) ->
  nodes m !! a = Some (node_of pv nx d ks) /\ chain false m 0 0 ks /\
  (length ks <= fuel_of m)%nat.
Proof.
  intros Ho Ha Hnd. rewrite shape_open in Ha by done. destruct Ha as (_ & Han & _ & _ & Hc).
  split; [done|]. split; [done|]. eapply chain_fuel; [done|].
  rewrite foot_open in Hnd by done. apply NoDup_cons in Hnd as [_ Hnd].
  by apply NoDup_app in Hnd as (_ & _ & (_ & _ & Hnd)%NoDup_app).
Qed.

Lemma AddItemToArray_ok m pv nx a d ks t :
  opens false d = true -> shape false m pv nx (Tree a d ks) -> shape false m 0 0 t ->
  NoDup (foots false [Tree a d ks; t]) ->
  exists m', cJSON_AddItemToArray a (addr t) m = Some m' /\
    shape false m' pv nx (Tree a d (ks ++ [t])) /\ frame (foots false [Tree a d ks; t]) m m'.
Proof.
  intros Ho Ha Ht Hnd. destruct (append_link_ok _ _ _ _ _ _ _ Ho Ha Ht Hnd) as (m' & E & Hm').
  exists m'. split; [|done]. rewrite foots_cons in Hnd. apply NoDup_app in Hnd as (Hnd & _ & _).
  destruct (open_chain _ _ _ _ _ _ Ho Ha Hnd) as (Han & Hc & Hfuel).
  unfold cJSON_AddItemToArray. rewrite Han. cbn [mbind option_bind child node_of].
  rewrite (proj2 (Z.eqb_neq (addr t) 0)) by apply (shape_root _ _ _ _ _ Ht).
  rewrite (first_zero _ _ _ _ Hc). case_bool_decide as Hks; [done|].
  by rewrite (last_loop_chain _ _ _ _ _ Hc Hks Hfuel).
Qed.

(** Disjointness of footprints: [apart] decides it from the hypotheses about
    membership alone. *)
Ltac nodup :=
  repeat match goal with
  | H : NoDup (_ :: _) |- _ => let N := fresh "N" in apply NoDup_cons in H as [N H]
  | H : NoDup (_ ++ _) |- _ =>
      let N := fresh "N" in let D := fresh "D" in apply NoDup_app in H as (N & D & H)
  end.
Ltac apart :=
  repeat match goal with
  | H : shape _ _ _ _ _ |- _ => clear H
  | H : chain _ _ _ _ _ |- _ => clear H
  | H : frame _ _ _ |- _ => clear H
  | H : str_at _ _ |- _ => clear H
  | H : NoDup _ |- _ => clear H
  | H : _ = _ |- _ => clear H
  | H : _ -> _ = _ |- _ => clear H
  end;
  repeat intro;
  repeat match goal with
  | H : _ ∈ _ ++ _ |- _ => apply elem_of_app in H as [H|H]
  | H : _ ∈ _ :: _ |- _ => apply elem_of_cons in H as [H|H]; [try subst|]
  | H : _ ∈ [] |- _ => by apply not_elem_of_nil in H
  end;
  try congruence;
  first [
    match goal with _ : ?y ∈ _ |- _ =>
      repeat match goal with D : forall x, x ∈ _ -> x ∉ _ |- _ => specialize (D y) end;
      set_unfold; tauto
    end | clear; set_solver ].
Ltac incl := clear; set_solver.

Lemma cond_upd_last f m nx ts nx' :
  chain f m 0 nx ts -> NoDup (foots f ts) ->
  exists m', (if negb (lastp 0 ts =? 0) then upd (lastp 0 ts) (set_next nx') m else Some m)
      = Some m' /\ chain f m' 0 nx' ts /\ frame (foots f ts) m m'.
Proof.
  intros Hc Hnd. rewrite (lastp_zero _ _ _ _ Hc). case_bool_decide as Hts; simpl.
  { subst ts. by exists m. }
  destruct (chain_upd_last f m 0 nx ts nx' Hc Hnd Hts) as (m' & ? & ? & Hf).
  exists m'. split; [done|]. split; [done|]. eapply frame_sub; [done|].
  pose proof (lastp_foots f 0 ts Hts). apart.
Qed.

Lemma cond_upd_first f m pv ts pv' :
  chain f m pv 0 ts -> NoDup (foots f ts) ->
  exists m', (if negb (first 0 ts =? 0) then upd (first 0 ts) (set_prev pv') m else Some m)
      = Some m' /\ chain f m' pv' 0 ts /\ frame (foots f ts) m m'.
Proof.
  intros Hc Hnd. rewrite (first_zero _ _ _ _ Hc). case_bool_decide as Hts; simpl.
  { subst ts. by exists m. }
  destruct (chain_upd_first f m pv 0 ts pv' Hc Hnd Hts) as (m' & ? & ? & Hf).
  exists m'. split; [done|]. split; [done|]. eapply frame_sub; [done|].
  pose proof (first_foots f 0 ts Hts). apart.
Qed.

(** The array's pointer to its first child, when [c] leaves the list. *)
Lemma upd_child m pv nx a d l1 c l2 :
  nodes m !! a = Some (node_of pv nx d (l1 ++ c :: l2)) -> addr c ∉ foots false l1 ->
  exists m', (if addr c =? first 0 (l1 ++ c :: l2) then upd a (set_child (first 0 l2)) m else Some m)
      = Some m' /\ nodes m' !! a = Some (node_of pv nx d (l1 ++ l2)) /\ frame [a] m m'.
Proof.
  intros Hn Hc. destruct l1 as [|t l1]; simpl.
  - rewrite Z.eqb_refl.
    destruct (upd_frame a (set_child (first 0 l2)) _ _ Hn) as (m' & Hu & Hn' & Hf & _). eauto.
  - rewrite foots_cons in Hc. pose proof (addr_foot false t).
    rewrite (proj2 (Z.eqb_neq _ _)) by (intros E; rewrite E in Hc; set_solver).
    exists m. split; [done|]. split; [done|]. apply frame_refl.
Qed.

Lemma clear_links f m pv nx t :
  shape f m pv nx t -> addr t ∉ inner_foot f t ->
  exists m', (m ← upd (addr t) (set_next 0) m; upd (addr t) (set_prev 0) m) = Some m' /\
    shape f m' 0 0 t /\ frame [addr t] m m'.
Proof.
  intros Hs Hn. destruct (shape_upd f (set_next 0) m pv nx pv 0 t Hs Hn eq_refl)
    as (m1 & -> & Hs1 & Hf1). cbn [mbind option_bind].
  destruct (shape_upd f (set_prev 0) m1 pv 0 0 0 t Hs1 Hn eq_refl) as (m2 & -> & Hs2 & Hf2).
  exists m2. split; [done|]. split; [done|]. eapply frame_trans; [done|done|incl].
Qed.

Lemma foots_middle f l1 c l2 : foots f (l1 ++ c :: l2) = foots f l1 ++ foot f c ++ foots f l2.
Proof. by rewrite foots_app, foots_cons. Qed.

Lemma chain_middle f m pv nx l1 c l2 :
  chain f m pv nx (l1 ++ c :: l2) <->
  chain f m pv (addr c) l1 /\ shape f m (lastp pv l1) (first nx l2) c /\
  chain f m (addr c) nx l2.
Proof. rewrite chain_app, chain_cons. simpl. tauto. Qed.

Lemma Detach_found m pv nx a d l1 c l2 which :
  opens false d = true -> shape false m pv nx (Tree a d (l1 ++ c :: l2)) ->
  NoDup (foot false (Tree a d (l1 ++ c :: l2))) -> Z.to_nat which = length l1 ->
  exists m', cJSON_DetachItemFromArray a which m = Some (addr c, m') /\
    shape false m' pv nx (Tree a d (l1 ++ l2)) /\ shape false m' 0 0 c /\
    frame (foot false (Tree a d (l1 ++ c :: l2))) m m'.
Proof.
  intros Ho Ha Hnd Hw. pose proof Ha as Ha'. rewrite shape_open in Ha' by done.
  destruct Ha' as (_ & Han & _ & _ & Hc). rewrite foot_open in * by done.
  apply NoDup_cons in Hnd as [Na Hnd]. rewrite app_assoc in Hnd.
  apply NoDup_app in Hnd as (_ & Ds & Hnd). pose proof (chain_fuel _ _ _ _ _ Hc Hnd) as Hfuel.
  rewrite foots_middle in *. pose proof (addr_foot false c) as Hca.
  unfold cJSON_DetachItemFromArray. rewrite Han. cbn [mbind option_bind child node_of].
  rewrite (nth_loop_chain _ _ _ _ _ which Hc) by done. rewrite Hw, drop_app_length.
  cbn [mbind option_bind first].
  apply chain_middle in Hc as (Hc1 & Hcc & Hc2). nodup.
  destruct (shape_root _ _ _ _ _ Hcc) as [Hc0 Hcn].
  rewrite (proj2 (Z.eqb_neq _ 0)) by done. rewrite Hcn. cbn [mbind option_bind prev next node_of].
  destruct (cond_upd_last false m _ l1 (first 0 l2) Hc1) as (m1 & -> & Hl1 & Hf1); [done|].
  cbn [mbind option_bind].
  assert (Hcc1 : shape false m1 (lastp 0 l1) (first 0 l2) c)
    by (eapply shape_agree, Hcc; eapply frame_agree; [done|apart]).
  rewrite (proj2 (shape_root _ _ _ _ _ Hcc1)). cbn [mbind option_bind prev next node_of].
  destruct (cond_upd_first false m1 (addr c) l2 (lastp 0 l1)) as (m2 & -> & Hl2 & Hf2);
    [eapply chain_agree, Hc2; eapply frame_agree; [done|apart]|done|].
  cbn [mbind option_bind].
  assert (Hcc2 : shape false m2 (lastp 0 l1) (first 0 l2) c)
    by (eapply shape_agree, Hcc1; eapply frame_agree; [done|apart]).
  assert (Han2 : nodes m2 !! a = Some (node_of pv nx d (l1 ++ c :: l2))).
  { rewrite (proj1 (proj1 Hf2 a ltac:(apart))), (proj1 (proj1 Hf1 a ltac:(apart))). done. }
  rewrite Han2, (proj2 (shape_root _ _ _ _ _ Hcc2)).
  cbn [mbind option_bind prev next child node_of].
  destruct (upd_child m2 pv nx a d l1 c l2 Han2) as (m3 & -> & Han3 & Hf3); [apart|].
  cbn [mbind option_bind].
  assert (Hcc3 : shape false m3 (lastp 0 l1) (first 0 l2) c)
    by (eapply shape_agree, Hcc2; eapply frame_agree; [done|apart]).
  destruct (clear_links false m3 _ _ c Hcc3) as (m4 & E4 & Hcc4 & Hf4); [by apply NoDup_foot|].
  destruct (upd (addr c) (set_next 0) m3) as [m3'|]; [|done]. cbn [mbind option_bind] in *.
  rewrite E4. cbn [mbind option_bind]. exists m4. split; [done|].
  assert (Hf : frame (a :: foots false l1 ++ addr c :: foots false l2) m m4).
  { eapply (frame_trans _ _ _ _ m1); [done| |intros x [Hx|Hx]; [|exact Hx]; set_solver].
    eapply (frame_trans _ _ _ _ m2); [done| |intros x [Hx|Hx]; [|exact Hx]; set_solver].
    eapply (frame_trans _ _ _ _ m3); [done|done|incl]. }
  split; [|split; [done|eapply frame_sub; [done|apart]]].
  eapply array_update; [done|done|exact Hf|apart| |].
  - rewrite (proj1 (proj1 Hf4 a ltac:(apart))). done.
  - apply chain_app. split.
    + eapply chain_agree, Hl1. eapply frame_agree with (l := foots false l2 ++ [a; addr c]); [|apart].
      eapply (frame_trans _ _ _ _ m2); [done| |intros x [Hx|Hx]; [|exact Hx]; set_solver].
      eapply frame_trans; [done|done|incl].
    + eapply chain_agree, Hl2. eapply frame_agree with (l := [a; addr c]); [|apart].
      eapply frame_trans; [done|done|incl].
Qed.

Lemma nth_loop_array m pv nx a d ks which :
  opens false d = true -> shape false m pv nx (Tree a d ks) ->
  NoDup (foot false (Tree a d ks)) ->
  nodes m !! a = Some (node_of pv nx d ks) /\
  nth_loop (fuel_of m) (first 0 ks) which m = Some (first 0 (drop (Z.to_nat which) ks)).
Proof.
  intros Ho Ha Hnd. destruct (open_chain _ _ _ _ _ _ Ho Ha Hnd) as (Han & Hc & Hfuel).
  split; [done|]. by eapply nth_loop_chain.
Qed.

Lemma Detach_none m pv nx a d ks which :
  opens false d = true -> shape false m pv nx (Tree a d ks) ->
  NoDup (foot false (Tree a d ks)) -> (length ks <= Z.to_nat which)%nat ->
  cJSON_DetachItemFromArray a which m = Some (0, m).
Proof.
  intros Ho Ha Hnd Hw. destruct (nth_loop_array _ _ _ _ _ _ which Ho Ha Hnd) as [Hn Hl].
  unfold cJSON_DetachItemFromArray. rewrite Hn. cbn [mbind option_bind child node_of].
  rewrite Hl, drop_ge by done. done.
Qed.

Lemma Delete_ok m t :
  shape false m 0 0 t -> NoDup (foot false t) ->
  cJSON_Delete (addr t) m = Some (remove (foot false t) m).
Proof.
  intros Hs Hnd. rewrite <- (app_nil_r (foot false t)) in Hnd.
  assert (Hc : chain false m 0 0 [t]) by (by apply chain_cons).
  unfold cJSON_Delete. change (addr t) with (first 0 [t]).
  rewrite (delete_chain _ [t] 0) by (done || by eapply items_fuel).
  by rewrite foots_cons, app_nil_r.
Qed.

Lemma shape_remove f m pv nx t l :
  shape f m pv nx t -> (forall x, x ∈ foot f t -> x ∉ l) -> shape f (remove l m) pv nx t.
Proof. intros Hs Hl. eapply shape_agree, Hs. by apply agree_remove. Qed.

Lemma DeleteItem_found m pv nx a d l1 c l2 which :
  opens false d = true -> shape false m pv nx (Tree a d (l1 ++ c :: l2)) ->
  NoDup (foot false (Tree a d (l1 ++ c :: l2))) -> Z.to_nat which = length l1 ->
  exists m', cJSON_DeleteItemFromArray a which m = Some m' /\
    shape false m' pv nx (Tree a d (l1 ++ l2)) /\
    (forall x, x ∈ foot false c -> x ∉ live m') /\
    frame (foot false (Tree a d (l1 ++ c :: l2))) m m'.
Proof.
  intros Ho Ha Hnd Hw. destruct (Detach_found _ _ _ _ _ _ _ _ _ Ho Ha Hnd Hw)
    as (m1 & E & Ha1 & Hc1 & Hf1).
  unfold cJSON_DeleteItemFromArray. rewrite E. cbn [mbind option_bind].
  rewrite foot_open, foots_middle in Hnd, Hf1 |- * by done. rewrite app_assoc in Hnd.
  apply NoDup_cons in Hnd as [Na Hnd]. apply NoDup_app in Hnd as (_ & Ds & Hnd). nodup.
  rewrite (Delete_ok m1 c) by done. exists (remove (foot false c) m1). split; [done|]. split; [|split].
  - apply shape_remove; [done|]. rewrite foot_open, foots_app by done. apart.
  - intros x Hx. rewrite elem_of_live, nodes_remove, strs_remove, !decide_True by done.
    by intros [[? ?]|[? ?]].
  - eapply frame_trans; [done|apply frame_remove|incl].
Qed.

(** The pointer of the array, or of the item before, to the item that takes
    the place of [c]. *)
Lemma upd_child_or_prev m pv nx a d l1 c t l2 :
  nodes m !! a = Some (node_of pv nx d (l1 ++ c :: l2)) ->
  chain false m 0 (addr c) l1 -> NoDup (foots false l1) ->
  a ∉ foots false l1 -> addr c ∉ foots false l1 ->
  exists m', (if addr c =? first 0 (l1 ++ c :: l2) then upd a (set_child (addr t)) m
              else upd (lastp 0 l1) (set_next (addr t)) m) = Some m' /\
    nodes m' !! a = Some (node_of pv nx d (l1 ++ t :: l2)) /\
    chain false m' 0 (addr t) l1 /\ frame (a :: foots false l1) m m'.
Proof.
  intros Hn Hch Hnd Ha Hc. destruct (decide (l1 = [])) as [->|Hne].
  - simpl. rewrite Z.eqb_refl.
    destruct (upd_frame a (set_child (addr t)) _ _ Hn) as (m' & Hu & Hn' & Hf & _). eauto.
  - rewrite (proj2 (Z.eqb_neq (addr c) _)); cycle 1.
    { intros E. apply Hc. rewrite E, first_app. by apply first_foots. }
    destruct (chain_upd_last false m 0 _ l1 (addr t) Hch Hnd Hne) as (m' & Hu & Hc' & Hf).
    pose proof (lastp_foots false 0 l1 Hne). exists m'. split; [done|]. split; [|split; [done|]].
    + rewrite (proj1 (proj1 Hf a ltac:(set_solver))), Hn. by destruct l1.
    + eapply frame_sub; [done|set_solver].
Qed.

Lemma Replace_found m pv nx a d l1 c l2 t which :
  opens false d = true -> shape false m pv nx (Tree a d (l1 ++ c :: l2)) -> shape false m 0 0 t ->
  NoDup (foots false [Tree a d (l1 ++ c :: l2); t]) -> Z.to_nat which = length l1 ->
  exists m', cJSON_ReplaceItemInArray a which (addr t) m = Some m' /\
    shape false m' pv nx (Tree a d (l1 ++ t :: l2)) /\
    (forall x, x ∈ foot false c -> x ∉ live m') /\
    frame (foots false [Tree a d (l1 ++ c :: l2); t]) m m'.
Proof.
  intros Ho Ha Ht Hnd Hw. rewrite !foots_cons, app_nil_r in *.
  apply NoDup_app in Hnd as (Hnd & Dt & Hndt).
  destruct (nth_loop_array _ _ _ _ _ _ which Ho Ha Hnd) as [Han Hl].
  unfold cJSON_ReplaceItemInArray. rewrite Han. cbn [mbind option_bind child node_of].
  rewrite Hl, Hw, drop_app_length. cbn [mbind option_bind first].
  rewrite foot_open, foots_middle in * by done. pose proof Ha as Ha'.
  rewrite shape_open in Ha' by done. destruct Ha' as (_ & _ & _ & _ & Hc).
  apply NoDup_cons in Hnd as [Na Hnd]. rewrite app_assoc in Hnd.
  apply NoDup_app in Hnd as (_ & Ds & Hnd).
  pose proof (addr_foot false c) as Hca. pose proof (addr_foot false t) as Hta.
  pose proof (NoDup_foot _ _ Hndt) as Hti.
  assert (Hct : addr c <> addr t).
  { intros E. apply (Dt (addr c)); [clear -Hca; set_solver|by rewrite E]. }
  assert (Htk : addr t ∉ a :: (sfoot (dname d) ++ sfoot (dvalue d)) ++
            foots false l1 ++ foot false c ++ foots false l2).
  { intros H. apply (Dt (addr t)); [clear -H; set_solver|done]. }
  apply chain_middle in Hc as (Hc1 & Hcc & Hc2). nodup.
  destruct (shape_root _ _ _ _ _ Hcc) as [Hc0 Hcn].
  rewrite (proj2 (Z.eqb_neq _ 0)) by done. rewrite Hcn. cbn [mbind option_bind prev next node_of].
  destruct (shape_upd false (set_next (first 0 l2)) m 0 0 0 (first 0 l2) t Ht Hti eq_refl)
    as (m1 & -> & Ht1 & Hf1). cbn [mbind option_bind].
  rewrite (proj1 (proj1 Hf1 (addr c) ltac:(clear -Hct; set_solver))), Hcn. cbn [mbind option_bind prev node_of].
  destruct (shape_upd false (set_prev (lastp 0 l1)) m1 0 _ (lastp 0 l1) _ t Ht1 Hti eq_refl)
    as (m2 & -> & Ht2 & Hf2). cbn [mbind option_bind].
  rewrite (proj2 (shape_root _ _ _ _ _ Ht2)). cbn [mbind option_bind prev next node_of].
  assert (F2 : frame [addr t] m m2) by (eapply frame_trans; [done|done|incl]).
  destruct (cond_upd_first false m2 (addr c) l2 (addr t)) as (m3 & -> & Hl2 & Hf3);
    [eapply chain_agree, Hc2; eapply frame_agree; [done|apart]|done|].
  cbn [mbind option_bind].
  assert (F3 : frame (addr t :: foots false l2) m m3)
    by (eapply frame_trans; [exact F2|done|incl]).
  assert (Han3 : nodes m3 !! a = Some (node_of pv nx d (l1 ++ c :: l2)))
    by (rewrite (proj1 (proj1 F3 a ltac:(apart))); done).
  assert (Ht3 : shape false m3 (lastp 0 l1) (first 0 l2) t)
    by (eapply shape_agree, Ht2; eapply frame_agree; [done|apart]).
  rewrite Han3, (proj2 (shape_root _ _ _ _ _ Ht3)).
  cbn [mbind option_bind prev next child node_of].
  destruct (upd_child_or_prev m3 pv nx a d l1 c t l2 Han3) as (m4 & -> & Han4 & Hl1 & Hf4);
    [eapply chain_agree, Hc1; eapply frame_agree; [done|apart]|done|apart|apart|].
  cbn [mbind option_bind].
  assert (F4 : frame (addr t :: a :: foots false l1 ++ foots false l2) m m4)
    by (eapply frame_trans; [exact F3|done|incl]).
  assert (Hcc4 : shape false m4 (lastp 0 l1) (first 0 l2) c)
    by (eapply shape_agree, Hcc; eapply frame_agree; [done|apart]).
  destruct (shape_upd false (set_prev 0) m4 _ _ 0 (first 0 l2) c Hcc4) as (m5 & -> & Hcc5 & Hf5);
    [by apply NoDup_foot|done|]. cbn [mbind option_bind].
  destruct (shape_upd false (set_next 0) m5 _ _ 0 0 c Hcc5) as (m6 & -> & Hcc6 & Hf6);
    [by apply NoDup_foot|done|]. cbn [mbind option_bind].
  assert (F6 : frame [addr c] m4 m6) by (eapply frame_trans; [done|done|incl]).
  rewrite (Delete_ok m6 c) by done. exists (remove (foot false c) m6). split; [done|].
  assert (F7 : frame (foot false c) m4 (remove (foot false c) m6))
    by (eapply frame_trans; [exact F6|apply frame_remove|clear -Hca; set_solver]).
  assert (F : frame ((addr t :: a :: foots false l1 ++ foots false l2) ++ foot false c) m
                (remove (foot false c) m6)) by (eapply frame_trans; [exact F4|exact F7|incl]).
  split; [|split].
  - eapply array_update; [done|done|exact F|apart| |].
    + rewrite (proj1 (proj1 F7 a ltac:(apart))). done.
    + apply chain_middle. split; [|split].
      * eapply chain_agree, Hl1. eapply frame_agree; [done|apart].
      * eapply shape_agree, Ht3. eapply frame_agree;
          [eapply frame_trans; [exact Hf4|exact F7|intros x Hx; by apply elem_of_app]|apart].
      * eapply chain_agree, Hl2. eapply frame_agree;
          [eapply frame_trans; [exact Hf4|exact F7|intros x Hx; by apply elem_of_app]|apart].
  - intros x Hx. rewrite elem_of_live, nodes_remove, strs_remove, !decide_True by done.
    by intros [[? ?]|[? ?]].
  - eapply frame_sub; [exact F|apart].
Qed.

(** ** Values *)

(** The value of a tree, as [CJson] has it. *)
Fixpoint val (t : tree) : item :=
  let '(Tree _ d ks) := t in
  mkItem (dtype d) (snd <$> dvalue d) (dint d) (ddouble d) (snd <$> dname d) (map val ks).

(** No references in the tree. *)
Fixpoint plain (t : tree) : bool :=
  let '(Tree _ d ks) := t in negb (is_ref (dtype d)) && forallb plain ks.

(** What duplication makes of a value. *)
Fixpoint unref (i : item) : item :=
  mkItem (Z.land (CJson.type i) (Z.lnot cJSON_IsReference)) (CJson.valuestring i)
    (CJson.valueint i) (CJson.valuedouble i) (CJson.string i) (map unref (CJson.child i)).

Definition childless (i : item) : item :=
  mkItem (CJson.type i) (CJson.valuestring i) (CJson.valueint i) (CJson.valuedouble i)
    (CJson.string i) [].

Lemma is_ref_unref t : is_ref (Z.land t (Z.lnot cJSON_IsReference)) = false.
Proof. unfold is_ref. by rewrite <- Z.land_assoc, Z.land_0_r. Qed.

(** An address the allocator may hand out. *)
Definition fresh (m : mem) (a : Z) : Prop := a <> 0 /\ a ∉ live m /\ a ∉ dom (consts m).

(** [t] has been built in memory that was not in use in [m0]; nothing else has changed. *)
Record grown (m0 m : mem) (t : tree) : Prop := mkGrown {
  grown_shape : shape false m 0 0 t;
  grown_NoDup : NoDup (foot false t);
  grown_frame : frame (foot false t) m0 m;
  grown_fresh a : a ∈ foot false t -> fresh m0 a;
  grown_calls : (calls m0 <= calls m)%nat
}.

Lemma not_live m a : a ∉ live m <-> nodes m !! a = None /\ strs m !! a = None.
Proof.
  rewrite elem_of_live. rewrite <- !not_eq_None_Some.
  destruct (nodes m !! a), (strs m !! a); naive_solver.
Qed.

Lemma frame_live l m m' a : frame l m m' -> a ∉ l -> a ∈ live m' <-> a ∈ live m.
Proof. intros [H _] Ha. destruct (H a Ha) as [E1 E2]. by rewrite !elem_of_live, E1, E2. Qed.

(** A failed attempt leaves nothing behind. *)
Lemma grown_delete m0 m t :
  grown m0 m t ->
  exists m', cJSON_Delete (addr t) m = Some m' /\ frame [] m0 m' /\ calls m' = calls m.
Proof.
  intros [Hs Hnd [Hf Hc] Hfr _]. rewrite (Delete_ok m t) by done. eexists. split; [done|].
  split; [|done]. split; [|done]. intros a _. rewrite nodes_remove, strs_remove.
  case_decide as Ha; [|auto]. destruct (Hfr a Ha) as (_ & [-> ->]%not_live & _). done.
Qed.

Lemma grown_weaken m0 m m' t :
  grown m0 m t -> frame [] m m' -> (calls m <= calls m')%nat -> grown m0 m' t.
Proof.
  intros [Hs Hnd Hf Hfr Hk] Hf' Hk'. split; [|done| |done|lia].
  - eapply shape_agree, Hs. eapply frame_agree; [done|]. set_solver.
  - eapply frame_trans; [done|done|]. set_solver.
Qed.

(** What reading needs is in use, hence not part of anything built since. *)
Lemma foot_use f m t pv nx a : shape f m pv nx t -> a ∈ foot f t -> a <> 0 /\ a ∈ live m.
Proof.
  assert (Hstr : forall s m a, str_at s m -> a ∈ sfoot s -> a <> 0 /\ a ∈ live m).
  { intros [[b x]|] m' a'; simpl; [|set_solver]. intros [? Hx] ->%list_elem_of_singleton.
    split; [done|]. apply elem_of_live. eauto. }
  revert pv nx a. induction t as [p d ks IH] using tree_ind'. intros pv nx a.
  rewrite shape_inner, foot_inner. unfold inner, inner_foot. simpl.
  intros (Hp & Hn & Hname & Ho) [->|Ha]%elem_of_cons; [split; [done|apply elem_of_live; eauto]|].
  apply elem_of_app in Ha as [Ha|Ha]; [eauto|].
  destruct (opens f d); [|set_solver]. destruct (Ho eq_refl) as [Hv Hk].
  apply elem_of_app in Ha as [Ha|Ha]; [eauto|]. clear -IH Ha Hk. revert Ha Hk. generalize 0 at 1.
  induction IH as [|t ks Ht _ IH]; intros pv Ha Hk; [set_solver|].
  rewrite foots_cons in Ha. apply chain_cons in Hk as [Hs Hk].
  apply elem_of_app in Ha as [Ha|Ha]; eauto.
Qed.

Lemma foot_live f m t pv nx a : shape f m pv nx t -> a ∈ foot f t -> a ∈ live m.
Proof. intros Hs Ha. by eapply foot_use. Qed.

Lemma foots_live f m ts pv nx a : chain f m pv nx ts -> a ∈ foots f ts -> a ∈ live m.
Proof.
  revert pv. induction ts as [|t ts IH]; intros pv; [set_solver|]. rewrite foots_cons, chain_cons.
  intros [Hs Hc] [Ha|Ha]%elem_of_app; [by eapply foot_live|eauto].
Qed.

Lemma grown_chain f m0 m t ts pv nx : grown m0 m t -> chain f m0 pv nx ts -> chain f m pv nx ts.
Proof.
  intros [_ _ Hf Hfr _] Hc. eapply chain_agree, Hc. eapply frame_agree; [done|].
  intros a Ha Hin. destruct (Hfr a Hin) as (_ & Hn & _). apply Hn. by eapply foots_live.
Qed.

Lemma grown_shape_of f m0 m t u pv nx : grown m0 m t -> shape f m0 pv nx u -> shape f m pv nx u.
Proof.
  intros [_ _ Hf Hfr _] Hc. eapply shape_agree, Hc. eapply frame_agree; [done|].
  intros a Ha Hin. destruct (Hfr a Hin) as (_ & Hn & _). apply Hn. by eapply foot_live.
Qed.
