(* ===== verification/JsonClient.v ===== *)
(** * libckits/cJSON.c: creating, duplicating and composing item trees

    The operations of [JsonTree] that allocate, and what a client of the whole
    interface can rely on: [forest m ts] says that memory holds the trees [ts],
    disjoint, and nothing else.  [astep] is the specification of the operations on
    values; [json_client_safe] is the simulation. *)

From S2P Require Import Prelude Doubles CJson JsonTree.
From Stdlib Require Import Floats.SpecFloat.

Section client.
Variable malloc : nat -> gset Z -> Z.
Variable big_int : double -> Z.
Hypothesis malloc_fresh : forall n l, malloc n l = 0 \/ malloc n l ∉ l.

(** ** Allocation *)

(** A call between the two memories was refused. *)
Definition refused (m m' : mem) : Prop :=
  exists k l, (calls m <= k < calls m')%nat /\ malloc k l = 0.

Lemma refused_trans m1 m2 m3 m4 :
  refused m2 m3 -> (calls m1 <= calls m2)%nat -> (calls m3 <= calls m4)%nat -> refused m1 m4.
Proof. intros (k & l & Hk & E) H1 H2. exists k, l. split; [lia|done]. Qed.

Lemma refused_calls m m' : refused m m' -> (calls m <= calls m')%nat.
Proof. intros (k & l & Hk & _). lia. Qed.

Lemma upd_calls p f m m' : upd p f m = Some m' -> calls m' = calls m.
Proof. unfold upd. destruct (nodes m !! p); [|done]. by intros [= <-]. Qed.

Lemma free_calls p m m' : cJSON_free p m = Some m' -> calls m' = calls m.
Proof. unfold cJSON_free. case_decide; [|done]. by intros [= <-]. Qed.

(** Takes apart a run that allocates nothing. *)
Ltac no_calls :=
  repeat match goal with
  | H : (match ?x with Some _ => _ | None => None end) = Some _ |- _ =>
      let E := fresh "E" in destruct x eqn:E; [|discriminate H]; simpl in H
  | H : (if ?b then _ else _) = Some _ |- _ => destruct b
  | H : Some _ = Some _ |- _ => injection H as H; subst
  | H : upd _ _ _ = Some _ |- _ => apply upd_calls in H
  | H : cJSON_free _ _ = Some _ |- _ => apply free_calls in H
  end; try congruence.

Lemma delete_loop_calls fuel : forall c m m', delete_loop fuel c m = Some m' -> calls m' = calls m.
Proof.
  induction fuel as [|fuel IH]; intros c m m' H; simpl in H; unfold mbind, option_bind in H;
    no_calls; repeat match goal with
    | H : delete_loop _ _ _ = Some _ |- _ => apply IH in H end; congruence.
Qed.

Lemma AddItemToArray_calls a i m m' : cJSON_AddItemToArray a i m = Some m' -> calls m' = calls m.
Proof.
  unfold cJSON_AddItemToArray, suffix_object, mbind, option_bind. intros H. no_calls.
Qed.

Lemma ReplaceItemInArray_calls a w i m m' :
  cJSON_ReplaceItemInArray a w i m = Some m' -> calls m' = calls m.
Proof.
  unfold cJSON_ReplaceItemInArray, cJSON_Delete, mbind, option_bind. intros H. no_calls;
    repeat match goal with
    | H : delete_loop _ _ _ = Some _ |- _ => apply delete_loop_calls in H end; congruence.
Qed.

Lemma malloc_ok m :
  malloc (calls m) (live m ∪ dom (consts m)) = 0 \/
  fresh m (malloc (calls m) (live m ∪ dom (consts m))).
Proof.
  destruct (decide (malloc (calls m) (live m ∪ dom (consts m)) = 0)) as [|H0]; [by left|].
  destruct (malloc_fresh (calls m) (live m ∪ dom (consts m))) as [|H]; [done|].
  right. split; [done|]. set_solver.
Qed.

Lemma New_Item_ok m :
  exists p m', cJSON_New_Item malloc m = (p, m') /\
  ((p = 0 /\ frame [] m m' /\ refused m m') \/
   (fresh m p /\ nodes m' !! p = Some zero_node /\ frame [p] m m')) /\
  calls m' = S (calls m).
Proof.
  unfold cJSON_New_Item, cJSON_malloc. pose proof (malloc_ok m) as H.
  destruct (Z.eqb_spec (malloc (calls m) (live m ∪ dom (consts m))) 0) as [Hp|Hp].
  { do 2 eexists. split; [done|]. split; [|done]. left. split; [done|]. split; [done|].
    do 2 eexists. split; [|exact Hp]. simpl. lia. }
  set (p := malloc _ _) in *. clearbody p.
  destruct H as [|H]; [done|]. do 2 eexists. split; [done|]. split; [|done]. right. split; [done|].
  split; [simpl; by rewrite lookup_insert_eq|]. split; [|done]. intros a Ha. simpl.
  split; [apply lookup_insert_ne; set_solver|done].
Qed.

Lemma strdup_ok m str s :
  text str m = Some s ->
  exists p m', cJSON_strdup malloc str m = Some (p, m') /\
  ((p = 0 /\ frame [] m m' /\ refused m m') \/
   (fresh m p /\ strs m' !! p = Some s /\ frame [p] m m')) /\
  calls m' = S (calls m).
Proof.
  intros Hs. unfold cJSON_strdup, cJSON_malloc. rewrite Hs. cbn [mbind option_bind].
  pose proof (malloc_ok m) as H.
  destruct (Z.eqb_spec (malloc (calls m) (live m ∪ dom (consts m))) 0) as [Hp|Hp].
  { do 2 eexists. split; [done|]. split; [|done]. left. split; [done|]. split; [done|].
    do 2 eexists. split; [|exact Hp]. simpl. lia. }
  set (p := malloc _ _) in *. clearbody p.
  destruct H as [|H]; [done|]. do 2 eexists. split; [done|]. split; [|done]. right. split; [done|].
  split; [simpl; by rewrite lookup_insert_eq|]. split; [|done]. intros a Ha. simpl.
  split; [done|apply lookup_insert_ne; set_solver].
Qed.

(** ** New items *)

Definition leaf (p : Z) (d : data) : tree := Tree p d [].

Lemma new_item_grown m m1 p f d :
  fresh m p -> nodes m1 !! p = Some zero_node -> frame [p] m m1 -> (calls m <= calls m1)%nat ->
  f zero_node = node_of 0 0 d [] -> dvalue d = None -> dname d = None ->
  exists m', upd p f m1 = Some m' /\ grown m m' (leaf p d).
Proof.
  intros Hp Hz H1 Hk Hf Hv Hn. destruct (upd_frame p f _ _ Hz) as (m2 & -> & Hz2 & H2 & _ & Hk2).
  exists m2. split; [done|].
  assert (E : foot false (leaf p d) = [p]).
  { simpl. rewrite Hn, Hv. by destruct (opens false d). }
  split; rewrite ?E.
  - simpl. rewrite Hn, Hv, Hz2, Hf. split; [apply Hp|]. done.
  - apply NoDup_singleton.
  - eapply frame_trans; [done|done|set_solver].
  - by intros a ->%list_elem_of_singleton.
  - by rewrite Hk2.
Qed.

Lemma create_item_ok m f d :
  f zero_node = node_of 0 0 d [] -> dvalue d = None -> dname d = None ->
  exists p m', create malloc f m = Some (p, m') /\
  ((p = 0 /\ frame [] m m' /\ refused m m') \/ grown m m' (leaf p d)).
Proof.
  intros Hf Hv Hn. unfold create. destruct (New_Item_ok m) as (p & m1 & -> & Hp & Hk).
  destruct Hp as [[-> H1]|(Hp & Hz & H1)].
  { exists 0, m1. split; [done|]. by left. }
  rewrite (proj2 (Z.eqb_neq p 0)) by apply Hp.
  destruct (new_item_grown m m1 p f d) as (m2 & -> & H2); try done; [lia|].
  exists p, m2. split; [done|]. by right.
Qed.

Definition set_value (v : option (Z * cstr)) (d : data) : data :=
  mkData (dtype d) v (dint d) (ddouble d) (dname d).
Definition rename (v : option (Z * cstr)) (d : data) : data :=
  mkData (dtype d) (dvalue d) (dint d) (ddouble d) v.

Lemma frame_nil_agree l m m' : frame [] m m' -> agree l m m'.
Proof. intros H. eapply frame_agree; [done|]. set_solver. Qed.

(** Giving a string to an item: the copy, then the pointer. *)
Lemma set_string_ok m p n str s (set : Z -> node -> node) :
  nodes m !! p = Some n -> text str m = Some s ->
  exists m' v, ('(t, m) ← cJSON_strdup malloc str m; m ← upd p (set t) m; Some (t, m))
      = Some (ptr v, m') /\
    (v = None /\ refused m m' \/ exists r, v = Some (r, s) /\ fresh m r) /\
    str_at v m' /\ nodes m' !! p = Some (set (ptr v) n) /\ frame (p :: sfoot v) m m' /\
    (calls m <= calls m')%nat.
Proof.
  intros Hn Hs. destruct (strdup_ok m str s Hs) as (r & m1 & -> & Hr & Hk). cbn [mbind option_bind].
  destruct Hr as [(-> & H1 & Hr)|(Hr & Hx & H1)].
  - assert (Hn1 : nodes m1 !! p = Some n) by (by rewrite (proj1 (proj1 H1 p ltac:(set_solver)))).
    destruct (upd_frame p (set 0) _ _ Hn1) as (m2 & -> & Hn2 & H2 & _ & Hk2). simpl.
    exists m2, None. split; [done|]. split; [left; split; [done|]; eapply refused_trans; eauto; lia|].
    split; [done|]. split; [done|]. split; [|lia].
    eapply frame_trans; [done|done|set_solver].
  - assert (Hpr : p <> r).
    { intros ->. apply (proj1 (proj2 Hr)), elem_of_live. eauto. }
    assert (Hn1 : nodes m1 !! p = Some n) by (by rewrite (proj1 (proj1 H1 p ltac:(set_solver)))).
    destruct (upd_frame p (set r) _ _ Hn1) as (m2 & -> & Hn2 & H2 & Hst & Hk2). simpl.
    exists m2, (Some (r, s)). split; [done|]. split; [eauto|]. split.
    { split; [apply Hr|]. by rewrite Hst. }
    split; [done|]. split; [|lia]. eapply frame_trans; [done|done|set_solver].
Qed.

(** ** Duplication *)

Lemma fresh_grown m0 m t a : grown m0 m t -> fresh m a -> fresh m0 a /\ a ∉ foot false t.
Proof.
  intros [Hs _ Hf Hfr _] (H0 & Hl & Hc).
  assert (Ha : a ∉ foot false t) by (intros H; apply Hl; by eapply foot_live).
  split; [|done]. split; [done|]. split; [|by rewrite (proj2 Hf) in Hc].
  by rewrite <- (frame_live _ _ _ _ Hf Ha).
Qed.

(** A string more. *)
Lemma grown_string m0 m m' p d d' ks v s :
  grown m0 m (Tree p d ks) -> frame (p :: sfoot v) m m' ->
  (calls m <= calls m')%nat -> (v = None \/ exists r, v = Some (r, s) /\ fresh m r) ->
  shape false m' 0 0 (Tree p d' ks) ->
  foot false (Tree p d' ks) ≡ₚ foot false (Tree p d ks) ++ sfoot v ->
  grown m0 m' (Tree p d' ks).
Proof.
  intros Hg Hf Hk Hv Hs Hp.
  assert (Hfr : forall a, a ∈ sfoot v -> fresh m0 a /\ a ∉ foot false (Tree p d ks)).
  { destruct Hv as [->|(r & -> & Hr)]; cbn [sfoot from_option fst]; [set_solver|].
    intros a ->%list_elem_of_singleton. by eapply fresh_grown. }
  split; [done|..].
  - rewrite Hp. apply NoDup_app. split; [apply Hg|]. split; [intros a ??; by eapply Hfr|].
    destruct v; [apply NoDup_singleton|constructor].
  - eapply frame_trans; [apply Hg|done|]. intros a. rewrite Hp.
    pose proof (addr_foot false (Tree p d ks)) as Hin. simpl in Hin. clear -Hin. set_solver.
  - intros a. rewrite Hp, elem_of_app. intros [Ha|Ha]; [by eapply grown_fresh|by apply Hfr].
  - pose proof (grown_calls _ _ _ Hg). lia.
Qed.

Lemma text_grown m0 m t v a s :
  grown m0 m t -> str_at (Some (a, s)) m0 -> v = Some (a, s) -> text (ptr v) m = Some s.
Proof.
  intros [_ _ Hf Hfr _] [_ Hs] ->. unfold text. simpl.
  rewrite (proj2 (proj1 Hf a ltac:(intros H; apply (proj1 (proj2 (Hfr a H))), elem_of_live; eauto))).
  by rewrite Hs.
Qed.

(** Giving a string to a new item; [put] is the data with it. *)
Lemma give_string_ok m0 m p d a s set (put : option (Z * cstr) -> data) :
  grown m0 m (leaf p d) -> text a m = Some s ->
  (forall v, set (ptr v) (node_of 0 0 d []) = node_of 0 0 (put v) []) ->
  (forall v, foot false (leaf p (put v)) ≡ₚ foot false (leaf p d) ++ sfoot v) ->
  (forall v m, inner false m (leaf p d) -> str_at v m -> inner false m (leaf p (put v))) ->
  exists m' v, ('(t, m) ← cJSON_strdup malloc a m; m ← upd p (set t) m; Some (t, m))
      = Some (ptr v, m') /\
    (v = None /\ refused m m' \/ exists r, v = Some (r, s) /\ r <> 0) /\ grown m0 m' (leaf p (put v)).
Proof.
  intros Hg Ht Hset Hfoot Hinner.
  destruct (shape_root _ _ _ _ _ (grown_shape _ _ _ Hg)) as [Hp0 Hn].
  destruct (set_string_ok m p _ a s set Hn Ht) as (m' & v & E & Hv' & Hat & Hn' & Hf & Hk).
  exists m', v. split; [done|]. split.
  { destruct Hv' as [[-> ?]|(r & -> & Hr)]; [by left|]. right. exists r. split; [done|apply Hr]. }
  assert (Hv : v = None \/ exists r, v = Some (r, s) /\ fresh m r) by naive_solver. clear Hv'.
  eapply grown_string; [done|done|done|done| |apply Hfoot].
  apply shape_inner. split; [done|]. split; [simpl; by rewrite Hn', Hset|].
  apply Hinner; [|done].
  assert (A : agree (inner_foot false (leaf p d)) m m').
  { eapply frame_agree; [done|]. intros x Hx [->|Hxv]%elem_of_cons.
    - by apply (NoDup_foot _ _ (grown_NoDup _ _ _ Hg)).
    - destruct Hv as [->|(r & -> & Hr)]; [set_solver|]. apply list_elem_of_singleton in Hxv as ->.
      apply (fresh_grown _ _ _ _ Hg Hr). rewrite foot_inner. set_solver. }
  destruct Hg as [Hs _ _ _ _]. apply shape_inner in Hs as (_ & _ & Hn1 & Ho).
  apply agree_app in A as [A1 A2]. split; [by eapply str_at_agree|].
  intros O. destruct (Ho O) as [Hvv _]. rewrite O in A2. apply agree_app in A2 as [A2 _].
  split; [by eapply str_at_agree|done].
Qed.

Lemma copy_string_ok m0 m p d v0 set (put : option (Z * cstr) -> data) :
  grown m0 m (leaf p d) -> str_at v0 m0 -> put None = d ->
  (forall v, set (ptr v) (node_of 0 0 d []) = node_of 0 0 (put v) []) ->
  (forall v, foot false (leaf p (put v)) ≡ₚ foot false (leaf p d) ++ sfoot v) ->
  (forall v m, inner false m (leaf p d) -> str_at v m -> inner false m (leaf p (put v))) ->
  exists ok m', copy_string malloc (ptr v0) set p m = Some (ok, m') /\
  exists v, grown m0 m' (leaf p (put v)) /\
    (if ok then snd <$> v = snd <$> v0 else refused m m').
Proof.
  intros Hg Hv0 Hput Hset Hfoot Hinner. unfold copy_string. destruct v0 as [[a s]|]; cycle 1.
  { exists true, m. split; [done|]. exists None. by rewrite Hput. }
  pose proof (text_grown _ _ _ _ _ _ Hg Hv0 eq_refl) as Ht.
  cbn [ptr from_option fst] in *. rewrite (proj2 (Z.eqb_neq a 0)) by apply Hv0.
  destruct (give_string_ok m0 m p d a s set put) as (m' & v & E & Hv & Hg'); try done.
  destruct (cJSON_strdup malloc a m) as [[t m1]|]; [|done]. cbn [mbind option_bind] in *.
  destruct (upd p (set t) m1) as [m2|]; [|done]. cbn [mbind option_bind] in *.
  injection E as -> ->. exists (negb (ptr v =? 0)), m'. split; [done|]. exists v.
  split; [done|]. destruct Hv as [[-> ?]|(r & -> & Hr)]; [done|].
  by rewrite (proj2 (Z.eqb_neq _ 0)).
Qed.

(** The outcome of building a tree of value [v]. *)
Definition built (m0 m : mem) (r : Z) (v : item) : Prop :=
  (r = 0 /\ frame [] m0 m /\ refused m0 m) \/
  (exists t, r = addr t /\ grown m0 m t /\ plain t = true /\ val t = v).

Definition with_child (l : list item) (i : item) : item :=
  mkItem (CJson.type i) (CJson.valuestring i) (CJson.valueint i) (CJson.valuedouble i)
    (CJson.string i) l.

Lemma foot_snoc p d ks t :
  opens false d = true -> foot false (Tree p d (ks ++ [t])) = foots false [Tree p d ks; t].
Proof.
  intros Ho. rewrite !foots_cons, !foot_open, foots_app, foots_cons by done.
  simpl. by rewrite <- !app_assoc, !app_nil_r.
Qed.

Lemma plain_open t : plain t = true -> opens false (dat t) = true.
Proof. destruct t. simpl. by intros [? _]%andb_true_iff. Qed.

(** A new child of a new tree. *)
Lemma grown_append m0 m m1 p d ks t :
  opens false d = true -> grown m0 m (Tree p d ks) -> grown m m1 t ->
  exists m', (if negb (lastp 0 ks =? 0) then suffix_object (lastp 0 ks) (addr t) m1
              else upd p (set_child (addr t)) m1) = Some m' /\
    grown m0 m' (Tree p d (ks ++ [t])).
Proof.
  intros Ho Hg Ht. pose proof (grown_shape_of _ _ _ _ _ _ _ Ht (grown_shape _ _ _ Hg)) as Hs1.
  assert (Hfr : forall a, a ∈ foot false t -> fresh m0 a /\ a ∉ foot false (Tree p d ks)).
  { intros a Ha. eapply fresh_grown; [done|]. by eapply grown_fresh. }
  assert (Hnd : NoDup (foots false [Tree p d ks; t])).
  { rewrite !foots_cons, app_nil_r. apply NoDup_app. split; [apply Hg|].
    split; [intros a ??; by eapply Hfr|apply Ht]. }
  destruct (append_link_ok m1 0 0 p d ks t Ho Hs1 (grown_shape _ _ _ Ht) Hnd) as (m' & E & Hs' & Hf).
  assert (Hk : calls m' = calls m1).
  { revert E. unfold suffix_object. case_bool_decide; [apply upd_calls|].
    destruct (upd (lastp 0 ks) _ m1) as [m2|] eqn:E1; [|done]. cbn [mbind option_bind].
    intros ->%upd_calls. by eapply upd_calls. }
  exists m'. split.
  - assert (Hc : chain false m1 0 0 ks).
    { rewrite shape_open in Hs1 by done. apply Hs1. }
    rewrite (lastp_zero _ _ _ _ Hc). rewrite <- E. by case_bool_decide.
  - pose proof (grown_calls _ _ _ Hg) as K1. pose proof (grown_calls _ _ _ Ht) as K2.
    split; [done|by rewrite foot_snoc| | |lia]; rewrite foot_snoc, !foots_cons, app_nil_r in * by done.
    + assert (Hf2 : frame (foot false (Tree p d ks) ++ foot false t) m m').
      { eapply frame_trans; [apply Ht|exact Hf|]. intros a. rewrite elem_of_app. tauto. }
      eapply frame_trans; [apply Hg|exact Hf2|]. intros a. rewrite elem_of_app. tauto.
    + intros a [Ha|Ha]%elem_of_app; [by eapply grown_fresh|by apply Hfr].
Qed.

Lemma frame_shape f m m' t pv nx : frame [] m m' -> shape f m pv nx t -> shape f m' pv nx t.
Proof. intros H. apply shape_agree. by apply frame_nil_agree. Qed.

Lemma frame_nil_trans m1 m2 m3 : frame [] m1 m2 -> frame [] m2 m3 -> frame [] m1 m3.
Proof. intros H1 H2. eapply frame_trans; [done|done|]. set_solver. Qed.

(** The copied fields of the item without its children. *)
Definition copied (d : data) (v n : option (Z * cstr)) : data :=
  mkData (Z.land (dtype d) (Z.lnot cJSON_IsReference)) v (dint d) (ddouble d) n.

Lemma copied_open f d v n : opens f (copied d v n) = true.
Proof. unfold opens. simpl. rewrite is_ref_unref. by destruct f. Qed.

(** The part of [cJSON_Duplicate] before the children. *)
Definition dup_item (i : node) (newitem : Z) (m : mem) : option (bool * mem) :=
  m ← upd newitem (copy_vars i) m;
  '(ok, m) ← copy_string malloc (JsonTree.valuestring i) set_valuestring newitem m;
  if negb ok then Some (false, m)
  else copy_string malloc (JsonTree.string i) set_string newitem m.

Lemma dup_item_ok m0 m p q d ks pv nx :
  shape true m0 pv nx (Tree q d ks) ->
  fresh m0 p -> nodes m !! p = Some zero_node -> frame [p] m0 m -> (calls m0 <= calls m)%nat ->
  exists ok m' v n, dup_item (node_of pv nx d ks) p m = Some (ok, m') /\
    grown m0 m' (leaf p (copied d v n)) /\
    (if ok then snd <$> v = snd <$> dvalue d /\ snd <$> n = snd <$> dname d else refused m0 m').
Proof.
  intros Hs Hp Hz Hf Hk. apply shape_inner in Hs as (_ & _ & Hname & Ho).
  destruct (Ho eq_refl) as [Hvalue _]. simpl in Hname, Hvalue. unfold dup_item.
  destruct (new_item_grown m0 m p (copy_vars (node_of pv nx d ks)) (copied d None None))
    as (m1 & -> & H1); try done. cbn [mbind option_bind].
  destruct (copy_string_ok m0 m1 p _ (dvalue d) set_valuestring (fun v => copied d v None) H1 Hvalue)
    as (ok & m2 & E & v & H2 & Hv); try done.
  { intros v. unfold leaf; rewrite !foot_open by apply copied_open. simpl. by rewrite app_nil_r. }
  cbn [JsonTree.valuestring JsonTree.string node_of]. rewrite E. cbn [mbind option_bind].
  destruct ok; simpl; cycle 1.
  { exists false, m2, v, None. split; [done|]. split; [done|].
    eapply refused_trans; [done| |done]. by eapply grown_calls. }
  destruct (copy_string_ok m0 m2 p _ (dname d) set_string (fun n => copied d v n) H2 Hname)
    as (ok & m3 & E3 & n & H3 & Hn); try done.
  { intros n. unfold leaf; rewrite !foot_open by apply copied_open. simpl. rewrite !app_nil_r.
    apply Permutation_skip, Permutation_app_comm. }
  { intros n0 m' [? Hi] ?. split; [done|]. intros _. apply Hi. apply copied_open. }
  exists ok, m3, v, n. split; [done|]. split; [done|]. destruct ok; [by rewrite Hv, Hn|].
  eapply refused_trans; [done| |done]. by eapply grown_calls.
Qed.

Lemma Duplicate_unfold fuel item recurse m :
  item <> 0 ->
  cJSON_Duplicate malloc (S fuel) item recurse m =
    let '(newitem, m) := cJSON_New_Item malloc m in
    if newitem =? 0 then Some (0, m)
    else
      i ← nodes m !! item;
      '(ok, m) ← dup_item i newitem m;
      if negb ok then m ← cJSON_Delete newitem m; Some (0, m)
      else if negb recurse then Some (newitem, m)
      else i ← nodes m !! item; dup_loop malloc fuel (JsonTree.child i) 0 newitem m.
Proof.
  intros Hi. simpl. rewrite (proj2 (Z.eqb_neq item 0)) by done.
  destruct (cJSON_New_Item malloc m) as [p m1]. destruct (p =? 0); [done|].
  destruct (nodes m1 !! item) as [i|]; [|done]. unfold dup_item. cbn [mbind option_bind].
  destruct (upd p (copy_vars i) m1) as [m2|]; [|done]. cbn [mbind option_bind].
  destruct (copy_string malloc (JsonTree.valuestring i) set_valuestring p m2) as [[[] m3]|]; [|done..].
  simpl. destruct (copy_string malloc (JsonTree.string i) set_string p m3) as [[[] m4]|]; done.
Qed.

Lemma dup_both fuel :
  (forall t m pv nx recurse, shape true m pv nx t -> (weight t <= fuel)%nat ->
    exists r m', cJSON_Duplicate malloc fuel (addr t) recurse m = Some (r, m') /\
      built m m' r (unref (if recurse then val t else childless (val t)))) /\
  (forall ts m0 m pv p d ks, chain true m0 pv 0 ts -> grown m0 m (Tree p d ks) ->
    plain (Tree p d ks) = true -> (S (sum_list_with weight ts) <= fuel)%nat ->
    exists r m', dup_loop malloc fuel (first 0 ts) (lastp 0 ks) p m = Some (r, m') /\
      built m0 m' r (with_child (map val ks ++ map unref (map val ts)) (val (Tree p d ks)))).
Proof.
  induction fuel as [|fuel [IHd IHl]]; [split; [intros []; simpl; lia|lia]|]. split.
  - intros [q d ks] m pv nx recurse Hs Hw. destruct (shape_root _ _ _ _ _ Hs) as [Hq Hn].
    rewrite Duplicate_unfold by done.
    destruct (New_Item_ok m) as (p & m1 & -> & [[-> H1]|(Hp & Hz & H1)] & Hk1).
    { exists 0, m1. split; [done|]. by left. }
    rewrite (proj2 (Z.eqb_neq p 0)) by apply Hp.
    assert (Hqp : q <> p) by (intros ->; apply (proj1 (proj2 Hp)), elem_of_live; eauto).
    simpl addr in *. rewrite (proj1 (proj1 H1 q ltac:(set_solver))), Hn. cbn [mbind option_bind].
    destruct (dup_item_ok m m1 p q d ks pv nx Hs Hp Hz H1 ltac:(lia)) as (ok & m2 & v & n & E & H2 & Hvn).
    simpl dat in *. simpl kids in *. rewrite E. cbn [mbind option_bind].
    destruct ok; simpl negb; cbn iota; cycle 1.
    { destruct (grown_delete _ _ _ H2) as (m3 & E3 & H3 & K3). simpl in E3. rewrite E3.
      exists 0, m3. split; [done|]. left. split; [done|]. split; [done|].
      eapply refused_trans; [done|done|lia]. }
    destruct Hvn as [Hv Hnm]. assert (Hpl : plain (leaf p (copied d v n)) = true).
    { simpl. by rewrite is_ref_unref. }
    destruct recurse; simpl negb; cbn iota; cycle 1.
    { exists p, m2. split; [done|]. right. exists (leaf p (copied d v n)).
      split; [done|]. split; [done|]. split; [done|]. simpl. by rewrite Hv, Hnm. }
    destruct (shape_root _ _ _ _ _ (grown_shape_of _ _ _ _ _ _ _ H2 Hs)) as [_ Hn2].
    simpl in Hn2. rewrite Hn2. cbn [mbind option_bind JsonTree.child node_of].
    pose proof Hs as Hs'. rewrite shape_open in Hs' by done. destruct Hs' as (_ & _ & _ & _ & Hc).
    simpl in Hw. destruct (IHl ks m m2 0 p _ [] Hc H2 Hpl ltac:(lia)) as (r & m' & E' & Hb).
    exists r, m'. split; [done|]. simpl in Hb. by rewrite Hv, Hnm in Hb.
  - intros [|t ts] m0 m pv p d ks Hc Hg Hpl Hw.
    { exists p, m. split; [done|]. right. exists (Tree p d ks). split; [done|]. split; [done|].
      split; [done|]. simpl. by rewrite app_nil_r. }
    apply chain_cons in Hc as [Ht Hc]. simpl in Hw. cbn [first dup_loop].
    destruct (shape_root _ _ _ _ _ Ht) as [Ht0 _]. rewrite (proj2 (Z.eqb_neq (addr t) 0)) by done.
    assert (weight t <> 0)%nat by (destruct t; simpl; lia).
    destruct (IHd t m pv (first 0 ts) true) as (r & m1 & -> & Hb);
      [by eapply grown_shape_of|lia|]. cbn [mbind option_bind].
    destruct Hb as [(-> & Hb & Hr)|(c & -> & Hcg & Hcp & Hcv)].
    { pose proof (refused_calls _ _ Hr) as Hk. pose proof (grown_calls _ _ _ Hg).
      destruct (grown_delete _ _ _ (grown_weaken _ _ _ _ Hg Hb Hk)) as (m2 & E & H2 & K2).
      simpl in E. simpl. rewrite E. exists 0, m2. split; [done|]. left. split; [done|]. split; [done|].
      eapply refused_trans; [done|done|lia]. }
    rewrite (proj2 (Z.eqb_neq (addr c) 0)) by apply (shape_root _ _ _ _ _ (grown_shape _ _ _ Hcg)).
    destruct (grown_append m0 m m1 p d ks c (plain_open _ Hpl) Hg Hcg) as (m2 & E & Hg2).
    unfold suffix_object in E. rewrite E. cbn [mbind option_bind].
    rewrite (proj2 (shape_root _ _ _ _ _ (grown_shape_of _ _ _ _ _ _ _ Hg2 Ht))).
    cbn [mbind option_bind JsonTree.next node_of].
    destruct (IHl ts m0 m2 (addr t) p d (ks ++ [c]) Hc Hg2) as (r & m' & E' & Hb).
    { simpl in *. rewrite forallb_app. simpl. rewrite Hcp, andb_true_r. done. }
    { lia. }
    rewrite lastp_app in E'. exists r, m'. split; [done|].
    by rewrite map_app, <- app_assoc in Hb; simpl in Hb; rewrite Hcv in Hb.
Qed.

(** ** Strings and names *)

(** A string of the caller. *)
Definition const_at (m : mem) (a : Z) (s : cstr) : Prop :=
  consts m !! a = Some s /\ a ∉ live m.

Lemma text_const m a s : const_at m a s -> text a m = Some s.
Proof. intros [H [_ Hn]%not_live]. unfold text. by rewrite Hn. Qed.

Lemma const_frame l m m' a s : frame l m m' -> a ∉ l -> const_at m a s -> const_at m' a s.
Proof.
  intros Hf Ha [Hc Hl]. split; [by rewrite (proj2 Hf)|]. by rewrite (frame_live _ _ _ _ Hf Ha).
Qed.

Lemma const_grown m0 m t a s : grown m0 m t -> const_at m0 a s -> const_at m a s.
Proof.
  intros Hg Hc. eapply const_frame; [apply Hg| |done]. intros Ha.
  apply (grown_fresh _ _ _ Hg) in Ha as (_ & _ & Ha). apply Ha, elem_of_dom. by destruct Hc; eauto.
Qed.

Lemma CreateString_ok m str s :
  const_at m str s ->
  exists p m', cJSON_CreateString malloc str m = Some (p, m') /\
  ((p = 0 /\ frame [] m m' /\ refused m m') \/
   exists v, (v = None /\ refused m m' \/ v = Some s) /\
     built m m' p (mkItem cJSON_String v 0 (S754_zero false) None [])).
Proof.
  intros Hs. unfold cJSON_CreateString.
  set (d := mkData cJSON_String None 0 (S754_zero false) None).
  destruct (create_item_ok m (set_type cJSON_String) d) as (p & m1 & -> & Hp); try done.
  cbn [mbind option_bind].
  destruct Hp as [[-> H1]|H1]; [exists 0, m1; split; [done|]; by left|].
  destruct (shape_root _ _ _ _ _ (grown_shape _ _ _ H1)) as [Hp Hn]. simpl in Hp, Hn.
  rewrite (proj2 (Z.eqb_neq p 0)) by done.
  destruct (give_string_ok m m1 p d str s set_valuestring (fun v => set_value v d))
    as (m2 & v & E & Hv & H2); try done.
  { eapply text_const, const_grown; eauto. }
  { intros v. unfold leaf. rewrite !foot_open by done. simpl. by rewrite app_nil_r. }
  destruct (cJSON_strdup malloc str m1) as [[t m1']|]; [|done]. cbn [mbind option_bind] in *.
  destruct (upd p (set_valuestring t) m1') as [m2'|]; [|done]. cbn [mbind option_bind] in *.
  injection E as -> ->. exists p, m2. split; [done|]. right. exists (snd <$> v).
  split.
  { destruct Hv as [[-> Hr]|(r & -> & _)]; [left|by right]. split; [done|].
    eapply refused_trans; [done| |done]. by eapply grown_calls. }
  right. by exists (leaf p (set_value v d)).
Qed.

(** A root gets another name: the old one is freed, the new one copied. *)
Definition give_name (name p : Z) (m : mem) : option mem :=
  n ← nodes m !! p;
  m ← if negb (JsonTree.string n =? 0) then cJSON_free (JsonTree.string n) m else Some m;
  '(s, m) ← cJSON_strdup malloc name m;
  upd p (set_string s) m.

Lemma give_name_ok m name s p d ks :
  const_at m name s -> shape false m 0 0 (Tree p d ks) -> NoDup (foot false (Tree p d ks)) ->
  exists m' v, give_name name p m = Some m' /\
    (v = None /\ refused m m' \/
     exists r, v = Some (r, s) /\ (fresh m r \/ r ∈ sfoot (dname d))) /\
    shape false m' 0 0 (Tree p (rename v d) ks) /\
    NoDup (foot false (Tree p (rename v d) ks)) /\
    frame (p :: sfoot (dname d) ++ sfoot v) m m' /\
    (forall x, x ∈ sfoot (dname d) -> x ∈ live m' -> x ∈ sfoot v).
Proof.
  intros Hc Hs Hnd. pose proof Hs as Hs'. apply shape_inner in Hs' as (Hp & Hn & Hname & Ho).
  simpl in Hp, Hn, Hname, Ho. unfold give_name. rewrite Hn.
  cbn [mbind option_bind JsonTree.string node_of]. rewrite (free_string _ _ Hname).
  cbn [mbind option_bind]. set (l := sfoot (dname d)). pose proof Hnd as Hnd0.
  rewrite foot_inner in Hnd. unfold inner_foot in Hnd. simpl in Hnd.
  apply NoDup_cons in Hnd as [Np Hnd]. apply NoDup_app in Hnd as (_ & Dn & Hnd).
  assert (Hpl : p ∉ l) by (intros H; apply Np, elem_of_app; by left).
  assert (Hn1 : nodes (remove l m) !! p = Some (node_of 0 0 d ks))
    by (by rewrite nodes_remove, decide_False).
  assert (Hc1 : text name (remove l m) = Some s).
  { eapply text_const, const_frame; [apply frame_remove| |done]. intros H. apply (proj2 Hc).
    eapply foot_live; [done|]. rewrite foot_inner. apply elem_of_cons. right.
    apply elem_of_app. by left. }
  destruct (set_string_ok _ p _ name s set_string Hn1 Hc1) as (m' & v & E & Hv0 & Hat & Hn' & Hf & _).
  assert (Hv : v = None \/ exists r, v = Some (r, s) /\ fresh (remove l m) r) by naive_solver.
  destruct (cJSON_strdup malloc name (remove l m)) as [[t m1]|]; [|done].
  cbn [mbind option_bind] in *.
  destruct (upd p (set_string t) m1) as [m2|]; [|done]. cbn [mbind option_bind] in *.
  injection E as -> ->. exists m', v. split; [done|].
  assert (Hvl : forall x, x ∈ sfoot v -> x <> 0 /\ x ∉ live (remove l m) /\ x ∉ dom (consts m)).
  { destruct Hv as [->|(r & -> & Hr)]; [set_solver|]. by intros x ->%list_elem_of_singleton. }
  assert (Hin : forall x, x ∈ p :: (if opens false d then sfoot (dvalue d) ++ foots false ks else []) ->
    x ∈ live (remove l m)).
  { intros x Hx. rewrite (frame_live l m); [|apply frame_remove|].
    - eapply foot_live; [exact Hs|]. rewrite foot_inner. unfold inner_foot. simpl. set_solver.
    - intros Hxl. apply elem_of_cons in Hx as [->|Hx]; [done|]. by eapply Dn. }
  assert (Hrest : agree (if opens false d then sfoot (dvalue d) ++ foots false ks else []) m m').
  { eapply agree_trans; [apply agree_remove|eapply frame_agree; [done|]].
    - intros x Hx Hxl. by eapply Dn.
    - intros x Hx [->|Hxv]%elem_of_cons; [apply Np, elem_of_app; by right|].
      apply (proj1 (proj2 (Hvl x Hxv))), Hin. set_solver. }
  split; [|split; [|split; [|split]]].
  - destruct Hv0 as [[-> Hr]|(r & -> & Hr)]; [by left|]. right. exists r. split; [done|].
    destruct Hr as (H0 & Hl & Hcs). destruct (decide (r ∈ l)) as [|Hrl]; [by right|]. left.
    split; [done|]. split; [|done]. by rewrite (frame_live l m _ r (frame_remove l m) Hrl) in Hl.
  - apply shape_inner. split; [done|]. split; [done|]. split; [done|]. simpl.
    intros O. change (opens false (rename v d)) with (opens false d) in O. rewrite O in Hrest.
    apply agree_app in Hrest as [R1 R2]. destruct (Ho O) as [? ?].
    split; [by eapply str_at_agree|by eapply chain_agree].
  - rewrite foot_inner. unfold inner_foot. simpl.
    change (opens false (rename v d)) with (opens false d). apply NoDup_cons. split.
    + intros [H|H]%elem_of_app; [|apply Np, elem_of_app; by right].
      apply (proj1 (proj2 (Hvl p H))), Hin. set_solver.
    + apply NoDup_app. split; [destruct v; [apply NoDup_singleton|constructor]|].
      split; [|done]. intros x Hx H. apply (proj1 (proj2 (Hvl x Hx))), Hin. set_solver.
  - eapply frame_trans; [apply frame_remove|exact Hf|]. set_solver.
  - intros x Hx Hxl. destruct (decide (x ∈ sfoot v)) as [|Hxv]; [done|]. exfalso.
    rewrite (frame_live _ _ _ x Hf) in Hxl by set_solver.
    rewrite elem_of_live, nodes_remove, strs_remove, !decide_True in Hxl by done.
    by destruct Hxl as [[? ?]|[? ?]].
Qed.

(** ** The whole memory *)

Record forest (m : mem) (ts : list tree) : Prop := mkForest {
  forest_shape : Forall (shape false m 0 0) ts;
  forest_NoDup : NoDup (foots false ts);
  forest_plain : Forall (fun t => plain t = true) ts;
  forest_full a : a ∈ live m -> a ∈ foots false ts;
  forest_const a : a ∈ dom (consts m) -> a <> 0 /\ a ∉ live m
}.

Lemma forest_perm m ts ts' : ts ≡ₚ ts' -> forest m ts -> forest m ts'.
Proof.
  intros P [Hs Hnd Hp Hf Hc]. split; try done.
  - by rewrite <- P.
  - unfold foots. by rewrite <- P.
  - by rewrite <- P.
  - intros a Ha. unfold foots. rewrite <- P. by apply Hf.
Qed.

Lemma forest_live m ts a : forest m ts -> a ∈ foots false ts -> a ∈ live m.
Proof.
  intros Hf (t & Ht & Ha)%elem_of_foots. eapply foot_live; [|done].
  by eapply (proj1 (Forall_forall _ _) (forest_shape _ _ Hf)).
Qed.

(** One step replaces the trees [old] by [new] and leaves the others alone. *)
Lemma forest_update m m' old new rest l :
  forest m (old ++ rest) -> frame l m m' ->
  (forall a, a ∈ l -> a ∈ foots false old \/ fresh m a) ->
  Forall (shape false m' 0 0) new -> NoDup (foots false new) ->
  Forall (fun t => plain t = true) new ->
  (forall a, a ∈ foots false new -> a ∈ foots false old \/ fresh m a) ->
  (forall a, a ∈ foots false old \/ a ∈ l -> a ∈ live m' -> a ∈ foots false new) ->
  forest m' (new ++ rest).
Proof.
  intros Hf Hfr Hl Hs Hnd Hp Hnew Hold.
  assert (Hlive : forall a, a ∈ foots false (old ++ rest) -> a ∈ live m)
    by (intros a; by apply forest_live).
  destruct Hf as [Fs Fnd Fp Ff Fc]. rewrite foots_app in Fnd, Hlive.
  apply NoDup_app in Fnd as (_ & D & Nr).
  assert (Hap : forall a, a ∈ foots false rest -> a ∉ foots false old /\ ~ fresh m a).
  { intros a Ha. split; [intros H; by eapply D|]. intros (_ & Hn & _). apply Hn, Hlive. set_solver. }
  apply Forall_app in Fs as [_ Fs]. apply Forall_app in Fp as [_ Fp]. split.
  - apply Forall_app. split; [done|]. rewrite Forall_forall in *. intros t Ht.
    eapply shape_agree, (Fs t Ht). eapply frame_agree; [done|]. intros a Ha Hal.
    destruct (Hap a) as [H1 H2]; [apply elem_of_foots; eauto|]. by destruct (Hl a Hal).
  - rewrite foots_app. apply NoDup_app. split; [done|]. split; [|done]. intros a Ha Har.
    destruct (Hap a Har) as [H1 H2]. by destruct (Hnew a Ha).
  - by apply Forall_app.
  - intros a Ha. rewrite foots_app. apply elem_of_app. destruct (decide (a ∈ l)) as [Hal|Hal].
    { left. eauto. }
    pose proof Ha as Ha'. rewrite (frame_live _ _ _ _ Hfr Hal) in Ha'.
    apply Ff in Ha'. rewrite foots_app in Ha'. apply elem_of_app in Ha' as [?|?]; [left; eauto|by right].
  - intros a Ha. rewrite (proj2 Hfr) in Ha. destruct (Fc a Ha) as [H0 Hn]. split; [done|].
    destruct (decide (a ∈ l)) as [Hal|Hal]; [|by rewrite (frame_live _ _ _ _ Hfr Hal)].
    destruct (Hl a Hal) as [Ho|(_ & _ & Hcs)]; [|done]. destruct Hn. apply Hlive. set_solver.
Qed.

Lemma forest_grown m m' t ts : forest m ts -> grown m m' t -> plain t = true -> forest m' (t :: ts).
Proof.
  intros Hf [Hs Hnd Hfr Hfs _] Hp. apply (forest_update m m' [] [t] ts (foot false t)); try done.
  - intros a Ha. right. auto.
  - by repeat constructor.
  - by rewrite foots_cons, app_nil_r.
  - by repeat constructor.
  - intros a. rewrite foots_cons, app_nil_r. right. auto.
  - intros a. rewrite foots_cons, app_nil_r. set_solver.
Qed.

Lemma forest_same m m' ts : forest m ts -> frame [] m m' -> forest m' ts.
Proof.
  intros Hf Hfr. apply (forest_update m m' [] [] ts []); try done; try set_solver. constructor.
Qed.

(** The values of the roots. *)
Definition roots (ts : list tree) : gmap Z item :=
  list_to_map ((fun t => (addr t, val t)) <$> ts).

Lemma roots_cons t ts : roots (t :: ts) = <[addr t := val t]> (roots ts).
Proof. done. Qed.

Lemma addr_notin f t ts : NoDup (foots f (t :: ts)) -> addr t ∉ addr <$> ts.
Proof.
  rewrite foots_cons. intros (_ & D & _)%NoDup_app (u & E & Hu)%list_elem_of_fmap.
  apply (D (addr t)); [apply addr_foot|]. apply elem_of_foots. exists u. split; [done|].
  rewrite E. apply addr_foot.
Qed.

Lemma roots_None a ts : a ∉ addr <$> ts -> roots ts !! a = None.
Proof.
  intros H. apply not_elem_of_list_to_map_1. by rewrite <- list_fmap_compose.
Qed.

Lemma roots_fresh m ts a : forest m ts -> a ∉ live m -> roots ts !! a = None.
Proof.
  intros Hf Ha. apply roots_None. intros (u & -> & Hu)%list_elem_of_fmap. apply Ha.
  eapply forest_live; [done|]. apply elem_of_foots. exists u. split; [done|]. apply addr_foot.
Qed.

Lemma NoDup_addr m ts : forest m ts -> NoDup (addr <$> ts).
Proof.
  intros Hf. pose proof (forest_NoDup _ _ Hf) as H. clear Hf. induction ts as [|t ts IH]; [constructor|].
  rewrite fmap_cons. apply NoDup_cons. split; [by eapply addr_notin|]. apply IH.
  rewrite foots_cons in H. by apply NoDup_app in H as (_ & _ & H).
Qed.

Lemma roots_perm m ts ts' : forest m ts -> ts ≡ₚ ts' -> roots ts = roots ts'.
Proof.
  intros Hf P. unfold roots. apply list_to_map_proper; [|by rewrite P].
  rewrite <- list_fmap_compose. by eapply NoDup_addr.
Qed.

(** Taking a root out of the forest. *)
Lemma roots_lookup m ts p v :
  forest m ts -> roots ts !! p = Some v ->
  exists t rest, ts ≡ₚ t :: rest /\ forest m (t :: rest) /\ addr t = p /\ val t = v /\
    roots rest = delete p (roots ts).
Proof.
  intros Hf H. pose proof H as H'. apply elem_of_list_to_map_2 in H' as (t & E & Ht)%list_elem_of_fmap.
  injection E as -> ->. apply list_elem_of_split in Ht as (l1 & l2 & ->).
  exists t, (l1 ++ l2). assert (P : l1 ++ t :: l2 ≡ₚ t :: l1 ++ l2)
    by (symmetry; apply Permutation_middle).
  pose proof (forest_perm _ _ _ P Hf) as Hf'. split; [done|]. split; [done|]. split; [done|].
  split; [done|]. rewrite (roots_perm _ _ _ Hf P), roots_cons, delete_insert_id; [done|].
  apply roots_None. eapply addr_notin. apply Hf'.
Qed.

(** ** The interface, on values *)

Inductive cmd :=
  | CreateNull | CreateTrue | CreateFalse | CreateBool (b : Z) | CreateNumber (num : double)
  | CreateString (str : Z) | CreateArray | CreateObject
  | AddItemToArray (array item : Z) | AddItemToObject (object name item : Z)
  | DetachItemFromArray (array which : Z) | DetachItemFromObject (object name : Z)
  | DeleteItemFromArray (array which : Z) | DeleteItemFromObject (object name : Z)
  | ReplaceItemInArray (array which newitem : Z)
  | ReplaceItemInObject (object name newitem : Z)
  | Delete (item : Z) | Duplicate (item : Z) (recurse : bool).

Definition void (m : option mem) : option (Z * mem) := m ← m; Some (0, m).

Definition exec (c : cmd) (m : mem) : option (Z * mem) :=
  match c with
  | CreateNull => cJSON_CreateNull malloc m
  | CreateTrue => cJSON_CreateTrue malloc m
  | CreateFalse => cJSON_CreateFalse malloc m
  | CreateBool b => cJSON_CreateBool malloc b m
  | CreateNumber x => cJSON_CreateNumber malloc big_int x m
  | CreateString s => cJSON_CreateString malloc s m
  | CreateArray => cJSON_CreateArray malloc m
  | CreateObject => cJSON_CreateObject malloc m
  | AddItemToArray a i => void (cJSON_AddItemToArray a i m)
  | AddItemToObject o s i => void (cJSON_AddItemToObject malloc o s i m)
  | DetachItemFromArray a k => cJSON_DetachItemFromArray a k m
  | DetachItemFromObject o s => cJSON_DetachItemFromObject o s m
  | DeleteItemFromArray a k => void (cJSON_DeleteItemFromArray a k m)
  | DeleteItemFromObject o s => void (cJSON_DeleteItemFromObject o s m)
  | ReplaceItemInArray a k i => void (cJSON_ReplaceItemInArray a k i m)
  | ReplaceItemInObject o s i => void (cJSON_ReplaceItemInObject malloc o s i m)
  | Delete i => void (cJSON_Delete i m)
  | Duplicate i recurse => cJSON_Duplicate malloc (2 * fuel_of m) i recurse m
  end.

Variable C : gmap Z cstr.

Definition blank (ty : Z) : item := mkItem ty None 0 (S754_zero false) None [].

(** The value a creating command makes; [R] says that an allocation was refused. *)
Definition makes (R : Prop) (S : gmap Z item) (c : cmd) (v : item) : Prop :=
  match c with
  | CreateNull => v = blank cJSON_NULL
  | CreateTrue => v = blank cJSON_True
  | CreateFalse => v = blank cJSON_False
  | CreateBool b => v = blank (if b =? 0 then cJSON_False else cJSON_True)
  | CreateNumber x => v = mkItem cJSON_Number None (to_int big_int x) x None []
  | CreateString a => exists s, (R /\ s = None \/ s = C !! a) /\
      v = mkItem cJSON_String s 0 (S754_zero false) None []
  | CreateArray => v = blank cJSON_Array
  | CreateObject => v = blank cJSON_Object
  | Duplicate i recurse => exists w, S !! i = Some w /\ v = unref (if recurse then w else childless w)
  | _ => False
  end.

(** The array and the position a command works on, and the item it puts there. *)
Definition position (s : option cstr) (va : item) : nat :=
  index (fun v => from_option (fun s => name_is s (CJson.string v)) false s) (CJson.child va).

Definition detaches (S : gmap Z item) (c : cmd) (a : Z) (k : nat) : Prop :=
  match c with
  | DetachItemFromArray a' w => a = a' /\ k = Z.to_nat w
  | DetachItemFromObject o s => a = o /\ k = from_option (position (C !! s)) O (S !! o)
  | _ => False
  end.

Definition deletes (S : gmap Z item) (c : cmd) (a : Z) (k : nat) : Prop :=
  match c with
  | DeleteItemFromArray a' w => a = a' /\ k = Z.to_nat w
  | DeleteItemFromObject o s => a = o /\ k = from_option (position (C !! s)) O (S !! o)
  | _ => False
  end.

Definition gets_name (R : Prop) (s : option cstr) (v v' : item) : Prop :=
  R /\ v' = set_name None v \/ v' = set_name s v.

Definition adds (R : Prop) (c : cmd) (a i : Z) (v v' : item) : Prop :=
  match c with
  | AddItemToArray a' i' => a = a' /\ i = i' /\ v' = v
  | AddItemToObject o s i' => a = o /\ i = i' /\ gets_name R (C !! s) v v'
  | _ => False
  end.

Definition replaces (R : Prop) (S : gmap Z item) (c : cmd) (a : Z) (k : nat) (i : Z) (v v' : item) : Prop :=
  match c with
  | ReplaceItemInArray a' w i' => a = a' /\ k = Z.to_nat w /\ i = i' /\ v' = v
  | ReplaceItemInObject o s i' =>
      a = o /\ k = from_option (position (C !! s)) O (S !! o) /\ i = i' /\ gets_name R (C !! s) v v'
  | _ => False
  end.

Definition set_kids (S : gmap Z item) (a : Z) (f : list item -> list item) : gmap Z item :=
  alter (fun va => with_child (f (CJson.child va)) va) a S.
Definition kid (S : gmap Z item) (a : Z) (k : nat) : option item :=
  va ← S !! a; CJson.child va !! k.

(** What the commands do to the values of the roots: only when an allocation was
    refused is nothing made, or a string or a name missing. *)
Inductive astep (R : Prop) (S : gmap Z item) (c : cmd) : Z -> gmap Z item -> Prop :=
  | step_refused v : R -> makes R S c v -> astep R S c 0 S
  | step_made v r : makes R S c v -> r <> 0 -> S !! r = None -> astep R S c r (<[r := v]> S)
  | step_add a i v v' : adds R c a i v v' -> S !! i = Some v ->
      astep R S c 0 (set_kids (delete i S) a (fun l => l ++ [v']))
  | step_add_null a v v' : adds True c a 0 v v' -> astep R S c 0 S
  | step_detach a k v r : detaches S c a k -> kid S a k = Some v -> r <> 0 -> S !! r = None ->
      astep R S c r (<[r := v]> (set_kids S a (delete k)))
  | step_detach_none a k : detaches S c a k -> kid S a k = None -> astep R S c 0 S
  | step_delete_item a k : deletes S c a k -> astep R S c 0 (set_kids S a (delete k))
  | step_replace a k i v v' : replaces R S c a k i v v' -> S !! i = Some v -> is_Some (kid S a k) ->
      astep R S c 0 (set_kids (delete i S) a (<[k := v']>))
  | step_replace_none a k i v v' : replaces True S c a k i v v' -> kid S a k = None -> astep R S c 0 S
  | step_delete i : c = Delete i -> astep R S c 0 (delete i S)
  | step_duplicate_null recurse : c = Duplicate 0 recurse -> astep R S c 0 S.

(** What the client has to know: arguments are roots, names are constants. *)
Definition is_root (S : gmap Z item) (p : Z) : Prop := is_Some (S !! p).
Definition short (S : gmap Z item) (o : Z) : Prop :=
  forall v, S !! o = Some v -> Z.of_nat (length (CJson.child v)) < 2 ^ 31.

Definition valid (S : gmap Z item) (c : cmd) : Prop :=
  match c with
  | CreateString s => is_Some (C !! s)
  | AddItemToArray a i => is_root S a /\ (i = 0 \/ is_root S i /\ a <> i)
  | AddItemToObject o s i => is_root S o /\ is_Some (C !! s) /\ (i = 0 \/ is_root S i /\ o <> i)
  | DetachItemFromArray a _ | DeleteItemFromArray a _ => is_root S a
  | DetachItemFromObject o s | DeleteItemFromObject o s =>
      is_root S o /\ is_Some (C !! s) /\ short S o
  | ReplaceItemInArray a _ i => is_root S a /\ is_root S i /\ a <> i
  | ReplaceItemInObject o s i =>
      is_root S o /\ is_Some (C !! s) /\ short S o /\ o <> i /\
      exists v, S !! i = Some v /\ CJson.string v = None
  | Delete i | Duplicate i _ => i = 0 \/ is_root S i
  | _ => True
  end.

Definition represents (m : mem) (S : gmap Z item) : Prop :=
  consts m = C /\ exists ts, forest m ts /\ roots ts = S.

(** ** The simulation *)

Lemma sim_built m ts m' p v :
  forest m ts -> built m m' p v ->
  (p = 0 /\ refused m m' /\ forest m' ts) \/
  (p <> 0 /\ roots ts !! p = None /\ exists t, forest m' (t :: ts) /\ addr t = p /\ val t = v).
Proof.
  intros Hf [(-> & H & Hr)|(t & -> & Hg & Hp & <-)].
  - left. split; [done|]. split; [done|]. by eapply forest_same.
  - right. split; [apply (shape_root _ _ _ _ _ (grown_shape _ _ _ Hg))|]. split.
    + eapply roots_fresh; [done|]. apply (grown_fresh _ _ _ Hg), addr_foot.
    + exists t. split; [|done]. by eapply forest_grown.
Qed.

Lemma sim_new m ts c v p m' :
  consts m = C -> forest m ts -> makes (refused m m') (roots ts) c v ->
  exec c m = Some (p, m') -> built m m' p v ->
  exists r m' S', exec c m = Some (r, m') /\ astep (refused m m') (roots ts) c r S' /\ represents m' S'.
Proof.
  intros HC Hf Hv E Hb. assert (HC' : consts m' = C).
  { destruct Hb as [(_ & [_ H] & _)|(t & _ & [_ _ [_ H] _ _] & _)]; congruence. }
  destruct (sim_built _ _ _ _ _ Hf Hb) as [(-> & Hr & Hf')|(Hp & Hn & t & Hf' & Ha & Hvt)].
  - exists 0, m', (roots ts). split; [done|]. split; [by eapply step_refused|]. split; [done|]. eauto.
  - exists p, m', (<[p := v]> (roots ts)). split; [done|]. split; [by eapply step_made|].
    split; [done|]. exists (t :: ts). split; [done|]. by rewrite roots_cons, Ha, Hvt.
Qed.

Lemma create_built m f d :
  f zero_node = node_of 0 0 d [] -> dvalue d = None -> dname d = None -> is_ref (dtype d) = false ->
  exists p m', create malloc f m = Some (p, m') /\ built m m' p (val (leaf 0 d)).
Proof.
  intros Hf Hv Hn Hr. destruct (create_item_ok m f d Hf Hv Hn) as (p & m' & E & H).
  exists p, m'. split; [done|]. destruct H as [H|H]; [by left|]. right. exists (leaf p d).
  split; [done|]. split; [done|]. split; [simpl; by rewrite Hr|done].
Qed.

(** Reading a plain tree needs no more than owning it. *)
Lemma plain_shape t : forall m pv nx, plain t = true -> shape false m pv nx t -> shape true m pv nx t.
Proof.
  induction t as [p d ks IH] using tree_ind'. intros m pv nx. simpl.
  intros [Hd Hk]%andb_true_iff (Hp & Hn & Hname & Ho). split; [done|]. split; [done|].
  split; [done|]. intros _. destruct (Ho Hd) as [Hv Hc]. split; [done|].
  change (chain true m 0 0 ks). change (chain false m 0 0 ks) in Hc.
  clear -IH Hk Hc. revert Hk Hc. generalize 0 at 1 3.
  induction IH as [|t ks Ht _ IHk]; intros pv Hk Hc; [done|].
  simpl in Hk. apply andb_true_iff in Hk as [??]. apply chain_cons in Hc as [??].
  apply chain_cons. auto.
Qed.

Lemma plain_weight t : plain t = true -> weight t = (2 * length (items false t))%nat.
Proof.
  induction t as [p d ks IH] using tree_ind'. simpl. intros [Hd Hk]%andb_true_iff.
  unfold opens. rewrite Hd. simpl. assert (sum_list_with weight ks = 2 * length (ks ≫= items false))%nat; [|lia].
  induction IH as [|t ks Ht _ IHk]; [done|]. simpl in Hk. apply andb_true_iff in Hk as [??].
  rewrite bind_cons, length_app. simpl. rewrite Ht, IHk by done. lia.
Qed.

Lemma Duplicate_built m ts t recurse :
  forest m ts -> t ∈ ts ->
  exists p m', cJSON_Duplicate malloc (2 * fuel_of m) (addr t) recurse m = Some (p, m') /\
    built m m' p (unref (if recurse then val t else childless (val t))).
Proof.
  intros Hf Ht. pose proof (proj1 (Forall_forall _ _) (forest_shape _ _ Hf) t Ht) as Hs.
  pose proof (proj1 (Forall_forall _ _) (forest_plain _ _ Hf) t Ht) as Hp. simpl in Hs, Hp.
  eapply (proj1 (dup_both _)); [by apply plain_shape|].
  rewrite plain_weight by done. apply list_elem_of_split in Ht as (l1 & l2 & ->).
  pose proof (forest_NoDup _ _ Hf) as Hnd. rewrite foots_middle in Hnd.
  apply NoDup_app in Hnd as (_ & _ & (Hnd & _ & _)%NoDup_app).
  assert (H : (length ([t] ≫= items false) <= fuel_of m)%nat).
  { apply (items_fuel false m [t] 0 0); [by apply chain_cons|]. by rewrite foots_cons, app_nil_r. }
  rewrite bind_cons, app_nil_r in H. lia.
Qed.

Lemma set_kids_roots a d ks ks' rest f :
  f (map val ks) = map val ks' ->
  set_kids (roots (Tree a d ks :: rest)) a f = roots (Tree a d ks' :: rest).
Proof.
  intros H. unfold set_kids. rewrite !roots_cons. simpl.
  rewrite alter_insert_eq. unfold with_child. simpl. by rewrite H.
Qed.

Lemma roots_two m ts a i va vi :
  forest m ts -> roots ts !! a = Some va -> roots ts !! i = Some vi -> a <> i ->
  exists t u rest, forest m (t :: u :: rest) /\ addr t = a /\ val t = va /\ addr u = i /\ val u = vi /\
    roots ts = roots (t :: u :: rest) /\ delete i (roots ts) = roots (t :: rest).
Proof.
  intros Hf Ha Hi Hai. destruct (roots_lookup _ _ _ _ Hf Ha) as (t & r1 & P1 & Hf1 & Ht & Hvt & Hr1).
  assert (Hi1 : roots r1 !! i = Some vi) by (rewrite Hr1, lookup_delete_ne; done).
  assert (Hu : i ∈ addr <$> r1).
  { destruct (decide (i ∈ addr <$> r1)) as [|Hn]; [done|]. by rewrite roots_None in Hi1. }
  apply list_elem_of_fmap in Hu as (u & -> & Hu). apply list_elem_of_split in Hu as (l1 & l2 & ->).
  assert (P2 : t :: l1 ++ u :: l2 ≡ₚ t :: u :: l1 ++ l2)
    by (apply Permutation_skip; symmetry; apply Permutation_middle).
  pose proof (forest_perm _ _ _ P2 Hf1) as Hf2. exists t, u, (l1 ++ l2).
  assert (E : roots ts = roots (t :: u :: l1 ++ l2)).
  { rewrite (roots_perm _ _ _ Hf P1). by apply (roots_perm m). }
  split; [done|]. split; [done|]. split; [done|]. split; [done|].
  split; [|split; [done|]].
  - rewrite E, !roots_cons, lookup_insert_ne, lookup_insert_eq in Hi by (rewrite Ht; done).
    by injection Hi.
  - rewrite E, !roots_cons, Ht, delete_insert_ne by done. rewrite delete_insert_id; [done|].
    apply roots_None. pose proof (forest_NoDup _ _ Hf2) as Hnd. rewrite foots_cons in Hnd.
    apply NoDup_app in Hnd as (_ & _ & Hnd). by eapply addr_notin.
Qed.

(** The operations on a forest. *)

Ltac foralls := rewrite ?Forall_cons, ?Forall_nil in *; tauto.

Lemma forest_head m t ts :
  forest m (t :: ts) -> shape false m 0 0 t /\ NoDup (foot false t) /\ plain t = true /\
  opens false (dat t) = true.
Proof.
  intros [Hs Hnd Hp _ _]. apply Forall_cons in Hs as [? _]. apply Forall_cons in Hp as [? _].
  rewrite foots_cons in Hnd. apply NoDup_app in Hnd as (? & _ & _).
  split; [done|]. split; [done|]. split; [done|]. by apply plain_open.
Qed.

Lemma forest_two m t u ts : forest m (t :: u :: ts) -> NoDup (foots false [t; u]).
Proof.
  intros [_ Hnd _ _ _]. rewrite !foots_cons in Hnd. rewrite !foots_cons, app_nil_r.
  rewrite app_assoc in Hnd. by apply NoDup_app in Hnd as (? & _ & _).
Qed.

Lemma plain_tree p d ks : plain (Tree p d ks) = true <-> is_ref (dtype d) = false /\ Forall (fun t => plain t = true) ks.
Proof.
  simpl. rewrite andb_true_iff, negb_true_iff, forallb_forall, Forall_forall.
  setoid_rewrite list_elem_of_In. tauto.
Qed.

Lemma F_add m a d ks u rest :
  forest m (Tree a d ks :: u :: rest) ->
  exists m', cJSON_AddItemToArray a (addr u) m = Some m' /\
    forest m' (Tree a d (ks ++ [u]) :: rest) /\ consts m' = consts m.
Proof.
  intros Hf. destruct (forest_head _ _ _ Hf) as (Ha & _ & Hpa & Ho). simpl in Ho.
  destruct (forest_head m u (Tree a d ks :: rest)) as (Hu & _ & Hpu & _);
    [by eapply forest_perm, Hf; constructor|].
  pose proof (forest_two _ _ _ _ Hf) as Hnd.
  destruct (AddItemToArray_ok _ _ _ _ _ _ _ Ho Ha Hu Hnd) as (m' & E & Hs & Hfr).
  exists m'. split; [done|]. split; [|apply Hfr].
  assert (E1 : foots false [Tree a d (ks ++ [u])] = foots false [Tree a d ks; u]).
  { by rewrite foots_cons, app_nil_r, foot_snoc. }
  apply (forest_update m m' [Tree a d ks; u] [Tree a d (ks ++ [u])] rest _ Hf Hfr);
    rewrite ?E1; auto; try (foralls).
  - constructor; [|done]. apply plain_tree in Hpa as [? ?]. apply plain_tree.
    split; [done|]. apply Forall_app. foralls.
Qed.

Lemma F_name m name s p d ks rest :
  forest m (Tree p d ks :: rest) -> const_at m name s ->
  exists m' v, give_name name p m = Some m' /\
    (v = None /\ refused m m' \/ snd <$> v = Some s) /\
    forest m' (Tree p (rename v d) ks :: rest) /\ consts m' = consts m.
Proof.
  intros Hf Hc. destruct (forest_head _ _ _ Hf) as (Hs & Hnd & Hp & _).
  destruct (give_name_ok _ _ _ _ _ _ Hc Hs Hnd) as (m' & v & E & Hv & Hs' & Hnd' & Hfr & Hdead).
  exists m', v. split; [done|]. split; [destruct Hv as [[-> ?]|(r & -> & _)]; auto|].
  assert (Hv' : v = None \/ exists r, v = Some (r, s) /\ (fresh m r \/ r ∈ sfoot (dname d)))
    by naive_solver. clear Hv. rename Hv' into Hv.
  split; [|apply Hfr].
  assert (Hnew : forall x, x ∈ sfoot v -> x ∈ foots false [Tree p d ks] \/ fresh m x).
  { destruct Hv as [->|(r & -> & Hr)]; [set_solver|]. intros x ->%list_elem_of_singleton.
    destruct Hr as [Hr|Hr]; [by right|]. left. rewrite foots_cons, foot_inner.
    unfold inner_foot. simpl. set_solver. }
  apply (forest_update m m' [Tree p d ks] [Tree p (rename v d) ks] rest _ Hf Hfr).
  - intros x [->|[Hx|Hx]%elem_of_app]%elem_of_cons; [left|left|auto];
      rewrite foots_cons, foot_inner; unfold inner_foot; simpl; set_solver.
  - foralls.
  - by rewrite foots_cons, app_nil_r.
  - foralls.
  - intros x. rewrite foots_cons, app_nil_r, foot_inner. unfold inner_foot. simpl.
    change (opens false (rename v d)) with (opens false d).
    intros [->|[Hx|Hx]%elem_of_app]%elem_of_cons; [left|auto|left];
      rewrite foots_cons, foot_inner; unfold inner_foot; simpl; set_solver.
  - intros x Hx Hl. rewrite foots_cons, app_nil_r, foot_inner in *. unfold inner_foot in *. simpl in *.
    change (opens false (rename v d)) with (opens false d). specialize (Hdead x).
    clear -Hx Hl Hdead. set_solver.
Qed.

Lemma foot_without a d l1 c l2 :
  opens false d = true ->
  foots false [Tree a d (l1 ++ c :: l2)] ≡ₚ foots false [Tree a d (l1 ++ l2); c].
Proof.
  intros Ho. rewrite !foots_cons, !app_nil_r, !foot_open, foots_middle, foots_app by done.
  simpl. apply Permutation_skip. rewrite <- !app_assoc. do 3 apply Permutation_app_head.
  apply Permutation_app_comm.
Qed.

Lemma plain_without a d l1 c l2 :
  plain (Tree a d (l1 ++ c :: l2)) = true -> plain (Tree a d (l1 ++ l2)) = true /\ plain c = true.
Proof.
  rewrite !plain_tree, !Forall_app, Forall_cons. tauto.
Qed.

Lemma F_detach m a d l1 c l2 rest which :
  forest m (Tree a d (l1 ++ c :: l2) :: rest) -> Z.to_nat which = length l1 ->
  exists m', cJSON_DetachItemFromArray a which m = Some (addr c, m') /\
    forest m' (Tree a d (l1 ++ l2) :: c :: rest) /\ consts m' = consts m /\ addr c ∈ live m.
Proof.
  intros Hf Hw. destruct (forest_head _ _ _ Hf) as (Ha & Hnd & Hp & Ho). simpl in Ho.
  destruct (Detach_found _ _ _ _ _ _ _ _ _ Ho Ha Hnd Hw) as (m' & E & Ha' & Hc' & Hfr).
  exists m'. split; [done|]. pose proof (foot_without a d l1 c l2 Ho) as P.
  destruct (plain_without _ _ _ _ _ Hp) as [Hp1 Hp2]. split; [|split; [apply Hfr|]].
  - apply (forest_update m m' [Tree a d (l1 ++ c :: l2)] [Tree a d (l1 ++ l2); c] rest _ Hf Hfr).
    + intros x Hx. left. by rewrite foots_cons, app_nil_r.
    + foralls.
    + rewrite <- P. by rewrite foots_cons, app_nil_r.
    + foralls.
    + intros x Hx. left. by rewrite P.
    + intros x Hx _. rewrite <- P, foots_cons, app_nil_r in *. tauto.
  - eapply foot_live; [exact Ha|]. rewrite foot_open, foots_middle by done.
    pose proof (addr_foot false c). set_solver.
Qed.

Lemma F_detach_none m a d ks rest which :
  forest m (Tree a d ks :: rest) -> (length ks <= Z.to_nat which)%nat ->
  cJSON_DetachItemFromArray a which m = Some (0, m).
Proof.
  intros Hf Hw. destruct (forest_head _ _ _ Hf) as (Ha & Hnd & _ & Ho). by eapply Detach_none.
Qed.

Lemma F_delete m t rest :
  forest m (t :: rest) ->
  exists m', cJSON_Delete (addr t) m = Some m' /\ forest m' rest /\ consts m' = consts m.
Proof.
  intros Hf. destruct (forest_head _ _ _ Hf) as (Hs & Hnd & _ & _).
  rewrite (Delete_ok _ _ Hs Hnd). eexists. split; [done|]. split; [|done].
  apply (forest_update m _ [t] [] rest _ Hf (frame_remove (foot false t) m)); try done.
  - intros x Hx. left. by rewrite foots_cons, app_nil_r.
  - constructor.
  - set_solver.
  - intros x Hx. rewrite foots_cons, app_nil_r in Hx.
    rewrite elem_of_live, nodes_remove, strs_remove, !decide_True by tauto.
    by intros [[? ?]|[? ?]].
Qed.

Lemma F_replace m a d l1 c l2 u rest which :
  forest m (Tree a d (l1 ++ c :: l2) :: u :: rest) -> Z.to_nat which = length l1 ->
  exists m', cJSON_ReplaceItemInArray a which (addr u) m = Some m' /\
    forest m' (Tree a d (l1 ++ u :: l2) :: rest) /\ consts m' = consts m.
Proof.
  intros Hf Hw. destruct (forest_head _ _ _ Hf) as (Ha & _ & Hpa & Ho). simpl in Ho.
  destruct (forest_head m u (Tree a d (l1 ++ c :: l2) :: rest)) as (Hu & _ & Hpu & _);
    [by eapply forest_perm, Hf; constructor|].
  pose proof (forest_two _ _ _ _ Hf) as Hnd.
  destruct (Replace_found _ _ _ _ _ _ _ _ _ _ Ho Ha Hu Hnd Hw) as (m' & E & Hs & Hdead & Hfr).
  exists m'. split; [done|]. split; [|apply Hfr].
  assert (P : foots false [Tree a d (l1 ++ c :: l2); u]
    ≡ₚ foot false c ++ foots false [Tree a d (l1 ++ u :: l2)]).
  { rewrite foots_cons. rewrite <- (app_nil_r (foot false (Tree a d (l1 ++ c :: l2)))).
    change (foot false (Tree a d (l1 ++ c :: l2)) ++ []) with (foots false [Tree a d (l1 ++ c :: l2)]).
    rewrite !foot_without by done. rewrite !foots_cons, !app_nil_r.
    rewrite <- app_assoc. etrans; [apply Permutation_app_comm|]. rewrite <- app_assoc.
    apply Permutation_app_head, Permutation_app_comm. }
  pose proof Hnd as Hnd'. rewrite P in Hnd'. apply NoDup_app in Hnd' as (_ & _ & Hnd').
  apply (forest_update m m' [Tree a d (l1 ++ c :: l2); u] [Tree a d (l1 ++ u :: l2)] rest _ Hf Hfr);
    try (foralls); try done.
  - constructor; [|done]. rewrite !plain_tree, !Forall_app, !Forall_cons in *. tauto.
  - intros x Hx. left. rewrite P. set_solver.
  - intros x Hx Hl. rewrite P, elem_of_app in Hx. destruct Hx as [[Hx|Hx]|[Hx|Hx]]; [|done| |done];
      by apply Hdead in Hx.
Qed.

(** [ReplaceItemInArray] out of range. *)
Lemma F_replace_none m a d ks rest which i :
  forest m (Tree a d ks :: rest) -> (length ks <= Z.to_nat which)%nat ->
  cJSON_ReplaceItemInArray a which i m = Some m.
Proof.
  intros Hf Hw. destruct (forest_head _ _ _ Hf) as (Ha & Hnd & _ & Ho).
  destruct (nth_loop_array _ _ _ _ _ _ which Ho Ha Hnd) as [Hn Hl].
  unfold cJSON_ReplaceItemInArray. rewrite Hn. cbn [mbind option_bind JsonTree.child node_of].
  rewrite Hl, drop_ge by done. done.
Qed.

Lemma index_map {A B} (f : A -> B) q l : index q (map f l) = index (fun x => q (f x)) l.
Proof. induction l as [|x l IH]; simpl; [done|]. by rewrite IH. Qed.

Lemma index_ext {A} (p q : A -> bool) l : (forall x, p x = q x) -> index p l = index q l.
Proof. intros H. induction l as [|x l IH]; simpl; [done|]. by rewrite H, IH. Qed.

Lemma position_kids s a d ks : position (Some s) (val (Tree a d ks)) = index (named s) ks.
Proof.
  unfold position. simpl. rewrite index_map. apply index_ext. intros []. done.
Qed.

Lemma F_find m a d ks rest name s :
  forest m (Tree a d ks :: rest) -> const_at m name s -> Z.of_nat (length ks) < 2 ^ 31 ->
  nodes m !! a = Some (node_of 0 0 d ks) /\
  find_loop (fuel_of m) (first 0 ks) 0 name m
    = Some (first 0 (drop (index (named s) ks) ks), Z.of_nat (index (named s) ks)).
Proof.
  intros Hf Hc Hlen. destruct (forest_head _ _ _ Hf) as (Ha & Hnd & _ & Ho).
  destruct (open_chain _ _ _ _ _ _ Ho Ha Hnd) as (Hn & Hch & Hfuel). split; [done|].
  assert (name <> 0).
  { apply (forest_const _ _ Hf). apply elem_of_dom. destruct Hc as [-> _]. eauto. }
  rewrite (find_loop_chain _ _ _ _ _ 0 name s Hch); [done|done|lia|lia|done|by apply text_const].
Qed.

Lemma first_drop m a d ks rest k :
  forest m (Tree a d ks :: rest) -> (first 0 (drop k ks) =? 0) = bool_decide (length ks <= k)%nat.
Proof.
  intros Hf. destruct (forest_head _ _ _ Hf) as (Ha & Hnd & _ & Ho).
  destruct (open_chain _ _ _ _ _ _ Ho Ha Hnd) as (_ & Hch & _).
  rewrite <- (take_drop k ks) in Hch. apply chain_app in Hch as [_ Hch].
  rewrite (first_zero _ _ _ _ Hch). apply bool_decide_ext. split.
  - intros E. apply (f_equal length) in E. rewrite length_drop in E. simpl in E. lia.
  - apply drop_ge.
Qed.

(** By name is by the position of the first member of that name. *)
Lemma Detach_by_name m a d ks rest name s :
  forest m (Tree a d ks :: rest) -> const_at m name s -> Z.of_nat (length ks) < 2 ^ 31 ->
  cJSON_DetachItemFromObject a name m =
    cJSON_DetachItemFromArray a (Z.of_nat (index (named s) ks)) m.
Proof.
  intros Hf Hc Hlen. destruct (F_find _ _ _ _ _ _ _ Hf Hc Hlen) as [Hn E].
  unfold cJSON_DetachItemFromObject. rewrite Hn. cbn [mbind option_bind JsonTree.child node_of].
  rewrite E. cbn [mbind option_bind]. rewrite (first_drop _ _ _ _ _ _ Hf).
  case_bool_decide as Hk; [|done]. by rewrite (F_detach_none _ _ _ _ _ _ Hf) by lia.
Qed.

Definition sim (m : mem) (S : gmap Z item) (c : cmd) : Prop :=
  exists r m' S', exec c m = Some (r, m') /\ astep (refused m m') S c r S' /\ represents m' S'.

Lemma roots_array m ts a :
  forest m ts -> is_root (roots ts) a ->
  exists d ks rest, forest m (Tree a d ks :: rest) /\ roots ts = roots (Tree a d ks :: rest).
Proof.
  intros Hf [va Ha]. destruct (roots_lookup _ _ _ _ Hf Ha) as ([a' d ks] & rest & P & Hf' & E & _ & _).
  simpl in E. subst a'. exists d, ks, rest. split; [done|]. by apply (roots_perm m).
Qed.

Lemma kid_head a d ks rest k : kid (roots (Tree a d ks :: rest)) a k = val <$> ks !! k.
Proof. unfold kid. rewrite roots_cons, lookup_insert_eq. simpl. apply list_lookup_fmap. Qed.

Lemma lookup_split {A} (l : list A) k x :
  l !! k = Some x -> exists l1 l2, l = l1 ++ x :: l2 /\ length l1 = k.
Proof. intros H. exists (take k l), (drop (S k) l). split; [by rewrite take_drop_middle|]. 
  apply lookup_lt_Some in H. rewrite length_take. lia. Qed.

Lemma sim_detach m c a w ts :
  consts m = C -> forest m ts -> is_root (roots ts) a ->
  exec c m = cJSON_DetachItemFromArray a w m -> detaches (roots ts) c a (Z.to_nat w) ->
  sim m (roots ts) c.
Proof.
  intros HC Hf Ha E Hd. destruct (roots_array _ _ _ Hf Ha) as (d & ks & rest & Hf' & ER).
  unfold sim. rewrite E. rewrite ER in *. destruct (ks !! Z.to_nat w) as [t|] eqn:Hk.
  - destruct (lookup_split _ _ _ Hk) as (l1 & l2 & -> & Hl).
    destruct (F_detach _ _ _ _ _ _ _ w Hf' ltac:(lia)) as (m' & -> & Hf2 & HC' & _).
    assert (Hr : addr t <> 0 /\ roots (Tree a d (l1 ++ t :: l2) :: rest) !! addr t = None).
    { pose proof (forest_perm _ _ _ (Permutation_swap _ _ _) Hf2) as Hf3.
      destruct (forest_head _ _ _ Hf3) as (Hs & _). split; [by apply shape_root in Hs as [? _]|].
      pose proof (addr_notin _ _ _ (forest_NoDup _ _ Hf3)) as Hn.
      apply roots_None. by rewrite fmap_cons in *. }
    exists (addr t), m', (<[addr t := val t]> (set_kids (roots (Tree a d (l1 ++ t :: l2) :: rest)) a
        (delete (Z.to_nat w)))).
    split; [done|]. split.
    { eapply step_detach; [done| |apply Hr|apply Hr]. rewrite kid_head, Hk. done. }
    split; [congruence|]. exists (t :: Tree a d (l1 ++ l2) :: rest).
    split; [by eapply forest_perm, Hf2; constructor|]. rewrite roots_cons. f_equal. symmetry.
    apply set_kids_roots. rewrite !map_app, <- Hl. simpl. rewrite <- (length_map val l1).
    apply delete_middle.
  - apply lookup_ge_None in Hk. rewrite (F_detach_none _ _ _ _ _ _ Hf' Hk).
    exists 0, m, (roots (Tree a d ks :: rest)). split; [done|]. split; [|by split; [|eauto]].
    eapply step_detach_none; [done|]. rewrite kid_head. by rewrite (proj2 (lookup_ge_None _ _)).
Qed.

Lemma sim_delete_item m c a w ts :
  consts m = C -> forest m ts -> is_root (roots ts) a ->
  exec c m = void ('(c, m) ← cJSON_DetachItemFromArray a w m; cJSON_Delete c m) ->
  deletes (roots ts) c a (Z.to_nat w) -> sim m (roots ts) c.
Proof.
  intros HC Hf Ha E Hd. destruct (roots_array _ _ _ Hf Ha) as (d & ks & rest & Hf' & ER).
  unfold sim. rewrite E. rewrite ER in *. clear E.
  pose proof (fun R => step_delete_item R _ _ _ _ Hd) as St. destruct (ks !! Z.to_nat w) as [t|] eqn:Hk.
  - destruct (lookup_split _ _ _ Hk) as (l1 & l2 & -> & Hl).
    destruct (F_detach _ _ _ _ _ _ _ w Hf' ltac:(lia)) as (m1 & -> & Hf2 & HC' & _).
    cbn [mbind option_bind].
    destruct (F_delete m1 t (Tree a d (l1 ++ l2) :: rest)) as (m' & -> & Hf3 & HC3);
      [by eapply forest_perm, Hf2; constructor|]. simpl.
    exists 0, m', (roots (Tree a d (l1 ++ l2) :: rest)). split; [done|].
    split; [|split; [congruence|eauto]].
    rewrite (set_kids_roots a d _ (l1 ++ l2)) in St; [done|].
    rewrite !map_app, <- Hl. simpl. rewrite <- (length_map val l1). apply delete_middle.
  - apply lookup_ge_None in Hk. rewrite (F_detach_none _ _ _ _ _ _ Hf' Hk).
    cbn [mbind option_bind]. unfold cJSON_Delete. rewrite delete_loop_null. simpl.
    exists 0, m, (roots (Tree a d ks :: rest)). split; [done|]. split; [|by split; [|eauto]].
    rewrite (set_kids_roots a d _ ks) in St; [done|].
    rewrite delete_take_drop, take_ge, drop_ge, app_nil_r by (rewrite length_map; lia). done.
Qed.

Lemma gets_name_weaken (R R' : Prop) s v v' :
  (R -> R') -> gets_name R s v v' -> gets_name R' s v v'.
Proof. unfold gets_name. tauto. Qed.

Lemma refused_end m m1 m' : calls m' = calls m1 -> refused m m1 -> refused m m'.
Proof. intros E (k & l & Hk & H). exists k, l. rewrite E. done. Qed.

Lemma adds_calls m m1 m' c a i v v' :
  adds (refused m m1) c a i v v' -> calls m' = calls m1 -> adds (refused m m') c a i v v'.
Proof.
  intros H E. destruct c; simpl in *; try done. destruct H as (-> & -> & H). split_and!; try done.
  eapply gets_name_weaken, H. by apply refused_end.
Qed.

Lemma replaces_calls m m1 m' S c a k i v v' :
  replaces (refused m m1) S c a k i v v' -> calls m' = calls m1 ->
  replaces (refused m m') S c a k i v v'.
Proof.
  intros H E. destruct c; simpl in *; try done. destruct H as (-> & -> & -> & H). split_and!; try done.
  eapply gets_name_weaken, H. by apply refused_end.
Qed.

Lemma replaces_weaken (R : Prop) S c a k i v v' :
  replaces R S c a k i v v' -> replaces True S c a k i v v'.
Proof.
  destruct c; simpl; try done. intros (-> & -> & -> & H). split_and!; try done.
  by eapply gets_name_weaken, H.
Qed.

Lemma sim_add m c a i v ts (give : mem -> option mem) :
  consts m = C -> forest m ts -> is_root (roots ts) a -> a <> i -> roots ts !! i = Some v ->
  (forall u rest, forest m (u :: rest) -> addr u = i -> val u = v ->
    exists m1 u', give m = Some m1 /\ forest m1 (u' :: rest) /\ consts m1 = consts m /\
      addr u' = i /\ adds (refused m m1) c a i v (val u')) ->
  exec c m = void (m ← give m; cJSON_AddItemToArray a i m) ->
  sim m (roots ts) c.
Proof.
  intros HC Hf [va Ha] Hai Hi Hgive E.
  destruct (roots_two _ _ _ _ _ _ Hf Ha Hi Hai)
    as ([a' d ks] & u & rest & Hf' & Ea & _ & <- & Hv & ER & Edel). simpl in Ea. subst a'.
  destruct (Hgive u (Tree a d ks :: rest)) as (m1 & u' & E1 & Hf1 & HC1 & Eu' & Had); [|done|done|].
  { eapply forest_perm, Hf'. constructor. }
  pose proof (forest_perm _ _ _ (Permutation_swap _ _ _) Hf1) as Hf1'.
  destruct (F_add _ _ _ _ _ _ Hf1') as (m' & E2 & Hf2 & HC2).
  apply (adds_calls _ _ m') in Had; [|by eapply AddItemToArray_calls].
  exists 0, m', (roots (Tree a d (ks ++ [u']) :: rest)). split; [|split].
  - rewrite E, E1. cbn [mbind option_bind]. by rewrite <- Eu', E2.
  - assert (St := step_add _ _ _ _ _ _ _ Had Hi). rewrite Edel in St.
    rewrite (set_kids_roots a d ks (ks ++ [u'])) in St; [done|]. by rewrite map_app.
  - split; [congruence|eauto].
Qed.

Lemma sim_replace m c a w i v ts (give : mem -> option mem) :
  consts m = C -> forest m ts -> is_root (roots ts) a -> a <> i ->
  roots ts !! i = Some v ->
  (forall u rest, forest m (u :: rest) -> addr u = i -> val u = v ->
    exists m1 u', give m = Some m1 /\ forest m1 (u' :: rest) /\ consts m1 = consts m /\
      addr u' = i /\ replaces (refused m m1) (roots ts) c a (Z.to_nat w) i v (val u')) ->
  (is_Some (kid (roots ts) a (Z.to_nat w)) ->
    exec c m = void (m ← give m; cJSON_ReplaceItemInArray a w i m)) ->
  (kid (roots ts) a (Z.to_nat w) = None -> exec c m = Some (0, m)) ->
  sim m (roots ts) c.
Proof.
  intros HC Hf [va Ha] Hai Hi Hgive E E0.
  destruct (roots_two _ _ _ _ _ _ Hf Ha Hi Hai)
    as ([a' d ks] & u & rest & Hf' & Ea & _ & <- & Hv & ER & Edel). simpl in Ea. subst a'.
  destruct (Hgive u (Tree a d ks :: rest)) as (m1 & u' & E1 & Hf1 & HC1 & Eu' & Had); [|done|done|].
  { eapply forest_perm, Hf'. constructor. }
  destruct (kid (roots ts) a (Z.to_nat w)) as [x|] eqn:Hk; cycle 1.
  { exists 0, m, (roots ts). split; [by apply E0|].
    split; [by eapply step_replace_none; [eapply replaces_weaken|]|].
    split; [done|eauto]. }
  assert (Hki : is_Some (kid (roots ts) a (Z.to_nat w))) by (rewrite Hk; eauto).
  rewrite ER, kid_head in Hk. destruct (ks !! Z.to_nat w) as [t|] eqn:Hkt; [|done].
  destruct (lookup_split _ _ _ Hkt) as (l1 & l2 & -> & Hl).
  pose proof (forest_perm _ _ _ (Permutation_swap _ _ _) Hf1) as Hf1'.
  destruct (F_replace _ _ _ _ _ _ _ _ w Hf1' ltac:(lia)) as (m' & E2 & Hf2 & HC2).
  apply (replaces_calls _ _ m') in Had; [|by eapply ReplaceItemInArray_calls].
  assert (St := step_replace _ _ _ _ _ _ _ _ Had Hi Hki).
  exists 0, m', (roots (Tree a d (l1 ++ u' :: l2) :: rest)). split; [|split].
  - rewrite (E ltac:(eauto)), E1. cbn [mbind option_bind]. by rewrite <- Eu', E2.
  - rewrite Edel in St. rewrite (set_kids_roots a d _ (l1 ++ u' :: l2)) in St; [done|].
    rewrite !map_app, <- Hl. simpl. rewrite <- (length_map val l1), <- (Nat.add_0_r (length _)).
    by rewrite insert_app_r.
  - split; [congruence|eauto].
Qed.

Lemma root_zero m ts : forest m ts -> roots ts !! 0 = None.
Proof.
  intros Hf. apply roots_None. intros (t & E & Ht)%list_elem_of_fmap.
  pose proof (proj1 (Forall_forall _ _) (forest_shape _ _ Hf) t Ht) as Hs. simpl in Hs.
  apply shape_root in Hs as [H _]. by rewrite E in H.
Qed.

Lemma roots_const m ts a s : consts m = C -> forest m ts -> C !! a = Some s -> const_at m a s.
Proof.
  intros <- Hf Hs. split; [done|]. apply (forest_const _ _ Hf), elem_of_dom. eauto.
Qed.

Lemma roots_short ts a d ks rest :
  roots ts = roots (Tree a d ks :: rest) -> short (roots ts) a -> Z.of_nat (length ks) < 2 ^ 31.
Proof.
  intros -> H. specialize (H (val (Tree a d ks))). rewrite roots_cons, lookup_insert_eq in H.
  specialize (H eq_refl). simpl in H. by rewrite length_map in H.
Qed.

(** A member's name is a position. *)
Lemma by_name m ts o name s :
  consts m = C -> forest m ts -> is_root (roots ts) o -> C !! name = Some s ->
  short (roots ts) o ->
  let k := from_option (position (C !! name)) O (roots ts !! o) in
  cJSON_DetachItemFromObject o name m = cJSON_DetachItemFromArray o (Z.of_nat k) m /\
  (forall i, cJSON_ReplaceItemInObject malloc o name i m =
     if bool_decide (is_Some (kid (roots ts) o k))
     then '(s, m) ← cJSON_strdup malloc name m; m ← upd i (set_string s) m;
          cJSON_ReplaceItemInArray o (Z.of_nat k) i m
     else Some m).
Proof.
  intros HC Hf Ho Hs Hsh k. destruct (roots_array _ _ _ Hf Ho) as (d & ks & rest & Hf' & ER).
  pose proof (roots_const _ _ _ _ HC Hf Hs) as Hc. pose proof (roots_short _ _ _ _ _ ER Hsh) as Hlen.
  assert (Ek : k = index (named s) ks).
  { unfold k. rewrite ER, Hs, roots_cons, lookup_insert_eq. simpl from_option.
    by rewrite <- (position_kids s o d ks). }
  clearbody k. subst k. split; [by eapply Detach_by_name|]. intros i.
  destruct (F_find _ _ _ _ _ _ _ Hf' Hc Hlen) as [Hn E].
  unfold cJSON_ReplaceItemInObject. rewrite Hn. cbn [mbind option_bind JsonTree.child node_of].
  rewrite E. cbn [mbind option_bind]. rewrite (first_drop _ _ _ _ _ _ Hf'), ER, kid_head.
  destruct (ks !! index (named s) ks) as [t|] eqn:Hk.
  - apply lookup_lt_Some in Hk. rewrite (bool_decide_eq_false_2 (length ks <= _)%nat) by lia.
    by rewrite bool_decide_eq_true_2 by (simpl; eauto).
  - apply lookup_ge_None in Hk. rewrite (bool_decide_eq_true_2 (length ks <= _)%nat) by lia.
    rewrite bool_decide_eq_false_2; [done|]. simpl. by intros [].
Qed.

Lemma F_gets_name m ts name s u rest i v :
  consts m = C -> forest m ts -> C !! name = Some s ->
  forest m (u :: rest) -> addr u = i -> val u = v ->
  exists m1 u', give_name name i m = Some m1 /\ forest m1 (u' :: rest) /\ consts m1 = consts m /\
    addr u' = i /\ gets_name (refused m m1) (C !! name) v (val u').
Proof.
  intros HC Hf Hs Hf' <- <-. destruct u as [p d ks].
  destruct (F_name _ _ _ _ _ _ _ Hf' (roots_const _ _ _ _ HC Hf Hs)) as (m1 & n & E & Hn & Hf1 & HC1).
  exists m1, (Tree p (rename n d) ks). split; [done|]. split; [done|]. split; [done|].
  split; [done|]. rewrite Hs. destruct Hn as [[-> ?]|Hn]; [by left|]. right. simpl. by rewrite Hn.
Qed.

Lemma AddItemToObject_name o name i m :
  i <> 0 ->
  cJSON_AddItemToObject malloc o name i m =
    (m ← give_name name i m; cJSON_AddItemToArray o i m).
Proof.
  intros Hi. unfold cJSON_AddItemToObject, give_name. rewrite (proj2 (Z.eqb_neq i 0)) by done.
  destruct (nodes m !! i) as [n|]; [|done]. cbn [mbind option_bind].
  destruct (if negb (JsonTree.string n =? 0) then _ else _) as [m1|]; [|done].
  cbn [mbind option_bind]. destruct (cJSON_strdup malloc name m1) as [[t m2]|]; [|done].
  cbn [mbind option_bind]. by destruct (upd i (set_string t) m2).
Qed.

Lemma give_name_unnamed m ts i v name :
  forest m ts -> roots ts !! i = Some v -> CJson.string v = None ->
  give_name name i m = ('(s, m) ← cJSON_strdup malloc name m; upd i (set_string s) m).
Proof.
  intros Hf Hi Hv. destruct (roots_lookup _ _ _ _ Hf Hi) as ([p d ks] & rest & _ & Hf' & <- & <- & _).
  destruct (forest_head _ _ _ Hf') as (Hs & _). apply shape_root in Hs as [_ Hn].
  unfold give_name. rewrite Hn. simpl in Hv. cbn [mbind option_bind JsonTree.string node_of dat].
  by destruct (dname d).
Qed.

Lemma add_null a c m ts v v' :
  consts m = C -> forest m ts -> is_root (roots ts) a -> adds True c a 0 v v' ->
  exec c m = Some (0, m) -> sim m (roots ts) c.
Proof.
  intros HC Hf Ha Had E. exists 0, m, (roots ts). split; [done|]. split; [by eapply step_add_null|].
  split; [done|eauto].
Qed.

Lemma sim_create m S c f d :
  represents m S -> (forall R, makes R S c (val (leaf 0 d))) -> exec c m = create malloc f m ->
  f zero_node = node_of 0 0 d [] -> dvalue d = None -> dname d = None -> is_ref (dtype d) = false ->
  sim m S c.
Proof.
  intros [HC (ts & Hf & <-)] Hm E H1 H2 H3 H4.
  destruct (create_built m f d H1 H2 H3 H4) as (p & m' & E' & Hb).
  eapply sim_new; try done. by rewrite E.
Qed.

Lemma sim_CreateString m S str : represents m S -> valid S (CreateString str) -> sim m S (CreateString str).
Proof.
  intros [HC (ts & Hf & <-)] [s Hs].
  destruct (CreateString_ok m str s (roots_const _ _ _ _ HC Hf Hs))
    as (p & m' & E & [(-> & H & Hr)|(w & Hw & Hb)]).
  - eapply (sim_new _ _ _ (mkItem cJSON_String None 0 (S754_zero false) None [])); try done.
    + exists None. by split; [by left|].
    + by left.
  - eapply sim_new; try done. exists w. split; [|done]. rewrite Hs. destruct Hw as [[-> ?]| ->]; tauto.
Qed.

Lemma sim_AddItemToArray m S a i :
  represents m S -> valid S (AddItemToArray a i) -> sim m S (AddItemToArray a i).
Proof.
  intros [HC (ts & Hf & <-)] [Ha [-> |[[v Hi] Hai]]].
  - eapply (add_null a _ _ _ (blank 0)); [done..| |]; [by split|]. simpl.
    destruct (roots_array _ _ _ Hf Ha) as (d & ks & rest & Hf' & _).
    destruct (forest_head _ _ _ Hf') as (Hs & _). apply shape_root in Hs as [_ Hn]. simpl in Hn.
    unfold cJSON_AddItemToArray. rewrite Hn. done.
  - eapply (sim_add m _ a i v ts Some); try done.
    intros u rest Hfu Eu Hu. exists m, u. by split_and!.
Qed.

Lemma sim_AddItemToObject m S o name i :
  represents m S -> valid S (AddItemToObject o name i) -> sim m S (AddItemToObject o name i).
Proof.
  intros [HC (ts & Hf & <-)] (Ho & [s Hs] & [-> |[[v Hi] Hai]]).
  - eapply (add_null o _ _ _ (blank 0)); [done..| |done]. split; [done|]. split; [done|]. by left.
  - assert (H0 : i <> 0) by (intros ->; by rewrite (root_zero m) in Hi).
    eapply (sim_add m _ o i v ts (give_name name i)); try done; [|simpl; by rewrite AddItemToObject_name].
    intros u rest Hfu Eu Hu. destruct (F_gets_name m ts name s u rest i v HC Hf Hs Hfu Eu Hu)
      as (m1 & u' & G & Hf1 & HC1 & Eu' & Hn). exists m1, u'. by split_and!.
Qed.

Lemma sim_ReplaceItemInArray m S a w i :
  represents m S -> valid S (ReplaceItemInArray a w i) -> sim m S (ReplaceItemInArray a w i).
Proof.
  intros [HC (ts & Hf & <-)] (Ha & [v Hi] & Hai).
  eapply (sim_replace m _ a w i v ts Some); try done.
  - intros u rest Hfu Eu Hu. exists m, u. by split_and!.
  - intros Hk. simpl. destruct (roots_array _ _ _ Hf Ha) as (d & ks & rest & Hf' & ER).
    rewrite ER, kid_head in Hk. rewrite (F_replace_none _ _ _ _ _ _ _ Hf'); [done|].
    apply lookup_ge_None. by destruct (ks !! Z.to_nat w).
Qed.

Lemma sim_ReplaceItemInObject m S o name i :
  represents m S -> valid S (ReplaceItemInObject o name i) -> sim m S (ReplaceItemInObject o name i).
Proof.
  intros [HC (ts & Hf & <-)] (Ho & [s Hs] & Hsh & Hoi & v & Hi & Hv).
  destruct (by_name _ _ _ _ _ HC Hf Ho Hs Hsh) as [_ E].
  set (k := from_option (position (C !! name)) O (roots ts !! o)) in *.
  eapply (sim_replace m _ o (Z.of_nat k) i v ts (give_name name i)); try done; rewrite ?Nat2Z.id.
  - intros u rest Hfu Eu Hu. destruct (F_gets_name m ts name s u rest i v HC Hf Hs Hfu Eu Hu)
      as (m1 & u' & G & Hf1 & HC1 & Eu' & Hn). exists m1, u'. by split_and!.
  - intros Hk. simpl. rewrite E, bool_decide_eq_true_2 by done.
    rewrite (give_name_unnamed m ts i v name Hf Hi Hv).
    destruct (cJSON_strdup malloc name m) as [[t m1]|]; [|done]. cbn [mbind option_bind].
    by destruct (upd i (set_string t) m1).
  - intros Hk. simpl. rewrite E, bool_decide_eq_false_2; [done|]. rewrite Hk. by intros [].
Qed.

Lemma sim_Delete m S i : represents m S -> valid S (Delete i) -> sim m S (Delete i).
Proof.
  intros [HC (ts & Hf & <-)] Hv. pose proof (fun R => step_delete R (roots ts) _ i eq_refl) as St.
  destruct Hv as [-> |[v Hi]].
  - exists 0, m, (roots ts). rewrite delete_id in St by by eapply root_zero.
    split; [|split; [done|split; [done|eauto]]]. simpl. unfold cJSON_Delete. by rewrite delete_loop_null.
  - destruct (roots_lookup _ _ _ _ Hf Hi) as (t & rest & _ & Hf' & <- & _ & ER).
    destruct (F_delete _ _ _ Hf') as (m' & E & Hf2 & HC2).
    exists 0, m', (delete (addr t) (roots ts)). split; [simpl; by rewrite E|]. split; [done|].
    split; [congruence|]. by exists rest.
Qed.

Lemma sim_Duplicate m S i recurse :
  represents m S -> valid S (Duplicate i recurse) -> sim m S (Duplicate i recurse).
Proof.
  intros [HC (ts & Hf & <-)] [-> |[v Hi]].
  - exists 0, m, (roots ts). split; [simpl; by destruct (fuel_of m)|].
    split; [by eapply step_duplicate_null|]. split; [done|eauto].
  - destruct (roots_lookup _ _ _ _ Hf Hi) as (t & rest & P & Hf' & <- & <- & _).
    destruct (Duplicate_built m (t :: rest) t recurse Hf') as (p & m' & E & Hb); [set_solver|].
    eapply sim_new; try done. simpl. eauto.
Qed.

(** Every command that a client may issue is carried out, without touching
    memory that is not in use, the way [astep] says, and memory holds the
    resulting trees and nothing else. *)
Lemma client_step m S c : represents m S -> valid S c -> sim m S c.
Proof.
  intros HR Hv. destruct c; try (eapply sim_create with (d := mkData _ None _ _ None); done).
  - eapply sim_create with (d := mkData (if negb (b =? 0) then cJSON_True else cJSON_False) None 0
      (S754_zero false) None); try done; simpl; by destruct (b =? 0).
  - by apply sim_CreateString.
  - by apply sim_AddItemToArray.
  - by apply sim_AddItemToObject.
  - destruct HR as [HC (ts & Hf & <-)]. by eapply sim_detach.
  - destruct HR as [HC (ts & Hf & <-)]. destruct Hv as (Ho & [s Hs] & Hsh).
    destruct (by_name _ _ _ _ _ HC Hf Ho Hs Hsh) as [E _].
    eapply sim_detach; [done..|exact E|]. rewrite Nat2Z.id. by split.
  - destruct HR as [HC (ts & Hf & <-)]. by eapply sim_delete_item.
  - destruct HR as [HC (ts & Hf & <-)]. destruct Hv as (Ho & [s Hs] & Hsh).
    destruct (by_name _ _ _ _ _ HC Hf Ho Hs Hsh) as [E _].
    eapply sim_delete_item; [done..| |].
    + simpl. unfold cJSON_DeleteItemFromObject. rewrite E. done.
    + rewrite Nat2Z.id. by split.
  - by apply sim_ReplaceItemInArray.
  - by apply sim_ReplaceItemInObject.
  - by apply sim_Delete.
  - by apply sim_Duplicate.
Qed.

(** [n] commands, each chosen knowing what the earlier ones answered. *)
Fixpoint safe (n : nat) (m : mem) (S : gmap Z item) : Prop :=
  represents m S /\
  match n with
  | O => True
  | Datatypes.S n => forall c, valid S c ->
      exists r m' S', exec c m = Some (r, m') /\ astep (refused m m') S c r S' /\ safe n m' S'
  end.

Definition empty_mem : mem := mkMem ∅ ∅ C 0.

Lemma represents_empty m : represents m ∅ -> live m = ∅.
Proof.
  intros [_ (ts & Hf & E)]. assert (ts = []) as ->.
  { destruct ts as [|t ts]; [done|]. rewrite roots_cons in E. by apply insert_non_empty in E. }
  apply set_eq. intros a. split; [|set_solver]. intros Ha. apply (forest_full _ _ Hf) in Ha. set_solver.
Qed.

(** C18: a client of the item interface that starts with empty memory is served,
    whatever non-NULL or NULL addresses the allocator answers, as long as each
    of its commands is [valid]: the arrays, objects and items it passes are roots
    it owns, the item different from the array or object it goes to; NULL only
    as the item to add, delete or duplicate; names and strings are strings of
    the caller, never the allocated name of an item; an object searched by name
    has fewer than 2^31 members; and the item that replaces a member by name has
    no name yet (the code does not free the name such an item has).  Then no
    command accesses memory that is not in use, each has the effect on the values
    of the roots that [astep] states, and after each memory holds exactly these
    trees, so that nothing leaks.  NULL for a new item, a missing string and a
    missing name come up only if one of the allocations of this very command was
    refused. *)
Theorem json_client_safe n : 0 ∉ dom C -> safe n empty_mem ∅.
Proof.
  intros H0. assert (HR : represents empty_mem ∅).
  { split; [done|]. exists []. split; [|done].
    assert (E : live empty_mem = ∅) by (unfold live; simpl; rewrite !dom_empty_L; set_solver).
    split; try (by constructor).
    - intros a. rewrite E. set_solver.
    - intros a Ha. split; [|by rewrite E]. intros ->. by apply H0. }
  revert HR. generalize empty_mem (∅ : gmap Z item). induction n as [|n IH]; intros m S HR.
  { by split. }
  split; [done|]. intros c Hc. destruct (client_step m S c HR Hc) as (r & m' & S' & E & St & HR').
  exists r, m', S'. split; [done|]. split; [done|]. by apply IH.
Qed.

(** Duplicating any tree that can be read, members of an array and references
    included, gives a tree of the same value in memory that was not in use, with
    every reference replaced by a copy and nothing else changed; or, when an
    allocation fails, NULL, with everything allocated on the way freed again. *)
Theorem duplicate_is_deep_copy t m pv nx recurse fuel :
  shape true m pv nx t -> (weight t <= fuel)%nat ->
  exists r m', cJSON_Duplicate malloc fuel (addr t) recurse m = Some (r, m') /\
    built m m' r (unref (if recurse then val t else childless (val t))).
Proof. apply dup_both. Qed.

(** deleting a duplicate restores memory. *)
Theorem duplicate_delete_restores t m pv nx recurse fuel :
  shape true m pv nx t -> (weight t <= fuel)%nat ->
  exists r m' m'', cJSON_Duplicate malloc fuel (addr t) recurse m = Some (r, m') /\
    cJSON_Delete r m' = Some m'' /\ nodes m'' = nodes m /\ strs m'' = strs m.
Proof.
  intros Hs Hw. destruct (proj1 (dup_both fuel) t m pv nx recurse Hs Hw) as (r & m' & E & Hb).
  exists r, m'. destruct Hb as [(-> & H & _)|(u & -> & Hg & _)].
  - exists m'. split; [done|]. split; [unfold cJSON_Delete; by rewrite delete_loop_null|].
    destruct H as [H _]. split; apply map_eq; intros a; apply (H a); set_solver.
  - destruct (grown_delete _ _ _ Hg) as (m'' & E2 & [H _] & _). exists m''. split; [done|].
    split; [done|]. split; apply map_eq; intros a; apply (H a); set_solver.
Qed.

(** ** Arrays of numbers and strings *)

(** [mk] makes an item of value [v x]. *)
Definition maker {A} (mk : A -> mem -> option (Z * mem)) (v : A -> item) : Prop :=
  forall x m, exists t m', mk x m = Some (addr t, m') /\ grown m m' t /\
    plain t = true /\ val t = v x.

Lemma fill_array_ok {A} (mk : A -> mem -> option (Z * mem)) v xs :
  maker mk v -> forall m0 m a d ks,
  opens false d = true -> grown m0 m (Tree a d ks) ->
  exists m' us, fill_array mk a (bool_decide (ks = [])) (lastp 0 ks) xs m = Some m' /\
    grown m0 m' (Tree a d (ks ++ us)) /\ map val us = map v xs /\ forallb plain us = true.
Proof.
  intros Hmk. induction xs as [|x xs IH]; intros m0 m a d ks Ho Hg.
  { exists m, []. rewrite app_nil_r. by split_and!. }
  destruct (Hmk x m) as (t & m1 & E & Ht & Hp & Hv). simpl. rewrite E. cbn [mbind option_bind].
  destruct (grown_append m0 m m1 a d ks t Ho Hg Ht) as (m2 & E2 & Hg2).
  assert (Hl : (lastp 0 ks =? 0) = bool_decide (ks = [])).
  { pose proof (grown_shape _ _ _ Hg) as Hs. rewrite shape_open in Hs by done.
    destruct Hs as (_ & _ & _ & _ & Hc). by eapply lastp_zero. }
  rewrite Hl in E2. assert ((if bool_decide (ks = []) then upd a (set_child (addr t)) m1
    else suffix_object (lastp 0 ks) (addr t) m1) = Some m2) as -> by (by case_bool_decide).
  cbn [mbind option_bind]. destruct (IH m0 m2 a d (ks ++ [t]) Ho Hg2) as (m' & us & E3 & Hg3 & Hv3 & Hp3).
  rewrite bool_decide_eq_false_2, lastp_app in E3 by (by destruct ks).
  exists m', (t :: us). split; [done|]. rewrite <- app_assoc in Hg3. split; [done|].
  split; [simpl; by rewrite Hv, Hv3|simpl; by rewrite Hp, Hp3].
Qed.

Lemma built_maker (Hmem : forall n l, malloc n l <> 0) f d m :
  f zero_node = node_of 0 0 d [] -> dvalue d = None -> dname d = None -> is_ref (dtype d) = false ->
  exists p m', create malloc f m = Some (p, m') /\ grown m m' (leaf p d).
Proof.
  intros H1 H2 H3 H4. destruct (create_item_ok m f d H1 H2 H3)
    as (p & m' & E & [(_ & _ & k & l & _ & H)|H]); [|eauto].
  by apply Hmem in H.
Qed.

Lemma CreateNumber_maker :
  (forall n l, malloc n l <> 0) ->
  maker (cJSON_CreateNumber malloc big_int)
    (fun x => mkItem cJSON_Number None (to_int big_int x) x None []).
Proof.
  intros Hmem x m.
  destruct (built_maker Hmem (fun n => set_number (to_int big_int x) x (set_type cJSON_Number n))
    (mkData cJSON_Number None (to_int big_int x) x None) m) as (p & m' & E & Hg); try done.
  by exists (leaf p (mkData cJSON_Number None (to_int big_int x) x None)), m'.
Qed.

Lemma create_array_ok {A} (mk : A -> mem -> option (Z * mem)) v xs count m :
  (forall n l, malloc n l <> 0) -> maker mk v -> count <= Z.of_nat (length xs) ->
  exists t m', create_array malloc mk xs count m = Some (addr t, m') /\ grown m m' t /\
    plain t = true /\
    val t = with_child (map v (take (Z.to_nat count) xs)) (blank cJSON_Array).
Proof.
  intros Hmem Hmk Hc. set (d := mkData cJSON_Array None 0 (S754_zero false) None).
  destruct (built_maker Hmem (set_type cJSON_Array) d m) as (a & m1 & E & Hg); try done.
  unfold create_array, cJSON_CreateArray. rewrite E. cbn [mbind option_bind].
  rewrite (proj2 (Z.eqb_neq a 0)) by apply (shape_root _ _ _ _ _ (grown_shape _ _ _ Hg)).
  rewrite decide_True by lia.
  destruct (fill_array_ok mk v (take (Z.to_nat count) xs) Hmk m m1 a d [] eq_refl Hg)
    as (m' & us & E2 & Hg2 & Hv & Hp).
  assert (E3 : fill_array mk a true 0 (take (Z.to_nat count) xs) m1 = Some m') by exact E2.
  rewrite E3. simpl in Hg2. cbn [mbind option_bind].
  exists (Tree a d us), m'. split; [done|]. split; [done|]. split; [done|].
  simpl. by rewrite Hv.
Qed.
End client.

(** ** Where the interface is sharp *)

(** Replacing an item by the result of a creation that failed: the check for
    NULL that adding has is missing. *)
Lemma replace_by_null_faults m a d l1 c l2 which rest :
  forest m (Tree a d (l1 ++ c :: l2) :: rest) -> Z.to_nat which = length l1 ->
  cJSON_ReplaceItemInArray a which 0 m = None.
Proof.
  intros Hf Hw. destruct (forest_head _ _ _ Hf) as (Ha & Hnd & _ & Ho).
  destruct (nth_loop_array _ _ _ _ _ _ which Ho Ha Hnd) as [Hn Hl].
  unfold cJSON_ReplaceItemInArray. rewrite Hn. cbn [mbind option_bind JsonTree.child node_of].
  rewrite Hl, Hw, drop_app_length. cbn [mbind option_bind first].
  destruct (open_chain _ _ _ _ _ _ Ho Ha Hnd) as (_ & Hc & _).
  apply chain_middle in Hc as (_ & Hcc & _). destruct (shape_root _ _ _ _ _ Hcc) as [Hc0 Hcn].
  rewrite (proj2 (Z.eqb_neq _ 0)) by done. rewrite Hcn. cbn [mbind option_bind].
  assert (H0 : nodes m !! 0 = None).
  { destruct (nodes m !! 0) as [n|] eqn:E; [|done]. exfalso.
    assert (H : 0 ∈ live m) by (apply elem_of_live; eauto).
    apply (forest_full _ _ Hf), elem_of_foots in H as (t & Ht & H).
    pose proof (proj1 (Forall_forall _ _) (forest_shape _ _ Hf) t Ht) as Hs.
    by destruct (foot_use _ _ _ _ _ _ Hs H). }
  unfold upd. by rewrite H0.
Qed.

Lemma find_index {A} (q : A -> bool) l : List.find q l = l !! index q l.
Proof. induction l as [|x l IH]; simpl; [done|]. by destruct (q x). Qed.

Lemma first_addr k (l : list tree) : first 0 (drop k l) = from_option addr 0 (l !! k).
Proof. revert k. induction l as [|t l IH]; intros [|k]; simpl; done. Qed.

(** the queries answer as on lists: the number of children; the child at an
    index, the first for a negative one and NULL past the end; the first member
    whose name equals the given one but for case, NULL if there is none.  Members
    without a name are passed over. *)
Theorem json_lookup m pv nx a d ks :
  opens false d = true -> shape false m pv nx (Tree a d ks) ->
  NoDup (foot false (Tree a d ks)) -> Z.of_nat (length ks) < 2 ^ 31 ->
  cJSON_GetArraySize a m = Some (Z.of_nat (length ks)) /\
  (forall i, cJSON_GetArrayItem a i m = Some (from_option addr 0 (ks !! Z.to_nat i))) /\
  (forall name s, name <> 0 -> text name m = Some s ->
    cJSON_GetObjectItem a name m = Some (from_option addr 0 (List.find (named s) ks))).
Proof.
  intros Ho Ha Hnd Hlen. destruct (open_chain _ _ _ _ _ _ Ho Ha Hnd) as (Hn & Hc & Hfuel).
  unfold cJSON_GetArraySize, cJSON_GetArrayItem, cJSON_GetObjectItem. rewrite Hn.
  cbn [mbind option_bind JsonTree.child node_of]. split; [|split].
  - by rewrite (count_loop_chain _ _ _ _ _ _ Hc Hfuel) by (done || lia).
  - intros i. by rewrite (nth_loop_chain _ _ _ _ _ i Hc Hfuel), first_addr.
  - intros name s H0 Hs.
    rewrite (find_loop_chain _ _ _ _ _ 0 name s Hc Hfuel) by (done || lia).
    simpl. by rewrite first_addr, find_index.
Qed.

(** ** Concrete runs *)

(** An allocator: a new address each time, except that it refuses every seventh call. *)
Definition refusing (n : nat) (l : gset Z) : Z :=
  let a := 1000 + 8 * Z.of_nat n in
  if Nat.eqb (n mod 7) 6 then 0 else if decide (a ∈ l) then 0 else a.

Lemma refusing_fresh n l : refusing n l = 0 \/ refusing n l ∉ l.
Proof. unfold refusing. destruct (Nat.eqb (n mod 7) 6); [by left|]. case_decide; [by left|by right]. Qed.

Definition names : gmap Z cstr := {[ 4 := [97]; 8 := [65] ]}.

Lemma json_client_safe_witness :
  safe refusing (fun _ => 0) names 20 (empty_mem names) ∅.
Proof.
  apply json_client_safe; [apply refusing_fresh|]. unfold names. rewrite !dom_insert_L. set_solver.
Defined.

(** A run: an object with a member, which is replaced under another case of its
    name; the first attempt to duplicate it runs out of memory. *)
Definition run (cs : list cmd) (m : mem) : option (list Z * mem) :=
  foldl (fun s c => '(rs, m) ← s; '(r, m) ← exec refusing (fun _ => 0) c m; Some (rs ++ [r], m))
    (Some ([], m)) cs.

Lemma client_run :
  match run [CreateObject; CreateTrue; AddItemToObject 1000 4 1008; CreateArray;
             ReplaceItemInObject 1000 8 1024; Duplicate 1000 true; Duplicate 1000 true;
             Delete 1000; Delete 1056] (empty_mem names) with
  | Some (rs, m) => rs = [1000; 1008; 0; 1024; 0; 0; 1056; 0; 0] /\ map_to_list (nodes m) = [] /\
      map_to_list (strs m) = []
  | None => False
  end.
Proof. vm_compute. by split_and!. Qed.

(** [ReplaceItemInObject] gives its item a name without freeing the one it has:
    an item that was detached under a name leaves a string behind. *)
Lemma replace_in_object_leaks :
  match run [CreateObject; CreateTrue; AddItemToObject 1000 4 1008; CreateFalse;
             DetachItemFromArray 1000 0; AddItemToObject 1000 8 1024;
             ReplaceItemInObject 1000 8 1008; Delete 1000] (empty_mem names) with
  | Some (rs, m) => map_to_list (nodes m) = [] /\ map_to_list (strs m) = [(1016, [97])]
  | None => False
  end.
Proof. vm_compute. by split_and!. Qed.

(** [AddItemToObject] under the item's own name: the name is freed before it is copied. *)
Lemma add_under_own_name_faults :
  match run [CreateObject; CreateTrue; AddItemToObject 1000 4 1008;
             DetachItemFromArray 1000 0] (empty_mem names) with
  | Some (rs, m) => nodes m !! 1008 = Some (node_of 0 0 (mkData cJSON_True None 0 (S754_zero false)
        (Some (1016, [97]))) []) /\ cJSON_AddItemToObject refusing 1000 1016 1008 m = None
  | None => False
  end.
Proof. vm_compute. by split_and!. Qed.

(** The array constructors when an element cannot be allocated: with one element
    the array is empty, with more the NULL is linked. *)
Lemma int_array_without_memory :
  let m := mkMem ∅ ∅ ∅ 5 in
  fst <$> cJSON_CreateIntArray refusing (fun _ => 0) [1] 1 m = Some 1040 /\
  cJSON_CreateIntArray refusing (fun _ => 0) [1; 2] 2 m = None.
Proof. vm_compute. by split_and!. Qed.

(** A reference in an array: [9] with the item 1016, which lives on its own. *)
Definition sample_data (t : Z) : data := mkData t None 0 (S754_zero false) None.
Definition shared : tree := Tree 1016 (mkData cJSON_Number None 7 (of_int 7) (Some (1024, [120]))) [].
Definition referring : tree :=
  Tree 1000 (sample_data cJSON_Array)
    [Tree 1008 (sample_data (cJSON_Array + cJSON_IsReference)) [shared]].
Definition shared_mem : mem :=
  mkMem (list_to_map [(1000, node_of 0 0 (sample_data cJSON_Array) (kids referring));
                      (1008, node_of 0 0 (sample_data (cJSON_Array + cJSON_IsReference)) [shared]);
                      (1016, node_of 0 0 (dat shared) [])])
    {[ 1024 := [120] ]} ∅ 20.

Lemma duplicate_is_deep_copy_witness :
  exists r m', cJSON_Duplicate refusing 6 1000 true shared_mem = Some (r, m') /\
    built refusing shared_mem m' r (unref (val referring)).
Proof.
  apply (duplicate_is_deep_copy refusing refusing_fresh referring shared_mem 0 0 true 6).
  - vm_compute. split_and!; try done; intros; split_and!; done.
  - vm_compute. lia.
Defined.

Lemma duplicate_delete_restores_witness :
  exists r m' m'', cJSON_Duplicate refusing 6 1000 true shared_mem = Some (r, m') /\
    cJSON_Delete r m' = Some m'' /\ nodes m'' = nodes shared_mem /\ strs m'' = strs shared_mem.
Proof.
  apply (duplicate_delete_restores refusing refusing_fresh referring shared_mem 0 0 true 6).
  - vm_compute. split_and!; try done; intros; split_and!; done.
  - vm_compute. lia.
Defined.

Definition pair_tree : list tree :=
  [Tree 1008 (mkData cJSON_True None 0 (S754_zero false) None) [];
   Tree 1016 (mkData cJSON_Number None 7 (of_int 7) (Some (1024, [120]))) []].
Definition pair_mem : mem :=
  mkMem (list_to_map [(1000, node_of 0 0 (sample_data cJSON_Object) pair_tree);
                      (1008, node_of 0 1016 (mkData cJSON_True None 0 (S754_zero false) None) []);
                      (1016, node_of 1008 0 (dat shared) [])])
    {[ 1024 := [120] ]} {[ 4 := [88] ]} 20.

(** The member called [x] is found as [X], after one without a name. *)
Lemma json_lookup_witness :
  cJSON_GetArraySize 1000 pair_mem = Some 2 /\ cJSON_GetObjectItem 1000 4 pair_mem = Some 1016 /\
  cJSON_GetArrayItem 1000 5 pair_mem = Some 0.
Proof.
  destruct (json_lookup pair_mem 0 0 1000 (sample_data cJSON_Object) pair_tree) as (H1 & H2 & H3).
  - reflexivity.
  - vm_compute. split_and!; try done; intros; split_and!; try done; intros; split_and!; done.
  - apply (bool_decide_unpack _). vm_compute. exact I.
  - reflexivity.
  - split; [exact H1|]. split; [apply (H3 4 [88]); [lia|reflexivity]|exact (H2 5)].
Defined.
