(* ===== verification/JsonTotal.v ===== *)
(** * libckits/cJSON.c: the parser ends, and where it is safe

    The parser of [CJson] ends on every text; and on every text whose escapes are
    complete ([well_escaped]) it stays within the text and within its buffers and
    uses no uninitialised variable. *)

From S2P Require Import Prelude Doubles CJson.
From Stdlib Require Import Floats.SpecFloat.

(** A backslash is followed by a character, and [\u] by four hexadecimal digits. *)
Definition is_hex (c : Z) : bool := match hex_digit c with Some _ => true | None => false end.

Fixpoint well_escaped (s : cstr) : bool :=
  match s with
  | [] => true
  | c :: s =>
      if c =? 92 then
        match s with
        | [] => false
        | e :: s =>
            if e =? 117 then
              match s with
              | h1 :: h2 :: h3 :: h4 :: s =>
                  is_hex h1 && is_hex h2 && is_hex h3 && is_hex h4 && well_escaped s
              | _ => false
              end
            else well_escaped s
        end
      else well_escaped s
  end.

(** ** Moving through the text *)

Lemma we_cons c s : c <> 92 -> well_escaped (c :: s) = well_escaped s.
Proof. intros H. simpl. by rewrite (proj2 (Z.eqb_neq c 92)). Qed.

Lemma we_tail s : well_escaped s = true -> peek s <> 92 -> well_escaped (tail s) = true.
Proof. destruct s as [|c s]; [done|]. cbn [peek tail]. intros H Hc. by rewrite we_cons in H. Qed.

Lemma we_skip s : well_escaped s = true -> well_escaped (skip s) = true.
Proof.
  induction s as [|c s IH]; [done|]. intros H. cbn [skip]. destruct (Z.leb_spec c 32); [|done].
  apply IH. by rewrite we_cons in H by lia.
Qed.

Lemma we_app l s : Forall (fun c => c <> 92) l -> well_escaped (l ++ s) = well_escaped s.
Proof. induction 1 as [|c l Hc _ IH]; [done|]. cbn [app]. by rewrite we_cons. Qed.

Lemma length_skip s : (length (skip s) <= length s)%nat.
Proof. induction s as [|c s IH]; simpl; [done|]. destruct (c <=? 32); simpl; lia. Qed.

Lemma length_tail s : peek s <> 0 -> (length (tail s) < length s)%nat.
Proof. destruct s; simpl; [done|lia]. Qed.

Lemma length_tail_le (s : cstr) : (length (tail s) <= length s)%nat.
Proof. destruct s; simpl; lia. Qed.

Lemma is_digit_not c : is_digit c = true -> c <> 92 /\ c <> 0.
Proof. unfold is_digit. intros H. bool_to_prop. lia. Qed.

Lemma digits_fine s : forall n k,
  (length (digits_loop n k s).2 <= length s)%nat
  /\ (is_digit (peek s) = true -> (length (digits_loop n k s).2 < length s)%nat)
  /\ (well_escaped s = true -> well_escaped (digits_loop n k s).2 = true).
Proof.
  induction s as [|c s IH]; intros n k; cbn [digits_loop peek]; [done|].
  destruct (is_digit c) eqn:E; cbn [snd length].
  - destruct (IH (fadd (fmul n f10) (of_int (c - 48))) (k + 1)) as (H1 & _ & H3).
    split_and!; [lia|lia|]. intros H. apply H3. rewrite we_cons in H; [done|]. by apply is_digit_not.
  - split_and!; [lia|done|done].
Qed.

Lemma exponent_fine s : forall k,
  (length (exponent_loop k s).2 <= length s)%nat
  /\ (well_escaped s = true -> well_escaped (exponent_loop k s).2 = true).
Proof.
  induction s as [|c s IH]; intros k; cbn [exponent_loop]; [done|].
  destruct (is_digit c) eqn:E; cbn [snd length]; [|by split].
  destruct (IH (s32 (k * 10 + (c - 48)))) as (H1 & H2). split; [lia|]. intros H. apply H2.
  rewrite we_cons in H; [done|]. by apply is_digit_not.
Qed.

(** ** Escapes *)

Lemma is_hex_Some c : is_hex c = true -> exists d, hex_digit c = Some d.
Proof. unfold is_hex. destruct (hex_digit c); [eauto|done]. Qed.

Lemma hex_digit_cases c d :
  hex_digit c = Some d -> (48 <= c <= 57 \/ 97 <= c <= 102 \/ 65 <= c <= 70) /\ 0 <= d < 16.
Proof.
  unfold hex_digit, is_digit. repeat (case_if; [intros [= <-]; bool_to_prop; lia|]). done.
Qed.

(** Four hexadecimal digits are read. *)
Lemma sscanf_hex h1 h2 h3 h4 s :
  is_hex h1 && is_hex h2 && is_hex h3 && is_hex h4 = true ->
  exists v, sscanf_4x (h1 :: h2 :: h3 :: h4 :: s) = Some v.
Proof.
  intros H. apply andb_true_iff in H as [[[H1 H2]%andb_true_iff H3]%andb_true_iff H4].
  apply is_hex_Some in H1 as [d1 H1], H2 as [d2 H2], H3 as [d3 H3], H4 as [d4 H4].
  destruct (hex_digit_cases _ _ H1) as [C1 _], (hex_digit_cases _ _ H2) as [C2 _].
  unfold sscanf_4x.
  assert (skip_space (h1 :: h2 :: h3 :: h4 :: s) = h1 :: h2 :: h3 :: h4 :: s) as ->.
  { cbn [skip_space]. rewrite (proj2 (Z.eqb_neq h1 32)), (proj2 (Z.leb_gt h1 13)) by lia. by rewrite andb_false_r. }
  cbn [peek tail]. rewrite (proj2 (Z.eqb_neq h1 45)), (proj2 (Z.eqb_neq h1 43)) by lia. cbv iota beta zeta.
  cbn [peek tail]. rewrite (proj2 (Z.eqb_neq h2 120)), (proj2 (Z.eqb_neq h2 88)), andb_false_r by lia.
  cbn [hex_run]. rewrite H1, H2, H3, H4. cbn [hex_run mbind option_bind]. eauto.
Qed.

Lemma utf8_length_le uc : (length (utf8 uc) <= 4)%nat.
Proof. unfold utf8. repeat case_if; simpl; lia. Qed.

Lemma utf8_length_3 uc : uc < 65536 -> (length (utf8 uc) <= 3)%nat.
Proof. intros H. unfold utf8. repeat case_if; simpl; lia. Qed.

Lemma hex_not c : is_hex c = true -> c <> 34 /\ c <> 92.
Proof. intros [d H]%is_hex_Some. apply hex_digit_cases in H. lia. Qed.

(** [prescan] over an escape [\u]. *)
Lemma prescan_u h1 h2 h3 h4 s n :
  is_hex h1 && is_hex h2 && is_hex h3 && is_hex h4 = true ->
  prescan n (92 :: 117 :: h1 :: h2 :: h3 :: h4 :: s) = prescan (n + 5) s.
Proof.
  intros H. apply andb_true_iff in H as [[[H1 H2]%andb_true_iff H3]%andb_true_iff H4].
  apply hex_not in H1 as [? ?], H2 as [? ?], H3 as [? ?], H4 as [? ?]. simpl.
  repeat (rewrite (proj2 (Z.eqb_neq _ 34)), (proj2 (Z.eqb_neq _ 92)) by done). f_equal. lia.
Qed.

Lemma we_u s : well_escaped (92 :: 117 :: s) = true ->
  exists h1 h2 h3 h4 s', s = h1 :: h2 :: h3 :: h4 :: s'
    /\ is_hex h1 && is_hex h2 && is_hex h3 && is_hex h4 = true /\ well_escaped s' = true.
Proof.
  simpl. destruct s as [|h1 [|h2 [|h3 [|h4 s]]]]; try done. intros [H1 H2]%andb_true_iff.
  by exists h1, h2, h3, h4, s.
Qed.

(** A complete escape [\u], and the next one when it is the second half of a
    character. *)
Lemma escape_u_fine uc uc2 s :
  well_escaped (92 :: 117 :: s) = true ->
  exists bs uc' uc2' h s' j,
    escape_u uc uc2 (117 :: s) = Some (bs, uc', uc2', h :: s')
    /\ well_escaped s' = true /\ (length s' <= length s)%nat
    /\ Z.of_nat (length bs) <= j /\ (forall n, prescan n (92 :: 117 :: s) = prescan (n + j) s').
Proof.
  intros Hw. destruct (we_u s Hw) as (h1 & h2 & h3 & h4 & s3 & -> & Hh & Hw3).
  destruct (sscanf_hex h1 h2 h3 h4 s3 Hh) as [v Ev]. unfold escape_u. cbn [tail]. rewrite Ev.
  change (117 :: h1 :: h2 :: h3 :: h4 :: s3) with ([117; h1; h2; h3] ++ h4 :: s3).
  change (advance 4) with (advance (length [117; h1; h2; h3])). rewrite advance_app. cbn [mbind option_bind].
  assert (Hp : forall n, prescan n (92 :: [117; h1; h2; h3] ++ h4 :: s3) = prescan (n + 5) s3).
  { intros n. by apply prescan_u. }
  case_if.
  { exists [], (Some v), uc2, h4, s3, 5. split_and!; [done|done|simpl; lia|simpl; lia|done]. }
  case_if.
  2:{ exists (utf8 v), (Some (shifted v)), uc2, h4, s3, 5. pose proof (utf8_length_le v).
      split_and!; [done|done|simpl; lia|simpl; lia|done]. }
  case_if.
  { exists [], (Some v), uc2, h4, s3, 5. split_and!; [done|done|simpl; lia|simpl; lia|done]. }
  case_if.
  { exists [], (Some v), uc2, h4, s3, 5. split_and!; [done|done|simpl; lia|simpl; lia|done]. }
  destruct s3 as [|b [|u s4]]; [done|done|]. cbn [peek tail] in *. bool_to_prop. subst b u.
  destruct (we_u s4 Hw3) as (g1 & g2 & g3 & g4 & s5 & -> & Hg & Hw5).
  destruct (sscanf_hex g1 g2 g3 g4 s5 Hg) as [v2 Ev2]. rewrite Ev2.
  change (h4 :: 92 :: 117 :: g1 :: g2 :: g3 :: g4 :: s5) with ([h4; 92; 117; g1; g2; g3] ++ g4 :: s5).
  change (advance 6) with (advance (length [h4; 92; 117; g1; g2; g3])). rewrite advance_app. cbn [mbind option_bind].
  assert (Hp2 : forall n, prescan n (92 :: [117; h1; h2; h3] ++ h4 :: 92 :: 117 :: g1 :: g2 :: g3 :: g4 :: s5)
                = prescan (n + 10) s5).
  { intros n. rewrite Hp, prescan_u by done. f_equal. lia. }
  case_if.
  { eexists [], _, _, g4, s5, 10. split_and!; [done|done|simpl; lia|simpl; lia|done]. }
  set (w := 65536 + _). pose proof (utf8_length_le w). exists (utf8 w), (Some (shifted w)), (Some v2), g4, s5, 10.
  split_and!; [done|done|simpl; lia|lia|done].
Qed.

Lemma unescape_fine fuel : forall uc uc2 s,
  (length s <= fuel)%nat -> well_escaped s = true ->
  exists out rest k, unescape fuel uc uc2 s = Some (out, rest)
    /\ (forall n, prescan n s = Some (n + k)) /\ Z.of_nat (length out) <= k
    /\ well_escaped rest = true.
Proof.
  induction fuel as [|fuel IH]; intros uc uc2 s Hf Hw; (destruct s as [|c s];
    [exists [], [], 0; split_and!; [done|intros n; simpl; f_equal; lia|done|done]|]); [simpl in Hf; lia|].
  cbn [unescape prescan]. destruct (Z.eqb_spec c 34) as [->|Hq].
  { exists [], (34 :: s), 0. split_and!; [done|intros n; f_equal; lia|done|done]. }
  destruct (Z.eqb_spec c 92) as [->|Hb].
  2:{ rewrite we_cons in Hw by done. destruct (IH uc uc2 s) as (out & rest & k & -> & Hp & Hk & Hr); [simpl in Hf; lia|done|].
      cbn [mbind option_bind]. exists (c :: out), rest, (k + 1).
      split_and!; [done|intros n; rewrite Hp; f_equal; lia|simpl; lia|done]. }
  destruct s as [|e s]; [done|]. destruct (Z.eqb_spec e 117) as [->|He].
  - destruct (escape_u_fine uc uc2 s Hw) as (bs & uc' & uc2' & h & s' & j & -> & Hw' & Hl & Hbs & Hp).
    cbn [mbind option_bind]. change (h :: s') with ([h] ++ s') at 1. change (advance 1) with (advance (length [h])).
    rewrite advance_app. cbn [mbind option_bind].
    destruct (IH uc' uc2' s') as (out & rest & k & -> & Hp' & Hk & Hr); [simpl in Hf; lia|done|].
    cbn [mbind option_bind]. exists (bs ++ out), rest, (j + k).
    split_and!; [done| |rewrite length_app; lia|done].
    intros n. specialize (Hp n). cbn [prescan] in Hp. change (92 =? 34) with false in Hp. change (92 =? 92) with true in Hp.
    cbv iota in Hp. rewrite Hp, Hp'. f_equal. lia.
  - assert (Hw' : well_escaped s = true).
    { cbn [well_escaped] in Hw. change (92 =? 92) with true in Hw. cbv iota in Hw.
      by rewrite (proj2 (Z.eqb_neq e 117)) in Hw. }
    destruct (IH uc uc2 s) as (out & rest & k & -> & Hp & Hk & Hr); [simpl in Hf; lia|done|].
    cbn [mbind option_bind]. exists (escape_char e :: out), rest, (k + 1).
    split_and!; [done|intros n; rewrite Hp; f_equal; lia|simpl; lia|done].
Qed.

(** The text left over is never longer. *)
Lemma advance_length n s s' : advance n s = Some s' -> (length s' + n = length s)%nat.
Proof. unfold advance. case_decide; [|done]. intros [= <-]. rewrite length_drop. lia. Qed.

Lemma escape_u_length uc uc2 s bs uc' uc2' s' :
  escape_u uc uc2 s = Some (bs, uc', uc2', s') -> (length s' <= length s)%nat.
Proof.
  unfold escape_u. intros E. apply bind_Some in E as (s1 & A1%advance_length & E).
  apply bind_Some in E as (v & _ & E). case_if; [by simplify_eq; lia|]. case_if; [|by simplify_eq; lia].
  destruct s1 as [|c s1]; [done|]. case_if; [by simplify_eq; lia|]. case_if; [by simplify_eq; lia|].
  apply bind_Some in E as (s2 & A2%advance_length & E). apply bind_Some in E as (v2 & _ & E).
  case_if; simplify_eq; lia.
Qed.

Lemma unescape_length fuel : forall uc uc2 s out rest,
  unescape fuel uc uc2 s = Some (out, rest) -> (length rest <= length s)%nat.
Proof.
  induction fuel as [|fuel IH]; intros uc uc2 s out rest; destruct s as [|c s]; cbn [unescape].
  { by intros [= <- <-]. }
  { case_if; [by intros [= <- <-]|done]. }
  { by intros [= <- <-]. }
  case_if; [by intros [= <- <-]|]. case_if.
  - destruct s as [|e s]; [done|]. case_if; intros E.
    + apply bind_Some in E as ([[[bs u] u2] s1] & A%escape_u_length & E).
      apply bind_Some in E as (s2 & B%advance_length & E). apply bind_Some in E as ([o r] & C%IH & E).
      simplify_eq. simpl in *. lia.
    + apply bind_Some in E as ([o r] & C%IH & E). simplify_eq. simpl in *. lia.
  - intros E. apply bind_Some in E as ([o r] & C%IH & E). simplify_eq. simpl in *. lia.
Qed.

(** The rounds are never used up: with more of them the result is the same. *)
Lemma unescape_fuel f : forall g uc uc2 s, (length s <= f)%nat -> (length s <= g)%nat ->
  unescape f uc uc2 s = unescape g uc uc2 s.
Proof.
  induction f as [|f IH]; intros [|g] uc uc2 [|c s] Hf Hg; simpl in Hf, Hg; try lia; try done.
  cbn [unescape]. destruct (c =? 34); [done|]. destruct (c =? 92).
  - destruct s as [|e s]; [done|]. simpl in Hf, Hg. destruct (e =? 117).
    + destruct (escape_u uc uc2 (e :: s)) as [[[[bs u] u2] s1]|] eqn:E; [|done]. apply escape_u_length in E.
      cbn [mbind option_bind]. destruct (advance 1 s1) as [s2|] eqn:A; [|done]. apply advance_length in A.
      cbn [mbind option_bind]. simpl in E. by rewrite (IH g) by lia.
    + by rewrite (IH g) by lia.
  - by rewrite (IH g) by lia.
Qed.

(** ** The parser *)

Section total.
Variable pow10 : Z -> double.
Variable big_int : double -> Z.
(** Whether the escapes of the text are known to be complete. *)
Variable complete : bool.

Definition wes (s : cstr) : Prop := complete = true -> well_escaped s = true.

(** The result of parsing [s]: something was consumed, unless there was an error;
    a fault only when escapes may be incomplete. *)
Definition fine {A} (s : cstr) (r : presult A) : Prop :=
  match r with
  | Fault => complete = false
  | OutOfFuel => False
  | Err _ => True
  | Ok _ rest => wes rest /\ (length rest < length s)%nat
  end.

Lemma pbind_fine {A B} s s' (m : presult A) (k : A -> cstr -> presult B) :
  fine s m -> (forall a r, wes r -> (length r < length s)%nat -> fine s' (k a r)) -> fine s' (pbind m k).
Proof. destruct m; simpl; try done. intros [H1 H2] Hk. by apply Hk. Qed.

Lemma fine_longer {A} s s' (r : presult A) : fine s r -> (length s <= length s')%nat -> fine s' r.
Proof. destruct r; simpl; try done. intros [? ?] ?. split; [done|lia]. Qed.

Lemma wes_tail s : wes s -> peek s <> 92 -> wes (tail s).
Proof. intros H Hp E. apply we_tail; auto. Qed.

Lemma wes_skip s : wes s -> wes (skip s).
Proof. intros H E. apply we_skip; auto. Qed.

(** Consuming the character [c]. *)
Lemma eat c s : (peek s =? c) = true -> c <> 92 -> c <> 0 -> wes s ->
  wes (tail s) /\ (length (tail s) < length s)%nat.
Proof.
  intros E%Z.eqb_eq H1 H2 Hw. split; [apply wes_tail; [done|congruence]|apply length_tail; congruence].
Qed.

Lemma parse_string_fine i s : wes s -> fine s (parse_string i s).
Proof.
  intros Hw. unfold parse_string. destruct (Z.eqb_spec (peek s) 34) as [E|]; [|done]. cbn [negb].
  destruct (eat 34 s) as [Hw' Hl]; [by apply Z.eqb_eq|done|done|done|]. set (ptr := tail s) in *.
  assert (Hend : forall rest, wes rest -> (length rest <= length ptr)%nat ->
    wes (if peek rest =? 34 then tail rest else rest)
    /\ (length (if (peek rest =? 34)%Z then tail rest else rest) < length s)%nat).
  { intros rest Hr Hlr. destruct (peek rest =? 34) eqn:Eq; [|split; [done|lia]].
    destruct (eat 34 rest Eq) as [? ?]; [done|done|done|]. split; [done|lia]. }
  unfold fine. destruct (prescan 0 ptr) as [len|] eqn:Ep.
  2:{ destruct complete eqn:Ec; [|done]. destruct (unescape_fine (length ptr) None None ptr) as (out & rest & k & _ & Hp & _);
      [done|auto|]. by rewrite Hp in Ep. }
  destruct (unescape (length ptr) None None ptr) as [[out rest]|] eqn:Eu.
  2:{ destruct complete eqn:Ec; [|done]. destruct (unescape_fine (length ptr) None None ptr) as (o & r & k & E' & _);
      [done|auto|]. congruence. }
  destruct (Z.ltb_spec len (Z.of_nat (length out))) as [Hlt|Hge].
  { destruct complete eqn:Ec; [|done]. destruct (unescape_fine (length ptr) None None ptr) as (o & r & k & E' & Hp & Hk & _);
      [done|auto|]. rewrite E' in Eu. simplify_eq. rewrite Hp in Ep. simplify_eq. lia. }
  apply Hend; [|by eapply unescape_length]. intros Ec.
  destruct (unescape_fine (length ptr) None None ptr) as (o & r & k & E' & _ & _ & Hr); [done|auto|].
  rewrite E' in Eu. by simplify_eq.
Qed.

Lemma parse_number_fine i s :
  wes s -> (peek s =? 45) || is_digit (peek s) = true -> fine s (parse_number pow10 big_int i s).
Proof.
  intros Hw Hc. unfold parse_number.
  (* the sign *)
  set (s1 := if peek s =? 45 then tail s else s).
  assert (H1 : wes s1 /\ (length s1 <= length s)%nat /\ ((length s1 < length s)%nat \/ is_digit (peek s1) = true)).
  { unfold s1. destruct (peek s =? 45) eqn:E.
    - destruct (eat 45 s E) as [? ?]; [done|done|done|]. split_and!; [done|lia|by left].
    - split_and!; [done|done|by right]. }
  clearbody s1. destruct H1 as (Hw1 & Hl1 & Hd1).
  set (s2 := if peek s1 =? 48 then tail s1 else s1).
  assert (H2 : wes s2 /\ (length s2 <= length s1)%nat
               /\ ((length s2 < length s)%nat \/ is_digit (peek s2) = true /\ peek s2 <> 48)).
  { unfold s2. destruct (peek s1 =? 48) eqn:E.
    - destruct (eat 48 s1 E) as [? ?]; [done|done|done|]. split_and!; [done|lia|left; lia].
    - apply Z.eqb_neq in E. split_and!; [done|done|]. destruct Hd1; [left; lia|by right]. }
  clearbody s2. destruct H2 as (Hw2 & Hl2 & Hd2).
  destruct (if (49 <=? peek s2) && (peek s2 <=? 57) then digits_loop (S754_zero false) 0 s2
            else (S754_zero false, 0, s2)) as [[n3 k3] s3] eqn:E3.
  assert (H3 : wes s3 /\ (length s3 < length s)%nat).
  { destruct ((49 <=? peek s2) && (peek s2 <=? 57)) eqn:Ed.
    - destruct (digits_fine s2 (S754_zero false) 0) as (_ & F2 & F3). rewrite E3 in F2, F3. cbn [snd] in F2, F3.
      split; [intros Hcp; auto|]. specialize (F2 ltac:(unfold is_digit; bool_to_prop; apply andb_true_iff; rewrite !Z.leb_le; lia)). lia.
    - injection E3 as _ _ <-. split; [done|]. destruct Hd2 as [?|[Hd H48]]; [done|]. unfold is_digit in Hd.
      exfalso. bool_to_prop. lia. }
  clear E3. destruct H3 as [Hw3 Hl3].
  destruct (if (peek s3 =? 46) && is_digit (peek (tail s3)) then digits_loop n3 0 (tail s3)
            else (n3, 0, s3)) as [[n4 k4] s4] eqn:E4.
  assert (H4 : wes s4 /\ (length s4 < length s)%nat).
  { destruct ((peek s3 =? 46) && is_digit (peek (tail s3))) eqn:Ed; [|by injection E4 as _ _ <-].
    apply andb_true_iff in Ed as [Ed _]. destruct (eat 46 s3 Ed) as [? ?]; [done|done|done|].
    destruct (digits_fine (tail s3) n3 0) as (F1 & _ & F3). rewrite E4 in F1, F3. cbn [snd] in F1, F3.
    split; [intros Hcp; auto|lia]. }
  clear E4. destruct H4 as [Hw4 Hl4].
  destruct (if (peek s4 =? 101) || (peek s4 =? 69) then _ else _) as [[sub sg] s5] eqn:E5.
  cbn [fine]. destruct ((peek s4 =? 101) || (peek s4 =? 69)) eqn:Ed; [|by injection E5 as _ _ <-].
  assert (H5 : wes (tail s4) /\ (length (tail s4) <= length s4)%nat).
  { apply orb_true_iff in Ed as [Ed|Ed]; destruct (eat _ s4 Ed) as [? ?]; try done; split; (done || lia). }
  destruct H5 as [Hw5 Hl5]. set (s6 := tail s4) in *. clearbody s6.
  destruct (if peek s6 =? 43 then _ else _) as [sgn s7] eqn:E7.
  assert (H7 : wes s7 /\ (length s7 <= length s6)%nat).
  { destruct (peek s6 =? 43) eqn:Ea; [|destruct (peek s6 =? 45) eqn:Eb]; injection E7 as _ <-; [| |done].
    - destruct (eat 43 s6 Ea) as [? ?]; [done|done|done|]. split; [done|lia].
    - destruct (eat 45 s6 Eb) as [? ?]; [done|done|done|]. split; [done|lia]. }
  destruct H7 as [Hw7 Hl7]. destruct (exponent_fine s7 0) as [F1 F2].
  destruct (exponent_loop 0 s7) as [su s8]. injection E5 as _ _ <-. cbn [snd] in *. split; [intros Hcp; auto|lia].
Qed.

Lemma literal_fine {A} (a : A) lit s :
  starts_with lit s = true -> Forall (fun c => c <> 92) lit -> lit <> [] -> wes s ->
  fine s (Ok a (drop (length lit) s)).
Proof.
  intros E%bool_decide_eq_true Hl Hn Hw. pose proof (take_drop (length lit) s) as Hs. rewrite E in Hs. split.
  - intros Hc. specialize (Hw Hc). rewrite <- Hs, we_app in Hw; done.
  - rewrite <- Hs at 2. rewrite length_app. destruct lit; [done|simpl; lia].
Qed.

Local Abbreviation parse_value := (parse_value pow10 big_int).
Local Abbreviation parse_array := (parse_array pow10 big_int).
Local Abbreviation array_rest := (array_rest pow10 big_int).
Local Abbreviation parse_object := (parse_object pow10 big_int).
Local Abbreviation parse_member := (parse_member pow10 big_int).
Local Abbreviation object_rest := (object_rest pow10 big_int).

(** Two units of fuel for every byte, and one more, are enough. *)
Record parser_fine (fuel : nat) : Prop := mkPF {
  pf_value i s : wes s -> (2 * length s + 1 <= fuel)%nat -> fine s (parse_value fuel i s);
  pf_array i s : wes s -> (1 <= length s)%nat -> (2 * length s <= fuel)%nat -> fine s (parse_array fuel i s);
  pf_array_rest cs s : wes s -> (2 * length s + 1 <= fuel)%nat -> fine s (array_rest fuel cs s);
  pf_object i s : wes s -> (1 <= length s)%nat -> (2 * length s <= fuel)%nat -> fine s (parse_object fuel i s);
  pf_member s : wes s -> (2 * length s + 1 <= fuel)%nat -> fine s (parse_member fuel s);
  pf_object_rest cs s : wes s -> (2 * length s + 1 <= fuel)%nat -> fine s (object_rest fuel cs s)
}.

Lemma peek_pos s c : (peek s =? c) = true -> c <> 0 -> (1 <= length s)%nat.
Proof. intros E%Z.eqb_eq Hc. destruct s; simpl in *; [congruence|lia]. Qed.

Lemma parser_ends fuel : parser_fine fuel.
Proof.
  induction fuel as [|fuel IH]; [split; intros; lia|]. split.
  - intros i s Hw Hf. cbn [CJson.parse_value].
    destruct (starts_with lit_null s) eqn:E1; [apply (literal_fine _ lit_null); [done|by repeat constructor|done|done]|].
    destruct (starts_with lit_false s) eqn:E2; [apply (literal_fine _ lit_false); [done|by repeat constructor|done|done]|].
    destruct (starts_with lit_true s) eqn:E3; [apply (literal_fine _ lit_true); [done|by repeat constructor|done|done]|].
    case_if; [by apply parse_string_fine|]. case_if; [by apply parse_number_fine|].
    destruct (peek s =? 91) eqn:E4; [apply (pf_array _ IH); [done|by eapply peek_pos|lia]|].
    destruct (peek s =? 123) eqn:E5; [apply (pf_object _ IH); [done|by eapply peek_pos|lia]|done].
  - intros i s Hw H1 Hf. cbn [CJson.parse_array]. destruct (peek s =? 91) eqn:E; [|done]. cbn [negb].
    destruct (eat 91 s E) as [Hw' Hl]; [done|done|done|]. set (s' := skip (tail s)).
    assert (Hs' : wes s' /\ (length s' <= length (tail s))%nat) by (split; [by apply wes_skip|apply length_skip]).
    destruct Hs' as [Hw2 Hl2]. destruct (peek s' =? 93) eqn:E2.
    { destruct (eat 93 s' E2) as [? ?]; [done|done|done|]. split; [done|lia]. }
    pose proof (length_skip s').
    eapply pbind_fine; [apply (pf_value _ IH); [by apply wes_skip|lia]|]. intros c r Hr Hlr. pose proof (length_skip r).
    eapply pbind_fine; [apply (pf_array_rest _ IH); [by apply wes_skip|lia]|]. intros cs r2 Hr2 Hlr2.
    split; [done|lia].
  - intros cs s Hw Hf. cbn [CJson.array_rest]. destruct (peek s =? 44) eqn:E.
    + destruct (eat 44 s E) as [Hw' Hl]; [done|done|done|]. pose proof (length_skip (tail s)).
      eapply pbind_fine; [apply (pf_value _ IH); [by apply wes_skip|lia]|]. intros c r Hr Hlr. pose proof (length_skip r).
      eapply fine_longer; [apply (pf_array_rest _ IH); [by apply wes_skip|lia]|lia].
    + destruct (peek s =? 93) eqn:E2; [|done]. by destruct (eat 93 s E2) as [? ?].
  - intros i s Hw H1 Hf. cbn [CJson.parse_object]. destruct (peek s =? 123) eqn:E; [|done]. cbn [negb].
    destruct (eat 123 s E) as [Hw' Hl]; [done|done|done|]. set (s' := skip (tail s)).
    assert (Hs' : wes s' /\ (length s' <= length (tail s))%nat) by (split; [by apply wes_skip|apply length_skip]).
    destruct Hs' as [Hw2 Hl2]. destruct (peek s' =? 125) eqn:E2.
    { destruct (eat 125 s' E2) as [? ?]; [done|done|done|]. split; [done|lia]. }
    eapply pbind_fine; [apply (pf_member _ IH); [done|lia]|]. intros c r Hr Hlr. pose proof (length_skip r).
    eapply pbind_fine; [apply (pf_object_rest _ IH); [by apply wes_skip|lia]|]. intros cs r2 Hr2 Hlr2.
    split; [done|lia].
  - intros s Hw Hf. cbn [CJson.parse_member]. pose proof (length_skip s).
    eapply pbind_fine; [apply parse_string_fine; by apply wes_skip|]. intros c r Hr Hlr.
    pose proof (length_skip r). destruct (peek (skip r) =? 58) eqn:E; [|done]. cbn [negb].
    destruct (eat 58 (skip r) E) as [Hw' Hl]; [done|done|by apply wes_skip|]. pose proof (length_skip (tail (skip r))).
    eapply fine_longer; [apply (pf_value _ IH); [by apply wes_skip|lia]|lia].
  - intros cs s Hw Hf. cbn [CJson.object_rest]. destruct (peek s =? 44) eqn:E.
    + destruct (eat 44 s E) as [Hw' Hl]; [done|done|done|].
      eapply pbind_fine; [apply (pf_member _ IH); [done|lia]|]. intros c r Hr Hlr. pose proof (length_skip r).
      eapply fine_longer; [apply (pf_object_rest _ IH); [by apply wes_skip|lia]|lia].
    + destruct (peek s =? 125) eqn:E2; [|done]. by destruct (eat 125 s E2) as [? ?].
Qed.

Lemma parse_ends text require_null_terminated : wes text ->
  match cJSON_ParseWithOpts pow10 big_int text require_null_terminated with
  | Fault => complete = false
  | OutOfFuel => False
  | _ => True
  end.
Proof.
  intros Hw. unfold cJSON_ParseWithOpts. pose proof (length_skip text) as Hl.
  pose proof (pf_value _ (parser_ends (2 * length text + 2)) new_item (skip text) (wes_skip _ Hw) ltac:(lia)) as Hv.
  destruct (CJson.parse_value _ _ _ _ _) as [| |ep|c r]; [done|done|done|]. cbn [pbind].
  destruct require_null_terminated; [|done]. by destruct (skip r).
Qed.
End total.
