(* ===== verification/JsonTypes.v ===== *)
(** * libckits/cJSON.c: what the parser builds

    The parser of [CJson] on arbitrary text: whatever it accepts is a well-typed
    tree (kinds, value strings, names and children go together as [cJSON.h] says)
    and every string in it is a C string; and it ends ([JsonTotal]). *)

From S2P Require Import Prelude Doubles CJson JsonTotal.
From Stdlib Require Import Floats.SpecFloat.

Section typed.
Variable pow10 : Z -> double.
Variable big_int : double -> Z.

(** The trees the parser can build. *)
#[warnings="-register-all"]
Inductive typed : item -> Prop :=
| typed_null n : typed (mkItem cJSON_NULL None 0 zero n [])
| typed_false n : typed (mkItem cJSON_False None 0 zero n [])
| typed_true n : typed (mkItem cJSON_True None 1 zero n [])
| typed_number d n : typed (mkItem cJSON_Number None (to_int big_int d) d n [])
| typed_string s n : is_cstr s -> typed (mkItem cJSON_String (Some s) 0 zero n [])
| typed_array n cs : Forall (fun c => typed c /\ string c = None) cs ->
    typed (mkItem cJSON_Array None 0 zero n cs)
| typed_object n cs : Forall (fun c => typed c /\ exists s, string c = Some s /\ is_cstr s) cs ->
    typed (mkItem cJSON_Object None 0 zero n cs).

(** ** Text that is left over *)

Lemma cstr_tail s : is_cstr s -> is_cstr (tail s).
Proof. intros H. destruct H; [constructor|done]. Qed.

Lemma cstr_drop n s : is_cstr s -> is_cstr (drop n s).
Proof. apply Forall_drop. Qed.

Lemma cstr_skip s : is_cstr s -> is_cstr (skip s).
Proof. induction 1; simpl; [constructor|]. destruct (_ <=? _); [done|by constructor]. Qed.

Lemma cstr_advance n s s' : is_cstr s -> advance n s = Some s' -> is_cstr s'.
Proof. unfold advance. intros H E. case_decide; [|done]. injection E as <-. by apply cstr_drop. Qed.

Lemma cstr_digits n k s : is_cstr s -> is_cstr (digits_loop n k s).2.
Proof.
  intros H. revert n k. induction H as [|c s Hc H IH]; intros n k; simpl; [constructor|].
  destruct (is_digit c); [done|by constructor].
Qed.

Lemma cstr_exponent k s : is_cstr s -> is_cstr (exponent_loop k s).2.
Proof.
  intros H. revert k. induction H as [|c s Hc H IH]; intros k; simpl; [constructor|].
  destruct (is_digit c); [done|by constructor].
Qed.

(** ** Characters *)

(** A byte with its top bit set. *)
Lemma top_bit x : Z.testbit x 7 = true -> 0 < u8 x < 256.
Proof.
  intros H. pose proof (wrapu_range 8 x ltac:(lia)) as R. unfold in_u in R.
  change (2 ^ 8) with 256 in R. assert (u8 x <> 0); [|lia].
  intros E. assert (T : Z.testbit (u8 x) 7 = true)
    by (unfold wrapu; rewrite Z.mod_pow2_bits_low; [done|lia]).
  by rewrite E, Z.bits_0 in T.
Qed.

Lemma utf8_cstr uc : 0 <= uc -> uc <> 0 -> is_cstr (utf8 uc).
Proof.
  intros H0 H1. unfold utf8, low6.
  assert (L : forall x, 0 < u8 (Z.land (Z.lor x 128) 191) < 256).
  { intros x. apply top_bit. rewrite Z.land_spec, Z.lor_spec. by rewrite orb_true_r. }
  assert (M : forall x c, Z.testbit c 7 = true -> 0 < u8 (Z.lor x c) < 256).
  { intros x c Hc. apply top_bit. rewrite Z.lor_spec, Hc. apply orb_true_r. }
  destruct (Z.ltb_spec uc 128).
  - rewrite Z.lor_0_r. unfold wrapu. rewrite Z.mod_small by lia. repeat constructor; lia.
  - destruct (uc <? 2048); [|destruct (uc <? 65536)]; repeat (apply Forall_cons; split); auto;
      try constructor; by apply M.
Qed.

Lemma hex_digit_range c d : hex_digit c = Some d -> 0 <= d.
Proof.
  unfold hex_digit, is_digit. repeat (case_if; [intros [= <-]; lia|]). done.
Qed.

Lemma hex_run_pos w acc any s v : 0 <= acc -> hex_run w acc any s = Some v -> 0 <= v.
Proof.
  revert acc any s. induction w as [|w IH]; intros acc any s Ha; simpl.
  { destruct any; [intros [= <-]; done|done]. }
  destruct s as [|c s]; [destruct any; [intros [= <-]; done|done]|].
  destruct (hex_digit c) as [d|] eqn:E; [|destruct any; [intros [= <-]; done|done]].
  apply hex_digit_range in E. apply IH. lia.
Qed.

Lemma sscanf_pos s v : sscanf_4x s = Some v -> 0 <= v.
Proof.
  unfold sscanf_4x. destruct (if peek (skip_space s) =? 45 then _ else _) as [[neg w] s'].
  destruct (if (peek s' =? 48) && _ then _ else _) as [x|] eqn:E; [|done].
  cbn [mbind option_bind]. assert (0 <= x) by (case_if; by eapply hex_run_pos in E).
  intros [= <-]. destruct neg; [|done]. apply wrapu_range. lia.
Qed.

Lemma shifted_pos v : 0 <= v -> 0 <= shifted v.
Proof. intros H. unfold shifted. repeat case_if; try done; by apply Z.shiftr_nonneg. Qed.

Definition upos (u : option Z) : Prop := forall v, u = Some v -> 0 <= v.

Lemma upos_None : upos None.
Proof. intros v H. discriminate H. Qed.

Lemma escape_u_cstr uc uc2 s bs uc' uc2' s' :
  upos uc -> upos uc2 -> is_cstr s -> escape_u uc uc2 s = Some (bs, uc', uc2', s') ->
  is_cstr bs /\ upos uc' /\ upos uc2' /\ is_cstr s'.
Proof.
  intros Hu Hu2 Hs. unfold escape_u.
  set (u := match sscanf_4x (tail s) with Some v => Some v | None => uc end).
  assert (Hup : upos u).
  { unfold u. destruct (sscanf_4x (tail s)) as [x|] eqn:E; [|done].
    intros v [= <-]. by eapply sscanf_pos. }
  clearbody u. destruct (advance 4 s) as [s1|] eqn:A1; [|done]. cbn [mbind option_bind].
  assert (Hs1 : is_cstr s1) by (by eapply cstr_advance).
  destruct u as [v|]; [|done]. cbn [mbind option_bind]. pose proof (Hup v eq_refl) as Hv.
  case_if; [intros [= <- <- <- <-]; split_and!; [constructor|done..]|].
  case_if; cycle 1.
  { intros [= <- <- <- <-]. split_and!; [apply utf8_cstr; lia| |done|done].
    intros x [= <-]. by apply shifted_pos. }
  destruct s1 as [|c s1]; [done|].
  case_if; [intros [= <- <- <- <-]; split_and!; [constructor|done..]|].
  case_if; [intros [= <- <- <- <-]; split_and!; [constructor|done..]|].
  set (u2 := match sscanf_4x (tail (tail s1)) with Some v => Some v | None => uc2 end).
  assert (Hup2 : upos u2).
  { unfold u2. destruct (sscanf_4x (tail (tail s1))) as [x|] eqn:E; [|done].
    intros v' [= <-]. by eapply sscanf_pos. }
  clearbody u2. destruct (advance 6 (c :: s1)) as [s2|] eqn:A2; [|done]. cbn [mbind option_bind].
  assert (Hs2 : is_cstr s2) by (by eapply cstr_advance).
  destruct u2 as [v2|]; [|done]. cbn [mbind option_bind]. pose proof (Hup2 v2 eq_refl) as Hv2.
  case_if; [intros [= <- <- <- <-]; split_and!; [constructor|done..]|].
  intros [= <- <- <- <-].
  assert (0 <= Z.lor (Z.shiftl (Z.land v 1023) 10) (Z.land v2 1023)).
  { apply Z.lor_nonneg. split; [apply Z.shiftl_nonneg|]; apply Z.land_nonneg; lia. }
  split_and!; [apply utf8_cstr; lia| |done|done]. intros x [= <-]. apply shifted_pos. lia.
Qed.

Lemma escape_char_range e : 0 < e < 256 -> 0 < escape_char e < 256.
Proof. intros He. unfold escape_char. repeat (case_if; [lia|]). done. Qed.

Lemma unescape_cstr fuel uc uc2 s out rest :
  upos uc -> upos uc2 -> is_cstr s -> unescape fuel uc uc2 s = Some (out, rest) ->
  is_cstr out /\ is_cstr rest.
Proof.
  revert uc uc2 s out rest.
  induction fuel as [|fuel IH]; intros uc uc2 s out rest Hu Hu2 Hs; destruct Hs as [|c s Hc Hs]; simpl.
  { intros [= <- <-]. by split; constructor. }
  { case_if; [|done]. intros [= <- <-]. by split; constructor. }
  { intros [= <- <-]. by split; constructor. }
  case_if; [intros [= <- <-]; by split; constructor|].
  case_if; cycle 1.
  { destruct (unescape fuel uc uc2 s) as [[o r]|] eqn:E; [|done]. simpl. intros [= <- <-].
    destruct (IH _ _ _ _ _ Hu Hu2 Hs E). split; [by constructor|done]. }
  pose proof Hs as Hs0. destruct Hs as [|e s He Hs]; [done|]. case_if; cycle 1.
  { destruct (unescape fuel uc uc2 s) as [[o r]|] eqn:E; [|done]. simpl. intros [= <- <-].
    destruct (IH _ _ _ _ _ Hu Hu2 Hs E). split; [|done]. constructor; [by apply escape_char_range|done]. }
  destruct (escape_u uc uc2 (e :: s)) as [[[[bs u] u2] s1]|] eqn:E1; [|done]. cbn [mbind option_bind].
  destruct (escape_u_cstr _ _ _ _ _ _ _ Hu Hu2 Hs0 E1) as (Hbs & Hu' & Hu2' & Hs1).
  destruct (advance 1 s1) as [s2|] eqn:A; [|done]. cbn [mbind option_bind].
  destruct (unescape fuel u u2 s2) as [[o r]|] eqn:E; [|done]. simpl. intros [= <- <-].
  destruct (IH _ _ _ _ _ Hu' Hu2' (cstr_advance _ _ _ Hs1 A) E). split; [by apply Forall_app|done].
Qed.

(** ** The parser *)

(** An item that holds nothing but perhaps a name. *)
Definition bare (t : Z) (n : option cstr) : item := mkItem t None 0 zero n [].

Lemma parse_string_typed t n str i rest :
  is_cstr str -> parse_string (bare t n) str = Ok i rest ->
  is_cstr rest /\ exists s, is_cstr s /\ i = mkItem cJSON_String (Some s) 0 zero n [].
Proof.
  intros Hs. unfold parse_string. case_if; [done|].
  destruct (prescan 0 (tail str)) as [len|]; [|done].
  destruct (unescape (length (tail str)) None None (tail str)) as [[out ptr]|] eqn:E; [|done].
  case_if; [done|]. intros [= <- <-].
  destruct (unescape_cstr _ _ _ _ _ _ upos_None upos_None (cstr_tail _ Hs) E) as [Ho Hp].
  split; [by case_if; [apply cstr_tail|]|]. by exists out.
Qed.

Lemma parse_number_typed t n num i rest :
  is_cstr num -> parse_number pow10 big_int (bare t n) num = Ok i rest ->
  is_cstr rest /\ typed i /\ string i = n.
Proof.
  intros Hs. unfold parse_number.
  assert (H1 : is_cstr (if peek num =? 45 then tail num else num)) by (case_if; [by apply cstr_tail|done]).
  set (s1 := if peek num =? 45 then tail num else num) in *. clearbody s1.
  assert (H2 : is_cstr (if peek s1 =? 48 then tail s1 else s1)) by (case_if; [by apply cstr_tail|done]).
  set (s2 := if peek s1 =? 48 then tail s1 else s1) in *. clearbody s2.
  destruct (if (49 <=? peek s2) && (peek s2 <=? 57) then _ else _) as [[x k] s3] eqn:E3.
  assert (H3 : is_cstr s3).
  { destruct ((49 <=? peek s2) && (peek s2 <=? 57)).
    - change s3 with (x, k, s3).2. rewrite <- E3. by apply cstr_digits.
    - by injection E3 as _ _ <-. }
  destruct (if (peek s3 =? 46) && is_digit (peek (tail s3)) then _ else _) as [[y fr] s4] eqn:E4.
  assert (H4 : is_cstr s4).
  { destruct ((peek s3 =? 46) && is_digit (peek (tail s3))).
    - change s4 with (y, fr, s4).2. rewrite <- E4. by apply cstr_digits, cstr_tail.
    - by injection E4 as _ _ <-. }
  destruct (if (peek s4 =? 101) || (peek s4 =? 69) then _ else _) as [[sub sg] s5] eqn:E5.
  assert (H5 : is_cstr s5).
  { destruct ((peek s4 =? 101) || (peek s4 =? 69)); [|by injection E5 as _ _ <-].
    set (s6 := tail s4) in *. assert (H6 : is_cstr s6) by (by apply cstr_tail). clearbody s6.
    destruct (if peek s6 =? 43 then _ else _) as [sgn s7] eqn:E7.
    assert (H7 : is_cstr s7).
    { destruct (peek s6 =? 43); [|destruct (peek s6 =? 45)]; injection E7 as _ <-;
        [by apply cstr_tail|by apply cstr_tail|done]. }
    pose proof (cstr_exponent 0 s7 H7) as H8. destruct (exponent_loop 0 s7) as [su s8].
    by injection E5 as _ _ <-. }
  intros [= <- <-]. split; [done|]. split; [constructor|done].
Qed.

Local Abbreviation parse_value := (parse_value pow10 big_int).
Local Abbreviation parse_array := (parse_array pow10 big_int).
Local Abbreviation array_rest := (array_rest pow10 big_int).
Local Abbreviation parse_object := (parse_object pow10 big_int).
Local Abbreviation parse_member := (parse_member pow10 big_int).
Local Abbreviation object_rest := (object_rest pow10 big_int).

Definition named_typed (n : option cstr) (i : item) : Prop := typed i /\ string i = n.
Definition element (c : item) : Prop := typed c /\ string c = None.
Definition member_typed (c : item) : Prop := typed c /\ exists s, string c = Some s /\ is_cstr s.

(** What a successful call of each of the six functions gives. *)
Record parser_typed (fuel : nat) : Prop := mkPT {
  pt_value t n s i rest : is_cstr s -> parse_value fuel (bare t n) s = Ok i rest ->
    is_cstr rest /\ named_typed n i;
  pt_array t n s i rest : is_cstr s -> parse_array fuel (bare t n) s = Ok i rest ->
    is_cstr rest /\ named_typed n i;
  pt_array_rest done s cs rest : is_cstr s -> Forall element done ->
    array_rest fuel done s = Ok cs rest -> is_cstr rest /\ Forall element cs;
  pt_object t n s i rest : is_cstr s -> parse_object fuel (bare t n) s = Ok i rest ->
    is_cstr rest /\ named_typed n i;
  pt_member s c rest : is_cstr s -> parse_member fuel s = Ok c rest ->
    is_cstr rest /\ member_typed c;
  pt_object_rest done s cs rest : is_cstr s -> Forall member_typed done ->
    object_rest fuel done s = Ok cs rest -> is_cstr rest /\ Forall member_typed cs
}.

Lemma pbind_Ok {A B} (m : presult A) (k : A -> cstr -> presult B) b rest :
  pbind m k = Ok b rest -> exists a r, m = Ok a r /\ k a r = Ok b rest.
Proof. destruct m; simpl; eauto; done. Qed.

Lemma parser_is_typed fuel : parser_typed fuel.
Proof.
  induction fuel as [|fuel IH]; [split; done|]. split.
  - intros t n s i rest Hs. simpl.
    case_if; [intros [= <- <-]; split; [by apply cstr_drop|by split; [constructor|]]|].
    case_if; [intros [= <- <-]; split; [by apply cstr_drop|by split; [constructor|]]|].
    case_if; [intros [= <- <-]; split; [by apply cstr_drop|by split; [constructor|]]|].
    case_if.
    { intros E. destruct (parse_string_typed _ _ _ _ _ Hs E) as (? & x & ? & ->).
      split; [done|]. by split; [constructor|]. }
    case_if; [by apply parse_number_typed|].
    case_if; [by apply (pt_array _ IH)|]. case_if; [by apply (pt_object _ IH)|done].
  - intros t n s i rest Hs. simpl. case_if; [done|].
    pose proof (cstr_skip _ (cstr_tail _ Hs)) as H1.
    case_if; [intros [= <- <-]; split; [by apply cstr_tail|by split; [repeat constructor|]]|].
    intros (c & r & E & (cs & r2 & E2 & E3)%pbind_Ok)%pbind_Ok. injection E3 as <- <-.
    destruct (pt_value _ IH _ _ _ _ _ (cstr_skip _ H1) E) as [Hr Hc].
    destruct (pt_array_rest _ IH _ _ _ _ (cstr_skip _ Hr) (proj2 (Forall_singleton element c) Hc) E2) as [Hr2 Hcs].
    split; [done|]. split; [by constructor|done].
  - intros dn s cs rest Hs Hd. simpl. case_if; cycle 1.
    { case_if; [|done]. intros [= <- <-]. split; [by apply cstr_tail|done]. }
    intros (c & r & E & E2)%pbind_Ok.
    destruct (pt_value _ IH _ _ _ _ _ (cstr_skip _ (cstr_tail _ Hs)) E) as [Hr Hc].
    eapply (pt_array_rest _ IH); [by apply cstr_skip| |done]. by apply Forall_app; rewrite Forall_singleton.
  - intros t n s i rest Hs. simpl. case_if; [done|].
    pose proof (cstr_skip _ (cstr_tail _ Hs)) as H1.
    case_if; [intros [= <- <-]; split; [by apply cstr_tail|by split; [repeat constructor|]]|].
    intros (c & r & E & (cs & r2 & E2 & E3)%pbind_Ok)%pbind_Ok. injection E3 as <- <-.
    destruct (pt_member _ IH _ _ _ H1 E) as [Hr Hc].
    destruct (pt_object_rest _ IH _ _ _ _ (cstr_skip _ Hr)
      (proj2 (Forall_singleton member_typed c) Hc) E2) as [Hr2 Hcs].
    split; [done|]. split; [by constructor|done].
  - intros s c rest Hs. simpl. intros (k & r & E & E2)%pbind_Ok.
    destruct (parse_string_typed _ _ _ _ _ (cstr_skip _ Hs) E) as (Hr & x & Hx & ->).
    case_if; [done|]. 
    destruct (pt_value _ IH _ _ _ _ _ (cstr_skip _ (cstr_tail _ (cstr_skip _ Hr))) E2) as [Hr2 [Hc Hn]].
    split; [done|]. split; [done|]. eauto.
  - intros dn s cs rest Hs Hd. simpl. case_if; cycle 1.
    { case_if; [|done]. intros [= <- <-]. split; [by apply cstr_tail|done]. }
    intros (c & r & E & E2)%pbind_Ok.
    destruct (pt_member _ IH _ _ _ (cstr_tail _ Hs) E) as [Hr Hc].
    eapply (pt_object_rest _ IH); [by apply cstr_skip| |done]. by apply Forall_app; rewrite Forall_singleton.
Qed.

(** C19: the parser ends on every C string, and whatever it accepts is a
    well-typed tree without a name of its own: an item's kind, value string,
    number and children go together, members of objects and only they have
    names, no item is a reference, and every string is a C string although [\u]
    escapes can spell any code point.  If every backslash of the text is followed
    by a character, and every [\u] by four hexadecimal digits, it reads nothing
    behind the text, writes nothing behind the buffers of the strings, and uses
    no variable that was not set. *)
Theorem parse_well_typed text require_null_terminated :
  is_cstr text ->
  let result := cJSON_ParseWithOpts pow10 big_int text require_null_terminated in
  result <> OutOfFuel /\ (well_escaped text = true -> result <> Fault) /\
  forall i rest, result = Ok i rest -> typed i /\ string i = None /\ is_cstr rest.
Proof.
  intros Hs result. split_and!.
  - pose proof (parse_ends pow10 big_int false text require_null_terminated ltac:(done)) as H.
    fold result in H. intros E. by rewrite E in H.
  - intros Hw. pose proof (parse_ends pow10 big_int true text require_null_terminated ltac:(by intros _)) as H.
    fold result in H. intros E. by rewrite E in H.
  - intros i rest (c & r & E & E2)%pbind_Ok.
    destruct (pt_value _ (parser_is_typed _) _ _ _ _ _ (cstr_skip _ Hs) E) as [Hr [Ht Hn]].
    destruct require_null_terminated; [|by injection E2 as <- <-].
    destruct (skip r); [|done]. injection E2 as <- <-. split_and!; [done|done|constructor].
Qed.
End typed.

(** [[true,-7]] and an object with an escaped name. *)
Lemma parse_well_typed_witness :
  let text := [91; 116; 114; 117; 101; 44; 123; 34; 92; 117; 48; 48; 101; 57; 34; 58; 110; 117; 108; 108; 125; 93] in
  exists i, cJSON_ParseWithOpts (fun _ => of_int 1) (fun _ => 0) text true = Ok i [] /\ typed (fun _ => 0) i.
Proof.
  intros text. destruct (parse_well_typed (fun _ => of_int 1) (fun _ => 0) text true) as (_ & _ & H).
  - unfold text, is_cstr. repeat constructor; lia.
  - eexists. split; [vm_compute; reflexivity|]. refine (proj1 (H _ [] _)). vm_compute. reflexivity.
Defined.
