(* ===== verification/RefBase.v ===== *)
(** * system/libutils/RefBase.cpp: reference counting among threads

    One object and its [weakref_impl], used by any number of threads.  A step is
    one atomic access of a counter, or what a thread does between two of them;
    any step that reads or writes the object after its destruction, or the
    counters after theirs, is [None].  What the threads hold ([sp] and [wp]
    pointers) is part of a thread's state: a client uses the counters only
    through pointers it holds.

    The file's debugging facilities are compiled out ([DEBUG_REFS] is 0).  The
    answer of [onIncStrongAttempted], which derived classes may override, is the
    parameter [attempted]. *)

From S2P Require Import Prelude.
From Stdlib Require Import ZifyBool.

Arguments Z.b2z : simpl never.

Definition INITIAL_STRONG_VALUE : Z := Z.shiftl 1 28.
Definition OBJECT_LIFETIME_STRONG : Z := 0.
Definition OBJECT_LIFETIME_WEAK : Z := 1.
Definition OBJECT_LIFETIME_MASK : Z := 1.

(** The counters, and whether the object and they have not been deleted. *)
Record weakref_impl := mkRefs {
  mStrong : Z; mWeak : Z; mFlags : Z;
  base_live : bool; refs_live : bool
}.

Definition set_strong (v : Z) (c : weakref_impl) : weakref_impl :=
  mkRefs v (mWeak c) (mFlags c) (base_live c) (refs_live c).
Definition set_weak (v : Z) (c : weakref_impl) : weakref_impl :=
  mkRefs (mStrong c) v (mFlags c) (base_live c) (refs_live c).
Definition set_flags (v : Z) (c : weakref_impl) : weakref_impl :=
  mkRefs (mStrong c) (mWeak c) v (base_live c) (refs_live c).

(** The constructor. *)
Definition newRefs : weakref_impl := mkRefs INITIAL_STRONG_VALUE 0 0 true true.

Definition extendObjectLifetime (mode : Z) (c : weakref_impl) : weakref_impl :=
  set_flags (Z.lor (mFlags c) mode) c.

(** Using the object; using the counters. *)
Definition base (c : weakref_impl) : option () := if base_live c then Some () else None.
Definition refs (c : weakref_impl) : option () := if refs_live c then Some () else None.

(** [android_atomic_add]: the value before. *)
Definition add_strong (d : Z) (c : weakref_impl) : option (Z * weakref_impl) :=
  _ ← refs c; Some (mStrong c, set_strong (s32 (mStrong c + d)) c).
Definition add_weak (d : Z) (c : weakref_impl) : option (Z * weakref_impl) :=
  _ ← refs c; Some (mWeak c, set_weak (s32 (mWeak c + d)) c).

(** [delete impl]. *)
Definition delete_refs (c : weakref_impl) : option weakref_impl :=
  _ ← refs c; Some (mkRefs (mStrong c) (mWeak c) (mFlags c) (base_live c) false).

(** [delete] of the object. *)
Definition dtor (c : weakref_impl) : option weakref_impl :=
  _ ← base c; _ ← refs c;
  c ← if mStrong c =? INITIAL_STRONG_VALUE then delete_refs c
      else if negb (Z.land (mFlags c) OBJECT_LIFETIME_MASK =? OBJECT_LIFETIME_STRONG) then
        if mWeak c =? 0 then delete_refs c else Some c
      else Some c;
  Some (mkRefs (mStrong c) (mWeak c) (mFlags c) false (refs_live c)).

(** ** The threads *)

(** Where a thread is.  [raw]: it works on the bare pointer of a new object
    instead of copying an [sp]. *)
Inductive pc :=
  | Idle
  | Inc0 (raw : bool)   (* incStrong: before incWeak *)
  | Inc1 (raw : bool)   (* ... before the increment of mStrong *)
  | Inc2                (* ... the first reference: before the bias is taken off *)
  | Inc3                (* ... before onFirstRef *)
  | Force0 | Force1     (* forceIncStrong: before incWeak; before the increment *)
  | Dec0                (* decStrong: before the decrement *)
  | Dec1                (* ... the last reference is gone: before onLastStrongRef *)
  | Dec2                (* ... before "delete this" *)
  | Weak0               (* incWeak, createWeak: before the increment *)
  | Rel0                (* decWeak: before the decrement *)
  | Rel1                (* ... the last weak reference is gone *)
  | Try0                (* attemptIncStrong: before incWeak *)
  | Try1                (* ... before reading mStrong *)
  | Try2 (cur : Z)      (* ... having read it *)
  | Try3                (* ... allowed: before the increment *)
  | Try4 (cur : Z)      (* ... having incremented it *)
  | Try5                (* ... before onFirstRef *)
  | WTry0               (* attemptIncWeak: before reading mWeak *)
  | WTry1 (cur : Z).    (* ... having read it *)

(** The [sp]s and [wp]s a thread holds, and where it is. *)
Record thread := mkThread { sps : Z; wps : Z; at_ : pc }.

Definition goto (p : pc) (t : thread) : thread := mkThread (sps t) (wps t) p.
(** The operation is over; it gave the thread [s] strong and [w] weak references. *)
Definition done (s w : Z) (t : thread) : thread := mkThread (sps t + s) (wps t + w) Idle.

Section steps.
Variable attempted : bool.

(** The next step of a thread inside an operation. *)
Definition advance (t : thread) (c : weakref_impl) : option (thread * weakref_impl) :=
  match at_ t with
  | Idle => None
  | Inc0 raw =>
      _ ← base c; '(_, c) ← add_weak 1 c; Some (goto (Inc1 raw) t, c)
  | Inc1 raw =>
      '(n, c) ← add_strong 1 c;
      Some (if negb (n =? INITIAL_STRONG_VALUE) then done 1 0 t else goto Inc2 t, c)
  | Inc2 => '(_, c) ← add_strong (- INITIAL_STRONG_VALUE) c; Some (goto Inc3 t, c)
  | Inc3 => _ ← base c; Some (done 1 0 t, c)
  | Force0 => _ ← base c; '(_, c) ← add_weak 1 c; Some (goto Force1 t, c)
  | Force1 =>
      '(n, c) ← add_strong 1 c;
      Some (if n =? INITIAL_STRONG_VALUE then goto Inc2 t
            else if n =? 0 then goto Inc3 t else done 1 0 t, c)
  | Dec0 =>
      _ ← base c; '(n, c) ← add_strong (-1) c;
      Some (if n =? 1 then goto Dec1 t else goto Rel0 t, c)
  | Dec1 =>
      _ ← base c; _ ← refs c;
      Some (if Z.land (mFlags c) OBJECT_LIFETIME_MASK =? OBJECT_LIFETIME_STRONG
            then goto Dec2 t else goto Rel0 t, c)
  | Dec2 => c ← dtor c; Some (goto Rel0 t, c)
  | Weak0 => '(_, c) ← add_weak 1 c; Some (done 0 1 t, c)
  | Rel0 =>
      '(n, c) ← add_weak (-1) c; Some (if negb (n =? 1) then done 0 0 t else goto Rel1 t, c)
  | Rel1 =>
      _ ← refs c;
      c ← if Z.land (mFlags c) OBJECT_LIFETIME_WEAK =? OBJECT_LIFETIME_STRONG then
            if mStrong c =? INITIAL_STRONG_VALUE then dtor c else delete_refs c
          else
            _ ← base c;
            if Z.land (mFlags c) OBJECT_LIFETIME_MASK =? OBJECT_LIFETIME_WEAK then dtor c
            else Some c;
      Some (done 0 0 t, c)
  | Try0 => '(_, c) ← add_weak 1 c; Some (goto Try1 t, c)
  | Try1 => _ ← refs c; Some (goto (Try2 (mStrong c)) t, c)
  | Try2 cur =>
      _ ← refs c;
      if (0 <? cur) && negb (cur =? INITIAL_STRONG_VALUE) then
        if mStrong c =? cur then Some (done 1 0 t, set_strong (s32 (cur + 1)) c)
        else Some (goto Try1 t, c)
      else
        let weak := Z.land (mFlags c) OBJECT_LIFETIME_WEAK =? OBJECT_LIFETIME_WEAK in
        allow ← if cur =? INITIAL_STRONG_VALUE
                then if weak then _ ← base c; Some attempted else Some true
                else if weak then _ ← base c; Some attempted else Some false;
        Some (if negb allow then goto Rel0 t else goto Try3 t, c)
  | Try3 => '(n, c) ← add_strong 1 c; Some (goto (Try4 n) t, c)
  | Try4 cur =>
      _ ← if (0 <? cur) && (cur <? INITIAL_STRONG_VALUE) then base c else Some ();
      if cur =? INITIAL_STRONG_VALUE
      then '(_, c) ← add_strong (- INITIAL_STRONG_VALUE) c; Some (goto Try5 t, c)
      else Some (done 1 0 t, c)
  | Try5 => _ ← base c; Some (done 1 0 t, c)
  | WTry0 => _ ← refs c; Some (goto (WTry1 (mWeak c)) t, c)
  | WTry1 cur =>
      if 0 <? cur then
        _ ← refs c;
        if mWeak c =? cur then Some (done 0 1 t, set_weak (s32 (cur + 1)) c)
        else Some (goto WTry0 t, c)
      else Some (done 0 0 t, c)
  end.

(** What a client may begin, by the pointers it holds. *)
Inductive op :=
  | IncStrong | ForceIncStrong | DecStrong | IncWeak | DecWeak | AttemptIncStrong | AttemptIncWeak.

Definition begin (o : op) (t : thread) : option thread :=
  match at_ t with
  | Idle =>
      match o with
      | IncStrong => if 0 <? sps t then Some (goto (Inc0 false) t) else None
      | ForceIncStrong => if 0 <? sps t then Some (goto Force0 t) else None
      | DecStrong => if 0 <? sps t then Some (mkThread (sps t - 1) (wps t) Dec0) else None
      | IncWeak => if 0 <? sps t + wps t then Some (goto Weak0 t) else None
      | DecWeak => if 0 <? wps t then Some (mkThread (sps t) (wps t - 1) Rel0) else None
      | AttemptIncStrong => if 0 <? wps t then Some (goto Try0 t) else None
      | AttemptIncWeak => if 0 <? sps t + wps t then Some (goto WTry0 t) else None
      end
  | _ => None
  end.

(** ** The whole *)

Definition state : Type := list thread * weakref_impl.

(** How many weak references a thread accounts for: every strong one comes with
    a weak one, and an operation under way may hold one more. *)
Definition weak_of (t : thread) : Z :=
  sps t + wps t +
  match at_ t with
  | Idle | Inc0 _ | Force0 | Weak0 | Rel1 | Try0 | WTry0 | WTry1 _ => 0
  | _ => 1
  end.

Definition strong_of (t : thread) : Z :=
  sps t + match at_ t with Inc2 | Inc3 | Dec0 | Try4 _ | Try5 => 1 | _ => 0 end.

Definition total (f : thread -> Z) (ts : list thread) : Z := foldr (fun t n => f t + n) 0 ts.

(** Steps of the system.  A pointer can be handed to another thread, and no
    operation begins that might lead to 2^28 references. *)
Inductive step : state -> state -> Prop :=
  | step_advance ts c i t t' c' :
      ts !! i = Some t -> advance t c = Some (t', c') -> step (ts, c) (<[i := t']> ts, c')
  | step_begin ts c i t t' o :
      ts !! i = Some t -> begin o t = Some t' -> total weak_of ts + Z.of_nat (length ts) < INITIAL_STRONG_VALUE ->
      step (ts, c) (<[i := t']> ts, c)
  | step_give ts c i j t u ds dw :
      i <> j -> ts !! i = Some t -> ts !! j = Some u -> at_ t = Idle ->
      0 <= ds <= sps t -> 0 <= dw <= wps t ->
      step (ts, c) (<[j := mkThread (sps u + ds) (wps u + dw) (at_ u)]>
                     (<[i := mkThread (sps t - ds) (wps t - dw) Idle]> ts), c).
End steps.

(** A new object: thread 0 is about to make the first [sp] of it. *)
Definition start (n : nat) (flags : Z) : state :=
  (mkThread 0 0 (Inc0 true) :: replicate n (mkThread 0 0 Idle), extendObjectLifetime flags newRefs).

(** A new object of which [n] threads hold a [wp] each and nobody an [sp]. *)
Definition start_weak (n : nat) (flags : Z) : state :=
  (replicate n (mkThread 0 1 Idle), set_weak (Z.of_nat n) (extendObjectLifetime flags newRefs)).

(** ** Sums over the threads *)

Lemma total_insert f ts i t t' :
  ts !! i = Some t -> total f (<[i := t']> ts) = total f ts - f t + f t'.
Proof.
  revert i. induction ts as [|u ts IH]; intros [|i]; simpl; [done|done| |].
  - intros [= ->]. lia.
  - intros H. rewrite (IH i H). lia.
Qed.

Lemma total_nonneg f ts : (forall t, t ∈ ts -> 0 <= f t) -> 0 <= total f ts.
Proof.
  induction ts as [|u ts IH]; simpl; [lia|]. intros H.
  pose proof (H u ltac:(left)). specialize (IH (fun t Ht => H t (list_elem_of_further _ _ _ Ht))). lia.
Qed.

Lemma total_ge f ts i t :
  (forall t, t ∈ ts -> 0 <= f t) -> ts !! i = Some t -> f t <= total f ts.
Proof.
  intros H Hi. pose proof (total_insert f ts i t (mkThread 0 0 Idle) Hi).
  revert i Hi H0. induction ts as [|u ts IH]; intros [|i] Hi _; simpl in *; [done|done| |].
  - injection Hi as ->. pose proof (total_nonneg f ts (fun t Ht => H t (list_elem_of_further _ _ _ Ht))). lia.
  - pose proof (H u ltac:(left)).
    specialize (IH (fun t Ht => H t (list_elem_of_further _ _ _ Ht)) i Hi).
    pose proof (total_insert f ts i t (mkThread 0 0 Idle) Hi). specialize (IH H1). lia.
Qed.

Lemma total_le f g ts : (forall t, t ∈ ts -> f t <= g t) -> total f ts <= total g ts.
Proof.
  induction ts as [|u ts IH]; simpl; [lia|]. intros H.
  pose proof (H u ltac:(left)). specialize (IH (fun t Ht => H t (list_elem_of_further _ _ _ Ht))). lia.
Qed.

Lemma total_add f g ts : total (fun t => f t + g t) ts = total f ts + total g ts.
Proof. induction ts as [|u ts IH]; simpl; lia. Qed.

Lemma total_replicate f t n : total f (replicate n t) = Z.of_nat n * f t.
Proof. induction n as [|n IH]; simpl total; [lia|]. rewrite IH. lia. Qed.

(** ** The invariant *)

(** References that an operation may still add. *)
Definition pend_of (t : thread) : Z :=
  match at_ t with Inc0 _ | Force0 | Weak0 | Try0 | WTry0 | WTry1 _ => 1 | _ => 0 end.
(** Threads that took off the last weak reference, that work on the bare pointer
    of the new object, that have to take the bias off, that took off the last
    strong reference. *)
Definition last_of (t : thread) : Z := match at_ t with Rel1 => 1 | _ => 0 end.
Definition raw_of (t : thread) : Z := match at_ t with Inc0 true => 1 | _ => 0 end.
Definition new_of (t : thread) : Z := match at_ t with Inc0 true | Inc1 true => 1 | _ => 0 end.
Definition bias_of (t : thread) : Z := match at_ t with Inc2 => 1 | _ => 0 end.
Definition dying_of (t : thread) : Z := match at_ t with Dec1 | Dec2 => 1 | _ => 0 end.
(** What must not be before the first strong reference is complete. *)
Definition busy_of (t : thread) : Z :=
  sps t + wps t + match at_ t with Idle | Inc0 true | Inc1 true | Inc2 => 0 | _ => 1 end.
(** What cannot be after it, for an object that dies with its last strong reference. *)
Definition odd_of (t : thread) : Z :=
  match at_ t with
  | Try2 cur => Z.b2z (cur =? INITIAL_STRONG_VALUE)
  | Try3 | Try4 _ | Try5 => 1
  | _ => 0
  end.

Arguments weak_of !t /. Arguments strong_of !t /. Arguments busy_of !t /. Arguments last_of !t /.
Arguments raw_of !t /. Arguments bias_of !t /. Arguments dying_of !t /. Arguments new_of !t /.
Arguments odd_of !t /. Arguments pend_of !t /. Arguments total f ts : simpl never.

(** What a thread holds while it is inside an operation. *)
Definition held (t : thread) : Prop :=
  0 <= sps t /\ 0 <= wps t /\
  match at_ t with
  | Inc0 false | Inc1 false | Force0 | Force1 => 0 < sps t
  | Weak0 | WTry0 | WTry1 _ => 0 < sps t + wps t
  | Try0 | Try1 | Try2 _ => 0 < wps t
  | _ => True
  end.

(** [b]: mStrong still carries the bias. *)
Record inv (b : bool) (ts : list thread) (c : weakref_impl) : Prop := mkInv {
  inv_held : Forall held ts;
  inv_flags : mFlags c = OBJECT_LIFETIME_STRONG;
  inv_weak : refs_live c = true -> mWeak c = total weak_of ts;
  inv_strong : refs_live c = true ->
    mStrong c = Z.b2z b * INITIAL_STRONG_VALUE + total strong_of ts;
  inv_last : total last_of ts + total raw_of ts + Z.b2z (0 <? total weak_of ts)
    + Z.b2z (negb (refs_live c)) = 1;
  inv_bias : total bias_of ts + Z.b2z (b && (total strong_of ts =? 0)) + Z.b2z (negb b) = 1;
  inv_dying : total dying_of ts + Z.b2z (negb (base_live c))
    + Z.b2z ((0 <? total strong_of ts) || b) = 1;
  inv_new : total new_of ts = Z.b2z (b && (total strong_of ts =? 0));
  inv_phase : b = true -> total busy_of ts = 0;
  inv_odd : total odd_of ts = 0;
  inv_small : total weak_of ts + total pend_of ts < INITIAL_STRONG_VALUE
}.

Ltac cases := intros [s w p]; destruct p as [|raw|raw| | | | | | | | | | | | |cur| |cur| | |cur];
  try destruct raw; unfold held, weak_of, strong_of, busy_of, last_of, raw_of, bias_of, dying_of,
    new_of, odd_of, pend_of; simpl.
Ltac one := cases; intros; lia.

Section counted.
Variables (ts : list thread) (i : nat) (t : thread).
Hypothesis Hh : Forall held ts.
Hypothesis Hi : ts !! i = Some t.

Lemma held_nonneg f : (forall t, held t -> 0 <= f t) -> forall t, t ∈ ts -> 0 <= f t.
Proof. intros H u Hu. apply H. by apply (proj1 (Forall_forall _ _) Hh). Qed.


Lemma weak_nonneg u : held u -> 0 <= weak_of u.
Proof. revert u. one. Qed.
Lemma strong_nonneg u : held u -> 0 <= strong_of u.
Proof. revert u. one. Qed.
Lemma strong_le_weak u : held u -> strong_of u <= weak_of u.
Proof. revert u. one. Qed.
Lemma busy_nonneg u : held u -> 0 <= busy_of u.
Proof. revert u. one. Qed.

(** A thread's share of each sum. *)
Lemma shares :
  held t /\
  weak_of t <= total weak_of ts /\ strong_of t <= total strong_of ts /\
  busy_of t <= total busy_of ts /\ last_of t <= total last_of ts /\ raw_of t <= total raw_of ts /\
  bias_of t <= total bias_of ts /\ dying_of t <= total dying_of ts /\ new_of t <= total new_of ts /\
  odd_of t <= total odd_of ts /\ pend_of t <= total pend_of ts /\
  total strong_of ts <= total weak_of ts /\ 0 <= total strong_of ts /\ 0 <= total pend_of ts /\
  0 <= total dying_of ts /\ 0 <= total bias_of ts /\ 0 <= total last_of ts /\ 0 <= total raw_of ts /\
  0 <= total new_of ts.
Proof.
  assert (Z01 : forall f : thread -> Z, (forall u, 0 <= f u) -> f t <= total f ts /\ 0 <= total f ts).
  { intros f Hf. split; [eapply total_ge; eauto|apply total_nonneg; eauto]. }
  split; [by eapply Forall_lookup_1|].
  split; [eapply total_ge; [apply held_nonneg, weak_nonneg|done]|].
  split; [eapply total_ge; [apply held_nonneg, strong_nonneg|done]|].
  split; [eapply total_ge; [apply held_nonneg, busy_nonneg|done]|].
  assert (A1 : forall u, 0 <= last_of u) by one.
  assert (A2 : forall u, 0 <= raw_of u) by one.
  assert (A3 : forall u, 0 <= bias_of u) by one.
  assert (A4 : forall u, 0 <= dying_of u) by one.
  assert (A5 : forall u, 0 <= new_of u) by one.
  assert (A6 : forall u, 0 <= odd_of u) by one.
  assert (A7 : forall u, 0 <= pend_of u) by one.
  destruct (Z01 _ A1), (Z01 _ A2), (Z01 _ A3), (Z01 _ A4), (Z01 _ A5), (Z01 _ A6), (Z01 _ A7).
  assert (total strong_of ts <= total weak_of ts).
  { apply total_le. intros u Hu. apply strong_le_weak. by apply (proj1 (Forall_forall _ _) Hh). }
  assert (0 <= total strong_of ts) by apply total_nonneg, held_nonneg, strong_nonneg.
  tauto.
Qed.
End counted.

(** ** The invariant holds *)

Lemma live_refs b ts c : inv b ts c -> 0 < total weak_of ts -> refs_live c = true.
Proof.
  intros I Hw. destruct (refs_live c) eqn:E; [done|]. pose proof (inv_last _ _ _ I) as H.
  rewrite E in H. exfalso.
  assert (forall f : thread -> Z, (forall u, 0 <= f u) -> 0 <= total f ts) as N
    by (intros; apply total_nonneg; auto).
  assert (0 <= total last_of ts) by (apply N; cases; lia).
  assert (0 <= total raw_of ts) by (apply N; cases; lia).
  simpl in H. lia.
Qed.

Lemma INITIAL_eq : INITIAL_STRONG_VALUE = 268435456.
Proof. reflexivity. Qed.

(** The sums after a thread's step. *)
Ltac sums Hi :=
  repeat match goal with
  | |- context [ total ?f (<[ ?i := ?t ]> ?ts) ] => rewrite (total_insert f ts i _ t Hi)
  end; simpl.

Ltac unwrap32 :=
  repeat match goal with
  | |- context [ wraps 32 ?x ] => rewrite (wraps_id 32 x) by width_lia
  end.

Ltac fin Hi b' :=
  do 2 eexists; split; [reflexivity|]; exists b'; split;
  cbn [mStrong mWeak mFlags base_live refs_live set_strong set_weak];
  [apply Forall_insert; [assumption|unfold held; simpl; lia]
  |reflexivity|intros _; sums Hi|intros _; sums Hi|sums Hi|sums Hi|sums Hi|sums Hi|intros ?; sums Hi
  |sums Hi|sums Hi]; rewrite ?INITIAL_eq; unwrap32; try lia.

Lemma inv_advance attempted b ts c i t :
  inv b ts c -> ts !! i = Some t -> at_ t <> Idle ->
  exists t' c', advance attempted t c = Some (t', c') /\
    exists b', inv b' (<[i := t']> ts) c'.
Proof.
  intros I Hi Hidle. destruct (shares ts i t (inv_held _ _ _ I) Hi) as (Hheld & Hsh).
  pose proof (live_refs _ _ _ I) as Hlive.
  destruct c as [st wk fl bl rl]. destruct I as [Ih Ifl Iw Is Il Ib Id In Ip Io Ism].
  simpl in Ifl, Iw, Is, Il, Ib, Id, Hlive. subst fl.
  destruct t as [s w p]. rewrite INITIAL_eq in *. unfold held in Hheld. simpl in Hheld, Hidle.
  assert (Hrl : rl = true).
  { destruct p as [|[]|[]| | | | | | | | | | | | |cur| |cur| | |cur]; simpl in Hsh; try done; lia. }
  subst rl. specialize (Iw eq_refl). specialize (Is eq_refl). subst wk st. clear Hlive.
  destruct p as [|raw|raw| | | | | | | | | | | | |cur| |cur| | |cur]; [done|..]; simpl in Hsh;
    unfold advance, add_weak, add_strong, base, refs; cbn -[wraps].
  - destruct raw; assert (bl = true) as -> by lia; cbn -[wraps]; [fin Hi true|fin Hi b].
  - rewrite INITIAL_eq. destruct (Z.eqb_spec (Z.b2z b * 268435456 + total strong_of ts) 268435456)
      as [E|E]; cbn -[wraps].
    + assert (b = true) as -> by lia. destruct raw; [fin Hi true|exfalso; lia].
    + destruct raw; [exfalso; lia|fin Hi b].
  - assert (b = true) as -> by lia. fin Hi false.
  - assert (bl = true) as -> by lia. cbn. fin Hi b.
  - assert (bl = true) as -> by lia. cbn -[wraps]. fin Hi b.
  - assert (b = false) as -> by lia. rewrite INITIAL_eq.
    destruct (Z.eqb_spec (Z.b2z false * 268435456 + total strong_of ts) 268435456) as [E|E]; [lia|].
    destruct (Z.eqb_spec (Z.b2z false * 268435456 + total strong_of ts) 0) as [E2|E2]; [lia|].
    cbn -[wraps]. fin Hi false.
  - assert (b = false) as -> by lia. assert (bl = true) as -> by lia. cbn -[wraps].
    destruct (Z.eqb_spec (Z.b2z false * 268435456 + total strong_of ts) 1) as [E|E]; fin Hi false.
  - assert (b = false) as -> by lia. assert (bl = true) as -> by lia. cbn. fin Hi false.
  - assert (b = false) as -> by lia. assert (bl = true) as -> by lia. unfold dtor, base, refs.
    cbn -[INITIAL_STRONG_VALUE]. rewrite INITIAL_eq.
    destruct (Z.eqb_spec (Z.b2z false * 268435456 + total strong_of ts) 268435456) as [E|E]; [lia|].
    cbn. fin Hi false.
  - fin Hi b.
  - assert (b = false) as -> by lia.
    destruct (Z.eqb_spec (total weak_of ts) 1) as [E|E]; cbn -[wraps]; fin Hi false.
  - assert (b = false) as -> by lia. rewrite INITIAL_eq.
    destruct (Z.eqb_spec (Z.b2z false * 268435456 + total strong_of ts) 268435456) as [E|E]; [lia|].
    cbn. fin Hi false.
  - fin Hi b.
  - assert (b = false) as -> by lia. fin Hi false.
  - assert (b = false) as -> by lia. rewrite INITIAL_eq.
    rewrite INITIAL_eq in Hsh. destruct (Z.eqb_spec cur 268435456) as [E|E]; [lia|].
    destruct (Z.ltb_spec 0 cur) as [E2|E2]; cbn -[wraps].
    + destruct (Z.eqb_spec (Z.b2z false * 268435456 + total strong_of ts) cur) as [E3|E3]; cbn -[wraps];
        fin Hi false.
    + fin Hi false.
  - exfalso. lia.
  - exfalso. lia.
  - exfalso. lia.
  - fin Hi b.
  - destruct (Z.ltb_spec 0 cur) as [E|E]; cbn -[wraps]; [|fin Hi b].
    destruct (Z.eqb_spec (total weak_of ts) cur) as [E2|E2]; cbn -[wraps]; fin Hi b.
Qed.

Lemma pend_le_length ts : total pend_of ts <= Z.of_nat (length ts).
Proof.
  induction ts as [|u ts IH]; [done|]. unfold total. simpl. fold (total pend_of ts).
  assert (pend_of u <= 1) by (revert u; cases; lia). lia.
Qed.

Lemma inv_begin b ts c i t t' o :
  inv b ts c -> ts !! i = Some t -> begin o t = Some t' ->
  total weak_of ts + Z.of_nat (length ts) < INITIAL_STRONG_VALUE ->
  inv b (<[i := t']> ts) c.
Proof.
  intros I Hi E Hb. destruct (shares ts i t (inv_held _ _ _ I) Hi) as (Hheld & Hsh).
  pose proof (pend_le_length (<[i := t']> ts)) as Hp. rewrite length_insert in Hp.
  destruct t as [s w p]. unfold begin in E. destruct p; try done. unfold held in Hheld.
  simpl in Hsh, Hheld. destruct I as [Ih Ifl Iw Is Il Ib Id In Ip Io Ism].
  assert (N : 0 < s + w -> b = false) by (destruct b; [lia|done]). rewrite INITIAL_eq in *.
  destruct o; simpl in E;
    match type of E with (if ?a <? ?x then _ else _) = _ => destruct (Z.ltb_spec a x); [|done] end;
    injection E as <-; assert (b = false) as -> by (apply N; lia);
    (split; [apply Forall_insert; [assumption|unfold held; simpl; lia]|assumption
            |intros R; specialize (Iw R)|intros R; specialize (Is R)|..]);
    revert Hp; sums Hi; rewrite ?INITIAL_eq; try lia.
Qed.

(** Handing pointers over. *)
Section give.
Variables (ts : list thread) (i j : nat) (t u : thread) (ds dw : Z).
Hypotheses (Hij : i <> j) (Hi : ts !! i = Some t) (Hj : ts !! j = Some u) (Ht : at_ t = Idle)
  (Hds : 0 <= ds <= sps t) (Hdw : 0 <= dw <= wps t).

Local Abbreviation given :=
  (<[j := mkThread (sps u + ds) (wps u + dw) (at_ u)]>
     (<[i := mkThread (sps t - ds) (wps t - dw) Idle]> ts)).

Lemma held_give : Forall held ts -> Forall held given.
Proof.
  intros Hh. pose proof (proj1 (Forall_lookup _ _) Hh _ _ Hi) as A.
  pose proof (proj1 (Forall_lookup _ _) Hh _ _ Hj) as B.
  destruct t as [s w p], u as [s' w' q]. simpl in Ht, Hds, Hdw. subst p.
  apply Forall_insert; [apply Forall_insert; [done|unfold held in *; simpl in *; lia]|].
  unfold held in *. simpl in *. destruct q as [|[]|[]| | | | | | | | | | | | |cur| |cur| | |cur]; lia.
Qed.

(** A sum that counts pointers or places does not change. *)
Lemma total_give f :
  (forall s w s' w' q, f (mkThread s w Idle) + f (mkThread s' w' q) =
    f (mkThread (s - ds) (w - dw) Idle) + f (mkThread (s' + ds) (w' + dw) q)) ->
  total f given = total f ts.
Proof.
  intros Hf. assert (Hj' : <[i := mkThread (sps t - ds) (wps t - dw) Idle]> ts !! j = Some u)
    by (by rewrite list_lookup_insert_ne).
  rewrite (total_insert f _ _ _ _ Hj'), (total_insert f _ _ _ _ Hi).
  destruct t as [s w p], u as [s' w' q]. simpl in Ht. subst p. specialize (Hf s w s' w' q). simpl. lia.
Qed.
End give.

Ltac give Hij Hi Hj Ht := rewrite !(total_give _ _ _ _ _ _ _ Hij Hi Hj Ht) by (intros; simpl; lia).

Lemma inv_give b ts c i j t u ds dw :
  inv b ts c -> i <> j -> ts !! i = Some t -> ts !! j = Some u -> at_ t = Idle ->
  0 <= ds <= sps t -> 0 <= dw <= wps t ->
  inv b (<[j := mkThread (sps u + ds) (wps u + dw) (at_ u)]>
          (<[i := mkThread (sps t - ds) (wps t - dw) Idle]> ts)) c.
Proof.
  intros I Hij Hi Hj Ht Hds Hdw. destruct I as [Ih Ifl Iw Is Il Ib Id In Ip Io Ism]. split; try done.
  - by apply held_give.
  - intros R. give Hij Hi Hj Ht. by apply Iw.
  - intros R. give Hij Hi Hj Ht. by apply Is.
  - by give Hij Hi Hj Ht.
  - by give Hij Hi Hj Ht.
  - by give Hij Hi Hj Ht.
  - by give Hij Hi Hj Ht.
  - intros R. give Hij Hi Hj Ht. by apply Ip.
  - by give Hij Hi Hj Ht.
  - by give Hij Hi Hj Ht.
Qed.

Lemma total_cons f t ts : total f (t :: ts) = f t + total f ts.
Proof. done. Qed.

Lemma inv_start n : inv true (start n OBJECT_LIFETIME_STRONG).1 (start n OBJECT_LIFETIME_STRONG).2.
Proof.
  unfold start. cbn [fst snd]. split; rewrite ?total_cons, ?total_replicate; simpl; try done;
    try (intros _; rewrite ?total_cons, ?total_replicate; simpl; lia).
  { constructor; [unfold held; simpl; lia|]. apply Forall_replicate. unfold held. simpl. lia. }
  all: rewrite ?INITIAL_eq, !Z.mul_0_r; done.
Qed.

Inductive reachable (attempted : bool) (s0 : state) : state -> Prop :=
  | reach_start : reachable attempted s0 s0
  | reach_step s s' : reachable attempted s0 s -> step attempted s s' -> reachable attempted s0 s'.

Lemma reachable_inv attempted n s :
  reachable attempted (start n OBJECT_LIFETIME_STRONG) s -> exists b, inv b s.1 s.2.
Proof.
  induction 1 as [|s s' _ [b IH] Hs]; [exists true; apply inv_start|].
  destruct Hs as [ts c i t t' c' Hi E|ts c i t t' o Hi E Hb|ts c i j t u ds dw Hij Hi Hj Ht Hds Hdw];
    cbn [fst snd] in *.
  - destruct (inv_advance attempted b ts c i t IH Hi) as (t2 & c2 & E2 & I2).
    { intros A. unfold advance in E. by rewrite A in E. }
    rewrite E in E2. injection E2 as <- <-. done.
  - exists b. by eapply inv_begin.
  - exists b. by eapply inv_give.
Qed.

(** ** The invariant of an object that lives as long as its weak references *)

Record invw (ts : list thread) (c : weakref_impl) : Prop := mkInvw {
  invw_held : Forall held ts;
  invw_keep : Forall (fun t => at_ t <> Dec2) ts;
  invw_flags : mFlags c = OBJECT_LIFETIME_WEAK;
  invw_weak : refs_live c = true -> mWeak c = total weak_of ts;
  invw_last : total last_of ts + total raw_of ts + Z.b2z (0 <? total weak_of ts)
    + Z.b2z (negb (refs_live c)) = 1;
  invw_base : base_live c = refs_live c;
  invw_small : total weak_of ts + total pend_of ts < INITIAL_STRONG_VALUE
}.

Ltac finw Hi :=
  do 2 eexists; split; [reflexivity|]; split;
  cbn [mStrong mWeak mFlags base_live refs_live set_strong set_weak];
  [apply Forall_insert; [assumption|unfold held; simpl; lia]
  |apply Forall_insert; [assumption|done]
  |reflexivity|intros _; sums Hi|sums Hi|try reflexivity|sums Hi]; rewrite ?INITIAL_eq; unwrap32; try lia.

Lemma invw_advance attempted ts c i t :
  invw ts c -> ts !! i = Some t -> at_ t <> Idle ->
  exists t' c', advance attempted t c = Some (t', c') /\ invw (<[i := t']> ts) c'.
Proof.
  intros I Hi Hidle. destruct (shares ts i t (invw_held _ _ I) Hi) as (Hheld & Hsh).
  destruct c as [st wk fl bl rl]. destruct I as [Ih Ik Ifl Iw Il Ib Ism].
  pose proof (proj1 (Forall_lookup _ _) Ik _ _ Hi) as Hk.
  simpl in Ifl, Iw, Il, Ib, Hk. subst fl bl. destruct t as [s w p]. rewrite INITIAL_eq in *.
  unfold held in Hheld. simpl in Hheld, Hidle.
  assert (Hrl : rl = true).
  { destruct p as [|[]|[]| | | | | | | | | | | | |cur| |cur| | |cur]; simpl in Hsh; try done; lia. }
  subst rl. specialize (Iw eq_refl). subst wk.
  destruct p as [|raw|raw| | | | | | | | | | | | |cur| |cur| | |cur]; [done|..]; try done;
    simpl in Hsh; unfold advance, dtor, add_weak, add_strong, base, refs;
    cbn -[wraps INITIAL_STRONG_VALUE];
    repeat match goal with
    | |- context [ Z.land OBJECT_LIFETIME_WEAK ?m ] => 
        change (Z.land OBJECT_LIFETIME_WEAK m) with OBJECT_LIFETIME_WEAK
    | |- context [ if attempted then _ else _ ] => destruct attempted; cbn -[wraps INITIAL_STRONG_VALUE]
    | raw : bool |- _ => destruct raw
    | |- context [ ?a =? ?x ] => destruct (Z.eqb_spec a x); cbn -[wraps INITIAL_STRONG_VALUE]
    | |- context [ ?a <? ?x ] => destruct (Z.ltb_spec a x); cbn -[wraps INITIAL_STRONG_VALUE]
    end; try finw Hi; discriminate.
Qed.

Lemma invw_begin ts c i t t' o :
  invw ts c -> ts !! i = Some t -> begin o t = Some t' ->
  total weak_of ts + Z.of_nat (length ts) < INITIAL_STRONG_VALUE -> invw (<[i := t']> ts) c.
Proof.
  intros I Hi E Hb. destruct (shares ts i t (invw_held _ _ I) Hi) as (Hheld & Hsh).
  pose proof (pend_le_length (<[i := t']> ts)) as Hp. rewrite length_insert in Hp.
  destruct t as [s w p]. unfold begin in E. destruct p; try done. unfold held in Hheld.
  simpl in Hsh, Hheld. destruct I as [Ih Ik Ifl Iw Il Ib Ism]. rewrite INITIAL_eq in *.
  destruct o; simpl in E;
    match type of E with (if ?a <? ?x then _ else _) = _ => destruct (Z.ltb_spec a x); [|done] end;
    injection E as <-;
    (split; [apply Forall_insert; [assumption|unfold held; simpl; lia]
            |apply Forall_insert; [assumption|done]|assumption
            |intros R; specialize (Iw R)|..]); try assumption;
    revert Hp; sums Hi; rewrite ?INITIAL_eq; try lia.
Qed.

Lemma invw_give ts c i j t u ds dw :
  invw ts c -> i <> j -> ts !! i = Some t -> ts !! j = Some u -> at_ t = Idle ->
  0 <= ds <= sps t -> 0 <= dw <= wps t ->
  invw (<[j := mkThread (sps u + ds) (wps u + dw) (at_ u)]>
         (<[i := mkThread (sps t - ds) (wps t - dw) Idle]> ts)) c.
Proof.
  intros I Hij Hi Hj Ht Hds Hdw. pose proof (invw_held _ _ I) as Hh.
  destruct I as [Ih Ik Ifl Iw Il Ib Ism]. split; try assumption.
  - by apply held_give.
  - pose proof (proj1 (Forall_lookup _ _) Ik _ _ Hj). by repeat apply Forall_insert.
  - intros R. give Hij Hi Hj Ht. by apply Iw.
  - by give Hij Hi Hj Ht.
  - by give Hij Hi Hj Ht.
Qed.

(** How sharing may start: with the object whose first [sp] is being made, or,
    where the object lives as long as its weak references, also with [wp]s only. *)
Inductive initial : Z -> state -> Prop :=
  | initial_strong n : initial OBJECT_LIFETIME_STRONG (start n OBJECT_LIFETIME_STRONG)
  | initial_weak n : initial OBJECT_LIFETIME_WEAK (start n OBJECT_LIFETIME_WEAK)
  | initial_wp n : (0 < n)%nat -> Z.of_nat n < INITIAL_STRONG_VALUE ->
      initial OBJECT_LIFETIME_WEAK (start_weak n OBJECT_LIFETIME_WEAK).

Lemma invw_start s0 : initial OBJECT_LIFETIME_WEAK s0 -> invw s0.1 s0.2.
Proof.
  intros H. remember OBJECT_LIFETIME_WEAK as m eqn:E. destruct H as [n|n|n Hn Hs]; [discriminate E|..];
    unfold start, start_weak; cbn [fst snd]; split;
    rewrite ?total_cons, ?total_replicate; simpl; rewrite ?Z.mul_0_r, ?Z.mul_1_r; try done; try lia.
  - constructor; [unfold held; simpl; lia|]. apply Forall_replicate. unfold held. simpl. lia.
  - constructor; [done|]. by apply Forall_replicate.
  - apply Forall_replicate. unfold held. simpl. lia.
  - by apply Forall_replicate.
Qed.

Lemma reachable_invw attempted s0 s :
  initial OBJECT_LIFETIME_WEAK s0 -> reachable attempted s0 s -> invw s.1 s.2.
Proof.
  intros Hs0. induction 1 as [|s s' _ IH Hs]; [by apply invw_start|].
  destruct Hs as [ts c i t t' c' Hi E|ts c i t t' o Hi E Hb|ts c i j t u ds dw Hij Hi Hj Ht Hds Hdw];
    cbn [fst snd] in *.
  - destruct (invw_advance attempted ts c i t IH Hi) as (t2 & c2 & E2 & I2).
    { intros A. unfold advance in E. by rewrite A in E. }
    rewrite E in E2. injection E2 as <- <-. done.
  - by eapply invw_begin.
  - by eapply invw_give.
Qed.

(** C8: the counting protocol is safe under every interleaving: however the atomic
    steps of any number of threads are mixed that copy, drop, promote and hand
    over pointers to an object, no step touches the object after its deletion or
    the counters after theirs (in particular neither is deleted twice).  This
    holds for both lifetimes; an object that dies with its last strong reference
    must not be shared before its first [sp] is made. *)
Theorem refbase_safe attempted mode s0 ts c i t :
  initial mode s0 -> reachable attempted s0 (ts, c) ->
  ts !! i = Some t -> at_ t <> Idle -> is_Some (advance attempted t c).
Proof.
  intros H0 Hr Hi Ht. destruct H0 as [n|n|n Hn Hs].
  - destruct (reachable_inv _ _ _ Hr) as [b I].
    destruct (inv_advance attempted b ts c i t I Hi Ht) as (t' & c' & -> & _). eauto.
  - pose proof (reachable_invw _ _ _ (initial_weak n) Hr) as I.
    destruct (invw_advance attempted ts c i t I Hi Ht) as (t' & c' & -> & _). eauto.
  - pose proof (reachable_invw _ _ _ (initial_wp n Hn Hs) Hr) as I.
    destruct (invw_advance attempted ts c i t I Hi Ht) as (t' & c' & -> & _). eauto.
Qed.

(** What a thread holds it accounts for. *)
Lemma held_counted t : held t -> sps t <= strong_of t /\ sps t + wps t <= weak_of t.
Proof. unfold strong_of, weak_of. destruct (at_ t); lia. Qed.

(** Nothing under way: the sums count the pointers. *)
Lemma total_idle (f g : thread -> Z) ts :
  Forall (fun t => at_ t = Idle) ts -> (forall t, at_ t = Idle -> f t = g t) -> total f ts = total g ts.
Proof. intros Hidle H. induction Hidle as [|t ts Ht _ IH]; [done|]. by rewrite !total_cons, IH, H. Qed.

Lemma idle_sums ts :
  Forall (fun t => at_ t = Idle) ts ->
  total weak_of ts = total (fun t => sps t + wps t) ts /\ total strong_of ts = total sps ts /\
  total busy_of ts = total (fun t => sps t + wps t) ts /\
  total last_of ts = 0 /\ total raw_of ts = 0 /\ total bias_of ts = 0 /\ total dying_of ts = 0 /\
  total new_of ts = 0.
Proof.
  intros H. assert (Z0 : total (fun _ => 0) ts = 0).
  { clear. induction ts as [|t l IH]; [done|]. by rewrite total_cons, IH. }
  split_and!; try (rewrite <- Z0); apply total_idle; try done; intros [s w p]; simpl; intros ->; lia.
Qed.

(** C9: the object lives exactly as long as it should, for an object that dies
    with its last strong reference: while any thread holds an [sp] the object
    exists, while any holds a [wp] the counters do; and when all operations are
    over the counters count the pointers, the object exists just if somebody
    holds an [sp], and the counters just if somebody holds a pointer. *)
Theorem refbase_lifetime attempted n ts c :
  reachable attempted (start n OBJECT_LIFETIME_STRONG) (ts, c) ->
  (forall i t, ts !! i = Some t -> 0 < sps t -> base_live c = true) /\
  (forall i t, ts !! i = Some t -> 0 < sps t + wps t -> refs_live c = true) /\
  (Forall (fun t => at_ t = Idle) ts ->
    (base_live c = true <-> 0 < total sps ts) /\
    (refs_live c = true <-> 0 < total (fun t => sps t + wps t) ts) /\
    (refs_live c = true ->
      mWeak c = total (fun t => sps t + wps t) ts /\ mStrong c = total sps ts)).
Proof.
  intros [b I]%reachable_inv. cbn [fst snd] in I. pose proof (live_refs _ _ _ I) as Hlive.
  pose proof (inv_held _ _ _ I) as Hh. split; [|split].
  - intros i t Hi Hs. destruct (shares ts i t Hh Hi) as (H & Hw & Hst & _ & _ & _ & _ & Hdy & _ & _ & _ & _ & _ & _ & Hdn & _).
    pose proof (inv_dying _ _ _ I). destruct (held_counted t H).
    destruct (base_live c); [done|]. simpl in *. lia.
  - intros i t Hi Hs. destruct (shares ts i t Hh Hi) as (H & Hw & _).
    apply Hlive. destruct (held_counted t H). lia.
  - intros Hidle. destruct (idle_sums ts Hidle) as (Ew & Es & Eb & El & Er & Ei & Ed & En).
    destruct I as [_ _ Iw Is Il Ib Id In Ip _ _].
    rewrite ?Ew, ?Es, ?Eb, ?El, ?Er, ?Ei, ?Ed, ?En in *. assert (b = false) as -> by lia.
    assert (0 <= total sps ts).
    { apply total_nonneg. intros t Ht. by apply (proj1 (Forall_forall _ _) Hh) in Ht as (? & _). }
    split; [destruct (base_live c); simpl in *; split; (done || lia)|].
    split; [destruct (refs_live c); simpl in *; split; (done || lia)|].
    intros R. specialize (Is R). specialize (Iw R). simpl in Is. lia.
Qed.

(** The other lifetime: the object and its counters live and die together, with
    the last pointer of either kind. *)
Theorem refbase_lifetime_weak attempted s0 ts c :
  initial OBJECT_LIFETIME_WEAK s0 -> reachable attempted s0 (ts, c) ->
  base_live c = refs_live c /\
  (forall i t, ts !! i = Some t -> 0 < sps t + wps t -> base_live c = true) /\
  (Forall (fun t => at_ t = Idle) ts ->
    (base_live c = true <-> 0 < total (fun t => sps t + wps t) ts) /\
    (base_live c = true -> mWeak c = total (fun t => sps t + wps t) ts)).
Proof.
  intros H0 I%reachable_invw; [|done]. cbn [fst snd] in I.
  destruct I as [Hh _ _ Iw Il Ib _]. split; [done|]. rewrite Ib. split.
  - intros i t Hi Hs. destruct (shares ts i t Hh Hi) as (H & Hw & Hr).
    destruct (held_counted t H). destruct (refs_live c); [done|]. simpl in *. lia.
  - intros Hidle. destruct (idle_sums ts Hidle) as (Ew & _ & _ & El & Er & _).
    rewrite ?Ew, ?El, ?Er in *. split; [|done].
    destruct (refs_live c); simpl in *; split; (done || lia).
Qed.

(** ** Witnesses and a race *)

Definition idle (s w : Z) : thread := mkThread s w Idle.

(** Runs a schedule: whose step is next, and what it begins if it is idle. *)
Fixpoint run (attempted : bool) (sch : list (nat * option op)) (s : state) : option state :=
  match sch with
  | [] => Some s
  | (i, o) :: sch =>
      t ← s.1 !! i;
      s ← match o with
          | Some o =>
              if total weak_of s.1 + Z.of_nat (length s.1) <? INITIAL_STRONG_VALUE
              then t' ← begin o t; Some (<[i := t']> s.1, s.2) else None
          | None => '(t', c') ← advance attempted t s.2; Some (<[i := t']> s.1, c')
          end;
      run attempted sch s
  end.

Lemma run_reachable attempted sch s0 s s' :
  reachable attempted s0 s -> run attempted sch s = Some s' -> reachable attempted s0 s'.
Proof.
  revert s. induction sch as [|[i o] sch IH]; intros [ts c] Hr; simpl; [by intros [= <-]|].
  destruct (ts !! i) as [t|] eqn:Hi; [|done]. cbn [mbind option_bind]. destruct o as [o|].
  - destruct (Z.ltb_spec (total weak_of ts + Z.of_nat (length ts)) INITIAL_STRONG_VALUE); [|done].
    destruct (begin o t) as [t'|] eqn:E; [|done]. cbn [mbind option_bind]. apply IH.
    eapply reach_step; [done|by eapply step_begin].
  - destruct (advance attempted t c) as [[t' c']|] eqn:E; [|done]. cbn [mbind option_bind]. apply IH.
    eapply reach_step; [done|by eapply step_advance].
Qed.

(** An object whose last [sp] is being dropped while a [wp] is held; the same,
    when the drop is over and promoting the [wp] has failed. *)
Definition shared : list (nat * option op) :=
  [(0, None); (0, None); (0, None); (0, None);
   (0, Some IncWeak); (0, None); (0, Some DecStrong); (0, None); (0, None)]%nat.
Definition dropped : list (nat * option op) :=
  (shared ++ [(0, None); (0, None); (0, Some AttemptIncStrong); (0, None); (0, None);
    (0, None); (0, None)])%nat.

(** Two threads promote a [wp] of an object that never had a strong reference. *)
Definition racy : list (nat * option op) :=
  [(0, Some AttemptIncStrong); (0, None); (0, None); (0, None);
   (1, Some AttemptIncStrong); (1, None); (1, None); (1, None); (1, None); (1, None); (1, None);
   (1, Some DecStrong); (1, None); (1, None); (1, None); (1, None); (0, None); (0, None)]%nat.

Definition after_shared : state := ([mkThread 0 1 Dec2; idle 0 0], mkRefs 0 2 0 true true).
Definition after_dropped : state := ([idle 0 1], mkRefs 0 1 0 false true).
Definition after_racy : state := ([idle 1 1; idle 0 1], mkRefs 1 3 0 false true).

Lemma refbase_safe_witness : is_Some (advance true (mkThread 0 1 Dec2) after_shared.2).
Proof.
  assert (E : run true shared (start 1 OBJECT_LIFETIME_STRONG) = Some after_shared)
    by (vm_compute; reflexivity).
  apply (refbase_safe true _ _ after_shared.1 after_shared.2 0 (mkThread 0 1 Dec2) (initial_strong 1)
    (run_reachable _ _ _ _ _ (reach_start _ _) E)); [reflexivity|discriminate].
Defined.

Lemma refbase_lifetime_witness : ~ base_live after_dropped.2 = true /\ refs_live after_dropped.2 = true.
Proof.
  assert (E : run true dropped (start 0 OBJECT_LIFETIME_STRONG) = Some after_dropped)
    by (vm_compute; reflexivity).
  destruct (refbase_lifetime true 0 after_dropped.1 after_dropped.2
    (run_reachable _ _ _ _ _ (reach_start _ _) E)) as (_ & _ & H).
  destruct H as (H1 & H2 & _); [repeat constructor|].
  split; [intros Hl; by apply H1 in Hl|by apply H2].
Defined.

(** Promoting is not safe on an object that never had a strong reference:
    two threads hold a [wp]; the first has passed the test for that case when
    the second promotes its [wp] and drops the [sp], which deletes the object;
    the first then increments the count of 0 and holds an [sp] to the deleted
    object, and dropping that [sp] uses it. *)
Theorem refbase_first_promotion_races :
  exists ts c, reachable true (start_weak 2 OBJECT_LIFETIME_STRONG) (ts, c) /\ ts !! 0%nat = Some (idle 1 1) /\
    base_live c = false /\
    exists t', begin DecStrong (idle 1 1) = Some t' /\ advance true t' c = None.
Proof.
  assert (E : run true racy (start_weak 2 OBJECT_LIFETIME_STRONG) = Some after_racy) by (vm_compute; reflexivity).
  exists after_racy.1, after_racy.2.
  split; [exact (run_reachable _ _ _ _ _ (reach_start _ _) E)|].
  split; [reflexivity|]. split; [reflexivity|]. eexists. split; reflexivity.
Qed.
