(* ===== verification/VectorImpl.v ===== *)
(** * system/libutils/VectorImpl.cpp, SharedBuffer.cpp: arrays that are copied on write

    A vector is a pointer to the data of a [SharedBuffer] and a count.  Copying
    a vector shares the buffer and counts the reference; a vector that is about
    to change gets a buffer of its own first.  A buffer is a run of slots, each
    raw memory or holding an object; what copying, destroying and moving objects
    means depends on the traits of the item's type ([utils/TypeHelpers.h]).

    [None] is undefined behaviour: an access outside a buffer or after its
    deletion, the use of raw memory as an object; also an object that is
    overwritten, or whose memory is freed, without having been destroyed.
    [size_t] and pointers have 32 bits. *)

From S2P Require Import Prelude.

Definition BAD_INDEX : Z := -75.

(** The type of the items: [traits], and what the default constructor makes. *)
Class ItemType (A : Type) := {
  mItemSize : Z;
  has_trivial_ctor : bool;
  has_trivial_dtor : bool;
  has_trivial_copy : bool;
  has_trivial_move : bool;
  default_item : A
}.

(** The allocator: the answer to the [n]th call, which asks for a number of
    bytes when the given blocks are live; 0 is failure.  A block is named by the
    address of the data behind the header. *)
Class Allocator := malloc : nat -> gset Z -> Z -> Z.

Record SharedBuffer (A : Type) := mkBuffer { mRefs : Z; mSize : Z; items : list (option A) }.
Arguments mkBuffer {A}. Arguments mRefs {A}. Arguments mSize {A}. Arguments items {A}.

Record mem (A : Type) := mkMem { bufs : gmap Z (SharedBuffer A); calls : nat }.
Arguments mkMem {A}. Arguments bufs {A}. Arguments calls {A}.

Record VectorImpl := mkVector { mStorage : Z; mCount : Z }.

(** An address of items: outside of all buffers, where the given objects are, or
    in a buffer. *)
Inductive source (A : Type) :=
  | Outside (l : list A)
  | Inside (p i : Z).
Arguments Outside {A}. Arguments Inside {A}.

Section vector.
Context {A : Type} {IT : ItemType A} {AL : Allocator}.
Implicit Types (p i n size : Z) (m : mem A) (v : VectorImpl).

(** ** Objects in slots *)

Definition upd p (b : SharedBuffer A) m : mem A := mkMem (<[p := b]> (bufs m)) (calls m).
Definition set_items (ss : list (option A)) (b : SharedBuffer A) : SharedBuffer A :=
  mkBuffer (mRefs b) (mSize b) ss.
Definition set_refs (r : Z) (b : SharedBuffer A) : SharedBuffer A :=
  mkBuffer r (mSize b) (items b).

Definition is_raw (s : option A) : bool := match s with None => true | Some _ => false end.

(** [n] slots from [i] on; writing slots. *)
Definition slots p i n m : option (list (option A)) :=
  b ← bufs m !! p;
  if (0 <=? i) && (0 <=? n) && (i + n <=? Z.of_nat (length (items b)))
  then Some (take (Z.to_nat n) (drop (Z.to_nat i) (items b))) else None.

Definition splice (i : nat) (ss l : list (option A)) : list (option A) :=
  take i l ++ ss ++ drop (i + length ss) l.

Definition set_slots p i (ss : list (option A)) m : option (mem A) :=
  b ← bufs m !! p;
  if (0 <=? i) && (i + Z.of_nat (length ss) <=? Z.of_nat (length (items b)))
  then Some (upd p (set_items (splice (Z.to_nat i) ss (items b)) b) m) else None.

(** What a copy of [n] items reads: the copy constructor needs objects, [memcpy]
    does not. *)
Definition read p i n m : option (list (option A)) :=
  if n =? 0 then Some [] else
  ss ← slots p i n m;
  if has_trivial_copy || forallb (fun s => negb (is_raw s)) ss then Some ss else None.

Definition read_source (s : source A) n m : option (list (option A)) :=
  match s with
  | Outside l => if n <=? Z.of_nat (length l) then Some (Some <$> take (Z.to_nat n) l) else None
  | Inside p i => read p i n m
  end.

(** Making objects in slots, which must be raw unless the type's objects need
    not be destroyed. *)
Definition construct p i (ss : list (option A)) m : option (mem A) :=
  match ss with
  | [] => Some m
  | _ =>
      old ← slots p i (Z.of_nat (length ss)) m;
      if has_trivial_dtor || forallb is_raw old then set_slots p i ss m else None
  end.

Definition _do_construct p i n m : option (mem A) :=
  if negb has_trivial_ctor then construct p i (replicate (Z.to_nat n) (Some default_item)) m
  else Some m.

Definition _do_destroy p i n m : option (mem A) :=
  if negb has_trivial_dtor then
    old ← slots p i n m;
    if forallb (fun s => negb (is_raw s)) old
    then set_slots p i (replicate (Z.to_nat n) None) m else None
  else Some m.

Definition _do_copy p i (from : source A) n m : option (mem A) :=
  ss ← read_source from n m;
  construct p i ss m.

Definition _do_splat p i (item : source A) n m : option (mem A) :=
  if n =? 0 then Some m else
  ss ← read_source item 1 m;
  construct p i (mjoin (replicate (Z.to_nat n) ss)) m.

(** [memmove] of items: those of a type with a destructor leave raw memory
    behind. *)
Definition memmove p d s n m : option (mem A) :=
  ss ← slots p s n m;
  m ← if negb has_trivial_dtor then set_slots p s (replicate (Z.to_nat n) None) m else Some m;
  construct p d ss m.

Definition move_step p d s m : option (mem A) :=
  m ← _do_copy p d (Inside p s) 1 m;
  _do_destroy p s 1 m.

Fixpoint move_forward_loop (n : nat) p d s m : option (mem A) :=
  match n with
  | O => Some m
  | S n => m ← move_step p (d + Z.of_nat n) (s + Z.of_nat n) m; move_forward_loop n p d s m
  end.

Fixpoint move_backward_loop (n : nat) p d s m : option (mem A) :=
  match n with
  | O => Some m
  | S n => m ← move_step p d s m; move_backward_loop n p (d + 1) (s + 1) m
  end.

Definition by_memmove : bool := (has_trivial_dtor && has_trivial_copy) || has_trivial_move.

Definition _do_move_forward p d s n m : option (mem A) :=
  if by_memmove then memmove p d s n m else move_forward_loop (Z.to_nat n) p d s m.

Definition _do_move_backward p d s n m : option (mem A) :=
  if by_memmove then memmove p d s n m else move_backward_loop (Z.to_nat n) p d s m.

(** ** Shared buffers *)

Definition sizeof_SharedBuffer : Z := 16.

(** The [calls]-th answer of the allocator. *)
Definition ask (taken : gset Z) size m : Z * mem A :=
  (malloc (calls m) taken size, mkMem (bufs m) (S (calls m))).

(** The slots in [n] bytes behind a header. *)
Definition room n : nat := Z.to_nat ((n - sizeof_SharedBuffer) / mItemSize).

(** Answers 0 on failure. *)
Definition alloc size m : option (Z * mem A) :=
  let n := u32 (sizeof_SharedBuffer + size) in
  let '(p, m) := ask (dom (bufs m)) n m in
  if p =? 0 then Some (0, m)
  else if n <? sizeof_SharedBuffer then None
  else Some (p, upd p (mkBuffer 1 size (replicate (room n) None)) m).

(** [free] of a buffer without objects. *)
Definition free p m : option (mem A) :=
  b ← bufs m !! p;
  if has_trivial_dtor || forallb is_raw (items b)
  then Some (mkMem (delete p (bufs m)) (calls m)) else None.

Definition dealloc p m : option (Z * mem A) :=
  b ← bufs m !! p;
  if negb (mRefs b =? 0) then Some (-1, m) else m ← free p m; Some (0, m).

Definition onlyOwner (b : SharedBuffer A) : bool := mRefs b =? 1.

Definition acquire p m : option (mem A) :=
  b ← bufs m !! p; Some (upd p (set_refs (s32 (mRefs b + 1)) b) m).

Definition release (keepStorage : bool) p m : option (Z * mem A) :=
  b ← bufs m !! p;
  let '(prev, b) :=
    if onlyOwner b then (1, b) else (mRefs b, set_refs (s32 (mRefs b - 1)) b) in
  if prev =? 1 then
    let m := upd p (set_refs 0 b) m in
    m ← if negb keepStorage then free p m else Some m;
    Some (prev, m)
  else Some (prev, upd p b m).

Definition attemptEdit p m : option Z :=
  b ← bufs m !! p; Some (if onlyOwner b then p else 0).

(** [memcpy] of the first [n] slots into a new buffer. *)
Definition copy_bytes (sb p n : Z) m : option (mem A) :=
  ss ← slots p 0 n m; set_slots sb 0 ss m.

(** [realloc] may move the block; the slots that fit keep their contents. *)
Definition editResize p newSize m : option (Z * mem A) :=
  b ← bufs m !! p;
  let other m :=
    '(sb, m) ← alloc newSize m;
    if negb (sb =? 0) then
      m ← copy_bytes sb p ((if newSize <? mSize b then newSize else mSize b) / mItemSize) m;
      '(_, m) ← release false p m;
      Some (sb, m)
    else Some (sb, m) in
  if onlyOwner b then
    if mSize b =? newSize then Some (p, m)
    else
      let n := u32 (sizeof_SharedBuffer + newSize) in
      let '(q, m) := ask (dom (bufs m) ∖ {[p]}) n m in
      if negb (q =? 0) then
        if n <? sizeof_SharedBuffer then None
        else Some (q, mkMem (<[q := mkBuffer (mRefs b) newSize
                                     (resize (room n) None (items b))]> (delete p (bufs m))) (calls m))
      else other m
  else other m.

(** ** Vectors *)

Definition kMinVectorCapacity : Z := 4.

Definition new_vector : VectorImpl := mkVector 0 0.

Definition capacity v m : option Z :=
  if negb (mStorage v =? 0) then b ← bufs m !! mStorage v; Some (mSize b / mItemSize) else Some 0.

Definition release_storage v m : option (mem A) :=
  if negb (mStorage v =? 0) then
    '(prev, m) ← release true (mStorage v) m;
    if prev =? 1 then
      m ← _do_destroy (mStorage v) 0 (mCount v) m;
      '(_, m) ← dealloc (mStorage v) m;
      Some m
    else Some m
  else Some m.

Definition copy_vector (rhs : VectorImpl) m : option (VectorImpl * mem A) :=
  m ← if negb (mStorage rhs =? 0) then acquire (mStorage rhs) m else Some m;
  Some (rhs, m).

(** [same]: the two are the same object. *)
Definition assign_vector (same : bool) v (rhs : VectorImpl) m : option (VectorImpl * mem A) :=
  if negb same then
    m ← release_storage v m;
    if negb (mCount rhs =? 0) then m ← acquire (mStorage rhs) m; Some (rhs, m)
    else Some (mkVector 0 0, m)
  else Some (v, m).

Definition finish_vector v m : option (VectorImpl * mem A) :=
  m ← release_storage v m; Some (mkVector 0 0, m).

Definition editArrayImpl v m : option (Z * VectorImpl * mem A) :=
  if negb (mStorage v =? 0) then
    sb ← attemptEdit (mStorage v) m;
    if sb =? 0 then
      cap ← capacity v m;
      '(sb, m) ← alloc (u32 (cap * mItemSize)) m;
      if negb (sb =? 0) then
        m ← _do_copy sb 0 (Inside (mStorage v) 0) (mCount v) m;
        m ← release_storage v m;
        Some (sb, mkVector sb (mCount v), m)
      else Some (mStorage v, v, m)
    else Some (mStorage v, v, m)
  else Some (0, v, m).

(** An item's address; [None] inside is NULL. *)
Definition itemLocation index v m : option (option (Z * Z)) :=
  cap ← capacity v m;
  Some (if (index <? cap) && negb (mStorage v =? 0) then Some (mStorage v, index) else None).

Definition editItemLocation index v m : option (option (Z * Z) * VectorImpl * mem A) :=
  cap ← capacity v m;
  if index <? cap then
    '(buffer, v, m) ← editArrayImpl v m;
    Some (if negb (buffer =? 0) then Some (buffer, index) else None, v, m)
  else Some (None, v, m).

Definition setCapacity new_capacity v m : option (Z * VectorImpl * mem A) :=
  current_capacity ← capacity v m;
  let amount := s32 (new_capacity - mCount v) in
  if amount <=? 0 then Some (s32 current_capacity, v, m)
  else
    '(sb, m) ← alloc (u32 (new_capacity * mItemSize)) m;
    if negb (sb =? 0) then
      m ← _do_copy sb 0 (Inside (mStorage v) 0) (mCount v) m;
      m ← release_storage v m;
      Some (s32 new_capacity, mkVector sb (mCount v), m)
    else Some (NO_MEMORY, v, m).

(** Both resizing functions take a short cut for types that [memcpy] copies. *)
Definition resize_flags : bool := has_trivial_copy && has_trivial_dtor.

(** [_grow] into a larger buffer, of [size] bytes; within the buffer; both. *)
Definition grow_new where_ amount size v m : option (VectorImpl * mem A) :=
  if negb (mStorage v =? 0) && (mCount v =? where_) && resize_flags then
    '(sb, m) ← editResize (mStorage v) size m;
    if sb =? 0 then None else Some (mkVector sb (mCount v), m)
  else
    '(sb, m) ← alloc size m;
    if negb (sb =? 0) then
      m ← if negb (where_ =? 0) then _do_copy sb 0 (Inside (mStorage v) 0) where_ m else Some m;
      m ← if negb (where_ =? mCount v)
          then _do_copy sb (u32 (where_ + amount)) (Inside (mStorage v) where_) (u32 (mCount v - where_)) m
          else Some m;
      m ← release_storage v m;
      Some (mkVector sb (mCount v), m)
    else Some (v, m).

Definition grow_inside where_ amount v m : option (VectorImpl * mem A) :=
  '(array, v, m) ← editArrayImpl v m;
  m ← if negb (where_ =? mCount v)
      then _do_move_forward array (u32 (where_ + amount)) where_ (u32 (mCount v - where_)) m
      else Some m;
  Some (v, m).

Definition _grow where_ amount v m : option (option (Z * Z) * VectorImpl * mem A) :=
  let new_size := u32 (mCount v + amount) in
  cap ← capacity v m;
  '(v, m) ←
    if cap <? new_size then
      let new_capacity := Z.max kMinVectorCapacity (u32 (u32 (new_size * 3) + 1) / 2) in
      grow_new where_ amount (u32 (new_capacity * mItemSize)) v m
    else grow_inside where_ amount v m;
  let v := mkVector (mStorage v) new_size in
  free_space ← itemLocation where_ v m;
  Some (free_space, v, m).

(** [_shrink] likewise. *)
Definition shrink_new where_ amount new_size size v m : option (VectorImpl * mem A) :=
  if (where_ =? new_size) && resize_flags then
    '(sb, m) ← editResize (mStorage v) size m;
    if sb =? 0 then None else Some (mkVector sb (mCount v), m)
  else
    '(sb, m) ← alloc size m;
    if negb (sb =? 0) then
      m ← if negb (where_ =? 0) then _do_copy sb 0 (Inside (mStorage v) 0) where_ m else Some m;
      m ← if negb (where_ =? new_size)
          then _do_copy sb where_ (Inside (mStorage v) (u32 (where_ + amount))) (u32 (new_size - where_)) m
          else Some m;
      m ← release_storage v m;
      Some (mkVector sb (mCount v), m)
    else Some (v, m).

Definition shrink_inside where_ amount new_size v m : option (VectorImpl * mem A) :=
  '(array, v, m) ← editArrayImpl v m;
  m ← _do_destroy array where_ amount m;
  m ← if negb (where_ =? new_size)
      then _do_move_backward array where_ (u32 (where_ + amount)) (u32 (new_size - where_)) m
      else Some m;
  Some (v, m).

Definition _shrink where_ amount v m : option (VectorImpl * mem A) :=
  if mStorage v =? 0 then Some (v, m) else
  let new_size := u32 (mCount v - amount) in
  cap ← capacity v m;
  '(v, m) ←
    if u32 (new_size * 3) <? cap then
      let new_capacity := Z.max kMinVectorCapacity (u32 (new_size * 2)) in
      shrink_new where_ amount new_size (u32 (new_capacity * mItemSize)) v m
    else shrink_inside where_ amount new_size v m;
  Some (mkVector (mStorage v) new_size, m).

Definition insertArrayAt (array : source A) index length v m : option (Z * VectorImpl * mem A) :=
  if mCount v <? index then Some (BAD_INDEX, v, m) else
  '(where_, v, m) ← _grow index length v m;
  match where_ with
  | Some (p, i) => m ← _do_copy p i array length m; Some (s32 index, v, m)
  | None => Some (NO_MEMORY, v, m)
  end.

Definition insertVectorAt (vector : VectorImpl) index v m : option (Z * VectorImpl * mem A) :=
  insertArrayAt (Inside (mStorage vector) 0) index (mCount vector) v m.
Definition appendVector (vector : VectorImpl) v m : option (Z * VectorImpl * mem A) :=
  insertVectorAt vector (mCount v) v m.
Definition appendArray (array : source A) length v m : option (Z * VectorImpl * mem A) :=
  insertArrayAt array (mCount v) length v m.

(** [item] may be NULL. *)
Definition insertAt (item : option (source A)) index numItems v m : option (Z * VectorImpl * mem A) :=
  if mCount v <? index then Some (BAD_INDEX, v, m) else
  '(where_, v, m) ← _grow index numItems v m;
  match where_ with
  | Some (p, i) =>
      m ← match item with
          | Some item => _do_splat p i item numItems m
          | None => _do_construct p i numItems m
          end;
      Some (s32 index, v, m)
  | None => Some (NO_MEMORY, v, m)
  end.

Definition add (item : option (source A)) v m : option (Z * VectorImpl * mem A) :=
  insertAt item (mCount v) 1 v m.
Definition push (item : option (source A)) v m : option (VectorImpl * mem A) :=
  '(_, v, m) ← insertAt item (mCount v) 1 v m; Some (v, m).

Definition removeItemsAt index count v m : option (Z * VectorImpl * mem A) :=
  if mCount v <? u32 (index + count) then Some (BAD_VALUE, v, m) else
  '(v, m) ← _shrink index count v m;
  Some (s32 index, v, m).

Definition pop v m : option (VectorImpl * mem A) :=
  if negb (mCount v =? 0) then
    '(_, v, m) ← removeItemsAt (mCount v - 1) 1 v m; Some (v, m)
  else Some (v, m).

Definition clear v m : option (VectorImpl * mem A) := _shrink 0 (mCount v) v m.

(** Are the two the same address? *)
Definition same_place (l : Z * Z) (s : source A) : bool :=
  match s with Outside _ => false | Inside p i => (l.1 =? p) && (l.2 =? i) end.

Definition replaceAt (prototype : option (source A)) index v m : option (Z * VectorImpl * mem A) :=
  if mCount v <=? index then Some (BAD_INDEX, v, m) else
  '(item, v, m) ← editItemLocation index v m;
  match item, prototype with
  | None, None => Some (s32 index, v, m)
  | None, Some _ => Some (NO_MEMORY, v, m)
  | Some (p, i), Some prototype =>
      if same_place (p, i) prototype then Some (s32 index, v, m)
      else
        m ← _do_destroy p i 1 m;
        m ← _do_copy p i prototype 1 m;
        Some (s32 index, v, m)
  | Some (p, i), None =>
      m ← _do_destroy p i 1 m;
      m ← _do_construct p i 1 m;
      Some (s32 index, v, m)
  end.

(** An object that is read or assigned to. *)
Definition get p i m : option A := ss ← slots p i 1 m; mjoin (head ss).
Definition assign p i (x : A) m : option (mem A) := _ ← get p i m; set_slots p i [Some x] m.

(** [v.editItemAt(index) = x]. *)
Definition editItemAt index (x : A) v m : option (VectorImpl * mem A) :=
  '(item, v, m) ← editItemLocation index v m;
  '(p, i) ← item;
  m ← assign p i x m;
  Some (v, m).

(** [v[index]]; beyond the count the source only logs. *)
Definition itemAt index v m : option A := get (mStorage v) index m.

(** ** Sorting *)

Section sort.
Variable cmp : A -> A -> Z.

(** Shifts items up from [j] on until the place of [temp] is found; [next] is
    [j + 1]. *)
Fixpoint sort_shift (fuel : nat) (array j : Z) (temp : A) m : option (Z * mem A) :=
  match fuel with
  | O => None
  | S fuel =>
      m ← _do_destroy array (j + 1) 1 m;
      m ← _do_copy array (j + 1) (Inside array j) 1 m;
      let j := j - 1 in
      if 0 <=? j then
        curr ← get array j m;
        if 0 <? cmp curr temp then sort_shift fuel array j temp m else Some (j + 1, m)
      else Some (j + 1, m)
  end.

(** [have]: [temp] has been allocated; a block of its own, freed at the end. *)
Fixpoint sort_loop (n : nat) i (array : Z) (have : bool) v m : option (Z * VectorImpl * mem A) :=
  match n with
  | O => Some (NO_ERROR, v, m)
  | S n =>
      curr ← get array (i - 1) m;
      item ← get array i m;
      if 0 <? cmp curr item then
        '(ok, array, v, m) ←
          if negb have then
            '(array, v, m) ← editArrayImpl v m;
            if array =? 0 then Some (false, array, v, m)
            else
              let '(t, m) := ask (dom (bufs m)) mItemSize m in
              Some (negb (t =? 0), array, v, m)
          else Some (true, array, v, m);
        if negb ok then Some (NO_MEMORY, v, m)
        else
          temp ← get array i m;
          '(next, m) ← sort_shift (Z.to_nat i) array (i - 1) temp m;
          m ← _do_destroy array next 1 m;
          m ← construct array next [Some temp] m;
          sort_loop n (i + 1) array true v m
      else sort_loop n (i + 1) array have v m
  end.

Definition sort v m : option (Z * VectorImpl * mem A) :=
  let count := s32 (mCount v) in    (* an ssize_t *)
  if 1 <? count then sort_loop (Z.to_nat (count - 1)) 1 (mStorage v) false v m
  else Some (NO_ERROR, v, m).
End sort.
End vector.
