(* ===== verification/VectorRefine.v ===== *)
(** * system/libutils/VectorImpl.cpp: what vectors promise

    [counted m ps]: memory holds the buffers that the pointers [ps] refer to,
    each with its number of references, and nothing else.  [content m v l]: the
    vector [v] holds the items [l].  Each operation is shown to change its own
    vector as the operation on lists does and to keep all others. *)

From S2P Require Import Prelude VectorImpl.

(** What the operations need of their surroundings: allocation succeeds and gives
    memory that is not in use; items have a size, and it is not enormous. *)
Class Sound {A} (IT : ItemType A) (AL : Allocator) : Prop := {
  malloc_ok : forall (k : nat) (taken : gset Z) (size : Z),
    malloc k taken size <> 0 /\ malloc k taken size ∉ taken;
  itemSize_ok : 0 < mItemSize < 2 ^ 29
}.

Section refine.
Context {A : Type} {IT : ItemType A} {AL : Allocator} {SD : Sound IT AL}.
Implicit Types (p q i n size : Z) (m : mem A) (v : VectorImpl) (l : list A) (ps : list Z)
  (b : SharedBuffer A) (ss : list (option A)).
Let size_range : 0 < mItemSize < 2 ^ 29 := itemSize_ok.

(** ** Slots *)

(** Slots that may be overwritten. *)
Definition spare ss : Prop := has_trivial_dtor || forallb is_raw ss = true.

(** What is left of destroyed items. *)
Definition gone l : list (option A) :=
  if has_trivial_dtor then Some <$> l else replicate (length l) None.

Lemma forallb_raw k : forallb is_raw (replicate k (@None A)) = true.
Proof. by induction k. Qed.

Lemma forallb_objects l : forallb (fun s => negb (is_raw s)) (Some <$> l) = true.
Proof. by induction l. Qed.

Lemma spare_raw k : spare (replicate k None).
Proof. unfold spare. by rewrite forallb_raw, orb_true_r. Qed.

Lemma spare_gone l : spare (gone l).
Proof. unfold spare, gone. destruct has_trivial_dtor eqn:E; [done|]. apply forallb_raw. Qed.

Lemma spare_app ss ss' : spare (ss ++ ss') <-> spare ss /\ spare ss'.
Proof.
  unfold spare. rewrite forallb_app. destruct has_trivial_dtor; [tauto|]. apply andb_true_iff.
Qed.

Lemma length_gone l : length (gone l) = length l.
Proof. unfold gone. destruct has_trivial_dtor; [apply length_fmap|apply length_replicate]. Qed.

Lemma set_items_id b : set_items (items b) b = b.
Proof. by destruct b. Qed.

Lemma upd_id p b m : bufs m !! p = Some b -> upd p b m = m.
Proof. intros H. destruct m as [bs c]. unfold upd. simpl in *. by rewrite insert_id. Qed.

Lemma upd_upd p b b' m : upd p b (upd p b' m) = upd p b m.
Proof. unfold upd. simpl. by rewrite insert_insert_eq. Qed.

Lemma lookup_upd p b m : bufs (upd p b m) !! p = Some b.
Proof. simpl. apply lookup_insert_eq. Qed.

Lemma slots_at p i n m b X ss Y :
  bufs m !! p = Some b -> items b = X ++ ss ++ Y -> i = Z.of_nat (length X) ->
  n = Z.of_nat (length ss) -> slots p i n m = Some ss.
Proof.
  intros Hb E -> ->. unfold slots. rewrite Hb. cbn [mbind option_bind].
  rewrite E, !length_app, (proj2 (Z.leb_le 0 _)), (proj2 (Z.leb_le 0 (Z.of_nat (length ss)))), (proj2 (Z.leb_le (_ + _) _)) by lia.
  cbn [andb]. rewrite !Nat2Z.id, drop_app_length. f_equal. by rewrite take_app_length.
Qed.

Lemma set_slots_at p i m b X old ss Y :
  bufs m !! p = Some b -> items b = X ++ old ++ Y -> i = Z.of_nat (length X) ->
  length ss = length old -> set_slots p i ss m = Some (upd p (set_items (X ++ ss ++ Y) b) m).
Proof.
  intros Hb E -> L. unfold set_slots. rewrite Hb. cbn [mbind option_bind].
  rewrite E, !length_app, (proj2 (Z.leb_le 0 _)), (proj2 (Z.leb_le (_ + _) _)) by lia.
  cbn [andb]. do 3 f_equal. unfold splice. rewrite Nat2Z.id, take_app_length. do 2 f_equal.
  rewrite L, drop_app_add. apply drop_app_length.
Qed.

Lemma read_at p i n m b X l Y :
  bufs m !! p = Some b -> items b = X ++ (Some <$> l) ++ Y -> i = Z.of_nat (length X) ->
  n = Z.of_nat (length l) -> read p i n m = Some (Some <$> l).
Proof.
  intros Hb E Hi Hn. unfold read. destruct (Z.eqb_spec n 0) as [E0|E0].
  { by destruct l; [|simpl in *; lia]. }
  rewrite (slots_at p i n m b X (Some <$> l) Y) by (rewrite ?length_fmap; done).
  cbn [mbind option_bind]. by rewrite forallb_objects, orb_true_r.
Qed.

Lemma construct_at p i m b X old ss Y :
  bufs m !! p = Some b -> items b = X ++ old ++ Y -> spare old -> i = Z.of_nat (length X) ->
  length ss = length old -> construct p i ss m = Some (upd p (set_items (X ++ ss ++ Y) b) m).
Proof.
  intros Hb E Hs Hi L. destruct ss as [|s ss].
  - destruct old; [|done]. simpl in *. rewrite <- E, set_items_id, upd_id; done.
  - unfold construct. rewrite (slots_at p i _ m b X old Y) by (done || lia).
    cbn [mbind option_bind]. rewrite Hs. by eapply set_slots_at.
Qed.

Lemma destroy_at p i n m b X l Y :
  bufs m !! p = Some b -> items b = X ++ (Some <$> l) ++ Y -> i = Z.of_nat (length X) ->
  n = Z.of_nat (length l) ->
  _do_destroy p i n m = Some (upd p (set_items (X ++ gone l ++ Y) b) m).
Proof.
  intros Hb E Hi ->. unfold _do_destroy, gone. destruct has_trivial_dtor eqn:T; simpl.
  - by rewrite <- E, set_items_id, upd_id.
  - rewrite (slots_at p i _ m b X (Some <$> l) Y) by (rewrite ?length_fmap; done).
    cbn [mbind option_bind]. rewrite forallb_objects, Nat2Z.id. eapply set_slots_at; [done..|].
    by rewrite length_replicate, length_fmap.
Qed.

(** One object moves. *)
Lemma move_step_at p d s m b (X Y Z : list (option A)) x old :
  bufs m !! p = Some b -> spare [old] ->
  (items b = X ++ [Some x] ++ Y ++ [old] ++ Z /\ s = Z.of_nat (length X) /\
     d = Z.of_nat (length X + 1 + length Y) \/
   items b = X ++ [old] ++ Y ++ [Some x] ++ Z /\ d = Z.of_nat (length X) /\
     s = Z.of_nat (length X + 1 + length Y)) ->
  move_step p d s m = Some (upd p (set_items
    (if s <? d then X ++ gone [x] ++ Y ++ [Some x] ++ Z else X ++ [Some x] ++ Y ++ gone [x] ++ Z) b) m).
Proof.
  intros Hb Ho [(E & -> & ->)|(E & -> & ->)]; unfold move_step, _do_copy, read_source;
    change [Some x] with (Some <$> [x]) in *.
  - rewrite (read_at p _ _ m b X [x] (Y ++ [old] ++ Z) Hb E) by done. cbn [mbind option_bind].
    rewrite (construct_at p _ m b (X ++ (Some <$> [x]) ++ Y) [old] (Some <$> [x]) Z)
      by (rewrite ?length_app, ?E, <- ?app_assoc; simpl; (done || lia)).
    cbn [mbind option_bind].
    rewrite (destroy_at p _ _ _ _ X [x] (Y ++ (Some <$> [x]) ++ Z) (lookup_upd _ _ _))
      by (simpl; rewrite <- ?app_assoc; done).
    rewrite upd_upd, (proj2 (Z.ltb_lt _ _)) by lia. done.
  - rewrite (read_at p _ _ m b (X ++ [old] ++ Y) [x] Z Hb)
      by (rewrite ?length_app, ?E, <- ?app_assoc; simpl; (done || lia)). cbn [mbind option_bind].
    rewrite (construct_at p _ m b X [old] (Some <$> [x]) (Y ++ (Some <$> [x]) ++ Z)) by done.
    cbn [mbind option_bind].
    rewrite (destroy_at p _ _ _ _ (X ++ (Some <$> [x]) ++ Y) [x] Z (lookup_upd _ _ _))
      by (simpl; rewrite ?length_app, <- ?app_assoc; simpl; (done || lia)).
    rewrite upd_upd, (proj2 (Z.ltb_ge _ _)) by lia. simpl. by rewrite <- !app_assoc.
Qed.

(** Blocks of items move; the slots they leave are spare.  Moving them by no
    distance at all works only with [memmove]. *)
Definition movable (gap : list (option A)) : Prop := by_memmove = true \/ gap <> [].

Lemma memmove_at p d s n m b X l Y Z W ss :
  bufs m !! p = Some b -> items b = X ++ (Some <$> l) ++ Y -> s = Z.of_nat (length X) ->
  n = Z.of_nat (length l) -> X ++ gone l ++ Y = Z ++ ss ++ W -> spare ss -> length ss = length l ->
  d = Z.of_nat (length Z) ->
  memmove p d s n m = Some (upd p (set_items (Z ++ (Some <$> l) ++ W) b) m).
Proof.
  intros Hb E Hs Hn E2 Hsp L Hd. unfold memmove.
  rewrite (slots_at p s n m b X (Some <$> l) Y) by (rewrite ?length_fmap; done).
  cbn [mbind option_bind].
  assert (H : (if negb has_trivial_dtor then set_slots p s (replicate (Z.to_nat n) None) m else Some m)
    = Some (upd p (set_items (X ++ gone l ++ Y) b) m)).
  { unfold gone. destruct has_trivial_dtor; simpl.
    - by rewrite <- E, set_items_id, upd_id.
    - rewrite Hn, Nat2Z.id. eapply set_slots_at; [done..|]. by rewrite length_replicate, length_fmap. }
  rewrite H. cbn [mbind option_bind].
  rewrite (construct_at p d _ _ Z ss (Some <$> l) W (lookup_upd _ _ _))
    by (simpl; rewrite ?length_fmap; done).
  by rewrite upd_upd.
Qed.

Lemma move_forward_loop_at X l : forall p m b gap W,
  bufs m !! p = Some b -> items b = X ++ (Some <$> l) ++ gap ++ W -> spare gap -> gap <> [] ->
  exists gap', spare gap' /\ length gap' = length gap /\
    move_forward_loop (length l) p (Z.of_nat (length X + length gap)) (Z.of_nat (length X)) m
    = Some (upd p (set_items (X ++ gap' ++ (Some <$> l) ++ W) b) m).
Proof.
  induction l as [|x l IH] using rev_ind; intros p m b gap W Hb E Hg Hne.
  { exists gap. simpl in *. by rewrite <- E, set_items_id, upd_id. }
  destruct gap as [|o g _] using rev_ind; [done|]. apply spare_app in Hg as [Hg Ho].
  rewrite (length_app l), (length_app g), (Nat.add_comm (length l)). cbn [length Nat.add move_forward_loop].
  rewrite fmap_app in E. cbn [fmap list_fmap] in E.
  rewrite (move_step_at p _ _ m b (X ++ (Some <$> l)) g W x o Hb Ho)
    by (left; rewrite ?length_app, ?length_fmap; simpl; rewrite E, <- ?app_assoc; split_and!; (done || lia)).
  cbn [mbind option_bind]. rewrite (proj2 (Z.ltb_lt _ _)) by (rewrite ?length_app; simpl; lia).
  destruct (IH p _ _ (gone [x] ++ g) ([Some x] ++ W)
    (lookup_upd p (set_items ((X ++ (Some <$> l)) ++ gone [x] ++ g ++ [Some x] ++ W) b) m))
    as (gap' & S' & L' & Eq).
  { simpl. by rewrite <- !app_assoc. }
  { apply spare_app. split; [apply spare_gone|done]. }
  { intros [H _]%app_nil. apply (f_equal length) in H. rewrite length_gone in H. done. }
  exists gap'. rewrite length_app, length_gone in L', Eq. split; [done|].
  simpl in L'. split; [simpl; lia|].
  replace (length X + (length g + 1))%nat with (length X + (length [x] + length g))%nat by (simpl; lia).
  rewrite Eq, upd_upd, fmap_app. by rewrite <- !app_assoc.
Qed.

Lemma move_backward_loop_at l : forall p m b X gap W,
  bufs m !! p = Some b -> items b = X ++ gap ++ (Some <$> l) ++ W -> spare gap -> gap <> [] ->
  exists gap', spare gap' /\ length gap' = length gap /\
    move_backward_loop (length l) p (Z.of_nat (length X)) (Z.of_nat (length X + length gap)) m
    = Some (upd p (set_items (X ++ (Some <$> l) ++ gap' ++ W) b) m).
Proof.
  induction l as [|x l IH]; intros p m b X gap W Hb E Hg Hne.
  { exists gap. simpl in *. by rewrite <- E, set_items_id, upd_id. }
  destruct gap as [|o g]; [done|]. change (o :: g) with ([o] ++ g) in *.
  apply spare_app in Hg as [Ho Hg]. cbn [length move_backward_loop].
  rewrite (move_step_at p _ _ m b X g ((Some <$> l) ++ W) x o Hb Ho)
    by (right; rewrite E, <- !app_assoc; simpl; split_and!; (done || lia)).
  cbn [mbind option_bind]. rewrite (proj2 (Z.ltb_ge _ _)) by (rewrite ?length_app; simpl; lia).
  destruct (IH p _ _ (X ++ [Some x]) (g ++ gone [x]) W
    (lookup_upd p (set_items (X ++ [Some x] ++ g ++ gone [x] ++ (Some <$> l) ++ W) b) m))
    as (gap' & S' & L' & Eq).
  { simpl. by rewrite <- !app_assoc. }
  { apply spare_app. split; [done|apply spare_gone]. }
  { intros [_ H]%app_nil. apply (f_equal length) in H. rewrite length_gone in H. done. }
  exists gap'. rewrite length_app, length_gone in L'. rewrite !length_app, length_gone in Eq.
  split; [done|]. rewrite length_app. simpl in L', Eq |- *. split; [lia|].
  replace (Z.of_nat (length X) + 1) with (Z.of_nat (length X + 1)) by lia.
  replace (Z.of_nat (length X + S (length g)) + 1) with (Z.of_nat (length X + 1 + (length g + 1))) by lia.
  rewrite Eq, upd_upd. by rewrite <- !app_assoc.
Qed.

(** The first [n] of some spare slots. *)
Lemma spare_split ss k : spare ss -> spare (take k ss) /\ spare (drop k ss).
Proof. intros H. apply spare_app. by rewrite take_drop. Qed.

Lemma move_forward_at p d s n m b X l gap W :
  bufs m !! p = Some b -> items b = X ++ (Some <$> l) ++ gap ++ W -> spare gap -> movable gap ->
  s = Z.of_nat (length X) -> d = Z.of_nat (length X + length gap) -> n = Z.of_nat (length l) ->
  exists gap', spare gap' /\ length gap' = length gap /\
    _do_move_forward p d s n m = Some (upd p (set_items (X ++ gap' ++ (Some <$> l) ++ W) b) m).
Proof.
  intros Hb E Hg Hmv Hs Hd Hn. unfold _do_move_forward. destruct by_memmove eqn:Hby.
  - destruct (spare_split (gone l ++ gap) (length gap)) as [S1 S2].
    { apply spare_app. split; [apply spare_gone|done]. }
    exists (take (length gap) (gone l ++ gap)). split; [done|].
    assert (L1 : length (take (length gap) (gone l ++ gap)) = length gap)
      by (rewrite length_take, length_app; lia).
    split; [done|]. rewrite (app_assoc X). eapply memmove_at; try eassumption.
    + by rewrite <- (app_assoc X), (app_assoc (take _ _)), take_drop, <- app_assoc.
    + rewrite length_drop, length_app, length_gone. lia.
    + rewrite (length_app X), L1. exact Hd.
  - destruct Hmv as [|Hne]; [congruence|]. subst. rewrite Nat2Z.id. by apply move_forward_loop_at.
Qed.

Lemma move_backward_at p d s n m b X l gap W :
  bufs m !! p = Some b -> items b = X ++ gap ++ (Some <$> l) ++ W -> spare gap -> movable gap ->
  d = Z.of_nat (length X) -> s = Z.of_nat (length X + length gap) -> n = Z.of_nat (length l) ->
  exists gap', spare gap' /\ length gap' = length gap /\
    _do_move_backward p d s n m = Some (upd p (set_items (X ++ (Some <$> l) ++ gap' ++ W) b) m).
Proof.
  intros Hb E Hg Hmv Hd Hs Hn. unfold _do_move_backward. destruct by_memmove eqn:Hby.
  - destruct (spare_split (gap ++ gone l) (length l)) as [S1 S2].
    { apply spare_app. split; [done|apply spare_gone]. }
    exists (drop (length l) (gap ++ gone l)). split; [done|].
    split; [rewrite length_drop, length_app, length_gone; lia|].
    eapply (memmove_at p d s n m b (X ++ gap) l W X _ (take (length l) (gap ++ gone l)));
      [done|by rewrite E, <- app_assoc|by rewrite length_app|done| |exact S1| |done].
    + by rewrite (app_assoc (take _ _)), take_drop, <- !app_assoc.
    + rewrite length_take, length_app, length_gone. lia.
  - destruct Hmv as [|Hne]; [congruence|]. subst. rewrite Nat2Z.id. by apply move_backward_loop_at.
Qed.

(** ** Reference counts *)

Definition refs_to p ps : Z := Z.of_nat (length (filter (fun q => q = p) ps)).

Lemma refs_to_cons p q ps : refs_to p (q :: ps) = (if decide (q = p) then 1 else 0) + refs_to p ps.
Proof. unfold refs_to. rewrite filter_cons. case_decide; simpl; lia. Qed.

Lemma refs_to_perm p ps ps' : Permutation ps ps' -> refs_to p ps = refs_to p ps'.
Proof. intros H. unfold refs_to. by rewrite H. Qed.

Lemma refs_to_le p ps : 0 <= refs_to p ps <= Z.of_nat (length ps).
Proof. unfold refs_to. pose proof (length_filter (fun q => q = p) ps). lia. Qed.

Lemma refs_to_pos p ps : p ∈ ps <-> 0 < refs_to p ps.
Proof.
  induction ps as [|q ps IH]; [split; [by intros ?%not_elem_of_nil|by unfold refs_to]|].
  rewrite elem_of_cons, refs_to_cons, IH. pose proof (refs_to_le p ps). case_decide; naive_solver lia.
Qed.

Lemma refs_to_none p ps : p ∉ ps -> refs_to p ps = 0.
Proof. rewrite refs_to_pos. pose proof (refs_to_le p ps). lia. Qed.

Definition buf_ok p b : Prop :=
  p <> 0 /\ 0 <= mSize b /\ mSize b + sizeof_SharedBuffer < 2 ^ 32 /\
  Z.of_nat (length (items b)) = mSize b / mItemSize.

Record counted m ps : Prop := {
  counted_buf p b : bufs m !! p = Some b -> buf_ok p b /\ mRefs b = refs_to p ps /\ 0 < refs_to p ps;
  counted_ptr p : p ∈ ps -> p = 0 \/ is_Some (bufs m !! p);
  counted_few : Z.of_nat (length ps) < 2 ^ 31
}.

(** The buffers of [ps] keep their slots. *)
Definition keeps ps m m' : Prop :=
  forall p, p ∈ ps -> items <$> bufs m !! p = items <$> bufs m' !! p.

(** [p] is the only pointer to its buffer. *)
Record owned m p ps b : Prop := {
  owned_counted : counted m (p :: ps);
  owned_only : p ∉ ps;
  owned_buf : bufs m !! p = Some b
}.

Lemma counted_perm m ps ps' : Permutation ps ps' -> counted m ps -> counted m ps'.
Proof.
  intros P [H1 H2 H3]. split.
  - intros p b Hb. rewrite <- (refs_to_perm p _ _ P). by apply H1.
  - intros p Hp. apply H2. by rewrite P.
  - by rewrite <- (Permutation_length P).
Qed.

Lemma keeps_refl ps m : keeps ps m m.
Proof. done. Qed.

Lemma keeps_tr ps m m1 m2 : keeps ps m m1 -> keeps ps m1 m2 -> keeps ps m m2.
Proof. intros H1 H2 p Hp. by rewrite H1, H2. Qed.

Lemma keeps_sub ps ps' m m' : keeps ps' m m' -> (forall p, p ∈ ps -> p ∈ ps') -> keeps ps m m'.
Proof. intros H Hs p Hp. apply H. by apply Hs. Qed.

Lemma keeps_lookup ps m m' p b :
  keeps ps m m' -> p ∈ ps -> bufs m !! p = Some b -> exists b', bufs m' !! p = Some b' /\ items b' = items b.
Proof.
  intros H Hp Hb. specialize (H p Hp). rewrite Hb in H. destruct (bufs m' !! p) as [b'|]; [|done].
  exists b'. by injection H as ->.
Qed.

Lemma owned_refs m p ps b : owned m p ps b -> p <> 0 /\ mRefs b = 1 /\ buf_ok p b.
Proof.
  intros [Hc Ho Hb]. destruct (counted_buf _ _ Hc p b Hb) as (Hok & Hr & _). split; [apply Hok|].
  split; [|done]. by rewrite Hr, refs_to_cons, decide_True, refs_to_none.
Qed.

(** Writing into a buffer with one owner. *)
Lemma owned_upd m p ps b ss :
  owned m p ps b -> length ss = length (items b) ->
  owned (upd p (set_items ss b) m) p ps (set_items ss b) /\ keeps ps m (upd p (set_items ss b) m).
Proof.
  intros [Hc Ho Hb] L. split; [split|]; [split|..]; simpl.
  - intros q b'. destruct (decide (p = q)) as [<-|Hne].
    + rewrite lookup_insert_eq. intros [= <-]. destruct (counted_buf _ _ Hc p b Hb) as (Hok & Hr).
      split; [|done]. unfold buf_ok. simpl. by rewrite L.
    + rewrite lookup_insert_ne by done. apply (counted_buf _ _ Hc).
  - intros q Hq. destruct (counted_ptr _ _ Hc q Hq) as [|H]; [by left|right].
    destruct (decide (p = q)) as [<-|]; [rewrite lookup_insert_eq; eauto|by rewrite lookup_insert_ne].
  - apply (counted_few _ _ Hc).
  - done.
  - apply lookup_insert_eq.
  - intros q Hq. simpl. rewrite lookup_insert_ne; [done|]. by intros ->.
Qed.

Lemma counted_null m ps : counted m (0 :: ps) <-> counted m ps /\ Z.of_nat (length ps) + 1 < 2 ^ 31.
Proof.
  assert (R : forall p, p <> 0 -> refs_to p (0 :: ps) = refs_to p ps).
  { intros p Hp. rewrite refs_to_cons, decide_False by done. lia. }
  split.
  - intros [H1 H2 H3]. simpl in H3. split; [|lia]. split; [|intros p Hp; apply H2; by right|lia].
    intros p b Hb. destruct (H1 p b Hb) as (Hok & Hr). rewrite R in Hr by apply Hok. done.
  - intros [[H1 H2 H3] H4]. split; [|intros p [->|Hp]%elem_of_cons; [by left|by apply H2]|simpl; lia].
    intros p b Hb. destruct (H1 p b Hb) as (Hok & Hr). rewrite R by apply Hok. done.
Qed.

Lemma acquire_ok m ps p :
  counted m ps -> p ∈ ps -> p <> 0 -> Z.of_nat (length ps) + 1 < 2 ^ 31 ->
  exists m', acquire p m = Some m' /\ counted m' (p :: ps) /\ keeps ps m m'.
Proof.
  intros Hc Hp Hp0 Hfew. destruct (counted_ptr _ _ Hc p Hp) as [|[b Hb]]; [done|].
  destruct (counted_buf _ _ Hc p b Hb) as (Hok & Hr & Hpos). pose proof (refs_to_le p ps).
  exists (upd p (set_refs (mRefs b + 1) b) m). unfold acquire. rewrite Hb. cbn [mbind option_bind].
  rewrite wraps_id by width_lia. split; [done|]. split; [split|].
  - intros q b'. simpl. destruct (decide (p = q)) as [<-|Hne].
    + rewrite lookup_insert_eq. intros [= <-]. rewrite refs_to_cons, decide_True by done. split; [done|]. simpl. lia.
    + rewrite lookup_insert_ne by done. rewrite refs_to_cons, decide_False by done. apply (counted_buf _ _ Hc).
  - intros q Hq. simpl. destruct (decide (p = q)) as [<-|Hne]; [rewrite lookup_insert_eq; eauto|].
    rewrite lookup_insert_ne by done. apply elem_of_cons in Hq as [->|Hq]; [done|]. by apply (counted_ptr _ _ Hc).
  - simpl. lia.
  - intros q Hq. simpl. destruct (decide (p = q)) as [<-|Hne]; [by rewrite lookup_insert_eq, Hb|].
    by rewrite lookup_insert_ne.
Qed.

Lemma room_add size : 0 <= size -> room (sizeof_SharedBuffer + size) = Z.to_nat (size / mItemSize).
Proof. intros H. unfold room. do 2 f_equal. lia. Qed.

(** A new buffer. *)
Lemma alloc_ok m ps size :
  counted m ps -> 0 <= size -> size + sizeof_SharedBuffer < 2 ^ 32 -> Z.of_nat (length ps) + 1 < 2 ^ 31 ->
  exists p m', alloc size m = Some (p, m') /\ p <> 0 /\
    owned m' p ps (mkBuffer 1 size (replicate (Z.to_nat (size / mItemSize)) None)) /\ keeps ps m m'.
Proof.
  intros Hc H0 Hs Hfew. unfold alloc, ask. unfold sizeof_SharedBuffer in Hs.
  rewrite wrapu_id by (unfold sizeof_SharedBuffer; width_lia).
  destruct (malloc_ok (calls m) (dom (bufs m)) (sizeof_SharedBuffer + size)) as [Hp Hfresh].
  set (p := malloc _ _ _) in *. clearbody p. apply not_elem_of_dom in Hfresh.
  rewrite (proj2 (Z.eqb_neq p 0)), (proj2 (Z.ltb_ge _ _)) by (unfold sizeof_SharedBuffer; lia).
  rewrite room_add by done. do 2 eexists. split; [done|]. split; [done|].
  assert (Hn : p ∉ ps).
  { intros H. destruct (counted_ptr _ _ Hc p H) as [|[b Hb]]; [done|]. congruence. }
  split; [split; [split|..]|]; simpl.
  - intros q b'. destruct (decide (p = q)) as [<-|Hne].
    + rewrite lookup_insert_eq. intros [= <-]. rewrite refs_to_cons, decide_True, refs_to_none by done.
      split; [|done]. unfold buf_ok, sizeof_SharedBuffer. simpl.
      rewrite length_replicate, Z2Nat.id by (apply Z.div_pos; lia). split_and!; (done || lia).
    + rewrite lookup_insert_ne, refs_to_cons, decide_False by done. apply (counted_buf _ _ Hc).
  - intros q [->|Hq]%elem_of_cons; [rewrite lookup_insert_eq; eauto|].
    rewrite lookup_insert_ne by (by intros ->). by apply (counted_ptr _ _ Hc).
  - lia.
  - done.
  - apply lookup_insert_eq.
  - intros q Hq. simpl. rewrite lookup_insert_ne; [done|]. by intros ->.
Qed.

(** ** The items of a vector *)

Definition holds ss l : Prop := exists rest, ss = (Some <$> l) ++ rest /\ spare rest.

Definition content m v l : Prop :=
  mCount v = Z.of_nat (length l) /\
  (mStorage v = 0 /\ l = [] \/ exists b, bufs m !! mStorage v = Some b /\ holds (items b) l).

Lemma content_keeps ps m m' v l : keeps ps m m' -> mStorage v ∈ ps -> content m v l -> content m' v l.
Proof.
  intros Hk Hv [Hc [H|(b & Hb & Hh)]]; (split; [done|]); [by left|right].
  destruct (keeps_lookup _ _ _ _ _ Hk Hv Hb) as (b' & Hb' & E). exists b'. by rewrite E.
Qed.

(** Letting go of a vector's buffer. *)
Lemma release_ok m ps v l :
  counted m (mStorage v :: ps) -> content m v l ->
  exists m', release_storage v m = Some m' /\ counted m' ps /\ keeps ps m m'.
Proof.
  intros Hc [Hn Hv]. unfold release_storage. destruct (Z.eqb_spec (mStorage v) 0) as [E|E]; simpl.
  { rewrite E in Hc. apply counted_null in Hc as [Hc _]. by exists m. }
  destruct Hv as [[? _]|(b & Hb & rest & Ei & Hs)]; [done|]. set (p := mStorage v) in *.
  destruct (counted_buf _ _ Hc p b Hb) as (Hok & Hr & Hpos). pose proof (counted_few _ _ Hc) as Hfew.
  rewrite refs_to_cons, decide_True in Hr by done. pose proof (refs_to_le p ps). simpl in Hfew.
  unfold release. rewrite Hb. cbn [mbind option_bind]. unfold onlyOwner.
  destruct (Z.eqb_spec (mRefs b) 1) as [E1|E1]; simpl.
  - rewrite (destroy_at p 0 _ _ (set_refs 0 b) [] l rest (lookup_upd _ _ _)) by done.
    cbn [mbind option_bind]. rewrite upd_upd. unfold dealloc. rewrite lookup_upd.
    cbn [mbind option_bind mRefs set_items set_refs negb Z.eqb]. unfold free. rewrite lookup_upd.
    cbn [mbind option_bind items set_items].
    assert (spare (gone l ++ rest)) as Hsp by (apply spare_app; split; [apply spare_gone|done]).
    change ([] ++ gone l ++ rest) with (gone l ++ rest). rewrite Hsp.
    cbn [mbind option_bind]. eexists. split; [done|]. simpl.
    assert (Hnin : p ∉ ps) by (intros ?%refs_to_pos; lia).
    split; [split|].
    + intros q b'. simpl. rewrite delete_insert_eq. intros [Hne Hb']%lookup_delete_Some.
      destruct (counted_buf _ _ Hc q b' Hb') as (Hok' & Hr').
      rewrite refs_to_cons, decide_False in Hr' by done. done.
    + intros q Hq. simpl. rewrite delete_insert_eq, lookup_delete_ne by (by intros ->).
      apply (counted_ptr _ _ Hc). by right.
    + lia.
    + intros q Hq. simpl. by rewrite delete_insert_eq, lookup_delete_ne by (by intros ->).
  - rewrite (proj2 (Z.eqb_neq (mRefs b) 1)) by done. rewrite wraps_id by width_lia.
    cbn [mbind option_bind]. rewrite (proj2 (Z.eqb_neq (mRefs b) 1)) by done.
    eexists. split; [done|]. split; [split|].
    + intros q b'. simpl. destruct (decide (p = q)) as [<-|Hne].
      * rewrite lookup_insert_eq. intros [= <-]. split; [done|]. simpl. lia.
      * rewrite lookup_insert_ne by done. intros Hb'. destruct (counted_buf _ _ Hc q b' Hb') as (Hok' & Hr').
        rewrite refs_to_cons, decide_False in Hr' by done. done.
    + intros q Hq. simpl. destruct (decide (p = q)) as [<-|Hne]; [rewrite lookup_insert_eq; eauto|].
      rewrite lookup_insert_ne by done. apply (counted_ptr _ _ Hc). by right.
    + lia.
    + intros q Hq. simpl. destruct (decide (p = q)) as [<-|Hne]; [by rewrite lookup_insert_eq, Hb|].
      by rewrite lookup_insert_ne.
Qed.

(** ** Reading from sources *)

Definition gives m (from : source A) l : Prop :=
  read_source from (Z.of_nat (length l)) m = Some (Some <$> l).

Lemma gives_outside m l : gives m (Outside l) l.
Proof. unfold gives, read_source. by rewrite Z.leb_refl, Nat2Z.id, take_ge. Qed.

Lemma gives_nothing m from : gives m from [].
Proof.
  destruct from; unfold gives; [|done]. unfold read_source. rewrite (proj2 (Z.leb_le _ _)) by (simpl; lia). done.
Qed.

Lemma gives_inside m p b X l Y :
  bufs m !! p = Some b -> items b = X ++ (Some <$> l) ++ Y ->
  gives m (Inside p (Z.of_nat (length X))) l.
Proof. intros Hb E. eapply read_at; done. Qed.

Lemma content_gives m v l1 l2 l3 :
  content m v (l1 ++ l2 ++ l3) -> gives m (Inside (mStorage v) (Z.of_nat (length l1))) l2.
Proof.
  intros [Hn [[_ [_ [-> _]%app_nil]%app_nil]|(b & Hb & rest & E & Hs)]]; [apply gives_nothing|].
  rewrite <- (length_fmap Some l1). eapply gives_inside; [done|]. by rewrite E, !fmap_app, <- !app_assoc.
Qed.

Lemma copy_in m p ps b X old Y from l i n :
  owned m p ps b -> items b = X ++ old ++ Y -> spare old -> length l = length old ->
  gives m from l -> i = Z.of_nat (length X) -> n = Z.of_nat (length l) ->
  exists m', _do_copy p i from n m = Some m' /\
    owned m' p ps (set_items (X ++ (Some <$> l) ++ Y) b) /\ keeps ps m m'.
Proof.
  intros Ho E Hs L Hg Hi Hn. unfold _do_copy. rewrite Hn, Hg. cbn [mbind option_bind].
  rewrite (construct_at p i m b X old (Some <$> l) Y) by (rewrite ?length_fmap; try done; apply Ho).
  eexists. split; [done|]. apply owned_upd; [done|].
  rewrite E, !length_app, length_fmap. lia.
Qed.

Lemma splat_in m p ps b X old Y from x n i k :
  owned m p ps b -> items b = X ++ old ++ Y -> spare old -> length old = k -> k <> 0%nat ->
  gives m from [x] -> i = Z.of_nat (length X) -> n = Z.of_nat k ->
  exists m', _do_splat p i from n m = Some m' /\
    owned m' p ps (set_items (X ++ (Some <$> replicate k x) ++ Y) b) /\ keeps ps m m'.
Proof.
  intros Ho E Hs L Hk Hg Hi Hn. unfold _do_splat. rewrite (proj2 (Z.eqb_neq n 0)) by lia.
  unfold gives in Hg. change (Z.of_nat (length [x])) with 1 in Hg. rewrite Hg. cbn [mbind option_bind].
  assert (mjoin (replicate (Z.to_nat n) (Some <$> [x])) = Some <$> replicate k x) as ->.
  { rewrite Hn, Nat2Z.id, fmap_replicate. clear. induction k as [|k IH]; [done|]. simpl. by f_equal. }
  rewrite (construct_at p i m b X old _ Y) by (rewrite ?length_fmap, ?length_replicate; try done; apply Ho).
  eexists. split; [done|]. apply owned_upd; [done|].
  rewrite E, !length_app, length_fmap, length_replicate. lia.
Qed.

(** The vector that is rebuilt in [q] lets go of its old buffer. *)
Lemma swap_ok m q ps v l b :
  owned m q (mStorage v :: ps) b -> content m v l ->
  exists m' b', release_storage v m = Some m' /\ owned m' q ps b' /\ items b' = items b /\ keeps ps m m'.
Proof.
  intros [Hc Ho Hb] Hv. destruct (release_ok m (q :: ps) v l) as (m' & E & Hc' & Hk); [|done|].
  { eapply counted_perm; [|done]. apply perm_swap. }
  destruct (keeps_lookup _ _ _ q b Hk) as (b' & Hb' & Ei); [by left|done|].
  exists m', b'. split; [done|]. split; [split; [done| |done]|].
  - intros H. apply Ho. by right.
  - split; [done|]. eapply keeps_sub; [done|]. intros x Hx. by right.
Qed.

Lemma capacity_ok m ps v b :
  counted m ps -> bufs m !! mStorage v = Some b ->
  capacity v m = Some (Z.of_nat (length (items b))).
Proof.
  intros Hc Hb. destruct (counted_buf _ _ Hc _ b Hb) as ((H0 & _ & _ & Hl) & _).
  unfold capacity. rewrite (proj2 (Z.eqb_neq _ 0)), Hb, Hl by done. done.
Qed.

Lemma capacity_null m v : mStorage v = 0 -> capacity v m = Some 0.
Proof. intros H. unfold capacity. by rewrite H. Qed.

Lemma capacity_bytes m ps p b :
  counted m ps -> bufs m !! p = Some b ->
  0 <= Z.of_nat (length (items b)) * mItemSize /\
  Z.of_nat (length (items b)) * mItemSize + sizeof_SharedBuffer < 2 ^ 32.
Proof.
  intros Hc Hb. destruct (counted_buf _ _ Hc _ b Hb) as ((H0 & H1 & H2 & Hl) & _). rewrite Hl.
  pose proof (Z.mul_div_le (mSize b) mItemSize). pose proof (Z.div_pos (mSize b) mItemSize). nia.
Qed.

Definition few ps : Prop := Z.of_nat (length ps) + 2 < 2 ^ 31.

(** The slots of a new buffer. *)
Lemma fresh_slots k : Z.to_nat (Z.of_nat k * mItemSize / mItemSize) = k.
Proof. rewrite Z.div_mul by lia. apply Nat2Z.id. Qed.

Lemma edit_ok m ps v l :
  counted m (mStorage v :: ps) -> content m v l -> mStorage v <> 0 -> few ps ->
  exists p m' b b0, editArrayImpl v m = Some (p, mkVector p (mCount v), m') /\ p <> 0 /\
    owned m' p ps b /\ holds (items b) l /\ keeps ps m m' /\
    bufs m !! mStorage v = Some b0 /\ length (items b) = length (items b0).
Proof.
  intros Hc Hv H0 Hfew. unfold editArrayImpl. rewrite (proj2 (Z.eqb_neq _ 0)) by done. simpl.
  destruct (Hv) as [Hn [[? _]|(b & Hb & Hh)]]; [done|].
  unfold attemptEdit. rewrite Hb. cbn [mbind option_bind]. unfold onlyOwner.
  destruct (counted_buf _ _ Hc _ b Hb) as (Hok & Hr & Hpos).
  destruct (Z.eqb_spec (mRefs b) 1) as [E1|E1].
  - rewrite (proj2 (Z.eqb_neq _ 0)) by done. exists (mStorage v), m, b, b.
    split; [by destruct v|]. split; [done|]. split_and!; try done. split; [done| |done].
    rewrite refs_to_cons, decide_True in Hr by done. intros H%refs_to_pos. lia.
  - cbn [Z.eqb]. rewrite (capacity_ok m _ v b Hc Hb). cbn [mbind option_bind].
    destruct (capacity_bytes _ _ _ _ Hc Hb) as [Hb1 Hb2]. unfold sizeof_SharedBuffer in Hb2.
    rewrite wrapu_id by width_lia.
    destruct (alloc_ok m _ (Z.of_nat (length (items b)) * mItemSize) Hc) as (q & m1 & -> & Hq & Ho & Hk);
      [done|done|unfold few in Hfew; simpl; lia|].
    cbn [mbind option_bind]. rewrite (proj2 (Z.eqb_neq q 0)) by done. cbn [negb].
    rewrite fresh_slots in Ho. destruct Hh as (rest & Ei & Hs).
    assert (Hv1 : content m1 v l) by (eapply content_keeps; [exact Hk|by left|done]).
    destruct (copy_in m1 q _ _ [] (replicate (length l) None) (replicate (length rest) None)
      (Inside (mStorage v) 0) l 0 (mCount v) Ho) as (m2 & -> & Ho2 & Hk2).
    { simpl. by rewrite <- replicate_add, Ei, length_app, length_fmap. }
    { apply spare_raw. }
    { by rewrite length_replicate. }
    { apply (content_gives m1 v [] l []). by rewrite app_nil_r. }
    { done. }
    { done. }
    cbn [mbind option_bind].
    destruct (swap_ok m2 q ps v l _ Ho2) as (m3 & b3 & -> & Ho3 & Ei3 & Hk3).
    { eapply content_keeps; [exact Hk2|by left|done]. }
    cbn [mbind option_bind]. exists q, m3, b3, b. split; [done|]. split; [done|]. split; [done|].
    rewrite Ei3. simpl. split; [eexists; split; [done|apply spare_raw]|].
    split; [|by rewrite Ei, !length_app, length_fmap, length_replicate].
    eapply keeps_tr; [|exact Hk3]. eapply keeps_sub; [eapply keeps_tr; [exact Hk|exact Hk2]|].
    intros x Hx. by right.
Qed.

(** ** Resizing *)

Lemma resize_prefix (k : nat) ss l rest :
  ss = (Some <$> l) ++ rest -> (length l <= k)%nat ->
  resize k None ss = (Some <$> l) ++ resize (k - length l) None rest.
Proof.
  intros -> H. rewrite (resize_app_ge (Some <$> l)) by (rewrite length_fmap; done). by rewrite length_fmap.
Qed.

(** Resizing is only for types whose objects are bytes: in place ... *)
Lemma realloc_ok m ps p b (k : nat) :
  counted m (p :: ps) -> bufs m !! p = Some b -> p ∉ ps ->
  Z.of_nat k * mItemSize + sizeof_SharedBuffer < 2 ^ 32 ->
  let size := Z.of_nat k * mItemSize in
  let q := malloc (calls m) (dom (bufs m) ∖ {[p]}) (sizeof_SharedBuffer + size) in
  let b' := mkBuffer (mRefs b) size (resize k None (items b)) in
  let m' := mkMem (<[q := b']> (delete p (bufs m))) (S (calls m)) in
  q <> 0 /\ owned m' q ps b' /\ keeps ps m m'.
Proof.
  intros Hc Hb Hnin Hk. simpl. set (size := Z.of_nat k * mItemSize) in *.
  destruct (malloc_ok (calls m) (dom (bufs m) ∖ {[p]}) (sizeof_SharedBuffer + size)) as [Hq Hfresh].
  set (q := malloc _ _ _) in *. clearbody q.
  destruct (counted_buf _ _ Hc p b Hb) as ((H0 & _) & Hr & Hpos).
  rewrite refs_to_cons, decide_True, refs_to_none in Hr by done.
  assert (Hq' : forall x, x ∈ ps -> x <> q /\ x <> p).
  { intros x Hx. split; [|by intros ->]. intros ->.
    destruct (counted_ptr _ _ Hc q) as [|[bq Hbq]]; [by right|done|]. apply Hfresh.
    apply elem_of_difference. split; [by apply elem_of_dom_2 in Hbq|]. by intros ->%elem_of_singleton. }
  assert (Hqn : q ∉ ps) by (intros Hx; by destruct (Hq' q Hx)).
  split; [done|]. split; [split; [split|..]|]; simpl.
  - intros x b'. destruct (decide (q = x)) as [<-|Hne].
    + rewrite lookup_insert_eq. intros [= <-]. rewrite refs_to_cons, decide_True, refs_to_none by done.
      split; [|done]. unfold buf_ok. simpl. rewrite length_resize. unfold size.
      rewrite Z.div_mul by lia. split_and!; (done || nia).
    + rewrite lookup_insert_ne by done. intros [Hne2 Hb']%lookup_delete_Some.
      destruct (counted_buf _ _ Hc x b' Hb') as (Hok' & Hr').
      rewrite refs_to_cons, decide_False in Hr' by done. by rewrite refs_to_cons, decide_False.
  - intros x [->|Hx]%elem_of_cons; [rewrite lookup_insert_eq; eauto|].
    destruct (Hq' x Hx). rewrite lookup_insert_ne, lookup_delete_ne by done.
    apply (counted_ptr _ _ Hc). by right.
  - apply (counted_few _ _ Hc).
  - done.
  - apply lookup_insert_eq.
  - intros x Hx. destruct (Hq' x Hx). simpl. by rewrite lookup_insert_ne, lookup_delete_ne.
Qed.

(** ... or into a copy, if the buffer is shared. *)
Lemma recopy_ok m ps p b (k : nat) :
  counted m (p :: ps) -> bufs m !! p = Some b -> has_trivial_dtor = true -> few ps -> mRefs b <> 1 ->
  Z.of_nat k * mItemSize + sizeof_SharedBuffer < 2 ^ 32 ->
  exists q m1 m2 m3 b', alloc (Z.of_nat k * mItemSize) m = Some (q, m1) /\ q <> 0 /\
    copy_bytes q p (Z.of_nat (Nat.min k (length (items b)))) m1 = Some m2 /\
    release false p m2 = Some (mRefs b, m3) /\
    owned m3 q ps b' /\ items b' = resize k None (items b) /\ keeps ps m m3.
Proof.
  intros Hc Hb Htd Hfew E1 Hk.
  destruct (alloc_ok m (p :: ps) (Z.of_nat k * mItemSize) Hc) as (q & m1 & Ea & Hq & Ho & Hk1);
    [nia|done|unfold few in Hfew; simpl; lia|]. rewrite fresh_slots in Ho.
  destruct (keeps_lookup _ _ _ p b Hk1) as (b1 & Hb1 & Ei); [by left|done|].
  set (c := Nat.min k (length (items b))).
  assert (Hcp : copy_bytes q p (Z.of_nat c) m1 = Some (upd q (set_items (resize k None (items b))
    (mkBuffer 1 (Z.of_nat k * mItemSize) (replicate k None))) m1)).
  { unfold copy_bytes. rewrite (slots_at p 0 _ m1 b1 [] (take c (items b)) (drop c (items b)) Hb1)
      by (rewrite ?Ei, ?length_take; unfold c; simpl; rewrite ?take_drop; (done || lia)).
    cbn [mbind option_bind]. rewrite (set_slots_at q 0 m1 _ [] (replicate c None) _ (replicate (k - c) None)
      (owned_buf _ _ _ _ Ho)); [|simpl; rewrite <- replicate_add; f_equal; lia|done
      |rewrite length_take, length_replicate; lia].
    do 3 f_equal. simpl. unfold c. destruct (Nat.le_ge_cases k (length (items b))).
    - rewrite resize_le, Nat.min_l, Nat.sub_diag by done. simpl. by rewrite app_nil_r.
    - rewrite resize_ge, Nat.min_r, take_ge by done. done. }
  destruct (owned_upd m1 q _ _ (resize k None (items b)) Ho) as [Ho2 Hk2];
    [simpl; by rewrite length_resize, length_replicate|].
  set (m2 := upd _ _ m1) in *. set (b2 := set_items _ _) in *.
  destruct (release_ok m2 (q :: ps) (mkVector p 0) []) as (m3 & Er & Hc3 & Hk3).
  { eapply counted_perm; [apply perm_swap|apply Ho2]. }
  { split; [done|]. right. destruct (keeps_lookup _ _ _ p b1 Hk2) as (b1' & Hb1' & _); [by left|done|].
    exists b1'. split; [done|]. exists (items b1'). split; [done|]. unfold spare. by rewrite Htd. }
  destruct (counted_buf _ _ Hc p b Hb) as ((H0 & _) & Hr & Hpos).
  assert (Hr2 : bufs m2 !! p = Some b1 /\ mRefs b1 = mRefs b).
  { assert (Hpq : q <> p) by (intros ->; apply (owned_only _ _ _ _ Ho); by left).
    unfold m2. simpl. rewrite lookup_insert_ne by done. split; [done|].
    destruct (counted_buf _ _ (owned_counted _ _ _ _ Ho) p b1 Hb1) as (_ & Hr1 & _).
    rewrite refs_to_cons, decide_False in Hr1 by done. lia. }
  destruct Hr2 as [Hb2 Hr2].
  assert (Er2 : release false p m2 = Some (mRefs b, m3)).
  { unfold release_storage in Er. simpl in Er. rewrite (proj2 (Z.eqb_neq p 0)) in Er by done. simpl in Er.
    unfold release in *. rewrite Hb2 in *. cbn [mbind option_bind] in *. unfold onlyOwner in *.
    rewrite Hr2, (proj2 (Z.eqb_neq (mRefs b) 1)) in * by done. cbn [mbind option_bind] in *.
    rewrite (proj2 (Z.eqb_neq (mRefs b) 1)) in * by done. cbn [mbind option_bind] in *.
    rewrite (proj2 (Z.eqb_neq (mRefs b) 1)) in Er by done. by injection Er as ->. }
  destruct (keeps_lookup _ _ _ q b2 Hk3) as (b3 & Hb3 & Ei3); [by left|apply Ho2|].
  exists q, m1, m2, m3, b3. split_and!; try done.
  - split; [done| |done]. intros Hx. apply (owned_only _ _ _ _ Ho). by right.
  - eapply keeps_tr; [|eapply keeps_sub; [exact Hk3|]]; [|intros x Hx; by right].
    eapply keeps_sub; [eapply keeps_tr; [exact Hk1|exact Hk2]|]. intros x Hx. by right.
Qed.

Lemma editResize_ok m ps p b (k : nat) :
  counted m (p :: ps) -> bufs m !! p = Some b -> resize_flags = true -> few ps ->
  Z.of_nat k * mItemSize + sizeof_SharedBuffer < 2 ^ 32 ->
  exists q m' b', editResize p (Z.of_nat k * mItemSize) m = Some (q, m') /\ q <> 0 /\
    owned m' q ps b' /\ items b' = resize k None (items b) /\ keeps ps m m'.
Proof.
  intros Hc Hb Hfl Hfew Hk. apply andb_true_iff in Hfl as [_ Htd].
  destruct (counted_buf _ _ Hc p b Hb) as ((H0 & Hm & Hm2 & Hl) & Hr & Hpos).
  unfold editResize. rewrite Hb. cbn [mbind option_bind]. unfold onlyOwner.
  destruct (Z.eqb_spec (mRefs b) 1) as [E1|E1].
  - assert (Hnin : p ∉ ps) by (rewrite refs_to_cons, decide_True in Hr by done; intros ?%refs_to_pos; lia).
    destruct (Z.eqb_spec (mSize b) (Z.of_nat k * mItemSize)) as [E2|E2].
    { exists p, m, b. split_and!; try done. rewrite E2, Z.div_mul in Hl by lia.
      replace k with (length (items b)) by lia. symmetry. apply resize_all. }
    unfold ask. rewrite wrapu_id by (unfold sizeof_SharedBuffer in *; width_lia).
    rewrite room_add, fresh_slots by nia.
    destruct (realloc_ok m ps p b k Hc Hb Hnin Hk) as (Hq & Ho & Hk').
    rewrite (proj2 (Z.eqb_neq _ 0)), (proj2 (Z.ltb_ge _ _)) by (done || nia). cbn [negb].
    do 3 eexists. split; [done|]. split; [done|]. split; [exact Ho|]. done.
  - destruct (recopy_ok m ps p b k Hc Hb Htd Hfew E1 Hk) as (q & m1 & m2 & m3 & b' & -> & Hq & Hcp & Hre & Ho & Ei & Hk').
    cbn [mbind option_bind]. rewrite (proj2 (Z.eqb_neq q 0)) by done. cbn [negb].
    assert ((if Z.of_nat k * mItemSize <? mSize b then Z.of_nat k * mItemSize else mSize b) / mItemSize
      = Z.of_nat (Nat.min k (length (items b)))) as ->.
    { destruct (Z.ltb_spec (Z.of_nat k * mItemSize) (mSize b)) as [E|E].
      - rewrite Z.div_mul by lia. pose proof (Z.div_le_mono (Z.of_nat k * mItemSize) (mSize b) mItemSize) as D.
        rewrite Z.div_mul in D by lia. lia.
      - pose proof (Z.div_le_mono (mSize b) (Z.of_nat k * mItemSize) mItemSize) as D.
        rewrite Z.div_mul in D by lia. lia. }
    rewrite Hcp. cbn [mbind option_bind]. rewrite Hre. cbn [mbind option_bind]. eauto 10.
Qed.

(** A copy that is left out when there is nothing to copy. *)
Lemma copy_if m p ps b X old Y from l i n (c : bool) :
  owned m p ps b -> items b = X ++ old ++ Y -> spare old -> length l = length old ->
  gives m from l -> i = Z.of_nat (length X) -> n = Z.of_nat (length l) -> (c = false -> l = []) ->
  exists m', (if c then _do_copy p i from n m else Some m) = Some m' /\
    owned m' p ps (set_items (X ++ (Some <$> l) ++ Y) b) /\ keeps ps m m'.
Proof.
  intros Ho E Hs L Hg Hi Hn Hc. destruct c; [by eapply copy_in|]. specialize (Hc eq_refl) as ->.
  destruct old; [|done]. exists m. simpl in *. rewrite <- E, set_items_id. done.
Qed.

(** How many items a vector can grow to. *)
Definition fits n : Prop :=
  n * 3 + 1 < 2 ^ 32 /\ (n * 3 + 1) / 2 * mItemSize + sizeof_SharedBuffer < 2 ^ 32.

Lemma fits_le n n' : 0 <= n' <= n -> fits n -> fits n'.
Proof.
  intros H [H1 H2]. split; [lia|].
  pose proof (Z.div_le_mono (n' * 3 + 1) (n * 3 + 1) 2). nia.
Qed.

Lemma location_ok m p ps b n i :
  owned m p ps b -> i < Z.of_nat (length (items b)) ->
  itemLocation i (mkVector p n) m = Some (Some (p, i)).
Proof.
  intros Ho Hi. unfold itemLocation.
  rewrite (capacity_ok m (p :: ps) (mkVector p n) b) by apply Ho. cbn [mbind option_bind].
  destruct (owned_refs _ _ _ _ Ho) as (H0 & _).
  simpl. by rewrite (proj2 (Z.ltb_lt _ _)), (proj2 (Z.eqb_neq _ _)).
Qed.

(** A new buffer with room for [k] items between the two parts. *)
Lemma rebuild_ok m ps v l l1 l2 l3 (k cap : nat) :
  counted m (mStorage v :: ps) -> content m v l -> l = l1 ++ l2 ++ l3 -> few ps ->
  (length l1 + k + length l3 <= cap)%nat ->
  Z.of_nat cap * mItemSize + sizeof_SharedBuffer < 2 ^ 32 ->
  exists q m1, alloc (Z.of_nat cap * mItemSize) m = Some (q, m1) /\ q <> 0 /\
    forall c1 c2 : bool, (c1 = false -> l1 = []) -> (c2 = false -> l3 = []) ->
    exists m2 m3 m4 b,
    (if c1 then _do_copy q 0 (Inside (mStorage v) 0) (Z.of_nat (length l1)) m1 else Some m1) = Some m2 /\
    (if c2 then _do_copy q (Z.of_nat (length l1 + k))
       (Inside (mStorage v) (Z.of_nat (length l1 + length l2))) (Z.of_nat (length l3)) m2 else Some m2) = Some m3 /\
    release_storage v m3 = Some m4 /\ owned m4 q ps b /\ keeps ps m m4 /\
    items b = (Some <$> l1) ++ replicate k None ++ (Some <$> l3)
      ++ replicate (cap - (length l1 + k + length l3)) None.
Proof.
  intros Hc Hv El Hfew Hcap Hsz.
  destruct (alloc_ok m _ (Z.of_nat cap * mItemSize) Hc) as (q & m1 & Ea & Hq & Ho & Hk1);
    [nia|done|unfold few in Hfew; simpl; lia|]. rewrite fresh_slots in Ho.
  exists q, m1. split; [done|]. split; [done|]. intros c1 c2 Hc1 Hc2.
  assert (Hv1 : content m1 v l) by (eapply content_keeps; [exact Hk1|by left|done]).
  destruct (copy_if m1 q _ _ [] (replicate (length l1) None) (replicate (cap - length l1) None)
    (Inside (mStorage v) 0) l1 0 (Z.of_nat (length l1)) c1 Ho) as (m2 & E2 & Ho2 & Hk2);
    [simpl; rewrite <- replicate_add; f_equal; lia|apply spare_raw|by rewrite length_replicate
    |apply (content_gives m1 v [] l1 (l2 ++ l3)); by rewrite <- El|done..|].
  assert (Hv2 : content m2 v l) by (eapply content_keeps; [exact Hk2|by left|done]).
  destruct (copy_if m2 q _ _ ((Some <$> l1) ++ replicate k None) (replicate (length l3) None)
    (replicate (cap - (length l1 + k + length l3)) None)
    (Inside (mStorage v) (Z.of_nat (length l1 + length l2))) l3 (Z.of_nat (length l1 + k))
    (Z.of_nat (length l3)) c2 Ho2) as (m3 & E3 & Ho3 & Hk3).
  { simpl. rewrite <- app_assoc. f_equal. rewrite <- !replicate_add. f_equal. lia. }
  { apply spare_raw. }
  { by rewrite length_replicate. }
  { rewrite <- length_app. apply (content_gives m2 v (l1 ++ l2) l3 []). by rewrite app_nil_r, <- app_assoc, <- El. }
  { by rewrite length_app, length_fmap, length_replicate. }
  { done. }
  { done. }
  destruct (swap_ok m3 q ps v l _ Ho3) as (m4 & b4 & E4 & Ho4 & Ei4 & Hk4).
  { eapply content_keeps; [exact Hk3|by left|done]. }
  exists m2, m3, m4, b4. split_and!; try done.
  - eapply keeps_tr; [|exact Hk4].
    eapply keeps_sub; [eapply keeps_tr; [exact Hk1|eapply keeps_tr; [exact Hk2|exact Hk3]]|].
    intros x Hx. by right.
  - rewrite Ei4. simpl. by rewrite <- app_assoc.
Qed.

(** The capacity that is asked for. *)
Lemma new_capacity_ok n c :
  0 <= n -> 0 <= c -> c * mItemSize + sizeof_SharedBuffer < 2 ^ 32 ->
  exists cap : nat, Z.max kMinVectorCapacity c = Z.of_nat cap /\ c <= Z.of_nat cap /\
    Z.of_nat cap * mItemSize + sizeof_SharedBuffer < 2 ^ 32 /\
    u32 (Z.max kMinVectorCapacity c * mItemSize) = Z.of_nat cap * mItemSize.
Proof.
  intros Hn H0 Hc. unfold kMinVectorCapacity, sizeof_SharedBuffer in *.
  exists (Z.to_nat (Z.max 4 c)). rewrite Z2Nat.id by lia. split; [done|]. split; [lia|].
  assert (Z.max 4 c * mItemSize + 16 < 2 ^ 32) by (destruct (Z.max_spec 4 c) as [[_ ->]|[_ ->]]; lia).
  split; [done|]. apply wrapu_id. unfold in_u. nia.
Qed.

Lemma wrap_size n : 0 <= n -> fits n -> u32 n = n /\ u32 (n * 3) = n * 3 /\ u32 (u32 (n * 3) + 1) = n * 3 + 1.
Proof.
  intros H0 [H1 _]. rewrite !wrapu_id by (unfold in_u; rewrite ?wrapu_id by (unfold in_u; lia); lia). lia.
Qed.

(** Room for [k] items before the items [l2]. *)
Definition grown m' (l1 l2 : list A) (k : nat) p ps m : Prop :=
  exists b hole rest, owned m' p ps b /\ items b = (Some <$> l1) ++ hole ++ (Some <$> l2) ++ rest /\
    length hole = k /\ spare hole /\ spare rest /\ keeps ps m m'.

Lemma grow_in_place m ps v l (k nc : nat) :
  counted m (mStorage v :: ps) -> content m v l -> mStorage v <> 0 -> resize_flags = true -> few ps ->
  (length l + k <= nc)%nat -> Z.of_nat nc * mItemSize + sizeof_SharedBuffer < 2 ^ 32 ->
  exists q m', editResize (mStorage v) (Z.of_nat nc * mItemSize) m = Some (q, m') /\ q <> 0 /\
    grown m' l [] k q ps m.
Proof.
  intros Hc [Hn [[? _]|(b & Hb & rest & Ei & Hs)]] H0 Hfl Hfew Hnc Hsz; [done|].
  destruct (editResize_ok m ps _ b nc Hc Hb Hfl Hfew Hsz) as (q & m' & b' & -> & Hq & Ho & Ei' & Hk).
  do 2 eexists. split; [done|]. split; [done|].
  rewrite (resize_prefix nc _ l rest Ei) in Ei' by lia.
  set (X := resize (nc - length l) None rest) in *.
  assert (Htd : forall ss, spare ss) by (apply andb_true_iff in Hfl as [_ Htd]; intros; unfold spare; by rewrite Htd).
  exists b', (take k X), (drop k X). split; [done|]. simpl. rewrite take_drop. split; [done|].
  split; [unfold X; rewrite length_take, length_resize; lia|]. split_and!; (done || apply Htd).
Qed.

Lemma grow_within m ps v l1 l2 (k : nat) b :
  counted m (mStorage v :: ps) -> content m v (l1 ++ l2) -> few ps -> k <> 0%nat ->
  bufs m !! mStorage v = Some b -> (length l1 + length l2 + k <= length (items b))%nat ->
  fits (Z.of_nat (length l1 + length l2 + k)) ->
  exists p m', grow_inside (Z.of_nat (length l1)) (Z.of_nat k) v m
    = Some (mkVector p (mCount v), m') /\ p <> 0 /\ grown m' l1 l2 k p ps m.
Proof.
  intros Hc Hv Hfew Hk Hb Hroom [Hf _]. unfold grow_inside.
  destruct (edit_ok m ps v _ Hc Hv) as (p & m1 & b1 & b0 & -> & Hp & Ho & (rest & Ei & Hs) & Hk1 & Hb0 & L);
    [apply (counted_buf _ _ Hc _ b Hb)|done|]. rewrite Hb in Hb0. injection Hb0 as <-.
  cbn [mbind option_bind mCount]. destruct Hv as [-> _]. rewrite length_app.
  rewrite Ei, !length_app, length_fmap, length_app in L. rewrite fmap_app, <- app_assoc in Ei.
  destruct (spare_split rest k Hs) as [S1 S2].
  assert (L1 : length (take k rest) = k) by (rewrite length_take; lia).
  destruct (Z.eqb_spec (Z.of_nat (length l1)) (Z.of_nat (length l1 + length l2))) as [E|E]; cbn [negb].
  - assert (l2 = []) as -> by (apply length_zero_iff_nil; lia). exists p, m1. split; [done|]. split; [done|].
    exists b1, (take k rest), (drop k rest). simpl in *. rewrite take_drop. done.
  - rewrite !wrapu_id by width_lia.
    destruct (move_forward_at p (Z.of_nat (length l1) + Z.of_nat k) (Z.of_nat (length l1))
      (Z.of_nat (length l1 + length l2) - Z.of_nat (length l1)) m1 b1 (Some <$> l1) l2 (take k rest) (drop k rest))
      as (gap & Sg & Lg & Em);
      [apply Ho|by rewrite take_drop|done|right; intros E0; rewrite E0 in L1; by destruct k
      |by rewrite length_fmap|rewrite length_fmap, L1; lia|lia|].
    rewrite Em. cbn [mbind option_bind]. do 2 eexists. split; [done|]. split; [done|].
    destruct (owned_upd m1 p ps b1 ((Some <$> l1) ++ gap ++ (Some <$> l2) ++ drop k rest) Ho) as [Ho2 Hk2].
    { rewrite Ei, !length_app, Lg, L1, length_drop. lia. }
    eexists _, gap, (drop k rest). split; [exact Ho2|]. split; [done|]. split; [lia|].
    split; [done|]. split; [done|]. by eapply keeps_tr.
Qed.

Lemma capacity_cases m ps v l :
  counted m (mStorage v :: ps) -> content m v l ->
  (mStorage v = 0 /\ l = [] /\ capacity v m = Some 0) \/
  (mStorage v <> 0 /\ exists b, bufs m !! mStorage v = Some b /\ holds (items b) l /\
     capacity v m = Some (Z.of_nat (length (items b)))).
Proof.
  intros Hc [_ [[H ->]|(b & Hb & Hh)]].
  - left. by rewrite capacity_null.
  - right. split; [apply (counted_buf _ _ Hc _ b Hb)|]. exists b. by rewrite (capacity_ok m _ v b Hc Hb).
Qed.

Lemma grow_more m ps v l1 l2 (k : nat) :
  counted m (mStorage v :: ps) -> content m v (l1 ++ l2) -> few ps -> k <> 0%nat ->
  fits (Z.of_nat (length l1 + length l2 + k)) ->
  let new_size := Z.of_nat (length l1 + length l2 + k) in
  let size := u32 (Z.max kMinVectorCapacity ((new_size * 3 + 1) / 2) * mItemSize) in
  exists p m', grow_new (Z.of_nat (length l1)) (Z.of_nat k) size v m
    = Some (mkVector p (mCount v), m') /\ p <> 0 /\ grown m' l1 l2 k p ps m.
Proof.
  intros Hc Hv Hfew Hk Hfits. cbv zeta. unfold grow_new.
  destruct (new_capacity_ok (Z.of_nat (length l1 + length l2 + k)) ((Z.of_nat (length l1 + length l2 + k) * 3 + 1) / 2))
    as (nc & _ & Hle & Hnc & ->); [lia|apply Z.div_pos; lia|apply Hfits|].
  assert (Hnc2 : (length l1 + length l2 + k <= nc)%nat).
  { pose proof (Z.div_le_mono (Z.of_nat (length l1 + length l2 + k) * 2) (Z.of_nat (length l1 + length l2 + k) * 3 + 1) 2) as D.
    rewrite Z.div_mul in D by lia. lia. }
  pose proof (proj1 Hv) as Hn. destruct Hfits as [Hf _]. rewrite length_app in Hn.
  destruct (negb (mStorage v =? 0) && (mCount v =? Z.of_nat (length l1)) && resize_flags) eqn:Ec; bool_to_prop.
  - assert (l2 = []) as -> by (apply length_zero_iff_nil; lia). rewrite app_nil_r in Hv. simpl in *.
    destruct (grow_in_place m ps v l1 k nc Hc Hv) as (q & m' & -> & Hq & G); [done|done|done|lia|done|].
    cbn [mbind option_bind]. rewrite (proj2 (Z.eqb_neq q 0)) by done. eauto.
  - destruct (rebuild_ok m ps v (l1 ++ l2) l1 [] l2 k nc Hc Hv) as (q & m1 & -> & Hq & Hcp); [done|done|lia|done|].
    cbn [mbind option_bind]. rewrite (proj2 (Z.eqb_neq q 0)) by done. cbn [negb].
    edestruct (Hcp (negb (Z.of_nat (length l1) =? 0)) (negb (Z.of_nat (length l1) =? mCount v)))
      as (m2 & m3 & m4 & b & E2 & E3 & E4 & Ho & Hk4 & Ei).
    { intros E%negb_false_iff%Z.eqb_eq. apply length_zero_iff_nil. lia. }
    { intros E%negb_false_iff%Z.eqb_eq. apply length_zero_iff_nil. lia. }
    rewrite E2. cbn [mbind option_bind]. simpl in E3. rewrite Nat.add_0_r in E3.
    rewrite !wrapu_id by (rewrite ?Hn; width_lia). rewrite <- Nat2Z.inj_add.
    replace (mCount v - Z.of_nat (length l1)) with (Z.of_nat (length l2)) by lia. rewrite E3.
    cbn [mbind option_bind]. rewrite E4. cbn [mbind option_bind]. do 2 eexists. split; [done|]. split; [done|].
    exists b, (replicate k None), (replicate (nc - (length l1 + k + length l2)) None).
    rewrite length_replicate. split_and!; try done; apply spare_raw.
Qed.

Lemma grow_ok m ps v l1 l2 (k : nat) :
  counted m (mStorage v :: ps) -> content m v (l1 ++ l2) -> few ps -> k <> 0%nat ->
  fits (Z.of_nat (length l1 + length l2 + k)) ->
  exists p m', _grow (Z.of_nat (length l1)) (Z.of_nat k) v m =
      Some (Some (p, Z.of_nat (length l1)), mkVector p (Z.of_nat (length l1 + length l2 + k)), m') /\
    p <> 0 /\ grown m' l1 l2 k p ps m.
Proof.
  intros Hc Hv Hfew Hk Hfits. unfold _grow.
  destruct (wrap_size (Z.of_nat (length l1 + length l2 + k))) as (W1 & W2 & W3); [lia|done|].
  assert (Hn : mCount v + Z.of_nat k = Z.of_nat (length l1 + length l2 + k))
    by (rewrite (proj1 Hv), length_app; lia).
  rewrite Hn, W1, W3.
  assert (Hnew : exists p m', (let new_capacity := Z.max kMinVectorCapacity ((Z.of_nat (length l1 + length l2 + k) * 3 + 1) / 2) in
      grow_new (Z.of_nat (length l1)) (Z.of_nat k) (u32 (new_capacity * mItemSize)) v m)
      = Some (mkVector p (mCount v), m') /\ p <> 0 /\ grown m' l1 l2 k p ps m) by (by apply grow_more).
  assert (Hin : exists cap p m', capacity v m = Some cap /\
    (if cap <? Z.of_nat (length l1 + length l2 + k)
     then grow_new (Z.of_nat (length l1)) (Z.of_nat k) (u32 (Z.max kMinVectorCapacity
       ((Z.of_nat (length l1 + length l2 + k) * 3 + 1) / 2) * mItemSize)) v m
     else grow_inside (Z.of_nat (length l1)) (Z.of_nat k) v m) = Some (mkVector p (mCount v), m') /\
    p <> 0 /\ grown m' l1 l2 k p ps m).
  { destruct (capacity_cases m ps v _ Hc Hv) as [(H0 & _ & ->)|(H0 & b & Hb & _ & ->)].
    - destruct Hnew as (p & m' & E). exists 0, p, m'. split; [done|]. by rewrite (proj2 (Z.ltb_lt _ _)) by lia.
    - eexists. destruct (Z.ltb_spec (Z.of_nat (length (items b))) (Z.of_nat (length l1 + length l2 + k))) as [Hlt|Hge].
      + destruct Hnew as (p & m' & E). exists p, m'. split; [done|]. by rewrite (proj2 (Z.ltb_lt _ _)).
      + destruct (grow_within m ps v l1 l2 k b Hc Hv Hfew Hk Hb) as (p & m' & E); [lia|done|].
        exists p, m'. split; [done|]. by rewrite (proj2 (Z.ltb_ge _ _)). }
  destruct Hin as (cap & p & m' & -> & E & Hp & G). cbn [mbind option_bind]. rewrite E. cbn [mbind option_bind mStorage].
  exists p, m'. pose proof G as (b & hole & rest & Ho & Ei & Lh & _).
  rewrite (location_ok m' p ps b) by (rewrite ?Ei, ?length_app, ?length_fmap; (done || lia)). done.
Qed.

(** ** Inserting *)

(** The vector now holds [l']; nobody else notices. *)
Definition becomes m ps v' m' l' : Prop :=
  counted m' (mStorage v' :: ps) /\ content m' v' l' /\ keeps ps m m'.

Lemma becomes_trans m ps m1 v' m' l' : keeps ps m m1 -> becomes m1 ps v' m' l' -> becomes m ps v' m' l'.
Proof. intros H (H1 & H2 & H3). split_and!; [done..|]. by eapply keeps_tr. Qed.

Lemma owned_becomes m ps p b n m' l' rest :
  owned m' p ps b -> items b = (Some <$> l') ++ rest -> spare rest -> n = Z.of_nat (length l') ->
  keeps ps m m' -> becomes m ps (mkVector p n) m' l'.
Proof.
  intros Ho E Hs Hn Hk. split; [apply Ho|]. split; [|done]. split; [done|]. right. exists b.
  split; [apply Ho|]. by exists rest.
Qed.

(** The opened gap is filled. *)
Lemma fill_ok m ps l1 l2 l p m1 m2 b hole rest :
  items b = (Some <$> l1) ++ hole ++ (Some <$> l2) ++ rest -> spare rest ->
  owned m2 p ps (set_items ((Some <$> l1) ++ (Some <$> l) ++ (Some <$> l2) ++ rest) b) ->
  keeps ps m m1 -> keeps ps m1 m2 ->
  becomes m ps (mkVector p (Z.of_nat (length l1 + length l2 + length l))) m2 (l1 ++ l ++ l2).
Proof.
  intros E Hs Ho Hk1 Hk2. eapply owned_becomes; [exact Ho| |exact Hs| |by eapply keeps_tr].
  - simpl. by rewrite !fmap_app, <- !app_assoc.
  - rewrite !length_app. lia.
Qed.

Lemma insertArrayAt_ok m ps v l1 l2 l from :
  counted m (mStorage v :: ps) -> content m v (l1 ++ l2) -> few ps -> l <> [] ->
  fits (Z.of_nat (length l1 + length l2 + length l)) ->
  (forall m', keeps ps m m' -> gives m' from l) ->
  exists v' m', insertArrayAt from (Z.of_nat (length l1)) (Z.of_nat (length l)) v m =
      Some (Z.of_nat (length l1), v', m') /\ becomes m ps v' m' (l1 ++ l ++ l2).
Proof.
  intros Hc Hv Hfew Hl Hfits Hg. unfold insertArrayAt. rewrite (proj1 Hv), length_app.
  rewrite (proj2 (Z.ltb_ge _ _)) by lia.
  destruct (grow_ok m ps v l1 l2 (length l) Hc Hv Hfew) as (p & m1 & -> & Hp & b & hole & rest & Ho & Ei & Lh & Sh & Sr & Hk);
    [by destruct l|done|]. cbn [mbind option_bind].
  destruct (copy_in m1 p ps b (Some <$> l1) hole ((Some <$> l2) ++ rest) from l (Z.of_nat (length l1))
    (Z.of_nat (length l)) Ho Ei Sh) as (m2 & -> & Ho2 & Hk2);
    [done|by apply Hg|by rewrite length_fmap|done|]. cbn [mbind option_bind].
  destruct Hfits as [Hf _]. rewrite wraps_id by width_lia. do 2 eexists. split; [done|].
  by eapply fill_ok.
Qed.

Lemma insertAt_ok m ps v l1 l2 x from (k : nat) :
  counted m (mStorage v :: ps) -> content m v (l1 ++ l2) -> few ps -> k <> 0%nat ->
  fits (Z.of_nat (length l1 + length l2 + k)) ->
  (forall m', keeps ps m m' -> gives m' from [x]) ->
  exists v' m', insertAt (Some from) (Z.of_nat (length l1)) (Z.of_nat k) v m =
      Some (Z.of_nat (length l1), v', m') /\ becomes m ps v' m' (l1 ++ replicate k x ++ l2).
Proof.
  intros Hc Hv Hfew Hl Hfits Hg. unfold insertAt. rewrite (proj1 Hv), length_app.
  rewrite (proj2 (Z.ltb_ge _ _)) by lia.
  destruct (grow_ok m ps v l1 l2 k Hc Hv Hfew) as (p & m1 & -> & Hp & b & hole & rest & Ho & Ei & Lh & Sh & Sr & Hk);
    [done..|]. cbn [mbind option_bind].
  destruct (splat_in m1 p ps b (Some <$> l1) hole ((Some <$> l2) ++ rest) from x (Z.of_nat k) (Z.of_nat (length l1))
    k Ho Ei Sh) as (m2 & -> & Ho2 & Hk2);
    [done|done|by apply Hg|by rewrite length_fmap|done|]. cbn [mbind option_bind].
  destruct Hfits as [Hf _]. rewrite wraps_id by width_lia. do 2 eexists. split; [done|].
  replace (length l1 + length l2 + k)%nat with (length l1 + length l2 + length (replicate k x))%nat
    by (by rewrite length_replicate).
  by eapply fill_ok.
Qed.

(** With items that the default constructor makes. *)
Lemma insertAt_default m ps v l1 l2 (k : nat) :
  counted m (mStorage v :: ps) -> content m v (l1 ++ l2) -> few ps -> k <> 0%nat ->
  fits (Z.of_nat (length l1 + length l2 + k)) -> has_trivial_ctor = false ->
  exists v' m', insertAt None (Z.of_nat (length l1)) (Z.of_nat k) v m =
      Some (Z.of_nat (length l1), v', m') /\ becomes m ps v' m' (l1 ++ replicate k default_item ++ l2).
Proof.
  intros Hc Hv Hfew Hl Hfits Hct. unfold insertAt. rewrite (proj1 Hv), length_app.
  rewrite (proj2 (Z.ltb_ge _ _)) by lia.
  destruct (grow_ok m ps v l1 l2 k Hc Hv Hfew) as (p & m1 & -> & Hp & b & hole & rest & Ho & Ei & Lh & Sh & Sr & Hk);
    [done..|]. cbn [mbind option_bind]. unfold _do_construct. rewrite Hct. cbn [negb].
  rewrite Nat2Z.id, <- fmap_replicate.
  rewrite (construct_at p _ m1 b (Some <$> l1) hole (Some <$> replicate k default_item) ((Some <$> l2) ++ rest));
    [|apply Ho|done|done|by rewrite length_fmap|by rewrite length_fmap, length_replicate].
  cbn [mbind option_bind]. destruct Hfits as [Hf _]. rewrite wraps_id by width_lia. do 2 eexists. split; [done|].
  destruct (owned_upd m1 p ps b ((Some <$> l1) ++ (Some <$> replicate k default_item) ++ (Some <$> l2) ++ rest) Ho)
    as [Ho2 Hk2]; [rewrite Ei, !length_app, !length_fmap, length_replicate; lia|].
  replace (length l1 + length l2 + k)%nat with (length l1 + length l2 + length (replicate k default_item))%nat
    by (by rewrite length_replicate).
  by eapply fill_ok.
Qed.

Lemma insert_bad_index m v l item index n :
  content m v l -> Z.of_nat (length l) < index -> insertAt item index n v m = Some (BAD_INDEX, v, m).
Proof. intros [Hn _] H. unfold insertAt. by rewrite Hn, (proj2 (Z.ltb_lt _ _)). Qed.

Lemma insertArray_bad_index m v l from index n :
  content m v l -> Z.of_nat (length l) < index -> insertArrayAt from index n v m = Some (BAD_INDEX, v, m).
Proof. intros [Hn _] H. unfold insertArrayAt. by rewrite Hn, (proj2 (Z.ltb_lt _ _)). Qed.

(** ** Removing *)

Lemma shrink_inside_ok m ps v l1 lk l2 :
  counted m (mStorage v :: ps) -> content m v (l1 ++ lk ++ l2) -> few ps -> mStorage v <> 0 ->
  by_memmove = true \/ lk <> [] \/ l2 = [] ->
  Z.of_nat (length (l1 ++ lk ++ l2)) < 2 ^ 32 ->
  exists v' m', shrink_inside (Z.of_nat (length l1)) (Z.of_nat (length lk)) (Z.of_nat (length l1 + length l2)) v m
      = Some (v', m') /\
    becomes m ps (mkVector (mStorage v') (Z.of_nat (length l1 + length l2))) m' (l1 ++ l2).
Proof.
  intros Hc Hv Hfew H0 Hmv Hlen. unfold shrink_inside.
  destruct (edit_ok m ps v _ Hc Hv H0 Hfew) as (p & m1 & b1 & b0 & -> & Hp & Ho & (rest & Ei & Hs) & Hk1 & Hb0 & L).
  cbn [mbind option_bind]. rewrite !fmap_app, <- !app_assoc in Ei. rewrite !length_app in Hlen.
  rewrite (destroy_at p _ _ m1 b1 (Some <$> l1) lk ((Some <$> l2) ++ rest));
    [|apply Ho|done|by rewrite length_fmap|done]. cbn [mbind option_bind].
  destruct (owned_upd m1 p ps b1 ((Some <$> l1) ++ gone lk ++ (Some <$> l2) ++ rest) Ho) as [Ho2 Hk2].
  { rewrite Ei, !length_app, length_gone, !length_fmap. lia. }
  assert (Hk12 : keeps ps m (upd p (set_items ((Some <$> l1) ++ gone lk ++ (Some <$> l2) ++ rest) b1) m1))
    by (by eapply keeps_tr).
  destruct (Z.eqb_spec (Z.of_nat (length l1)) (Z.of_nat (length l1 + length l2))) as [E|E]; cbn [negb].
  - assert (l2 = []) as -> by (apply length_zero_iff_nil; lia). cbn [mbind option_bind]. do 2 eexists.
    split; [done|]. cbn [mStorage]. rewrite app_nil_r, Nat.add_0_r.
    eapply owned_becomes; [exact Ho2|reflexivity| |done|exact Hk12].
    apply spare_app. split; [apply spare_gone|done].
  - rewrite !wrapu_id by width_lia.
    destruct (move_backward_at p (Z.of_nat (length l1)) (Z.of_nat (length l1) + Z.of_nat (length lk))
      (Z.of_nat (length l1 + length l2) - Z.of_nat (length l1)) _ _ (Some <$> l1) l2 (gone lk) rest
      (owned_buf _ _ _ _ Ho2)) as (gap & Sg & Lg & ->);
      [done|apply spare_gone| |by rewrite length_fmap|rewrite length_fmap, length_gone; lia|lia|].
    { destruct Hmv as [|[Hne| ->]]; [by left| |exfalso; simpl in E; lia].
      right. intros E2. apply (f_equal length) in E2. rewrite length_gone in E2. by destruct lk. }
    cbn [mbind option_bind]. do 2 eexists. split; [done|]. cbn [mStorage].
    destruct (owned_upd _ p ps _ ((Some <$> l1) ++ (Some <$> l2) ++ gap ++ rest) Ho2) as [Ho3 Hk3].
    { simpl. rewrite !length_app, Lg. lia. }
    eapply owned_becomes; [exact Ho3| | | |by eapply keeps_tr].
    + simpl. by rewrite fmap_app, <- app_assoc.
    + by apply spare_app.
    + by rewrite length_app.
Qed.

Lemma shrink_new_ok m ps v l1 lk l2 nc :
  counted m (mStorage v :: ps) -> content m v (l1 ++ lk ++ l2) -> few ps -> mStorage v <> 0 ->
  (length l1 + length l2 <= nc)%nat -> Z.of_nat nc * mItemSize + sizeof_SharedBuffer < 2 ^ 32 ->
  Z.of_nat (length (l1 ++ lk ++ l2)) < 2 ^ 32 ->
  exists v' m', shrink_new (Z.of_nat (length l1)) (Z.of_nat (length lk)) (Z.of_nat (length l1 + length l2))
      (Z.of_nat nc * mItemSize) v m = Some (v', m') /\
    becomes m ps (mkVector (mStorage v') (Z.of_nat (length l1 + length l2))) m' (l1 ++ l2).
Proof.
  intros Hc Hv Hfew H0 Hnc Hsz Hlen. unfold shrink_new. rewrite !length_app in Hlen.
  destruct ((Z.of_nat (length l1) =? Z.of_nat (length l1 + length l2)) && resize_flags) eqn:Ec; bool_to_prop.
  - assert (l2 = []) as -> by (apply length_zero_iff_nil; lia). rewrite !app_nil_r in *.
    destruct Hv as [_ [[? _]|(b & Hb & rest & Ei & Hs)]]; [done|].
    destruct (editResize_ok m ps _ b nc Hc Hb) as (q & m' & b' & -> & Hq & Ho & Ei' & Hk); [done..|].
    cbn [mbind option_bind]. rewrite (proj2 (Z.eqb_neq q 0)) by done. do 2 eexists. split; [done|]. cbn [mStorage].
    rewrite fmap_app, <- app_assoc in Ei. rewrite (resize_prefix nc _ l1 _ Ei) in Ei' by lia.
    eapply owned_becomes; [exact Ho|exact Ei'| |simpl; lia|done].
    assert (Htd : has_trivial_dtor = true) by (match goal with H : resize_flags = true |- _ => by apply andb_true_iff in H as [_ H] end).
    unfold spare. by rewrite Htd.
  - destruct (rebuild_ok m ps v _ l1 lk l2 0 nc Hc Hv) as (q & m1 & -> & Hq & Hcp); [done|done|lia|done|].
    cbn [mbind option_bind]. rewrite (proj2 (Z.eqb_neq q 0)) by done. cbn [negb].
    edestruct (Hcp (negb (Z.of_nat (length l1) =? 0)) (negb (Z.of_nat (length l1) =? Z.of_nat (length l1 + length l2))))
      as (m2 & m3 & m4 & b & E2 & E3 & E4 & Ho & Hk4 & Ei).
    { intros E%negb_false_iff%Z.eqb_eq. apply length_zero_iff_nil. lia. }
    { intros E%negb_false_iff%Z.eqb_eq. apply length_zero_iff_nil. lia. }
    rewrite E2. cbn [mbind option_bind]. rewrite Nat.add_0_r in E3.
    rewrite !wrapu_id by width_lia. rewrite <- Nat2Z.inj_add.
    replace (Z.of_nat (length l1 + length l2) - Z.of_nat (length l1)) with (Z.of_nat (length l2)) by lia. rewrite E3.
    cbn [mbind option_bind]. rewrite E4. cbn [mbind option_bind]. do 2 eexists. split; [done|]. cbn [mStorage].
    eapply owned_becomes; [exact Ho| |apply spare_raw|by rewrite length_app|done].
    rewrite Ei. simpl. by rewrite fmap_app, <- app_assoc.
Qed.

Lemma shrink_ok m ps v l1 lk l2 :
  counted m (mStorage v :: ps) -> content m v (l1 ++ lk ++ l2) -> few ps ->
  by_memmove = true \/ lk <> [] \/ l2 = [] -> fits (Z.of_nat (length (l1 ++ lk ++ l2))) ->
  exists v' m', _shrink (Z.of_nat (length l1)) (Z.of_nat (length lk)) v m = Some (v', m') /\
    becomes m ps v' m' (l1 ++ l2).
Proof.
  intros Hc Hv Hfew Hmv Hfits. unfold _shrink.
  destruct (capacity_cases m ps v _ Hc Hv) as [(H0 & El & _)|(H0 & b & Hb & Hh & ->)].
  { rewrite H0. cbn [Z.eqb]. apply app_nil in El as [-> [-> ->]%app_nil]. exists v, m. split; [done|].
    split_and!; done. }
  rewrite (proj2 (Z.eqb_neq _ 0)) by done. pose proof (proj1 Hv) as Hn. rewrite !length_app in Hn.
  assert (Hlen : Z.of_nat (length (l1 ++ lk ++ l2)) < 2 ^ 32) by (destruct Hfits; lia).
  assert (Hfits2 : fits (Z.of_nat (length l1 + length l2))) by (eapply fits_le; [|exact Hfits]; rewrite !length_app; lia).
  assert (mCount v - Z.of_nat (length lk) = Z.of_nat (length l1 + length l2)) as -> by lia.
  destruct (wrap_size (Z.of_nat (length l1 + length l2))) as (-> & -> & _); [lia|done|]. cbn [mbind option_bind].
  destruct (Z.ltb_spec (Z.of_nat (length l1 + length l2) * 3) (Z.of_nat (length (items b)))) as [E|E].
  - destruct (capacity_bytes _ _ _ _ Hc Hb) as [Hb1 Hb2].
    rewrite (wrapu_id 32 (Z.of_nat (length l1 + length l2) * 2)) by (destruct Hfits2; width_lia).
    destruct (new_capacity_ok (Z.of_nat (length l1 + length l2)) (Z.of_nat (length l1 + length l2) * 2))
      as (nc & _ & Hle & Hnc & ->); [lia|lia|unfold sizeof_SharedBuffer in *; nia|].
    destruct (shrink_new_ok m ps v l1 lk l2 nc Hc Hv) as (v' & m' & -> & Hb'); [done|done|lia|done|done|].
    cbn [mbind option_bind]. eauto.
  - destruct (shrink_inside_ok m ps v l1 lk l2 Hc Hv) as (v' & m' & -> & Hb'); [done..|].
    cbn [mbind option_bind]. eauto.
Qed.

Lemma split_at l (i k : nat) : (i + k <= length l)%nat ->
  exists l1 lk l2, l = l1 ++ lk ++ l2 /\ length l1 = i /\ length lk = k.
Proof.
  intros H. exists (take i l), (take k (drop i l)), (drop k (drop i l)).
  rewrite (take_drop k (drop i l)), take_drop, !length_take, length_drop. split; [done|]. lia.
Qed.

Lemma removeItemsAt_ok m ps v l1 lk l2 :
  counted m (mStorage v :: ps) -> content m v (l1 ++ lk ++ l2) -> few ps ->
  by_memmove = true \/ lk <> [] \/ l2 = [] -> fits (Z.of_nat (length (l1 ++ lk ++ l2))) ->
  exists v' m', removeItemsAt (Z.of_nat (length l1)) (Z.of_nat (length lk)) v m =
      Some (Z.of_nat (length l1), v', m') /\ becomes m ps v' m' (l1 ++ l2).
Proof.
  intros Hc Hv Hfew Hmv Hfits. unfold removeItemsAt.
  pose proof (proj1 Hv) as Hn. pose proof (proj1 Hfits). rewrite !length_app in *.
  rewrite wrapu_id, (proj2 (Z.ltb_ge _ _)) by width_lia.
  destruct (shrink_ok m ps v l1 lk l2 Hc Hv) as (v' & m' & -> & Hb); [done..|by rewrite !length_app|].
  cbn [mbind option_bind]. rewrite wraps_id by width_lia. eauto.
Qed.

Lemma remove_bad_value m v l index n :
  content m v l -> 0 <= index -> 0 <= n -> Z.of_nat (length l) < index + n < 2 ^ 32 ->
  removeItemsAt index n v m = Some (BAD_VALUE, v, m).
Proof.
  intros [Hn _] H1 H2 H3. unfold removeItemsAt. rewrite Hn, wrapu_id by (unfold in_u; lia).
  by rewrite (proj2 (Z.ltb_lt _ _)) by lia.
Qed.

Lemma clear_ok m ps v l :
  counted m (mStorage v :: ps) -> content m v l -> few ps -> fits (Z.of_nat (length l)) ->
  exists v' m', clear v m = Some (v', m') /\ becomes m ps v' m' [].
Proof.
  intros Hc Hv Hfew Hfits. unfold clear. rewrite (proj1 Hv).
  apply (shrink_ok m ps v [] l [] Hc); rewrite ?app_nil_r; auto.
Qed.

Lemma pop_ok m ps v l :
  counted m (mStorage v :: ps) -> content m v l -> few ps -> fits (Z.of_nat (length l)) ->
  exists v' m', pop v m = Some (v', m') /\ becomes m ps v' m' (take (length l - 1) l).
Proof.
  intros Hc Hv Hfew Hfits. unfold pop. rewrite (proj1 Hv).
  destruct l as [|x l _] using rev_ind; [exists v, m; by split_and!|].
  rewrite length_app, take_app_length' by (simpl; lia). cbn [length].
  rewrite (proj2 (Z.eqb_neq _ 0)) by lia. cbn [negb].
  destruct (removeItemsAt_ok m ps v l [x] [] Hc) as (v' & m' & E & Hb); [done..|by right; left|done|].
  replace (Z.of_nat (length l + 1) - 1) with (Z.of_nat (length l)) by lia.
  change 1 with (Z.of_nat (length [x])). rewrite E. cbn [mbind option_bind]. rewrite app_nil_r in Hb. eauto.
Qed.

(** ** Replacing *)

Lemma edit_location m ps v l (i : nat) :
  counted m (mStorage v :: ps) -> content m v l -> few ps -> (i < length l)%nat ->
  exists p m' b, editItemLocation (Z.of_nat i) v m = Some (Some (p, Z.of_nat i), mkVector p (mCount v), m') /\
    owned m' p ps b /\ holds (items b) l /\ keeps ps m m'.
Proof.
  intros Hc Hv Hfew Hi. unfold editItemLocation.
  destruct (capacity_cases m ps v l Hc Hv) as [(_ & -> & _)|(H0 & b & Hb & (rest & Ei & Hs) & ->)]; [simpl in Hi; lia|].
  cbn [mbind option_bind]. rewrite Ei, (proj2 (Z.ltb_lt _ _)) by (rewrite length_app, length_fmap; lia).
  destruct (edit_ok m ps v l Hc Hv H0 Hfew) as (p & m' & b' & _ & -> & Hp & Ho & Hh & Hk & _).
  cbn [mbind option_bind]. rewrite (proj2 (Z.eqb_neq p 0)) by done. eauto 10.
Qed.

(** A slot's object is destroyed and another made in its place. *)
Lemma overwrite_at m p ps b X z Y i t :
  owned m p ps b -> items b = X ++ [Some z] ++ Y -> i = Z.of_nat (length X) ->
  exists m' b', _do_destroy p i 1 m = Some (upd p (set_items (X ++ gone [z] ++ Y) b) m) /\
    construct p i [Some t] (upd p (set_items (X ++ gone [z] ++ Y) b) m) = Some m' /\
    owned m' p ps b' /\ items b' = X ++ [Some t] ++ Y /\
    keeps ps m (upd p (set_items (X ++ gone [z] ++ Y) b) m) /\ keeps ps m m'.
Proof.
  intros Ho Ei Hi. rewrite (destroy_at p i 1 m b X [z] Y (owned_buf _ _ _ _ Ho)) by done.
  destruct (owned_upd m p ps b (X ++ gone [z] ++ Y) Ho) as [Ho1 Hk1]; [by rewrite Ei, !length_app, length_gone|].
  rewrite (construct_at p i _ _ X (gone [z]) [Some t] Y (owned_buf _ _ _ _ Ho1));
    [|done|apply spare_gone|done|by rewrite length_gone].
  destruct (owned_upd _ p ps _ (X ++ [Some t] ++ Y) Ho1) as [Ho2 Hk2]; [simpl; by rewrite !length_app, length_gone|].
  do 2 eexists. split; [done|]. split; [done|]. split; [exact Ho2|]. split; [done|]. split; [done|].
  by eapply keeps_tr.
Qed.

Lemma replaceAt_ok m ps v l1 y l2 x from :
  counted m (mStorage v :: ps) -> content m v (l1 ++ [y] ++ l2) -> few ps -> Z.of_nat (length l1) < 2 ^ 31 ->
  (forall p i, from = Inside p i -> p ∈ ps /\ p <> 0) -> (forall m', keeps ps m m' -> gives m' from [x]) ->
  exists v' m', replaceAt (Some from) (Z.of_nat (length l1)) v m = Some (Z.of_nat (length l1), v', m') /\
    becomes m ps v' m' (l1 ++ [x] ++ l2).
Proof.
  intros Hc Hv Hfew Hi Hfrom Hg. unfold replaceAt. pose proof (proj1 Hv) as Hn. rewrite !length_app in Hn. simpl in Hn.
  rewrite (proj2 (Z.leb_gt _ _)) by lia.
  destruct (edit_location m ps v _ (length l1) Hc Hv Hfew) as (p & m1 & b & -> & Ho & (rest & Ei & Hs) & Hk);
    [rewrite !length_app; simpl; lia|]. cbn [mbind option_bind].
  assert (same_place (p, Z.of_nat (length l1)) from = false) as ->.
  { destruct from as [|q j]; [done|]. simpl. destruct (Hfrom q j) as [Hq _]; [done|].
    apply andb_false_iff. left. apply Z.eqb_neq. intros ->. by apply (owned_only _ _ _ _ Ho). }
  rewrite !fmap_app, <- !app_assoc in Ei.
  destruct (overwrite_at m1 p ps b (Some <$> l1) y ((Some <$> l2) ++ rest) (Z.of_nat (length l1)) x Ho Ei)
    as (m' & b' & -> & E2 & Ho' & Ei' & Hk1 & Hk2); [by rewrite length_fmap|]. cbn [mbind option_bind].
  unfold _do_copy. assert (read_source from 1 (upd p (set_items ((Some <$> l1) ++ gone [y] ++ (Some <$> l2) ++ rest) b) m1) = Some [Some x]) as ->.
  { apply (Hg _ (keeps_tr _ _ _ _ Hk Hk1)). }
  cbn [mbind option_bind]. rewrite E2. cbn [mbind option_bind]. rewrite wraps_id by width_lia. do 2 eexists. split; [done|].
  eapply owned_becomes; [exact Ho'| |exact Hs| |by eapply keeps_tr].
  - rewrite Ei', !fmap_app, <- !app_assoc. done.
  - rewrite Hn, !length_app. simpl. lia.
Qed.

Lemma replace_bad_index m v l item index :
  content m v l -> Z.of_nat (length l) <= index -> replaceAt item index v m = Some (BAD_INDEX, v, m).
Proof. intros [Hn _] H. unfold replaceAt. by rewrite Hn, (proj2 (Z.leb_le _ _)). Qed.

Lemma get_at p i m b X x Y :
  bufs m !! p = Some b -> items b = X ++ [Some x] ++ Y -> i = Z.of_nat (length X) -> get p i m = Some x.
Proof. intros Hb E Hi. unfold get. by rewrite (slots_at p i 1 m b X [Some x] Y). Qed.

Lemma itemAt_ok m v l (i : nat) x : content m v l -> l !! i = Some x -> itemAt (Z.of_nat i) v m = Some x.
Proof.
  intros [_ [[_ ->]|(b & Hb & rest & Ei & _)]] Hx; [done|]. apply list_elem_of_split_length in Hx as (l1 & l2 & -> & ->).
  apply (get_at _ _ m b (Some <$> l1) x ((Some <$> l2) ++ rest) Hb); [|by rewrite length_fmap].
  by rewrite Ei, fmap_app, <- app_assoc.
Qed.

Lemma editItemAt_ok m ps v l1 y l2 x :
  counted m (mStorage v :: ps) -> content m v (l1 ++ [y] ++ l2) -> few ps ->
  exists v' m', editItemAt (Z.of_nat (length l1)) x v m = Some (v', m') /\ becomes m ps v' m' (l1 ++ [x] ++ l2).
Proof.
  intros Hc Hv Hfew. unfold editItemAt. pose proof (proj1 Hv) as Hn. rewrite !length_app in Hn. simpl in Hn.
  destruct (edit_location m ps v _ (length l1) Hc Hv Hfew) as (p & m1 & b & -> & Ho & (rest & Ei & Hs) & Hk);
    [rewrite !length_app; simpl; lia|]. cbn [mbind option_bind]. unfold assign.
  rewrite !fmap_app, <- !app_assoc in Ei.
  rewrite (get_at p _ m1 b (Some <$> l1) y ((Some <$> l2) ++ rest) (owned_buf _ _ _ _ Ho)) by (rewrite ?length_fmap; done).
  cbn [mbind option_bind].
  rewrite (set_slots_at p _ m1 b (Some <$> l1) [Some y] [Some x] ((Some <$> l2) ++ rest) (owned_buf _ _ _ _ Ho))
    by (rewrite ?length_fmap; done). cbn [mbind option_bind].
  destruct (owned_upd m1 p ps b ((Some <$> l1) ++ [Some x] ++ (Some <$> l2) ++ rest) Ho) as [Ho2 Hk2];
    [by rewrite Ei, !length_app|]. do 2 eexists. split; [done|].
  eapply owned_becomes; [exact Ho2| |exact Hs| |by eapply keeps_tr].
  - simpl. rewrite !fmap_app, <- !app_assoc. done.
  - rewrite Hn, !length_app. simpl. lia.
Qed.

(** ** Capacity, copies *)

Lemma setCapacity_ok m ps v l (k : nat) :
  counted m (mStorage v :: ps) -> content m v l -> few ps -> Z.of_nat k < 2 ^ 31 ->
  fits (Z.of_nat (length l)) -> Z.of_nat k * mItemSize + sizeof_SharedBuffer < 2 ^ 32 ->
  exists r v' m', setCapacity (Z.of_nat k) v m = Some (r, v', m') /\ becomes m ps v' m' l /\
    ((length l < k)%nat -> r = Z.of_nat k /\ capacity v' m' = Some (Z.of_nat k)).
Proof.
  intros Hc Hv Hfew Hn Hf2 Hsz. unfold setCapacity. unfold sizeof_SharedBuffer in Hsz.
  assert (exists cap, capacity v m = Some cap) as [cap ->].
  { destruct (capacity_cases m ps v l Hc Hv) as [(_ & _ & ->)|(_ & b & _ & _ & ->)]; eauto. }
  cbn [mbind option_bind]. rewrite (proj1 Hv). pose proof (proj1 Hf2).
  rewrite (wraps_id 32 (Z.of_nat k - _)) by width_lia.
  destruct (Z.leb_spec (Z.of_nat k - Z.of_nat (length l)) 0) as [E|E].
  { do 3 eexists. split; [done|]. split; [by split_and!|]. lia. }
  rewrite wrapu_id by (unfold in_u; nia).
  destruct (rebuild_ok m ps v l l [] [] 0 k Hc Hv) as (q & m1 & -> & Hq & Hcp);
    [by rewrite !app_nil_r|done|simpl; lia|unfold sizeof_SharedBuffer; lia|].
  cbn [mbind option_bind]. rewrite (proj2 (Z.eqb_neq q 0)) by done. cbn [negb].
  destruct (Hcp true false) as (m2 & m3 & m4 & b & -> & E3 & E4 & Ho & Hk & Ei); [done..|].
  injection E3 as <-. cbn [mbind option_bind]. rewrite E4. cbn [mbind option_bind].
  rewrite wraps_id by width_lia. do 3 eexists. split; [done|]. simpl in Ei. split.
  - eapply owned_becomes; [exact Ho|exact Ei|apply spare_raw|done|done].
  - intros _. split; [done|]. rewrite (capacity_ok m4 (q :: ps) _ b) by apply Ho. f_equal.
    rewrite Ei, length_app, length_fmap, length_replicate. lia.
Qed.
End refine.
