(* ===== verification/VectorSort.v ===== *)
(** * system/libutils/VectorImpl.cpp: sorting a vector

    [isort] is the sorted list; [sort_ok] says that [sort] computes it in place,
    [sort_sorts] what it is. *)

From S2P Require Import Prelude VectorImpl VectorRefine.

(** ** Insertion sort on lists *)

Lemma StronglySorted_reverse {A} (R : A -> A -> Prop) (l : list A) :
  StronglySorted R (reverse l) <-> StronglySorted (fun x y => R y x) l.
Proof.
  induction l as [|x l IH]; [split; intros; constructor|].
  rewrite reverse_cons, StronglySorted_app, (StronglySorted_cons (fun x y => R y x) l x), IH, Forall_forall. split.
  - intros (H & Hs & _). split; [|done]. intros y Hy. apply H; [by apply elem_of_reverse|by left].
  - intros (H & Hs). split_and!; [|done|repeat constructor].
    intros y z Hy ->%list_elem_of_singleton. rewrite elem_of_reverse in Hy. by apply H.
Qed.

Section isort.
Context {A : Type} (cmp : A -> A -> Z).
Implicit Types l pre suf : list A.

(** [x] goes behind the last item that is not greater; the list is given from
    its end. *)
Fixpoint place_rev (x : A) (l : list A) : list A :=
  match l with
  | [] => [x]
  | y :: l' => if 0 <? cmp y x then y :: place_rev x l' else x :: l
  end.

Definition place (l : list A) (x : A) : list A := reverse (place_rev x (reverse l)).

Definition isort_from (pre l : list A) : list A := foldl place pre l.
Definition isort (l : list A) : list A := isort_from [] l.

Lemma place_snoc_gt pre y x : 0 < cmp y x -> place (pre ++ [y]) x = place pre x ++ [y].
Proof.
  intros H. unfold place. rewrite reverse_snoc. simpl. by rewrite (proj2 (Z.ltb_lt _ _)), reverse_cons.
Qed.

Lemma place_snoc_le pre y x : cmp y x <= 0 -> place (pre ++ [y]) x = pre ++ [y] ++ [x].
Proof.
  intros H. unfold place. rewrite reverse_snoc. simpl. rewrite (proj2 (Z.ltb_ge _ _)) by done.
  by rewrite !reverse_cons, reverse_involutive, <- app_assoc.
Qed.

Lemma place_rev_perm x l : Permutation (place_rev x l) (x :: l).
Proof.
  induction l as [|y l IH]; simpl; [done|]. case_if; [|done]. rewrite IH. apply perm_swap.
Qed.

Lemma place_perm l x : Permutation (place l x) (x :: l).
Proof. unfold place. by rewrite reverse_Permutation, place_rev_perm, reverse_Permutation. Qed.

Lemma isort_from_perm l : forall pre, Permutation (isort_from pre l) (pre ++ l).
Proof.
  induction l as [|x l IH]; intros pre; simpl; [by rewrite app_nil_r|].
  unfold isort_from in *. rewrite IH, place_perm. simpl. apply Permutation_middle.
Qed.

(** For a comparison that is a total order up to equivalence. *)
Record good_order : Prop := {
  order_trans x y z : cmp x y <= 0 -> cmp y z <= 0 -> cmp x z <= 0;
  order_flip x y : 0 < cmp x y <-> cmp y x < 0
}.
Hypothesis G : good_order.

Lemma place_rev_sorted x l :
  StronglySorted (fun y z => cmp z y <= 0) l -> StronglySorted (fun y z => cmp z y <= 0) (place_rev x l).
Proof.
  induction 1 as [|y l Hs IH Hy]; simpl; [by repeat constructor|].
  case_if.
  - constructor; [done|]. rewrite place_rev_perm. constructor; [|done]. apply (order_flip G) in Heqb. lia.
  - constructor; [by constructor|]. constructor; [done|]. eapply Forall_impl; [exact Hy|].
    intros z Hz. simpl in Hz. eapply (order_trans G); eauto.
Qed.

(** The items equivalent to [z] keep their order. *)
Lemma place_rev_stable z x l :
  StronglySorted (fun y z => cmp z y <= 0) l ->
  filter (fun y => cmp y z = 0) (place_rev x l) = filter (fun y => cmp y z = 0) (x :: l).
Proof.
  induction 1 as [|y l Hs IH Hy]; [done|]. cbn [place_rev]. case_if; [|done].
  rewrite filter_cons, IH. destruct (decide (cmp y z = 0)) as [E|E]; [|by rewrite !filter_cons; repeat case_decide].
  assert (cmp x z <> 0).
  { intros E2. assert (cmp z x <= 0) by (destruct (Z.le_gt_cases (cmp z x) 0); [done|]; apply (order_flip G) in H; lia).
    pose proof (order_trans G y z x). lia. }
  rewrite (filter_cons _ x), decide_False by done. rewrite filter_cons, decide_False by done.
  by rewrite filter_cons, decide_True.
Qed.

Lemma place_sorted x l :
  StronglySorted (fun y z => cmp y z <= 0) l -> StronglySorted (fun y z => cmp y z <= 0) (place l x).
Proof.
  intros H. unfold place. apply StronglySorted_reverse, place_rev_sorted.
  by apply (StronglySorted_reverse (fun y z => cmp z y <= 0)).
Qed.

Lemma place_stable z x l :
  StronglySorted (fun y z => cmp y z <= 0) l ->
  filter (fun y => cmp y z = 0) (place l x) = filter (fun y => cmp y z = 0) (l ++ [x]).
Proof.
  intros H. unfold place. rewrite <- (reverse_involutive (l ++ [x])), reverse_snoc.
  rewrite !filter_reverse, place_rev_stable; [done|].
  by apply (StronglySorted_reverse (fun y z => cmp z y <= 0)).
Qed.

Lemma isort_from_good z l : forall pre,
  StronglySorted (fun y z => cmp y z <= 0) pre ->
  StronglySorted (fun y z => cmp y z <= 0) (isort_from pre l) /\
  filter (fun y => cmp y z = 0) (isort_from pre l) = filter (fun y => cmp y z = 0) (pre ++ l).
Proof.
  induction l as [|x l IH]; intros pre H; simpl; [by rewrite app_nil_r|].
  destruct (IH (place pre x) (place_sorted x pre H)) as [H1 H2]. split; [done|].
  unfold isort_from in *. simpl. rewrite H2, filter_app, place_stable, <- filter_app, <- app_assoc by done. done.
Qed.
End isort.

(** ** In memory *)

Section sort.
Context {A : Type} {IT : ItemType A} {AL : Allocator} {SD : Sound IT AL}.
Variable cmp : A -> A -> Z.
Implicit Types (m : mem A) (v : VectorImpl) (l : list A) (ps : list Z).

(** One item is copied up. *)
Lemma copy_up m p ps b X y z Y j :
  owned m p ps b -> items b = X ++ [Some y] ++ [Some z] ++ Y -> j = Z.of_nat (length X) ->
  exists m1 m2 b2, _do_destroy p (j + 1) 1 m = Some m1 /\ _do_copy p (j + 1) (Inside p j) 1 m1 = Some m2 /\
    owned m2 p ps b2 /\ items b2 = X ++ [Some y] ++ [Some y] ++ Y /\ keeps ps m m2.
Proof.
  intros Ho Ei ->.
  destruct (overwrite_at m p ps b (X ++ [Some y]) z Y (Z.of_nat (length X) + 1) y Ho)
    as (m2 & b2 & Ed & Ec & Ho2 & Ei2 & _ & Hk); [by rewrite Ei, <- app_assoc|rewrite length_app; simpl; lia|].
  eexists _, m2, b2. split; [exact Ed|]. split; [|rewrite <- app_assoc in Ei2; done].
  unfold _do_copy, read_source.
  rewrite (read_at p _ 1 _ _ X [y] (gone [z] ++ Y) (lookup_upd _ _ _)) by (simpl; rewrite <- ?app_assoc; done).
  exact Ec.
Qed.

Lemma shift_ok p ps temp : forall pre y z Y b m fuel,
  owned m p ps b -> items b = (Some <$> pre) ++ [Some y] ++ [Some z] ++ Y -> 0 < cmp y temp ->
  (length pre < fuel)%nat ->
  exists pre' suf z' m' b',
    sort_shift cmp fuel p (Z.of_nat (length pre)) temp m = Some (Z.of_nat (length pre'), m') /\
    owned m' p ps b' /\ keeps ps m m' /\
    items b' = (Some <$> pre') ++ [Some z'] ++ (Some <$> suf) ++ Y /\
    place cmp (pre ++ [y]) temp = pre' ++ [temp] ++ suf.
Proof.
  induction pre as [|x pre IH] using rev_ind; intros y z Y b m [|fuel] Ho Ei Hy Hf; try (simpl in Hf; lia);
    cbn [sort_shift]; rewrite place_snoc_gt by done.
  - cbn [length]. change (Z.of_nat 0) with 0.
    destruct (copy_up m p ps b [] y z Y 0 Ho Ei) as (m1 & m2 & b2 & -> & E2 & Ho2 & Ei2 & Hk2); [done|].
    cbn [mbind option_bind]. rewrite E2. cbn [mbind option_bind].
    by exists [], [y], y, m2, b2.
  - destruct (copy_up m p ps b _ y z Y (Z.of_nat (length (pre ++ [x]))) Ho Ei) as (m1 & m2 & b2 & -> & E2 & Ho2 & Ei2 & Hk2);
      [by rewrite length_fmap|].
    cbn [mbind option_bind]. rewrite E2. cbn [mbind option_bind].
    rewrite length_app in *. simpl in Hf |- *. rewrite (proj2 (Z.leb_le _ _)) by lia.
    rewrite fmap_app, <- app_assoc in Ei2.
    rewrite (get_at p _ m2 b2 (Some <$> pre) x ([Some y] ++ [Some y] ++ Y) (owned_buf _ _ _ _ Ho2))
      by (rewrite ?length_fmap; (done || lia)).
    cbn [mbind option_bind]. destruct (Z.ltb_spec 0 (cmp x temp)) as [Hx|Hx].
    + destruct (IH x y ([Some y] ++ Y) b2 m2 fuel Ho2 Ei2 Hx) as (pre' & suf & z' & m' & b' & E & Ho' & Hk' & Ei' & Ep);
        [lia|]. replace (Z.of_nat (length pre + 1) - 1) with (Z.of_nat (length pre)) by lia.
      rewrite E. exists pre', (suf ++ [y]), z', m', b'. split; [done|]. split; [done|].
      split; [by eapply keeps_tr|]. rewrite fmap_app, <- app_assoc. split; [done|].
      rewrite Ep, <- !app_assoc. done.
    + exists (pre ++ [x]), [y], y, m2, b2. rewrite length_app. simpl.
      split; [do 2 f_equal; lia|]. split; [done|]. split; [done|].
      rewrite fmap_app, <- app_assoc. split; [done|]. rewrite place_snoc_le by done. by rewrite <- !app_assoc.
Qed.

Lemma counted_bufs m m' ps : bufs m' = bufs m -> counted m ps -> counted m' ps.
Proof. intros E [H1 H2 H3]. split; rewrite ?E; done. Qed.

Lemma content_bufs m m' v l : bufs m' = bufs m -> content m v l -> content m' v l.
Proof. intros E H. unfold content. by rewrite E. Qed.

Lemma keeps_bufs m m' ps : bufs m' = bufs m -> keeps ps m m'.
Proof. intros E p _. by rewrite E. Qed.

(** Putting an item in its place, in a buffer of one's own. *)
Lemma insert_place m p ps b pre y x suf rest :
  owned m p ps b -> items b = (Some <$> ((pre ++ [y]) ++ x :: suf)) ++ rest -> 0 < cmp y x ->
  exists next m1 m2 m3 b3, sort_shift cmp (Z.to_nat (Z.of_nat (length (pre ++ [y])))) p
      (Z.of_nat (length (pre ++ [y])) - 1) x m = Some (next, m1) /\
    _do_destroy p next 1 m1 = Some m2 /\ construct p next [Some x] m2 = Some m3 /\
    owned m3 p ps b3 /\ keeps ps m m3 /\ items b3 = (Some <$> (place cmp (pre ++ [y]) x ++ suf)) ++ rest.
Proof.
  intros Ho Ei Hy. rewrite Nat2Z.id. rewrite length_app. simpl.
  destruct (shift_ok p ps x pre y x ((Some <$> suf) ++ rest) b m (length pre + 1) Ho)
    as (pre' & sf & z' & m1 & b1 & E1 & Ho1 & Hk1 & Ei1 & Ep);
    [rewrite Ei, !fmap_app, <- !app_assoc; done|done|lia|].
  destruct (overwrite_at m1 p ps b1 (Some <$> pre') z' ((Some <$> sf) ++ (Some <$> suf) ++ rest)
    (Z.of_nat (length pre')) x Ho1 Ei1) as (m3 & b3 & Ed & Ec & Ho3 & Ei3 & _ & Hk3); [by rewrite length_fmap|].
  replace (Z.of_nat (length pre + 1) - 1) with (Z.of_nat (length pre)) by lia.
  eexists _, m1, _, m3, b3. split; [exact E1|]. split; [exact Ed|]. split; [exact Ec|]. split; [done|].
  split; [by eapply keeps_tr|]. rewrite Ep, Ei3, !fmap_app, <- !app_assoc. done.
Qed.

(** A buffer of one's own, and the memory for one item. *)
Lemma sort_prepare m ps v l (have : bool) :
  counted m (mStorage v :: ps) -> content m v l -> few ps -> l <> [] -> (have = true -> mStorage v ∉ ps) ->
  exists p m' b, (if negb have then
      '(array, v, m) ← editArrayImpl v m;
      if array =? 0 then Some (false, array, v, m)
      else
        let '(t, m) := ask (dom (bufs m)) mItemSize m in
        Some (negb (t =? 0), array, v, m)
    else Some (true, mStorage v, v, m)) = Some (true, p, mkVector p (mCount v), m') /\
    owned m' p ps b /\ holds (items b) l /\ keeps ps m m'.
Proof.
  intros Hc Hv Hfew Hl Hown. destruct (capacity_cases m ps v l Hc Hv) as [(_ & -> & _)|(H0 & b & Hb & Hh & _)]; [done|].
  destruct have; cbn [negb].
  - exists (mStorage v), m, b. split; [by destruct v|]. split; [|done]. split; [done|by apply Hown|done].
  - destruct (edit_ok m ps v l Hc Hv H0 Hfew) as (p & m1 & b1 & _ & -> & Hp & Ho & Hh1 & Hk & _).
    cbn [mbind option_bind]. rewrite (proj2 (Z.eqb_neq p 0)) by done. unfold ask.
    destruct (malloc_ok (calls m1) (dom (bufs m1)) mItemSize) as [Ht _]. rewrite (proj2 (Z.eqb_neq _ 0)) by done.
    do 3 eexists. split; [reflexivity|]. split; [split; [|apply Ho|apply Ho]|].
    + by eapply counted_bufs; [|apply Ho].
    + split; [done|]. eapply keeps_tr; [exact Hk|by apply keeps_bufs].
Qed.

Lemma sort_loop_ok ps : forall l pre m v have,
  counted m (mStorage v :: ps) -> content m v (pre ++ l) -> few ps -> pre <> [] ->
  (have = true -> mStorage v ∉ ps) ->
  exists v' m', sort_loop cmp (length l) (Z.of_nat (length pre)) (mStorage v) have v m = Some (NO_ERROR, v', m') /\
    becomes m ps v' m' (isort_from cmp pre l).
Proof.
  induction l as [|x l IH]; intros pre m v have Hc Hv Hfew Hpre Hown.
  { exists v, m. simpl. rewrite app_nil_r in Hv. by split_and!. }
  destruct pre as [|y pre _] using rev_ind; [done|]. cbn [length sort_loop].
  pose proof (proj1 Hv) as Hn.
  assert (Hg1 : get (mStorage v) (Z.of_nat (length (pre ++ [y])) - 1) m = Some y).
  { replace (Z.of_nat (length (pre ++ [y])) - 1) with (Z.of_nat (length pre)) by (rewrite length_app; simpl; lia).
    apply (itemAt_ok m v _ _ _ Hv). by rewrite <- app_assoc, lookup_app_r, Nat.sub_diag by lia. }
  assert (Hg2 : get (mStorage v) (Z.of_nat (length (pre ++ [y]))) m = Some x).
  { apply (itemAt_ok m v _ _ _ Hv). by rewrite lookup_app_r, Nat.sub_diag by lia. }
  rewrite Hg1, Hg2. cbn [mbind option_bind].
  destruct (Z.ltb_spec 0 (cmp y x)) as [Hx|Hx].
  - destruct (sort_prepare m ps v _ have Hc Hv Hfew) as (p & m1 & b & Ep & Ho & (rest & Ei & Hs) & Hk);
      [by destruct pre|done|]. rewrite Ep. cbn [mbind option_bind negb]. clear Ep.
    assert (Hg3 : get p (Z.of_nat (length (pre ++ [y]))) m1 = Some x).
    { apply (get_at p _ m1 b (Some <$> (pre ++ [y])) x ((Some <$> l) ++ rest) (owned_buf _ _ _ _ Ho));
        [by rewrite Ei, fmap_app, <- !app_assoc|by rewrite length_fmap]. }
    rewrite Hg3. cbn [mbind option_bind].
    destruct (insert_place m1 p ps b pre y x l rest Ho Ei Hx) as (next & m2 & m3 & m4 & b4 & -> & E3 & E4 & Ho4 & Hk4 & Ei4).
    cbn [mbind option_bind]. rewrite E3. cbn [mbind option_bind]. rewrite E4. cbn [mbind option_bind].
    assert (L : length (place cmp (pre ++ [y]) x) = S (length (pre ++ [y]))) by (by rewrite place_perm).
    replace (Z.of_nat (length (pre ++ [y])) + 1) with (Z.of_nat (length (place cmp (pre ++ [y]) x))) by lia.
    destruct (owned_becomes m ps p b4 (mCount v) m4 (place cmp (pre ++ [y]) x ++ l) rest Ho4 Ei4 Hs) as (Hc4 & Hv4 & Hk5).
    { rewrite Hn, !length_app in *. simpl in *. lia. }
    { by eapply keeps_tr. }
    destruct (IH (place cmp (pre ++ [y]) x) m4 (mkVector p (mCount v)) true Hc4 Hv4) as (v' & m' & E & Hb);
      [done|intros H; by rewrite H in L|intros _; apply Ho4|]. cbn [mStorage] in E. rewrite E.
    exists v', m'. split; [done|]. by eapply becomes_trans.
  - replace (Z.of_nat (length (pre ++ [y])) + 1) with (Z.of_nat (length ((pre ++ [y]) ++ [x])))
      by (rewrite (length_app _ [x]); simpl; lia).
    destruct (IH ((pre ++ [y]) ++ [x]) m v have Hc) as (v' & m' & -> & Hb);
      [by rewrite <- app_assoc|done|by destruct pre|done|].
    exists v', m'. split; [done|]. simpl. unfold isort_from in *. simpl. by rewrite place_snoc_le, app_assoc.
Qed.

Theorem sort_ok m ps v l :
  counted m (mStorage v :: ps) -> content m v l -> few ps -> Z.of_nat (length l) < 2 ^ 31 ->
  exists v' m', sort cmp v m = Some (NO_ERROR, v', m') /\ becomes m ps v' m' (isort cmp l).
Proof.
  intros Hc Hv Hfew Hl. unfold sort. rewrite (proj1 Hv), wraps_id by width_lia. cbv zeta.
  destruct (Z.ltb_spec 1 (Z.of_nat (length l))) as [E|E].
  - destruct l as [|x l]; [simpl in E; lia|]. replace (Z.to_nat _) with (length l) by (simpl; lia).
    destruct (sort_loop_ok ps l [x] m v false Hc Hv Hfew) as (v' & m' & H & Hb); [done|done|].
    exists v', m'. split; [exact H|done].
  - exists v, m. split; [done|]. by destruct l as [|x [|y l]]; [by split_and!|by split_and!|simpl in E; lia].
Qed.

(** C11: [sort] sorts, whatever vectors share the buffer: with a comparison that
    is an order up to equivalence, for fewer than 2^31 items (their number is
    converted to [ssize_t]) and when the allocations succeed (of a copy of a
    shared buffer and of the place for one item), it ends without an error, the
    vector then holds the same items in ascending order, those that compare
    equal in the order they had before, and no other vector changes. *)
Theorem sort_sorts m ps v l :
  good_order cmp -> counted m (mStorage v :: ps) -> content m v l -> few ps ->
  Z.of_nat (length l) < 2 ^ 31 ->
  exists v' m' l', sort cmp v m = Some (NO_ERROR, v', m') /\
    content m' v' l' /\ counted m' (mStorage v' :: ps) /\ keeps ps m m' /\
    StronglySorted (fun x y => cmp x y <= 0) l' /\ Permutation l' l /\
    forall z, filter (fun y => cmp y z = 0) l' = filter (fun y => cmp y z = 0) l.
Proof.
  intros G Hc Hv Hfew Hl. destruct (sort_ok m ps v l Hc Hv Hfew Hl) as (v' & m' & E & Hc' & Hv' & Hk).
  exists v', m', (isort cmp l). split_and!; try done.
  - destruct l as [|x l]; [constructor|]. apply (isort_from_good cmp G x (x :: l) []). constructor.
  - apply (isort_from_perm cmp l []).
  - intros z. apply (isort_from_good cmp G z l []). constructor.
Qed.
End sort.

(** ** Witness *)

(** Items without constructors; an allocator that finds memory not in use. *)
Definition int_type : ItemType Z := Build_ItemType Z 4 true true true true 0.
Definition any_fresh : Allocator := fun _ taken _ => fresh (taken ∪ {[ 0 ]}).

Lemma any_fresh_sound {A} (IT : ItemType A) : 0 < mItemSize < 2 ^ 29 -> Sound IT any_fresh.
Proof.
  intros H. split; [|done]. intros k taken size. unfold malloc, any_fresh.
  pose proof (is_fresh (taken ∪ {[ 0 ]})) as F. set_solver.
Qed.

(** A buffer of three items that two vectors share. *)
Definition three : mem Z := mkMem {[ 8 := mkBuffer 2 12 [Some 3; Some 1; Some 2] ]} 0.

Lemma three_counted : @counted Z int_type three [8; 8].
Proof.
  split; [|by intros p [->|[->|?%elem_of_nil]%elem_of_cons]%elem_of_cons; try done; right; eexists|done].
  intros p b H. unfold three, bufs in H. apply lookup_singleton_Some in H as [<- <-]. by vm_compute.
Qed.

Lemma sort_sorts_witness :
  exists v' m' l', @sort Z int_type any_fresh Z.sub (mkVector 8 3) three = Some (NO_ERROR, v', m') /\
    StronglySorted (fun x y => x - y <= 0) l' /\ Permutation l' [3; 1; 2].
Proof.
  pose proof (any_fresh_sound int_type ltac:(simpl; lia)) as SD.
  destruct (@sort_sorts Z int_type any_fresh SD Z.sub three [8] (mkVector 8 3) [3; 1; 2])
    as (v' & m' & l' & E & _ & _ & _ & H1 & H2 & _).
  - split; lia.
  - exact three_counted.
  - split; [done|]. right. eexists. split; [reflexivity|]. by exists [].
  - unfold few. simpl. lia.
  - simpl. lia.
  - exists v', m', l'. split; [exact E|]. split; [exact H1|exact H2].
Defined.
