(* ===== verification/VectorClient.v ===== *)
(** * system/libutils/VectorImpl.cpp: what a client of vectors can rely on

    Any number of vectors that copy, assign, change and destroy one another
    behave as lists that are values, although they share buffers: [vectors_are_values]
    is the simulation. *)

From S2P Require Import Prelude VectorImpl VectorRefine VectorSort.

Section client.
Context {A : Type} {IT : ItemType A} {AL : Allocator} {SD : Sound IT AL}.
Implicit Types (m : mem A) (v : VectorImpl) (l : list A) (i j : nat).

(** ** Commands *)

Abbreviation vectors := (gmap nat VectorImpl).

Inductive cmd :=
  | New (i : nat)
  | Copy (i j : nat)
  | Assign (i j : nat)
  | Destroy (i : nat)
  | InsertAt (i : nat) (x : A) (index n : nat)
  | InsertDefault (i : nat) (index n : nat)
  | InsertArray (i : nat) (l : list A) (index : nat)
  | InsertVector (i j : nat) (index : nat)
  | ReplaceAt (i : nat) (x : A) (index : nat)
  | RemoveItemsAt (i : nat) (index n : nat)
  | Pop (i : nat)
  | Clear (i : nat)
  | SetCapacity (i : nat) (n : nat)
  | EditItemAt (i : nat) (index : nat) (x : A)
  | Sort (i : nat) (cmp : A -> A -> Z).

(** Operations on one vector; those without an answer are given 0. *)
Definition on_vector (i : nat) (f : VectorImpl -> mem A -> option (Z * VectorImpl * mem A))
    (s : vectors * mem A) : option (Z * (vectors * mem A)) :=
  v ← s.1 !! i;
  '(r, v, m) ← f v s.2;
  Some (r, (<[i := v]> s.1, m)).

Definition quietly (f : VectorImpl -> mem A -> option (VectorImpl * mem A)) v m :=
  '(v, m) ← f v m; Some (0, v, m).

Definition exec (c : cmd) (s : vectors * mem A) : option (Z * (vectors * mem A)) :=
  match c with
  | New i => Some (0, (<[i := new_vector]> s.1, s.2))
  | Copy i j => w ← s.1 !! j; '(v, m) ← copy_vector w s.2; Some (0, (<[i := v]> s.1, m))
  | Assign i j => w ← s.1 !! j; on_vector i (quietly (fun v => assign_vector (bool_decide (i = j)) v w)) s
  | Destroy i =>
      v ← s.1 !! i; '(_, m) ← finish_vector v s.2; Some (0, (delete i s.1, m))
  | InsertAt i x index n => on_vector i (insertAt (Some (Outside [x])) (Z.of_nat index) (Z.of_nat n)) s
  | InsertDefault i index n => on_vector i (insertAt None (Z.of_nat index) (Z.of_nat n)) s
  | InsertArray i l index =>
      on_vector i (insertArrayAt (Outside l) (Z.of_nat index) (Z.of_nat (length l))) s
  | InsertVector i j index => w ← s.1 !! j; on_vector i (insertVectorAt w (Z.of_nat index)) s
  | ReplaceAt i x index => on_vector i (replaceAt (Some (Outside [x])) (Z.of_nat index)) s
  | RemoveItemsAt i index n => on_vector i (removeItemsAt (Z.of_nat index) (Z.of_nat n)) s
  | Pop i => on_vector i (quietly pop) s
  | Clear i => on_vector i (quietly clear) s
  | SetCapacity i n => on_vector i (setCapacity (Z.of_nat n)) s
  | EditItemAt i index x => on_vector i (quietly (editItemAt (Z.of_nat index) x)) s
  | Sort i cmp => on_vector i (sort cmp) s
  end.

(** ** The specification: vectors are lists *)

Definition insert_list (index : nat) (new l : list A) : Z * list A :=
  if (length l <? index)%nat then (BAD_INDEX, l)
  else (Z.of_nat index, take index l ++ new ++ drop index l).

Definition replace_list (index : nat) (x : A) (l : list A) : Z * list A :=
  if (length l <=? index)%nat then (BAD_INDEX, l) else (Z.of_nat index, <[index := x]> l).

Definition remove_list (index n : nat) (l : list A) : Z * list A :=
  if (length l <? index + n)%nat then (BAD_VALUE, l)
  else (Z.of_nat index, take index l ++ drop (index + n) l).

(** The answer, unless it depends on the capacity, and the vectors after. *)
Definition astep (c : cmd) (S : gmap nat (list A)) : option Z * gmap nat (list A) :=
  let on i f := let l := default [] (S !! i) in (Some (f l).1, <[i := (f l).2]> S) in
  match c with
  | New i => (Some 0, <[i := []]> S)
  | Copy i j | Assign i j => (Some 0, <[i := default [] (S !! j)]> S)
  | Destroy i => (Some 0, delete i S)
  | InsertAt i x index n => on i (insert_list index (replicate n x))
  | InsertDefault i index n => on i (insert_list index (replicate n default_item))
  | InsertArray i new index => on i (insert_list index new)
  | InsertVector i j index => on i (insert_list index (default [] (S !! j)))
  | ReplaceAt i x index => on i (replace_list index x)
  | RemoveItemsAt i index n => on i (remove_list index n)
  | Pop i => on i (fun l => (0, take (length l - 1) l))
  | Clear i => on i (fun l => (0, []))
  | SetCapacity i n => (None, S)
  | EditItemAt i index x => on i (fun l => (0, <[index := x]> l))
  | Sort i cmp => on i (fun l => (NO_ERROR, isort cmp l))
  end.

(** What a client must respect: it names vectors it has; vectors and their number
    stay in range; it inserts at least one item (and default items only of types
    whose constructor does something), from outside the vector; and it removes at
    least one, unless at the end or by [memmove]. *)
Definition insertion_ok (l : list A) (index n : nat) : Prop :=
  (index <= length l)%nat -> n <> 0%nat /\ fits (Z.of_nat (length l + n)).

Definition valid (S : gmap nat (list A)) (c : cmd) : Prop :=
  let at_ i P := match S !! i with Some l => P l | None => False end in
  match c with
  | New i => S !! i = None /\ Z.of_nat (size S) + 4 < 2 ^ 31
  | Copy i j => S !! i = None /\ is_Some (S !! j) /\ Z.of_nat (size S) + 4 < 2 ^ 31
  | Assign i j => is_Some (S !! i) /\ is_Some (S !! j)
  | Destroy i | Pop i | Clear i | Sort i _ => is_Some (S !! i)
  | InsertAt i x index n => at_ i (fun l => insertion_ok l index n)
  | InsertDefault i index n => has_trivial_ctor = false /\ at_ i (fun l => insertion_ok l index n)
  | InsertArray i new index => at_ i (fun l => insertion_ok l index (length new))
  | InsertVector i j index =>
      i <> j /\ at_ i (fun l => at_ j (fun new => insertion_ok l index (length new)))
  | ReplaceAt i x index => is_Some (S !! i)
  | RemoveItemsAt i index n => at_ i (fun l =>
      Z.of_nat (index + n) < 2 ^ 32 /\ (by_memmove = true \/ n <> 0%nat \/ index = length l))
  | SetCapacity i n =>
      is_Some (S !! i) /\ Z.of_nat n < 2 ^ 31 /\ Z.of_nat n * mItemSize + sizeof_SharedBuffer < 2 ^ 32
  | EditItemAt i index x => at_ i (fun l => (index < length l)%nat)
  end.

(** ** Representation *)

Definition ptrs (vs : vectors) : list Z := mStorage <$> (map_to_list vs).*2.

Record represents (s : vectors * mem A) (S : gmap nat (list A)) : Prop := {
  rep_counted : counted s.2 (ptrs s.1);
  rep_few : Z.of_nat (size S) + 3 < 2 ^ 31;
  rep_dom : dom s.1 = dom S;
  rep_content i v l : s.1 !! i = Some v -> S !! i = Some l ->
    content s.2 v l /\ fits (Z.of_nat (length l))
}.

Lemma ptrs_insert vs i v : Permutation (ptrs (<[i := v]> vs)) (mStorage v :: ptrs (delete i vs)).
Proof.
  unfold ptrs. rewrite <- insert_delete_eq.
  rewrite map_to_list_insert by apply lookup_delete_eq. done.
Qed.

Lemma ptrs_lookup vs i v : vs !! i = Some v -> Permutation (ptrs vs) (mStorage v :: ptrs (delete i vs)).
Proof. intros H. rewrite <- (ptrs_insert vs i v). by rewrite insert_id. Qed.

Lemma ptrs_elem vs i v : vs !! i = Some v -> mStorage v ∈ ptrs vs.
Proof. intros H. rewrite (ptrs_lookup vs i v H). by left. Qed.

Lemma length_ptrs vs : length (ptrs vs) = size vs.
Proof. unfold ptrs. by rewrite !length_fmap, length_map_to_list. Qed.

Section rep.
Variables (vs : vectors) (m : mem A) (S : gmap nat (list A)).
Hypothesis R : represents (vs, m) S.

Lemma rep_lookup i l : S !! i = Some l ->
  exists v, vs !! i = Some v /\ content m v l /\ fits (Z.of_nat (length l)) /\
    counted m (mStorage v :: ptrs (delete i vs)) /\ few (ptrs (delete i vs)).
Proof.
  intros HS. assert (is_Some (vs !! i)) as [v Hv].
  { apply elem_of_dom. pose proof (rep_dom _ _ R) as D. simpl in D. rewrite D. by apply elem_of_dom_2 in HS. }
  exists v. destruct (rep_content _ _ R i v l Hv HS) as [H1 H2]. split_and!; try done.
  - eapply counted_perm; [by apply ptrs_lookup|]. apply (rep_counted _ _ R).
  - unfold few. rewrite length_ptrs. pose proof (rep_few _ _ R) as F.
    assert (size vs = size S) by (rewrite <- !size_dom; f_equal; apply (rep_dom _ _ R)).
    rewrite (map_size_delete_Some i vs) by eauto. lia.
Qed.

(** One vector has changed. *)
Lemma rep_becomes i v l v' m' l' :
  vs !! i = Some v -> S !! i = Some l -> becomes m (ptrs (delete i vs)) v' m' l' -> fits (Z.of_nat (length l')) ->
  represents (<[i := v']> vs, m') (<[i := l']> S).
Proof.
  intros Hv HS (Hc & Hv' & Hk) Hf. split; cbn [fst snd].
  - eapply counted_perm; [symmetry; apply ptrs_insert|done].
  - rewrite map_size_insert_Some by eauto. apply (rep_few _ _ R).
  - rewrite !dom_insert_L. f_equal. apply (rep_dom _ _ R).
  - intros j w k. destruct (decide (i = j)) as [<-|Hne].
    + rewrite !lookup_insert_eq. by intros [= <-] [= <-].
    + rewrite !lookup_insert_ne by done. intros Hw Hk'. destruct (rep_content _ _ R j w k Hw Hk') as [H1 H2].
      split; [|done]. eapply content_keeps; [exact Hk| |exact H1].
      apply (ptrs_elem _ j). by rewrite lookup_delete_ne.
Qed.
End rep.

Lemma fits_0 : fits 0.
Proof. split; [lia|]. change ((0 * 3 + 1) / 2) with 0. unfold sizeof_SharedBuffer. lia. Qed.

Section sim.
Variables (vs : vectors) (m : mem A) (S : gmap nat (list A)).
Hypothesis R : represents (vs, m) S.

(** The command runs and has the effect that is specified. *)
Definition sim (c : cmd) : Prop :=
  exists r s', exec c (vs, m) = Some (r, s') /\ default r (astep c S).1 = r /\ represents s' (astep c S).2.

(** An operation on one vector that answers [r] and makes it [l']. *)
Lemma on_vector_sim i f l r l' :
  S !! i = Some l ->
  (forall v ps, counted m (mStorage v :: ps) -> content m v l -> few ps -> fits (Z.of_nat (length l)) ->
     ps = ptrs (delete i vs) -> exists v' m', f v m = Some (r, v', m') /\ becomes m ps v' m' l') ->
  fits (Z.of_nat (length l')) ->
  exists s', on_vector i f (vs, m) = Some (r, s') /\ represents s' (<[i := l']> S).
Proof.
  intros HS Hf Hl'. destruct (rep_lookup vs m S R i l HS) as (v & Hv & Hc & Hfit & Hcnt & Hfew).
  destruct (Hf v _ Hcnt Hc Hfew Hfit eq_refl) as (v' & m' & E & Hb).
  unfold on_vector. cbn [fst snd]. rewrite Hv. cbn [mbind option_bind]. rewrite E. cbn [mbind option_bind].
  eexists. split; [done|]. by eapply rep_becomes.
Qed.

Lemma becomes_same v l ps : counted m (mStorage v :: ps) -> content m v l -> becomes m ps v m l.
Proof. done. Qed.

(** ** Insertions *)

Lemma insertion_sim i f l new index :
  S !! i = Some l -> insertion_ok l index (length new) ->
  (forall v, content m v l -> (length l < index)%nat -> f v m = Some (BAD_INDEX, v, m)) ->
  (forall v ps l1 l2, counted m (mStorage v :: ps) -> content m v (l1 ++ l2) -> few ps -> index = length l1 ->
     length new <> 0%nat -> fits (Z.of_nat (length l1 + length l2 + length new)) -> ps = ptrs (delete i vs) ->
     exists v' m', f v m = Some (Z.of_nat index, v', m') /\ becomes m ps v' m' (l1 ++ new ++ l2)) ->
  exists s', on_vector i f (vs, m) = Some ((insert_list index new l).1, s') /\
    represents s' (<[i := (insert_list index new l).2]> S).
Proof.
  intros HS Hok Hbad Hins. pose proof (rep_lookup vs m S R i l HS) as (v0 & _ & _ & Hfit & _).
  unfold insert_list. destruct (Nat.ltb_spec (length l) index) as [Hlt|Hge]; cbn [fst snd].
  - apply (on_vector_sim i f l _ _ HS); [|done]. intros v ps Hc Hv _ _ _. exists v, m. split; [by apply Hbad|done].
  - destruct (Hok Hge) as [Hn Hf]. apply (on_vector_sim i f l _ _ HS).
    + intros v ps Hc Hv Hfew _ Hps. apply (Hins v ps (take index l) (drop index l)); try done.
      * by rewrite take_drop.
      * rewrite length_take. lia.
      * rewrite length_take, length_drop. replace (_ + _)%nat with (length l + length new)%nat by lia. done.
    + rewrite !length_app, length_take, length_drop.
      replace (_ + _)%nat with (length l + length new)%nat by lia. done.
Qed.

Lemma sim_InsertAt i x index n : valid S (InsertAt i x index n) -> sim (InsertAt i x index n).
Proof.
  simpl. intros H. destruct (S !! i) as [l|] eqn:HS; [|done].
  destruct (insertion_sim i (insertAt (Some (Outside [x])) (Z.of_nat index) (Z.of_nat n)) l (replicate n x) index HS)
    as (s' & E & HR).
  - by rewrite length_replicate.
  - intros v Hv Hlt. apply (insert_bad_index m v l); [done|lia].
  - intros v ps l1 l2 Hc Hv Hfew -> Hn Hf _. rewrite length_replicate in *.
    apply (insertAt_ok m ps v l1 l2 x (Outside [x]) n Hc Hv); [done..|]. intros. apply gives_outside.
  - unfold sim. simpl. rewrite HS. eauto.
Qed.

Lemma sim_InsertDefault i index n : valid S (InsertDefault i index n) -> sim (InsertDefault i index n).
Proof.
  simpl. intros [Hct H]. destruct (S !! i) as [l|] eqn:HS; [|done].
  destruct (insertion_sim i (insertAt None (Z.of_nat index) (Z.of_nat n)) l (replicate n default_item) index HS)
    as (s' & E & HR).
  - by rewrite length_replicate.
  - intros v Hv Hlt. apply (insert_bad_index m v l); [done|lia].
  - intros v ps l1 l2 Hc Hv Hfew -> Hn Hf _. rewrite length_replicate in *.
    by apply (insertAt_default m ps v l1 l2 n Hc Hv).
  - unfold sim. simpl. rewrite HS. eauto.
Qed.

Lemma sim_InsertArray i new index : valid S (InsertArray i new index) -> sim (InsertArray i new index).
Proof.
  simpl. intros H. destruct (S !! i) as [l|] eqn:HS; [|done].
  destruct (insertion_sim i (insertArrayAt (Outside new) (Z.of_nat index) (Z.of_nat (length new))) l new index HS)
    as (s' & E & HR); [done|..].
  - intros v Hv Hlt. apply (insertArray_bad_index m v l); [done|lia].
  - intros v ps l1 l2 Hc Hv Hfew -> Hn Hf _.
    apply (insertArrayAt_ok m ps v l1 l2 new (Outside new) Hc Hv); [done|by destruct new|done|].
    intros. apply gives_outside.
  - unfold sim. simpl. rewrite HS. eauto.
Qed.

Lemma sim_InsertVector i j index : valid S (InsertVector i j index) -> sim (InsertVector i j index).
Proof.
  simpl. intros [Hij H]. destruct (S !! i) as [l|] eqn:HS; [|done]. destruct (S !! j) as [new|] eqn:HSj; [|done].
  destruct (rep_lookup vs m S R j new HSj) as (w & Hw & Hcw & _).
  destruct (insertion_sim i (insertVectorAt w (Z.of_nat index)) l new index HS) as (s' & E & HR); [done|..].
  - intros v Hv Hlt. unfold insertVectorAt. apply (insertArray_bad_index m v l); [done|lia].
  - intros v ps l1 l2 Hc Hv Hfew -> Hn Hf ->. unfold insertVectorAt. rewrite (proj1 Hcw).
    apply (insertArrayAt_ok m _ v l1 l2 new _ Hc Hv); [done|by destruct new|done|].
    intros m' Hk. apply (content_gives m' w [] new []). rewrite app_nil_r. eapply content_keeps; [exact Hk| |done].
    apply (ptrs_elem _ j). by rewrite lookup_delete_ne.
  - unfold sim. simpl. rewrite HS, HSj, Hw. cbn [mbind option_bind]. eauto.
Qed.

(** ** Other changes of one vector *)

Lemma sim_ReplaceAt i x index : valid S (ReplaceAt i x index) -> sim (ReplaceAt i x index).
Proof.
  simpl. intros [l HS]. pose proof (rep_lookup vs m S R i l HS) as (v0 & _ & _ & Hfit & _).
  destruct (on_vector_sim i (replaceAt (Some (Outside [x])) (Z.of_nat index)) l (replace_list index x l).1
    (replace_list index x l).2 HS) as (s' & E & HR).
  - intros v ps Hc Hv Hfew _ _. unfold replace_list.
    destruct (Nat.leb_spec (length l) index) as [Hle|Hlt]; cbn [fst snd].
    + exists v, m. split; [|done]. apply (replace_bad_index m v l); [done|lia].
    + apply lookup_lt_is_Some_2 in Hlt as [y Hy]. apply list_elem_of_split_length in Hy as (l1 & l2 & -> & ->).
      rewrite insert_app_r_alt, Nat.sub_diag by done. pose proof (proj1 Hfit) as F. rewrite length_app in F. simpl in F.
      apply (replaceAt_ok m ps v l1 y l2 x _ Hc Hv Hfew); [lia|done|]. intros. apply gives_outside.
  - unfold replace_list. case_if; [done|]. simpl. by rewrite length_insert.
  - unfold sim. simpl. rewrite HS. eauto.
Qed.

Lemma sim_RemoveItemsAt i index n : valid S (RemoveItemsAt i index n) -> sim (RemoveItemsAt i index n).
Proof.
  simpl. intros H. destruct (S !! i) as [l|] eqn:HS; [|done]. destruct H as [Hb Hmv].
  pose proof (rep_lookup vs m S R i l HS) as (v0 & _ & _ & Hfit & _).
  destruct (on_vector_sim i (removeItemsAt (Z.of_nat index) (Z.of_nat n)) l (remove_list index n l).1
    (remove_list index n l).2 HS) as (s' & E & HR).
  - intros v ps Hc Hv Hfew _ _. unfold remove_list.
    destruct (Nat.ltb_spec (length l) (index + n)) as [Hlt|Hge]; cbn [fst snd].
    + exists v, m. split; [|done]. apply (remove_bad_value m v l); [done|lia..].
    + destruct (split_at l index n Hge) as (l1 & lk & l2 & -> & <- & <-).
      rewrite take_app_length. replace (drop _ _) with l2
        by (by rewrite app_assoc, <- length_app, drop_app_length).
      apply (removeItemsAt_ok m ps v l1 lk l2 Hc Hv Hfew); [|done].
      destruct Hmv as [|[Hne|El]]; [by left|right; left; by destruct lk|].
      right. right. rewrite !length_app in El. apply length_zero_iff_nil. lia.
  - unfold remove_list. case_if; [done|]. simpl. eapply fits_le; [|exact Hfit].
    rewrite length_app, length_take, length_drop. lia.
  - unfold sim. simpl. rewrite HS. eauto.
Qed.

Lemma quietly_sim i f l l' :
  S !! i = Some l -> (length l' <= length l)%nat ->
  (forall v ps, counted m (mStorage v :: ps) -> content m v l -> few ps -> fits (Z.of_nat (length l)) ->
     exists v' m', f v m = Some (v', m') /\ becomes m ps v' m' l') ->
  exists s', on_vector i (quietly f) (vs, m) = Some (0, s') /\ represents s' (<[i := l']> S).
Proof.
  intros HS Hle Hf. pose proof (rep_lookup vs m S R i l HS) as (v0 & _ & _ & Hfit & _).
  apply (on_vector_sim i (quietly f) l 0 l' HS); [|eapply fits_le; [|exact Hfit]; lia].
  intros v ps Hc Hv Hfew Hfits _. destruct (Hf v ps Hc Hv Hfew Hfits) as (v' & m' & E & Hb).
  unfold quietly. rewrite E. cbn [mbind option_bind]. eauto.
Qed.

Lemma sim_Pop i : valid S (Pop i) -> sim (Pop i).
Proof.
  simpl. intros [l HS]. destruct (quietly_sim i pop l (take (length l - 1) l) HS) as (s' & E & HR);
    [rewrite length_take; lia|intros; by apply pop_ok|]. unfold sim. simpl. rewrite HS. eauto.
Qed.

Lemma sim_Clear i : valid S (Clear i) -> sim (Clear i).
Proof.
  simpl. intros [l HS]. destruct (quietly_sim i clear l [] HS) as (s' & E & HR);
    [simpl; lia|intros; by eapply clear_ok|]. unfold sim. simpl. eauto.
Qed.

Lemma sim_EditItemAt i index x : valid S (EditItemAt i index x) -> sim (EditItemAt i index x).
Proof.
  simpl. intros H. destruct (S !! i) as [l|] eqn:HS; [|done].
  destruct (quietly_sim i (editItemAt (Z.of_nat index) x) l (<[index := x]> l) HS) as (s' & E & HR).
  - by rewrite length_insert.
  - intros v ps Hc Hv Hfew _. apply lookup_lt_is_Some_2 in H as [y Hy].
    apply list_elem_of_split_length in Hy as (l1 & l2 & -> & ->).
    rewrite insert_app_r_alt, Nat.sub_diag by done. by apply (editItemAt_ok m ps v l1 y l2 x).
  - unfold sim. simpl. rewrite HS. eauto.
Qed.

Lemma sim_Sort i cmp : valid S (Sort i cmp) -> sim (Sort i cmp).
Proof.
  simpl. intros [l HS]. pose proof (rep_lookup vs m S R i l HS) as (v0 & _ & _ & Hfit & _).
  destruct (on_vector_sim i (sort cmp) l NO_ERROR (isort cmp l) HS) as (s' & E & HR).
  - intros v ps Hc Hv Hfew [Hf _] _. apply sort_ok; try done. lia.
  - unfold isort. by rewrite (isort_from_perm cmp l []).
  - unfold sim. simpl. rewrite HS. eauto.
Qed.

Lemma sim_SetCapacity i n : valid S (SetCapacity i n) -> sim (SetCapacity i n).
Proof.
  simpl. intros ([l HS] & Hn & Hsz). destruct (rep_lookup vs m S R i l HS) as (v & Hv & Hcv & Hfit & Hc & Hfew).
  destruct (setCapacity_ok m _ v l n Hc Hcv Hfew Hn Hfit Hsz) as (r & v' & m' & E & Hb & _).
  unfold sim. simpl. unfold on_vector. cbn [fst snd]. rewrite Hv. cbn [mbind option_bind]. rewrite E. cbn [mbind option_bind].
  do 2 eexists. split; [done|]. split; [done|]. rewrite <- (insert_id S i l HS). by eapply rep_becomes.
Qed.

(** ** Vectors that come and go *)

Lemma rep_add i v m' l :
  S !! i = None -> counted m' (mStorage v :: ptrs vs) -> content m' v l -> keeps (ptrs vs) m m' ->
  fits (Z.of_nat (length l)) -> Z.of_nat (size S) + 4 < 2 ^ 31 ->
  represents (<[i := v]> vs, m') (<[i := l]> S).
Proof.
  intros HS Hc Hv Hk Hf Hsz.
  assert (Hvs : vs !! i = None).
  { apply not_elem_of_dom. pose proof (rep_dom _ _ R) as D. simpl in D. rewrite D. by apply not_elem_of_dom. }
  split; cbn [fst snd].
  - eapply counted_perm; [symmetry; apply ptrs_insert|]. by rewrite delete_id.
  - rewrite map_size_insert_None by done. lia.
  - rewrite !dom_insert_L. f_equal. apply (rep_dom _ _ R).
  - intros j w k. destruct (decide (i = j)) as [<-|Hne].
    + rewrite !lookup_insert_eq. by intros [= <-] [= <-].
    + rewrite !lookup_insert_ne by done. intros Hw Hk'. destruct (rep_content _ _ R j w k Hw Hk') as [H1 H2].
      split; [|done]. eapply content_keeps; [exact Hk|by apply (ptrs_elem _ j)|exact H1].
Qed.

Lemma ptrs_few : Z.of_nat (size S) + 4 < 2 ^ 31 -> Z.of_nat (length (ptrs vs)) + 1 < 2 ^ 31.
Proof.
  intros H. rewrite length_ptrs.
  assert (size vs = size S) as -> by (rewrite <- !size_dom; f_equal; apply (rep_dom _ _ R)). lia.
Qed.

Lemma sim_New i : valid S (New i) -> sim (New i).
Proof.
  simpl. intros [HS Hsz]. unfold sim. simpl. do 2 eexists. split; [done|]. split; [done|].
  apply rep_add; try done.
  - apply counted_null. split; [apply (rep_counted _ _ R)|by apply ptrs_few].
  - split; [done|by left].
Qed.

Lemma sim_Copy i j : valid S (Copy i j) -> sim (Copy i j).
Proof.
  simpl. intros (HS & [l HSj] & Hsz). destruct (rep_lookup vs m S R j l HSj) as (w & Hw & Hcw & Hfit & Hc & _).
  unfold sim. simpl. rewrite Hw, HSj. cbn [mbind option_bind]. unfold copy_vector.
  pose proof (rep_counted _ _ R) as HC. simpl in HC.
  destruct (Z.eqb_spec (mStorage w) 0) as [E|E]; cbn [negb].
  - do 2 eexists. split; [done|]. split; [done|]. apply rep_add; try done. rewrite E. apply counted_null.
    split; [done|by apply ptrs_few].
  - destruct (acquire_ok m (ptrs vs) (mStorage w) HC) as (m' & -> & Hc' & Hk);
      [by apply (ptrs_elem _ j)|done|by apply ptrs_few|]. cbn [mbind option_bind].
    do 2 eexists. split; [done|]. split; [done|]. apply rep_add; try done.
    eapply content_keeps; [exact Hk|by apply (ptrs_elem _ j)|done].
Qed.

Lemma sim_Destroy i : valid S (Destroy i) -> sim (Destroy i).
Proof.
  simpl. intros [l HS]. destruct (rep_lookup vs m S R i l HS) as (v & Hv & Hcv & _ & Hc & _).
  unfold sim. simpl. rewrite Hv. cbn [mbind option_bind]. unfold finish_vector.
  destruct (release_ok m _ v l Hc Hcv) as (m' & -> & Hc' & Hk). cbn [mbind option_bind].
  do 2 eexists. split; [done|]. split; [done|]. pose proof (rep_few _ _ R) as F. split; cbn [fst snd].
  - done.
  - pose proof (map_size_delete_Some i S) as E. rewrite E by eauto. lia.
  - rewrite !dom_delete_L. f_equal. apply (rep_dom _ _ R).
  - intros j w k Hw Hk'. rewrite lookup_delete_Some in Hk'. destruct Hk' as [Hne Hk'].
    pose proof Hw as Hw2. rewrite lookup_delete_ne in Hw by done.
    destruct (rep_content _ _ R j w k Hw Hk') as [H1 H2]. split; [|done].
    eapply content_keeps; [exact Hk|by apply (ptrs_elem _ j)|done].
Qed.

Lemma sim_Assign i j : valid S (Assign i j) -> sim (Assign i j).
Proof.
  simpl. intros [[l HS] [k HSj]]. destruct (rep_lookup vs m S R j k HSj) as (w & Hw & Hcw & Hfw & _).
  unfold sim. simpl. rewrite Hw, HSj. cbn [mbind option_bind].
  destruct (on_vector_sim i (quietly (fun v => assign_vector (bool_decide (i = j)) v w)) l 0 k HS)
    as (s' & E & HR); [|done|eauto].
  intros v ps Hc Hv Hfew _ ->. unfold quietly, assign_vector.
  destruct (decide (i = j)) as [<-|Hij].
  { rewrite bool_decide_eq_true_2 by done. cbn [negb mbind option_bind]. do 2 eexists. split; [done|].
    rewrite HS in HSj. by injection HSj as <-. }
  rewrite bool_decide_eq_false_2 by done. cbn [negb].
  destruct (release_ok m _ v l Hc Hv) as (m1 & -> & Hc1 & Hk1). cbn [mbind option_bind].
  assert (Hwin : mStorage w ∈ ptrs (delete i vs)) by (apply (ptrs_elem _ j); by rewrite lookup_delete_ne).
  assert (Hcw1 : content m1 w k) by (by eapply content_keeps). rewrite (proj1 Hcw). unfold few in Hfew.
  destruct (Z.eqb_spec (Z.of_nat (length k)) 0) as [E|E]; cbn [negb].
  - assert (k = []) as -> by (apply length_zero_iff_nil; lia). cbn [mbind option_bind]. do 2 eexists. split; [done|].
    split; [|split; [split; [done|by left]|done]]. apply counted_null. split; [done|lia].
  - destruct (acquire_ok m1 _ (mStorage w) Hc1 Hwin) as (m2 & -> & Hc2 & Hk2); [|lia|].
    { destruct Hcw1 as [_ [[_ ->]|(b & Hb & _)]]; [done|]. apply (counted_buf _ _ Hc1 _ b Hb). }
    cbn [mbind option_bind]. do 2 eexists. split; [done|]. split; [done|].
    split; [by eapply content_keeps|by eapply keeps_tr].
Qed.
End sim.

Lemma vector_step s S c : represents s S -> valid S c -> sim s.1 s.2 S c.
Proof.
  destruct s as [vs m]. intros R Hc. destruct c; cbn [fst snd].
  - by apply sim_New.
  - by apply sim_Copy.
  - by apply sim_Assign.
  - by apply sim_Destroy.
  - by apply sim_InsertAt.
  - by apply sim_InsertDefault.
  - by apply sim_InsertArray.
  - by apply sim_InsertVector.
  - by apply sim_ReplaceAt.
  - by apply sim_RemoveItemsAt.
  - by apply sim_Pop.
  - by apply sim_Clear.
  - by apply sim_SetCapacity.
  - by apply sim_EditItemAt.
  - by apply sim_Sort.
Qed.

(** What is seen of the vectors: counts and items; and no buffer is left over. *)
Definition shows (s : vectors * mem A) (S : gmap nat (list A)) : Prop :=
  (forall i l, S !! i = Some l -> exists v, s.1 !! i = Some v /\ mCount v = Z.of_nat (length l) /\
     forall (k : nat) x, l !! k = Some x -> itemAt (Z.of_nat k) v s.2 = Some x) /\
  (S = ∅ -> bufs s.2 = ∅).

Lemma represents_shows s S : represents s S -> shows s S.
Proof.
  destruct s as [vs m]. intros R. split.
  - intros i l HS. destruct (rep_lookup vs m S R i l HS) as (v & Hv & Hcv & _). exists v. split; [done|].
    split; [apply Hcv|]. intros k x. by apply itemAt_ok.
  - intros ->. apply map_empty. intros p. destruct (bufs m !! p) as [b|] eqn:Hb; [|done].
    destruct (counted_buf _ _ (rep_counted _ _ R) p b Hb) as (_ & _ & H%refs_to_pos). exfalso.
    assert (vs = ∅) as ->. { apply dom_empty_inv_L. pose proof (rep_dom _ _ R) as D. simpl in D. by rewrite D, dom_empty_L. }
    by apply not_elem_of_nil in H.
Qed.

(** [n] commands, each chosen knowing what the earlier ones did. *)
Fixpoint safe (n : nat) (s : vectors * mem A) (S : gmap nat (list A)) : Prop :=
  shows s S /\
  match n with
  | O => True
  | Datatypes.S n => forall c, valid S c ->
      exists r s', exec c s = Some (r, s') /\ default r (astep c S).1 = r /\ safe n s' (astep c S).2
  end.

Definition empty_mem : mem A := mkMem ∅ 0.

End client.

(** ** Witness *)

