(* ===== verification/SortedVector.v ===== *)
(** * system/libutils/VectorImpl.cpp, utils/KeyedVector.h: sorted vectors and maps

    A [SortedVector] is a vector kept in strict order by binary search; a
    [KeyedVector] is one of pairs ordered by their keys. *)

From S2P Require Import Prelude VectorImpl VectorRefine VectorSort.

Section sorted.
Context {A : Type} {IT : ItemType A} {AL : Allocator}.
(** [operator <] of the items. *)
Variable lt : A -> A -> bool.
Implicit Types (m : mem A) (v : VectorImpl) (l : list A) (ps : list Z) (x y : A).

Definition strictly_order_type (lhs rhs : A) : Z := if lt lhs rhs then 1 else 0.
Definition compare_type (lhs rhs : A) : Z :=
  strictly_order_type rhs lhs - strictly_order_type lhs rhs.

(** The binary search of [_indexOrderOf] between [l] and [h]: the index or
    [NAME_NOT_FOUND], and the order. *)
Fixpoint search (fuel : nat) (array l h : Z) (item : A) m : option (Z * Z) :=
  if l <=? h then
    match fuel with
    | O => None
    | S fuel =>
        let mid := l + Z.quot (h - l) 2 in
        curr ← get array mid m;
        let c := compare_type curr item in
        if c =? 0 then Some (mid, mid)
        else if c <? 0 then search fuel array (mid + 1) h item m
        else search fuel array l (mid - 1) item m
    end
  else Some (NAME_NOT_FOUND, l).

Definition _indexOrderOf (item : A) v m : option (Z * Z) :=
  search (Z.to_nat (mCount v)) (mStorage v) 0 (s32 (mCount v - 1)) item m.

Definition indexOf (item : A) v m : option Z := '(i, _) ← _indexOrderOf item v m; Some i.
Definition orderOf (item : A) v m : option Z := '(_, o) ← _indexOrderOf item v m; Some o.

(** The object at an address. *)
Definition at_source (item : source A) m : option A :=
  match item with Outside l => head l | Inside p i => get p i m end.

Definition add (item : source A) v m : option (Z * VectorImpl * mem A) :=
  x ← at_source item m;
  '(index, order) ← _indexOrderOf x v m;
  if index <? 0 then insertAt (Some item) order 1 v m else replaceAt (Some item) index v m.

Definition remove (item : A) v m : option (Z * VectorImpl * mem A) :=
  i ← indexOf item v m;
  if 0 <=? i then '(_, v, m) ← removeItemsAt i 1 v m; Some (i, v, m) else Some (i, v, m).

(** Items [i] and on, [n] of them, of another vector. *)
Fixpoint merge_loop (n : nat) (buffer i : Z) v m : option (Z * VectorImpl * mem A) :=
  match n with
  | O => Some (NO_ERROR, v, m)
  | S n =>
      '(err, v, m) ← add (Inside buffer i) v m;
      if err <? 0 then Some (err, v, m) else merge_loop n buffer (i + 1) v m
  end.

Definition merge (vector : VectorImpl) v m : option (Z * VectorImpl * mem A) :=
  if negb (mCount vector =? 0)
  then merge_loop (Z.to_nat (mCount vector)) (mStorage vector) 0 v m
  else Some (NO_ERROR, v, m).

Definition merge_sorted (vector : VectorImpl) v m : option (Z * VectorImpl * mem A) :=
  if negb (mCount vector =? 0) then
    last ← itemAt (mCount vector - 1) vector m;
    first ← get (mStorage v) 0 m;
    if compare_type last first <=? 0 then insertVectorAt vector 0 v m
    else
      first ← itemAt 0 vector m;
      last ← itemAt (mCount v - 1) v m;
      if 0 <=? compare_type first last then appendVector vector v m
      else merge vector v m
  else Some (NO_ERROR, v, m).

(** ** On lists *)

(** A strict order; items that it does not tell apart are equivalent. *)
Class StrictOrder : Prop := {
  lt_irrefl x : lt x x = false;
  lt_trans x y z : lt x y = true -> lt y z = true -> lt x z = true;
  lt_weak x y z : lt x y = true -> lt x z = true \/ lt z y = true
}.

Abbreviation sorted := (StronglySorted (fun x y => lt x y = true)).

(** The item goes to its place, or replaces the one equivalent to it. *)
Fixpoint sorted_insert (x : A) (l : list A) : list A :=
  match l with
  | [] => [x]
  | y :: l' => if lt y x then y :: sorted_insert x l' else if lt x y then x :: l else x :: l'
  end.

Fixpoint sorted_remove (x : A) (l : list A) : list A :=
  match l with
  | [] => []
  | y :: l' => if lt y x then y :: sorted_remove x l' else if lt x y then l else l'
  end.

Section order.
Context {SO : StrictOrder}.

Lemma lt_asym x y : lt x y = true -> lt y x = false.
Proof.
  intros H. destruct (lt y x) eqn:E; [|done]. pose proof (lt_trans x y x H E) as H2. by rewrite lt_irrefl in H2.
Qed.

Lemma sorted_insert_app x l1 l2 :
  Forall (fun y => lt y x = true) l1 -> sorted_insert x (l1 ++ l2) = l1 ++ sorted_insert x l2.
Proof. induction 1 as [|y l1 Hy _ IH]; [done|]. simpl. by rewrite Hy, IH. Qed.

Lemma sorted_remove_app x l1 l2 :
  Forall (fun y => lt y x = true) l1 -> sorted_remove x (l1 ++ l2) = l1 ++ sorted_remove x l2.
Proof. induction 1 as [|y l1 Hy _ IH]; [done|]. simpl. by rewrite Hy, IH. Qed.

(** Where an item is, or would be. *)
Inductive position (x : A) (l : list A) : Z * Z -> Prop :=
  | found l1 y l2 :
      l = l1 ++ y :: l2 -> Forall (fun z => lt z x = true) l1 -> lt y x = false -> lt x y = false ->
      position x l (Z.of_nat (length l1), Z.of_nat (length l1))
  | absent l1 l2 :
      l = l1 ++ l2 -> Forall (fun z => lt z x = true) l1 -> Forall (fun z => lt x z = true) l2 ->
      position x l (NAME_NOT_FOUND, Z.of_nat (length l1)).

Lemma position_insert x l p : position x l p ->
  sorted_insert x l = match p with
    | (i, o) => if i <? 0 then take (Z.to_nat o) l ++ [x] ++ drop (Z.to_nat o) l else <[Z.to_nat i := x]> l end.
Proof.
  intros [l1 y l2 -> H1 H2 H3|l1 l2 -> H1 H2].
  - rewrite (proj2 (Z.ltb_ge _ _)), Nat2Z.id, sorted_insert_app by (done || lia). simpl. rewrite H2, H3.
    rewrite insert_app_r_alt, Nat.sub_diag by done. done.
  - simpl. rewrite Nat2Z.id, take_app_length, drop_app_length, sorted_insert_app by done. f_equal.
    destruct H2 as [|z l2 Hz _]; [done|]. simpl. by rewrite (lt_asym x z Hz), Hz.
Qed.

Lemma position_remove x l p : position x l p ->
  sorted_remove x l = let i := p.1 in
    if i <? 0 then l else take (Z.to_nat i) l ++ drop (Z.to_nat i + 1) l.
Proof.
  intros [l1 y l2 -> H1 H2 H3|l1 l2 -> H1 H2]; cbn [fst].
  - rewrite (proj2 (Z.ltb_ge _ _)), Nat2Z.id, take_app_length, drop_app_add, sorted_remove_app by (done || lia).
    simpl. by rewrite H2, H3, drop_0.
  - simpl. rewrite sorted_remove_app by done. f_equal.
    destruct H2 as [|z l2 Hz _]; [done|]. simpl. by rewrite (lt_asym x z Hz), Hz.
Qed.

Lemma sorted_insert_elem x l z : z ∈ sorted_insert x l -> z = x \/ z ∈ l.
Proof.
  induction l as [|y l IH]; simpl; [set_solver|]. repeat case_if; set_solver.
Qed.

Lemma sorted_remove_elem x l z : z ∈ sorted_remove x l -> z ∈ l.
Proof. induction l as [|y l IH]; simpl; [done|]. repeat case_if; set_solver. Qed.

Lemma sorted_insert_sorted x l : sorted l -> sorted (sorted_insert x l).
Proof.
  induction 1 as [|y l Hs IH Hy]; simpl; [by repeat constructor|]. destruct (lt y x) eqn:E1; [|destruct (lt x y) eqn:E2].
  - constructor; [done|]. apply Forall_forall. intros z [->|Hz]%sorted_insert_elem; [done|].
    by apply (proj1 (Forall_forall _ _) Hy).
  - constructor; [by constructor|]. constructor; [done|]. eapply Forall_impl; [exact Hy|].
    intros z Hz. by eapply lt_trans.
  - constructor; [done|]. eapply Forall_impl; [exact Hy|]. intros z Hz.
    destruct (lt_weak y z x Hz) as [|]; [congruence|done].
Qed.

Lemma sorted_remove_sorted x l : sorted l -> sorted (sorted_remove x l).
Proof.
  induction 1 as [|y l Hs IH Hy]; simpl; [constructor|]. repeat case_if; [|by constructor|done].
  constructor; [done|]. apply Forall_forall. intros z Hz%sorted_remove_elem. by apply (proj1 (Forall_forall _ _) Hy).
Qed.

(** ** Binary search *)

(** What an item in the middle says about those on its sides. *)
Lemma sorted_middle l1 y l2 : sorted (l1 ++ y :: l2) ->
  Forall (fun z => lt z y = true) l1 /\ Forall (fun z => lt y z = true) l2.
Proof.
  intros (H & _ & Hs)%StronglySorted_app. apply StronglySorted_cons in Hs as [H2 _]. split; [|done].
  apply Forall_forall. intros z Hz. apply H; [done|by left].
Qed.

Lemma below_trans x y l : Forall (fun z => lt z y = true) l -> lt x y = false -> Forall (fun z => lt z x = true) l.
Proof.
  intros H E. eapply Forall_impl; [exact H|]. intros z Hz. destruct (lt_weak z y x Hz); [done|congruence].
Qed.

Lemma above_trans x y l : Forall (fun z => lt y z = true) l -> lt y x = false -> Forall (fun z => lt x z = true) l.
Proof.
  intros H E. eapply Forall_impl; [exact H|]. intros z Hz. destruct (lt_weak y z x Hz); [congruence|done].
Qed.

Lemma compare_cases x y :
  (compare_type y x = 0 /\ lt x y = false /\ lt y x = false) \/
  (compare_type y x = -1 /\ lt x y = false /\ lt y x = true) \/
  (compare_type y x = 1 /\ lt x y = true /\ lt y x = false).
Proof.
  unfold compare_type, strictly_order_type.
  destruct (lt x y) eqn:E1, (lt y x) eqn:E2; auto. by rewrite (lt_asym x y E1) in E2.
Qed.

Lemma search_ok array m l x :
  sorted l -> (forall (i : nat) y, l !! i = Some y -> get array (Z.of_nat i) m = Some y) ->
  forall (fuel lo n : nat), (lo + n <= length l)%nat -> (n <= fuel)%nat ->
  Forall (fun z => lt z x = true) (take lo l) -> Forall (fun z => lt x z = true) (drop (lo + n) l) ->
  exists p, search fuel array (Z.of_nat lo) (Z.of_nat (lo + n) - 1) x m = Some p /\ position x l p.
Proof.
  intros Hs Hget fuel. induction fuel as [|fuel IH]; intros lo n Hn Hf H1 H2; cbn [search].
  - assert (n = 0%nat) as -> by lia. rewrite (proj2 (Z.leb_gt _ _)) by lia. eexists. split; [done|].
    rewrite Nat.add_0_r in H2. replace lo with (length (take lo l)) at 1 by (rewrite length_take; lia).
    eapply absent; [|exact H1|exact H2]. by rewrite take_drop.
  - destruct (Z.leb_spec (Z.of_nat lo) (Z.of_nat (lo + n) - 1)) as [Hle|Hgt].
    2:{ assert (n = 0%nat) as -> by lia. eexists. split; [done|].
        rewrite Nat.add_0_r in H2. replace lo with (length (take lo l)) at 1 by (rewrite length_take; lia).
        eapply absent; [|exact H1|exact H2]. by rewrite take_drop. }
    set (k := ((n - 1) / 2)%nat).
    assert (Hk : (k < n)%nat) by (unfold k; pose proof (Nat.Div0.div_le_upper_bound (n - 1) 2 (n - 1)); lia).
    assert (Z.of_nat lo + Z.quot (Z.of_nat (lo + n) - 1 - Z.of_nat lo) 2 = Z.of_nat (lo + k)) as ->.
    { rewrite Z.quot_div_nonneg by lia. unfold k.
      rewrite (Nat2Z.inj_add lo ((n - 1) / 2)), Nat2Z.inj_div. do 2 f_equal. lia. }
    destruct (lookup_lt_is_Some_2 l (lo + k)) as [y Hy]; [lia|]. rewrite (Hget _ _ Hy). cbn [mbind option_bind].
    pose proof Hy as Hsplit. apply list_elem_of_split_length in Hsplit as (l1 & l2 & El & Ek).
    rewrite El in Hs. destruct (sorted_middle l1 y l2 Hs) as [Hl1 Hl2]. rewrite <- El in Hs.
    destruct (compare_cases x y) as [(-> & E1 & E2)|[(-> & E1 & E2)|(-> & E1 & E2)]]; cbn [Z.eqb Z.ltb Z.compare].
    + eexists. split; [done|]. rewrite Ek. eapply found; [exact El| |done|done]. by eapply below_trans.
    + replace (Z.of_nat (lo + k) + 1) with (Z.of_nat (lo + k + 1)) by lia.
      replace (lo + n)%nat with (lo + k + 1 + (n - k - 1))%nat in H2 |- * by lia.
      apply IH; [lia|lia| |done]. rewrite El, Ek, take_app_add, firstn_cons, take_0.
      apply Forall_app. split; [by eapply below_trans|by constructor].
    + apply IH; [lia|lia|done|]. rewrite Ek, El, drop_app_length. constructor; [done|]. by eapply above_trans.
Qed.
End order.

(** ** In memory *)

Section memory.
Context {SO : StrictOrder} {SD : Sound IT AL}.

Lemma indexOrderOf_ok m v l x :
  content m v l -> sorted l -> fits (Z.of_nat (length l)) ->
  exists p, _indexOrderOf x v m = Some p /\ position x l p.
Proof.
  intros Hv Hs [Hf _]. unfold _indexOrderOf. rewrite (proj1 Hv), Nat2Z.id, wraps_id by width_lia.
  apply (search_ok (mStorage v) m l x Hs) with (lo := 0%nat) (n := length l); try (simpl; lia).
  - intros i y Hy. by apply (itemAt_ok m v l).
  - constructor.
  - rewrite drop_ge by (simpl; lia). constructor.
Qed.

(** An item that stays where it is while the vector changes. *)
Definition stable (ps : list Z) m (from : source A) x : Prop :=
  at_source from m = Some x /\ (forall p i, from = Inside p i -> p ∈ ps /\ p <> 0) /\
  (forall m', keeps ps m m' -> gives m' from [x]).

Lemma stable_outside ps m x : stable ps m (Outside [x]) x.
Proof. split; [done|]. split; [done|]. intros. apply gives_outside. Qed.

Lemma stable_item ps m w k (i : nat) x :
  content m w k -> mStorage w ∈ ps -> mStorage w <> 0 -> k !! i = Some x ->
  stable ps m (Inside (mStorage w) (Z.of_nat i)) x.
Proof.
  intros Hw Hin H0 Hx. split; [by apply (itemAt_ok m w k)|]. split; [by intros p j [= <- _]|].
  intros m' Hk. apply list_elem_of_split_length in Hx as (l1 & l2 & -> & ->).
  apply (content_gives m' w l1 [x] l2). by eapply content_keeps.
Qed.

Lemma stable_keeps ps m m' from x : keeps ps m m' -> stable ps m from x -> gives m' from [x].
Proof. intros Hk (_ & _ & H). by apply H. Qed.

Lemma add_ok m ps v l x from :
  counted m (mStorage v :: ps) -> content m v l -> few ps -> sorted l -> fits (Z.of_nat (length l + 1)) ->
  stable ps m from x ->
  exists r v' m', add from v m = Some (r, v', m') /\ 0 <= r /\ becomes m ps v' m' (sorted_insert x l).
Proof.
  intros Hc Hv Hfew Hs Hf (Hat & Hin & Hg). unfold add. rewrite Hat. cbn [mbind option_bind].
  destruct (indexOrderOf_ok m v l x Hv Hs) as (p & -> & Hp); [eapply fits_le; [|exact Hf]; lia|].
  rewrite (position_insert x l p Hp). cbn [mbind option_bind].
  destruct Hp as [l1 y l2 -> H1 H2 H3|l1 l2 -> H1 H2].
  - rewrite (proj2 (Z.ltb_ge _ _)), Nat2Z.id, insert_app_r_alt, Nat.sub_diag by lia.
    destruct (replaceAt_ok m ps v l1 y l2 x from Hc Hv Hfew) as (v' & m' & -> & Hb);
      [destruct Hf as [Hf _]; rewrite length_app in Hf; lia|done|done|].
    exists (Z.of_nat (length l1)), v', m'. split; [done|]. split; [lia|exact Hb].
  - change (NAME_NOT_FOUND <? 0) with true. cbn [negb]. rewrite Nat2Z.id, take_app_length, drop_app_length.
    destruct (insertAt_ok m ps v l1 l2 x from 1 Hc Hv Hfew) as (v' & m' & E & Hb);
      [done|rewrite length_app in Hf; done|done|].
    change 1 with (Z.of_nat 1). rewrite E. exists (Z.of_nat (length l1)), v', m'. split; [done|]. split; [lia|exact Hb].
Qed.

Lemma sorted_remove_ok m ps v l x :
  counted m (mStorage v :: ps) -> content m v l -> few ps -> sorted l -> fits (Z.of_nat (length l)) ->
  exists r v' m', remove x v m = Some (r, v', m') /\
    (r < 0 <-> ~ exists y, y ∈ l /\ lt x y = false /\ lt y x = false) /\ becomes m ps v' m' (sorted_remove x l).
Proof.
  intros Hc Hv Hfew Hs Hf. unfold remove, indexOf.
  destruct (indexOrderOf_ok m v l x Hv Hs Hf) as (p & -> & Hp). cbn [mbind option_bind].
  rewrite (position_remove x l p Hp). destruct Hp as [l1 y l2 -> H1 H2 H3|l1 l2 -> H1 H2]; cbn [fst mbind option_bind].
  - rewrite (proj2 (Z.leb_le _ _)), (proj2 (Z.ltb_ge _ _)), Nat2Z.id by lia.
    destruct (removeItemsAt_ok m ps v l1 [y] l2 Hc Hv Hfew) as (v' & m' & E & Hb); [by right; left|done|].
    change 1 with (Z.of_nat (length [y])) at 1. rewrite E. cbn [mbind option_bind].
    do 3 eexists. split; [done|]. split.
    + split; [lia|]. intros H. exfalso. apply H. exists y. split; [set_solver|done].
    + by rewrite take_app_length, drop_app_add.
  - change (0 <=? NAME_NOT_FOUND) with false. change (NAME_NOT_FOUND <? 0) with true.
    do 3 eexists. split; [done|]. split; [|done]. split; [|done]. intros _ (y & [Hy|Hy]%elem_of_app & E1 & E2).
    + pose proof (proj1 (Forall_forall _ _) H1 y Hy). simpl in *. congruence.
    + pose proof (proj1 (Forall_forall _ _) H2 y Hy). simpl in *. congruence.
Qed.

(** ** Merging *)

Definition merge_list (l k : list A) : list A := foldl (fun l x => sorted_insert x l) l k.

Lemma length_sorted_insert x l : (length l <= length (sorted_insert x l) <= length l + 1)%nat.
Proof. induction l as [|y l IH]; simpl; [lia|]. repeat case_if; simpl; lia. Qed.

Lemma merge_loop_ok ps w k : forall k2 k1 m v l,
  k = k1 ++ k2 -> counted m (mStorage v :: ps) -> content m v l -> few ps -> sorted l ->
  fits (Z.of_nat (length l + length k2)) -> content m w k -> mStorage w ∈ ps ->
  exists v' m', merge_loop (length k2) (mStorage w) (Z.of_nat (length k1)) v m = Some (NO_ERROR, v', m') /\
    becomes m ps v' m' (merge_list l k2).
Proof.
  induction k2 as [|x k2 IH]; intros k1 m v l Ek Hc Hv Hfew Hs Hf Hw Hin; cbn [length merge_loop].
  { exists v, m. by split_and!. }
  assert (H0 : mStorage w <> 0).
  { destruct Hw as [_ [[_ ->]|(b & Hb & _)]]; [by destruct k1|].
    destruct (counted_ptr _ _ Hc (mStorage w)) as [E|[b' Hb']]; [by right| |apply (counted_buf _ _ Hc _ b' Hb')].
    rewrite E in Hb. destruct (counted_buf _ _ Hc _ b Hb) as ((? & _) & _). done. }
  destruct (add_ok m ps v l x (Inside (mStorage w) (Z.of_nat (length k1))) Hc Hv Hfew Hs)
    as (r & v1 & m1 & -> & Hr & Hc1 & Hv1 & Hk1).
  { eapply fits_le; [|exact Hf]. simpl. lia. }
  { eapply stable_item; [exact Hw|done|done|]. by rewrite Ek, lookup_app_r, Nat.sub_diag. }
  cbn [mbind option_bind]. rewrite (proj2 (Z.ltb_ge r 0)) by done.
  replace (Z.of_nat (length k1) + 1) with (Z.of_nat (length (k1 ++ [x]))) by (rewrite length_app; simpl; lia).
  destruct (IH (k1 ++ [x]) m1 v1 (sorted_insert x l)) as (v' & m' & E & Hb); try done.
  - by rewrite <- app_assoc.
  - by apply sorted_insert_sorted.
  - pose proof (length_sorted_insert x l). eapply fits_le; [|exact Hf]. simpl. lia.
  - by eapply content_keeps.
  - exists v', m'. split; [exact E|]. by eapply becomes_trans.
Qed.

Lemma merge_ok m ps v l w k :
  counted m (mStorage v :: ps) -> content m v l -> few ps -> sorted l ->
  fits (Z.of_nat (length l + length k)) -> content m w k -> mStorage w ∈ ps ->
  exists v' m', merge w v m = Some (NO_ERROR, v', m') /\ becomes m ps v' m' (merge_list l k) /\
    sorted (merge_list l k).
Proof.
  intros Hc Hv Hfew Hs Hf Hw Hin. unfold merge. rewrite (proj1 Hw).
  assert (sorted (merge_list l k)).
  { clear -Hs SO. revert l Hs. induction k as [|x k IH]; intros l Hs; [done|]. apply IH. by apply sorted_insert_sorted. }
  destruct (Z.eqb_spec (Z.of_nat (length k)) 0) as [E|E]; cbn [negb].
  - assert (k = []) as -> by (apply length_zero_iff_nil; lia). exists v, m. by split_and!.
  - rewrite Nat2Z.id. destruct (merge_loop_ok ps w k k [] m v l) as (v' & m' & E2 & Hb); [done..|].
    exists v', m'. done.
Qed.
End memory.
End sorted.

(** ** Maps *)

Section keyed.
Context {K V : Type} `{!EqDecision K, !Countable K} {IT : ItemType (K * V)} {AL : Allocator}.
Variables (ltk : K -> K -> bool) (no_value : V).
Implicit Types (m : mem (K * V)) (v : VectorImpl) (l : list (K * V)) (ps : list Z).

(** [key_value_pair_t::operator <]. *)
Definition pair_lt (x y : K * V) : bool := ltk x.1 y.1.

Definition indexOfKey (key : K) v m : option Z := indexOf pair_lt (key, no_value) v m.

(** A key that is not there is a fatal error. *)
Definition valueFor (key : K) v m : option V :=
  i ← indexOfKey key v m;
  if i <? 0 then None else x ← itemAt i v m; Some x.2.

Definition valueFor_default (mDefault : V) (key : K) v m : option V :=
  i ← indexOfKey key v m;
  if 0 <=? i then x ← itemAt i v m; Some x.2 else Some mDefault.

Definition editValueFor (key : K) (value : V) v m : option (VectorImpl * mem (K * V)) :=
  i ← indexOfKey key v m;
  if i <? 0 then None
  else
    '(item, v, m) ← editItemLocation i v m;
    '(p, i) ← item;
    x ← get p i m;
    m ← assign p i (x.1, value) m;
    Some (v, m).

Definition kv_add (key : K) (value : V) v m : option (Z * VectorImpl * mem (K * V)) :=
  add pair_lt (Outside [(key, value)]) v m.

Definition replaceValueFor (key : K) (value : V) v m : option (Z * VectorImpl * mem (K * V)) :=
  '(_, v, m) ← remove pair_lt (key, value) v m;
  add pair_lt (Outside [(key, value)]) v m.

Definition replaceValueAt (index : Z) (value : V) v m : option (Z * VectorImpl * mem (K * V)) :=
  if index <? mCount v then
    '(item, v, m) ← editItemLocation index v m;
    '(p, i) ← item;
    x ← get p i m;
    m ← assign p i (x.1, value) m;
    Some (s32 index, v, m)
  else Some (BAD_INDEX, v, m).

Definition removeItem (key : K) v m : option (Z * VectorImpl * mem (K * V)) :=
  remove pair_lt (key, no_value) v m.

(** ** A keyed vector is a finite map *)

(** The keys are in a total order. *)
Class TotalOrder : Prop := {
  ltk_irrefl k : ltk k k = false;
  ltk_trans k1 k2 k3 : ltk k1 k2 = true -> ltk k2 k3 = true -> ltk k1 k3 = true;
  ltk_total k1 k2 : ltk k1 k2 = false -> ltk k2 k1 = false -> k1 = k2
}.

Context {TO : TotalOrder} {SD : Sound IT AL}.

#[local] Instance pair_lt_order : StrictOrder pair_lt.
Proof.
  split; unfold pair_lt.
  - intros x. apply ltk_irrefl.
  - intros x y z. apply ltk_trans.
  - intros x y z H. destruct (ltk x.1 z.1) eqn:E1; [by left|]. right.
    destruct (ltk z.1 y.1) eqn:E2; [done|]. destruct (ltk z.1 x.1) eqn:E3.
    + pose proof (ltk_trans _ _ _ E3 H). congruence.
    + pose proof (ltk_total _ _ E1 E3) as E. rewrite <- E in E2. congruence.
Qed.

Abbreviation ksorted := (StronglySorted (fun x y => pair_lt x y = true)).

Definition as_map (l : list (K * V)) : gmap K V := list_to_map l.

Lemma as_map_cons k x l : as_map ((k, x) :: l) = <[k := x]> (as_map l).
Proof. done. Qed.

Lemma above_not_in k l : Forall (fun z => ltk k z.1 = true) l -> as_map l !! k = None.
Proof.
  intros H. apply not_elem_of_list_to_map_1. intros ([k' x] & -> & Hin)%list_elem_of_fmap.
  pose proof (proj1 (Forall_forall _ _) H _ Hin) as E. simpl in E. by rewrite ltk_irrefl in E.
Qed.

Lemma as_map_insert k x l : ksorted l -> as_map (sorted_insert pair_lt (k, x) l) = <[k := x]> (as_map l).
Proof.
  induction 1 as [|[k' y] l Hs IH Hy]; [done|]. simpl.
  change (pair_lt (k', y) (k, x)) with (ltk k' k). change (pair_lt (k, x) (k', y)) with (ltk k k').
  destruct (ltk k' k) eqn:E1; [|destruct (ltk k k') eqn:E2].
  - rewrite !as_map_cons, IH. apply insert_insert_ne.
    intros ->. by rewrite ltk_irrefl in E1.
  - done.
  - rewrite (ltk_total k' k), !as_map_cons by done. by rewrite insert_insert_eq.
Qed.

Lemma as_map_remove k x l : ksorted l -> as_map (sorted_remove pair_lt (k, x) l) = delete k (as_map l).
Proof.
  induction 1 as [|[k' y] l Hs IH Hy]; [symmetry; apply delete_empty|]. simpl.
  change (pair_lt (k', y) (k, x)) with (ltk k' k). change (pair_lt (k, x) (k', y)) with (ltk k k').
  destruct (ltk k' k) eqn:E1; [|destruct (ltk k k') eqn:E2]; rewrite ?as_map_cons.
  - rewrite IH, delete_insert_ne; [done|].
    intros ->. by rewrite ltk_irrefl in E1.
  - symmetry. apply delete_id. rewrite lookup_insert_ne by (intros ->; by rewrite ltk_irrefl in E2).
    apply above_not_in. eapply Forall_impl; [exact Hy|]. intros z Hz. by eapply ltk_trans.
  - rewrite (ltk_total k' k) by done. rewrite delete_insert_eq. symmetry. apply delete_id, above_not_in.
    rewrite <- (ltk_total k' k) by done. exact Hy.
Qed.

Lemma as_map_lookup k x l p : ksorted l -> position pair_lt (k, x) l p ->
  match p with (i, _) => if i <? 0 then as_map l !! k = None
    else exists y, l !! Z.to_nat i = Some (k, y) /\ as_map l !! k = Some y end.
Proof.
  intros Hs [l1 [k' y] l2 -> H1 H2 H3|l1 l2 -> H1 H2]; unfold pair_lt in *; simpl in *.
  - rewrite (proj2 (Z.ltb_ge _ _)), Nat2Z.id by lia. rewrite (ltk_total k' k) in * by done. exists y.
    split; [by rewrite lookup_app_r, Nat.sub_diag|]. unfold as_map. rewrite list_to_map_app, lookup_union_r.
    + apply lookup_insert_eq.
    + apply not_elem_of_list_to_map_1. intros ([k2 x2] & -> & Hin)%list_elem_of_fmap.
      pose proof (proj1 (Forall_forall _ _) H1 _ Hin) as E. simpl in E. by rewrite ltk_irrefl in E.
  - apply not_elem_of_list_to_map_1. intros ([k2 x2] & -> & [Hin|Hin]%elem_of_app)%list_elem_of_fmap; simpl in *.
    + pose proof (proj1 (Forall_forall _ _) H1 _ Hin) as E. simpl in E. by rewrite ltk_irrefl in E.
    + pose proof (proj1 (Forall_forall _ _) H2 _ Hin) as E. simpl in E. by rewrite ltk_irrefl in E.
Qed.

Lemma size_as_map l : ksorted l -> size (as_map l) = length l.
Proof.
  induction 1 as [|[k y] l Hs IH Hy]; [apply map_size_empty|].
  rewrite as_map_cons, map_size_insert_None, IH; [done|]. by apply above_not_in.
Qed.

(** ** The operations on the map *)

Inductive kcmd :=
  | KAdd (key : K) (value : V)
  | KReplaceValueFor (key : K) (value : V)
  | KEditValueFor (key : K) (value : V)
  | KRemoveItem (key : K)
  | KValueFor (mDefault : V) (key : K)
  | KSize.

(** Whether an operation answers an error; a value; a number of items. *)
Inductive answer := Code (error : bool) | Value (x : V) | Count (n : Z).

Definition kexec (c : kcmd) v m : option (answer * VectorImpl * mem (K * V)) :=
  match c with
  | KAdd k x => '(r, v, m) ← kv_add k x v m; Some (Code (r <? 0), v, m)
  | KReplaceValueFor k x => '(r, v, m) ← replaceValueFor k x v m; Some (Code (r <? 0), v, m)
  | KEditValueFor k x => '(v, m) ← editValueFor k x v m; Some (Code false, v, m)
  | KRemoveItem k => '(r, v, m) ← removeItem k v m; Some (Code (r <? 0), v, m)
  | KValueFor d k => x ← valueFor_default d k v m; Some (Value x, v, m)
  | KSize => Some (Count (mCount v), v, m)
  end.

Definition kspec (c : kcmd) (S : gmap K V) : answer * gmap K V :=
  match c with
  | KAdd k x | KReplaceValueFor k x | KEditValueFor k x => (Code false, <[k := x]> S)
  | KRemoveItem k => (Code (bool_decide (S !! k = None)), delete k S)
  | KValueFor d k => (Value (default d (S !! k)), S)
  | KSize => (Count (Z.of_nat (size S)), S)
  end.

(** Editing the value of a key that is not there is a fatal error. *)
Definition kvalid (c : kcmd) (S : gmap K V) : Prop :=
  match c with KEditValueFor k _ => is_Some (S !! k) | _ => True end.

Definition keyed m v ps (S : gmap K V) : Prop :=
  counted m (mStorage v :: ps) /\ exists l, content m v l /\ ksorted l /\ as_map l = S.

Section step.
Variables (m : mem (K * V)) (v : VectorImpl) (ps : list Z) (S : gmap K V).
Hypotheses (HK : keyed m v ps S) (Hfew : few ps) (Hf : fits (Z.of_nat (size S + 1))).

Lemma keyed_becomes v' m' l : becomes m ps v' m' l -> ksorted l -> keyed m' v' ps (as_map l) /\ keeps ps m m'.
Proof. intros (H1 & H2 & H3) Hs. split; [|done]. split; [done|]. by exists l. Qed.

Lemma add_step k x : exists r v' m', kv_add k x v m = Some (r, v', m') /\ 0 <= r /\
  keyed m' v' ps (<[k := x]> S) /\ keeps ps m m'.
Proof.
  destruct HK as (Hc & l & Hv & Hs & <-). rewrite size_as_map in Hf by done.
  destruct (add_ok pair_lt m ps v l (k, x) (Outside [(k, x)]) Hc Hv Hfew Hs Hf) as (r & v' & m' & E & Hr & Hb);
    [apply stable_outside|]. exists r, v', m'. split; [exact E|]. split; [done|].
  rewrite <- as_map_insert by done. apply keyed_becomes; [done|]. by apply sorted_insert_sorted; [apply _|].
Qed.

Lemma remove_step k x : exists r v' m', remove pair_lt (k, x) v m = Some (r, v', m') /\
  (r <? 0) = bool_decide (S !! k = None) /\ keyed m' v' ps (delete k S) /\ keeps ps m m'.
Proof.
  destruct HK as (Hc & l & Hv & Hs & <-). rewrite size_as_map in Hf by done.
  assert (Hf2 : fits (Z.of_nat (length l))) by (eapply fits_le; [|exact Hf]; lia).
  destruct (sorted_remove_ok pair_lt m ps v l (k, x) Hc Hv Hfew Hs Hf2) as (r & v' & m' & E & Hr & Hb).
  exists r, v', m'. split; [exact E|]. split.
  - assert (Hn : r < 0 <-> as_map l !! k = None);
      [|case_bool_decide; destruct (Z.ltb_spec r 0); (tauto || (exfalso; intuition lia))].
    rewrite Hr. unfold as_map. rewrite <- not_elem_of_list_to_map. split; intros H.
    + intros ([k' y] & -> & Hin)%list_elem_of_fmap. apply H. exists (k', y). unfold pair_lt. simpl.
      by rewrite ltk_irrefl.
    + intros ([k' y] & Hin & E1 & E2). apply H. unfold pair_lt in *. simpl in *.
      rewrite (ltk_total k k') by done. by apply (list_elem_of_fmap_2 fst _ (k', y)).
  - rewrite <- (as_map_remove k x) by done. apply keyed_becomes; [done|]. by apply sorted_remove_sorted; [apply _|].
Qed.

Lemma find_step k : exists l i, indexOfKey k v m = Some i /\ content m v l /\ ksorted l /\ as_map l = S /\
  (if i <? 0 then S !! k = None
   else exists l1 y l2, l = l1 ++ [(k, y)] ++ l2 /\ i = Z.of_nat (length l1) /\ S !! k = Some y).
Proof.
  destruct HK as (Hc & l & Hv & Hs & <-). rewrite size_as_map in Hf by done.
  destruct (indexOrderOf_ok pair_lt m v l (k, no_value) Hv Hs) as (p & E & Hp); [eapply fits_le; [|exact Hf]; lia|].
  exists l, p.1. unfold indexOfKey, indexOf. rewrite E. destruct p as [i o]. split; [done|]. split_and!; try done.
  pose proof (as_map_lookup k no_value l (i, o) Hs Hp) as H. cbn [fst] in *.
  cbv beta iota in H. destruct (Z.ltb_spec i 0) as [|Hge]; [exact H|].
  destruct H as (y & Hy & HS). pose proof Hy as Hy2. apply list_elem_of_split_length in Hy as (l1 & l2 & -> & Hi).
  exists l1, y, l2. split; [done|]. split; [lia|done].
Qed.

Lemma edit_step k x : is_Some (S !! k) -> exists v' m', editValueFor k x v m = Some (v', m') /\
  keyed m' v' ps (<[k := x]> S) /\ keeps ps m m'.
Proof.
  intros [y0 Hy0]. destruct (find_step k) as (l & i & E & Hv & Hs & El & Hi).
  unfold editValueFor. rewrite E. cbn [mbind option_bind]. destruct (Z.ltb_spec i 0) as [|Hge]; [congruence|].
  destruct Hi as (l1 & y & l2 & -> & -> & HS). destruct HK as [Hc _].
  destruct (edit_location m ps v _ (length l1) Hc Hv Hfew) as (p & m1 & b & -> & Ho & (rest & Ei & Hr) & Hk);
    [rewrite !length_app; simpl; lia|]. cbn [mbind option_bind]. rewrite !fmap_app, <- !app_assoc in Ei.
  assert (Hg : get p (Z.of_nat (length l1)) m1 = Some (k, y)).
  { apply (get_at p _ m1 b (Some <$> l1) (k, y) ((Some <$> l2) ++ rest) (owned_buf _ _ _ _ Ho));
      [done|by rewrite length_fmap]. }
  rewrite Hg. cbn [mbind option_bind]. unfold assign. rewrite Hg. cbn [mbind option_bind fst].
  rewrite (set_slots_at p _ m1 b (Some <$> l1) [Some (k, y)] [Some (k, x)] ((Some <$> l2) ++ rest) (owned_buf _ _ _ _ Ho))
    by (rewrite ?length_fmap; done). cbn [mbind option_bind].
  destruct (owned_upd m1 p ps b ((Some <$> l1) ++ [Some (k, x)] ++ (Some <$> l2) ++ rest) Ho) as [Ho2 Hk2];
    [by rewrite Ei, !length_app|]. do 2 eexists. split; [done|].
  assert (Hins : sorted_insert pair_lt (k, x) (l1 ++ [(k, y)] ++ l2) = l1 ++ [(k, x)] ++ l2).
  { rewrite sorted_insert_app.
    - simpl. unfold pair_lt. simpl. by rewrite ltk_irrefl.
    - destruct (sorted_middle pair_lt l1 (k, y) l2 Hs) as [H1 _]. exact H1. }
  rewrite <- El, <- (as_map_insert k x) by done. rewrite Hins.
  apply keyed_becomes; [|rewrite <- Hins; by apply sorted_insert_sorted; [apply _|]].
  eapply owned_becomes; [exact Ho2| |exact Hr| |by eapply keeps_tr].
  - simpl. by rewrite !fmap_app, <- !app_assoc.
  - rewrite (proj1 Hv), !length_app. done.
Qed.

Lemma value_step d k : valueFor_default d k v m = Some (default d (S !! k)).
Proof.
  destruct (find_step k) as (l & i & E & Hv & Hs & El & Hi). unfold valueFor_default. rewrite E.
  cbn [mbind option_bind]. destruct (Z.ltb_spec i 0) as [Hlt|Hge]; [by rewrite (proj2 (Z.leb_gt _ _)), Hi|].
  rewrite (proj2 (Z.leb_le _ _)) by done. destruct Hi as (l1 & y & l2 & -> & -> & ->).
  rewrite (itemAt_ok m v _ (length l1) (k, y) Hv); [done|]. by rewrite lookup_app_r, Nat.sub_diag.
Qed.
End step.

Lemma kstep c m v ps S :
  keyed m v ps S -> few ps -> fits (Z.of_nat (size S + 1)) -> kvalid c S ->
  exists v' m', kexec c v m = Some ((kspec c S).1, v', m') /\ keyed m' v' ps (kspec c S).2 /\ keeps ps m m'.
Proof.
  intros HK Hfew Hf Hc. destruct c as [k x|k x|k x|k|d k|]; cbn [kexec kspec fst snd].
  - destruct (add_step m v ps S HK Hfew Hf k x) as (r & v' & m' & -> & Hr & H). cbn [mbind option_bind].
    rewrite (proj2 (Z.ltb_ge r 0)) by done. eauto.
  - unfold replaceValueFor. destruct (remove_step m v ps S HK Hfew Hf k x) as (r & v1 & m1 & -> & _ & H1 & Hk1).
    cbn [mbind option_bind]. destruct (add_step m1 v1 ps (delete k S) H1 Hfew) with (k := k) (x := x)
      as (r2 & v' & m' & E & Hr & H & Hk2).
    { eapply fits_le; [|exact Hf]. rewrite map_size_delete. destruct (S !! k); unfold id; lia. }
    unfold kv_add in E. rewrite E. cbn [mbind option_bind]. rewrite (proj2 (Z.ltb_ge r2 0)) by done.
    rewrite insert_delete_eq in H. do 2 eexists. split; [done|]. split; [done|]. by eapply keeps_tr.
  - destruct (edit_step m v ps S HK Hfew Hf k x Hc) as (v' & m' & -> & H). cbn [mbind option_bind]. eauto.
  - unfold removeItem. destruct (remove_step m v ps S HK Hfew Hf k no_value) as (r & v' & m' & -> & Er & H).
    cbn [mbind option_bind]. rewrite Er. eauto.
  - rewrite (value_step m v ps S HK Hf d k). cbn [mbind option_bind]. exists v, m. done.
  - destruct HK as (Hcn & l & Hv & Hs & <-). rewrite size_as_map, (proj1 Hv) by done. exists v, m.
    split; [done|]. split; [|done]. split; [done|]. by exists l.
Qed.

Fixpoint krun (cs : list kcmd) v m : option (list answer * VectorImpl * mem (K * V)) :=
  match cs with
  | [] => Some ([], v, m)
  | c :: cs => '(a, v, m) ← kexec c v m; '(r, v, m) ← krun cs v m; Some (a :: r, v, m)
  end.

Fixpoint kanswers (cs : list kcmd) (S : gmap K V) : list answer :=
  match cs with [] => [] | c :: cs => (kspec c S).1 :: kanswers cs (kspec c S).2 end.

Fixpoint kvalid_run (cs : list kcmd) (S : gmap K V) : Prop :=
  match cs with [] => True | c :: cs => kvalid c S /\ kvalid_run cs (kspec c S).2 end.

Lemma kspec_size c S : (size (kspec c S).2 <= size S + 1)%nat.
Proof.
  assert (H : forall k x, (size (<[k := x]> S) <= size S + 1)%nat).
  { intros k x. rewrite map_size_insert. destruct (S !! k); unfold id; lia. }
  destruct c; simpl; auto; try lia. rewrite map_size_delete. destruct (S !! key); unfold id; lia.
Qed.

(** C12: a keyed vector, whose [operator <] is a strict total order of the keys,
    is a finite map.  Whatever is added, replaced, removed and looked up, and
    whatever keys that are present are edited, from an empty vector on, in memory
    that other vectors use, when every allocation succeeds, the run has few enough
    commands for an array of as many pairs to be sized in 32 bits and fewer than
    2^31 vectors share memory: the answers are those of the map, and the other
    vectors stay as they are: the array stays sorted, binary search finds every
    key that is there and ends. *)
Theorem keyed_refines_map cs m ps :
  counted m ps -> Z.of_nat (length ps) + 2 < 2 ^ 31 -> fits (Z.of_nat (length cs)) -> kvalid_run cs ∅ ->
  exists v' m', krun cs new_vector m = Some (kanswers cs ∅, v', m') /\
    counted m' (mStorage v' :: ps) /\ keeps ps m m'.
Proof.
  intros Hc Hfew. assert (HK : keyed m new_vector ps ∅).
  { split; [apply counted_null; split; [done|lia]|]. exists []. split; [split; [done|by left]|]. split; [constructor|done]. }
  replace (length cs) with (size (∅ : gmap K V) + length cs)%nat by (rewrite map_size_empty; lia).
  revert HK. clear Hc. generalize (∅ : gmap K V) as S, new_vector as v.
  revert m. induction cs as [|c cs IH]; intros m S v HK Hf Hval; cbn [krun kanswers].
  { exists v, m. split; [done|]. split; [apply HK|done]. }
  destruct Hval as [Hval Hvals]. simpl in Hf.
  destruct (kstep c m v ps S HK Hfew) as (v1 & m1 & -> & HK1 & Hk1); [eapply fits_le; [|exact Hf]; lia|done|].
  cbn [mbind option_bind]. destruct (IH m1 _ v1 HK1) as (v' & m' & -> & Hc' & Hk'); [|done|].
  { pose proof (kspec_size c S). eapply fits_le; [|exact Hf]. lia. }
  cbn [mbind option_bind]. exists v', m'. split; [done|]. split; [done|]. by eapply keeps_tr.
Qed.
End keyed.

(** ** Witness *)

Definition pair_type : ItemType (Z * Z) := Build_ItemType (Z * Z) 8 true true true true (0, 0).

#[export] Instance Z_order : TotalOrder Z.ltb.
Proof.
  split; intros *; rewrite ?Z.ltb_lt, ?Z.ltb_ge; lia.
Qed.

Lemma keyed_refines_map_witness :
  exists v' m', @krun Z Z pair_type any_fresh Z.ltb 0
    [KAdd 2 20; KAdd 1 10; KEditValueFor 2 22; KRemoveItem 1; KRemoveItem 3; KValueFor (-1) 2; KValueFor (-1) 1; KSize]
    new_vector (mkMem ∅ 0) =
  Some ([Code false; Code false; Code false; Code false; Code true; Value 22; Value (-1); Count 1], v', m').
Proof.
  destruct (@keyed_refines_map Z Z _ _ pair_type any_fresh Z.ltb 0 _ (any_fresh_sound pair_type ltac:(simpl; lia))
    [KAdd 2 20; KAdd 1 10; KEditValueFor 2 22; KRemoveItem 1; KRemoveItem 3; KValueFor (-1) 2; KValueFor (-1) 1; KSize]
    (mkMem ∅ 0) []) as (v' & m' & E & _).
  - split; [done| |done]. intros p H. by apply not_elem_of_nil in H.
  - done.
  - by vm_compute.
  - simpl. by split_and!.
  - exists v', m'. exact E.
Defined.
