(* ===== verification/VectorFaults.v ===== *)
(** * system/libutils/VectorImpl.cpp: where the vectors go wrong

    What the theorems about vectors exclude, by concrete runs: items of the vector
    itself as arguments, insertions of nothing, merging, and failing allocations. *)

From S2P Require Import Prelude VectorImpl VectorRefine VectorSort SortedVector.

(** Items with constructors and destructors that are not moved as bytes; an
    allocator that goes on upwards, and one that fails after [n] calls. *)
Definition object_type : ItemType Z := Build_ItemType Z 4 false false false false 0.
Definition bump : Allocator := fun k _ _ => 16 * (Z.of_nat k + 1).
Definition fails_after (n : nat) : Allocator := fun k _ _ => if (k <? n)%nat then 16 * (Z.of_nat k + 1) else 0.

(** One vector that holds [l] in a buffer of [cap] slots, and [refs] references to it. *)
Definition holding (refs : Z) (cap : nat) (l : list Z) : mem Z :=
  mkMem {[ 8 := mkBuffer refs (Z.of_nat cap * 4) ((Some <$> l) ++ replicate (cap - length l) None) ]} 0.
Definition the_vector (l : list Z) : VectorImpl := mkVector 8 (Z.of_nat (length l)).

(** [v.push(v[0])] on a full vector reads the item from the buffer that growing
    has just freed. *)
Lemma push_own_item_faults :
  @push Z object_type bump (Some (Inside 8 0)) (the_vector [1; 2; 3; 4]) (holding 1 4 [1; 2; 3; 4]) = None.
Proof. vm_compute. reflexivity. Qed.

(** [v.insertAt(v[2], 0)] with room inserts the item that has moved to place 2. *)
Lemma insert_own_item_wrong :
  exists v' m', @insertAt Z int_type bump (Some (Inside 8 2)) 0 1 (the_vector [1; 2; 3]) (holding 1 4 [1; 2; 3])
    = Some (0, v', m') /\ @content Z int_type m' v' [2; 1; 2; 3].
Proof.
  do 2 eexists. split; [vm_compute; reflexivity|]. split; [done|]. right. eexists. split; [reflexivity|]. by exists [].
Qed.

(** Inserting nothing copies the objects behind the place onto themselves and
    destroys them. *)
Lemma insert_nothing_faults x :
  @insertAt Z object_type bump (Some (Outside [x])) 0 0 (the_vector [1; 2]) (holding 1 4 [1; 2]) = None /\
  @removeItemsAt Z object_type bump 0 0 (the_vector [1; 2]) (holding 1 4 [1; 2]) = None.
Proof. split; vm_compute; reflexivity. Qed.

(** Appending nothing to a full vector is reported as a lack of memory. *)
Lemma append_nothing_no_memory :
  exists s, @insertArrayAt Z int_type bump (Outside []) 0 0 new_vector (mkMem ∅ 0) = Some (NO_MEMORY, s.1, s.2).
Proof. eexists (_, _). vm_compute. reflexivity. Qed.

(** Without memory for a copy, editing goes to the shared buffer: the other vector
    changes. *)
Lemma edit_without_memory_shared :
  exists m', @editItemAt Z int_type (fails_after 0) 0 9 (the_vector [1; 2]) (holding 2 4 [1; 2])
    = Some (the_vector [1; 2], m') /\ @itemAt Z 0 (the_vector [1; 2]) m' = Some 9.
Proof. eexists. split; vm_compute; reflexivity. Qed.

(** Without memory to grow, the count is increased all the same: the vector counts
    items that are not in its buffer. *)
Lemma push_without_memory_counts :
  exists v' m', @insertAt Z object_type (fails_after 0) (Some (Outside [5])) 4 1 (the_vector [1; 2; 3; 4])
      (holding 1 4 [1; 2; 3; 4]) = Some (NO_MEMORY, v', m') /\
    mCount v' = 5 /\ @capacity Z object_type v' m' = Some 4.
Proof. do 2 eexists. split_and!; vm_compute; reflexivity. Qed.

(** Types that are resized as bytes take the address of the failed buffer's data. *)
Lemma resize_without_memory_faults :
  @push Z int_type (fails_after 0) (Some (Outside [5])) (the_vector [1; 2; 3; 4]) (holding 1 4 [1; 2; 3; 4]) = None.
Proof. vm_compute. reflexivity. Qed.

(** Merging a sorted vector into an empty one compares with an item that is not
    there. *)
Lemma merge_into_empty_faults :
  @merge_sorted Z int_type bump Z.ltb (the_vector [1; 2]) new_vector (holding 1 4 [1; 2]) = None.
Proof. vm_compute. reflexivity. Qed.

(** Merging vectors that have their border in common leaves the item twice. *)
Lemma merge_duplicates :
  exists v' m', @merge_sorted Z int_type bump Z.ltb (mkVector 16 2) (the_vector [2; 3])
      (mkMem (<[16 := mkBuffer 1 8 [Some 1; Some 2]]> (bufs (holding 1 4 [2; 3]))) 1) = Some (0, v', m') /\
    @content Z int_type m' v' [1; 2; 2; 3].
Proof.
  do 2 eexists. split; [vm_compute; reflexivity|]. split; [done|]. right. eexists. split; [reflexivity|]. by exists [].
Qed.

(** The number of items is converted to [ssize_t]: of 2^31 items or more none is
    sorted, and no error is reported. *)
Lemma sort_skips_huge {A} {IT : ItemType A} {AL : Allocator} (cmp : A -> A -> Z) v m :
  2 ^ 31 <= mCount v < 2 ^ 32 -> sort cmp v m = Some (NO_ERROR, v, m).
Proof.
  intros H. unfold sort. cbv zeta. assert (s32 (mCount v) = mCount v - 2 ^ 32) as ->.
  { unfold wraps, wrapu. eval_pow2. div_lia. }
  by rewrite (proj2 (Z.ltb_ge _ _)) by lia.
Qed.
