(* ===== verification/Unicode.v ===== *)
(** * system/libutils/Unicode.cpp: strings of 16- and 32-bit characters, UTF-8, UTF-16, UTF-32

    Memory is the list of what is there from a pointer on, bytes or wider
    characters; [None] as a result is an access outside of it (or a shift by the
    width of the type).  [size_t] has 32 bits. *)

From S2P Require Import Prelude.

(** A pointer that may be NULL. *)
Abbreviation ptr := (option (list Z)) (only parsing).

Definition kByteMask : Z := 0xBF.
Definition kByteMark : Z := 0x80.
Definition kUnicodeSurrogateStart : Z := 0xD800.
Definition kUnicodeSurrogateEnd : Z := 0xDFFF.
Definition kUnicodeMaxCodepoint : Z := 0x10FFFF.
Definition kFirstByteMark : list Z := [0x00; 0x00; 0xC0; 0xE0; 0xF0].

Section unicode.
(** Whether [char] is signed, and the byte order of the machine. *)
Variables (sgn : bool) (ntohs : Z -> Z).
Implicit Types src dst mem : list Z.
Local Open Scope c_scope.

(** ** UTF-32 *)

Definition utf32_codepoint_utf8_length (srcChar : Z) : Z :=
  if srcChar <? 0x80 then 1
  else if srcChar <? 0x800 then 2
  else if srcChar <? 0x10000 then
    if (srcChar <? kUnicodeSurrogateStart) || (kUnicodeSurrogateEnd <? srcChar) then 3 else 0
  else if srcChar <=? kUnicodeMaxCodepoint then 4
  else 0.

(** The bytes written at [dstP], from the last to the first; every case falls
    through to the next. *)
Definition utf32_codepoint_to_utf8 (srcChar bytes : Z) : list Z :=
  let step '(c, out) := (c >> 6, u8 (Z.lor c kByteMark & kByteMask) :: out) in
  let s := (srcChar, []) in
  let s := if bytes =? 4 then step s else s in
  let s := if (bytes =? 4) || (bytes =? 3) then step s else s in
  let s := if (bytes =? 4) || (bytes =? 3) || (bytes =? 2) then step s else s in
  if (bytes =? 4) || (bytes =? 3) || (bytes =? 2) || (bytes =? 1)
  then u8 (Z.lor s.1 (nth (Z.to_nat bytes) kFirstByteMark 0)) :: s.2 else s.2.

(** [strlen32], [strlen16]: how many characters before the NUL. *)
Fixpoint strlen_loop (fuel : nat) mem (i : Z) : option Z :=
  match fuel with
  | O => None
  | S fuel => c ← load mem i; if negb (c =? 0) then strlen_loop fuel mem (i + 1) else Some i
  end.
Definition strlen32 mem : option Z := strlen_loop (S (length mem)) mem 0.
Definition strlen16 mem : option Z := strlen_loop (S (length mem)) mem 0.

Fixpoint strnlen_loop (maxlen : nat) mem (i : Z) : option Z :=
  match maxlen with
  | O => Some i
  | S maxlen => c ← load mem i; if negb (c =? 0) then strnlen_loop maxlen mem (i + 1) else Some i
  end.
Definition strnlen32 mem (maxlen : Z) : option Z := strnlen_loop (Z.to_nat maxlen) mem 0.
Definition strnlen16 mem (maxlen : Z) : option Z := strnlen_loop (Z.to_nat maxlen) mem 0.

(** The loop over the first byte's leading ones: how many bytes, the bits to
    ignore, and the bits read. *)
Fixpoint at_loop (fuel : nat) mem (first_char cur num_to_read mask to_ignore_mask utf32 : Z)
    : option (Z * Z * Z) :=
  match fuel with
  | O => None
  | S fuel =>
      if (u32 first_char & mask) =? 0 then Some (num_to_read, Z.lor to_ignore_mask mask, utf32)
      else
        b ← load mem cur;
        at_loop fuel mem first_char (cur + 1) (num_to_read + 1) (mask >> 1) (Z.lor to_ignore_mask mask)
          (u32 (u32 (utf32 << 6) + (chr sgn b & 0x3F)))
  end.

(** The character and how many bytes it takes. *)
Definition utf32_at_internal mem (cur : Z) : option (Z * Z) :=
  b ← load mem cur;
  let first_char := chr sgn b in
  if (first_char & 0x80) =? 0 then Some (first_char, 1)
  else
    '(num_to_read, to_ignore_mask, utf32) ←
      at_loop 8 mem first_char (cur + 1) 1 0x40 0xFFFFFF80 (u32 first_char);
    let k := 6 * (num_to_read - 1) in
    if 32 <=? k then None
    else Some (s32 (utf32 & Z.lnot (u32 (to_ignore_mask << k))), num_to_read).

(** Answers the character, and the next index unless that is left alone. *)
Definition utf32_from_utf8_at src (src_len index : Z) : option (Z * option Z) :=
  if src_len <=? index then Some (-1, None)
  else
    '(ret, num_read) ← utf32_at_internal src index;
    Some (ret, if 0 <=? ret then Some (u32 (index + num_read)) else None).

Fixpoint length32_loop (n : nat) src (i ret : Z) : option Z :=
  match n with
  | O => Some ret
  | S n => c ← load src i; length32_loop n src (i + 1) (u32 (ret + utf32_codepoint_utf8_length c))
  end.

Definition utf32_to_utf8_length (src : ptr) (src_len : Z) : option Z :=
  match src with
  | Some src => if src_len =? 0 then Some (-1)
                else ret ← length32_loop (Z.to_nat src_len) src 0 0; Some (s32 ret)
  | None => Some (-1)
  end.

(** [cur] is the offset in [dst]. *)
Fixpoint utf32_to_utf8_loop (n : nat) src (i : Z) dst (cur : Z) : option (list Z * Z) :=
  match n with
  | O => Some (dst, cur)
  | S n =>
      c ← load src i;
      let len := utf32_codepoint_utf8_length c in
      dst ← store dst cur (utf32_codepoint_to_utf8 c len);
      utf32_to_utf8_loop n src (i + 1) dst (cur + len)
  end.

Definition utf32_to_utf8 (src : ptr) (src_len : Z) (dst : ptr) : option ptr :=
  match src, dst with
  | Some s, Some d =>
      if src_len =? 0 then Some dst
      else
        '(d, cur) ← utf32_to_utf8_loop (Z.to_nat src_len) s 0 d 0;
        d ← store d cur [0];
        Some (Some d)
  | _, _ => Some dst
  end.

(** ** UTF-16 *)

Fixpoint strcmp16_loop (fuel : nat) (s1 s2 : list Z) (i : Z) : option Z :=
  match fuel with
  | O => None
  | S fuel =>
      ch ← load s1 i;
      c2 ← load s2 i;
      let d := ch - c2 in
      if negb (d =? 0) || (ch =? 0) then Some d else strcmp16_loop fuel s1 s2 (i + 1)
  end.
Definition strcmp16 (s1 s2 : list Z) : option Z := strcmp16_loop (S (length s1)) s1 s2 0.

Fixpoint strncmp16_loop (n : nat) (s1 s2 : list Z) (i d : Z) : option Z :=
  match n with
  | O => Some d
  | S n =>
      ch ← load s1 i;
      c2 ← load s2 i;
      let d := ch - c2 in
      if negb (d =? 0) || (ch =? 0) then Some d else strncmp16_loop n s1 s2 (i + 1) d
  end.
Definition strncmp16 (s1 s2 : list Z) (n : Z) : option Z := strncmp16_loop (Z.to_nat n) s1 s2 0 0.

Fixpoint strcpy16_loop (fuel : nat) dst src (i : Z) : option (list Z) :=
  match fuel with
  | O => None
  | S fuel =>
      ch ← load src i;
      dst ← store dst i [ch];
      if negb (ch =? 0) then strcpy16_loop fuel dst src (i + 1) else Some dst
  end.
Definition strcpy16 dst src : option (list Z) := strcpy16_loop (S (length src)) dst src 0.

(** The character goes through a [char]. *)
Fixpoint strncpy16_loop (n : nat) dst src (i : Z) : option (list Z * Z) :=
  match n with
  | O => Some (dst, i)
  | S n =>
      c ← load src i;
      let ch := chr sgn c in
      dst ← store dst i [u16 ch];
      if ch =? 0 then Some (dst, i + 1) else strncpy16_loop n dst src (i + 1)
  end.
Definition strncpy16 dst src (n : Z) : option (list Z) :=
  '(dst, q) ← strncpy16_loop (Z.to_nat n) dst src 0;
  store dst q [0].

(** [conv2] is what is done to the characters of the second string. *)
Fixpoint strzcmp16_loop (fuel : nat) (conv2 : Z -> Z) (s1 : list Z) (n1 : Z) (s2 : list Z) (n2 i : Z)
    : option Z :=
  if (i <? n1) && (i <? n2) then
    match fuel with
    | O => None
    | S fuel =>
        c1 ← load s1 i;
        c2 ← load s2 i;
        let d := c1 - conv2 c2 in
        if negb (d =? 0) then Some d else strzcmp16_loop fuel conv2 s1 n1 s2 n2 (i + 1)
    end
  else if n1 <? n2 then c2 ← load s2 i; Some (0 - conv2 c2)
  else if n2 <? n1 then load s1 i
  else Some 0.
Definition strzcmp16 (s1 : list Z) (n1 : Z) (s2 : list Z) (n2 : Z) : option Z :=
  strzcmp16_loop (Z.to_nat n1) (fun c => c) s1 n1 s2 n2 0.
Definition strzcmp16_h_n (s1H : list Z) (n1 : Z) (s2N : list Z) (n2 : Z) : option Z :=
  strzcmp16_loop (Z.to_nat n1) ntohs s1H n1 s2N n2 0.

Definition is_high (c : Z) : bool := (c & 0xFC00) =? 0xD800.
Definition is_low (c : Z) : bool := (c & 0xFC00) =? 0xDC00.

(** A surrogate is paired with whatever follows it. *)
Fixpoint utf16_to_utf8_loop (fuel : nat) src (end_utf16 i : Z) dst (cur : Z) : option (list Z * Z) :=
  if i <? end_utf16 then
    match fuel with
    | O => None
    | S fuel =>
        c ← load src i;
        '(utf32, i) ←
          if is_high c then
            c2 ← load src (i + 1);
            Some (u32 (Z.lor ((c - 0xD800) << 10) (u32 (c2 - 0xDC00)) + 0x10000), i + 2)
          else Some (c, i + 1);
        let len := utf32_codepoint_utf8_length utf32 in
        dst ← store dst cur (utf32_codepoint_to_utf8 utf32 len);
        utf16_to_utf8_loop fuel src end_utf16 i dst (cur + len)
    end
  else Some (dst, cur).

Definition utf16_to_utf8 (src : ptr) (src_len : Z) (dst : ptr) : option ptr :=
  match src, dst with
  | Some s, Some d =>
      if src_len =? 0 then Some dst
      else
        '(d, cur) ← utf16_to_utf8_loop (Z.to_nat src_len) s src_len 0 d 0;
        d ← store d cur [0];
        Some (Some d)
  | _, _ => Some dst
  end.

(** The test for the second surrogate steps over the first one. *)
Fixpoint length16_loop (fuel : nat) src (end_ i ret : Z) : option Z :=
  if i <? end_ then
    match fuel with
    | O => None
    | S fuel =>
        c ← load src i;
        if is_high c && (i + 1 <? end_) then
          c2 ← load src (i + 1);
          if is_low c2 then length16_loop fuel src end_ (i + 2) (u32 (ret + 4))
          else length16_loop fuel src end_ (i + 2) (u32 (ret + utf32_codepoint_utf8_length c2))
        else length16_loop fuel src end_ (i + 1) (u32 (ret + utf32_codepoint_utf8_length c))
    end
  else Some ret.

Definition utf16_to_utf8_length (src : ptr) (src_len : Z) : option Z :=
  match src with
  | Some src => if src_len =? 0 then Some (-1)
                else ret ← length16_loop (Z.to_nat src_len) src src_len 0 0; Some (s32 ret)
  | None => Some (-1)
  end.

(** ** UTF-8 *)

(** As [at_loop], with bytes that must be [10xxxxxx]; [None] inside is the
    answer -1. *)
Fixpoint tail_loop (fuel : nat) mem (first_char cur num_to_read mask to_ignore_mask utf32 : Z)
    : option (option (Z * Z * Z * Z)) :=
  match fuel with
  | O => None
  | S fuel =>
      if (num_to_read <? 5) && negb ((first_char & mask) =? 0) then
        b ← load mem cur;
        if negb ((chr sgn b & 0xC0) =? 0x80) then Some None
        else
          tail_loop fuel mem first_char (cur + 1) (num_to_read + 1) (mask >> 1) (Z.lor to_ignore_mask mask)
            (u32 (u32 (utf32 << 6) + (chr sgn b & 0x3F)))
      else Some (Some (num_to_read, Z.lor to_ignore_mask mask, utf32, cur))
  end.

Fixpoint utf8_length_loop (fuel : nat) mem (cur ret : Z) : option Z :=
  match fuel with
  | O => None
  | S fuel =>
      b ← load mem cur;
      if b =? 0 then Some (s32 ret)
      else
        let first_char := chr sgn b in
        if (first_char & 0x80) =? 0 then utf8_length_loop fuel mem (cur + 1) (u32 (ret + 1))
        else if (first_char & 0x40) =? 0 then Some (-1)
        else
          r ← tail_loop 5 mem first_char (cur + 1) 1 0x40 0x80 0;
          match r with
          | None => Some (-1)
          | Some (num_to_read, to_ignore_mask, utf32, cur) =>
              if num_to_read =? 5 then Some (-1)
              else
                let utf32 := Z.lor utf32
                  (u32 ((Z.lnot to_ignore_mask & first_char) << (6 * (num_to_read - 1)))) in
                if kUnicodeMaxCodepoint <? utf32 then Some (-1)
                else utf8_length_loop fuel mem cur (u32 (ret + num_to_read))
          end
  end.
Definition utf8_length mem : option Z := utf8_length_loop (S (length mem)) mem 0 0.

Definition utf8_codepoint_len (ch : Z) : Z := ((0xe5000000 >> ((ch >> 3) & 0x1e)) & 3) + 1.

Definition utf8_shift_and_mask (codePoint byte : Z) : Z := Z.lor (u32 (codePoint << 6)) (0x3F & byte).

(** How many bytes the first one announces, up to eight. *)
Fixpoint skip_loop (fuel : nat) (first_char mask num_to_skip : Z) : Z :=
  match fuel with
  | O => num_to_skip
  | S fuel => if (first_char & mask) =? 0 then num_to_skip
              else skip_loop fuel first_char (mask >> 1) (num_to_skip + 1)
  end.

Fixpoint utf8_to_utf32_length_loop (fuel : nat) src (end_ cur ret : Z) : option Z :=
  if cur <? end_ then
    match fuel with
    | O => None
    | S fuel =>
        b ← load src cur;
        let first_char := chr sgn b in
        let num_to_skip := if (first_char & 0x80) =? 0 then 1 else skip_loop 8 first_char 0x40 1 in
        utf8_to_utf32_length_loop fuel src end_ (cur + num_to_skip) (u32 (ret + 1))
    end
  else Some ret.

Definition utf8_to_utf32_length (src : ptr) (src_len : Z) : option Z :=
  match src with
  | Some s => if src_len =? 0 then Some 0
              else utf8_to_utf32_length_loop (Z.to_nat src_len) s src_len 0 0
  | None => Some 0
  end.

Fixpoint utf8_to_utf32_loop (fuel : nat) src (end_ cur : Z) dst (cur_utf32 : Z) : option (list Z * Z) :=
  if cur <? end_ then
    match fuel with
    | O => None
    | S fuel =>
        '(c, num_read) ← utf32_at_internal src cur;
        dst ← store dst cur_utf32 [u32 c];
        utf8_to_utf32_loop fuel src end_ (cur + num_read) dst (cur_utf32 + 1)
    end
  else Some (dst, cur_utf32).

Definition utf8_to_utf32 (src : ptr) (src_len : Z) (dst : ptr) : option ptr :=
  match src, dst with
  | Some s, Some d =>
      if src_len =? 0 then Some dst
      else
        '(d, cur) ← utf8_to_utf32_loop (Z.to_nat src_len) s src_len 0 d 0;
        d ← store d cur [0];
        Some (Some d)
  | _, _ => Some dst
  end.

Definition utf8_to_utf32_codepoint src (i length : Z) : option Z :=
  if length =? 1 then load src i
  else if length =? 2 then
    a ← load src i; b ← load src (i + 1);
    Some (utf8_shift_and_mask (a & 0x1f) b)
  else if length =? 3 then
    a ← load src i; b ← load src (i + 1); c ← load src (i + 2);
    Some (utf8_shift_and_mask (utf8_shift_and_mask (a & 0x0f) b) c)
  else if length =? 4 then
    a ← load src i; b ← load src (i + 1); c ← load src (i + 2); d ← load src (i + 3);
    Some (utf8_shift_and_mask (utf8_shift_and_mask (utf8_shift_and_mask (a & 0x07) b) c) d)
  else Some 0xffff.

Fixpoint utf8_to_utf16_length_loop (fuel : nat) src (u8end u8cur u16measuredLen : Z) : option (Z * Z) :=
  if u8cur <? u8end then
    match fuel with
    | O => None
    | S fuel =>
        b ← load src u8cur;
        let u8charLen := utf8_codepoint_len b in
        codepoint ← utf8_to_utf32_codepoint src u8cur u8charLen;
        let n := u32 (u16measuredLen + 1) in
        utf8_to_utf16_length_loop fuel src u8end (u8cur + u8charLen)
          (if 0xFFFF <? codepoint then u32 (n + 1) else n)
    end
  else Some (u8cur, u16measuredLen).

Definition utf8_to_utf16_length src (u8len : Z) : option Z :=
  '(u8cur, n) ← utf8_to_utf16_length_loop (Z.to_nat u8len) src u8len 0 0;
  if negb (u8cur =? u8len) then Some (-1) else Some (s32 n).

Fixpoint utf8_to_utf16_loop (fuel : nat) src (u8end u8cur : Z) dst (u16cur : Z) : option (list Z * Z) :=
  if u8cur <? u8end then
    match fuel with
    | O => None
    | S fuel =>
        b ← load src u8cur;
        let u8len := utf8_codepoint_len b in
        codepoint ← utf8_to_utf32_codepoint src u8cur u8len;
        '(dst, u16cur) ←
          if codepoint <=? 0xFFFF then
            dst ← store dst u16cur [u16 codepoint];
            Some (dst, u16cur + 1)
          else
            let codepoint := codepoint - 0x10000 in
            dst ← store dst u16cur [u16 ((codepoint >> 10) + 0xD800)];
            dst ← store dst (u16cur + 1) [u16 ((codepoint & 0x3FF) + 0xDC00)];
            Some (dst, u16cur + 2);
        utf8_to_utf16_loop fuel src u8end (u8cur + u8len) dst u16cur
    end
  else Some (dst, u16cur).

(** The memory and where the output ends. *)
Definition utf8_to_utf16_no_null_terminator src (u8len : Z) dst : option (list Z * Z) :=
  utf8_to_utf16_loop (Z.to_nat u8len) src u8len 0 dst 0.

Definition utf8_to_utf16 src (u8len : Z) dst : option (list Z) :=
  '(dst, end_) ← utf8_to_utf16_no_null_terminator src u8len dst;
  store dst end_ [0].
End unicode.
