(* ===== verification/UnicodeText.v ===== *)
(** * system/libutils/Unicode.cpp: what the conversions compute

    [enc8] and [enc16] are the encodings of a character, [group] a sequence of
    bytes that looks like one. *)

From S2P Require Import Prelude Unicode.

(** ** Single bytes *)

Lemma byte_all (P : Z -> bool) : forallb P (seqZ 0 256) = true -> forall b, is_byte b -> P b = true.
Proof.
  intros H b Hb. rewrite forallb_forall in H. apply H. apply list_elem_of_In, elem_of_seqZ. unfold is_byte in Hb. lia.
Qed.

(** A fact about one byte, by trying all of them. *)
Ltac by_byte b P :=
  let H := fresh in
  assert (H : P b = true) by (apply (byte_all P); [vm_compute; reflexivity|unfold is_byte in *; lia]);
  cbv beta in H.

Lemma land_low (x m : Z) : 0 <= m < 256 -> Z.land x m = Z.land (x mod 256) m.
Proof.
  intros Hm. rewrite <- land_255, <- Z.land_assoc. f_equal.
  rewrite Z.land_comm, land_255. symmetry. by apply Z.mod_small.
Qed.

Lemma chr_mod sgn b : chr sgn b mod 256 = b mod 256.
Proof. unfold chr, wraps, wrapu. destruct sgn; change (2 ^ 8) with 256; [|by rewrite Z.mod_mod].
  change (2 ^ (8 - 1)) with 128. div_lia. Qed.

Lemma land_chr sgn b m : 0 <= m < 256 -> is_byte b -> Z.land (chr sgn b) m = Z.land b m.
Proof.
  intros Hm Hb. rewrite land_low, chr_mod by done. by rewrite Z.mod_small.
Qed.

Lemma land_u32_chr sgn b m : 0 <= m < 256 -> is_byte b -> Z.land (u32 (chr sgn b)) m = Z.land b m.
Proof.
  intros Hm Hb. rewrite land_low by done. unfold wrapu. change (2 ^ 32) with (256 * 2 ^ 24).
  rewrite Z.rem_mul_r, (Z.mul_comm 256), Z.mod_add, Z.mod_mod, chr_mod, Z.mod_small by done. done.
Qed.

Lemma mark_byte c : u8 (Z.land (Z.lor c kByteMark) kByteMask) = 0x80 + c mod 64.
Proof.
  unfold kByteMark, kByteMask. rewrite land_low by lia.
  rewrite <- (land_255 (Z.lor c 128)), Z.land_lor_distr_l, land_255. change (Z.land 128 255) with 128.
  assert (Hc : is_byte (c mod 256)) by (unfold is_byte; pose proof (Z.mod_pos_bound c 256); lia).
  replace (c mod 64) with ((c mod 256) mod 64) by div_lia.
  revert Hc. generalize (c mod 256) as b. intros b Hb.
  by_byte b (fun b => u8 (Z.land (Z.lor b 128) 191) =? 128 + b mod 64). lia.
Qed.

(** ** Encodings *)

Definition is_scalar (c : Z) : Prop :=
  0 <= c <= kUnicodeMaxCodepoint /\ ~ (kUnicodeSurrogateStart <= c <= kUnicodeSurrogateEnd).

Definition enc8 (c : Z) : list Z :=
  if c <? 0x80 then [c]
  else if c <? 0x800 then [0xC0 + c / 64; 0x80 + c mod 64]
  else if c <? 0x10000 then [0xE0 + c / 4096; 0x80 + c / 64 mod 64; 0x80 + c mod 64]
  else [0xF0 + c / 262144; 0x80 + c / 4096 mod 64; 0x80 + c / 64 mod 64; 0x80 + c mod 64].

Definition enc16 (c : Z) : list Z :=
  if c <=? 0xFFFF then [c] else [0xD800 + (c - 0x10000) / 1024; 0xDC00 + (c - 0x10000) mod 1024].

Definition text8 (cs : list Z) : list Z := concat (enc8 <$> cs).
Definition text16 (cs : list Z) : list Z := concat (enc16 <$> cs).

Definition cont (b : Z) : Prop := 0x80 <= b < 0xC0.

Inductive group : list Z -> Prop :=
  | group1 a : 0 <= a < 0x80 -> group [a]
  | group2 a b : 0xC0 <= a < 0xE0 -> cont b -> group [a; b]
  | group3 a b c : 0xE0 <= a < 0xF0 -> cont b -> cont c -> group [a; b; c]
  | group4 a b c d : 0xF0 <= a < 0xF8 -> cont b -> cont c -> cont d -> group [a; b; c; d].

(** The character that a group stands for. *)
Definition val8 (g : list Z) : Z :=
  match g with
  | [a] => a
  | [a; b] => a mod 32 * 64 + b mod 64
  | [a; b; c] => (a mod 16 * 64 + b mod 64) * 64 + c mod 64
  | [a; b; c; d] => ((a mod 8 * 64 + b mod 64) * 64 + c mod 64) * 64 + d mod 64
  | _ => 0
  end.

Lemma enc8_group c : is_scalar c -> group (enc8 c) /\ val8 (enc8 c) = c.
Proof.
  unfold is_scalar, enc8, kUnicodeMaxCodepoint. intros [Hc _]. repeat case_if; split; simpl; try done;
    try constructor; unfold cont; try div_lia.
Qed.

Lemma group_length g : group g -> 1 <= Z.of_nat (length g) <= 4.
Proof. destruct 1; simpl; lia. Qed.

Lemma group_val g : group g -> 0 <= val8 g < 0x200000.
Proof. destruct 1; simpl; div_lia. Qed.

Lemma group_bytes g : group g -> Forall is_byte g.
Proof. unfold is_byte. destruct 1; unfold cont in *; repeat constructor; lia. Qed.

(** ** Encoding a character *)

(** The shape of the code's four cases. *)
Lemma codepoint_cases c : 0 <= c ->
  (utf32_codepoint_utf8_length c = 0 /\ ~ is_scalar c) \/
  (is_scalar c /\ utf32_codepoint_utf8_length c = Z.of_nat (length (enc8 c))).
Proof.
  intros H0. unfold utf32_codepoint_utf8_length, is_scalar, enc8, kUnicodeSurrogateStart, kUnicodeSurrogateEnd,
    kUnicodeMaxCodepoint.
  repeat case_if; simpl; try (right; split; [lia|done]); try (left; split; [done|lia]).
Qed.

Lemma first_byte h n : (n = 2 /\ 0 <= h < 32 \/ n = 3 /\ 0 <= h < 16 \/ n = 4 /\ 0 <= h < 8) ->
  u8 (Z.lor h (nth (Z.to_nat n) kFirstByteMark 0)) = nth (Z.to_nat n) kFirstByteMark 0 + h.
Proof.
  intros [[-> H]|[[-> H]|[-> H]]]; simpl.
  - by_byte h (fun h => (32 <=? h) || (u8 (Z.lor h 192) =? 192 + h)). lia.
  - by_byte h (fun h => (16 <=? h) || (u8 (Z.lor h 224) =? 224 + h)). lia.
  - by_byte h (fun h => (8 <=? h) || (u8 (Z.lor h 240) =? 240 + h)). lia.
Qed.

Lemma to_utf8_enc c : is_scalar c ->
  utf32_codepoint_utf8_length c = Z.of_nat (length (enc8 c)) /\
  utf32_codepoint_to_utf8 c (Z.of_nat (length (enc8 c))) = enc8 c.
Proof.
  intros Hc. destruct (codepoint_cases c) as [[_ ?]|[_ E]]; [destruct Hc; lia|done|]. split; [done|]. clear E.
  destruct Hc as [Hc _]. unfold kUnicodeMaxCodepoint in Hc.
  assert (H1 : c / 64 / 64 = c / 4096) by (by rewrite Z.div_div by lia).
  assert (H2 : c / 4096 / 64 = c / 262144) by (by rewrite Z.div_div by lia).
  unfold utf32_codepoint_to_utf8, enc8.
  destruct (Z.ltb_spec c 128); [|destruct (Z.ltb_spec c 2048); [|destruct (Z.ltb_spec c 65536)]];
    cbn [length]; change (Z.of_nat 1) with 1; change (Z.of_nat 2) with 2; change (Z.of_nat 3) with 3;
    change (Z.of_nat 4) with 4; cbn -[Z.lor Z.land Z.shiftr Z.div Z.modulo wrapu nth Z.to_nat];
    rewrite ?mark_byte, ?Z.shiftr_div_pow2 by lia;
    change (2 ^ 6) with 64; rewrite ?H1, ?H2; f_equal.
  - rewrite Z.lor_0_r. apply wrapu_id. width_lia.
  - apply (first_byte _ 2). left. div_lia.
  - apply (first_byte _ 3). right. left. div_lia.
  - apply (first_byte _ 4). right. right. div_lia.
Qed.

(** ** Decoding a group *)

Lemma load_app (l k : list Z) i : 0 <= i -> load (l ++ k) (Z.of_nat (length l) + i) = load k i.
Proof.
  intros H. unfold load. rewrite !(proj2 (Z.leb_le 0 _)) by lia.
  rewrite lookup_app_r by lia. f_equal. lia.
Qed.

Lemma load_here (l k : list Z) x : load (l ++ x :: k) (Z.of_nat (length l)) = Some x.
Proof. rewrite <- (Z.add_0_r (Z.of_nat _)). by rewrite load_app. Qed.

Lemma u32_mod_pow x k : 0 <= k <= 32 -> u32 x mod 2 ^ k = x mod 2 ^ k.
Proof.
  intros H. apply Z.mod_mod_divide. exists (2 ^ (32 - k)). rewrite <- Z.pow_add_r by lia. f_equal. lia.
Qed.

(** The bits that survive the mask at the end. *)
Lemma shift_in_mod v t k : 6 <= k <= 32 -> 0 <= t < 64 ->
  u32 (u32 (Z.shiftl v 6) + t) mod 2 ^ k = v mod 2 ^ (k - 6) * 64 + t.
Proof.
  intros Hk Ht. rewrite wrapu_add_l, u32_mod_pow, Z.shiftl_mul_pow2 by lia.
  assert (2 ^ k = 64 * 2 ^ (k - 6)) as -> by (change 64 with (2 ^ 6); rewrite <- Z.pow_add_r by lia; f_equal; lia).
  change (2 ^ 6) with 64. assert (0 < 2 ^ (k - 6)) by lia.
  rewrite Z.rem_mul_r, Z.add_comm, Z.div_add_l, (Z.div_small t) by lia.
  rewrite Z.add_0_r. replace ((v * 64 + t) mod 64) with t by div_lia. lia.
Qed.

Lemma land_u32 x m : Z.land (u32 x) m = Z.land x (Z.land (2 ^ 32 - 1) m).
Proof. unfold wrapu. by rewrite <- land_ones_mod, Z.land_assoc by lia. Qed.

Lemma mask_mod x m k : 0 <= k <= 32 -> Z.land (2 ^ 32 - 1) m = 2 ^ k - 1 -> Z.land (u32 x) m = u32 x mod 2 ^ k.
Proof. intros Hk E. by rewrite land_u32, E, land_ones_mod, u32_mod_pow by lia. Qed.

Section decode.
Variable sgn : bool.

Lemma at_stop f mem a cur n mask ig v :
  is_byte a -> 0 <= mask < 256 -> Z.land a mask = 0 ->
  at_loop sgn (S f) mem (chr sgn a) cur n mask ig v = Some (n, Z.lor ig mask, v).
Proof. intros Ha Hm E. cbn [at_loop]. by rewrite land_u32_chr, E. Qed.

Lemma at_step f mem a b cur n mask ig v :
  is_byte a -> 0 <= mask < 256 -> Z.land a mask <> 0 -> load mem cur = Some b -> is_byte b ->
  at_loop sgn (S f) mem (chr sgn a) cur n mask ig v =
  at_loop sgn f mem (chr sgn a) (cur + 1) (n + 1) (Z.shiftr mask 1) (Z.lor ig mask)
    (u32 (u32 (Z.shiftl v 6) + b mod 64)).
Proof.
  intros Ha Hm E Hl Hb. cbn [at_loop]. rewrite land_u32_chr by done. rewrite (proj2 (Z.eqb_neq _ _)), Hl by done.
  cbn [mbind option_bind]. rewrite (land_chr sgn b) by (done || lia). change 63 with (2 ^ 6 - 1). by rewrite land_ones_mod by lia.
Qed.

Lemma chr_u32_mod a k : 0 <= k <= 8 -> u32 (chr sgn a) mod 2 ^ k = a mod 2 ^ k.
Proof.
  intros Hk. rewrite u32_mod_pow by lia.
  assert (H : forall x, x mod 2 ^ k = x mod 256 mod 2 ^ k).
  { intros x. symmetry. apply Z.mod_mod_divide. exists (2 ^ (8 - k)). rewrite <- Z.pow_add_r by lia.
    by replace (8 - k + k) with 8 by lia. }
  by rewrite H, chr_mod, <- H.
Qed.

Lemma chr_ascii a : 0 <= a < 0x80 -> chr sgn a = a.
Proof. intros. unfold chr. destruct sgn; [apply wraps_id|apply wrapu_id]; width_lia. Qed.

(** The leading ones of a first byte. *)
Lemma lead_bits a : 0x80 <= a < 0x100 ->
  Z.land a 128 <> 0 /\
  (0xC0 <= a <-> Z.land a 64 <> 0) /\
  (0xC0 <= a -> (0xE0 <= a <-> Z.land a 32 <> 0)) /\
  (0xE0 <= a -> (0xF0 <= a <-> Z.land a 16 <> 0)) /\
  (0xF0 <= a -> (0xF8 <= a <-> Z.land a 8 <> 0)).
Proof.
  intros Ha.
  by_byte a (fun a => (a <? 128) || negb (Z.land a 128 =? 0) && eqb (Z.land a 64 =? 0) (a <? 0xC0) &&
    ((a <? 0xC0) || eqb (Z.land a 32 =? 0) (a <? 0xE0)) &&
    ((a <? 0xE0) || eqb (Z.land a 16 =? 0) (a <? 0xF0)) &&
    ((a <? 0xF0) || eqb (Z.land a 8 =? 0) (a <? 0xF8))).
  rewrite (proj2 (Z.ltb_ge a 128)) in H by lia. simpl in H. bool_to_prop.
  rewrite !orb_true_iff, !eqb_true_iff in *.
  destruct (Z.eqb_spec (Z.land a 64) 0), (Z.eqb_spec (Z.land a 32) 0), (Z.eqb_spec (Z.land a 16) 0),
    (Z.eqb_spec (Z.land a 8) 0), (Z.ltb_spec a 192), (Z.ltb_spec a 224), (Z.ltb_spec a 240), (Z.ltb_spec a 248);
    intuition (lia || congruence).
Qed.

Lemma land_128 a : is_byte a -> (Z.land a 128 =? 0) = (a <? 128).
Proof.
  intros Ha. by_byte a (fun a => eqb (Z.land a 128 =? 0) (a <? 128)). by apply eqb_true_iff.
Qed.

Lemma at_group l g r : group g ->
  utf32_at_internal sgn (l ++ g ++ r) (Z.of_nat (length l)) = Some (val8 g, Z.of_nat (length g)).
Proof.
  intros Hg. pose proof (group_bytes g Hg) as Hb. pose proof (group_val g Hg) as Hv.
  destruct Hg as [a Ha|a b Ha Hb'|a b c Ha Hb' Hc'|a b c d Ha Hb' Hc' Hd']; unfold cont in *;
    decompose_Forall_hyps; unfold utf32_at_internal; cbn [app]; rewrite load_here; cbn [mbind option_bind];
    rewrite land_chr, land_128 by (done || lia);
    [rewrite (proj2 (Z.ltb_lt _ _)) by lia; by rewrite chr_ascii|rewrite (proj2 (Z.ltb_ge a _)) by lia..];
    destruct (lead_bits a) as (L1 & L2 & L3 & L4 & L5); try lia.
  all: rewrite (at_step _ _ a b) by (done || lia || by rewrite load_app by lia); change (Z.shiftr 64 1) with 32.
  2,3: rewrite (at_step _ _ a c) by (done || lia || by rewrite <- !Z.add_assoc, load_app by lia);
    change (Z.shiftr 32 1) with 16.
  3: rewrite (at_step _ _ a d) by (done || lia || by rewrite <- !Z.add_assoc, load_app by lia);
    change (Z.shiftr 16 1) with 8.
  all: rewrite at_stop by (done || lia); cbn [mbind option_bind]; simpl in Hv.
  - change (32 <=? 6 * (1 + 1 - 1)) with false. cbv iota. rewrite (mask_mod _ _ 11) by (lia || reflexivity).
    rewrite shift_in_mod, (chr_u32_mod _ (11 - 6)) by (lia || div_lia). by rewrite wraps_id by width_lia.
  - change (32 <=? 6 * (1 + 1 + 1 - 1)) with false. cbv iota. rewrite (mask_mod _ _ 16) by (lia || reflexivity).
    rewrite !shift_in_mod, (chr_u32_mod _ (16 - 6 - 6)) by (lia || div_lia). by rewrite wraps_id by width_lia.
  - change (32 <=? 6 * (1 + 1 + 1 + 1 - 1)) with false. cbv iota. rewrite (mask_mod _ _ 21) by (lia || reflexivity).
    rewrite !shift_in_mod, (chr_u32_mod _ (21 - 6 - 6 - 6)) by (lia || div_lia). by rewrite wraps_id by width_lia.
Qed.
End decode.

(** ** UTF-8 as UTF-16 reads it *)

Lemma codepoint_len_group g a : group g -> head g = Some a -> utf8_codepoint_len a = Z.of_nat (length g).
Proof.
  intros Hg Ha.
  assert (H : is_byte a /\ (a < 0x80 /\ length g = 1%nat \/ 0xC0 <= a < 0xE0 /\ length g = 2%nat \/
    0xE0 <= a < 0xF0 /\ length g = 3%nat \/ 0xF0 <= a /\ length g = 4%nat)).
  { unfold is_byte. destruct Hg; simplify_eq/=; split; try lia. }
  destruct H as [Hb H]. clear Hg Ha.
  by_byte a (fun a => utf8_codepoint_len a =?
    (if a <? 0xC0 then 1 else if a <? 0xE0 then 2 else if a <? 0xF0 then 3 else 4)).
  apply Z.eqb_eq in H0. rewrite H0. repeat case_if; lia.
Qed.

Lemma skip_group sgn g a : group g -> head g = Some a ->
  (if Z.land (chr sgn a) 0x80 =? 0 then 1 else skip_loop 8 (chr sgn a) 0x40 1) = Z.of_nat (length g).
Proof.
  intros Hg Ha.
  assert (H : is_byte a /\ (a < 0x80 /\ length g = 1%nat \/ 0xC0 <= a < 0xE0 /\ length g = 2%nat \/
    0xE0 <= a < 0xF0 /\ length g = 3%nat \/ 0xF0 <= a < 0xF8 /\ length g = 4%nat)).
  { unfold is_byte. destruct Hg; simplify_eq/=; split; try lia. }
  destruct H as [Hb H]. clear Hg Ha.
  destruct sgn.
  - by_byte a (fun a => (0xF8 <=? a) || ((if Z.land (chr true a) 128 =? 0 then 1 else skip_loop 8 (chr true a) 64 1) =?
      (if a <? 0xC0 then 1 else if a <? 0xE0 then 2 else if a <? 0xF0 then 3 else 4))).
    apply orb_true_iff in H0 as [H0|H0]; bool_to_prop; [lia|]. rewrite H0. repeat case_if; lia.
  - by_byte a (fun a => (0xF8 <=? a) || ((if Z.land (chr false a) 128 =? 0 then 1 else skip_loop 8 (chr false a) 64 1) =?
      (if a <? 0xC0 then 1 else if a <? 0xE0 then 2 else if a <? 0xF0 then 3 else 4))).
    apply orb_true_iff in H0 as [H0|H0]; bool_to_prop; [lia|]. rewrite H0. repeat case_if; lia.
Qed.

Lemma shift_and_mask v b : 0 <= v < 2 ^ 26 -> utf8_shift_and_mask v b = v * 64 + b mod 64.
Proof.
  intros Hv. unfold utf8_shift_and_mask. rewrite (Z.land_comm _ b). change 63 with (2 ^ 6 - 1). rewrite land_ones_mod by lia.
  rewrite wrapu_id by (rewrite Z.shiftl_mul_pow2 by lia; width_lia).
  apply (lor_shiftl v (b mod 2 ^ 6) 6); [lia|div_lia].
Qed.

Lemma codepoint_group l g r : group g ->
  utf8_to_utf32_codepoint (l ++ g ++ r) (Z.of_nat (length l)) (Z.of_nat (length g)) = Some (val8 g).
Proof.
  assert (M : forall a k, 0 <= k -> Z.land a (2 ^ k - 1) = a mod 2 ^ k) by apply land_ones_mod.
  assert (E1 : forall a b k, load (a :: b :: k) 1 = Some b) by reflexivity.
  assert (E2 : forall a b c k, load (a :: b :: c :: k) 2 = Some c) by reflexivity.
  assert (E3 : forall a b c d k, load (a :: b :: c :: d :: k) 3 = Some d) by reflexivity.
  intros Hg. unfold utf8_to_utf32_codepoint. destruct Hg; cbn [length app];
    [change (Z.of_nat 1) with 1|change (Z.of_nat 2) with 2|change (Z.of_nat 3) with 3|change (Z.of_nat 4) with 4];
    cbn [Z.eqb Pos.eqb]; rewrite load_here, ?load_app, ?E1, ?E2, ?E3 by lia; cbn [mbind option_bind]; [done|..];
    f_equal.
  - change 31 with (2 ^ 5 - 1). rewrite M, shift_and_mask by div_lia. done.
  - change 15 with (2 ^ 4 - 1). rewrite M by lia. rewrite !shift_and_mask by (rewrite ?shift_and_mask; div_lia). done.
  - change 7 with (2 ^ 3 - 1). rewrite M by lia.
    rewrite !shift_and_mask by (rewrite ?shift_and_mask by (rewrite ?shift_and_mask; div_lia); div_lia). done.
Qed.

(** ** The loops *)

Lemma store_next out todo (x : list Z) cur :
  cur = Z.of_nat (length out) -> (length x <= length todo)%nat ->
  store (out ++ todo) cur x = Some ((out ++ x) ++ drop (length x) todo).
Proof. intros -> H. by rewrite store_behind, app_assoc by done. Qed.

Lemma next_pos (l k : list Z) : Z.of_nat (length l) + Z.of_nat (length k) = Z.of_nat (length (l ++ k)).
Proof. rewrite length_app. lia. Qed.

Lemma group_head g : group g -> exists a g', g = a :: g' /\ head g = Some a.
Proof. destruct 1; simpl; eauto. Qed.

Lemma load_group pre g r : group g -> exists a, load (pre ++ g ++ r) (Z.of_nat (length pre)) = Some a /\ head g = Some a.
Proof. intros (a & g' & -> & E)%group_head. exists a. cbn [app]. by rewrite load_here. Qed.

Lemma to_utf32_ok sgn gs : Forall group gs -> forall fuel pre r end_ out todo cur,
  (length gs <= fuel)%nat -> end_ = Z.of_nat (length pre + length (concat gs)) ->
  cur = Z.of_nat (length out) -> (length gs <= length todo)%nat ->
  utf8_to_utf32_loop sgn fuel (pre ++ concat gs ++ r) end_ (Z.of_nat (length pre)) (out ++ todo) cur =
  Some ((out ++ (val8 <$> gs)) ++ drop (length gs) todo, Z.of_nat (length out + length gs)).
Proof.
  induction 1 as [|g gs Hg _ IH]; intros fuel pre r end_ out todo cur Hf -> -> Hl; simpl in Hf, Hl |- *.
  - rewrite Nat.add_0_r. destruct fuel; simpl; rewrite Z.ltb_irrefl; rewrite app_nil_r, drop_0, Nat.add_0_r; done.
  - pose proof (group_length g Hg). pose proof (group_val g Hg). destruct fuel as [|fuel]; [lia|].
    cbn [utf8_to_utf32_loop]. rewrite (proj2 (Z.ltb_lt _ _)) by (rewrite length_app; lia).
    rewrite <- app_assoc, at_group by done. cbn [mbind option_bind].
    rewrite store_next by (simpl; lia). cbn [mbind option_bind length]. rewrite (wrapu_id 32) by width_lia.
    rewrite next_pos, (app_assoc pre g).
    replace (Z.of_nat (length out) + 1) with (Z.of_nat (length (out ++ [val8 g]))) by (rewrite length_app; simpl; lia).
    rewrite IH; [|lia|rewrite !length_app; lia|done|rewrite length_drop; lia].
    rewrite <- !app_assoc, drop_drop, length_app. simpl. do 2 f_equal. lia.
Qed.

Lemma length32_ok sgn gs : Forall group gs -> forall fuel pre r end_ ret,
  (length gs <= fuel)%nat -> end_ = Z.of_nat (length pre + length (concat gs)) -> 0 <= ret ->
  ret + Z.of_nat (length gs) < 2 ^ 32 ->
  utf8_to_utf32_length_loop sgn fuel (pre ++ concat gs ++ r) end_ (Z.of_nat (length pre)) ret =
  Some (ret + Z.of_nat (length gs)).
Proof.
  induction 1 as [|g gs Hg _ IH]; intros fuel pre r end_ ret Hf -> H0 Hr; simpl in Hf, Hr |- *.
  - rewrite Nat.add_0_r. destruct fuel; simpl; rewrite Z.ltb_irrefl; by rewrite Z.add_0_r.
  - pose proof (group_length g Hg). destruct fuel as [|fuel]; [lia|].
    cbn [utf8_to_utf32_length_loop]. rewrite (proj2 (Z.ltb_lt _ _)) by (rewrite length_app; lia).
    rewrite <- app_assoc. destruct (load_group pre g (concat gs ++ r) Hg) as (a & -> & Ha). cbn [mbind option_bind].
    rewrite (skip_group sgn g a Hg Ha), (wrapu_id 32) by width_lia.
    rewrite next_pos, (app_assoc pre g), IH; [|lia|rewrite !length_app; lia|lia|lia].
    f_equal. lia.
Qed.

Definition units16 (gs : list (list Z)) : list Z := concat ((fun g => enc16 (val8 g)) <$> gs).

Lemma length_enc16 c : length (enc16 c) = if c <=? 0xFFFF then 1%nat else 2%nat.
Proof. unfold enc16. by case_if. Qed.

Lemma store_enc16 c out todo cur : 0 <= c <= kUnicodeMaxCodepoint -> cur = Z.of_nat (length out) ->
  (length (enc16 c) <= length todo)%nat ->
  (if c <=? 0xFFFF then
     dst ← store (out ++ todo) cur [u16 c];
     Some (dst, cur + 1)
   else
     let codepoint := c - 0x10000 in
     dst ← store (out ++ todo) cur [u16 (Z.shiftr codepoint 10 + 0xD800)];
     dst ← store dst (cur + 1) [u16 (Z.land codepoint 0x3FF + 0xDC00)];
     Some (dst, cur + 2)) =
  Some ((out ++ enc16 c) ++ drop (length (enc16 c)) todo, cur + Z.of_nat (length (enc16 c))).
Proof.
  unfold kUnicodeMaxCodepoint. intros Hc -> Hl. rewrite length_enc16 in Hl. unfold enc16.
  destruct (Z.leb_spec c 65535); simpl in Hl; cbv zeta.
  - rewrite store_next, wrapu_id by (simpl; width_lia || lia). done.
  - rewrite store_next by (simpl; lia). cbn [mbind option_bind length].
    rewrite store_next; [|rewrite length_app; simpl; lia|rewrite length_drop; simpl; lia].
    cbn [mbind option_bind]. rewrite drop_drop, <- !app_assoc. change 1023 with (2 ^ 10 - 1).
    rewrite land_ones_mod, Z.shiftr_div_pow2 by lia. change (2 ^ 10) with 1024.
    rewrite !(wrapu_id 16) by div_lia. simpl. by rewrite (Z.add_comm 55296), (Z.add_comm 56320).
Qed.

Lemma to_utf16_ok gs : Forall group gs -> Forall (fun g => val8 g <= kUnicodeMaxCodepoint) gs ->
  forall fuel pre r end_ out todo cur,
  (length gs <= fuel)%nat -> end_ = Z.of_nat (length pre + length (concat gs)) ->
  cur = Z.of_nat (length out) -> (length (units16 gs) <= length todo)%nat ->
  utf8_to_utf16_loop fuel (pre ++ concat gs ++ r) end_ (Z.of_nat (length pre)) (out ++ todo) cur =
  Some ((out ++ units16 gs) ++ drop (length (units16 gs)) todo, Z.of_nat (length out + length (units16 gs))).
Proof.
  induction 1 as [|g gs Hg _ IH]; intros Hm fuel pre r end_ out todo cur Hf -> -> Hl.
  - rewrite Nat.add_0_r. destruct fuel; simpl; rewrite Z.ltb_irrefl; rewrite app_nil_r, drop_0, Nat.add_0_r; done.
  - apply Forall_cons in Hm as [Hm Hms]. unfold units16 in *. cbn [fmap list_fmap concat] in *. simpl in Hf.
    pose proof (group_length g Hg). pose proof (group_val g Hg). destruct fuel as [|fuel]; [lia|].
    cbn [utf8_to_utf16_loop]. rewrite (proj2 (Z.ltb_lt _ _)) by (rewrite length_app; lia).
    rewrite <- app_assoc. destruct (load_group pre g (concat gs ++ r) Hg) as (a & -> & Ha). cbn [mbind option_bind].
    rewrite (codepoint_len_group g a Hg Ha), codepoint_group by done. cbn [mbind option_bind].
    rewrite length_app in Hl. rewrite (store_enc16 (val8 g) out todo) by (done || lia). cbn [mbind option_bind].
    rewrite !next_pos, (app_assoc pre g).
    rewrite IH; [|done|lia|rewrite !length_app; lia|rewrite length_app; done|rewrite length_drop; lia].
    rewrite <- !app_assoc, drop_drop, !length_app. do 2 f_equal. lia.
Qed.

Lemma length16_ok gs : Forall group gs -> forall fuel pre r end_ n,
  (length gs <= fuel)%nat -> end_ = Z.of_nat (length pre + length (concat gs)) -> 0 <= n ->
  n + Z.of_nat (length (units16 gs)) < 2 ^ 32 ->
  utf8_to_utf16_length_loop fuel (pre ++ concat gs ++ r) end_ (Z.of_nat (length pre)) n =
  Some (end_, n + Z.of_nat (length (units16 gs))).
Proof.
  induction 1 as [|g gs Hg _ IH]; intros fuel pre r end_ n Hf -> H0 Hn.
  - cbn [concat length units16 fmap list_fmap] in *. rewrite Nat.add_0_r in *. destruct fuel; simpl; rewrite Z.ltb_irrefl; f_equal; f_equal; lia.
  - unfold units16 in *. cbn [fmap list_fmap concat] in *. simpl in Hf. rewrite !length_app, length_enc16 in *.
    pose proof (group_length g Hg). destruct fuel as [|fuel]; [lia|].
    cbn [utf8_to_utf16_length_loop]. rewrite (proj2 (Z.ltb_lt _ _)) by lia.
    rewrite <- app_assoc. destruct (load_group pre g (concat gs ++ r) Hg) as (a & -> & Ha). cbn [mbind option_bind].
    rewrite (codepoint_len_group g a Hg Ha), codepoint_group by done. cbn [mbind option_bind].
    rewrite next_pos, (app_assoc pre g).
    destruct (Z.ltb_spec 65535 (val8 g)), (Z.leb_spec (val8 g) 65535); try lia;
      rewrite (wrapu_id 32 (n + 1)) by width_lia; rewrite ?(wrapu_id 32 (n + 1 + 1)) by width_lia; (rewrite IH; [|lia|rewrite !length_app; lia|lia|lia]); f_equal; f_equal; lia.
Qed.

(** ** Into UTF-8: characters that are none are dropped *)

#[export] Instance is_scalar_dec c : Decision (is_scalar c).
Proof. unfold is_scalar. apply _. Defined.

Definition out8 (cs : list Z) : list Z := text8 (filter is_scalar cs).

Lemma out8_cons c cs : out8 (c :: cs) = (if decide (is_scalar c) then enc8 c else []) ++ out8 cs.
Proof. unfold out8, text8. rewrite filter_cons. by case_decide. Qed.

Lemma to_utf8_any c : 0 <= c ->
  let e := if decide (is_scalar c) then enc8 c else [] in
  utf32_codepoint_utf8_length c = Z.of_nat (length e) /\ utf32_codepoint_to_utf8 c (Z.of_nat (length e)) = e.
Proof.
  intros H0. case_decide as Hs; cbv zeta; [by apply to_utf8_enc|].
  destruct (codepoint_cases c H0) as [[E _]|[? _]]; done.
Qed.

Lemma from_utf32_ok cs : Forall (fun c => 0 <= c) cs -> forall pre r out todo cur,
  cur = Z.of_nat (length out) -> (length (out8 cs) <= length todo)%nat ->
  utf32_to_utf8_loop (length cs) (pre ++ cs ++ r) (Z.of_nat (length pre)) (out ++ todo) cur =
  Some ((out ++ out8 cs) ++ drop (length (out8 cs)) todo, Z.of_nat (length out + length (out8 cs))).
Proof.
  induction 1 as [|c cs Hc _ IH]; intros pre r out todo cur -> Hl.
  - simpl. by rewrite app_nil_r, drop_0, Nat.add_0_r.
  - rewrite out8_cons in *. cbn [length utf32_to_utf8_loop app]. rewrite load_here. cbn [mbind option_bind].
    destruct (to_utf8_any c Hc) as [E1 E2]. rewrite E1, E2. set (e := if decide _ then _ else _) in *.
    rewrite length_app in *. rewrite store_next by (done || lia). cbn [mbind option_bind]. rewrite next_pos.
    change (c :: cs ++ r) with ([c] ++ cs ++ r). rewrite (app_assoc pre).
    replace (Z.of_nat (length pre) + 1) with (Z.of_nat (length (pre ++ [c]))) by (rewrite length_app; simpl; lia).
    rewrite IH; [|done|rewrite length_drop; lia]. rewrite <- !app_assoc, drop_drop, !length_app. do 2 f_equal. lia.
Qed.

Lemma length_from_utf32 cs : Forall (fun c => 0 <= c) cs -> forall pre r ret,
  0 <= ret -> ret + Z.of_nat (length (out8 cs)) < 2 ^ 32 ->
  length32_loop (length cs) (pre ++ cs ++ r) (Z.of_nat (length pre)) ret = Some (ret + Z.of_nat (length (out8 cs))).
Proof.
  induction 1 as [|c cs Hc _ IH]; intros pre r ret H0 Hl.
  - simpl. by rewrite Z.add_0_r.
  - rewrite out8_cons in *. cbn [length length32_loop app]. rewrite load_here. cbn [mbind option_bind].
    destruct (to_utf8_any c Hc) as [E1 E2]. rewrite E1. set (e := if decide _ then _ else _) in *.
    rewrite length_app in *. rewrite (wrapu_id 32) by width_lia.
    change (c :: cs ++ r) with ([c] ++ cs ++ r). rewrite (app_assoc pre).
    replace (Z.of_nat (length pre) + 1) with (Z.of_nat (length (pre ++ [c]))) by (rewrite length_app; simpl; lia).
    rewrite IH by lia. f_equal. lia.
Qed.

(** A character that UTF-16 text can hold: a scalar value, or a low surrogate
    on its own. *)
Definition char16 (c : Z) : Prop := 0 <= c <= kUnicodeMaxCodepoint /\ ~ (0xD800 <= c <= 0xDBFF).

Lemma land_FC00 c : 0 <= c < 0x10000 -> Z.land c 0xFC00 = c / 1024 * 1024.
Proof.
  intros Hc. change 0xFC00 with (Z.shiftl (2 ^ 6 - 1) 10). apply Z.bits_inj'. intros i Hi.
  change 1024 with (2 ^ 10). rewrite <- Z.shiftr_div_pow2, <- Z.shiftl_mul_pow2, Z.land_spec by lia.
  destruct (Z.lt_ge_cases i 10) as [|H].
  - by rewrite !Z.shiftl_spec_low, andb_false_r by lia.
  - rewrite !Z.shiftl_spec by lia. rewrite Z.shiftr_spec by lia. replace (i - 10 + 10) with i by lia.
    rewrite <- (Z.mod_small c (2 ^ 16)) by lia.
    destruct (Z.lt_ge_cases (i - 10) 6).
    + replace (2 ^ 6 - 1) with (Z.ones 6) by reflexivity. rewrite (Z.ones_spec_low 6) by lia. by rewrite andb_true_r.
    + rewrite Z.mod_pow2_bits_high by lia. done.
Qed.

Lemma is_high_iff c : 0 <= c < 0x10000 -> is_high c = (0xD800 <=? c) && (c <=? 0xDBFF).
Proof.
  intros Hc. unfold is_high. rewrite land_FC00 by done.
  destruct (Z.eqb_spec (c / 1024 * 1024) 0xD800), (Z.leb_spec 0xD800 c), (Z.leb_spec c 0xDBFF); div_lia || done.
Qed.

Lemma is_low_iff c : 0 <= c < 0x10000 -> is_low c = (0xDC00 <=? c) && (c <=? 0xDFFF).
Proof.
  intros Hc. unfold is_low. rewrite land_FC00 by done.
  destruct (Z.eqb_spec (c / 1024 * 1024) 0xDC00), (Z.leb_spec 0xDC00 c), (Z.leb_spec c 0xDFFF); div_lia || done.
Qed.

(** A character is one unit that is no high surrogate, or a pair. *)
Lemma enc16_cases c : char16 c ->
  (enc16 c = [c] /\ is_high c = false) \/
  (exists h l, enc16 c = [h; l] /\ is_high h = true /\ is_low l = true /\ is_scalar c /\
     utf32_codepoint_utf8_length c = 4 /\
     u32 (Z.lor (Z.shiftl (h - 0xD800) 10) (u32 (l - 0xDC00)) + 0x10000) = c).
Proof.
  unfold char16, enc16, kUnicodeMaxCodepoint. intros [Hc Hs]. destruct (Z.leb_spec c 0xFFFF).
  - left. split; [done|]. rewrite is_high_iff by lia. destruct (Z.leb_spec 0xD800 c), (Z.leb_spec c 0xDBFF); (lia || done).
  - right. do 2 eexists. split; [done|]. rewrite is_high_iff, is_low_iff by div_lia.
    split_and!; try (apply andb_true_intro; split; apply Z.leb_le; div_lia).
    + unfold is_scalar, kUnicodeMaxCodepoint, kUnicodeSurrogateEnd. lia.
    + unfold utf32_codepoint_utf8_length, kUnicodeMaxCodepoint. repeat case_if; lia.
    + replace (55296 + (c - 65536) / 1024 - 55296) with ((c - 65536) / 1024) by lia.
      replace (56320 + (c - 65536) mod 1024 - 56320) with ((c - 65536) mod 1024) by lia.
      rewrite (wrapu_id 32 (_ mod _)), lor_shiftl by (lia || div_lia). rewrite wrapu_id by div_lia. div_lia.
Qed.

Lemma text16_cons c cs : text16 (c :: cs) = enc16 c ++ text16 cs.
Proof. done. Qed.

Lemma from_utf16_ok cs : Forall char16 cs -> forall fuel pre r end_ out todo cur,
  (length cs <= fuel)%nat -> end_ = Z.of_nat (length pre + length (text16 cs)) ->
  cur = Z.of_nat (length out) -> (length (out8 cs) <= length todo)%nat ->
  utf16_to_utf8_loop fuel (pre ++ text16 cs ++ r) end_ (Z.of_nat (length pre)) (out ++ todo) cur =
  Some ((out ++ out8 cs) ++ drop (length (out8 cs)) todo, Z.of_nat (length out + length (out8 cs))).
Proof.
  induction 1 as [|c cs Hc _ IH]; intros fuel pre r end_ out todo cur Hf -> -> Hl.
  - change (text16 []) with (@nil Z). change (out8 []) with (@nil Z). cbn [length]. rewrite !Nat.add_0_r.
    destruct fuel; simpl; rewrite Z.ltb_irrefl; by rewrite app_nil_r, drop_0.
  - rewrite text16_cons, out8_cons, !length_app in *. simpl in Hf. destruct fuel as [|fuel]; [lia|].
    destruct (to_utf8_any c (proj1 (proj1 Hc))) as [E1 E2]. set (e := if decide _ then _ else _) in *.
    assert (Hn : Z.of_nat (length pre) < Z.of_nat (length pre + (length (enc16 c) + length (text16 cs))))
      by (rewrite length_enc16; case_if; lia).
    cbn [utf16_to_utf8_loop]. rewrite (proj2 (Z.ltb_lt _ _)) by done.
    destruct (enc16_cases c Hc) as [[Ee Hh]|(h & l & Ee & Hh & _ & _ & _ & Ev)]; rewrite Ee; cbn [app length];
      rewrite load_here; cbn [mbind option_bind]; rewrite Hh; cbn [mbind option_bind].
    2: rewrite load_app by lia; change (load (h :: l :: text16 cs ++ r) 1) with (Some l);
      cbn [mbind option_bind]; rewrite Ev.
    all: cbv zeta; rewrite E1, E2, store_next by (done || lia); cbn [mbind option_bind]; rewrite next_pos.
    + change (c :: text16 cs ++ r) with ([c] ++ text16 cs ++ r). rewrite (app_assoc pre).
      change 1 with (Z.of_nat (length [c])). rewrite (next_pos pre [c]).
      rewrite IH; [|lia|rewrite !length_app; simpl; lia|done|rewrite length_drop; lia].
      rewrite <- !app_assoc, drop_drop, !length_app. do 2 f_equal. lia.
    + change (h :: l :: text16 cs ++ r) with ([h; l] ++ text16 cs ++ r). rewrite (app_assoc pre).
      change 2 with (Z.of_nat (length [h; l])). rewrite (next_pos pre [h; l]).
      rewrite IH; [|lia|rewrite !length_app; simpl; lia|done|rewrite length_drop; lia].
      rewrite <- !app_assoc, drop_drop, !length_app. do 2 f_equal. lia.
Qed.

Lemma length_from_utf16 cs : Forall char16 cs -> forall fuel pre r end_ ret,
  (length cs <= fuel)%nat -> end_ = Z.of_nat (length pre + length (text16 cs)) ->
  0 <= ret -> ret + Z.of_nat (length (out8 cs)) < 2 ^ 32 ->
  length16_loop fuel (pre ++ text16 cs ++ r) end_ (Z.of_nat (length pre)) ret =
  Some (ret + Z.of_nat (length (out8 cs))).
Proof.
  induction 1 as [|c cs Hc _ IH]; intros fuel pre r end_ ret Hf -> H0 Hl.
  - change (text16 []) with (@nil Z). change (out8 []) with (@nil Z). cbn [length]. rewrite !Nat.add_0_r.
    destruct fuel; simpl; rewrite Z.ltb_irrefl; by rewrite Z.add_0_r.
  - rewrite text16_cons, out8_cons, !length_app in *. simpl in Hf. destruct fuel as [|fuel]; [lia|].
    destruct (to_utf8_any c (proj1 (proj1 Hc))) as [E1 _].
    assert (Hn : Z.of_nat (length pre) < Z.of_nat (length pre + (length (enc16 c) + length (text16 cs))))
      by (rewrite length_enc16; case_if; lia).
    cbn [length16_loop]. rewrite (proj2 (Z.ltb_lt _ _)) by done.
    destruct (enc16_cases c Hc) as [[Ee Hh]|(h & l & Ee & Hh & Hlow & Hs & E4 & _)]; rewrite Ee in *; cbn [app length] in *;
      rewrite load_here; cbn [mbind option_bind]; rewrite Hh; cbn [andb].
    + rewrite E1 in *. set (e := if decide _ then _ else _) in *. rewrite (wrapu_id 32) by width_lia.
      change (c :: text16 cs ++ r) with ([c] ++ text16 cs ++ r). rewrite (app_assoc pre).
      change 1 with (Z.of_nat (length [c])). rewrite (next_pos pre [c]).
      rewrite IH; [f_equal; lia|lia|rewrite !length_app; simpl; lia|lia|lia].
    + rewrite E1 in E4. rewrite decide_True in * by done. rewrite (proj2 (Z.ltb_lt _ _)) by lia.
      rewrite load_app by lia. change (load (h :: l :: text16 cs ++ r) 1) with (Some l). cbn [mbind option_bind].
      rewrite Hlow, (wrapu_id 32) by width_lia.
      change (h :: l :: text16 cs ++ r) with ([h; l] ++ text16 cs ++ r). rewrite (app_assoc pre).
      change 2 with (Z.of_nat (length [h; l])). rewrite (next_pos pre [h; l]).
      rewrite IH; [f_equal; lia|lia|rewrite !length_app; simpl; lia|lia|lia].
Qed.

(** ** Texts as groups *)

Definition groups_of (cs : list Z) : list (list Z) := enc8 <$> cs.

Lemma groups_of_scalars cs : Forall is_scalar cs ->
  Forall group (groups_of cs) /\ val8 <$> groups_of cs = cs /\ units16 (groups_of cs) = text16 cs /\ out8 cs = text8 cs.
Proof.
  intros H. unfold groups_of, units16, text16, out8. split_and!.
  - apply Forall_fmap. eapply Forall_impl; [exact H|]. intros c Hc. by apply enc8_group.
  - induction H as [|c cs Hc _ IH]; [done|]. simpl. f_equal; [by apply enc8_group|done].
  - f_equal. induction H as [|c cs Hc _ IH]; [done|]. simpl. f_equal; [|done]. by rewrite (proj2 (enc8_group c Hc)).
  - by rewrite filter_all.
Qed.

Lemma length_concat_groups gs : Forall group gs -> (length gs <= length (concat gs))%nat.
Proof.
  induction 1 as [|g gs Hg _ IH]; [done|]. pose proof (group_length g Hg). simpl. rewrite length_app. lia.
Qed.

Lemma length_units16 gs : Forall group gs -> (length (units16 gs) <= length (concat gs))%nat.
Proof.
  induction 1 as [|g gs Hg _ IH]; [done|]. unfold units16 in *. cbn [fmap list_fmap concat] in *.
  rewrite !length_app, length_enc16.
  assert (E : val8 g <=? 0xFFFF = false -> length g = 4%nat).
  { intros E. bool_to_prop. destruct Hg; simpl in *; try done; div_lia. }
  pose proof (group_length g Hg). case_if; [lia|]. rewrite E by done. lia.
Qed.
