(* ===== verification/UnicodeConv.v ===== *)
(** * system/libutils/Unicode.cpp: conversions between UTF-8, UTF-16 and UTF-32

    The theorems about whole conversions, and where they go wrong. *)

From S2P Require Import Prelude Unicode UnicodeText.

(** ** [utf8_length] *)

Definition utf8_char (g : list Z) : Prop := group g /\ val8 g <= kUnicodeMaxCodepoint.

(** What [utf8_length] accepts: it does not object to characters that are
    encoded longer than necessary, nor to surrogates. *)
Definition is_utf8 (s : list Z) : Prop := exists gs, s = concat gs /\ Forall utf8_char gs.

(** The first group of a text, and what follows it. *)
Definition contb (b : Z) : bool := (0x80 <=? b) && (b <? 0xC0).

Fixpoint take_conts (n : nat) (s : list Z) : option (list Z * list Z) :=
  match n, s with
  | O, _ => Some ([], s)
  | S n, b :: s => if contb b then '(k, r) ← take_conts n s; Some (b :: k, r) else None
  | S n, [] => None
  end.

Definition conts_of (a : Z) : option nat :=
  if a <? 0x80 then Some 0%nat else if a <? 0xC0 then None else if a <? 0xE0 then Some 1%nat
  else if a <? 0xF0 then Some 2%nat else if a <? 0xF8 then Some 3%nat else None.

Definition take_group (s : list Z) : option (list Z * list Z) :=
  match s with
  | [] => None
  | a :: s => n ← conts_of a; '(k, r) ← take_conts n s; Some (a :: k, r)
  end.

Lemma contb_iff b : contb b = true <-> cont b.
Proof. unfold contb, cont. rewrite andb_true_iff, Z.leb_le, Z.ltb_lt. done. Qed.

Lemma take_conts_spec n : forall s k r,
  take_conts n s = Some (k, r) <-> s = k ++ r /\ length k = n /\ Forall cont k.
Proof.
  induction n as [|n IH]; intros s k r; simpl.
  - split; [intros [= <- <-]; done|]. intros (-> & E & _). by apply length_zero_iff_nil in E as ->.
  - destruct s as [|b s].
    + split; [done|]. intros (E & Hl & _). destruct k; simpl in *; done.
    + destruct (contb b) eqn:Eb.
      * apply contb_iff in Eb. split.
        -- intros H. destruct (take_conts n s) as [[k' r']|] eqn:E; [|done]. simpl in H. simplify_eq.
           apply IH in E as (-> & <- & Hk). split_and!; [done..|by constructor].
        -- intros (E & Hl & Hk). destruct k as [|b' k]; [done|]. simplify_eq/=.
           apply Forall_cons in Hk as [_ Hk]. by rewrite (proj2 (IH _ k r)).
      * split; [done|]. intros (E & Hl & Hk). destruct k as [|b' k]; [done|]. simplify_eq/=.
        apply Forall_cons in Hk as [Hb _]. apply contb_iff in Hb. congruence.
Qed.

Lemma group_shape a k : 0 <= a -> group (a :: k) <-> conts_of a = Some (length k) /\ Forall cont k.
Proof.
  intros H0. unfold conts_of. split.
  - inversion 1; subst; simpl; (split; [|auto 6 using List.Forall_nil, List.Forall_cons]); repeat case_if; try done; lia.
  - intros [E Hk]. repeat case_if; simplify_eq; repeat (destruct k as [|? k]; simpl in *; try done);
      decompose_Forall_hyps; constructor; (done || lia).
Qed.

Lemma take_group_spec s g r : Forall (fun b => 0 <= b) s -> take_group s = Some (g, r) <-> s = g ++ r /\ group g.
Proof.
  intros Hs. destruct s as [|a s]; simpl.
  { split; [done|]. intros [E Hg]. apply eq_sym, app_nil in E as [-> _]. inversion Hg. }
  apply Forall_cons in Hs as [Ha _]. split.
  - intros H. destruct (conts_of a) as [n|] eqn:En; [|done]. cbn [mbind option_bind] in H.
    destruct (take_conts n s) as [[k r']|] eqn:E; [|done]. cbn [mbind option_bind] in H. simplify_eq.
    apply take_conts_spec in E as (-> & <- & Hk). split; [done|]. by apply group_shape.
  - intros [E Hg]. destruct g as [|a' k]; [inversion Hg|]. simplify_eq/=. apply group_shape in Hg as [En Hk]; [|done].
    rewrite En. cbn [mbind option_bind]. by rewrite (proj2 (take_conts_spec _ _ k r)).
Qed.

(** The text is UTF-8 if its first group and the rest are. *)
Lemma is_utf8_cons s : Forall (fun b => 0 <= b) s -> s <> [] ->
  is_utf8 s <-> exists g r, take_group s = Some (g, r) /\ val8 g <= kUnicodeMaxCodepoint /\ is_utf8 r.
Proof.
  intros Hs Hn. split.
  - intros (gs & E & Hgs). destruct Hgs as [|g gs [Hg Hv] Hgs]; [done|]. exists g, (concat gs).
    split; [by apply take_group_spec|]. split; [done|]. by exists gs.
  - intros (g & r & E & Hv & gs & -> & Hgs). apply take_group_spec in E as [-> Hg]; [|done].
    exists (g :: gs). split; [done|]. by constructor.
Qed.

Lemma land_C0 b : is_byte b -> (Z.land b 0xC0 =? 0x80) = contb b.
Proof. intros Hb. by_byte b (fun b => eqb (Z.land b 0xC0 =? 0x80) (contb b)). by apply eqb_true_iff. Qed.

(** One round of the loop over the bytes that follow the first. *)
Lemma tail_step f mem a b cur n mask ig v :
  n < 5 -> Z.land a mask <> 0 -> is_byte b -> load mem cur = Some b -> 0 <= a < 256 ->
  tail_loop false (S f) mem a cur n mask ig v =
  if contb b then tail_loop false f mem a (cur + 1) (n + 1) (Z.shiftr mask 1) (Z.lor ig mask)
                    (u32 (u32 (Z.shiftl v 6) + b mod 64))
  else Some None.
Proof.
  intros Hn Hm Hb Hl Ha. cbn [tail_loop]. rewrite (proj2 (Z.ltb_lt _ _)), (proj2 (Z.eqb_neq _ _)), Hl by done.
  cbn [andb negb mbind option_bind]. rewrite !land_chr, land_C0 by (done || lia).
  change 63 with (2 ^ 6 - 1). rewrite land_ones_mod by lia. by destruct (contb b).
Qed.

Lemma tail_stop f mem a cur n mask ig v : Z.land a mask = 0 \/ 5 <= n ->
  tail_loop false (S f) mem a cur n mask ig v = Some (Some (n, Z.lor ig mask, v, cur)).
Proof.
  intros H. cbn [tail_loop]. destruct (Z.ltb_spec n 5); [|done]. destruct H as [->|]; [done|lia].
Qed.

(** The loop takes the bytes that the first one asks for, if they are there. *)
Definition tail_result (pre : list Z) (a : Z) (s : list Z) (res : option (Z * Z * Z * Z)) : Prop :=
  match take_group (a :: s) with
  | Some (g, rest) => exists ig v, res = Some (Z.of_nat (length g), ig, v, Z.of_nat (length pre + length g)) /\
      Z.lor v (u32 (Z.shiftl (Z.land (Z.lnot ig) a) (6 * (Z.of_nat (length g) - 1)))) = val8 g
  | None => res = None \/ exists ig v cur, res = Some (5, ig, v, cur)
  end.

Lemma join_lead a m ig v n :
  is_byte a -> m = 3 \/ m = 4 \/ m = 5 -> n = 6 * (6 - m) -> 0 <= v < 2 ^ n -> Z.land (Z.lnot ig) 255 = 2 ^ m - 1 ->
  Z.lor v (u32 (Z.shiftl (Z.land (Z.lnot ig) a) n)) = a mod 2 ^ m * 2 ^ n + v.
Proof.
  intros Ha Hm -> Hv E.
  replace a with (Z.land 255 a) at 1 by (rewrite Z.land_comm, land_255; by apply Z.mod_small).
  rewrite Z.land_assoc, E, Z.land_comm, land_ones_mod by lia. rewrite Z.lor_comm.
  rewrite wrapu_id, lor_shiftl by (destruct Hm as [->|[->| ->]]; simpl in *; rewrite ?Z.shiftl_mul_pow2 by lia;
    simpl; first [lia|div_lia]). done.
Qed.

Lemma shift_in v t : 0 <= v < 2 ^ 26 -> 0 <= t < 64 -> u32 (u32 (Z.shiftl v 6) + t) = v * 64 + t.
Proof. intros Hv Ht. rewrite Z.shiftl_mul_pow2 by lia. rewrite (wrapu_id 32 (_ * _)), wrapu_id by width_lia. done. Qed.

Ltac join_side := solve [auto | unfold is_byte; lia | reflexivity | div_lia].
Ltac at_byte := solve [done | lia | unfold is_byte; lia |
  rewrite <- ?Z.add_assoc, load_app by lia; reflexivity].

(** One byte more: it is the NUL, it is no continuation, or the loop goes on. *)
Ltac pull t b E :=
  destruct t as [|b t];
  [ rewrite (tail_step _ _ _ 0) by at_byte; eexists; split; [reflexivity|]; by left
  | match goal with H : Forall _ (b :: t) |- _ => apply Forall_cons in H as [? H] end;
    rewrite (tail_step _ _ _ b) by at_byte; cbn [take_conts];
    change (Z.shiftr 64 1) with 32; change (Z.shiftr 32 1) with 16; change (Z.shiftr 16 1) with 8;
    destruct (contb b) eqn:E;
    [apply contb_iff in E|eexists; split; [reflexivity|]; by left] ].

Lemma tail_ok pre a s r : 0xC0 <= a < 256 -> is_cstr s -> exists res,
  tail_loop false 5 (pre ++ a :: s ++ 0 :: r) a (Z.of_nat (length pre) + 1) 1 0x40 0x80 0 = Some res /\
  tail_result pre a s res.
Proof.
  intros Ha Hs. destruct (lead_bits a) as (L1 & L2 & L3 & L4 & L5); [lia|].
  unfold tail_result, take_group, conts_of, is_cstr in *. rewrite (proj2 (Z.ltb_ge a 0x80)), (proj2 (Z.ltb_ge a 0xC0)) by lia.
  destruct (Z.ltb_spec a 0xE0); [|destruct (Z.ltb_spec a 0xF0); [|destruct (Z.ltb_spec a 0xF8)]]; cbn [mbind option_bind].
  - pull s b Eb. rewrite tail_stop by (left; lia). eexists. split; [reflexivity|]. do 2 eexists.
    split; [by rewrite Nat2Z.inj_add, <- Z.add_assoc|]. change (6 * (Z.of_nat (length [a; b]) - 1)) with 6.
    rewrite !shift_in by div_lia. by rewrite (join_lead a 5) by join_side.
  - pull s b Eb. pull s c Ec. rewrite tail_stop by (left; lia). eexists. split; [reflexivity|]. do 2 eexists.
    split; [by rewrite Nat2Z.inj_add, <- !Z.add_assoc|]. change (6 * (Z.of_nat (length [a; b; c]) - 1)) with 12.
    rewrite !shift_in by (rewrite ?shift_in; div_lia). rewrite (join_lead a 4) by join_side.
    cbn [val8]. eval_pow2. lia.
  - pull s b Eb. pull s c Ec. pull s d Ed. rewrite tail_stop by (left; lia). eexists. split; [reflexivity|].
    do 2 eexists. split; [by rewrite Nat2Z.inj_add, <- !Z.add_assoc|]. change (6 * (Z.of_nat (length [a; b; c; d]) - 1)) with 18.
    rewrite !shift_in by (rewrite ?shift_in by (rewrite ?shift_in; div_lia); div_lia).
    rewrite (join_lead a 3) by join_side. cbn [val8]. eval_pow2. lia.
  - pull s b Eb. pull s c Ec. pull s d Ed. pull s e Ee. rewrite tail_stop by (right; lia).
    eexists. split; [reflexivity|]. right. eauto.
Qed.

Lemma cstr_nonneg s : is_cstr s -> Forall (fun b => 0 <= b) s.
Proof. intros H. eapply Forall_impl; [exact H|]. simpl. lia. Qed.

Lemma take_group_rest s g r : is_cstr s -> take_group s = Some (g, r) -> s = g ++ r /\ group g /\ is_cstr r.
Proof.
  intros Hs E. apply take_group_spec in E as [-> Hg]; [|by apply cstr_nonneg]. split_and!; [done..|].
  unfold is_cstr in *. by apply Forall_app in Hs as [_ ?].
Qed.

Definition length_answer (s : list Z) (ret k : Z) : Prop :=
  is_utf8 s /\ k = ret + Z.of_nat (length s) \/ ~ is_utf8 s /\ k = -1.

(** After the first group. *)
Lemma answer_step s g r ret k : is_cstr s -> take_group s = Some (g, r) -> val8 g <= kUnicodeMaxCodepoint ->
  length_answer r (ret + Z.of_nat (length g)) k -> length_answer s ret k.
Proof.
  intros Hs E Hv H. destruct (take_group_rest s g r Hs E) as (Es & Hg & _). pose proof (group_length g Hg).
  assert (Hn : s <> []) by (intros ->; destruct g; simpl in *; [lia|done]).
  pose proof (is_utf8_cons s (cstr_nonneg s Hs) Hn) as Hc. unfold length_answer. rewrite Hc.
  destruct H as [[Hr ->]|[Hr ->]]; [left|right]; split; try done.
  - eauto 6.
  - rewrite Es, length_app. lia.
  - intros (g' & r' & E' & _ & Hr'). rewrite E in E'. by simplify_eq.
Qed.

Lemma answer_bad s ret : is_cstr s -> s <> [] ->
  (forall g r, take_group s = Some (g, r) -> kUnicodeMaxCodepoint < val8 g) -> length_answer s ret (-1).
Proof.
  intros Hs Hn H. right. split; [|done]. rewrite is_utf8_cons by (done || by apply cstr_nonneg).
  intros (g & r & E & Hv & _). specialize (H g r E). lia.
Qed.

Lemma utf8_length_loop_ok fuel : forall s pre r ret,
  is_cstr s -> (length s < fuel)%nat -> 0 <= ret -> ret + Z.of_nat (length s) < 2 ^ 31 ->
  exists k, utf8_length_loop false fuel (pre ++ s ++ 0 :: r) (Z.of_nat (length pre)) ret = Some k /\ length_answer s ret k.
Proof.
  induction fuel as [|fuel IH]; intros s pre r ret Hs Hf H0 Hr; [lia|]. cbn [utf8_length_loop].
  destruct s as [|a s].
  { simpl app. rewrite load_here. cbn [mbind option_bind Z.eqb]. eexists. split; [done|]. left.
    split; [by exists []|]. simpl in *. rewrite Z.add_0_r in *. apply wraps_id; width_lia. }
  assert (IHg : forall g rest, take_group (a :: s) = Some (g, rest) -> val8 g <= kUnicodeMaxCodepoint ->
    exists k, utf8_length_loop false fuel (pre ++ (a :: s) ++ 0 :: r) (Z.of_nat (length pre + length g))
      (u32 (ret + Z.of_nat (length g))) = Some k /\ length_answer (a :: s) ret k).
  { intros g rest E Hv. destruct (take_group_rest _ _ _ Hs E) as (Es & Hg & Hrest). pose proof (group_length g Hg).
    assert (L : length (a :: s) = (length g + length rest)%nat) by (by rewrite Es, length_app).
    rewrite (wrapu_id 32) by width_lia. rewrite Es, <- app_assoc, (app_assoc pre), <- length_app.
    destruct (IH rest (pre ++ g) r (ret + Z.of_nat (length g)) Hrest) as (k & -> & Hk); [lia..|].
    exists k. split; [done|]. rewrite <- Es. by eapply answer_step. }
  cbn [app] in *. rewrite load_here. cbn [mbind option_bind]. apply Forall_cons in Hs as Ha. destruct Ha as [Ha Hs'].
  rewrite (proj2 (Z.eqb_neq _ _)) by lia. unfold chr at 1 2 3 4. rewrite !(wrapu_id 8) by width_lia.
  rewrite land_128 by (unfold is_byte; lia). destruct (Z.ltb_spec a 128).
  { destruct (IHg [a] s) as (k & E & Hk); [|unfold val8, kUnicodeMaxCodepoint; lia|].
    - unfold take_group, conts_of. by rewrite (proj2 (Z.ltb_lt a 0x80)).
    - exists k. split; [|done]. rewrite <- E. f_equal; simpl; lia. }
  destruct (lead_bits a) as (_ & L2 & _); [lia|]. destruct (Z.eqb_spec (Z.land a 64) 0) as [E64|E64].
  { exists (-1). split; [done|]. apply answer_bad; [done..|]. intros g rest. unfold take_group, conts_of.
    rewrite (proj2 (Z.ltb_ge a 0x80)), (proj2 (Z.ltb_lt a 0xC0)) by lia. done. }
  destruct (tail_ok pre a s r) as (res & -> & Hres); [lia|done|]. cbn [mbind option_bind].
  unfold tail_result in Hres. destruct (take_group (a :: s)) as [[g rest]|] eqn:E.
  - destruct Hres as (ig & v & -> & Ev). rewrite Ev.
    destruct (take_group_rest _ _ _ Hs E) as (_ & Hg & _). pose proof (group_length g Hg).
    rewrite (proj2 (Z.eqb_neq _ _)) by lia. destruct (Z.ltb_spec kUnicodeMaxCodepoint (val8 g)) as [Hv|Hv].
    + exists (-1). split; [done|]. apply answer_bad; [done..|]. intros g' r' E'. rewrite E in E'. by simplify_eq.
    + by apply (IHg g rest).
  - exists (-1). split; [destruct Hres as [->|(ig & v & cur & ->)]; done|].
    apply answer_bad; [done..|]. intros g r' E'. congruence.
Qed.

(** ** Whole conversions *)

(** The announced length is that of the output, and a destination with one place
    more holds the output and a NUL. *)
Definition converts (announced : option Z) (conv : list Z -> option (list Z)) (out : list Z) : Prop :=
  announced = Some (Z.of_nat (length out)) /\
  forall dst, length dst = S (length out) -> conv dst = Some (out ++ [0]).

Lemma store_end (out dst : list Z) : length dst = S (length out) ->
  store (out ++ drop (length out) dst) (Z.of_nat (length out)) [0] = Some (out ++ [0]).
Proof.
  intros H. rewrite (store_next out _ [0]) by (rewrite ?length_drop; simpl; lia).
  rewrite drop_drop, drop_ge by (simpl; lia). by rewrite app_nil_r.
Qed.

Lemma nonempty_length {A} (l : list A) : l <> [] -> Z.of_nat (length l) =? 0 = false.
Proof. destruct l; [done|]. intros _. apply Z.eqb_neq. simpl. lia. Qed.

Lemma length_out8 cs : (length (out8 cs) <= 4 * length cs)%nat.
Proof.
  induction cs as [|c cs IH]; [done|]. rewrite out8_cons, length_app. case_decide as H; [|simpl; lia].
  destruct (enc8_group c H) as [Hg _]. pose proof (group_length _ Hg). simpl. lia.
Qed.

Section conversions.
Variable sgn : bool.
Implicit Types (cs : list Z) (gs : list (list Z)).

Lemma converts_32_8 cs : Forall (fun c => 0 <= c) cs -> cs <> [] -> 4 * Z.of_nat (length cs) < 2 ^ 31 ->
  let n := Z.of_nat (length cs) in
  converts (utf32_to_utf8_length (Some cs) n) (fun dst => mjoin (utf32_to_utf8 (Some cs) n (Some dst))) (out8 cs).
Proof.
  intros H Hn Hl n. pose proof (length_out8 cs) as Ho. unfold n, utf32_to_utf8_length, utf32_to_utf8.
  rewrite nonempty_length, Nat2Z.id by done. split.
  - pose proof (length_from_utf32 cs H [] [] 0) as E. rewrite app_nil_r in E. cbn [app length Nat.add] in E; change (Z.of_nat 0) with 0 in E. rewrite E by width_lia.
    cbn [mbind option_bind]. f_equal. apply wraps_id; width_lia.
  - intros dst Hd. pose proof (from_utf32_ok cs H [] [] [] dst 0 eq_refl) as E. rewrite app_nil_r in E.
    cbn [app length Nat.add] in E; change (Z.of_nat 0) with 0 in E. rewrite E by lia. cbn [mbind option_bind]. by rewrite store_end.
Qed.

Lemma converts_16_8 cs : Forall char16 cs -> cs <> [] -> 4 * Z.of_nat (length cs) < 2 ^ 31 ->
  let n := Z.of_nat (length (text16 cs)) in
  converts (utf16_to_utf8_length (Some (text16 cs)) n) (fun dst => mjoin (utf16_to_utf8 (Some (text16 cs)) n (Some dst)))
    (out8 cs).
Proof.
  intros H Hn Hl n. pose proof (length_out8 cs) as Ho. unfold n, utf16_to_utf8_length, utf16_to_utf8.
  assert (L : (length cs <= length (text16 cs))%nat).
  { clear. induction cs as [|c cs IH]; [done|]. rewrite text16_cons, length_app, length_enc16. simpl. case_if; lia. }
  rewrite nonempty_length, Nat2Z.id by (destruct cs; [done|]; intros E; rewrite E in L; simpl in L; lia). split.
  - pose proof (length_from_utf16 cs H _ [] [] _ 0 L eq_refl) as E. rewrite app_nil_r in E. cbn [app length Nat.add] in E; change (Z.of_nat 0) with 0 in E. rewrite E by width_lia. cbn [mbind option_bind]. f_equal. apply wraps_id; width_lia.
  - intros dst Hd. pose proof (from_utf16_ok cs H _ [] [] _ [] dst 0 L eq_refl eq_refl) as E. rewrite app_nil_r in E.
    cbn [app length Nat.add] in E; change (Z.of_nat 0) with 0 in E. rewrite E by lia. cbn [mbind option_bind]. by rewrite store_end.
Qed.

Lemma converts_8_32 gs r : Forall group gs -> gs <> [] -> Z.of_nat (length (concat gs)) < 2 ^ 31 ->
  let n := Z.of_nat (length (concat gs)) in
  converts (utf8_to_utf32_length sgn (Some (concat gs ++ r)) n)
    (fun dst => mjoin (utf8_to_utf32 sgn (Some (concat gs ++ r)) n (Some dst))) (val8 <$> gs).
Proof.
  intros H Hn Hl n. pose proof (length_concat_groups gs H) as L. unfold n, utf8_to_utf32_length, utf8_to_utf32.
  rewrite nonempty_length, Nat2Z.id by (destruct gs; [done|]; intros E; rewrite E in L; simpl in L; lia). split.
  - pose proof (length32_ok sgn gs H _ [] r _ 0 L eq_refl) as E. cbn [app length Nat.add] in E; change (Z.of_nat 0) with 0 in E.
    rewrite E by width_lia. by rewrite length_fmap.
  - intros dst Hd. rewrite length_fmap in Hd.
    pose proof (to_utf32_ok sgn gs H _ [] r _ [] dst 0 L eq_refl eq_refl) as E.
    cbn [app length Nat.add] in E; change (Z.of_nat 0) with 0 in E. rewrite E by lia. cbn [mbind option_bind].
    rewrite <- (length_fmap val8 gs) at 1 2. by rewrite store_end by (by rewrite length_fmap).
Qed.

Lemma converts_8_16 gs r : Forall group gs -> Forall (fun g => val8 g <= kUnicodeMaxCodepoint) gs ->
  Z.of_nat (length (concat gs)) < 2 ^ 31 ->
  let n := Z.of_nat (length (concat gs)) in
  converts (utf8_to_utf16_length (concat gs ++ r) n) (utf8_to_utf16 (concat gs ++ r) n) (units16 gs).
Proof.
  intros H Hm Hl n. pose proof (length_concat_groups gs H) as L. pose proof (length_units16 gs H) as L16.
  unfold n, utf8_to_utf16_length, utf8_to_utf16, utf8_to_utf16_no_null_terminator. rewrite Nat2Z.id. split.
  - pose proof (length16_ok gs H _ [] r _ 0 L eq_refl) as E. cbn [app length Nat.add] in E; change (Z.of_nat 0) with 0 in E. rewrite E by width_lia.
    cbn [mbind option_bind]. rewrite Z.eqb_refl. simpl. f_equal. apply wraps_id; width_lia.
  - intros dst Hd. pose proof (to_utf16_ok gs H Hm _ [] r _ [] dst 0 L eq_refl eq_refl) as E.
    cbn [app length Nat.add] in E; change (Z.of_nat 0) with 0 in E. rewrite E by lia. cbn [mbind option_bind]. by rewrite store_end.
Qed.
End conversions.


(** C15: the conversions write exactly what their length functions announce, also
    for text that is not valid, which they are documented not to check: from
    UTF-8 that is made of complete groups of a first byte and its continuations
    (to UTF-16 when their values are at most 0x10FFFF), whether [char] is signed
    or not, without reading what follows the text; and from UTF-16 in which
    every high surrogate is followed by a low one (low surrogates alone are left
    out).  A destination of one place more than announced is written in full and
    ended by a NUL.  The texts are not empty and less than 2^31 bytes long (from
    UTF-16, of less than 2^29 characters). *)
Theorem announced_is_written sgn gs r cs :
  Forall group gs -> gs <> [] -> Z.of_nat (length (concat gs)) < 2 ^ 31 ->
  Forall char16 cs -> cs <> [] -> 4 * Z.of_nat (length cs) < 2 ^ 31 ->
  let n8 := Z.of_nat (length (concat gs)) in
  let n16 := Z.of_nat (length (text16 cs)) in
  converts (utf8_to_utf32_length sgn (Some (concat gs ++ r)) n8)
    (fun dst => mjoin (utf8_to_utf32 sgn (Some (concat gs ++ r)) n8 (Some dst))) (val8 <$> gs) /\
  (Forall (fun g => val8 g <= kUnicodeMaxCodepoint) gs ->
   converts (utf8_to_utf16_length (concat gs ++ r) n8) (utf8_to_utf16 (concat gs ++ r) n8)
     (concat (enc16 <$> (val8 <$> gs)))) /\
  converts (utf16_to_utf8_length (Some (text16 cs)) n16)
    (fun dst => mjoin (utf16_to_utf8 (Some (text16 cs)) n16 (Some dst))) (text8 (filter is_scalar cs)).
Proof.
  intros Hg Hn Hl Hc Hcn Hcl n8 n16. split_and!.
  - by apply converts_8_32.
  - intros Hm. rewrite <- list_fmap_compose. by apply converts_8_16.
  - by apply converts_16_8.
Qed.

(** C16: text that [utf8_length] accepts can be converted.  With unsigned [char]s
    it ends for every C string that is not empty and shorter than 2^31 bytes,
    without reading behind the NUL, and answers -1 or the number of bytes: the
    number of bytes for every text in UTF-8, -1 for every text that is not made
    of complete groups with values of at most 0x10FFFF.  Whenever it does not
    answer -1, the conversions to UTF-32 and UTF-16 stay within the text and
    write exactly what they announce. *)
Theorem utf8_accepted_converts sgn s r :
  is_cstr s -> s <> [] -> Z.of_nat (length s) < 2 ^ 31 ->
  let n := Z.of_nat (length s) in
  exists k, utf8_length false (s ++ 0 :: r) = Some k /\
    (~ is_utf8 s -> k = -1) /\
    (forall cs, Forall is_scalar cs -> s = text8 cs -> k = n) /\
    (k <> -1 -> k = n /\ exists cs,
       converts (utf8_to_utf32_length sgn (Some s) n) (fun dst => mjoin (utf8_to_utf32 sgn (Some s) n (Some dst))) cs /\
       converts (utf8_to_utf16_length s n) (utf8_to_utf16 s n) (concat (enc16 <$> cs))).
Proof.
  intros Hs Hne Hl n. destruct (utf8_length_loop_ok (S (length (s ++ 0 :: r))) s [] r 0 Hs) as (k & E & Hk);
    [rewrite length_app; lia|lia|lia|]. exists k. split; [exact E|]. split_and!.
  - intros Hn. by destruct Hk as [[? _]|[_ ?]].
  - intros cs Hcs ->. destruct Hk as [[_ ->]|[Hu _]]; [done|]. exfalso. apply Hu.
    exists (groups_of cs). split; [done|]. apply Forall_fmap. eapply Forall_impl; [exact Hcs|].
    intros c Hc. destruct (enc8_group c Hc) as [Hg Ev]. split; [done|]. simpl. rewrite Ev. apply Hc.
  - intros Hu. destruct Hk as [[Hk ->]|[_ ->]]; [|done]. split; [done|]. destruct Hk as (gs & -> & Hgs).
    assert (Hg : Forall group gs) by (eapply Forall_impl; [exact Hgs|]; by intros ? [? _]).
    exists (val8 <$> gs).
    pose proof (converts_8_32 sgn gs [] Hg) as E32. pose proof (converts_8_16 gs [] Hg) as E16. rewrite app_nil_r in *.
    split.
    + apply E32; [by intros ->|done].
    + rewrite <- list_fmap_compose. apply E16; [|done]. eapply Forall_impl; [exact Hgs|]. by intros ? [_ ?].
Qed.

(** ** Strings of wide characters *)

Section wide.
Implicit Types s t r : list Z.

Lemma strlen16_ok s r : Forall (fun c => c <> 0) s -> strlen16 (s ++ 0 :: r) = Some (Z.of_nat (length s)).
Proof.
  intros H. unfold strlen16.
  enough (E : forall pre fuel, (length s < fuel)%nat ->
    strlen_loop fuel (pre ++ s ++ 0 :: r) (Z.of_nat (length pre)) = Some (Z.of_nat (length pre + length s))).
  { apply (E []). rewrite length_app. simpl. lia. }
  induction H as [|c s Hc _ IH]; intros pre [|fuel] Hf; simpl in Hf; try lia; cbn [strlen_loop app]; rewrite load_here;
    cbn [mbind option_bind].
  - by rewrite Nat.add_0_r.
  - rewrite (proj2 (Z.eqb_neq _ _)) by done. cbn [negb]. change (c :: s ++ 0 :: r) with ([c] ++ s ++ 0 :: r).
    change 1 with (Z.of_nat (length [c])). rewrite app_assoc, next_pos, IH by lia. f_equal. rewrite length_app. simpl. lia.
Qed.

(** [strcmp16] tells strings apart. *)
Lemma strcmp16_ok s : forall t r1 r2, Forall (fun c => c <> 0) s -> Forall (fun c => c <> 0) t ->
  exists d, strcmp16 (s ++ 0 :: r1) (t ++ 0 :: r2) = Some d /\ (d = 0 <-> s = t).
Proof.
  intros t r1 r2 Hs Ht. unfold strcmp16.
  enough (E : forall fuel pre1 pre2, length pre1 = length pre2 -> (length s < fuel)%nat ->
    exists d, strcmp16_loop fuel (pre1 ++ s ++ 0 :: r1) (pre2 ++ t ++ 0 :: r2) (Z.of_nat (length pre1)) = Some d /\
      (d = 0 <-> s = t)).
  { apply (E _ [] []); [done|]. rewrite length_app. simpl. lia. }
  revert t Ht. induction Hs as [|c s Hc _ IH]; intros t Ht fuel pre1 pre2 Hp Hf; (destruct fuel as [|fuel]; [lia|]);
    simpl in Hf; cbn [strcmp16_loop app]; rewrite load_here, Hp; cbn [mbind option_bind].
  - destruct Ht as [|c2 t Hc2 _]; cbn [app]; rewrite load_here; cbn [mbind option_bind].
    + exists 0. done.
    + rewrite (proj2 (Z.eqb_neq _ _)) by lia. eexists. split; [done|]. split; [lia|done].
  - destruct Ht as [|c2 t Hc2 Ht]; cbn [app]; rewrite load_here; cbn [mbind option_bind].
    + rewrite (proj2 (Z.eqb_neq _ _)) by lia. eexists. split; [done|]. split; [lia|done].
    + destruct (Z.eqb_spec (c - c2) 0) as [E|E]; cbn [negb orb].
      * assert (c2 = c) as -> by lia. rewrite (proj2 (Z.eqb_neq _ _)) by done.
        change (c :: s ++ 0 :: r1) with ([c] ++ s ++ 0 :: r1). change (c :: t ++ 0 :: r2) with ([c] ++ t ++ 0 :: r2).
        rewrite !(app_assoc _ [c]). change 1 with (Z.of_nat (length [c])). rewrite <- Hp, next_pos.
        destruct (IH t Ht fuel (pre1 ++ [c]) (pre2 ++ [c])) as (d & -> & Hd); [by rewrite !length_app, Hp|lia|].
        exists d. split; [done|]. rewrite Hd. split; [by intros ->|by intros [= ->]].
      * eexists. split; [done|]. split; [lia|intros [= -> ->]; lia].
Qed.
End wide.

(** ** Witnesses *)


Lemma announced_is_written_witness :
  converts (utf8_to_utf16_length [0xC3; 0xA9; 0xF0; 0x9F; 0x98; 0x80; 0xC3] 6)
    (utf8_to_utf16 [0xC3; 0xA9; 0xF0; 0x9F; 0x98; 0x80; 0xC3] 6) [0xE9; 0xD83D; 0xDE00] /\
  converts (utf16_to_utf8_length (Some [0xDC00; 0x41]) 2)
    (fun dst => mjoin (utf16_to_utf8 (Some [0xDC00; 0x41]) 2 (Some dst))) [0x41].
Proof.
  destruct (announced_is_written true [[0xC3; 0xA9]; [0xF0; 0x9F; 0x98; 0x80]] [0xC3] [0xDC00; 0x41]) as (_ & H1 & H2).
  - repeat constructor; unfold cont; lia.
  - done.
  - done.
  - repeat constructor; unfold kUnicodeMaxCodepoint; lia.
  - done.
  - done.
  - split; [|exact H2]. apply H1. repeat constructor; by vm_compute.
Defined.

Lemma utf8_accepted_converts_witness :
  utf8_length false [0xE2; 0x82; 0xAC; 0] = Some 3 /\
  converts (utf8_to_utf32_length true (Some [0xE2; 0x82; 0xAC]) 3)
    (fun dst => mjoin (utf8_to_utf32 true (Some [0xE2; 0x82; 0xAC]) 3 (Some dst))) [0x20AC].
Proof.
  split; [reflexivity|].
  destruct (utf8_accepted_converts true [0xE2; 0x82; 0xAC] []) as (k & E & _ & _ & Hk).
  - repeat constructor; lia.
  - done.
  - done.
  - vm_compute in E. injection E as <-. destruct Hk as (_ & cs & H & _); [done|].
    assert (cs = [0x20AC]) as ->; [|exact H]. destruct H as [Hl H].
    change (Some 1 = Some (Z.of_nat (length cs))) in Hl. injection Hl as Hl.
    destruct cs as [|c [|d cs]]; simpl in Hl; [lia| |lia].
    specialize (H [0; 0] eq_refl). vm_compute in H. by injection H as <-.
Defined.

(** ** Where they go wrong *)

(** A high surrogate that is not followed by a low one: [utf16_to_utf8_length]
    counts the next unit alone, [utf16_to_utf8] combines the two into another
    character, and writes behind the announced length; at the end of the text it
    reads behind it. *)
Lemma lone_surrogate_overruns :
  utf16_to_utf8_length (Some [0xD800; 0x41]) 2 = Some 1 /\
  utf16_to_utf8 (Some [0xD800; 0x41]) 2 (Some [0; 0]) = None /\
  utf16_to_utf8 (Some [0xD800; 0x41]) 2 (Some [0; 0; 0; 0]) = Some (Some [0xE2; 0x91; 0x81; 0]).
Proof. split_and!; vm_compute; reflexivity. Qed.

Lemma surrogate_at_end_reads_behind dst : utf16_to_utf8 (Some [0xD800]) 1 (Some dst) = None.
Proof. reflexivity. Qed.

(** With signed [char]s [utf8_length] refuses all text that is not ASCII. *)
Lemma signed_char_refuses :
  utf8_length true [0xC3; 0xA9; 0] = Some (-1) /\ utf8_length false [0xC3; 0xA9; 0] = Some 2.
Proof. split; vm_compute; reflexivity. Qed.

(** Characters that are encoded longer than necessary, and surrogates, are
    accepted. *)
Lemma overlong_accepted :
  utf8_length false [0xC0; 0x80; 0] = Some 2 /\ utf8_length false [0xED; 0xA0; 0x80; 0] = Some 3.
Proof. split; vm_compute; reflexivity. Qed.

(** Text that was cut off is read behind its end, and first bytes with seven or
    eight leading ones shift by more than the width. *)
Lemma truncated_reads_behind sgn dst :
  utf8_to_utf32 sgn (Some [0xC3]) 1 (Some dst) = None /\ utf8_to_utf16_length [0xC3] 1 = None.
Proof. destruct sgn; split; reflexivity. Qed.

Lemma lead_FE_shifts sgn : utf32_at_internal sgn [0xFE; 0x80; 0x80; 0x80; 0x80; 0x80; 0x80] 0 = None.
Proof. destruct sgn; vm_compute; reflexivity. Qed.

(** An invalid UTF-32 string has a length, 0 for each invalid character. *)
Lemma invalid_has_length : utf32_to_utf8_length (Some [0xD800]) 1 = Some 0.
Proof. reflexivity. Qed.

(** [strncpy16] copies the low bytes only, stops at a unit whose low byte is 0,
    and writes one unit more than [n]. *)
Lemma strncpy16_bytes sgn :
  strncpy16 sgn [9; 9; 9] [0x141; 0x42] 2 = Some [0x41; 0x42; 0] /\
  strncpy16 sgn [9; 9; 9] [0x100; 0x41] 2 = Some [0; 0; 9] /\
  strncpy16 sgn [9; 9] [0x41; 0x42] 2 = None.
Proof. destruct sgn; split_and!; vm_compute; reflexivity. Qed.

(** Strings of different lengths are equal when what is left starts with a NUL. *)
Lemma strzcmp16_nul : strzcmp16 [0x61] 1 [0x61; 0] 2 = Some 0.
Proof. reflexivity. Qed.
