(* ===== verification/String8.v ===== *)
(** * system/libutils/String8.cpp: byte strings in shared buffers

    A string is a pointer to the bytes of a [SharedBuffer], which end with a NUL;
    all empty strings share one buffer.  Memory is that of [VectorImpl], with
    bytes for items; [None] is undefined behaviour, the use of an uninitialised
    byte included. *)

From S2P Require Import Prelude VectorImpl Unicode.

(** The platform's configuration says what separates the parts of a path name:
    a character other than NUL. *)
Class PathSeparator := {
  OS_PATH_SEPARATOR : Z;
  separator_ok : 0 < OS_PATH_SEPARATOR < 128
}.

#[export] Instance char_type : ItemType Z := {|
  mItemSize := 1; has_trivial_ctor := true; has_trivial_dtor := true;
  has_trivial_copy := true; has_trivial_move := true; default_item := 0
|}.

(** ** C strings of the standard library, on the bytes before the NUL *)

Fixpoint strchr (s : list Z) (c : Z) : option Z :=
  match s with
  | [] => None
  | x :: s => if x =? c then Some 0 else k ← strchr s c; Some (k + 1)
  end.

Fixpoint strrchr (s : list Z) (c : Z) : option Z :=
  match s with
  | [] => None
  | x :: s => match strrchr s c with
              | Some k => Some (k + 1)
              | None => if x =? c then Some 0 else None
              end
  end.

Fixpoint is_prefix (p s : list Z) : bool :=
  match p, s with
  | [], _ => true
  | x :: p, y :: s => (x =? y) && is_prefix p s
  | _ :: _, [] => false
  end.

Fixpoint strstr (s p : list Z) : option Z :=
  if is_prefix p s then Some 0
  else match s with
       | [] => None
       | _ :: s => k ← strstr s p; Some (k + 1)
       end.

(** Its sign is what [strcmp] promises. *)
Fixpoint strcmp (s t : list Z) : Z :=
  match s, t with
  | [], [] => 0
  | [], _ => -1
  | _, [] => 1
  | x :: s, y :: t => if x <? y then -1 else if y <? x then 1 else strcmp s t
  end.

(** The locale is C.  Negative characters but EOF are not for [tolower] and
    [toupper]. *)
Definition to_case (lower sgn : bool) (c : Z) : option Z :=
  if sgn && (128 <=? c) && negb (c =? 255) then None
  else if lower then Some (if (65 <=? c) && (c <=? 90) then c + 32 else c)
  else Some (if (97 <=? c) && (c <=? 122) then c - 32 else c).

Section string8.
Context {AL : Allocator} {PS : PathSeparator}.
(** Whether [char] is signed; the global [gEmptyString]; what [malloc] leaves in
    a block. *)
Variables (sgn : bool) (gEmptyString : Z) (junk : nat -> Z).
Implicit Types (m : mem Z) (mString p i n len size start : Z) (other name input : source Z).

(** ** Characters in memory *)

(** The address [k] bytes on. *)
Definition shift (s : source Z) (k : Z) : source Z :=
  match s with
  | Outside l => Outside (drop (Z.to_nat k) l)
  | Inside p i => Inside p (i + k)
  end.

Definition peek (s : source Z) m : option Z :=
  match s with
  | Outside l => head l
  | Inside p i => get p i m
  end.

Definition poke p i (c : Z) m : option (mem Z) := set_slots p i [Some c] m.

(** The string at an address. *)
Fixpoint cstring_loop (fuel : nat) (s : source Z) m : option (list Z) :=
  match fuel with
  | O => None
  | S fuel =>
      c ← peek s m;
      if c =? 0 then Some [] else t ← cstring_loop fuel (shift s 1) m; Some (c :: t)
  end.
Definition extent (s : source Z) m : nat :=
  match s with
  | Outside l => S (length l)
  | Inside p _ => match bufs m !! p with Some b => S (length (items b)) | None => O end
  end.
Definition cstring (s : source Z) m : option (list Z) := cstring_loop (extent s m) s m.

Definition strlen (s : source Z) m : option Z := t ← cstring s m; Some (Z.of_nat (length t)).

Definition sizeFromData p m : option Z :=
  if p =? 0 then Some 0 else b ← bufs m !! p; Some (mSize b).

Definition length8 mString m : option Z := n ← sizeFromData mString m; Some (u32 (n - 1)).

Definition drop_ref p m : option (mem Z) := '(_, m) ← release false p m; Some m.

(** ** Making strings *)

Definition getEmptyString m : option (Z * mem Z) :=
  m ← acquire gEmptyString m; Some (gEmptyString, m).

(** The new [gEmptyString]. *)
Definition initialize_string8 m : option (Z * mem Z) :=
  '(buf, m) ← alloc 1 m;
  m ← poke buf 0 0 m;
  Some (buf, m).

Definition terminate_string8 m : option (mem Z) := drop_ref gEmptyString m.

(** Answers NULL when there is no memory. *)
Definition allocFromUTF8 input len m : option (Z * mem Z) :=
  if 0 <? len then
    '(buf, m) ← alloc (u32 (len + 1)) m;
    if negb (buf =? 0) then
      m ← _do_copy buf 0 input len m;
      m ← poke buf len 0 m;
      Some (buf, m)
    else Some (0, m)
  else getEmptyString m.

(** A conversion that writes into a new block. *)
Definition convert_into buf (conv : list Z -> option (list Z)) m : option (mem Z) :=
  b ← bufs m !! buf;
  out ← conv (imap (fun (k : nat) s => default (junk k) s) (items b));
  Some (upd buf (set_items (Some <$> out) b) m).

Definition allocFromUTF16 (in16 : list Z) len m : option (Z * mem Z) :=
  if len =? 0 then getEmptyString m
  else
    bytes ← utf16_to_utf8_length (Some in16) len;
    if bytes <? 0 then getEmptyString m
    else
      '(buf, m) ← alloc (u32 (bytes + 1)) m;
      if buf =? 0 then getEmptyString m
      else
        m ← convert_into buf (fun dst => mjoin (utf16_to_utf8 (Some in16) len (Some dst))) m;
        Some (buf, m).

Definition allocFromUTF32 (in32 : list Z) len m : option (Z * mem Z) :=
  if len =? 0 then getEmptyString m
  else
    bytes ← utf32_to_utf8_length (Some in32) len;
    if bytes <? 0 then getEmptyString m
    else
      '(buf, m) ← alloc (u32 (bytes + 1)) m;
      if buf =? 0 then getEmptyString m
      else
        m ← convert_into buf (fun dst => mjoin (utf32_to_utf8 (Some in32) len (Some dst))) m;
        Some (buf, m).

Definition or_empty (r : Z * mem Z) : option (Z * mem Z) :=
  if r.1 =? 0 then getEmptyString r.2 else Some r.

(** The constructors; [new_string8] is the one without arguments. *)
Definition new_string8 m : option (Z * mem Z) := getEmptyString m.
Definition copy_string8 (o : Z) m : option (Z * mem Z) := m ← acquire o m; Some (o, m).
Definition from_bytes input len m : option (Z * mem Z) := r ← allocFromUTF8 input len m; or_empty r.
Definition from_cstring input m : option (Z * mem Z) := n ← strlen input m; from_bytes input n m.
Definition from_utf16 (in16 : list Z) len m : option (Z * mem Z) := allocFromUTF16 in16 len m.
Definition from_utf16_string (in16 : list Z) m : option (Z * mem Z) := n ← strlen16 in16; allocFromUTF16 in16 n m.
Definition from_utf32 (in32 : list Z) len m : option (Z * mem Z) := allocFromUTF32 in32 len m.
Definition from_utf32_string (in32 : list Z) m : option (Z * mem Z) := n ← strlen32 in32; allocFromUTF32 in32 n m.
Definition destroy_string8 mString m : option (mem Z) := drop_ref mString m.

(** ** Assigning; the status, [mString] and memory *)

Definition clear mString m : option (Z * mem Z) := m ← drop_ref mString m; getEmptyString m.

Definition setTo (o mString : Z) m : option (Z * mem Z) :=
  m ← acquire o m;
  m ← drop_ref mString m;
  Some (o, m).

Definition set_new (newString : option (Z * mem Z)) mString : option (Z * Z * mem Z) :=
  '(newString, m) ← newString;
  m ← drop_ref mString m;
  if negb (newString =? 0) then Some (NO_ERROR, newString, m)
  else '(e, m) ← getEmptyString m; Some (NO_MEMORY, e, m).

Definition setTo_bytes other len mString m : option (Z * Z * mem Z) := set_new (allocFromUTF8 other len m) mString.
Definition setTo_cstring other mString m : option (Z * Z * mem Z) := n ← strlen other m; setTo_bytes other n mString m.
Definition setTo_utf16 (other : list Z) len mString m : option (Z * Z * mem Z) :=
  set_new (allocFromUTF16 other len m) mString.
Definition setTo_utf32 (other : list Z) len mString m : option (Z * Z * mem Z) :=
  set_new (allocFromUTF32 other len m) mString.

(** ** Appending *)

Definition real_append other otherLen mString m : option (Z * Z * mem Z) :=
  myLen ← length8 mString m;
  '(buf, m) ← editResize mString (u32 (myLen + otherLen + 1)) m;
  if negb (buf =? 0) then
    m ← _do_copy buf myLen other otherLen m;
    m ← poke buf (myLen + otherLen) 0 m;
    Some (NO_ERROR, buf, m)
  else Some (NO_MEMORY, mString, m).

Definition append (o mString : Z) m : option (Z * Z * mem Z) :=
  otherLen ← length8 o m;
  n ← length8 mString m;
  if n =? 0 then '(p, m) ← setTo o mString m; Some (NO_ERROR, p, m)
  else if otherLen =? 0 then Some (NO_ERROR, mString, m)
  else real_append (Inside o 0) otherLen mString m.

Definition append_bytes other otherLen mString m : option (Z * Z * mem Z) :=
  n ← length8 mString m;
  if n =? 0 then setTo_bytes other otherLen mString m
  else if otherLen =? 0 then Some (NO_ERROR, mString, m)
  else real_append other otherLen mString m.

Definition append_cstring other mString m : option (Z * Z * mem Z) :=
  n ← strlen other m; append_bytes other n mString m.

(** The buffer, NULL without memory, and [mString]. *)
Definition lockBuffer size mString m : option (Z * Z * mem Z) :=
  '(buf, m) ← editResize mString (u32 (size + 1)) m;
  if negb (buf =? 0) then Some (buf, buf, m) else Some (0, mString, m).

Definition unlockBuffer size mString m : option (Z * Z * mem Z) :=
  n ← length8 mString m;
  if negb (size =? n) then
    '(buf, m) ← editResize mString (u32 (size + 1)) m;
    if buf =? 0 then Some (NO_MEMORY, mString, m)
    else m ← poke buf size 0 m; Some (NO_ERROR, buf, m)
  else Some (NO_ERROR, mString, m).

Definition unlockBuffer_strlen mString m : option (Z * Z * mem Z) :=
  n ← strlen (Inside mString 0) m; unlockBuffer n mString m.

(** [first] and [second] are what the two calls of [vsnprintf] print; [None] is a
    failure, which it answers with a negative number.  They need not be the same:
    the second call uses the argument list that the first has walked. *)
Definition appendFormatV (first second : option (list Z)) mString m : option (Z * Z * mem Z) :=
  let n := match first with Some t => Z.of_nat (length t) | None => -1 end in
  if negb (n =? 0) then
    oldLength ← length8 mString m;
    '(buf, mString, m) ← lockBuffer (u32 (oldLength + n)) mString m;
    if negb (buf =? 0) then
      m ← match second with
          | Some t =>
              if u32 (n + 1) =? 0 then Some m
              else
                let t := take (Z.to_nat n) t ++ [0] in
                _do_copy buf oldLength (Outside t) (Z.of_nat (length t)) m
          | None => Some m
          end;
      Some (NO_ERROR, mString, m)
    else Some (NO_MEMORY, mString, m)
  else Some (NO_ERROR, mString, m).

Definition formatV (first second : option (list Z)) m : option (Z * mem Z) :=
  '(p, m) ← new_string8 m; '(_, p, m) ← appendFormatV first second p m; Some (p, m).

(** ** Looking at a string, and changing its case *)

Definition find other start mString m : option Z :=
  len ← length8 mString m;
  if len <=? start then Some (-1)
  else
    s ← cstring (Inside mString start) m;
    o ← cstring other m;
    Some (match strstr s o with Some k => start + k | None => -1 end).

Definition compare (o mString : Z) m : option Z :=
  s ← cstring (Inside mString 0) m; t ← cstring (Inside o 0) m; Some (strcmp s t).

Fixpoint case_loop (n : nat) (lower : bool) (buf i : Z) m : option (mem Z) :=
  match n with
  | O => Some m
  | S n =>
      c ← get buf i m;
      c ← to_case lower sgn c;
      m ← poke buf i c m;
      case_loop n lower buf (i + 1) m
  end.

(** [toLower] and [toUpper]. *)
Definition toCase (lower : bool) start length mString m : option (Z * mem Z) :=
  len ← length8 mString m;
  if len <=? start then Some (mString, m)
  else
    let length := if len <? u32 (start + length) then len - start else length in
    '(buf, mString, m) ← lockBuffer len mString m;
    m ← case_loop (Z.to_nat length) lower buf start m;
    '(_, mString, m) ← unlockBuffer len mString m;
    Some (mString, m).
Definition toLower start length mString m : option (Z * mem Z) := toCase true start length mString m.
Definition toUpper start length mString m : option (Z * mem Z) := toCase false start length mString m.
Definition toLower_all mString m : option (Z * mem Z) := n ← length8 mString m; toLower 0 n mString m.
Definition toUpper_all mString m : option (Z * mem Z) := n ← length8 mString m; toUpper 0 n mString m.

(** The bytes from the start of a buffer on, as far as they are initialised. *)
Fixpoint initialised (ss : list (option Z)) : list Z :=
  match ss with Some c :: ss => c :: initialised ss | _ => [] end.
Definition view mString m : option (list Z) := b ← bufs m !! mString; Some (initialised (items b)).

Definition getUtf32Length mString m : option Z :=
  n ← length8 mString m; s ← view mString m; utf8_to_utf32_length sgn (Some s) n.
Definition getUtf32At (index : Z) mString m : option (Z * option Z) :=
  n ← length8 mString m; s ← view mString m; utf32_from_utf8_at sgn s n index.
Definition getUtf32 (dst : list Z) mString m : option (option (list Z)) :=
  n ← length8 mString m; s ← view mString m; utf8_to_utf32 sgn (Some s) n (Some dst).

(** ** Path names *)

Definition setPathName_bytes name len mString m : option (Z * mem Z) :=
  '(buf, mString, m) ← lockBuffer len mString m;
  m ← _do_copy buf 0 name len m;
  len ← if 0 <? len then c ← get buf (len - 1) m; Some (if c =? OS_PATH_SEPARATOR then len - 1 else len)
        else Some len;
  m ← poke buf len 0 m;
  '(_, mString, m) ← unlockBuffer len mString m;
  Some (mString, m).

Definition setPathName name mString m : option (Z * mem Z) :=
  n ← strlen name m; setPathName_bytes name n mString m.

Definition getPathLeaf mString m : option (Z * mem Z) :=
  s ← cstring (Inside mString 0) m;
  match strrchr s OS_PATH_SEPARATOR with
  | None => copy_string8 mString m
  | Some cp => from_cstring (Inside mString (cp + 1)) m
  end.

Definition getPathDir mString m : option (Z * mem Z) :=
  s ← cstring (Inside mString 0) m;
  match strrchr s OS_PATH_SEPARATOR with
  | None => from_cstring (Outside [0]) m
  | Some cp => from_bytes (Inside mString 0) cp m
  end.

(** [*outRemains = String8(...)]: a string is made, assigned and destroyed. *)
Definition assign_remains (outRemains : option Z) (r : source Z) m : option (option Z * mem Z) :=
  match outRemains with
  | None => Some (None, m)
  | Some out =>
      '(t, m) ← from_cstring r m;
      '(out, m) ← setTo t out m;
      m ← drop_ref t m;
      Some (Some out, m)
  end.

(** The result, [outRemains] and memory. *)
Definition walkPath (outRemains : option Z) mString m : option (Z * option Z * mem Z) :=
  s ← cstring (Inside mString 0) m;
  let cp := strchr s OS_PATH_SEPARATOR in
  '(buf, cp) ←
    match cp with
    | Some 0 => s ← cstring (Inside mString 1) m;
                Some (1, k ← strchr s OS_PATH_SEPARATOR; Some (k + 1))
    | _ => Some (0, cp)
    end;
  match cp with
  | None =>
      '(res, m) ← if negb (buf =? 0) then from_cstring (Inside mString buf) m else copy_string8 mString m;
      '(out, m) ← assign_remains outRemains (Outside [0]) m;
      Some (res, out, m)
  | Some cp =>
      '(res, m) ← from_bytes (Inside mString buf) (cp - buf) m;
      '(out, m) ← assign_remains outRemains (Inside mString (cp + 1)) m;
      Some (res, out, m)
  end.

(** An offset, [None] inside for NULL. *)
Definition find_extension mString m : option (option Z) :=
  s ← cstring (Inside mString 0) m;
  let lastSlash := match strrchr s OS_PATH_SEPARATOR with Some k => k + 1 | None => 0 end in
  t ← cstring (Inside mString lastSlash) m;
  Some (k ← strrchr t 46; Some (lastSlash + k)).

Definition getPathExtension mString m : option (Z * mem Z) :=
  ext ← find_extension mString m;
  match ext with
  | Some ext => from_cstring (Inside mString ext) m
  | None => from_cstring (Outside [0]) m
  end.

Definition getBasePath mString m : option (Z * mem Z) :=
  ext ← find_extension mString m;
  match ext with
  | Some ext => from_bytes (Inside mString 0) ext m
  | None => copy_string8 mString m
  end.

Definition appendPath name mString m : option (Z * mem Z) :=
  c ← peek name m;
  if negb (c =? OS_PATH_SEPARATOR) then
    if c =? 0 then Some (mString, m)
    else
      len ← length8 mString m;
      if len =? 0 then setPathName name mString m
      else
        newlen ← strlen name m;
        '(buf, mString, m) ← lockBuffer (u32 (len + 1 + newlen)) mString m;
        c ← get buf (len - 1) m;
        '(len, m) ← if negb (c =? OS_PATH_SEPARATOR)
                    then m ← poke buf len OS_PATH_SEPARATOR m; Some (len + 1, m) else Some (len, m);
        m ← _do_copy buf len name (newlen + 1) m;
        '(_, mString, m) ← unlockBuffer (len + newlen) mString m;
        Some (mString, m)
  else setPathName name mString m.

Definition convertToResPath mString m : option (Z * mem Z) := Some (mString, m).
End string8.
