(* ===== verification/String8Refine.v ===== *)
(** * system/libutils/String8.cpp: what each operation does

    [text m p s]: the pointer [p] is the string [s]; [becomes8] says that an
    operation made it a string, counted its buffer and left the other pointers'
    buffers as they were. *)

From S2P Require Import Prelude VectorImpl VectorRefine Unicode UnicodeText UnicodeConv String8.

Section refine8.
Context {AL : Allocator} {SD : Sound char_type AL}.
Variables (sgn : bool) (gE : Z) (junk : nat -> Z).
Implicit Types (m : mem Z) (p q : Z) (s l : list Z) (ps : list Z) (b : SharedBuffer Z) (from : source Z).

Definition text m p s : Prop := exists b, bufs m !! p = Some b /\ items b = Some <$> (s ++ [0]).

Definition becomes8 m ps p' m' s' : Prop := counted m' (p' :: ps) /\ text m' p' s' /\ keeps ps m m'.

(** The pointers include the shared empty string. *)
Definition has_empty m ps : Prop := gE ∈ ps /\ text m gE [].

(** Lengths that are represented, with their NUL and the header. *)
Definition short (n : Z) : Prop := n < 2 ^ 31.

Lemma text_keeps ps m m' p s : keeps ps m m' -> p ∈ ps -> text m p s -> text m' p s.
Proof.
  intros Hk Hp (b & Hb & E). destruct (keeps_lookup _ _ _ _ _ Hk Hp Hb) as (b' & Hb' & E'). exists b'. by rewrite E'.
Qed.

Lemma has_empty_keeps ps m m' : keeps ps m m' -> has_empty m ps -> has_empty m' ps.
Proof. intros Hk [Hin Ht]. split; [done|]. by eapply text_keeps. Qed.

Lemma text_buf m ps p s : counted m ps -> text m p s -> exists b,
  bufs m !! p = Some b /\ items b = Some <$> (s ++ [0]) /\ p <> 0 /\ mSize b = Z.of_nat (length s) + 1.
Proof.
  intros Hc (b & Hb & E). exists b. destruct (counted_buf _ _ Hc p b Hb) as ((H0 & _ & _ & Hl) & _).
  split_and!; [done..|]. simpl in Hl. rewrite Z.div_1_r, E, length_fmap, length_app in Hl. simpl in Hl. lia.
Qed.

Lemma length8_ok m ps p s : counted m ps -> text m p s -> short (Z.of_nat (length s)) ->
  length8 p m = Some (Z.of_nat (length s)).
Proof.
  unfold short. intros Hc Ht Hs. destruct (text_buf m ps p s Hc Ht) as (b & Hb & _ & H0 & Hm).
  unfold length8, sizeFromData. rewrite (proj2 (Z.eqb_neq p 0)), Hb by done. cbn [mbind option_bind].
  rewrite Hm. f_equal. rewrite wrapu_id by width_lia. lia.
Qed.

Lemma becomes8_tr m ps m1 p' m' s' : keeps ps m m1 -> becomes8 m1 ps p' m' s' -> becomes8 m ps p' m' s'.
Proof. intros Hk (H1 & H2 & H3). split_and!; [done..|]. by eapply keeps_tr. Qed.

Lemma owned_becomes8 m ps p b m' s' :
  owned m' p ps b -> items b = Some <$> (s' ++ [0]) -> keeps ps m m' -> becomes8 m ps p m' s'.
Proof. intros [Hc _ Hb] E Hk. split_and!; [done| |done]. by exists b. Qed.

(** ** Buffers *)

Lemma drop_ref_ok m ps p s : counted m (p :: ps) -> text m p s ->
  exists m', drop_ref p m = Some m' /\ counted m' ps /\ keeps ps m m'.
Proof.
  intros Hc Ht. destruct (text_buf m _ p s Hc Ht) as (b & Hb & E & H0 & _).
  destruct (release_ok m ps (mkVector p 0) [] Hc) as (m' & Er & H).
  { split; [done|]. right. exists b. split; [done|]. by exists (items b). }
  exists m'. split; [|done]. rewrite <- Er. unfold drop_ref, release_storage. cbn [mStorage mCount].
  rewrite (proj2 (Z.eqb_neq p 0)) by done. cbn [negb]. unfold release. rewrite Hb. cbn [mbind option_bind].
  unfold onlyOwner. destruct (Z.eqb_spec (mRefs b) 1) as [E1|E1]; cbn [Z.eqb Pos.eqb negb].
  - unfold dealloc, free, _do_destroy. rewrite !lookup_upd. cbn [mbind option_bind negb has_trivial_dtor char_type orb].
    rewrite lookup_upd. cbn [mbind option_bind mRefs set_refs Z.eqb negb]. done.
  - rewrite (proj2 (Z.eqb_neq _ 1)) by done. cbn [mbind option_bind]. by rewrite (proj2 (Z.eqb_neq _ 1)) by done.
Qed.

Lemma poke_ok m ps p b X c Y d i : owned m p ps b -> items b = X ++ [c] ++ Y -> i = Z.of_nat (length X) ->
  exists m', poke p i d m = Some m' /\ owned m' p ps (set_items (X ++ [Some d] ++ Y) b) /\ keeps ps m m'.
Proof.
  intros Ho E Hi. unfold poke. rewrite (set_slots_at p i m b X [c] [Some d] Y (owned_buf _ _ _ _ Ho)) by done.
  eexists. split; [done|]. apply owned_upd; [done|]. rewrite E, !length_app. done.
Qed.

Lemma acquire_text m ps p s : counted m ps -> p ∈ ps -> text m p s -> few ps ->
  exists m', acquire p m = Some m' /\ becomes8 m ps p m' s.
Proof.
  intros Hc Hp Ht Hf. destruct (text_buf m ps p s Hc Ht) as (_ & _ & _ & H0 & _).
  destruct (acquire_ok m ps p Hc Hp H0) as (m' & E & Hc' & Hk); [unfold few in Hf; lia|].
  exists m'. split; [done|]. split_and!; [done| |done]. by eapply text_keeps.
Qed.

Lemma getEmpty_ok m ps : counted m ps -> has_empty m ps -> few ps ->
  exists p m', getEmptyString gE m = Some (p, m') /\ p <> 0 /\ becomes8 m ps p m' [].
Proof.
  intros Hc [Hin Ht] Hf. destruct (acquire_text m ps gE [] Hc Hin Ht Hf) as (m' & E & Hb).
  unfold getEmptyString. rewrite E. cbn [mbind option_bind]. exists gE, m'. split; [done|].
  split; [|done]. by destruct (text_buf m ps gE [] Hc Ht) as (? & _ & _ & ? & _).
Qed.

(** A source whose bytes stay while other buffers are allocated and freed. *)
Definition stable8 ps m from l : Prop := forall m', keeps ps m m' -> gives m' from l.

Lemma stable8_keeps ps m m1 from l : keeps ps m m1 -> stable8 ps m from l -> stable8 ps m1 from l.
Proof. intros Hk H m' Hk'. apply H. by eapply keeps_tr. Qed.

Lemma stable8_outside ps m l l' : stable8 ps m (Outside (l ++ l')) l.
Proof.
  intros m' _. unfold gives, read_source. rewrite length_app, (proj2 (Z.leb_le _ _)) by lia.
  by rewrite Nat2Z.id, take_app_length.
Qed.

Lemma text_gives m p s s1 s2 s3 : text m p s -> s ++ [0] = s1 ++ s2 ++ s3 ->
  gives m (Inside p (Z.of_nat (length s1))) s2.
Proof.
  intros (b & Hb & E) Es. unfold gives, read_source. rewrite Es, !fmap_app in E.
  by apply (read_at p _ _ m b (Some <$> s1) s2 (Some <$> s3) Hb); rewrite ?length_fmap.
Qed.

Lemma stable8_text ps m p s s1 s2 s3 : text m p s -> p ∈ ps -> s ++ [0] = s1 ++ s2 ++ s3 ->
  stable8 ps m (Inside p (Z.of_nat (length s1))) s2.
Proof. intros Ht Hp Es m' Hk. eapply text_gives; [by eapply text_keeps|done]. Qed.

Lemma allocFromUTF8_ok m ps from l : counted m ps -> has_empty m ps -> few ps ->
  stable8 ps m from l -> short (Z.of_nat (length l)) ->
  exists p m', allocFromUTF8 gE from (Z.of_nat (length l)) m = Some (p, m') /\ p <> 0 /\ becomes8 m ps p m' l.
Proof.
  intros Hc He Hf Hst Hs. unfold allocFromUTF8, short in *. destruct (Z.ltb_spec 0 (Z.of_nat (length l))) as [Hl|Hl].
  2:{ assert (l = []) as -> by (apply length_zero_iff_nil; lia). by apply getEmpty_ok. }
  rewrite wrapu_id by width_lia. destruct (alloc_ok m ps (Z.of_nat (length l) + 1) Hc) as (p & m1 & -> & H0 & Ho & Hk);
    [lia|unfold sizeof_SharedBuffer; width_lia|unfold few in Hf; lia|].
  cbn [mbind option_bind]. rewrite (proj2 (Z.eqb_neq p 0)) by done. cbn [negb].
  change mItemSize with 1 in Ho. rewrite Z.div_1_r in Ho. replace (Z.to_nat _) with (length l + 1)%nat in Ho by lia.
  destruct (copy_in m1 p ps _ [] (replicate (length l) None) [None] from l 0 (Z.of_nat (length l)) Ho)
    as (m2 & -> & Ho2 & Hk2); [simpl; by rewrite replicate_add|apply spare_raw|by rewrite length_replicate|by apply Hst|done|done|].
  cbn [mbind option_bind]. simpl in Ho2.
  destruct (poke_ok m2 ps p _ (Some <$> l) None [] 0 (Z.of_nat (length l)) Ho2) as (m3 & -> & Ho3 & Hk3);
    [simpl; done|by rewrite length_fmap|].
  cbn [mbind option_bind]. exists p, m3. split; [done|]. split; [done|].
  eapply owned_becomes8; [exact Ho3|by rewrite fmap_app|]. eapply keeps_tr; [exact Hk|]. by eapply keeps_tr.
Qed.

(** ** Conversions into a new buffer *)

Lemma convert_into_ok m ps p b conv out :
  owned m p ps b -> length (items b) = S (length out) ->
  (forall dst, length dst = S (length out) -> conv dst = Some (out ++ [0])) ->
  exists m', convert_into junk p conv m = Some m' /\ becomes8 m ps p m' out.
Proof.
  intros Ho Hl Hconv. unfold convert_into. rewrite (owned_buf _ _ _ _ Ho). cbn [mbind option_bind].
  rewrite Hconv by (by rewrite length_imap). cbn [mbind option_bind]. eexists. split; [done|].
  destruct (owned_upd m p ps b (Some <$> (out ++ [0])) Ho) as [Ho' Hk]; [rewrite length_fmap, length_app; simpl; lia|].
  by eapply owned_becomes8.
Qed.

Lemma alloc_converted m ps conv out : counted m ps -> few ps -> short (Z.of_nat (length out)) ->
  (forall dst, length dst = S (length out) -> conv dst = Some (out ++ [0])) ->
  exists p m', ('(buf, m) ← alloc (u32 (Z.of_nat (length out) + 1)) m;
    if buf =? 0 then getEmptyString gE m else m ← convert_into junk buf conv m; Some (buf, m)) = Some (p, m') /\
    p <> 0 /\ becomes8 m ps p m' out.
Proof.
  unfold short. intros Hc Hf Hs Hconv. rewrite wrapu_id by width_lia.
  destruct (alloc_ok m ps (Z.of_nat (length out) + 1) Hc) as (p & m1 & -> & H0 & Ho & Hk);
    [lia|unfold sizeof_SharedBuffer; width_lia|unfold few in Hf; lia|].
  cbn [mbind option_bind]. rewrite (proj2 (Z.eqb_neq p 0)) by done.
  destruct (convert_into_ok m1 ps p _ conv out Ho) as (m2 & -> & Hb); [|done|].
  { simpl. rewrite length_replicate, Z.div_1_r. lia. }
  cbn [mbind option_bind]. exists p, m2. split; [done|]. split; [done|]. by eapply becomes8_tr.
Qed.

Lemma allocFromUTF16_ok m ps cs : counted m ps -> has_empty m ps -> few ps ->
  Forall char16 cs -> short (4 * Z.of_nat (length cs)) ->
  exists p m', allocFromUTF16 gE junk (text16 cs) (Z.of_nat (length (text16 cs))) m = Some (p, m') /\
    p <> 0 /\ becomes8 m ps p m' (out8 cs).
Proof.
  intros Hc He Hf Hcs Hs. unfold allocFromUTF16. destruct (decide (cs = [])) as [->|Hne]; [by apply getEmpty_ok|].
  pose proof (converts_16_8 cs Hcs Hne Hs) as [E Hconv]. pose proof (length_out8 cs). unfold short in *.
  rewrite E. cbn [mbind option_bind]. rewrite (proj2 (Z.ltb_ge _ 0)) by lia.
  destruct (Z.eqb_spec (Z.of_nat (length (text16 cs))) 0) as [E0|_].
  { exfalso. apply Hne. destruct cs as [|c cs]; [done|]. rewrite text16_cons, length_app, length_enc16 in E0. case_if; lia. }
  apply (alloc_converted m ps); [done..|unfold short; lia|exact Hconv].
Qed.

Lemma allocFromUTF32_ok m ps cs : counted m ps -> has_empty m ps -> few ps ->
  Forall (fun c => 0 <= c) cs -> short (4 * Z.of_nat (length cs)) ->
  exists p m', allocFromUTF32 gE junk cs (Z.of_nat (length cs)) m = Some (p, m') /\
    p <> 0 /\ becomes8 m ps p m' (out8 cs).
Proof.
  intros Hc He Hf Hcs Hs. unfold allocFromUTF32. destruct (decide (cs = [])) as [->|Hne]; [by apply getEmpty_ok|].
  pose proof (converts_32_8 cs Hcs Hne Hs) as [E Hconv]. pose proof (length_out8 cs). unfold short in *.
  rewrite nonempty_length, E by done. cbn [mbind option_bind]. rewrite (proj2 (Z.ltb_ge _ 0)) by lia.
  apply (alloc_converted m ps); [done..|unfold short; lia|exact Hconv].
Qed.

(** ** Assigning *)

Lemma setTo_ok m ps p s o t : counted m (p :: ps) -> text m p s -> few (p :: ps) ->
  o ∈ p :: ps -> text m o t ->
  exists m', setTo o p m = Some (o, m') /\ becomes8 m ps o m' t.
Proof.
  intros Hc Hp Hf Ho Ht. unfold setTo. destruct (acquire_text m _ o t Hc Ho Ht Hf) as (m1 & -> & Hc1 & Ht1 & Hk1).
  cbn [mbind option_bind]. destruct (drop_ref_ok m1 (o :: ps) p s) as (m2 & -> & Hc2 & Hk2).
  - eapply counted_perm; [apply perm_swap|done].
  - eapply text_keeps; [exact Hk1|by left|done].
  - exists m2. split; [done|]. split_and!; [done|by eapply text_keeps; [..|done]; [exact Hk2|left]|].
    eapply keeps_tr; eapply keeps_sub; [exact Hk1| |exact Hk2|]; intros x Hx; by right.
Qed.

Lemma set_new_ok m ps p s r t : counted m (p :: ps) -> text m p s ->
  (exists q m', r = Some (q, m') /\ q <> 0 /\ becomes8 m (p :: ps) q m' t) ->
  exists q m', set_new gE r p = Some (NO_ERROR, q, m') /\ becomes8 m ps q m' t.
Proof.
  intros Hc Hp (q & m1 & -> & H0 & Hc1 & Ht1 & Hk1). unfold set_new. cbn [mbind option_bind].
  destruct (drop_ref_ok m1 (q :: ps) p s) as (m2 & -> & Hc2 & Hk2).
  - eapply counted_perm; [apply perm_swap|done].
  - eapply text_keeps; [exact Hk1|by left|done].
  - cbn [mbind option_bind]. rewrite (proj2 (Z.eqb_neq q 0)) by done. exists q, m2. split; [done|].
    split_and!; [done|by eapply text_keeps; [..|done]; [exact Hk2|left]|].
    eapply keeps_tr; eapply keeps_sub; [exact Hk1| |exact Hk2|]; intros x Hx; by right.
Qed.

(** ** Resizing *)

Lemma resize_ok m ps p s (k : nat) : counted m (p :: ps) -> text m p s -> few ps -> short (Z.of_nat k) ->
  exists q m' b', editResize p (u32 (Z.of_nat k)) m = Some (q, m') /\ q <> 0 /\ owned m' q ps b' /\
    items b' = resize k None (Some <$> (s ++ [0])) /\ keeps ps m m'.
Proof.
  intros Hc (b & Hb & E) Hf Hs. unfold short in *. rewrite wrapu_id by width_lia.
  destruct (editResize_ok m ps p b k Hc Hb) as (q & m' & b' & E1 & H0 & Ho & Ei & Hk); [done|done| |].
  - simpl. unfold sizeof_SharedBuffer. lia.
  - change mItemSize with 1 in E1. rewrite Z.mul_1_r in E1. exists q, m', b'. by rewrite <- E.
Qed.

(** The text in the part of a buffer that is kept when it grows. *)
Lemma resize_kept (k : nat) s : (length s < k)%nat -> exists T,
  resize k None (Some <$> (s ++ [0])) = (Some <$> s) ++ T /\ length T = (k - length s)%nat.
Proof.
  intros Hk. rewrite fmap_app, resize_app_ge by (rewrite length_fmap; lia). eexists. split; [done|].
  by rewrite length_resize, length_fmap.
Qed.

Lemma split_last {B} (T : list B) n : length T = S n -> exists T1 t, T = T1 ++ [t] /\ length T1 = n.
Proof.
  intros H. destruct (decide (T = [])) as [->|Hne]; [done|]. destruct (exists_last Hne) as (T1 & t & ->).
  exists T1, t. split; [done|]. rewrite length_app in H. simpl in H. lia.
Qed.

(** Writing the last part of a string and its NUL. *)
Lemma write_ok m ps q b s T from l : owned m q ps b -> items b = (Some <$> s) ++ T -> length T = S (length l) ->
  gives m from l ->
  exists m', (m ← _do_copy q (Z.of_nat (length s)) from (Z.of_nat (length l)) m;
    poke q (Z.of_nat (length s) + Z.of_nat (length l)) 0 m) = Some m' /\ becomes8 m ps q m' (s ++ l).
Proof.
  intros Ho E Hl Hg. destruct (split_last T _ Hl) as (T1 & t & -> & HT).
  destruct (copy_in m q ps b (Some <$> s) T1 [t] from l (Z.of_nat (length s)) (Z.of_nat (length l)) Ho E)
    as (m1 & -> & Ho1 & Hk1); [done|done|done|by rewrite length_fmap|done|].
  cbn [mbind option_bind].
  destruct (poke_ok m1 ps q _ ((Some <$> s) ++ (Some <$> l)) t [] 0 (Z.of_nat (length s) + Z.of_nat (length l)) Ho1)
    as (m2 & -> & Ho2 & Hk2); [simpl; by rewrite <- app_assoc|rewrite length_app, !length_fmap; lia|].
  exists m2. split; [done|]. eapply owned_becomes8; [exact Ho2| |by eapply keeps_tr].
  simpl. by rewrite !fmap_app, <- !app_assoc.
Qed.

Lemma real_append_ok m ps p s from l : counted m (p :: ps) -> text m p s -> few ps ->
  short (Z.of_nat (length s + length l + 1)) -> stable8 ps m from l ->
  exists q m', real_append from (Z.of_nat (length l)) p m = Some (NO_ERROR, q, m') /\ becomes8 m ps q m' (s ++ l).
Proof.
  intros Hc Ht Hf Hs Hst. unfold real_append. rewrite (length8_ok m (p :: ps) p s) by (done || unfold short in *; lia).
  cbn [mbind option_bind].
  replace (Z.of_nat (length s) + Z.of_nat (length l) + 1) with (Z.of_nat (length s + length l + 1)) by lia.
  destruct (resize_ok m ps p s _ Hc Ht Hf Hs) as (q & m1 & b & -> & H0 & Ho & Ei & Hk).
  destruct (resize_kept (length s + length l + 1) s) as (T & ET & HT); [lia|]. rewrite ET in Ei.
  cbn [mbind option_bind]. rewrite (proj2 (Z.eqb_neq q 0)) by done. cbn [negb].
  destruct (write_ok m1 ps q b s T from l Ho Ei) as (m2 & E & Hb); [lia|by apply Hst|].
  destruct (_do_copy q _ from _ m1) as [m1'|]; [|done]. cbn [mbind option_bind] in *. rewrite E. cbn [mbind option_bind].
  exists q, m2. split; [done|]. by eapply becomes8_tr.
Qed.

(** ** Appending *)

Lemma stable8_cons ps p m from l : stable8 ps m from l -> stable8 (p :: ps) m from l.
Proof. intros H m' Hk. apply H. eapply keeps_sub; [exact Hk|]. intros x Hx. by right. Qed.

Lemma has_empty_cons m ps p : has_empty m ps -> has_empty m (p :: ps).
Proof. intros [Hin Ht]. split; [by right|done]. Qed.

Lemma becomes8_id m ps p s : counted m (p :: ps) -> text m p s -> becomes8 m ps p m s.
Proof. done. Qed.

Lemma setTo_bytes_ok m ps p s from l : counted m (p :: ps) -> text m p s -> has_empty m ps -> few (p :: ps) ->
  stable8 (p :: ps) m from l -> short (Z.of_nat (length l)) ->
  exists q m', setTo_bytes gE from (Z.of_nat (length l)) p m = Some (NO_ERROR, q, m') /\ becomes8 m ps q m' l.
Proof.
  intros Hc Hp He Hf Hst Hs. eapply set_new_ok; [done..|]. by apply allocFromUTF8_ok; [|apply has_empty_cons|..].
Qed.

Lemma append_bytes_ok m ps p s from l : counted m (p :: ps) -> text m p s -> has_empty m ps -> few (p :: ps) ->
  short (Z.of_nat (length s + length l + 1)) -> stable8 ps m from l ->
  exists q m', append_bytes gE from (Z.of_nat (length l)) p m = Some (NO_ERROR, q, m') /\ becomes8 m ps q m' (s ++ l).
Proof.
  intros Hc Ht He Hf Hs Hst. unfold append_bytes.
  rewrite (length8_ok m (p :: ps) p s) by (done || unfold short in *; lia). cbn [mbind option_bind].
  destruct (Z.eqb_spec (Z.of_nat (length s)) 0) as [E|E].
  { assert (s = []) as -> by (apply length_zero_iff_nil; lia).
    eapply setTo_bytes_ok; [done..|by apply stable8_cons|unfold short in *; simpl in *; lia]. }
  destruct (Z.eqb_spec (Z.of_nat (length l)) 0) as [El|El].
  { assert (l = []) as -> by (apply length_zero_iff_nil; lia). rewrite app_nil_r. eauto using becomes8_id. }
  apply real_append_ok; try done. unfold few in *. simpl in Hf. lia.
Qed.

Lemma append_string_ok m ps p s o t : counted m (p :: ps) -> text m p s -> few (p :: ps) -> o ∈ ps -> text m o t ->
  short (Z.of_nat (length s + length t + 1)) ->
  exists q m', append o p m = Some (NO_ERROR, q, m') /\ becomes8 m ps q m' (s ++ t).
Proof.
  intros Hc Ht Hf Ho Hot Hs. unfold append, short in *.
  rewrite (length8_ok m (p :: ps) o t), (length8_ok m (p :: ps) p s) by (done || unfold short; lia).
  cbn [mbind option_bind]. destruct (Z.eqb_spec (Z.of_nat (length s)) 0) as [E|E].
  { assert (s = []) as -> by (apply length_zero_iff_nil; lia).
    destruct (setTo_ok m ps p [] o t) as (m' & -> & Hb); [done..|by right|done|]. cbn [mbind option_bind]. eauto. }
  destruct (Z.eqb_spec (Z.of_nat (length t)) 0) as [El|El].
  { assert (t = []) as -> by (apply length_zero_iff_nil; lia). rewrite app_nil_r. eauto using becomes8_id. }
  apply real_append_ok; try done; [unfold few in *; simpl in Hf; lia|].
  apply (stable8_text ps m o t [] t [0]); done.
Qed.

(** ** Locking and unlocking *)

Lemma lockBuffer_ok m ps p s (n : nat) : counted m (p :: ps) -> text m p s -> few ps -> short (Z.of_nat n + 1) ->
  exists q m' b, lockBuffer (Z.of_nat n) p m = Some (q, q, m') /\ q <> 0 /\ owned m' q ps b /\
    items b = resize (S n) None (Some <$> (s ++ [0])) /\ keeps ps m m'.
Proof.
  intros Hc Ht Hf Hs. unfold lockBuffer. replace (Z.of_nat n + 1) with (Z.of_nat (S n)) in * by lia.
  destruct (resize_ok m ps p s (S n) Hc Ht Hf Hs) as (q & m' & b & -> & H0 & Ho & Ei & Hk).
  cbn [mbind option_bind]. rewrite (proj2 (Z.eqb_neq q 0)) by done. eauto 10.
Qed.

(** A buffer that is the only one at its pointer is a counted string for the
    resizing lemmas even if it is longer. *)
Lemma unlockBuffer_ok m ps q b s rest : owned m q ps b -> items b = (Some <$> (s ++ [0])) ++ rest -> few ps ->
  short (Z.of_nat (length s + 1 + length rest)) ->
  exists p' m', unlockBuffer (Z.of_nat (length s)) q m = Some (NO_ERROR, p', m') /\ becomes8 m ps p' m' s.
Proof.
  intros Ho Ei Hf Hs. unfold unlockBuffer, length8, sizeFromData, short in *.
  destruct (owned_refs _ _ _ _ Ho) as (H0 & _ & (_ & _ & _ & Hl)). simpl in Hl.
  rewrite Z.div_1_r, Ei, length_app, length_fmap, length_app in Hl. simpl in Hl.
  rewrite (proj2 (Z.eqb_neq q 0)), (owned_buf _ _ _ _ Ho) by done. cbn [mbind option_bind].
  rewrite wrapu_id by width_lia.
  destruct (Z.eqb_spec (Z.of_nat (length s)) (mSize b - 1)) as [E|E]; cbn [negb].
  - assert (rest = []) as -> by (apply length_zero_iff_nil; lia). rewrite app_nil_r in Ei.
    exists q, m. split; [done|]. by eapply owned_becomes8.
  - rewrite (wrapu_id 32 (_ + 1)) by width_lia. replace (Z.of_nat (length s) + 1) with (Z.of_nat (length s + 1)) by lia.
    destruct (editResize_ok m ps q b (length s + 1) (owned_counted _ _ _ _ Ho) (owned_buf _ _ _ _ Ho))
      as (q' & m' & b' & E1 & H0' & Ho' & Ei' & Hk); [done|done|unfold sizeof_SharedBuffer; simpl; lia|].
    change mItemSize with 1 in E1. rewrite Z.mul_1_r in E1. rewrite E1. cbn [mbind option_bind].
    rewrite (proj2 (Z.eqb_neq q' 0)) by done.
    rewrite Ei, resize_app_le, resize_all_alt in Ei' by (rewrite length_fmap, length_app; simpl; lia).
    rewrite fmap_app in Ei'. destruct (poke_ok m' ps q' b' (Some <$> s) (Some 0) [] 0 (Z.of_nat (length s)) Ho')
      as (m2 & -> & Ho2 & Hk2); [done|by rewrite length_fmap|].
    cbn [mbind option_bind]. exists q', m2. split; [done|].
    eapply owned_becomes8; [exact Ho2|by rewrite fmap_app|by eapply keeps_tr].
Qed.

(** When both calls print the same text. *)
Lemma appendFormatV_ok m ps p s l : counted m (p :: ps) -> text m p s -> few ps ->
  short (Z.of_nat (length s + length l + 1)) ->
  exists q m', appendFormatV (Some l) (Some l) p m = Some (NO_ERROR, q, m') /\ becomes8 m ps q m' (s ++ l).
Proof.
  intros Hc Ht Hf Hs. unfold appendFormatV. destruct (Z.eqb_spec (Z.of_nat (length l)) 0) as [El|El]; cbn [negb].
  { assert (l = []) as -> by (apply length_zero_iff_nil; lia). rewrite app_nil_r. eauto using becomes8_id. }
  unfold short in *. rewrite (length8_ok m (p :: ps) p s) by (done || unfold short; lia). cbn [mbind option_bind].
  rewrite (wrapu_id 32 (Z.of_nat (length s) + _)), (wrapu_id 32 (Z.of_nat (length l) + 1)) by width_lia.
  replace (Z.of_nat (length s) + Z.of_nat (length l)) with (Z.of_nat (length s + length l)) by lia.
  destruct (lockBuffer_ok m ps p s (length s + length l) Hc Ht Hf) as (q & m1 & b & -> & H0 & Ho & Ei & Hk);
    [unfold short; lia|]. cbn [mbind option_bind]. rewrite (proj2 (Z.eqb_neq q 0)) by done. cbn [negb].
  destruct (resize_kept (S (length s + length l)) s) as (T & ET & HT); [lia|]. rewrite ET in Ei.
  rewrite (proj2 (Z.eqb_neq (_ + 1) 0)) by lia. rewrite Nat2Z.id, firstn_all.
  replace (Z.of_nat (length (l ++ [0]))) with (Z.of_nat (length l) + 1) by (rewrite length_app; simpl; lia).
  destruct (copy_in m1 q ps b (Some <$> s) T [] (Outside (l ++ [0])) (l ++ [0]) (Z.of_nat (length s))
    (Z.of_nat (length l) + 1) Ho) as (m2 & -> & Ho2 & Hk2);
    [by rewrite app_nil_r|done|rewrite length_app; simpl; lia|apply gives_outside|by rewrite length_fmap
    |rewrite length_app; simpl; lia|].
  cbn [mbind option_bind]. exists q, m2. split; [done|]. eapply owned_becomes8; [exact Ho2| |by eapply keeps_tr].
  simpl. by rewrite app_nil_r, <- fmap_app, app_assoc.
Qed.

(** ** C strings in memory *)

Lemma text_get m p s (k : nat) c : text m p s -> (s ++ [0]) !! k = Some c -> get p (Z.of_nat k) m = Some c.
Proof.
  intros (b & Hb & E) Hk. apply list_elem_of_split_length in Hk as (l1 & l2 & Es & ->). rewrite Es, !fmap_app in E.
  apply (get_at p _ m b (fmap (M:=list) Some l1) c (fmap (M:=list) Some l2) Hb E). by rewrite length_fmap.
Qed.

Lemma shift_shift from (k : nat) : shift (shift from 1) (Z.of_nat k) = shift from (Z.of_nat (S k)).
Proof.
  destruct from as [l|p i]; simpl.
  - rewrite drop_drop. do 2 f_equal. lia.
  - f_equal. lia.
Qed.

Lemma cstring_loop_ok m s : is_cstr s -> forall fuel from, (length s < fuel)%nat ->
  (forall (k : nat) c, (s ++ [0]) !! k = Some c -> peek (shift from (Z.of_nat k)) m = Some c) ->
  cstring_loop fuel from m = Some s.
Proof.
  unfold is_cstr. induction 1 as [|c s Hc _ IH]; intros [|fuel] from Hf H; simpl in Hf; try lia; cbn [cstring_loop].
  - specialize (H 0%nat 0 eq_refl). assert (E : peek from m = Some 0).
    { destruct from; simpl in *; [done|by rewrite Z.add_0_r in H]. }
    by rewrite E.
  - pose proof (H 0%nat c eq_refl) as E. assert (E2 : peek from m = Some c).
    { destruct from; simpl in *; [done|by rewrite Z.add_0_r in E]. }
    rewrite E2. cbn [mbind option_bind]. rewrite (proj2 (Z.eqb_neq c 0)) by lia. rewrite IH; [done|lia|].
    intros k d Hk. rewrite shift_shift. by apply H.
Qed.

Lemma cstring_text m p s s1 s2 : text m p s -> s = s1 ++ s2 -> is_cstr s2 ->
  cstring (Inside p (Z.of_nat (length s1))) m = Some s2.
Proof.
  intros Ht -> Hs. destruct Ht as (b & Hb & E) eqn:Eq. unfold cstring, extent. rewrite Hb.
  apply cstring_loop_ok; [done| |].
  - rewrite E, length_fmap, !length_app. simpl. lia.
  - intros k c Hk. simpl. rewrite <- Nat2Z.inj_add. eapply text_get; [exact Ht|].
    by rewrite <- app_assoc, lookup_app_r, Nat.add_comm, Nat.add_sub by lia.
Qed.

Lemma cstring_whole m p s : text m p s -> is_cstr s -> cstring (Inside p 0) m = Some s.
Proof. intros Ht Hs. by apply (cstring_text m p s [] s). Qed.

Lemma cstring_outside m l r : is_cstr l -> cstring (Outside (l ++ 0 :: r)) m = Some l.
Proof.
  intros Hl. unfold cstring, extent. apply cstring_loop_ok; [done|rewrite length_app; simpl; lia|].
  intros k c Hk. simpl. rewrite Nat2Z.id, head_lookup, lookup_drop, Nat.add_0_r.
  change (0 :: r) with ([0] ++ r). rewrite app_assoc. by apply lookup_app_l_Some.
Qed.

(** ** Constructors *)

Lemma or_empty_ok m ps r l : (exists p m', r = Some (p, m') /\ p <> 0 /\ becomes8 m ps p m' l) ->
  exists p m', (r0 ← r; or_empty gE r0) = Some (p, m') /\ becomes8 m ps p m' l.
Proof.
  intros (p & m' & -> & H0 & Hb). cbn [mbind option_bind]. unfold or_empty. cbn [fst].
  rewrite (proj2 (Z.eqb_neq p 0)) by done. eauto.
Qed.

Lemma from_bytes_ok m ps from l : counted m ps -> has_empty m ps -> few ps ->
  stable8 ps m from l -> short (Z.of_nat (length l)) ->
  exists p m', from_bytes gE from (Z.of_nat (length l)) m = Some (p, m') /\ becomes8 m ps p m' l.
Proof. intros. apply or_empty_ok. by apply allocFromUTF8_ok. Qed.

Lemma from_cstring_ok m ps from l : counted m ps -> has_empty m ps -> few ps ->
  cstring from m = Some l -> stable8 ps m from l -> short (Z.of_nat (length l)) ->
  exists p m', from_cstring gE from m = Some (p, m') /\ becomes8 m ps p m' l.
Proof.
  intros Hc He Hf Hl Hst Hs. unfold from_cstring, strlen. rewrite Hl. cbn [mbind option_bind]. by apply from_bytes_ok.
Qed.

Lemma from_nothing m ps : counted m ps -> has_empty m ps -> few ps ->
  exists p m', from_cstring gE (Outside [0]) m = Some (p, m') /\ becomes8 m ps p m' [].
Proof.
  intros Hc He Hf. apply from_cstring_ok; try done.
Qed.

(** Parts of a string. *)
Lemma part_ok m ps p s s1 s2 s3 : counted m ps -> has_empty m ps -> few ps -> p ∈ ps -> text m p s ->
  s = s1 ++ s2 ++ s3 -> short (Z.of_nat (length s)) ->
  exists q m', from_bytes gE (Inside p (Z.of_nat (length s1))) (Z.of_nat (length s2)) m = Some (q, m') /\
    becomes8 m ps q m' s2.
Proof.
  intros Hc He Hf Hp Ht Es Hs. apply from_bytes_ok; try done.
  - eapply stable8_text; [done..|]. by rewrite Es, <- !app_assoc.
  - unfold short in *. rewrite Es, !length_app in Hs. lia.
Qed.

Lemma rest_ok m ps p s s1 s2 : counted m ps -> has_empty m ps -> few ps -> p ∈ ps -> text m p s ->
  s = s1 ++ s2 -> is_cstr s -> short (Z.of_nat (length s)) ->
  exists q m', from_cstring gE (Inside p (Z.of_nat (length s1))) m = Some (q, m') /\ becomes8 m ps q m' s2.
Proof.
  intros Hc He Hf Hp Ht -> Hs Hl. unfold is_cstr in Hs. apply Forall_app in Hs as [_ Hs2].
  unfold short in *. rewrite length_app in Hl. apply from_cstring_ok; try done.
  - by eapply cstring_text.
  - eapply stable8_text; [done..|]. by rewrite <- app_assoc.
  - unfold short. lia.
Qed.
End refine8.
