(* ===== verification/String8Path.v ===== *)
(** * system/libutils/String8.cpp: letter case and path names

    What the operations do to strings, and the functions on byte lists that say
    so. *)

From S2P Require Import Prelude VectorImpl VectorRefine Unicode UnicodeText UnicodeConv String8 String8Refine.

(** ** The standard library's searches *)

Lemma strchr_Some s c k : strchr s c = Some k <-> exists a b, s = a ++ c :: b /\ c ∉ a /\ k = Z.of_nat (length a).
Proof.
  revert k. induction s as [|x s IH]; intros k; simpl.
  { split; [done|]. intros (a & b & E & _). by destruct a. }
  destruct (Z.eqb_spec x c) as [->|Hne].
  - split.
    + intros [= <-]. exists [], s. split; [done|]. split; [apply not_elem_of_nil|done].
    + intros (a & b & E & Ha & ->). destruct a as [|y a]; [done|]. simplify_eq/=. exfalso. apply Ha. by left.
  - split.
    + intros H. destruct (strchr s c) as [j|] eqn:E; [|done]. cbn [mbind option_bind] in H. simplify_eq.
      destruct (proj1 (IH j) eq_refl) as (a & b & -> & Ha & ->). exists (x :: a), b. split; [done|].
      split; [by apply not_elem_of_cons|simpl; lia].
    + intros (a & b & E & Ha & ->). destruct a as [|y a]; simplify_eq/=. apply not_elem_of_cons in Ha as [_ Ha].
      rewrite (proj2 (IH (Z.of_nat (length a)))) by eauto. cbn [mbind option_bind]. f_equal. lia.
Qed.

Lemma strchr_None s c : strchr s c = None <-> c ∉ s.
Proof.
  induction s as [|x s IH]; simpl; [split; [intros _; apply not_elem_of_nil|done]|].
  rewrite not_elem_of_cons. destruct (Z.eqb_spec x c) as [->|Hne]; [naive_solver|].
  destruct (strchr s c) eqn:E; cbn [mbind option_bind]; naive_solver.
Qed.

Lemma strrchr_None s c : strrchr s c = None <-> c ∉ s.
Proof.
  induction s as [|x s IH]; simpl; [split; [intros _; apply not_elem_of_nil|done]|].
  rewrite not_elem_of_cons. destruct (strrchr s c) eqn:E; [naive_solver|].
  destruct (Z.eqb_spec x c) as [->|Hne]; naive_solver.
Qed.

Lemma strrchr_Some s c k : strrchr s c = Some k <-> exists a b, s = a ++ c :: b /\ c ∉ b /\ k = Z.of_nat (length a).
Proof.
  revert k. induction s as [|x s IH]; intros k; simpl.
  { split; [done|]. intros (a & b & E & _). by destruct a. }
  destruct (strrchr s c) as [j|] eqn:E.
  - destruct (proj1 (IH j) eq_refl) as (a & b & -> & Hb & ->). split.
    + intros [= <-]. exists (x :: a), b. split; [done|]. split; [done|simpl; lia].
    + intros (a' & b' & E' & Hb' & ->). destruct a' as [|y a']; simplify_eq/=.
      * exfalso. apply Hb'. set_solver.
      * assert (Z.of_nat (length a) = Z.of_nat (length a')); [|f_equal; lia].
        pose proof (proj2 (IH (Z.of_nat (length a'))) (ex_intro _ a' (ex_intro _ b' (conj H0 (conj Hb' eq_refl))))). congruence.
  - apply strrchr_None in E. destruct (Z.eqb_spec x c) as [->|Hne].
    + split.
      * intros [= <-]. exists [], s. done.
      * intros (a & b & E' & Hb & ->). destruct a as [|y a]; simplify_eq/=; [done|]. exfalso. set_solver.
    + split; [done|]. intros (a & b & E' & Hb & ->). destruct a as [|y a]; simplify_eq/=. set_solver.
Qed.

(** ** Paths as lists *)

Abbreviation sep := OS_PATH_SEPARATOR (only parsing).

Section lists.
Context {PS : PathSeparator}.

(** Behind, and in front of, the last separator. *)
Definition path_leaf (s : list Z) : list Z :=
  match strrchr s sep with None => s | Some k => drop (Z.to_nat k + 1) s end.
Definition path_dir (s : list Z) : list Z :=
  match strrchr s sep with None => [] | Some k => take (Z.to_nat k) s end.

(** The extension is what follows the last dot of the leaf, with the dot. *)
Definition leaf_ext (l : list Z) : list Z := match strrchr l 46 with None => [] | Some k => drop (Z.to_nat k) l end.
Definition path_ext (s : list Z) : list Z := leaf_ext (path_leaf s).
Definition path_base (s : list Z) : list Z := take (length s - length (path_ext s)) s.

(** The first component and the rest; a leading separator is left out. *)
Definition after_root (s : list Z) : list Z := match s with c :: s' => if c =? sep then s' else s | [] => s end.
Definition path_first (s : list Z) : list Z * list Z :=
  let t := after_root s in
  match strchr t sep with None => (t, []) | Some k => (take (Z.to_nat k) t, drop (Z.to_nat k + 1) t) end.

(** Without a separator at the end. *)
Definition path_name (s : list Z) : list Z :=
  match last s with Some c => if c =? sep then take (length s - 1) s else s | None => s end.

Definition path_append (s l : list Z) : list Z :=
  match l with
  | [] => s
  | c :: _ =>
      if c =? sep then path_name l
      else match last s with
           | None => path_name l
           | Some d => if d =? sep then s ++ l else s ++ [sep] ++ l
           end
  end.

Lemma path_leaf_split s : exists a, s = a ++ path_leaf s /\ sep ∉ path_leaf s /\
  (strrchr s sep = None /\ a = [] /\ path_dir s = [] \/
   strrchr s sep = Some (Z.of_nat (length a) - 1) /\ a = path_dir s ++ [sep]).
Proof.
  unfold path_leaf, path_dir. destruct (strrchr s sep) as [k|] eqn:E.
  - apply strrchr_Some in E as (a & b & -> & Hb & ->). rewrite Nat2Z.id. exists (a ++ [sep]).
    replace (drop (length a + 1) (a ++ sep :: b)) with b by (by rewrite drop_app_add).
    split; [by rewrite <- app_assoc|]. split; [done|]. right. rewrite take_app_length, length_app. simpl.
    split; [f_equal; lia|done].
  - exists []. split; [done|]. split; [by apply strrchr_None|]. by left.
Qed.

Lemma leaf_ext_split l : exists a, l = a ++ leaf_ext l /\
  (strrchr l 46 = None /\ leaf_ext l = [] \/
   strrchr l 46 = Some (Z.of_nat (length a)) /\ exists e, leaf_ext l = 46 :: e /\ 46 ∉ e).
Proof.
  unfold leaf_ext. destruct (strrchr l 46) as [k|] eqn:E.
  - apply strrchr_Some in E as (a & b & -> & Hb & ->). rewrite Nat2Z.id, drop_app_length. exists a. split; [done|]. right. eauto.
  - exists l. split; [by rewrite app_nil_r|]. by left.
Qed.

Lemma path_ext_split s : s = path_base s ++ path_ext s.
Proof.
  unfold path_base. destruct (path_leaf_split s) as (a & E & _). destruct (leaf_ext_split (path_leaf s)) as (a' & E' & _).
  fold (path_ext s) in *. assert (Es : s = (a ++ a') ++ path_ext s).
  { rewrite <- app_assoc. unfold path_ext in *. by rewrite <- E', <- E. }
  clear E E'. generalize dependent (path_ext s). intros e ->.
  by rewrite length_app, Nat.add_sub, take_app_length.
Qed.

End lists.

Section path.
Context {AL : Allocator} {PS : PathSeparator} {SD : Sound char_type AL}.
Variables (sgn : bool) (gE : Z).
Implicit Types (m : mem Z) (p q : Z) (s l : list Z) (ps : list Z) (b : SharedBuffer Z) (from : source Z).

(** ** Parts of path names *)

Section parts.
Variables (m : mem Z) (ps : list Z) (p : Z) (s : list Z).
Hypotheses (Hc : counted m ps) (He : has_empty gE m ps) (Hf : few ps) (Hp : p ∈ ps) (Ht : text m p s)
  (Hs : is_cstr s) (Hl : short (Z.of_nat (length s))).

(** A new string [t] is made. *)
Definition makes (r : option (Z * mem Z)) (t : list Z) : Prop :=
  exists q m', r = Some (q, m') /\ becomes8 m ps q m' t.

Lemma makes_copy : makes (copy_string8 p m) s.
Proof.
  destruct (acquire_text m ps p s Hc Hp Ht Hf) as (m' & E & Hb). unfold copy_string8, makes. rewrite E. eauto.
Qed.

Lemma makes_rest s1 s2 i : s = s1 ++ s2 -> i = Z.of_nat (length s1) -> makes (from_cstring gE (Inside p i) m) s2.
Proof. intros E ->. by eapply rest_ok. Qed.

Lemma makes_part s1 s2 s3 i n : s = s1 ++ s2 ++ s3 -> i = Z.of_nat (length s1) -> n = Z.of_nat (length s2) ->
  makes (from_bytes gE (Inside p i) n m) s2.
Proof. intros E -> ->. by eapply part_ok. Qed.

Lemma makes_nothing : makes (from_cstring gE (Outside [0]) m) [].
Proof. by apply from_nothing. Qed.

Lemma getPathLeaf_ok : makes (getPathLeaf gE p m) (path_leaf s).
Proof.
  unfold getPathLeaf. rewrite (cstring_whole m p s Ht Hs). cbn [mbind option_bind].
  destruct (path_leaf_split s) as (a & E & _ & [(E2 & -> & _)|[E2 _]]); rewrite E2.
  - simpl in E. rewrite <- E. apply makes_copy.
  - apply (makes_rest a); [done|lia].
Qed.

Lemma getPathDir_ok : makes (getPathDir gE p m) (path_dir s).
Proof.
  unfold getPathDir. rewrite (cstring_whole m p s Ht Hs). cbn [mbind option_bind].
  destruct (path_leaf_split s) as (a & E & _ & [(E2 & _ & ->)|[E2 Ea]]); rewrite E2; [apply makes_nothing|].
  apply (makes_part [] (path_dir s) ([sep] ++ path_leaf s)); [|done|rewrite Ea, length_app; simpl; lia].
  by rewrite app_nil_l, app_assoc, <- Ea.
Qed.

Lemma find_extension_ok : exists r, find_extension p m = Some r /\
  (r = None /\ path_ext s = [] \/ r = Some (Z.of_nat (length (path_base s)))).
Proof.
  unfold find_extension. rewrite (cstring_whole m p s Ht Hs). cbn [mbind option_bind].
  destruct (path_leaf_split s) as (a & E & _ & Ha).
  assert (Hslash : match strrchr s sep with Some k => k + 1 | None => 0 end = Z.of_nat (length a)).
  { destruct Ha as [(-> & -> & _)|[-> _]]; simpl; lia. }
  rewrite Hslash. assert (Hs2 : is_cstr (path_leaf s)).
  { unfold is_cstr in *. rewrite E in Hs. by apply Forall_app in Hs as [_ ?]. }
  rewrite (cstring_text m p s a (path_leaf s) Ht E Hs2). cbn [mbind option_bind]. eexists. split; [done|].
  destruct (leaf_ext_split (path_leaf s)) as (a' & E' & [[E2 E3]|[E2 _]]); rewrite E2; cbn [mbind option_bind]; [by left|].
  right. f_equal. fold (path_ext s) in E'. pose proof (path_ext_split s) as Es. rewrite E, E' in Es at 1.
  rewrite app_assoc in Es. apply app_inj_2 in Es as [<- _]; [|done]. rewrite length_app. lia.
Qed.

Lemma getPathExtension_ok : makes (getPathExtension gE p m) (path_ext s).
Proof.
  unfold getPathExtension. destruct find_extension_ok as (r & -> & [[-> ->]| ->]); cbn [mbind option_bind];
    [apply makes_nothing|]. by apply (makes_rest (path_base s)); [apply path_ext_split|].
Qed.

Lemma getBasePath_ok : makes (getBasePath gE p m) (path_base s).
Proof.
  unfold getBasePath. pose proof (path_ext_split s) as Es.
  destruct find_extension_ok as (r & -> & [[-> E]| ->]); cbn [mbind option_bind].
  - rewrite E, app_nil_r in Es. rewrite <- Es. apply makes_copy.
  - by apply (makes_part [] (path_base s) (path_ext s)).
Qed.
End parts.

(** ** [walkPath] *)

(** The string that [outRemains] was is assigned [r]. *)
Lemma assign_remains_ok m ps p s o old from r :
  counted m (o :: ps) -> text m o old -> has_empty gE m ps -> Z.of_nat (length ps) + 5 < 2 ^ 31 -> p ∈ ps -> text m p s ->
  makes m (o :: ps) (from_cstring gE from m) r ->
  exists o' m', assign_remains gE (Some o) from m = Some (Some o', m') /\ becomes8 m ps o' m' r.
Proof.
  intros Hc Ho He Hf Hp Ht (t & m1 & E & Hc1 & Ht1 & Hk1). unfold assign_remains. rewrite E. cbn [mbind option_bind].
  assert (Hc1' : counted m1 (o :: t :: ps)) by (eapply counted_perm; [apply perm_swap|done]).
  destruct (setTo_ok m1 (t :: ps) o old t r) as (m2 & -> & Hc2 & Ht2 & Hk2).
  - done.
  - eapply text_keeps; [exact Hk1|by left|done].
  - unfold few. simpl. lia.
  - right. by left.
  - done.
  - cbn [mbind option_bind].
    destruct (drop_ref_ok m2 (t :: ps) t r Hc2 Ht2) as (m3 & -> & Hc3 & Hk3). cbn [mbind option_bind].
    exists t, m3. split; [done|]. split_and!; [done|by eapply text_keeps; [exact Hk3|left|]|].
    eapply keeps_tr; [|eapply keeps_tr]; eapply keeps_sub;
      [exact Hk1|intros x Hx; by right|exact Hk2|intros x Hx; by right|exact Hk3|intros x Hx; by right].
Qed.

Lemma after_root_split s : exists a, s = a ++ after_root s /\ (a = [] /\ (forall s', s <> sep :: s') \/ a = [sep]).
Proof.
  unfold after_root. destruct s as [|x s]; [exists []; split; [done|]; by left|].
  destruct (Z.eqb_spec x sep) as [->|Hne].
  - exists [sep]. split; [done|]. by right.
  - exists []. split; [done|]. left. split; [done|]. by intros s' [= ->].
Qed.

(** Where the first component ends, as the code finds it. *)
Lemma walk_start m p s : text m p s -> is_cstr s -> exists a, s = a ++ after_root s /\
  ('(buf, cp) ← match strchr s sep with
     | Some 0 => s ← cstring (Inside p 1) m; Some (1, k ← strchr s sep; Some (k + 1))
     | _ => Some (0, strchr s sep)
     end; Some (buf, cp)) =
  Some (Z.of_nat (length a), k ← strchr (after_root s) sep; Some (Z.of_nat (length a) + k)).
Proof.
  intros Ht Hs. destruct (after_root_split s) as (a & E & [[-> Hno]| ->]).
  - exists []. split; [done|]. simpl in E. rewrite <- E. destruct (strchr s sep) as [k|] eqn:Ek; cbn [mbind option_bind]; [|done].
    destruct k; try done. exfalso. apply strchr_Some in Ek as (a & b & Es & _ & Hk). destruct a; [|simpl in *; lia].
    by apply (Hno b).
  - exists [sep]. split; [done|]. set (t := after_root s) in *. clearbody t. subst s.
    cbn [app strchr]. rewrite Z.eqb_refl. cbv iota.
    pose proof (cstring_text m p ([sep] ++ t) [sep] t Ht eq_refl) as Ec. change (Z.of_nat (length [sep])) with 1 in Ec.
    rewrite Ec by (by apply Forall_app in Hs as [_ ?]). clear Ec.
    cbn [mbind option_bind]. destruct (strchr t sep); cbn [mbind option_bind]; [|done]. do 3 f_equal. simpl. lia.
Qed.

Lemma walkPath_ok m ps p s o old :
  counted m (o :: ps) -> text m o old -> has_empty gE m ps -> Z.of_nat (length ps) + 7 < 2 ^ 31 ->
  p ∈ ps -> text m p s -> is_cstr s -> short (Z.of_nat (length s)) ->
  exists q o' m', walkPath gE (Some o) p m = Some (q, Some o', m') /\ counted m' (q :: o' :: ps) /\
    text m' q (path_first s).1 /\ text m' o' (path_first s).2 /\ keeps ps m m'.
Proof.
  intros Hc Ho He Hf Hp Ht Hs Hl.
  assert (Hf' : few (o :: ps)) by (unfold few; simpl; lia). assert (He' := has_empty_cons gE m ps o He).
  assert (Hp' : p ∈ o :: ps) by (by right).
  (** The result, and then the rest. *)
  assert (Hend : forall r from first rest, makes m (o :: ps) r first ->
    (forall m1 q, counted m1 (o :: q :: ps) -> has_empty gE m1 (q :: ps) -> text m1 p s ->
       makes m1 (o :: q :: ps) (from_cstring gE from m1) rest) ->
    exists q o' m', ('(res, m1) ← r; '(out, m2) ← assign_remains gE (Some o) from m1; Some (res, out, m2)) = Some (q, Some o', m') /\
      counted m' (q :: o' :: ps) /\ text m' q first /\ text m' o' rest /\ keeps ps m m').
  { intros r from first rest (q & m1 & -> & Hc1 & Ht1 & Hk1) Hrest. cbn [mbind option_bind].
    assert (Hkp : keeps ps m m1) by (eapply keeps_sub; [exact Hk1|]; intros x Hx; by right).
    assert (Hc1' : counted m1 (o :: q :: ps)) by (eapply counted_perm; [apply perm_swap|done]).
    assert (He1 : has_empty gE m1 (q :: ps)) by (apply has_empty_cons; by eapply has_empty_keeps).
    assert (Htp : text m1 p s) by (by eapply text_keeps).
    destruct (assign_remains_ok m1 (q :: ps) p s o old from rest) as (o' & m2 & -> & Hc2 & Ht2 & Hk2);
      [done|by eapply text_keeps; [exact Hk1|left|]|done|simpl; lia|by right|done|by apply Hrest|].
    cbn [mbind option_bind]. exists q, o', m2. split; [done|].
    split; [eapply counted_perm; [apply perm_swap|done]|]. split; [by eapply text_keeps; [exact Hk2|left|]|].
    split; [done|]. eapply keeps_tr; [exact Hkp|]. eapply keeps_sub; [exact Hk2|]. intros x Hx. by right. }
  assert (Hfew : forall q, few (o :: q :: ps)) by (intros q; unfold few; simpl; lia).
  unfold walkPath. rewrite (cstring_whole m p s Ht Hs). cbn [mbind option_bind]. cbv zeta.
  destruct (walk_start m p s Ht Hs) as (a & E & Ew). unfold path_first.
  match type of Ew with context [?r ≫= _] => destruct r as [[buf cp]|]; [|done] end.
  cbn [mbind option_bind] in Ew |- *. injection Ew as -> ->. destruct (strchr (after_root s) sep) as [k|] eqn:Ek;
    cbn [mbind option_bind fst snd].
  - apply strchr_Some in Ek as (t1 & t2 & Et & _ & ->). rewrite Et, Nat2Z.id, take_app_length.
    replace (drop (length t1 + 1) (t1 ++ sep :: t2)) with t2 by (by rewrite drop_app_add).
    apply Hend.
    + apply (makes_part _ _ p s) with (s1 := a) (s3 := sep :: t2); try done; [by rewrite E at 1; rewrite Et|lia].
    + intros m1 q Hc1 He1 Ht1.
      apply (makes_rest m1 (o :: q :: ps) p s) with (s1 := a ++ t1 ++ [sep]); try done;
        [by apply has_empty_cons|by right; right|rewrite E at 1; rewrite Et, <- !app_assoc; done
        |rewrite !length_app; simpl; lia].
  - apply Hend.
    + destruct (Z.eqb_spec (Z.of_nat (length a)) 0) as [E0|E0]; cbn [negb].
      * assert (a = []) as -> by (apply length_zero_iff_nil; lia). simpl in E. rewrite <- E. by apply makes_copy.
      * by apply (makes_rest _ _ p s) with (s1 := a).
    + intros m1 q Hc1 He1 Ht1. apply makes_nothing; [done|by apply has_empty_cons|apply Hfew].
Qed.

(** ** Changing path names *)

Lemma last_split {B} (l : list B) : l = [] /\ last l = None \/ exists (l' : list B) (x : B), l = l' ++ [x] /\ last l = Some x.
Proof.
  destruct (decide (l = [])) as [->|Hne]; [by left|]. right. destruct (exists_last Hne) as (l' & x & ->).
  exists l', x. split; [done|]. apply last_snoc.
Qed.

Lemma path_name_snoc l c : path_name (l ++ [c]) = if c =? sep then l else l ++ [c].
Proof.
  unfold path_name. rewrite last_snoc, length_app, Nat.add_sub, take_app_length. done.
Qed.

Lemma setPathName_bytes_ok m ps p s from l : counted m (p :: ps) -> text m p s -> few ps ->
  stable8 ps m from l -> short (Z.of_nat (length l) + 2) ->
  exists q m', setPathName_bytes from (Z.of_nat (length l)) p m = Some (q, m') /\ becomes8 m ps q m' (path_name l).
Proof.
  intros Hc Ht Hf Hst Hs. unfold setPathName_bytes, short in *.
  destruct (lockBuffer_ok m ps p s (length l) Hc Ht Hf) as (q & m1 & b & -> & H0 & Ho & Ei & Hk); [unfold short; lia|].
  cbn [mbind option_bind].
  assert (HT : length (items b) = S (length l)) by (rewrite Ei; apply length_resize).
  destruct (split_last _ _ HT) as (T1 & t & ET & HT1).
  destruct (copy_in m1 q ps b [] T1 [t] from l 0 (Z.of_nat (length l)) Ho ET) as (m2 & -> & Ho2 & Hk2);
    [done|done|by apply Hst|done|done|]. cbn [mbind option_bind app] in *.
  assert (Hend : forall (l1 : list Z) rest, items (set_items ((Some <$> l) ++ [t]) b) = (Some <$> l1) ++ rest ->
    (0 < length rest <= 2)%nat -> (length l1 <= length l)%nat ->
    exists q' m', (m3 ← poke q (Z.of_nat (length l1)) 0 m2; '(_, q', m4) ← unlockBuffer (Z.of_nat (length l1)) q m3; Some (q', m4)) =
      Some (q', m') /\ becomes8 m ps q' m' l1).
  { intros l1 rest E Hr Hl1. destruct rest as [|r0 rest]; [simpl in Hr; lia|].
    destruct (poke_ok m2 ps q _ (Some <$> l1) r0 rest 0 (Z.of_nat (length l1)) Ho2 E) as (m3 & -> & Ho3 & Hk3);
      [by rewrite length_fmap|]. cbn [mbind option_bind].
    destruct (unlockBuffer_ok m3 ps q _ l1 rest Ho3) as (q' & m4 & -> & Hb).
    - simpl. by rewrite fmap_app, <- app_assoc.
    - done.
    - unfold short. simpl in Hr. lia.
    - cbn [mbind option_bind]. exists q', m4. split; [done|]. eapply becomes8_tr; [|exact Hb].
      eapply keeps_tr; [exact Hk|]. by eapply keeps_tr. }
  destruct (last_split l) as [[-> _]|(l' & c & -> & _)].
  - destruct (Hend [] [t] eq_refl) as (q' & m' & E & Hb); [simpl; lia|simpl; lia|]. simpl. simpl in E. rewrite E. eauto.
  - rewrite (proj2 (Z.ltb_lt 0 _)) by (rewrite length_app; simpl; lia).
    rewrite (get_at q _ m2 _ (fmap (M:=list) Some l') c [t] (owned_buf _ _ _ _ Ho2));
      [|simpl; by rewrite fmap_app, <- app_assoc|rewrite length_fmap, length_app; simpl; lia].
    cbn [mbind option_bind]. rewrite path_name_snoc. destruct (Z.eqb_spec c sep) as [->|Hne].
    + replace (Z.of_nat (length (l' ++ [sep])) - 1) with (Z.of_nat (length l')) by (rewrite length_app; simpl; lia).
      destruct (Hend l' [Some sep; t]) as (q' & m' & E & Hb); [simpl; by rewrite fmap_app, <- app_assoc|simpl; lia
        |rewrite length_app; lia|]. rewrite E. eauto.
    + destruct (Hend (l' ++ [c]) [t] eq_refl) as (q' & m' & E & Hb); [simpl; lia|done|]. rewrite E. eauto.
Qed.

Lemma setPathName_ok m ps p s from l : counted m (p :: ps) -> text m p s -> few ps ->
  cstring from m = Some l -> stable8 ps m from l -> short (Z.of_nat (length l) + 2) ->
  exists q m', setPathName from p m = Some (q, m') /\ becomes8 m ps q m' (path_name l).
Proof.
  intros Hc Ht Hf Hl Hst Hs. unfold setPathName, strlen. rewrite Hl. cbn [mbind option_bind].
  by eapply setPathName_bytes_ok.
Qed.

Lemma cstring_peek m from l : cstring from m = Some l ->
  peek from m = Some (match l with [] => 0 | c :: _ => c end) /\ (forall c l', l = c :: l' -> c <> 0).
Proof.
  unfold cstring. destruct (extent from m) as [|n]; [done|]. cbn [cstring_loop].
  destruct (peek from m) as [c|]; [|done]. cbn [mbind option_bind]. destruct (Z.eqb_spec c 0) as [->|Hne].
  - by intros [= <-].
  - destruct (cstring_loop n (shift from 1) m) as [t|]; [|done]. cbn [mbind option_bind]. intros [= <-].
    split; [done|]. by intros ? ? [= <- _].
Qed.

(** The end of [appendPath]: the name with its NUL goes behind [s1], and the
    buffer is cut to the string. *)
Lemma finish_path_ok m ps q b s1 T from l : owned m q ps b -> items b = (Some <$> s1) ++ T -> few ps ->
  gives m from (l ++ [0]) -> (S (length l) <= length T <= S (S (length l)))%nat ->
  short (Z.of_nat (length s1 + length l) + 3) ->
  exists q' m', (m3 ← _do_copy q (Z.of_nat (length s1)) from (Z.of_nat (length l) + 1) m;
    '(_, q', m4) ← unlockBuffer (Z.of_nat (length s1) + Z.of_nat (length l)) q m3; Some (q', m4)) = Some (q', m') /\
    becomes8 m ps q' m' (s1 ++ l).
Proof.
  intros Ho E Hf Hg HT Hs. unfold short in *. rewrite <- (take_drop (S (length l)) T) in E.
  destruct (copy_in m q ps b (Some <$> s1) (take (S (length l)) T) (drop (S (length l)) T) from (l ++ [0])
    (Z.of_nat (length s1)) (Z.of_nat (length l) + 1) Ho E) as (m3 & -> & Ho3 & Hk3);
    [done|rewrite length_app, length_take; cbn [length]; lia|done|by rewrite length_fmap|rewrite length_app; simpl; lia|].
  cbn [mbind option_bind]. rewrite <- Nat2Z.inj_add, <- length_app.
  destruct (unlockBuffer_ok m3 ps q _ (s1 ++ l) (drop (S (length l)) T) Ho3) as (q' & m4 & -> & Hb).
  - simpl. rewrite !fmap_app, <- !app_assoc. done.
  - done.
  - unfold short. rewrite length_app, length_drop. lia.
  - cbn [mbind option_bind]. exists q', m4. split; [done|]. by eapply becomes8_tr.
Qed.

Lemma appendPath_ok m ps p s from l : counted m (p :: ps) -> text m p s -> few ps ->
  cstring from m = Some l -> stable8 ps m from (l ++ [0]) -> stable8 ps m from l ->
  short (Z.of_nat (length s + length l) + 4) ->
  exists q m', appendPath from p m = Some (q, m') /\ becomes8 m ps q m' (path_append s l).
Proof.
  intros Hc Ht Hf Hl Hst0 Hst Hs. unfold appendPath, path_append, short in *.
  destruct (cstring_peek m from l Hl) as [-> Hnz]. cbn [mbind option_bind].
  assert (Hname : exists q m', setPathName from p m = Some (q, m') /\ becomes8 m ps q m' (path_name l))
    by (eapply setPathName_ok; [done..|unfold short; lia]).
  destruct l as [|c l0] eqn:El.
  { rewrite (proj2 (Z.eqb_neq 0 sep)) by (pose proof separator_ok; lia). cbn [negb Z.eqb]. eauto using becomes8_id. }
  destruct (Z.eqb_spec c sep) as [Hsep|Hsep]; cbn [negb]; [exact Hname|].
  rewrite (proj2 (Z.eqb_neq c 0)) by (by apply (Hnz c l0)).
  rewrite (length8_ok m (p :: ps) p s) by (done || unfold short; lia). cbn [mbind option_bind].
  destruct (last_split s) as [[-> El0]|(s' & d & -> & Ed)]; [rewrite El0; exact Hname|]. rewrite Ed.
  rewrite nonempty_length by (by destruct s'). rewrite <- El in *. clear Hnz Hname Hsep.
  unfold strlen. rewrite Hl. cbn [mbind option_bind]. set (n := length (s' ++ [d])) in *.
  rewrite wrapu_id by width_lia. replace (Z.of_nat n + 1 + Z.of_nat (length l)) with (Z.of_nat (n + 1 + length l)) by lia.
  destruct (lockBuffer_ok m ps p (s' ++ [d]) (n + 1 + length l) Hc Ht Hf) as (q & m1 & b & -> & H0 & Ho & Ei & Hk);
    [unfold short; lia|]. cbn [mbind option_bind].
  destruct (resize_kept (S (n + 1 + length l)) (s' ++ [d])) as (T & ET & HT); [unfold n; lia|]. rewrite ET in Ei.
  fold n in HT. assert (HT2 : length T = S (S (length l))) by lia. clear HT ET.
  rewrite (get_at q _ m1 b (fmap (M:=list) Some s') d T (owned_buf _ _ _ _ Ho));
    [|rewrite Ei, fmap_app, <- app_assoc; done|rewrite length_fmap; unfold n; rewrite length_app; simpl; lia].
  cbn [mbind option_bind].
  destruct (Z.eqb_spec d sep) as [->|Hd]; cbn [negb mbind option_bind].
  - destruct (finish_path_ok m1 ps q b (s' ++ [sep]) T from l Ho Ei Hf) as (q' & m' & E & Hb);
      [by apply Hst0|lia|unfold short; fold n; lia|]. fold n in E. rewrite E. exists q', m'.
    split; [done|]. by eapply becomes8_tr.
  - destruct T as [|t0 T]; [simpl in HT2; lia|].
    destruct (poke_ok m1 ps q b (Some <$> (s' ++ [d])) t0 T sep (Z.of_nat n) Ho Ei) as (m2 & -> & Ho2 & Hk2);
      [by rewrite length_fmap|]. cbn [mbind option_bind].
    destruct (finish_path_ok m2 ps q _ ((s' ++ [d]) ++ [sep]) T from l Ho2) as (q' & m' & E & Hb);
      [simpl; by rewrite (fmap_app _ (s' ++ [d])), <- app_assoc|done|apply Hst0; by eapply keeps_tr|simpl in HT2; lia
      |unfold short; rewrite length_app; fold n; simpl; lia|].
    rewrite length_app in E. fold n in E. simpl length in E. rewrite Nat2Z.inj_add in E.
    change (Z.of_nat 1) with 1 in E. rewrite E.
    exists q', m'. split; [done|].
    apply (becomes8_tr m) in Hb; [|by eapply keeps_tr]. rewrite <- app_assoc in Hb.
    done.
Qed.

(** ** Letter case *)

Definition case_char (lower : bool) (c : Z) : Z :=
  if lower then (if (65 <=? c) && (c <=? 90) then c + 32 else c)
  else (if (97 <=? c) && (c <=? 122) then c - 32 else c).

Definition case_range (lower : bool) (start n : nat) (s : list Z) : list Z :=
  take start s ++ (case_char lower <$> take n (drop start s)) ++ drop (start + n) s.

(** What [tolower] is defined for. *)
Definition case_ok (c : Z) : Prop := sgn = true -> c < 128.

Lemma to_case_ok lower c : case_ok c -> to_case lower sgn c = Some (case_char lower c).
Proof.
  unfold case_ok, to_case, case_char. intros H. destruct sgn; cbn [andb].
  - rewrite (proj2 (Z.leb_gt 128 c)) by (by apply H). cbn [andb]. by destruct lower.
  - by destruct lower.
Qed.

Lemma case_loop_ok lower ps q l : Forall case_ok l -> forall m b X Y,
  owned m q ps b -> items b = (Some <$> X) ++ (Some <$> l) ++ Y ->
  exists m' b', case_loop sgn (length l) lower q (Z.of_nat (length X)) m = Some m' /\ owned m' q ps b' /\
    items b' = (Some <$> X) ++ (Some <$> (case_char lower <$> l)) ++ Y /\ keeps ps m m'.
Proof.
  induction 1 as [|c l Hc _ IH]; intros m b X Y Ho E; cbn [length case_loop]; [by exists m, b|].
  rewrite fmap_cons in E. change ((Some c :: ?x) ++ ?y) with ([Some c] ++ x ++ y) in E.
  rewrite (get_at q _ m b (fmap (M:=list) Some X) c (fmap (M:=list) Some l ++ Y) (owned_buf _ _ _ _ Ho) E)
    by (by rewrite length_fmap).
  cbn [mbind option_bind]. rewrite to_case_ok by done. cbn [mbind option_bind].
  destruct (poke_ok m ps q b (Some <$> X) (Some c) ((Some <$> l) ++ Y) (case_char lower c) (Z.of_nat (length X)) Ho E)
    as (m1 & -> & Ho1 & Hk1); [by rewrite length_fmap|]. cbn [mbind option_bind].
  destruct (IH m1 _ (X ++ [case_char lower c]) Y Ho1) as (m2 & b2 & E2 & Ho2 & Ei2 & Hk2).
  - simpl. by rewrite fmap_app, <- app_assoc.
  - rewrite length_app, Nat2Z.inj_add in E2. change (Z.of_nat (length [_])) with 1 in E2. rewrite E2.
    exists m2, b2. split; [done|]. split; [done|]. split; [|by eapply keeps_tr].
    rewrite Ei2, fmap_app, <- app_assoc. done.
Qed.

Lemma toCase_ok m ps p s lower (start n : nat) : counted m (p :: ps) -> text m p s -> few ps ->
  short (Z.of_nat (length s) + 1) -> Z.of_nat (start + n) < 2 ^ 32 -> Forall case_ok s ->
  exists q m', toCase sgn lower (Z.of_nat start) (Z.of_nat n) p m = Some (q, m') /\
    becomes8 m ps q m' (case_range lower start n s).
Proof.
  intros Hc Ht Hf Hs Hn Hok. unfold toCase, short in *.
  rewrite (length8_ok m (p :: ps) p s) by (done || unfold short; lia). cbn [mbind option_bind].
  destruct (Z.leb_spec (Z.of_nat (length s)) (Z.of_nat start)) as [Hle|Hlt].
  { exists p, m. split; [done|]. unfold case_range. rewrite take_ge, !drop_ge by lia.
    rewrite take_nil. simpl. by rewrite app_nil_r. }
  rewrite wrapu_id by width_lia. set (l := take n (drop start s)).
  assert (Hlen : (if Z.of_nat (length s) <? Z.of_nat start + Z.of_nat n then Z.of_nat (length s) - Z.of_nat start
    else Z.of_nat n) = Z.of_nat (length l)).
  { unfold l. rewrite length_take, length_drop. destruct (Z.ltb_spec (Z.of_nat (length s)) (Z.of_nat start + Z.of_nat n)); lia. }
  rewrite Hlen, Nat2Z.id. cbv zeta.
  destruct (lockBuffer_ok m ps p s (length s) Hc Ht Hf) as (q & m1 & b & -> & H0 & Ho & Ei & Hk); [unfold short; lia|].
  cbn [mbind option_bind]. rewrite resize_all_alt in Ei by (rewrite length_fmap, length_app; simpl; lia).
  assert (Es : s = take start s ++ l ++ drop (start + n) s).
  { unfold l. by rewrite <- drop_drop, take_drop, take_drop. }
  assert (Hl : Forall case_ok l) by (by apply Forall_take, Forall_drop).
  destruct (case_loop_ok lower ps q l Hl m1 b (take start s) (Some <$> (drop (start + n) s ++ [0])) Ho)
    as (m2 & b2 & E2 & Ho2 & Ei2 & Hk2).
  { rewrite Ei, Es at 1. by rewrite !fmap_app, <- !app_assoc. }
  rewrite length_take, Nat.min_l in E2 by lia. rewrite E2. cbn [mbind option_bind].
  assert (Er : length s = length (case_range lower start n s)).
  { unfold case_range. fold l. rewrite Es at 1. by rewrite !length_app, length_fmap. }
  rewrite Er. destruct (unlockBuffer_ok m2 ps q b2 (case_range lower start n s) [] Ho2) as (q' & m3 & -> & Hb).
  - rewrite Ei2. unfold case_range. fold l. by rewrite app_nil_r, !fmap_app, <- !app_assoc.
  - done.
  - unfold short. rewrite <- Er. simpl. lia.
  - cbn [mbind option_bind]. exists q', m3. split; [done|]. eapply becomes8_tr; [|exact Hb]. by eapply keeps_tr.
Qed.
End path.
