(* ===== verification/String8Client.v ===== *)
(** * system/libutils/String8.cpp: what a client of strings can rely on

    Any number of strings that are made from one another and from text in three
    encodings, assigned, appended to, changed and taken apart behave as byte
    lists, although they share buffers; and where strings go wrong. *)

From S2P Require Import Prelude VectorImpl VectorRefine VectorSort Unicode UnicodeText UnicodeConv.
From S2P Require Import String8 String8Refine String8Path.

Definition size_ (l : list Z) : Z := Z.of_nat (length l).

(** Strings without a NUL, of a length within [2^29]. *)
Definition fit (l : list Z) : Prop := is_cstr l /\ size_ l < 2 ^ 29.

Ltac fit_lia := unfold fit, short, size_ in *; repeat match goal with H : _ /\ _ |- _ => destruct H end; lia.

Section client.
Context {AL : Allocator} {PS : PathSeparator} {SD : Sound char_type AL}.
Variables (sgn : bool) (gE : Z) (junk : nat -> Z).
Implicit Types (m : mem Z) (p q : Z) (l t cs : list Z) (ps : list Z) (i j k : nat).

(** ** Commands *)

Abbreviation strings := (gmap nat Z).

Inductive cmd :=
  | New (i : nat)
  | Copy (i j : nat)
  | FromBytes (i : nat) (l : list Z)
  | FromCString (i : nat) (l : list Z)
  | FromUtf16 (i : nat) (cs : list Z)
  | FromUtf32 (i : nat) (cs : list Z)
  | Destroy (i : nat)
  | Clear (i : nat)
  | SetTo (i j : nat)
  | SetToBytes (i : nat) (l : list Z)
  | SetToUtf16 (i : nat) (cs : list Z)
  | SetToUtf32 (i : nat) (cs : list Z)
  | Append (i j : nat)
  | AppendBytes (i : nat) (l : list Z)
  | ChangeCase (lower : bool) (i start n : nat)
  | SetPathName (i : nat) (l : list Z)
  | AppendPath (i : nat) (l : list Z)
  | AppendPathString (i j : nat)
  | PathLeaf (i j : nat)
  | PathDir (i j : nat)
  | PathExtension (i j : nat)
  | BasePath (i j : nat)
  | WalkPath (i j k : nat).

Definition create (i : nat) (f : mem Z -> option (Z * mem Z)) (s : strings * mem Z) : option (strings * mem Z) :=
  '(q, m) ← f s.2; Some (<[i := q]> s.1, m).
Definition create_from (i j : nat) (f : Z -> mem Z -> option (Z * mem Z)) (s : strings * mem Z) :=
  p ← s.1 !! j; create i (f p) s.
Definition change (i : nat) (f : Z -> mem Z -> option (Z * mem Z)) (s : strings * mem Z) : option (strings * mem Z) :=
  p ← s.1 !! i; '(q, m) ← f p s.2; Some (<[i := q]> s.1, m).
(** The operations with a status must answer that there was no error. *)
Definition good (f : Z -> mem Z -> option (Z * Z * mem Z)) p m : option (Z * mem Z) :=
  '(r, q, m) ← f p m; if r =? NO_ERROR then Some (q, m) else None.
(** A C string as an argument. *)
Definition arg (l : list Z) : source Z := Outside (l ++ [0]).

Definition exec (c : cmd) (s : strings * mem Z) : option (strings * mem Z) :=
  match c with
  | New i => create i (new_string8 gE) s
  | Copy i j => create_from i j copy_string8 s
  | FromBytes i l => create i (from_bytes gE (arg l) (size_ l)) s
  | FromCString i l => create i (from_cstring gE (arg l)) s
  | FromUtf16 i cs => create i (from_utf16 gE junk (text16 cs) (size_ (text16 cs))) s
  | FromUtf32 i cs => create i (from_utf32 gE junk cs (size_ cs)) s
  | Destroy i => p ← s.1 !! i; m ← destroy_string8 p s.2; Some (delete i s.1, m)
  | Clear i => change i (clear gE) s
  | SetTo i j => o ← s.1 !! j; change i (setTo o) s
  | SetToBytes i l => change i (good (setTo_cstring gE (arg l))) s
  | SetToUtf16 i cs => change i (good (setTo_utf16 gE junk (text16 cs) (size_ (text16 cs)))) s
  | SetToUtf32 i cs => change i (good (setTo_utf32 gE junk cs (size_ cs))) s
  | Append i j => o ← s.1 !! j; change i (good (append o)) s
  | AppendBytes i l => change i (good (append_cstring gE (arg l))) s
  | ChangeCase lower i start n =>
      change i ((if lower then toLower else toUpper) sgn (Z.of_nat start) (Z.of_nat n)) s
  | SetPathName i l => change i (setPathName (arg l)) s
  | AppendPath i l => change i (appendPath (arg l)) s
  | AppendPathString i j => o ← s.1 !! j; change i (appendPath (Inside o 0)) s
  | PathLeaf i j => create_from i j (getPathLeaf gE) s
  | PathDir i j => create_from i j (getPathDir gE) s
  | PathExtension i j => create_from i j (getPathExtension gE) s
  | BasePath i j => create_from i j (getBasePath gE) s
  | WalkPath i j k =>
      p ← s.1 !! j; o ← s.1 !! k;
      '(q, o, m) ← walkPath gE (Some o) p s.2;
      o ← o;
      Some (<[i := q]> (<[k := o]> s.1), m)
  end.

(** ** The specification *)

Definition astep (c : cmd) (S : gmap nat (list Z)) : gmap nat (list Z) :=
  let at_ i := default [] (S !! i) in
  match c with
  | New i | Clear i => <[i := []]> S
  | Copy i j | SetTo i j => <[i := at_ j]> S
  | FromBytes i l | FromCString i l | SetToBytes i l => <[i := l]> S
  | FromUtf16 i cs | FromUtf32 i cs | SetToUtf16 i cs | SetToUtf32 i cs => <[i := text8 cs]> S
  | Destroy i => delete i S
  | Append i j => <[i := at_ i ++ at_ j]> S
  | AppendBytes i l => <[i := at_ i ++ l]> S
  | ChangeCase lower i start n => <[i := case_range lower start n (at_ i)]> S
  | SetPathName i l => <[i := path_name l]> S
  | AppendPath i l => <[i := path_append (at_ i) l]> S
  | AppendPathString i j => <[i := path_append (at_ i) (at_ j)]> S
  | PathLeaf i j => <[i := path_leaf (at_ j)]> S
  | PathDir i j => <[i := path_dir (at_ j)]> S
  | PathExtension i j => <[i := path_ext (at_ j)]> S
  | BasePath i j => <[i := path_base (at_ j)]> S
  | WalkPath i j k => <[i := (path_first (at_ j)).1]> (<[k := (path_first (at_ j)).2]> S)
  end.

(** A name that does not end in a dot. *)
Definition no_final_dot (l : list Z) : Prop := last l <> Some 46.

(** A text of scalar values. *)
Definition scalars (cs : list Z) : Prop := Forall is_scalar cs /\ size_ cs < 2 ^ 29 /\ fit (text8 cs).

(** What a client must respect: names are new or those of its strings, as it
    should be; arguments and results fit; a string is not appended to itself,
    its case is changed only where that is defined, and it is not divided into
    base path and extension when it ends in a dot. *)
Definition valid (S : gmap nat (list Z)) (c : cmd) : Prop :=
  let at_ i := default [] (S !! i) in
  let has i := is_Some (S !! i) in
  let fresh i := S !! i = None /\ Z.of_nat (size S) + 16 < 2 ^ 31 in
  match c with
  | New i => fresh i
  | Copy i j | PathLeaf i j | PathDir i j => fresh i /\ has j
  | PathExtension i j | BasePath i j => fresh i /\ has j /\ no_final_dot (at_ j)
  | FromBytes i l | FromCString i l => fresh i /\ fit l
  | FromUtf16 i cs | FromUtf32 i cs => fresh i /\ scalars cs
  | Destroy i | Clear i => has i
  | SetTo i j => has i /\ has j
  | SetToBytes i l | SetPathName i l => has i /\ fit l
  | SetToUtf16 i cs | SetToUtf32 i cs => has i /\ scalars cs
  | Append i j => i <> j /\ has i /\ has j /\ fit (at_ i ++ at_ j)
  | AppendBytes i l => has i /\ fit (at_ i ++ l)
  | ChangeCase lower i start n => has i /\ Forall (case_ok sgn) (at_ i) /\ Z.of_nat (start + n) < 2 ^ 32
  | AppendPath i l => has i /\ fit l /\ fit (path_append (at_ i) l)
  | AppendPathString i j => i <> j /\ has i /\ has j /\ fit (path_append (at_ i) (at_ j))
  | WalkPath i j k => fresh i /\ j <> k /\ has j /\ has k
  end.

(** ** Representation *)

Definition pointers (vs : strings) : list Z := (map_to_list vs).*2.

Record represents (s : strings * mem Z) (S : gmap nat (list Z)) : Prop := {
  rep_counted : counted s.2 (gE :: pointers s.1);
  rep_empty : text s.2 gE [];
  rep_few : Z.of_nat (size S) + 14 < 2 ^ 31;
  rep_dom : dom s.1 = dom S;
  rep_text i p l : s.1 !! i = Some p -> S !! i = Some l -> text s.2 p l /\ fit l
}.

Lemma pointers_insert vs i p : Permutation (pointers (<[i := p]> vs)) (p :: pointers (delete i vs)).
Proof.
  unfold pointers. rewrite <- insert_delete_eq. rewrite map_to_list_insert by apply lookup_delete_eq. done.
Qed.

Lemma pointers_lookup vs i p : vs !! i = Some p -> Permutation (pointers vs) (p :: pointers (delete i vs)).
Proof. intros H. rewrite <- (pointers_insert vs i p). by rewrite insert_id. Qed.

Lemma pointers_elem vs i p : vs !! i = Some p -> p ∈ pointers vs.
Proof. intros H. rewrite (pointers_lookup vs i p H). by left. Qed.

Lemma length_pointers vs : length (pointers vs) = size vs.
Proof. unfold pointers. by rewrite length_fmap, length_map_to_list. Qed.

Section sim.
Variables (vs : strings) (m : mem Z) (S : gmap nat (list Z)).
Hypothesis R : represents (vs, m) S.

Definition sim (c : cmd) : Prop := exists s', exec c (vs, m) = Some s' /\ represents s' (astep c S).

Lemma size_vs : size vs = size S.
Proof. rewrite <- !size_dom. f_equal. apply (rep_dom _ _ R). Qed.

Lemma string_lookup i l : S !! i = Some l -> exists p, vs !! i = Some p /\ text m p l /\ fit l.
Proof.
  intros HS. assert (is_Some (vs !! i)) as [p Hp].
  { apply elem_of_dom. pose proof (rep_dom _ _ R) as D. simpl in D. rewrite D. by apply elem_of_dom_2 in HS. }
  exists p. split; [done|]. by apply (rep_text _ _ R i).
Qed.

Lemma rep_has_empty ps : gE ∈ ps -> has_empty gE m ps.
Proof. intros H. split; [done|]. apply (rep_empty _ _ R). Qed.

(** A new string. *)
Lemma create_sim i (f : mem Z -> option (Z * mem Z)) t : S !! i = None -> Z.of_nat (size S) + 16 < 2 ^ 31 -> fit t ->
  (forall ps, counted m ps -> has_empty gE m ps -> few ps -> ps = gE :: pointers vs ->
     exists q m', f m = Some (q, m') /\ becomes8 m ps q m' t) ->
  exists s', create i f (vs, m) = Some s' /\ represents s' (<[i := t]> S).
Proof.
  intros HS Hsize Hfit Hf. assert (Hvs : vs !! i = None).
  { apply not_elem_of_dom. pose proof (rep_dom _ _ R) as D. simpl in D. rewrite D. by apply not_elem_of_dom. }
  destruct (Hf (gE :: pointers vs)) as (q & m' & E & Hc & Ht & Hk);
    [apply (rep_counted _ _ R)|apply rep_has_empty; by left
    |unfold few; simpl; rewrite length_pointers, size_vs; lia|done|].
  unfold create. cbn [snd]. rewrite E. cbn [mbind option_bind]. eexists. split; [done|]. split; cbn [fst snd].
  - eapply counted_perm; [|exact Hc]. rewrite pointers_insert, delete_id by done. apply perm_swap.
  - eapply text_keeps; [exact Hk|by left|apply (rep_empty _ _ R)].
  - rewrite map_size_insert_None by done. lia.
  - rewrite !dom_insert_L. f_equal. apply (rep_dom _ _ R).
  - intros j p l. destruct (decide (i = j)) as [<-|Hne].
    + rewrite !lookup_insert_eq. by intros [= <-] [= <-].
    + rewrite !lookup_insert_ne by done. intros Hp Hl. destruct (rep_text _ _ R j p l Hp Hl) as [H1 H2].
      split; [|done]. eapply text_keeps; [exact Hk| |exact H1]. right. by eapply pointers_elem.
Qed.

Lemma create_from_sim i j (f : Z -> mem Z -> option (Z * mem Z)) s t :
  S !! i = None -> Z.of_nat (size S) + 16 < 2 ^ 31 -> S !! j = Some s -> fit t ->
  (forall p ps, counted m ps -> has_empty gE m ps -> few ps -> p ∈ ps -> text m p s -> is_cstr s -> short (size_ s) ->
     exists q m', f p m = Some (q, m') /\ becomes8 m ps q m' t) ->
  exists s', create_from i j f (vs, m) = Some s' /\ represents s' (<[i := t]> S).
Proof.
  intros HS Hsize Hj Hfit Hf. destruct (string_lookup j s Hj) as (p & Hp & Ht & Hs & Hl).
  unfold create_from. cbn [fst]. rewrite Hp. cbn [mbind option_bind]. apply create_sim; [done..|].
  intros ps Hc He Hfew ->. apply Hf; try done; [right; by eapply pointers_elem|]. unfold short. lia.
Qed.

(** A string that changes. *)
Lemma change_sim i (f : Z -> mem Z -> option (Z * mem Z)) s t : S !! i = Some s -> fit t ->
  (forall p ps, counted m (p :: ps) -> text m p s -> has_empty gE m ps -> few (p :: ps) -> fit s ->
     vs !! i = Some p -> ps = gE :: pointers (delete i vs) -> exists q m', f p m = Some (q, m') /\ becomes8 m ps q m' t) ->
  exists s', change i f (vs, m) = Some s' /\ represents s' (<[i := t]> S).
Proof.
  intros HS Hfit Hf. destruct (string_lookup i s HS) as (p & Hp & Ht & Hs). pose proof (rep_few _ _ R) as Hfew.
  pose proof (pointers_lookup vs i p Hp) as Hperm.
  destruct (Hf p (gE :: pointers (delete i vs))) as (q & m' & E & Hc' & Ht' & Hk); try done.
  - eapply counted_perm; [|apply (rep_counted _ _ R)]. cbn [fst]. rewrite Hperm. apply perm_swap.
  - apply rep_has_empty. by left.
  - unfold few. simpl. rewrite length_pointers, map_size_delete, Hp, size_vs. unfold Datatypes.id in *. lia.
  - unfold change. cbn [fst snd]. rewrite Hp. cbn [mbind option_bind]. rewrite E. cbn [mbind option_bind].
    eexists. split; [done|]. split; cbn [fst snd].
    + eapply counted_perm; [|exact Hc']. rewrite pointers_insert. apply perm_swap.
    + eapply text_keeps; [exact Hk|by left|apply (rep_empty _ _ R)].
    + rewrite map_size_insert_Some by eauto. done.
    + rewrite !dom_insert_L. f_equal. apply (rep_dom _ _ R).
    + intros j p' l. destruct (decide (i = j)) as [<-|Hne].
      * rewrite !lookup_insert_eq. by intros [= <-] [= <-].
      * rewrite !lookup_insert_ne by done. intros Hp' Hl. destruct (rep_text _ _ R j p' l Hp' Hl) as [H1 H2].
        split; [|done]. eapply text_keeps; [exact Hk| |exact H1]. right. apply (pointers_elem _ j).
        by rewrite lookup_delete_ne.
Qed.

(** ** Arguments and parts that fit *)

Lemma fit_part a t b l : l = a ++ t ++ b -> fit l -> fit t.
Proof.
  unfold fit, is_cstr, size_. intros -> [H Hl]. apply Forall_app in H as [_ [H _]%Forall_app]. split; [done|].
  rewrite !length_app in Hl. lia.
Qed.

Lemma fit_nil : fit [].
Proof. split; [constructor|done]. Qed.

Lemma fit_leaf l : fit l -> fit (path_leaf l).
Proof. destruct (path_leaf_split l) as (a & E & _). apply (fit_part a _ []). by rewrite app_nil_r. Qed.

Lemma fit_dir l : fit l -> fit (path_dir l).
Proof.
  destruct (path_leaf_split l) as (a & E & _ & [(_ & _ & ->)|[_ Ea]]); [intros _; apply fit_nil|].
  apply (fit_part [] _ ([OS_PATH_SEPARATOR] ++ path_leaf l)). by rewrite app_nil_l, app_assoc, <- Ea.
Qed.

Lemma fit_ext l : fit l -> fit (path_ext l).
Proof. apply (fit_part (path_base l) _ []). rewrite app_nil_r. apply path_ext_split. Qed.

Lemma fit_base l : fit l -> fit (path_base l).
Proof. apply (fit_part [] _ (path_ext l)). apply path_ext_split. Qed.

Lemma fit_name l : fit l -> fit (path_name l).
Proof.
  destruct (last_split l) as [[-> _]|(l' & c & -> & _)]; [done|]. rewrite path_name_snoc.
  destruct (c =? OS_PATH_SEPARATOR); [|done]. by apply (fit_part [] l' [c]).
Qed.

Lemma fit_first l : fit l -> fit (path_first l).1 /\ fit (path_first l).2.
Proof.
  intros Hl. destruct (after_root_split l) as (a & E & _). unfold path_first.
  destruct (strchr (after_root l) OS_PATH_SEPARATOR) as [k|] eqn:Ek; cbn [fst snd].
  - apply strchr_Some in Ek as (t1 & t2 & Et & _ & ->). rewrite Et, Nat2Z.id, take_app_length, drop_app_add.
    rewrite Et in E. split; [by eapply (fit_part a t1)|]. apply (fit_part (a ++ t1 ++ [OS_PATH_SEPARATOR]) t2 [] l); [|done].
    rewrite E at 1. by rewrite app_nil_r, <- !app_assoc.
  - split; [|apply fit_nil]. apply (fit_part a _ [] l); [|done]. by rewrite app_nil_r.
Qed.

Lemma fit_case lower start n l : fit l -> fit (case_range lower start n l).
Proof.
  unfold fit, is_cstr, case_range, size_. intros [H Hl]. split.
  - apply Forall_app. split; [by apply Forall_take|]. apply Forall_app. split; [|by apply Forall_drop].
    apply Forall_fmap. eapply Forall_impl; [by apply Forall_take, Forall_drop|]. intros c Hc. simpl. unfold case_char.
    destruct lower; case_if; simpl in *; bool_to_prop; lia.
  - rewrite !length_app, length_fmap, !length_take, !length_drop. lia.
Qed.

Lemma arg_cstring l : is_cstr l -> cstring (arg l) m = Some l.
Proof. apply (cstring_outside m l []). Qed.

Lemma arg_stable ps l : stable8 ps m (arg l) l.
Proof. apply (stable8_outside ps m l [0]). Qed.

Lemma arg_stable_nul ps l : stable8 ps m (arg l) (l ++ [0]).
Proof. intros m' _. apply gives_outside. Qed.

Lemma good_ok f p ps t : (exists q m', f p m = Some (NO_ERROR, q, m') /\ becomes8 m ps q m' t) ->
  exists q m', good f p m = Some (q, m') /\ becomes8 m ps q m' t.
Proof. intros (q & m' & E & H). unfold good. rewrite E. cbn [mbind option_bind]. eauto. Qed.

Lemma few_cons ps p : few (p :: ps) -> few ps.
Proof. unfold few. simpl. lia. Qed.

Lemma other_pointer i j o : i <> j -> vs !! j = Some o -> o ∈ gE :: pointers (delete i vs).
Proof. intros Hne Ho. right. apply (pointers_elem _ j). by rewrite lookup_delete_ne. Qed.

(** ** New strings *)

Lemma sim8_New i : valid S (New i) -> sim (New i).
Proof.
  intros [HS Hn]. apply create_sim; [done..|apply fit_nil|]. intros ps Hc He Hf _.
  destruct (getEmpty_ok gE m ps Hc He Hf) as (q & m' & E & _ & Hb). unfold new_string8. eauto.
Qed.

Lemma sim8_FromBytes i l : valid S (FromBytes i l) -> sim (FromBytes i l).
Proof.
  intros [[HS Hn] Hl]. apply create_sim; [done..|]. intros ps Hc He Hf _.
  apply from_bytes_ok; [done..|apply arg_stable|fit_lia].
Qed.

Lemma sim8_FromCString i l : valid S (FromCString i l) -> sim (FromCString i l).
Proof.
  intros [[HS Hn] Hl]. apply create_sim; [done..|]. intros ps Hc He Hf _.
  apply from_cstring_ok; [done..|apply arg_cstring, Hl|apply arg_stable|fit_lia].
Qed.

Lemma out8_scalars cs : Forall is_scalar cs -> out8 cs = text8 cs.
Proof. intros H. apply (groups_of_scalars cs H). Qed.

Lemma scalars_nonneg cs : Forall is_scalar cs -> Forall (fun c => 0 <= c) cs.
Proof. intros H. eapply Forall_impl; [exact H|]. unfold is_scalar. lia. Qed.

Lemma scalars_char16 cs : Forall is_scalar cs -> Forall char16 cs.
Proof.
  intros H. eapply Forall_impl; [exact H|].
  unfold is_scalar, char16, kUnicodeSurrogateStart, kUnicodeSurrogateEnd. lia.
Qed.

Lemma sim8_FromUtf16 i cs : valid S (FromUtf16 i cs) -> sim (FromUtf16 i cs).
Proof.
  intros ([HS Hn] & Hcs & Hl & Hfit). apply create_sim; [done..|]. intros ps Hc He Hf _.
  rewrite <- out8_scalars in * by done.
  destruct (allocFromUTF16_ok gE junk m ps cs Hc He Hf (scalars_char16 cs Hcs)) as (q & m' & E & _ & Hb); [fit_lia|].
  exists q, m'. split; [exact E|done].
Qed.

Lemma sim8_FromUtf32 i cs : valid S (FromUtf32 i cs) -> sim (FromUtf32 i cs).
Proof.
  intros ([HS Hn] & Hcs & Hl & Hfit). apply create_sim; [done..|]. intros ps Hc He Hf _.
  rewrite <- out8_scalars in * by done.
  destruct (allocFromUTF32_ok gE junk m ps cs Hc He Hf (scalars_nonneg cs Hcs)) as (q & m' & E & _ & Hb); [fit_lia|].
  exists q, m'. split; [exact E|done].
Qed.

(** A string that is made of another one. *)
Lemma sim_part i j c (f : Z -> mem Z -> option (Z * mem Z)) (g : list Z -> list Z) :
  exec c (vs, m) = create_from i j f (vs, m) -> astep c S = <[i := g (default [] (S !! j))]> S ->
  (forall s, fit s -> fit (g s)) ->
  (forall p ps s, counted m ps -> has_empty gE m ps -> few ps -> p ∈ ps -> text m p s -> is_cstr s -> short (size_ s) ->
     makes m ps (f p m) (g s)) ->
  (S !! i = None /\ Z.of_nat (size S) + 16 < 2 ^ 31) /\ is_Some (S !! j) -> sim c.
Proof.
  intros E1 E2 Hg Hf [[HS Hn] [s Hs]]. unfold sim. rewrite E1, E2, Hs. simpl default.
  destruct (string_lookup j s Hs) as (_ & _ & _ & Hfit). eapply create_from_sim; [done..|by apply Hg|].
  intros. by apply Hf.
Qed.

Lemma sim_parts i j :
  (valid S (Copy i j) -> sim (Copy i j)) /\ (valid S (PathLeaf i j) -> sim (PathLeaf i j)) /\
  (valid S (PathDir i j) -> sim (PathDir i j)) /\ (valid S (PathExtension i j) -> sim (PathExtension i j)) /\
  (valid S (BasePath i j) -> sim (BasePath i j)).
Proof.
  split_and!; intros H.
  - apply (sim_part i j (Copy i j) copy_string8 (fun s => s) eq_refl eq_refl); [done| |exact H].
    intros. by apply makes_copy.
  - apply (sim_part i j (PathLeaf i j) (getPathLeaf gE) path_leaf eq_refl eq_refl fit_leaf); [|exact H]. intros. by apply getPathLeaf_ok.
  - apply (sim_part i j (PathDir i j) (getPathDir gE) path_dir eq_refl eq_refl fit_dir); [|exact H]. intros. by apply getPathDir_ok.
  - destruct H as (H1 & H2 & _).
    apply (sim_part i j (PathExtension i j) (getPathExtension gE) path_ext eq_refl eq_refl fit_ext); [|done].
    intros. by apply getPathExtension_ok.
  - destruct H as (H1 & H2 & _).
    apply (sim_part i j (BasePath i j) (getBasePath gE) path_base eq_refl eq_refl fit_base); [|done]. intros. by apply getBasePath_ok.
Qed.

(** ** Changes of a string *)

Lemma sim8_Clear i : valid S (Clear i) -> sim (Clear i).
Proof.
  intros [s HS]. apply (change_sim i _ s); [done|apply fit_nil|]. intros p ps Hc Ht He Hf _ _ _.
  unfold clear. destruct (drop_ref_ok m ps p s Hc Ht) as (m1 & -> & Hc1 & Hk1). cbn [mbind option_bind].
  destruct (getEmpty_ok gE m1 ps Hc1) as (q & m2 & -> & _ & Hb);
    [by eapply has_empty_keeps|by eapply few_cons|]. exists q, m2. split; [done|]. by eapply becomes8_tr.
Qed.

Lemma sim8_SetTo i j : valid S (SetTo i j) -> sim (SetTo i j).
Proof.
  intros [[s HS] [t Ht']]. destruct (string_lookup j t Ht') as (o & Ho & Ht & Hfit). unfold sim. simpl.
  rewrite Ho, Ht'. cbn [mbind option_bind default from_option Datatypes.id]. apply (change_sim i _ s); [done..|].
  intros p ps Hc Hp He Hf _ Hvs ->. destruct (setTo_ok m _ p s o t Hc Hp Hf) as (m' & E & Hb); [|done|eauto].
  destruct (decide (i = j)) as [<-|Hne]; [rewrite Ho in Hvs; simplify_eq; by left|]. right. by eapply other_pointer.
Qed.

Lemma sim8_SetToBytes i l : valid S (SetToBytes i l) -> sim (SetToBytes i l).
Proof.
  intros [[s HS] Hl]. apply (change_sim i _ s); [done..|]. intros p ps Hc Ht He Hf _ _ _. apply good_ok.
  unfold setTo_cstring, strlen. rewrite arg_cstring by apply Hl. cbn [mbind option_bind].
  apply (setTo_bytes_ok gE m ps p s); [done..|apply arg_stable|fit_lia].
Qed.

Lemma sim8_SetToUtf16 i cs : valid S (SetToUtf16 i cs) -> sim (SetToUtf16 i cs).
Proof.
  intros ([s HS] & Hcs & Hl & Hfit). apply (change_sim i _ s); [done..|]. intros p ps Hc Ht He Hf _ _ _.
  rewrite <- out8_scalars in * by done.
  apply good_ok. apply (set_new_ok gE m ps p s); [done..|].
  apply allocFromUTF16_ok; [done|by apply has_empty_cons|done|by apply scalars_char16|fit_lia..].
Qed.

Lemma sim8_SetToUtf32 i cs : valid S (SetToUtf32 i cs) -> sim (SetToUtf32 i cs).
Proof.
  intros ([s HS] & Hcs & Hl & Hfit). apply (change_sim i _ s); [done..|]. intros p ps Hc Ht He Hf _ _ _.
  rewrite <- out8_scalars in * by done.
  apply good_ok. apply (set_new_ok gE m ps p s); [done..|].
  apply allocFromUTF32_ok; [done|by apply has_empty_cons|done|by apply scalars_nonneg|fit_lia..].
Qed.

Lemma sim8_Append i j : valid S (Append i j) -> sim (Append i j).
Proof.
  intros (Hne & [s HS] & [t Ht'] & Hfit). destruct (string_lookup j t Ht') as (o & Ho & Ht & _). unfold sim. simpl.
  simpl in Hfit. rewrite HS, Ht' in *. rewrite Ho. cbn [mbind option_bind default from_option Datatypes.id] in *. apply (change_sim i _ s); [done..|].
  intros p ps Hc Hp He Hf _ _ ->. apply good_ok. apply append_string_ok; [done..| |done|].
  - by eapply other_pointer.
  - unfold fit, size_ in Hfit. rewrite length_app in Hfit. fit_lia.
Qed.

Lemma sim8_AppendBytes i l : valid S (AppendBytes i l) -> sim (AppendBytes i l).
Proof.
  intros ([s HS] & Hfit). unfold sim. simpl in *. rewrite HS in *. cbn [default from_option Datatypes.id] in *. apply (change_sim i _ s); [done..|].
  intros p ps Hc Ht He Hf _ _ _. apply good_ok. unfold append_cstring, strlen.
  destruct Hfit as [Hcl Hsz]. apply Forall_app in Hcl as [_ Hcl]. unfold size_ in Hsz. rewrite length_app in Hsz.
  rewrite arg_cstring by done. cbn [mbind option_bind]. apply append_bytes_ok; [done..|fit_lia|apply arg_stable].
Qed.

Lemma sim8_ChangeCase lower i start n : valid S (ChangeCase lower i start n) -> sim (ChangeCase lower i start n).
Proof.
  intros ([s HS] & Hok & Hn). unfold sim. simpl in *. rewrite HS in *. cbn [default from_option Datatypes.id] in *.
  destruct (string_lookup i s HS) as (_ & _ & _ & Hfit).
  apply (change_sim i _ s); [done|by apply fit_case|]. intros p ps Hc Ht He Hf _ _ _.
  destruct (toCase_ok sgn m ps p s lower start n Hc Ht) as (q & m' & E & Hb); [by eapply few_cons|fit_lia|done..|].
  exists q, m'. split; [|done]. by destruct lower.
Qed.

Lemma sim8_SetPathName i l : valid S (SetPathName i l) -> sim (SetPathName i l).
Proof.
  intros ([s HS] & Hl). apply (change_sim i _ s); [done|by apply fit_name|]. intros p ps Hc Ht He Hf _ _ _.
  apply (setPathName_ok m ps p s); [done..|by eapply few_cons|apply arg_cstring, Hl|apply arg_stable|fit_lia].
Qed.

Lemma sim8_AppendPath i l : valid S (AppendPath i l) -> sim (AppendPath i l).
Proof.
  intros ([s HS] & Hl & Hfit). unfold sim. simpl in *. rewrite HS in *. cbn [default from_option Datatypes.id] in *.
  apply (change_sim i _ s); [done..|]. intros p ps Hc Ht He Hf Hs _ _.
  apply (appendPath_ok m ps p s); [done..|by eapply few_cons|apply arg_cstring, Hl|apply arg_stable_nul|apply arg_stable|fit_lia].
Qed.

Lemma sim8_AppendPathString i j : valid S (AppendPathString i j) -> sim (AppendPathString i j).
Proof.
  intros (Hne & [s HS] & [t Ht'] & Hfit). destruct (string_lookup j t Ht') as (o & Ho & Ht & Hft). unfold sim. simpl in *.
  rewrite HS, Ht', Ho in *. cbn [mbind option_bind default from_option Datatypes.id] in *. apply (change_sim i _ s); [done..|].
  intros p ps Hc Hp He Hf Hs _ ->. apply (appendPath_ok m _ p s); [done..|by eapply few_cons|apply cstring_whole, Hft; done| | |fit_lia].
  - apply (stable8_text _ m o t [] (t ++ [0]) []); [done|by eapply other_pointer|by rewrite app_nil_r].
  - apply (stable8_text _ m o t [] t [0]); [done|by eapply other_pointer|done].
Qed.

(** ** Walking and destroying *)

Lemma sim8_WalkPath i j k : valid S (WalkPath i j k) -> sim (WalkPath i j k).
Proof.
  intros ([HS Hn] & Hjk & [s Hj] & [old Hk]). unfold sim. simpl.
  destruct (string_lookup j s Hj) as (p & Hp & Ht & Hs & Hl). destruct (string_lookup k old Hk) as (o & Ho & Hto & _).
  rewrite Hp, Ho, Hj. cbn [mbind option_bind default from_option Datatypes.id].
  assert (Hvs : vs !! i = None).
  { apply not_elem_of_dom. pose proof (rep_dom _ _ R) as D. simpl in D. rewrite D. by apply not_elem_of_dom. }
  assert (Hik : i <> k) by congruence. set (ps := gE :: pointers (delete k vs)).
  destruct (walkPath_ok gE m ps p s o old) as (q & o' & m' & -> & Hc' & Htq & Hto' & Hkeep); try done.
  - eapply counted_perm; [|apply (rep_counted _ _ R)]. cbn [fst]. rewrite (pointers_lookup vs k o Ho). apply perm_swap.
  - apply rep_has_empty. by left.
  - unfold ps. simpl. rewrite length_pointers, map_size_delete, Ho, size_vs. unfold Datatypes.id in *. lia.
  - right. apply (pointers_elem _ j). by rewrite lookup_delete_ne.
  - fit_lia.
  - cbn [mbind option_bind]. eexists. split; [done|]. destruct (fit_first s (conj Hs Hl)) as [Hf1 Hf2]. split; cbn [fst snd].
    + eapply counted_perm; [|exact Hc']. rewrite pointers_insert, delete_insert_ne, delete_id, pointers_insert by done.
      etransitivity; [apply perm_skip, perm_swap|apply perm_swap].
    + eapply text_keeps; [exact Hkeep|by left|apply (rep_empty _ _ R)].
    + rewrite map_size_insert_None, map_size_insert_Some by (rewrite ?lookup_insert_ne; eauto). lia.
    + rewrite !dom_insert_L. do 2 f_equal. apply (rep_dom _ _ R).
    + intros n p' l. destruct (decide (i = n)) as [<-|Hin].
      { rewrite !lookup_insert_eq. by intros [= <-] [= <-]. }
      rewrite !(lookup_insert_ne _ i) by done. destruct (decide (k = n)) as [<-|Hkn].
      { rewrite !lookup_insert_eq. by intros [= <-] [= <-]. }
      rewrite !lookup_insert_ne by done. intros Hp' Hl'. destruct (rep_text _ _ R n p' l Hp' Hl') as [H1 H2].
      split; [|done]. eapply text_keeps; [exact Hkeep| |exact H1]. right. apply (pointers_elem _ n). by rewrite lookup_delete_ne.
Qed.

Lemma sim8_Destroy i : valid S (Destroy i) -> sim (Destroy i).
Proof.
  intros [s HS]. destruct (string_lookup i s HS) as (p & Hp & Ht & _). unfold sim. simpl. rewrite Hp. cbn [mbind option_bind].
  destruct (drop_ref_ok m (gE :: pointers (delete i vs)) p s) as (m' & E & Hc & Hk); [|done|].
  { eapply counted_perm; [|apply (rep_counted _ _ R)]. cbn [fst]. rewrite (pointers_lookup vs i p Hp). apply perm_swap. }
  unfold destroy_string8. rewrite E. cbn [mbind option_bind]. eexists. split; [done|]. split; cbn [fst snd].
  - exact Hc.
  - eapply text_keeps; [exact Hk|by left|apply (rep_empty _ _ R)].
  - rewrite map_size_delete, HS. pose proof (rep_few _ _ R). unfold Datatypes.id. lia.
  - rewrite !dom_delete_L. f_equal. apply (rep_dom _ _ R).
  - intros j p' l [Hij Hp']%lookup_delete_Some [_ Hl]%lookup_delete_Some. destruct (rep_text _ _ R j p' l Hp' Hl) as [H1 H2].
    split; [|done]. eapply text_keeps; [exact Hk| |exact H1]. right. apply (pointers_elem _ j). by rewrite lookup_delete_ne.
Qed.
End sim.

Lemma string_step s S c : represents s S -> valid S c -> exists s', exec c s = Some s' /\ represents s' (astep c S).
Proof.
  intros R Hc. destruct s as [vs m]. change (sim vs m S c).
  destruct c; eauto using sim8_New, sim8_FromBytes, sim8_FromCString, sim8_FromUtf16, sim8_FromUtf32, sim8_Destroy,
    sim8_Clear, sim8_SetTo, sim8_SetToBytes, sim8_SetToUtf16, sim8_SetToUtf32, sim8_Append, sim8_AppendBytes,
    sim8_ChangeCase, sim8_SetPathName, sim8_AppendPath, sim8_AppendPathString, sim8_WalkPath.
  all: by apply (sim_parts vs m S R).
Qed.

(** ** What a client sees *)

(** Where [find] finds a C string. *)
Definition find_answer (o : list Z) (start : nat) (l : list Z) : Z :=
  if (length l <=? start)%nat then -1
  else match strstr (drop start l) o with Some k => Z.of_nat start + k | None => -1 end.

(** Every string has its length and characters, is compared and searched
    correctly; without strings only the shared empty one is left in memory. *)
Definition shows (s : strings * mem Z) (S : gmap nat (list Z)) : Prop :=
  (forall i l, S !! i = Some l -> exists p, s.1 !! i = Some p /\ length8 p s.2 = Some (size_ l) /\
     cstring (Inside p 0) s.2 = Some l /\
     (forall o start, is_cstr o -> find (arg o) (Z.of_nat start) p s.2 = Some (find_answer o start l)) /\
     (forall j t, S !! j = Some t -> exists o, s.1 !! j = Some o /\ compare o p s.2 = Some (strcmp l t))) /\
  (S = ∅ -> forall p, is_Some (bufs s.2 !! p) -> p = gE).

Lemma find_string_ok m ps p l o (start : nat) : counted m ps -> text m p l -> fit l -> is_cstr o ->
  find (arg o) (Z.of_nat start) p m = Some (find_answer o start l).
Proof.
  intros Hc Ht Hl Ho. unfold find, find_answer. rewrite (length8_ok m ps p l) by (done || fit_lia).
  cbn [mbind option_bind]. destruct (Nat.leb_spec (length l) start) as [Hle|Hlt].
  - by rewrite (proj2 (Z.leb_le _ _)) by lia.
  - rewrite (proj2 (Z.leb_gt _ _)) by lia. pose proof (take_drop start l) as E.
    assert (Hd : is_cstr (drop start l)) by (unfold is_cstr; apply Forall_drop, Hl).
    replace (Z.of_nat start) with (Z.of_nat (length (take start l))) at 1 by (rewrite length_take; lia).
    rewrite (cstring_text m p l (take start l) (drop start l) Ht (eq_sym E) Hd). cbn [mbind option_bind].
    rewrite arg_cstring by done. done.
Qed.

Lemma strings_show s S : represents s S -> shows s S.
Proof.
  intros R. destruct s as [vs m]. split.
  - intros i l HS. destruct (string_lookup vs m S R i l HS) as (p & Hp & Ht & Hfit). exists p. split; [done|].
    split; [eapply length8_ok; [apply (rep_counted _ _ R)|done|fit_lia]|].
    split; [apply cstring_whole; [done|apply Hfit]|]. split.
    + intros o start Ho. eapply find_string_ok; [apply (rep_counted _ _ R)|done..].
    + intros j t Hj. destruct (string_lookup vs m S R j t Hj) as (o & Hvo & Hto & Hft). exists o. split; [done|].
      unfold compare. cbn [snd]. rewrite (cstring_whole m p l Ht (proj1 Hfit)). cbn [mbind option_bind].
      by rewrite (cstring_whole m o t Hto (proj1 Hft)).
  - intros -> p [b Hb]. destruct (counted_buf _ _ (rep_counted _ _ R) p b Hb) as (_ & _ & H%refs_to_pos).
    assert (vs = ∅) as ->. { apply dom_empty_inv_L. pose proof (rep_dom _ _ R) as D. simpl in D. by rewrite D, dom_empty_L. }
    cbn [fst] in H. unfold pointers in H. rewrite map_to_list_empty in H. by apply list_elem_of_singleton in H.
Qed.

(** [n] commands, each chosen knowing what the earlier ones did. *)
Fixpoint safe (n : nat) (s : strings * mem Z) (S : gmap nat (list Z)) : Prop :=
  shows s S /\
  match n with
  | O => True
  | Datatypes.S n => forall c, valid S c -> exists s', exec c s = Some s' /\ safe n s' (astep c S)
  end.

Lemma represents_safe n : forall s S, represents s S -> safe n s S.
Proof.
  induction n as [|n IH]; intros s S R; (split; [by apply strings_show|]); [done|].
  intros c Hc. destruct (string_step s S c R Hc) as (s' & E & R'). eauto.
Qed.
End client.

Section values.
Context {AL : Allocator} {PS : PathSeparator} {SD : Sound char_type AL}.


(** Path names are taken apart and put together again.  Of any string, the
    directory, a separator and the leaf are the path, and the base path and the
    extension are the path; leaf and extension have no separator, the extension
    starts with the leaf's last dot; the first component and the remains are the
    path without a leading separator. *)
Theorem path_parts gE m ps p s :
  counted m ps -> has_empty gE m ps -> Z.of_nat (length ps) + 7 < 2 ^ 31 -> p ∈ ps -> text m p s -> fit s ->
  exists dir leaf base ext,
    makes m ps (getPathDir gE p m) dir /\ makes m ps (getPathLeaf gE p m) leaf /\
    makes m ps (getBasePath gE p m) base /\ makes m ps (getPathExtension gE p m) ext /\
    s = base ++ ext /\ OS_PATH_SEPARATOR ∉ leaf /\
    (OS_PATH_SEPARATOR ∈ s -> s = dir ++ [OS_PATH_SEPARATOR] ++ leaf) /\
    (OS_PATH_SEPARATOR ∉ s -> dir = [] /\ leaf = s) /\
    (ext = [] /\ 46 ∉ leaf \/ exists e, ext = 46 :: e /\ 46 ∉ e /\ OS_PATH_SEPARATOR ∉ e) /\
    (forall o old, counted m (o :: ps) -> text m o old ->
       exists q o' m' first rest, walkPath gE (Some o) p m = Some (q, Some o', m') /\ text m' q first /\ text m' o' rest /\
         OS_PATH_SEPARATOR ∉ first /\
         (after_root s = first /\ rest = [] \/ after_root s = first ++ [OS_PATH_SEPARATOR] ++ rest)).
Proof.
  intros Hc He Hf Hp Ht [Hs Hl]. assert (Hfew : few ps) by (unfold few; lia).
  assert (Hsh : short (Z.of_nat (length s))) by (unfold short, size_ in *; lia).
  exists (path_dir s), (path_leaf s), (path_base s), (path_ext s).
  destruct (path_leaf_split s) as (a & E & Hleaf & Ha).
  split; [by apply getPathDir_ok|]. split; [by apply getPathLeaf_ok|]. split; [by apply getBasePath_ok|].
  split; [by apply getPathExtension_ok|]. split; [apply path_ext_split|]. split; [done|]. split; [|split; [|split]].
  - intros Hin. destruct Ha as [(H%strrchr_None & _)|[_ ->]]; [done|]. by rewrite <- app_assoc in E.
  - intros Hin. destruct Ha as [(_ & -> & ->)|[H _]]; [done|]. apply strrchr_None in Hin. congruence.
  - unfold path_ext. destruct (leaf_ext_split (path_leaf s)) as (a' & E' & [[E2 ->]|[_ (e & Ee & He')]]).
    + left. split; [done|]. by apply strrchr_None.
    + right. exists e. split; [done|]. split; [done|]. rewrite Ee in E'. rewrite E' in Hleaf. set_solver.
  - intros o old Hco Hto.
    destruct (walkPath_ok gE m ps p s o old Hco Hto He Hf Hp Ht Hs Hsh) as (q & o' & m' & Ew & _ & Hq & Ho' & _).
    exists q, o', m', (path_first s).1, (path_first s).2. split; [done|]. split; [done|]. split; [done|].
    unfold path_first. destruct (strchr (after_root s) OS_PATH_SEPARATOR) as [k|] eqn:Ek; cbn [fst snd].
    + apply strchr_Some in Ek as (t1 & t2 & -> & Hn & ->). rewrite Nat2Z.id, take_app_length, drop_app_add.
      split; [done|]. by right.
    + split; [by apply strchr_None|]. by left.
Qed.
End values.

(** ** Witnesses *)

Definition slash : PathSeparator := {| OS_PATH_SEPARATOR := 47; separator_ok := conj eq_refl eq_refl |}.

