(* ===== verification/String8Faults.v ===== *)
(** * system/libutils/String8.cpp: where the strings go wrong

    Concrete runs that the theorems about strings exclude. *)

From S2P Require Import Prelude VectorImpl VectorRefine VectorSort Unicode UnicodeText UnicodeConv.
From S2P Require Import String8 String8Refine String8Path.

(** An allocator that moves what it resizes, and one without memory. *)
Definition moving : Allocator := fun k _ _ => 64 * (Z.of_nat k + 1).
Definition exhausted : Allocator := fun _ _ _ => 0.

(** The empty string at 8, shared, and a string at 32 with [refs] references. *)
Definition one_string (refs : Z) (s : list Z) : mem Z :=
  mkMem (<[8 := mkBuffer 2 1 [Some 0]]> {[ 32 := mkBuffer refs (Z.of_nat (length s) + 1) (Some <$> (s ++ [0])) ]}) 0.

(** [s.append(s)] and [s.append(s.string())] read the old buffer after it was
    resized; a string that shares its buffer is copied in time. *)
Lemma append_itself_faults :
  @append moving 32 32 (one_string 1 [97; 98]) = None /\
  @append_cstring moving 8 (Inside 32 0) 32 (one_string 1 [97; 98]) = None /\
  exists m, @append moving 32 32 (one_string 2 [97; 98]) = Some (NO_ERROR, 64, m) /\ text m 64 [97; 98; 97; 98].
Proof.
  split; [vm_compute; reflexivity|]. split; [vm_compute; reflexivity|].
  eexists. split; [vm_compute; reflexivity|]. by eexists.
Qed.

(** When [vsnprintf] fails, [appendFormat] reports no error and leaves a string
    that is one character shorter and not ended by a NUL. *)
Lemma format_error_corrupts :
  exists m, @appendFormatV moving None None 32 (one_string 1 [97; 98]) = Some (NO_ERROR, 64, m) /\
    length8 64 m = Some 1 /\ cstring (Inside 64 0) m = None.
Proof.
  exists (mkMem (<[64 := mkBuffer 1 2 [Some 97; Some 98]]> {[ 8 := mkBuffer 2 1 [Some 0] ]}) 1).
  split_and!; vm_compute; reflexivity.
Qed.

(** [toLower(1, SIZE_MAX)] wraps around instead of being cut, and writes behind
    the string. *)
Lemma case_range_wraps sgn length : u32 (1 + length) <= 2 -> 3 <= length ->
  @toLower moving sgn 1 length 32 (one_string 1 [97; 98]) = None.
Proof.
  intros Hw Hl. unfold toLower, toCase. change (length8 32 (one_string 1 [97; 98])) with (Some 2).
  cbn [mbind option_bind]. change (2 <=? 1) with false. cbv iota. rewrite (proj2 (Z.ltb_ge 2 _)) by done.
  change (@lockBuffer moving 2 32 (one_string 1 [97; 98])) with (Some (32, 32, one_string 1 [97; 98])).
  cbn [mbind option_bind]. cbv zeta. destruct (Z.to_nat length) as [|[|[|n]]] eqn:E; [lia..|]. by destruct sgn.
Qed.

Lemma case_range_overflows sgn : @toLower moving sgn 1 4294967295 32 (one_string 1 [97; 98]) = None.
Proof. by apply case_range_wraps. Qed.

(** Without memory the path functions write through NULL. *)
Lemma path_without_memory_faults {PS : PathSeparator} :
  @setPathName exhausted PS (Outside [97; 98; 99; 0]) 32 (one_string 1 [97; 98]) = None.
Proof. vm_compute. reflexivity. Qed.

(** Without memory [setTo] reports that only for text in UTF-8. *)
Lemma set_without_memory :
  (exists m, @setTo_cstring exhausted 8 (Outside [97; 0]) 32 (one_string 1 [98]) = Some (NO_MEMORY, 8, m)) /\
  (exists m, @setTo_utf16 exhausted 8 (fun _ => 0) [97] 1 32 (one_string 1 [98]) = Some (NO_ERROR, 8, m)).
Proof. split; eexists; vm_compute; reflexivity. Qed.

(** A high surrogate without a low one makes a string overrun its buffer. *)
Lemma lone_surrogate_overruns_buffer :
  @from_utf16 moving 8 (fun _ => 0) [0xD800; 0x41] 2 (one_string 1 [98]) = None.
Proof. vm_compute. reflexivity. Qed.

(** The extension of ["foo."] is ["."]. *)
Lemma extension_of_final_dot {PS : PathSeparator} : ~ OS_PATH_SEPARATOR ∈ [102; 111; 111; 46] ->
  path_ext [102; 111; 111; 46] = [46].
Proof. intros H%strrchr_None. unfold path_ext, path_leaf. by rewrite H. Qed.

(** When the second call of [vsnprintf] prints less than the first, as it may on
    the argument list that the first has walked, the string's length and its NUL
    disagree. *)
Lemma format_twice_disagrees :
  exists m, @appendFormatV moving (Some [99; 100; 101]) (Some [99]) 32 (one_string 1 [97; 98])
      = Some (NO_ERROR, 64, m) /\
    length8 64 m = Some 5 /\ cstring (Inside 64 0) m = Some [97; 98; 99].
Proof. eexists. split; [vm_compute; reflexivity|]. split; vm_compute; reflexivity. Qed.
