(* ===== verification/PollerInit.v ===== *)
(** * libnet/Poller.cpp: how the poller comes to be

    The pipe that wakes the poller ([wakePipe]), [SocketPoller::init] and the
    destructor, with every result of the system calls: the state that the
    theorems of [Poller] start from.  The calls that make descriptors are the
    class [Files]; [fcntl]'s answers are arguments.  Locking a mutex that the
    thread holds, and reading the uninitialised [pipefd], are [None]. *)

From S2P Require Import Prelude TimeList CList SlotAlloc AbsTimer Poller.
From S2P Require Holder.

(** [fd] is a new descriptor, which nobody watches yet. *)
Definition opens {K} {KL : Kernel K} (k : K) (fd : Z) (k' : K) : Prop :=
  0 <= fd /\ is_open k fd = false /\ is_watched k' fd = false
  /\ (forall x, is_open k' x = is_open k x || (x =? fd))
  /\ (forall x, x <> fd -> is_watched k' x = is_watched k x).

(** [new_fd] is [socket] or [epoll_create], which answer -1 when they fail;
    [pipe_fds] is [pipe]. *)
Class Files (K : Type) {KL : Kernel K} := {
  new_fd : K -> Z * K;
  pipe_fds : K -> option (Z * Z) * K;
  new_fd_ok k : let '(fd, k') := new_fd k in fd = -1 /\ k' = k \/ opens k fd k';
  pipe_fds_ok k : match pipe_fds k with
                  | (None, k') => k' = k
                  | (Some (r, w), k') => exists k1, opens k r k1 /\ opens k1 w k'
                  end
}.

(** The answers of the four [fcntl]s on the pipe's two ends. *)
Record flags := mkFlags { getfl0 : Z; setfl0 : Z; getfl1 : Z; setfl1 : Z }.

(** A pipe's object: its [sock] is the end that is read. *)
Record wakePipe := mkPipe { pipe_sock : Z; write_fd : Z }.

Section init.
Context {H : Type} {IL : IntrusiveList H} {K : Type} {KL : Kernel K} {FL : Files K}.
Implicit Types (k : K) (s : @poller H K).

(** ** wakePipe *)

Definition wakePipe_init (fl : flags) (p : wakePipe) k : option (Z * wakePipe * K) :=
  match pipe_fds k with
  | (None, _) => None
  | (Some (r, w), k) =>
      let err :=
        if getfl0 fl =? -1 then NO_ERROR
        else if negb (setfl0 fl =? NO_ERROR) then setfl0 fl
        else if getfl1 fl =? -1 then setfl0 fl
        else setfl1 fl in
      if negb (err =? NO_ERROR) then Some (err, p, close_fd w (close_fd r k))
      else Some (err, mkPipe r w, k)
  end.

(** [create] is called with the lock of [SocketPoller::Instance] held, and
    deleting the pipe takes it again in [~ITransport]. *)
Definition wakePipe_create (fl : flags) k : option (wakePipe * K) :=
  '(err, p, k) ← wakePipe_init fl (mkPipe (-1) (-1)) k;
  if negb (err =? NO_ERROR) then None else Some (p, k).

(** The descriptors are closed here. *)
Definition wakePipe_destroy (p : wakePipe) k : K :=
  let k := if negb (pipe_sock p =? -1) then close_fd (pipe_sock p) k else k in
  if negb (write_fd p =? -1) then close_fd (write_fd p) k else k.

(** ** SocketPoller *)

(** The rest of the poller's object. *)
Record core := mkCore { coreDescriptor : Z; mWakeOn_ : option wakePipe }.
Definition newCore : core := mkCore (-1) None.

(** [setfd] is what [fcntl] answers for the descriptor of [epoll_create].
    [mWakeOn] is the address of the pipe's object. *)
Definition poller_init (mWakeOn : Z) (setfd : Z) (fl : flags) (c : core) s : option (Z * core * poller) :=
  if negb (coreDescriptor c =? -1) then Some (UNKNOWN_ERROR, c, s)
  else
    let '(corefd, k) := new_fd (kernel s) in
    let s := set_kernel k s in
    if (corefd <? 0) || (setfd =? -1) then
      Some (UNKNOWN_ERROR, c, if negb (corefd =? -1) then set_kernel (close_fd corefd (kernel s)) s else s)
    else
      '(p, k) ← wakePipe_create fl (kernel s);
      let s := set_sock mWakeOn (pipe_sock p) (set_kernel k s) in
      let c := mkCore (coreDescriptor c) (Some p) in
      '(err, h) ← Holder.insert (pipe_sock p) mWakeOn (holder s);
      let s := set_holder h s in
      if negb (err =? NO_ERROR) then Some (err, c, set_kernel (close_fd corefd (kernel s)) s)
      else
        let '(ok, k) := epoll_add (pipe_sock p) (kernel s) in
        let s := set_kernel k s in
        if ok then Some (NO_ERROR, mkCore corefd (Some p), s)
        else Some (err, c, s).

(** What [Instance] does for the first caller.  When [init] failed the new
    poller is deleted, under the lock that [~ITransport] takes. *)
Definition Instance (mWakeOn : Z) (setfd : Z) (fl : flags) s : option (option core * poller) :=
  '(err, c, s) ← poller_init mWakeOn setfd fl newCore s;
  if err =? NO_ERROR then Some (Some c, s)
  else match mWakeOn_ c with
       | Some _ => None
       | None => Some (None, s)
       end.

(** The destructor. *)
Definition poller_destroy (c : core) k : K :=
  let k := match mWakeOn_ c with Some p => wakePipe_destroy p k | None => k end in
  close_fd (coreDescriptor c) k.

(** ** What it establishes *)

Lemma opens_old k fd k' x : opens k fd k' -> is_open k x = true -> x <> fd /\ is_open k' x = true.
Proof.
  intros (_ & Hc & _ & Ho & _) Hx. split; [by intros ->; rewrite Hx in Hc|]. by rewrite Ho, Hx.
Qed.

Lemma opens_new k fd k' : opens k fd k' -> is_open k' fd = true.
Proof. intros (_ & _ & _ & Ho & _). by rewrite Ho, Z.eqb_refl, orb_true_r. Qed.

Variables (mArray head mWakeOn : Z).
Hypothesis alloc_invalid : slot_invalid (Holder.holder_alloc mArray head) = false.
Hypothesis alloc_valid : valid Holder.WORD (initialised Holder.WORD (Holder.holder_alloc mArray head)).

(** Before: no transport has a socket, the table has room. *)
Record blank (D : gset Z) s : Prop := {
  bl_holder : Holder.holder_inv mArray head (holder s) [];
  bl_table : (size (Holder.denote (Holder.mQueue (holder s))) < 50)%nat;
  bl_timers : wfq (timers s) [];
  bl_dom : dom (sock s) = D;
  bl_sock i fd : sock s !! i = Some fd -> fd = -1
}.

(** After: the pipe is the only transport with a socket; the poller has three
    descriptors. *)
Definition started k0 (p : wakePipe) (corefd : Z) s : Prop :=
  (forall i fd, sock s !! i = Some fd -> fd = if i =? mWakeOn then pipe_sock p else -1)
  /\ is_open k0 corefd = false /\ is_open k0 (write_fd p) = false /\ is_open k0 (pipe_sock p) = false
  /\ (forall x, is_open (kernel s) x =
        is_open k0 x || (x =? corefd) || (x =? write_fd p) || (x =? pipe_sock p))
  /\ is_watched (kernel s) (pipe_sock p) = true
  /\ pipe_sock p <> corefd /\ pipe_sock p <> write_fd p /\ 0 <= pipe_sock p /\ 0 <= write_fd p /\ 0 <= corefd.

Lemma poller_init_ok D setfd fl s :
  blank D s -> mWakeOn ∈ D -> mWakeOn <> 0 ->
  (forall k fd, is_open k fd = true -> is_watched k fd = false -> (epoll_add fd k).1 = true) ->
  forall err c s', poller_init mWakeOn setfd fl newCore s = Some (err, c, s') -> err = NO_ERROR ->
  exists p corefd, c = mkCore corefd (Some p) /\ started (kernel s) p corefd s'
    /\ pinv mWakeOn mArray head D s' [].
Proof.
  intros [B1 B2 B3 B4 B5] Hw Hw0 Hadd err c s'. unfold poller_init. cbn [coreDescriptor newCore]. cbn [Z.eqb negb].
  pose proof (new_fd_ok (kernel s)) as Hn. destruct (new_fd (kernel s)) as [corefd k1].
  destruct (_ || _) eqn:Ef; [intros [= <- <- <-]; done|]. apply orb_false_iff in Ef as [Ec _]. apply Z.ltb_ge in Ec.
  destruct Hn as [[-> _]|Hn]; [lia|]. cbn [kernel set_kernel].
  intros ([p k] & E & E2)%bind_Some. unfold wakePipe_create in E.
  apply bind_Some in E as ([[e p'] k'] & E & E3). destruct (negb _) eqn:Ee; [done|]. injection E3 as -> ->.
  apply negb_false_iff, Z.eqb_eq in Ee as ->. unfold wakePipe_init in E.
  pose proof (pipe_fds_ok k1) as Hp. destruct (pipe_fds k1) as [[[r w]|] k2]; [|done].
  cbv zeta in E. set (e0 := if _ =? -1 then _ else _) in E. destruct (Z.eqb_spec e0 NO_ERROR) as [Ee|]; cbn [negb] in E;
    [|by injection E]. injection E as _ <- <-.
  destruct Hp as (k3 & Hr & Hw'). cbn [pipe_sock holder set_sock set_kernel set_holder] in E2.
  destruct (Holder.insert_ok mArray head alloc_invalid alloc_valid r mWakeOn (holder s) B1 Hw0) as (h & Ei & Ih & Ed).
  rewrite (proj2 (Nat.ltb_lt _ _) B2) in Ei, Ed. rewrite Ei in E2. cbn [mbind option_bind] in E2.
  destruct (opens_old k3 w k2 r Hw' (opens_new _ _ _ Hr)) as [Hne Hro]. change (negb (NO_ERROR =? NO_ERROR)) with false in E2.
  cbn [holder set_sock set_kernel set_holder kernel] in E2.
  assert (Hrw : is_watched k2 r = false).
  { destruct Hw' as (_ & _ & _ & _ & Hw'). rewrite Hw' by done. by destruct Hr as (_ & _ & ? & _). }
  pose proof (Hadd k2 r Hro Hrw) as Ha. pose proof (add_open k2 r) as Ko. pose proof (add_watched k2 r) as Kw.
  destruct (epoll_add r k2) as [ok k4]. cbn [fst snd] in *. subst ok. intros _. injection E2 as _ <- <-.
  destruct (opens_old _ _ _ corefd Hr (opens_new _ _ _ Hn)) as [Hrc _].
  assert (Hopen : forall x, is_open k4 x = is_open (kernel s) x || (x =? corefd) || (x =? w) || (x =? r)).
  { intros x. rewrite Ko. destruct Hw' as (_ & _ & _ & -> & _). destruct Hr as (_ & _ & _ & -> & _).
    destruct Hn as (_ & _ & _ & -> & _). rewrite <- !orb_assoc. do 2 f_equal. apply orb_comm. }
  assert (Hclosed : is_open (kernel s) corefd = false /\ is_open (kernel s) w = false /\ is_open (kernel s) r = false).
  { destruct Hn as (_ & Hc & _ & Hn & _). destruct Hr as (_ & Hr & _ & Hr' & _). destruct Hw' as (_ & Hw2 & _).
    rewrite Hr', Hn in Hw2. rewrite Hn in Hr. split; [done|].
    split; [by destruct (is_open (kernel s) w)|by destruct (is_open (kernel s) r)]. }
  assert (Hsock : forall i fd, <[mWakeOn := r]> (sock s) !! i = Some fd -> fd = if i =? mWakeOn then r else -1).
  { intros i fd. destruct (Z.eqb_spec i mWakeOn) as [->|].
    - rewrite lookup_insert_eq. by intros [= <-].
    - rewrite lookup_insert_ne by done. apply B5. }
  exists (mkPipe r w), corefd. split; [done|].
  assert (0 <= r) by apply Hr. assert (0 <= w) by apply Hw'. destruct Hclosed as (? & ? & ?). split.
  - unfold started. cbn [pipe_sock write_fd kernel sock set_kernel set_holder set_sock]. split_and!; try done.
    by rewrite Kw, Z.eqb_refl, orb_true_r.
  - split; cbn [holder timers sock kernel set_kernel set_holder set_sock]; [done|done| | | |].
    + rewrite dom_insert_lookup_L; [done|]. apply elem_of_dom. by rewrite B4.
    + intros i fd Hi. apply Hsock in Hi as ->. destruct (Z.eqb_spec i mWakeOn); [|by left]. right. split; [done|].
      by rewrite Hopen, Z.eqb_refl, !orb_true_r.
    + intros i j fd Hi Hj Hfd. apply Hsock in Hi. apply Hsock in Hj.
      destruct (Z.eqb_spec i mWakeOn); [|congruence]. destruct (Z.eqb_spec j mWakeOn); congruence.
    + exists r. split_and!; [done|by rewrite lookup_insert_eq| |by rewrite Kw, Z.eqb_refl, orb_true_r].
      by rewrite Ed, lookup_insert_eq.
Qed.
End init.

(** ** A concrete kernel

    [socket] and its like give the lowest descriptor that is free, up to 63. *)
Definition lowest (k : fdset) : option Z := snd <$> list_find (fun x => x ∉ opened k ∪ watched k) (seqZ 3 61).

Definition open_lowest (k : fdset) : Z * fdset :=
  match lowest k with Some fd => (fd, mkFd ({[fd]} ∪ opened k) (watched k)) | None => (-1, k) end.

Lemma open_lowest_ok k : let '(fd, k') := open_lowest k in fd = -1 /\ k' = k \/ opens k fd k'.
Proof.
  unfold open_lowest, lowest. destruct (list_find _ _) as [[i fd]|] eqn:E; cbn [fmap option_fmap option_map snd]; [|by left].
  apply list_find_Some in E as (Hi & Hn & _). apply lookup_seqZ in Hi. right. unfold opens. cbn.
  split; [lia|]. split_and!; [apply bool_decide_eq_false_2; set_solver..| |done].
  intros x. apply eq_true_iff_eq. rewrite orb_true_iff, Z.eqb_eq, !bool_decide_eq_true. set_solver.
Qed.

#[export] Instance fdset_files : Files fdset.
Proof.
  refine {| new_fd := open_lowest;
            pipe_fds k := let '(r, k1) := open_lowest k in
                          let '(w, k2) := open_lowest k1 in
                          if (r <? 0) || (w <? 0) then (None, k) else (Some (r, w), k2) |}.
  - intros k. exact (open_lowest_ok k).
  - intros k. pose proof (open_lowest_ok k) as Hr. destruct (open_lowest k) as [r k1].
    pose proof (open_lowest_ok k1) as Hw. destruct (open_lowest k1) as [w k2].
    destruct (_ || _) eqn:E; [done|]. apply orb_false_iff in E as [E1%Z.ltb_ge E2%Z.ltb_ge].
    destruct Hr as [[-> _]|Hr]; [lia|]. destruct Hw as [[-> _]|Hw]; [lia|]. by exists k1.
Defined.

(** A poller that is about to start, for the transports 60 (its pipe), 70 and
    71. *)
Definition before (K : Type) (k : K) : option (@poller heap K) :=
  h ← Holder.newHolder 1000 100 empty_heap;
  Some (mkPoller h (newQ noon) k {[60 := -1; 70 := -1; 71 := -1]} [] [] 0).
Definition all_set : flags := mkFlags 2 0 1 0.
Definition std : fdset := mkFd {[0; 1; 2]} ∅.

Lemma before_blank K (k : K) s : before K k = Some s -> blank 1000 100 {[60; 70; 71]} s /\ kernel s = k.
Proof.
  unfold before. destruct (Holder.newHolder_ok 1000 100 eq_refl Holder.some_alloc_valid empty_heap) as (h & -> & Ih & Eq).
  cbn [mbind option_bind]. intros [= <-]. split; [|done]. split; cbn [holder timers sock]; [done| |apply newQ_wfq| |].
  - rewrite Eq. change (0 < 50)%nat; lia.
  - rewrite !dom_insert_L, dom_singleton_L. set_solver.
  - intros i fd Hi. repeat (apply lookup_insert_Some in Hi as [[_ <-]|[_ Hi]]; [done|]).
    by apply lookup_singleton_Some in Hi as [_ <-].
Qed.
