(* ===== verification/Transport.v ===== *)
(** * libnet/Transport.cpp: transports and their sockets

    A [udpTransport] has two fields for its socket: [mSocket], which it uses,
    and [sock] of the base class, which the poller closes and sets to -1 (it is
    in [Poller]'s state).  The operations that make, bind and close sockets are
    here; building and parsing packets is in [Rtp].  The results of the system
    calls are arguments, and [uses] records the descriptor that each call was
    given.  The poller and the socket table are [Poller] and [Holder]. *)

From S2P Require Import Prelude TimeList CList SlotAlloc AbsTimer Poller PollerInit.
From S2P Require Holder Rtp.

(** A transport; [mCallback] is 0 for NULL, [mBindAddr] an address. *)
Record udpTransport := mkUdp {
  mSocket : Z;
  mCallback : Z;
  mBindAddr : option Z;
  mStun : Rtp.stun
}.

Section transport.
Context {H : Type} {IL : IntrusiveList H} {K : Type} {KL : Kernel K} {FL : Files K}.
Variable new_unit : gmap Z EventUnit -> Z.
Variable clock : nat -> timeval.
Variable mWakeOn : Z.
Variable pipe_room : nat.
(** What the callback at an address calls back, by the handler that runs it. *)
Variable user : Z -> hcall -> list pcall.

Record net := mkNet {
  poll : @poller H K;
  udp : gmap Z udpTransport;
  uses : list (Z * Z)
}.

Definition set_poll p n := mkNet p (udp n) (uses n).
Definition set_udp i t n := mkNet (poll n) (<[i := t]> (udp n)) (uses n).
(** A system call of the transport [i] on its [mSocket]. *)
Definition use i fd n := mkNet (poll n) (udp n) (uses n ++ [(i, fd)]).

Definition with_socket fd t := mkUdp fd (mCallback t) (mBindAddr t) (mStun t).
Definition with_stun st t := mkUdp (mSocket t) (mCallback t) (mBindAddr t) st.

(** The constructors; the flags of STUN are set by [init]. *)
Definition new_udp : udpTransport := mkUdp (-1) 0 None (Rtp.mkStun false false ([], [])).

Definition setHandler i callback n : option (Z * net) :=
  t ← udp n !! i; Some (NO_ERROR, set_udp i (mkUdp (mSocket t) callback (mBindAddr t) (mStun t)) n).

(** ** Handlers

    [handleRead] and [handleClose] run the callback, if there is one, with
    [mCallLock] held; [handleWrite] does nothing. *)
Definition callbacks (us : gmap Z udpTransport) (c : hcall) : list pcall :=
  match c with
  | HRead i | HClose i =>
      match us !! i with
      | Some t => if mCallback t =? 0 then [] else user (mCallback t) c
      | None => []
      end
  | HWrite _ => []
  | HTimer h => user h c
  end.

(** [Poller.handle] with the locks: [held] are the transports whose lock this
    thread has; taking one again is undefined. *)
Fixpoint locked_handle (fuel : nat) (us : gmap Z udpTransport) (held : gset Z) (c : hcall) (s : @poller H K)
    : option poller :=
  match fuel with
  | O => None
  | S fuel =>
      let run held s := run_calls new_unit clock pipe_room (locked_handle fuel us held) (callbacks us c) (add_log (Called c) s) in
      match c with
      | HRead i | HClose i =>
          if i =? mWakeOn then Some (match c with HRead _ => wake_read s | _ => s end)
          else if bool_decide (i ∈ held) then None else run ({[i]} ∪ held) s
      | HWrite i => if i =? mWakeOn then Some s else run held s
      | HTimer _ => run held s
      end
  end.

(** The poller with an empty record of what it did. *)
Definition unlogged (p : @poller H K) : poller :=
  mkPoller (holder p) (timers p) (kernel p) (sock p) (pipe p) [] (reads p).

(** ** Making, binding and closing sockets *)

(** [Transport::init] *)
Definition Transport_init i n : option (Z * net) :=
  t ← udp n !! i;
  if mSocket t =? -1 then Some (NO_INIT, n)
  else
    '(ret, p) ← AddTransport i (set_sock i (mSocket t) (poll n));
    Some (ret, set_poll p n).

Definition udp_init i n : option (Z * net) :=
  t ← udp n !! i;
  '(ret, n) ←
    if 2 <? mSocket t then Some (NO_ERROR, n)
    else
      let '(fd, k) := new_fd (kernel (poll n)) in
      let n := set_udp i (with_socket fd t) (set_poll (set_kernel k (poll n)) n) in
      if fd <? 0 then Some (UNKNOWN_ERROR, n)
      else
        t ← udp n !! i;
        Transport_init i (set_udp i (with_stun (Rtp.mkStun false false (Rtp.mReflAddr (mStun t))) t) n);
  t ← udp n !! i;
  if negb (ret =? NO_ERROR) && (2 <? mSocket t) then
    Some (ret, set_udp i (with_socket (-1) t)
                 (set_poll (set_kernel (close_fd (mSocket t) (kernel (poll n))) (poll n)) n))
  else Some (ret, n).

(** [Transport::doClose]; the locks are free. *)
Definition doClose i n : option (Z * net) :=
  '(ret, p) ← CloseTransport (locked_handle (S (size (sock (poll n)))) (udp n) ∅) i (unlogged (poll n));
  Some (ret, set_poll p n).

(** The destructor: it closes, and so does the one of the base class. *)
Definition destroy i n : option net :=
  '(_, n) ← doClose i n;
  p ← destroy_ITransport i (poll n);
  Some (mkNet p (delete i (udp n)) (uses n)).

(** Calls on the socket; [r] is the answer of the system call, and
    [setsockopt(SO_REUSEADDR)]'s is not looked at. *)
Definition guarded i n (f : udpTransport -> net -> Z * net) : option (Z * net) :=
  t ← udp n !! i;
  if mSocket t <? 0 then Some (UNKNOWN_ERROR, n) else Some (f t n).

Definition setTypeOfService i (r : Z) n : option (Z * net) :=
  guarded i n (fun t n => (r, use i (mSocket t) n)).
Definition setVLanPriority i (r : Z) n : option (Z * net) :=
  guarded i n (fun t n => (r, use i (mSocket t) n)).
Definition connectTo i (r : Z) n : option (Z * net) :=
  guarded i n (fun t n => (r, use i (mSocket t) n)).

Definition bindAddress i (addr : Z) (reuse : bool) (r : Z) n : option (Z * net) :=
  guarded i n (fun t n =>
    let n := if reuse then use i (mSocket t) n else n in
    let n := use i (mSocket t) n in
    if r <? 0 then (r, n)
    else (NO_ERROR, set_udp i (mkUdp (mSocket t) (mCallback t) (Some addr)
                                     (Rtp.mkStun false false ([0; 0], [0; 0; 0; 0]))) n)).

(** [bind], [ioctl(SIOCGIFADDR)], [setsockopt(IP_ADD_MEMBERSHIP)] *)
Definition joinGroup i (addr r1 r2 r3 : Z) n : option (Z * net) :=
  guarded i n (fun t n =>
    let n := use i (mSocket t) n in
    if r1 <? 0 then (r1, n)
    else
      let n := use i (mSocket t) n in
      if r2 <? 0 then (r2, n)
      else
        let n := use i (mSocket t) n in
        if r3 <? 0 then (r3, n)
        else (NO_ERROR, set_udp i (mkUdp (mSocket t) (mCallback t) (Some addr) (mStun t)) n)).

(** [getHostAddr] reads the second interface of the list. *)
Definition getHostAddr i (addr : Z) n : option (Z * Z * net) :=
  t ← udp n !! i;
  if mSocket t <? 0 then Some (UNKNOWN_ERROR, 0, n) else Some (NO_ERROR, addr, use i (mSocket t) n).

(** [deliver]: [sent] is the answer of [sendto] for a packet of [size] bytes. *)
Definition deliver i (size sent : Z) n : option (Z * net) :=
  t ← udp n !! i;
  Some (if sent <? size then UNKNOWN_ERROR else NO_ERROR, use i (mSocket t) n).

(** [sendStunRequest], [dropStunParsing] and [receive] of [Rtp] on the
    transport's own fields. *)
Definition sendStunRequest i (ids : list Z) (sent : Z) n : option (Z * net) :=
  t ← udp n !! i;
  let '(ret, msg, st) := Rtp.sendStunRequest ids sent (mStun t) in
  let n := set_udp i (with_stun st t) n in
  Some (ret, match msg with Some _ => use i (mSocket t) n | None => n end).

Definition dropStunParsing i n : option (Z * net) :=
  t ← udp n !! i;
  let '(ret, st) := Rtp.dropStunParsing (mStun t) in Some (ret, set_udp i (with_stun st t) n).

(** A turn of the poller's thread. *)
Definition turn rs n : option (outcome * net) :=
  '(o, p) ← threadLoop new_unit clock mWakeOn pipe_room (callbacks (udp n)) rs (unlogged (poll n));
  Some (o, set_poll p n).

(** A client of the transports; each call with the answers of its system
    calls. *)
Inductive cmd :=
| CInit (i : Z) | CClose (i : Z) | CHandler (i callback : Z)
| CTos (i r : Z) | CPriority (i r : Z) | CConnect (i r : Z)
| CBind (i addr : Z) (reuse : bool) (r : Z) | CJoin (i addr r1 r2 r3 : Z)
| CDeliver (i size sent : Z) | CStun (i : Z) (ids : list Z) (sent : Z) | CDrop (i : Z)
| CTurn (rs : list (bool * wait_result)).

Definition exec (c : cmd) n : option net :=
  match c with
  | CInit i => snd <$> udp_init i n
  | CClose i => snd <$> doClose i n
  | CHandler i callback => snd <$> setHandler i callback n
  | CTos i r => snd <$> setTypeOfService i r n
  | CPriority i r => snd <$> setVLanPriority i r n
  | CConnect i r => snd <$> connectTo i r n
  | CBind i addr reuse r => snd <$> bindAddress i addr reuse r n
  | CJoin i addr r1 r2 r3 => snd <$> joinGroup i addr r1 r2 r3 n
  | CDeliver i size sent => snd <$> deliver i size sent n
  | CStun i ids sent => snd <$> sendStunRequest i ids sent n
  | CDrop i => snd <$> dropStunParsing i n
  | CTurn rs => snd <$> turn rs n
  end.

Fixpoint run (cs : list cmd) n : option net :=
  match cs with [] => Some n | c :: cs => n ← exec c n; run cs n end.

(** ** Who owns the descriptors

    [base] are the descriptors that do not belong to transports. *)

Record owned (base : Z -> bool) (k : K) (so : gmap Z Z) : Prop := {
  ow_distinct i j fd : so !! i = Some fd -> so !! j = Some fd -> fd <> -1 -> i = j;
  ow_base i fd : so !! i = Some fd -> fd <> -1 -> base fd = false;
  ow_watched i fd : so !! i = Some fd -> fd <> -1 -> is_watched k fd = true;
  ow_open x : is_open k x = true <-> base x = true \/ x <> -1 /\ exists i, so !! i = Some x
}.
Definition accounts base (s : @poller H K) : Prop := owned base (kernel s) (sock s).

Lemma owned_add base k so fd : owned base k so -> owned base (epoll_add fd k).2 so.
Proof.
  intros [A B C O]. split; [done|done| |].
  - intros i x Hi Hx. by rewrite add_watched, (C i x).
  - intros x. by rewrite add_open.
Qed.

(** Closing the descriptor of a transport. *)
Lemma owned_shut base k k' so i fd :
  owned base k so -> so !! i = Some fd -> fd <> -1 ->
  (forall x, is_open k' x = is_open k x && negb (x =? fd)) ->
  (forall x, is_watched k' x = is_watched k x && negb (x =? fd)) ->
  owned base k' (<[i := -1]> so).
Proof.
  intros [A B C O] Hi Hfd Ho Hw.
  assert (Hother : forall j x, <[i := -1]> so !! j = Some x -> x <> -1 -> so !! j = Some x /\ j <> i /\ x <> fd).
  { intros j x Hj Hx. destruct (decide (i = j)) as [<-|Hne]; [rewrite lookup_insert_eq in Hj; congruence|].
    rewrite lookup_insert_ne in Hj by done. split_and!; [done..|]. intros ->. by apply Hne, (A i j fd). }
  split.
  - intros j l x Hj Hl Hx. destruct (Hother j x Hj Hx) as (Hj' & _). destruct (Hother l x Hl Hx) as (Hl' & _). by apply (A j l x).
  - intros j x Hj Hx. destruct (Hother j x Hj Hx) as (Hj' & _). by apply (B j x).
  - intros j x Hj Hx. destruct (Hother j x Hj Hx) as (Hj' & _ & Hne).
    rewrite Hw, (C j x), (proj2 (Z.eqb_neq x fd)) by done. done.
  - intros x. rewrite Ho, andb_true_iff, negb_true_iff, Z.eqb_neq, O. split.
    + intros [[?|[Hx [j Hj]]] Hne]; [by left|]. right. split; [done|]. exists j.
      rewrite lookup_insert_ne; [done|]. intros ->. congruence.
    + intros [Hb|[Hx [j Hj]]].
      * split; [by left|]. intros ->. by rewrite (B i fd Hi Hfd) in Hb.
      * destruct (Hother j x Hj Hx) as (Hj' & _ & Hne). split; [right; eauto|done].
Qed.

Section preserved.
Variable base : Z -> bool.
Variable reaction : hcall -> list pcall.
Abbreviation acc := (accounts base).

Lemma AddTransport_acc i s v s' : AddTransport i s = Some (v, s') -> acc s -> acc s'.
Proof.
  unfold AddTransport, accounts. destruct (i =? 0); [by intros [= <- <-]|]. intros (fd & _ & E)%bind_Some.
  destruct (fd =? -1); [by injection E as <- <-|]. apply bind_Some in E as ([r h] & _ & E).
  intros A. pose proof (owned_add base (kernel s) (sock s) fd A) as A'. destruct (epoll_add fd (kernel s)) as [ok k].
  by injection E as <- <-.
Qed.

Lemma CloseTransport_acc (call : hcall -> @poller H K -> option poller) i s v s' :
  (forall c s s', call c s = Some s' -> acc s -> acc s') -> CloseTransport call i s = Some (v, s') -> acc s -> acc s'.
Proof.
  unfold CloseTransport. intros Hcall. destruct (i =? 0); [by intros [= <- <-]|]. intros (fd & Hfd & E)%bind_Some A.
  destruct (Z.eqb_spec fd (-1)) as [|Hne]; [by injection E as <- <-|]. apply bind_Some in E as ([r h] & _ & E).
  cbn [holder timers kernel sock pipe log reads set_holder set_kernel set_sock add_log] in E.
  pose proof (del_succeeds (kernel s) fd) as Hd. rewrite (ow_watched _ _ _ A i fd Hfd Hne) in Hd.
  pose proof (del_open (kernel s) fd) as Ko. pose proof (del_watched (kernel s) fd) as Kw.
  destruct (epoll_del fd (kernel s)) as [ok k]. cbn [fst snd] in *. subst ok.
  apply bind_Some in E as (s2 & E1 & E2). injection E2 as _ <-. apply (Hcall _ _ _ E1).
  eapply (owned_shut base (kernel s)); [done..| |]; intros x; cbn [kernel set_kernel set_holder set_sock add_log].
  - by rewrite close_open, Ko.
  - rewrite close_watched, Kw. by destruct (is_watched _ x), (x =? fd).
Qed.

Lemma exec_pcall_acc (call : hcall -> @poller H K -> option poller) c s s' :
  (forall c s s', call c s = Some s' -> acc s -> acc s') ->
  exec_pcall new_unit clock pipe_room call c s = Some s' -> acc s -> acc s'.
Proof.
  intros Hcall E A. destruct c; cbn [exec_pcall] in E; apply fmap_Some in E as ([v s1] & E & ->); cbn [snd].
  - by eapply AddTransport_acc.
  - by eapply CloseTransport_acc.
  - rewrite AddTimedCallback_run in E. destruct (_ || _); [by injection E as <- <-|]. apply bind_Some in E as ([tok q] & _ & E).
    injection E as <- <-. destruct (_ =? _); [done|]. unfold accounts.
    destruct (wake_same pipe_room FUNC (read_clock (set_timers q s))) as (_ & _ & -> & -> & _). done.
  - rewrite AddPeriodSignal_run in E. destruct (_ || _); [by injection E as <- <-|]. apply bind_Some in E as ([tok q] & _ & E).
    injection E as <- <-. destruct (_ =? _); [done|]. unfold accounts.
    destruct (wake_same pipe_room COND (read_clock (set_timers q s))) as (_ & _ & -> & -> & _). done.
  - apply bind_Some in E as ([h q] & _ & E). by injection E as <- <-.
Qed.

Lemma handle_acc n c s s' :
  handle new_unit clock mWakeOn pipe_room reaction n c s = Some s' -> acc s -> acc s'.
Proof.
  revert c s s'. induction n as [|n IH]; intros c s s' E; cbn [handle] in E; [done|].
  assert (Hrun : forall cs s1 s2,
    run_calls new_unit clock pipe_room (handle new_unit clock mWakeOn pipe_room reaction n) cs s1 = Some s2 -> acc s1 -> acc s2).
  { induction cs as [|d cs IHcs]; intros s1 s2; cbn [run_calls]; [by intros [= <-]|].
    intros (s3 & E1 & E2)%bind_Some A. eapply IHcs; [done|]. by eapply exec_pcall_acc. }
  destruct c; try (destruct (_ =? mWakeOn); [by injection E as <-|]); intros A; by eapply Hrun.
Qed.

Lemma fire_acc p s s' : fire new_unit clock mWakeOn pipe_room reaction p s = Some s' -> acc s -> acc s'.
Proof.
  unfold fire. intros (e & _ & E)%bind_Some A.
  assert (Ho : forall r : option (effect * TimedEventQ),
    ('(eff, q) ← r; Some (read_clock (add_log (Effected eff) (set_timers q s)))) = Some s' -> acc s').
  { intros r E'. apply bind_Some in E' as ([eff q] & _ & E'). by injection E' as <-. }
  destruct (type e); try by eapply Ho.
  apply bind_Some in E as (s1 & E1 & E2). injection E2 as <-. apply handle_acc in E1; [|done]. exact E1.
Qed.

Lemma alarm_acc s s' : alarm new_unit clock mWakeOn pipe_room reaction s = Some s' -> acc s -> acc s'.
Proof.
  unfold alarm. intros ([due q] & _ & E)%bind_Some A.
  assert (A' : acc (read_clock (set_timers q s))) by done. revert E A'. generalize (read_clock (set_timers q s)). clear A s.
  induction due as [|p due IH]; intros s; cbn [fire_all]; [by intros [= <-]|].
  intros (s1 & E1 & E2)%bind_Some A. eapply IH; [done|]. by eapply fire_acc.
Qed.

Lemma dispatch_one_acc ev s s' :
  dispatch_one new_unit clock mWakeOn pipe_room reaction ev s = Some s' -> acc s -> acc s'.
Proof.
  unfold dispatch_one. intros ([[err r] h] & _ & E)%bind_Some A. destruct r as [i|]; [|by injection E as <-].
  apply bind_Some in E as (fd & Hfd & E). cbn [holder timers kernel sock set_holder] in *. destruct (has _ _).
  - destruct (Z.leb_spec 0 fd); [|by injection E as <-]. apply bind_Some in E as ([v h'] & _ & E).
    apply handle_acc in E; [done|]. eapply (owned_shut base (kernel s)); [done..|lia| |];
      intros x; cbn [kernel set_kernel set_holder set_sock add_log]; [by rewrite close_open|by rewrite close_watched].
  - destruct (0 <=? fd); [|by injection E as <-]. apply bind_Some in E as (s1 & E1 & E2).
    assert (acc s1) by (destruct (has _ _); [by eapply handle_acc|by injection E1 as <-]).
    destruct (has (ev_events ev) EPOLLOUT); [by eapply handle_acc|by injection E2 as <-].
Qed.

Lemma threadLoop_acc rs s o s' :
  threadLoop new_unit clock mWakeOn pipe_room reaction rs s = Some (o, s') -> acc s -> acc s'.
Proof.
  revert s. induction rs as [|[exit r] rs IH]; intros s; cbn [threadLoop]; [by intros [= <- <-]|].
  intros ([ms s0] & E0 & E)%bind_Some A. unfold loop_sleep in E0.
  apply bind_Some in E0 as (ms' & _ & E0). injection E0 as _ <-.
  apply bind_Some in E as ([o' s2] & E0 & E). set (s0 := add_log _ _) in E0.
  assert (A2 : acc s2); [|destruct o' as [o'|]; [by injection E as _ <-|by eapply IH]].
  clear E IH. unfold loop_awake in E0. destruct exit; [by injection E0 as _ <-|]. rename E0 into E.
  assert (Hagain : forall s1, alarm new_unit clock mWakeOn pipe_room reaction s0 = Some s1 -> acc s1).
  { intros s1 E1. by eapply alarm_acc. }
  destruct r as [[|ev evs]| |].
  - apply bind_Some in E as (s1 & E1 & E2). injection E2 as _ <-. by apply Hagain.
  - apply bind_Some in E as (s1 & E1 & E2). apply bind_Some in E2 as (s3 & E2 & E3). injection E3 as _ <-.
    apply Hagain in E1. revert s1 E2 E1. generalize (ev :: evs). clear -reaction. intros evs.
    induction evs as [|e evs IH]; intros s1; cbn [dispatch]; [by intros [= <-]|].
    intros (s4 & E3 & E4)%bind_Some A. eapply IH; [done|]. by eapply dispatch_one_acc.
  - apply bind_Some in E as (s1 & E1 & E2). injection E2 as _ <-. by apply Hagain.
  - by injection E as _ <-.
Qed.
End preserved.
End transport.
