(* ===== verification/TransportClient.v ===== *)
(** * libnet/Transport.cpp: what a client of the transports relies on

    Any sequence of calls on a fixed set of transports, between turns of the
    poller's thread, from the poller's start to its end: every descriptor
    belongs to one transport at most, and none is lost. *)

From S2P Require Import Prelude TimeList CList SlotAlloc AbsTimer Poller PollerInit Transport.
From S2P Require Holder Rtp.

Section client.
Context {H : Type} {IL : IntrusiveList H} {K : Type} {KL : Kernel K} {FL : Files K}.
Variable new_unit : gmap Z EventUnit -> Z.
Variable clock : nat -> timeval.
Variable mWakeOn : Z.
Variable pipe_room : nat.
Variable user : Z -> hcall -> list pcall.
Variables mArray head : Z.
Hypothesis alloc_invalid : slot_invalid (Holder.holder_alloc mArray head) = false.
Hypothesis alloc_valid : valid Holder.WORD (initialised Holder.WORD (Holder.holder_alloc mArray head)).
Hypothesis new_unit_fresh : forall u, new_unit u <> 0 -> u !! new_unit u = None.
Hypothesis clock_ok : forall n, reading_ok (clock n).
Variable D : gset Z.                 (* the transports, the poller's pipe among them *)
Hypothesis D_nonzero : 0 ∉ D.
Hypothesis D_wake : mWakeOn ∈ D.

(** Callbacks do not close transports (in the source they only read), and use
    the poller as [Poller] asks. *)
Definition gentle (c : pcall) : Prop :=
  match c with PClose _ => False | _ => pcall_ok mWakeOn D c end.
Hypothesis user_gentle : forall cb c, Forall gentle (user cb c).

(** The kernel watches what it is asked to. *)
Hypothesis watches : forall (k : K) fd, is_open k fd = true -> is_watched k fd = false -> (epoll_add fd k).1 = true.

Implicit Types (n : @net H K) (s : @poller H K).
Abbreviation pinv := (pinv mWakeOn mArray head D).
Abbreviation callbacks := (callbacks user).

Lemma callbacks_gentle us c : Forall gentle (callbacks us c).
Proof.
  destruct c as [i|i|i|h]; cbn [Transport.callbacks]; [|constructor| |apply user_gentle];
    (destruct (us !! i); [|constructor]; destruct (_ =? _); [constructor|apply user_gentle]).
Qed.

Lemma callbacks_ok us c : Forall (pcall_ok mWakeOn D) (callbacks us c).
Proof. eapply Forall_impl; [apply callbacks_gentle|]. by intros []. Qed.

(** Such callbacks never find a lock taken. *)
Lemma run_calls_gentle (call call' : hcall -> poller -> option poller) cs s :
  Forall gentle cs -> run_calls new_unit clock pipe_room call cs s = run_calls new_unit clock pipe_room call' cs s.
Proof.
  intros Hcs. revert s. induction Hcs as [|c cs Hc _ IH]; intros s; cbn [run_calls]; [done|].
  destruct c; [|done|..]; cbn [exec_pcall]; destruct (snd <$> _); cbn [mbind option_bind]; auto.
Qed.

Lemma locks_free f us c s :
  locked_handle new_unit clock mWakeOn pipe_room user (S f) us ∅ c s =
  handle new_unit clock mWakeOn pipe_room (callbacks us) (S f) c s.
Proof.
  cbn [locked_handle handle]. destruct c as [i|i|i|h]; try (destruct (i =? mWakeOn); [done|]);
    rewrite ?bool_decide_eq_false_2 by set_solver; apply run_calls_gentle, callbacks_gentle.
Qed.

(** ** The invariant *)

Variable base : Z -> bool.
Hypothesis base_std : forall x, 0 <= x <= 2 -> base x = true.
Variable wfd : Z.

Record tinv n : Prop := {
  ti_poller : pinv (poll n) [];
  ti_owned : accounts base (poll n);
  ti_dom : dom (udp n) = D ∖ {[mWakeOn]};
  ti_wake : sock (poll n) !! mWakeOn = Some wfd;
  ti_wfd : 0 <= wfd;
  ti_sock i t fd : udp n !! i = Some t -> sock (poll n) !! i = Some fd -> fd = -1 \/ fd = mSocket t;
  ti_socket i t : udp n !! i = Some t -> mSocket t = -1 \/ 2 < mSocket t
}.

Lemma tinv_live n i : tinv n -> i ∈ D -> i <> mWakeOn -> is_Some (udp n !! i).
Proof.
  intros I Hi Hw. apply elem_of_dom. rewrite (ti_dom _ I). apply elem_of_difference.
  split; [exact Hi|]. intros E%elem_of_singleton. exact (Hw E).
Qed.

Lemma tinv_in n i t : tinv n -> udp n !! i = Some t -> i ∈ D /\ i <> mWakeOn /\ i <> 0.
Proof.
  intros I Hi. assert (Hd : i ∈ dom (udp n)) by (apply elem_of_dom; by eexists). rewrite (ti_dom _ I) in Hd.
  apply elem_of_difference in Hd as [Hd Hw]. rewrite elem_of_singleton in Hw.
  split; [exact Hd|]. split; [exact Hw|]. intros ->. exact (D_nonzero Hd).
Qed.

Lemma unlogged_pinv s : pinv s [] -> pinv (unlogged s) [].
Proof. intros I. by eapply pinv_same. Qed.

Lemma unlogged_settled s : pinv s [] -> settled mWakeOn mArray head D (sock s) [] (unlogged s).
Proof.
  intros I. apply (settled_start new_unit clock mWakeOn (callbacks ∅) mArray head alloc_invalid alloc_valid new_unit_fresh
    clock_ok D D_nonzero (callbacks_ok ∅) (unlogged s)); [by apply unlogged_pinv|done].
Qed.

(** A transport's other fields do not matter. *)
Lemma tinv_fields n i t t' u : tinv n -> udp n !! i = Some t -> mSocket t' = mSocket t ->
  tinv (mkNet (poll n) (<[i := t']> (udp n)) u).
Proof.
  intros [A B C W W0 F G] Hi E. split; cbn [poll udp]; try done.
  - rewrite dom_insert_lookup_L; [done|by eexists].
  - intros j tj fd Hj. destruct (decide (i = j)) as [<-|Hne].
    + rewrite lookup_insert_eq in Hj. injection Hj as <-. rewrite E. by apply F.
    + rewrite lookup_insert_ne in Hj by done. by apply F.
  - intros j tj Hj. destruct (decide (i = j)) as [<-|Hne].
    + rewrite lookup_insert_eq in Hj. injection Hj as <-. rewrite E. by eapply G.
    + rewrite lookup_insert_ne in Hj by done. by eapply G.
Qed.

Lemma tinv_uses n u : tinv n -> tinv (mkNet (poll n) (udp n) u).
Proof. by intros []. Qed.

(** The poller changes, and transports are closed at most. *)
Lemma tinv_poll n p : tinv n -> pinv p [] -> accounts base p ->
  (forall i, sock p !! i = sock (poll n) !! i \/ is_Some (sock (poll n) !! i) /\ sock p !! i = Some (-1)) ->
  tinv (set_poll p n).
Proof.
  intros [A B C W W0 F G] I O Hs. split; cbn [poll udp set_poll]; try done.
  - destruct (Hs mWakeOn) as [E|[_ E]]; [by rewrite E|]. destruct (pi_wake _ _ _ _ _ _ I) as (fd & H0 & E' & _). rewrite E in E'. injection E'; lia.
  - intros i t fd Ht Hi. destruct (Hs i) as [E|[_ E]]; [|left; congruence]. rewrite E in Hi. by eapply F.
Qed.

(** ** The operations *)

Lemma poll_turn_ok rs n :
  tinv n -> Forall (result_ok mWakeOn (sock (poll n))) rs ->
  exists o n', turn new_unit clock mWakeOn pipe_room user rs n = Some (o, n') /\ tinv n'.
Proof.
  intros I Hrs. unfold turn.
  destruct (threadLoop_returns new_unit clock mWakeOn pipe_room (callbacks (udp n)) mArray head alloc_invalid alloc_valid new_unit_fresh clock_ok D D_nonzero (callbacks_ok _)
    (sock (poll n)) rs (unlogged (poll n)) Hrs) as (o & p & E & I' & Sn & _).
  { apply unlogged_settled, I. }
  rewrite E. cbn [mbind option_bind]. eexists _, _. split; [done|]. apply tinv_poll; [done|done| |apply Sn].
  eapply threadLoop_acc; [done|]. apply I.
Qed.

Lemma doClose_ok i n :
  tinv n -> i ∈ D -> i <> mWakeOn ->
  exists ret n', doClose new_unit clock mWakeOn pipe_room user i n = Some (ret, n') /\ tinv n' /\
    udp n' = udp n /\ sock (poll n') !! i = Some (-1).
Proof.
  intros I Hi Hw. unfold doClose. set (s := unlogged (poll n)).
  assert (Is : pinv s []) by apply unlogged_pinv, I.
  set (call := locked_handle _ _ _ _ _ _ _ _).
  assert (Hacc : forall c s s', call c s = Some s' -> accounts base s -> accounts base s').
  { intros c s1 s2 E. unfold call in E. rewrite locks_free in E. by eapply handle_acc. }
  destruct (live_sock _ _ _ _ s [] i Is Hi) as [fd Hfd].
  destruct (CloseTransport_ok mWakeOn mArray head alloc_valid D D_nonzero call i s [] Is Hi Hw)
    as [(s' & E & I' & _ & Es)|(fd' & s1 & Sh & I1 & E)].
  - rewrite E. cbn [mbind option_bind]. eexists _, _. split; [done|].
    pose proof (CloseTransport_acc base call i s _ s' Hacc E (ti_owned _ I)) as A.
    split; [|split; [done|]].
    + apply tinv_poll; [done..|]. intros j. destruct Es as [-> | ->]; [by left|].
      destruct (decide (i = j)) as [<-|]; [|left; by rewrite lookup_insert_ne].
      right. rewrite lookup_insert_eq. split; [by eexists|done].
    + cbn [poll set_poll]. destruct Es as [Es|Es]; rewrite Es; [|by rewrite lookup_insert_eq].
      (* nothing was changed: it was closed *)
      destruct (Z.eqb_spec fd (-1)) as [->|Hne]; [done|]. exfalso. clear -E Es Hfd Hne I Hi D_nonzero.
      unfold CloseTransport in E. rewrite (proj2 (Z.eqb_neq i 0)), Hfd in E by (intros ->; done). cbn [mbind option_bind] in E.
      rewrite (proj2 (Z.eqb_neq fd (-1))) in E by done. apply bind_Some in E as ([r h] & _ & E).
      pose proof (del_succeeds (kernel s) fd) as Hd. assert (Hw : is_watched (kernel s) fd = true) by apply (ow_watched _ _ _ (ti_owned _ I) i fd Hfd Hne).
      rewrite Hw in Hd.
      cbn [kernel set_sock] in E. destruct (epoll_del fd (kernel s)) as [ok k]. cbn [fst] in Hd. subst ok.
      by apply bind_Some in E as (s2 & _ & [=]).
  - assert (Es : exists s2, call (HClose i) s1 = Some s2 /\ pinv s2 [] /\ since (sock s) s2).
    { destruct (shut_settled mWakeOn mArray head D (sock s) [] s s1 i fd' (unlogged_settled (poll n) (ti_poller _ I)) Sh I1 Hw) as [R L].
      unfold call. rewrite locks_free. pose proof (open_count_size s) as Hc.
      destruct (handle_returns new_unit clock mWakeOn pipe_room (callbacks (udp n)) mArray head alloc_invalid alloc_valid new_unit_fresh clock_ok D D_nonzero (callbacks_ok _)
        (sock s) [] (S (size (sock (poll n)))) (HClose i) s1 R) as (s2 & E2 & (I2 & Sn2 & _) & _).
      - change (sock (poll n)) with (sock s). lia.
      - by exists s2. }
    destruct Es as (s2 & E2 & I2 & Sn2). rewrite E2 in E. cbn [mbind option_bind] in E.
    rewrite E. cbn [mbind option_bind]. eexists _, _. split; [done|].
    pose proof (CloseTransport_acc base call i s _ s2 Hacc E (ti_owned _ I)) as A.
    split; [|split; [done|]].
    + apply tinv_poll; [done..|]. apply Sn2.
    + cbn [poll set_poll]. destruct Sh as (Hi' & Hp & Es1 & El & _). 
      assert (Hin : (i, fd') ∈ closes (log s2)).
      { assert (Hpre : log s1 `prefix_of` log s2).
        { unfold call in E2. rewrite locks_free in E2. by eapply handle_extends. }
        destruct Hpre as [l ->]. rewrite El. unfold closes. rewrite omap_app. apply elem_of_app. left. cbn. by left. }
      by apply (sn_closed _ _ Sn2 i fd' Hin).
Qed.

(** A new descriptor that a transport takes. *)
Lemma take_pinv n i fd k' :
  tinv n -> i ∈ D -> i <> mWakeOn -> opens (kernel (poll n)) fd k' ->
  pinv (set_sock i fd (set_kernel k' (poll n))) [].
Proof.
  intros I Hi Hw (H0 & Hc & _ & Ho & Hk). pose proof (ti_poller _ I) as [I1 I2 I3 I4 I5 (w & W1 & W2 & W3 & W4)].
  assert (Hnew : forall j x, sock (poll n) !! j = Some x -> x <> fd).
  { intros j x Hj ->. destruct (I4 j fd Hj) as [->|[_ E]]; [lia|congruence]. }
  split; cbn [holder timers sock kernel set_sock set_kernel]; [done|done| | | |].
  - rewrite dom_insert_lookup_L; [done|]. apply elem_of_dom. by rewrite I3.
  - intros j x. destruct (decide (i = j)) as [<-|].
    + rewrite lookup_insert_eq. intros [= <-]. right. by rewrite Ho, Z.eqb_refl, orb_true_r.
    + rewrite lookup_insert_ne by done. intros Hj. destruct (I4 j x Hj) as [?|[? E]]; [by left|]. right. by rewrite Ho, E.
  - intros j l x. destruct (decide (i = j)) as [<-|], (decide (i = l)) as [<-|];
      rewrite ?lookup_insert_eq, ?lookup_insert_ne by done; try done.
    + intros [= <-] Hl. by destruct (Hnew l fd Hl).
    + intros Hj [= <-]. by destruct (Hnew j fd Hj).
    + by apply I5.
  - exists w. rewrite lookup_insert_ne by done. split_and!; [done..|]. rewrite Hk; [done|]. by eapply Hnew.
Qed.

Lemma take_owned n i t fd k' :
  tinv n -> udp n !! i = Some t -> mSocket t = -1 -> opens (kernel (poll n)) fd k' ->
  owned base (epoll_add fd k').2 (<[i := fd]> (sock (poll n))).
Proof.
  intros I Ht Hs (H0 & Hc & Hn & Ho & Hk). destruct (tinv_in n i t I Ht) as (Hi & Hw & _).
  destruct (live_sock _ _ _ _ _ _ i (ti_poller _ I) Hi) as [old Hold].
  assert (old = -1) as -> by (destruct (ti_sock _ I i t old Ht Hold); congruence).
  destruct (ti_owned _ I) as [A B C O].
  assert (Hbase : base fd = false).
  { destruct (base fd) eqn:E; [|done]. rewrite (proj2 (O fd)) in Hc; [done|by left]. }
  assert (Hnew : forall j, sock (poll n) !! j <> Some fd).
  { intros j Hj. rewrite (proj2 (O fd)) in Hc; [done|]. right. split; [lia|by eexists]. }
  assert (Ha : (epoll_add fd k').1 = true).
  { apply watches; [|done]. by rewrite Ho, Z.eqb_refl, orb_true_r. }
  split.
  - intros j l x. destruct (decide (i = j)) as [<-|], (decide (i = l)) as [<-|];
      rewrite ?lookup_insert_eq, ?lookup_insert_ne by done; try done.
    + intros [= <-] Hl. by destruct (Hnew l).
    + intros Hj [= <-]. by destruct (Hnew j).
    + by apply A.
  - intros j x. destruct (decide (i = j)) as [<-|]; rewrite ?lookup_insert_eq, ?lookup_insert_ne by done; [by intros [= <-]|apply B].
  - intros j x. rewrite add_watched, Ha. destruct (decide (i = j)) as [<-|].
    + rewrite lookup_insert_eq. intros [= <-] _. by rewrite Z.eqb_refl, orb_true_r.
    + rewrite lookup_insert_ne by done. intros Hj Hx. rewrite Hk; [by rewrite (C j x)|]. intros ->. by destruct (Hnew j).
  - intros x. rewrite add_open, Ho, orb_true_iff, Z.eqb_eq, O. split.
    + intros [[?|[Hx [j Hj]]]| ->]; [by left| |].
      * right. split; [done|]. exists j. rewrite lookup_insert_ne; [done|]. intros ->. congruence.
      * right. split; [lia|]. exists i. by rewrite lookup_insert_eq.
    + intros [?|[Hx [j Hj]]]; [auto|]. destruct (decide (i = j)) as [<-|].
      * rewrite lookup_insert_eq in Hj. injection Hj as ->. by right.
      * rewrite lookup_insert_ne in Hj by done. left. right. split; [done|by eexists].
Qed.

(** The poller takes every transport that has a socket. *)
Lemma AddTransport_taken i fd s :
  pinv s [] -> i ∈ D -> sock s !! i = Some fd -> 0 <= fd -> (epoll_add fd (kernel s)).1 = true ->
  exists s', AddTransport i s = Some (NO_ERROR, s') /\ pinv s' [] /\ sock s' = sock s /\
    kernel s' = (epoll_add fd (kernel s)).2.
Proof.
  intros I Hi Hfd H0 Ha.
  destruct (AddTransport_ok mWakeOn mArray head alloc_invalid alloc_valid D D_nonzero i s [] I Hi) as (r & s' & E & I' & [Q _]).
  exists s'. unfold AddTransport in *. rewrite (proj2 (Z.eqb_neq i 0)), Hfd in * by (intros ->; done).
  cbn [mbind option_bind] in *. rewrite (proj2 (Z.eqb_neq fd (-1))) in * by lia.
  destruct (Holder.insert _ _ _) as [[e h]|]; [|done]. cbn [mbind option_bind] in *.
  destruct (epoll_add fd (kernel s)) as [ok k]. cbn [fst snd] in *. subst ok. injection E as <- <-. by split_and!.
Qed.

Lemma udp_init_ok i n :
  tinv n -> i ∈ D -> i <> mWakeOn -> exists ret n', udp_init i n = Some (ret, n') /\ tinv n'.
Proof.
  intros I Hi Hw. destruct (tinv_live n i I Hi Hw) as [t Ht]. unfold udp_init. rewrite Ht. cbn [mbind option_bind].
  destruct (Z.ltb_spec 2 (mSocket t)) as [Hlt|Hle].
  { cbn [mbind option_bind]. rewrite Ht. cbn [mbind option_bind]. by exists NO_ERROR, n. }
  assert (Hs : mSocket t = -1) by (destruct (ti_socket _ I i t Ht); [done|lia]).
  pose proof (new_fd_ok (kernel (poll n))) as Hn. destruct (new_fd (kernel (poll n))) as [fd k'].
  set (n1 := set_udp _ _ _). destruct (Z.ltb_spec fd 0) as [Hneg|Hpos].
  - cbn [mbind option_bind]. unfold n1. cbn [udp set_udp set_poll]. rewrite lookup_insert_eq. cbn [mbind option_bind mSocket with_socket].
    destruct Hn as [[-> ->]|(? & _)]; [|lia]. change (negb (UNKNOWN_ERROR =? NO_ERROR) && (2 <? -1)) with false.
    eexists _, _. split; [done|].
    assert (E : set_poll (set_kernel (kernel (poll n)) (poll n)) n = n) by (by destruct n as [[]]).
    rewrite E. by apply (tinv_fields n i t (with_socket (-1) t)).
  - destruct Hn as [[-> _]|Hn]; [lia|]. change (udp n1 !! i) with (<[i := with_socket fd t]> (udp n) !! i).
    rewrite lookup_insert_eq. cbn [mbind option_bind]. unfold Transport_init. set (t2 := with_stun _ _). cbn [udp set_udp poll]. rewrite lookup_insert_eq. cbn [mbind option_bind].
    change (mSocket t2) with fd. rewrite (proj2 (Z.eqb_neq fd (-1))) by lia.
    change (poll n1) with (set_kernel k' (poll n)).
    destruct (AddTransport_taken i fd (set_sock i fd (set_kernel k' (poll n)))) as (s' & E & I' & Es & Ek).
    + by apply take_pinv.
    + done.
    + apply lookup_insert_eq.
    + done.
    + apply watches; [|apply Hn]. cbn [kernel set_sock set_kernel]. by eapply opens_new.
    + rewrite E. cbn [mbind option_bind udp set_poll set_udp]. rewrite lookup_insert_eq. cbn [mbind option_bind].
      change (negb (NO_ERROR =? NO_ERROR)) with false. cbn [andb]. eexists _, _. split; [done|].
      assert (Hfd2 : 2 < fd).
      { destruct (Z.ltb_spec 2 fd); [done|]. destruct Hn as (_ & Hc & _).
        rewrite (proj2 (ow_open _ _ _ (ti_owned _ I) fd)) in Hc; [done|]. left. apply base_std. lia. }
      split; cbn [poll udp set_poll set_udp]; try done.
      * unfold accounts. rewrite Ek, Es. by eapply take_owned.
      * unfold n1. cbn [udp set_udp set_poll]. rewrite insert_insert_eq, dom_insert_lookup_L; [apply I|by eexists].
      * rewrite Es. cbn [sock set_sock set_kernel]. rewrite lookup_insert_ne by done. apply I.
      * apply I.
      * intros j tj x. rewrite Es. unfold n1. cbn [udp set_udp set_poll sock set_sock set_kernel]. rewrite insert_insert_eq.
        destruct (decide (i = j)) as [<-|]; rewrite ?lookup_insert_eq, ?lookup_insert_ne by done; [|apply I].
        intros [= <-] [= <-]. by right.
      * intros j tj. unfold n1. cbn [udp set_udp set_poll]. rewrite insert_insert_eq.
        destruct (decide (i = j)) as [<-|]; rewrite ?lookup_insert_eq, ?lookup_insert_ne by done; [|apply I].
        intros [= <-]. by right.
Qed.

Lemma guarded_ok i n f :
  tinv n -> i ∈ D -> i <> mWakeOn ->
  (forall t, udp n !! i = Some t -> exists ret t' u, f t n = (ret, mkNet (poll n) (<[i := t']> (udp n)) u) /\ mSocket t' = mSocket t) ->
  exists ret n', guarded i n f = Some (ret, n') /\ tinv n'.
Proof.
  intros I Hi Hw Hf. destruct (tinv_live n i I Hi Hw) as [t Ht]. unfold guarded. rewrite Ht. cbn [mbind option_bind].
  destruct (mSocket t <? 0); [by eexists _, _|]. destruct (Hf t Ht) as (ret & t' & u & -> & E).
  eexists _, _. split; [done|]. by eapply tinv_fields.
Qed.

Ltac same_transport t Ht := eexists _, t, _; split; [by rewrite (insert_id _ _ _ Ht)|done].

(** What the client may do: use the transports, and the poller's thread may
    be told of reading and of hang-ups, but not of a hang-up of its own pipe. *)
Definition event_ok (ev : epoll_event) : Prop :=
  has (ev_events ev) EPOLLOUT = false
  /\ (ev_fd ev = wfd -> has (ev_events ev) (Z.lor EPOLLHUP EPOLLERR) = false).
Definition cmd_ok (c : cmd) : Prop :=
  match c with
  | CInit i | CClose i | CHandler i _ | CTos i _ | CPriority i _ | CConnect i _ | CBind i _ _ _ | CJoin i _ _ _ _
  | CDeliver i _ _ | CStun i _ _ | CDrop i => i ∈ D /\ i <> mWakeOn
  | CTurn rs => Forall (fun r => match r.2 with WEvents evs => Forall event_ok evs | _ => True end) rs
  end.

Abbreviation exec := (exec new_unit clock mWakeOn pipe_room user).
Abbreviation run := (run new_unit clock mWakeOn pipe_room user).

Lemma exec_ok c n : tinv n -> cmd_ok c -> exists n', exec c n = Some n' /\ tinv n'.
Proof.
  intros I Hc. assert (Hsnd : forall r : option (Z * net), (exists ret n', r = Some (ret, n') /\ tinv n') ->
    exists n', snd <$> r = Some n' /\ tinv n') by (intros r (ret & n' & -> & I'); by exists n').
  destruct c as [i|i|i cb|i r|i r|i r|i addr reuse r|i addr r1 r2 r3|i size sent|i ids sent|i|rs];
    cbn [Transport.exec cmd_ok] in *; try destruct Hc as [Hi Hw]; try destruct (tinv_live n i I Hi Hw) as [t Ht].
  - by apply Hsnd, udp_init_ok.
  - apply Hsnd. destruct (doClose_ok i n I Hi Hw) as (ret & n' & E & I' & _). by exists ret, n'.
  - apply Hsnd. unfold setHandler. rewrite Ht. cbn [mbind option_bind]. eexists _, _. split; [done|].
    by eapply tinv_fields.
  - apply Hsnd, guarded_ok; [done..|]. intros t' Ht'. same_transport t' Ht'.
  - apply Hsnd, guarded_ok; [done..|]. intros t' Ht'. same_transport t' Ht'.
  - apply Hsnd, guarded_ok; [done..|]. intros t' Ht'. same_transport t' Ht'.
  - apply Hsnd, guarded_ok; [done..|]. intros t' Ht'.
    destruct reuse, (r <? 0); try same_transport t' Ht'; by eexists _, _, _.
  - apply Hsnd, guarded_ok; [done..|]. intros t' Ht'.
    destruct (r1 <? 0); [same_transport t' Ht'|]. destruct (r2 <? 0); [same_transport t' Ht'|].
    destruct (r3 <? 0); [same_transport t' Ht'|]. by eexists _, _, _.
  - unfold deliver. rewrite Ht. eexists. split; [done|]. by apply tinv_uses.
  - apply Hsnd. unfold sendStunRequest. rewrite Ht. cbn [mbind option_bind].
    destruct (Rtp.sendStunRequest ids sent (mStun t)) as [[ret msg] st]. eexists _, _. split; [done|].
    destruct msg; by apply (tinv_fields n i t (with_stun st t) _ I Ht).
  - apply Hsnd. unfold dropStunParsing. rewrite Ht. cbn [mbind option_bind]. eexists _, _. split; [done|].
    by apply (tinv_fields n i t _ _ I Ht).
  - destruct (poll_turn_ok rs n I) as (o & n' & E & I').
    + eapply Forall_impl; [exact Hc|]. intros [exit [evs| |]]; [|done..]. unfold result_ok. cbn [snd]. intros Hevs.
      eapply Forall_impl; [exact Hevs|]. intros ev [H1 H2]. split; [done|]. rewrite (ti_wake _ I). intros [= E]. by apply H2.
    + unfold turn in *. rewrite E. by exists n'.
Qed.

Lemma run_ok cs n : tinv n -> Forall cmd_ok cs -> exists n', run cs n = Some n' /\ tinv n'.
Proof.
  intros I Hcs. revert n I. induction Hcs as [|c cs Hc _ IH]; intros n I; cbn [Transport.run]; [by exists n|].
  destruct (exec_ok c n I Hc) as (n1 & -> & I1). cbn [mbind option_bind]. by apply IH.
Qed.
End client.

Section lifetime.
Context {H : Type} {IL : IntrusiveList H} {K : Type} {KL : Kernel K} {FL : Files K}.
Variable new_unit : gmap Z EventUnit -> Z.
Variable clock : nat -> timeval.
Variables mWakeOn : Z.
Variable pipe_room : nat.
Variable user : Z -> hcall -> list pcall.
Variables mArray head : Z.
Hypothesis alloc_invalid : slot_invalid (Holder.holder_alloc mArray head) = false.
Hypothesis alloc_valid : valid Holder.WORD (initialised Holder.WORD (Holder.holder_alloc mArray head)).
Hypothesis new_unit_fresh : forall u, new_unit u <> 0 -> u !! new_unit u = None.
Hypothesis clock_ok : forall n, reading_ok (clock n).
Variable D : gset Z.
Hypothesis D_nonzero : 0 ∉ D.
Hypothesis D_wake : mWakeOn ∈ D.
Hypothesis user_gentle : forall cb c, Forall (gentle mWakeOn D) (user cb c).
Hypothesis watches : forall (k : K) fd, is_open k fd = true -> is_watched k fd = false -> (epoll_add fd k).1 = true.

Implicit Types (s : @poller H K).

(** The descriptors of the process and of the poller, the pipe's reading end
    apart, which is a transport's. *)
Definition others (k0 : K) (p : wakePipe) (corefd x : Z) : bool :=
  is_open k0 x || (x =? corefd) || (x =? write_fd p).

Lemma started_tinv s0 p corefd s us :
  started mWakeOn (kernel s0) p corefd s -> pinv mWakeOn mArray head D s [] ->
  dom us = D ∖ {[mWakeOn]} -> (forall i t, us !! i = Some t -> mSocket t = -1) ->
  tinv mWakeOn mArray head D (others (kernel s0) p corefd) (pipe_sock p) (mkNet s us []).
Proof.
  intros (Hs & Hc & Hw & Hp & Ho & Hwatch & Hne & Hne2 & H0 & H1 & H2) I Hd Hus.
  assert (Hwake : sock s !! mWakeOn = Some (pipe_sock p)).
  { destruct (live_sock _ _ _ _ _ _ _ I D_wake) as [fd E]. rewrite E. f_equal. rewrite (Hs _ _ E). by rewrite Z.eqb_refl. }
  split; cbn [poll udp]; try done.
  - split.
    + intros i j fd Hi Hj Hfd. apply (pi_distinct _ _ _ _ _ _ I i j fd Hi Hj Hfd).
    + intros i fd Hi Hfd. rewrite (Hs i fd Hi) in *. destruct (i =? mWakeOn); [|done]. unfold others.
      by rewrite Hp, (proj2 (Z.eqb_neq _ _) Hne), (proj2 (Z.eqb_neq _ _) Hne2).
    + intros i fd Hi Hfd. rewrite (Hs i fd Hi) in *. by destruct (i =? mWakeOn).
    + intros x. rewrite Ho. fold (others (kernel s0) p corefd x). rewrite orb_true_iff, Z.eqb_eq. split.
      * intros [?| ->]; [by left|]. right. split; [lia|by eexists].
      * intros [?|[Hx [i Hi]]]; [by left|]. right. rewrite (Hs i x Hi). destruct (i =? mWakeOn) eqn:E; [done|].
        rewrite (Hs i x Hi), E in Hx. done.
  - intros i t fd Hi Hfd. left. rewrite (Hs i fd Hfd). destruct (Z.eqb_spec i mWakeOn) as [->|]; [|done].
    assert (Hin : mWakeOn ∈ dom us) by (apply elem_of_dom; by eexists). set_solver.
  - intros i t Hi. left. by eapply Hus.
Qed.

(** C31: descriptors are accounted for from the start of the poller to its end.
    When [SocketPoller::Instance] answers a poller, any sequence of calls on the
    transports ([init] again and again, binding, connecting, sending, closing) and
    of turns of the poller's thread, whatever the system calls answer, runs
    without a fault, and after it: a transport that the poller serves owns the
    descriptor it works with, which is open and watched; no two transports share
    one; the open descriptors are those of before, the poller's three and those
    of the transports, so that nothing was lost and nothing of others was closed;
    and when all transports are closed, deleting the poller leaves exactly the
    descriptors of before.  This is for a kernel that watches what it is asked
    to, and callbacks that do not close transports. *)
Theorem sockets_accounted setfd fl s0 c s :
  blank mArray head D s0 -> (forall x, 0 <= x <= 2 -> is_open (kernel s0) x = true) ->
  Instance mWakeOn setfd fl s0 = Some (Some c, s) ->
  exists p corefd, c = mkCore corefd (Some p) /\
  forall us cs,
    dom us = D ∖ {[mWakeOn]} -> (forall i t, us !! i = Some t -> mSocket t = -1) ->
    Forall (cmd_ok mWakeOn D (pipe_sock p)) cs ->
    exists n, run new_unit clock mWakeOn pipe_room user cs (mkNet s us []) = Some n /\
      dom (udp n) = dom us /\
      (forall i t, udp n !! i = Some t -> exists fd, sock (poll n) !! i = Some fd /\
         (fd = -1 \/ fd = mSocket t /\ 2 < fd /\ is_open (kernel (poll n)) fd = true /\ is_watched (kernel (poll n)) fd = true)) /\
      (forall i j fd, sock (poll n) !! i = Some fd -> sock (poll n) !! j = Some fd -> fd <> -1 -> i = j) /\
      (forall x, is_open (kernel (poll n)) x = true <->
         is_open (kernel s0) x = true \/ x = corefd \/ x = write_fd p \/ x = pipe_sock p \/
         x <> -1 /\ exists i t, udp n !! i = Some t /\ sock (poll n) !! i = Some x) /\
      ((forall i t, udp n !! i = Some t -> sock (poll n) !! i = Some (-1)) ->
         forall x, is_open (poller_destroy c (kernel (poll n))) x = is_open (kernel s0) x).
Proof.
  intros Hb Hstd Hi. unfold Instance in Hi. apply bind_Some in Hi as ([[err c'] s'] & E & Hi).
  destruct (Z.eqb_spec err NO_ERROR) as [->|]; [|by destruct (mWakeOn_ c')]. injection Hi as -> ->.
  assert (Hw0 : mWakeOn <> 0) by (intros E0; by rewrite E0 in D_wake).
  destruct (poller_init_ok mArray head mWakeOn alloc_invalid alloc_valid D setfd fl s0 Hb D_wake Hw0 watches NO_ERROR c s E eq_refl)
    as (p & corefd & -> & Hst & Hpinv). exists p, corefd. split; [done|]. intros us cs Hd Hus Hcs.
  pose proof (started_tinv s0 p corefd s us Hst Hpinv Hd Hus) as I.
  destruct (run_ok new_unit clock mWakeOn pipe_room user mArray head alloc_invalid alloc_valid new_unit_fresh clock_ok D
    D_nonzero D_wake user_gentle watches (others (kernel s0) p corefd)
    ltac:(intros x Hx; unfold others; by rewrite Hstd) (pipe_sock p) cs _ I Hcs) as (n & Er & In). exists n.
  destruct Hst as (_ & Hc & Hw & Hp & _ & _ & Hne & Hne2 & H0 & H1 & H2).
  assert (Howns : forall x, is_open (kernel (poll n)) x = true <->
         is_open (kernel s0) x = true \/ x = corefd \/ x = write_fd p \/ x = pipe_sock p \/
         x <> -1 /\ exists i t, udp n !! i = Some t /\ sock (poll n) !! i = Some x).
  { intros x. rewrite (ow_open _ _ _ (ti_owned _ _ _ _ _ _ _ In) x). unfold others. rewrite !orb_true_iff, !Z.eqb_eq. split.
    - intros [[[?| ->]| ->]|[Hx [i Hi]]]; auto. destruct (decide (i = mWakeOn)) as [->|Hi'].
      + rewrite (ti_wake _ _ _ _ _ _ _ In) in Hi. injection Hi as <-. auto 6.
      + do 4 right. split; [done|]. exists i.
        assert (HiD : i ∈ D) by (rewrite <- (pi_dom _ _ _ _ _ _ (ti_poller _ _ _ _ _ _ _ In)); apply elem_of_dom; by eexists).
        destruct (tinv_live _ _ _ _ _ _ n i In HiD Hi') as [t Ht]. by exists t.
    - intros [?|[->|[->|[->|[Hx (i & t & _ & Hi)]]]]]; auto.
      + right. split; [lia|]. exists mWakeOn. apply In.
      + right. split; [done|by exists i]. }
  split; [done|]. split; [by rewrite Hd, (ti_dom _ _ _ _ _ _ _ In)|]. split; [|split; [|split; [done|]]].
  - intros i t Ht. destruct (tinv_in mWakeOn mArray head D D_nonzero _ _ n i t In Ht) as (HiD & _ & _).
    destruct (live_sock _ _ _ _ _ _ i (ti_poller _ _ _ _ _ _ _ In) HiD) as [fd Hfd]. exists fd. split; [done|].
    destruct (decide (fd = -1)) as [?|Hf]; [by left|]. right.
    destruct (ti_sock _ _ _ _ _ _ _ In i t fd Ht Hfd) as [?|Ef]; [done|].
    destruct (ti_socket _ _ _ _ _ _ _ In i t Ht) as [?|Hlt]; [congruence|].
    destruct (pi_open _ _ _ _ _ _ (ti_poller _ _ _ _ _ _ _ In) i fd Hfd) as [?|[_ Hopen]]; [done|].
    split; [done|]. split; [lia|]. split; [done|]. by apply (ow_watched _ _ _ (ti_owned _ _ _ _ _ _ _ In) i fd).
  - apply (ow_distinct _ _ _ (ti_owned _ _ _ _ _ _ _ In)).
  - intros Hall x. unfold poller_destroy, wakePipe_destroy. cbn [mWakeOn_ coreDescriptor].
    rewrite (proj2 (Z.eqb_neq (pipe_sock p) (-1))), (proj2 (Z.eqb_neq (write_fd p) (-1))) by lia. cbn [negb].
    rewrite !close_open. apply eq_true_iff_eq. rewrite !andb_true_iff, !negb_true_iff, !Z.eqb_neq, Howns. split.
    + intros [[[[?|[?|[?|[?|[Hx (i & t & Ht & Hi)]]]]] ?] ?] ?]; try done. rewrite (Hall i t Ht) in Hi. congruence.
    + intros Hx. split; [split; [split; [by left|]|]|]; intros ->; congruence.
Qed.
End lifetime.

(** ** Witness *)

Definition silent (cb : Z) (c : hcall) : list pcall := [].
Definition two_transports : gmap Z udpTransport := {[70 := new_udp; 71 := new_udp]}.

(** 70 is hung up by its peer, 71 is bound and stays. *)
Definition session (pipe : Z) : list cmd :=
  [CInit 70; CInit 71; CBind 71 9 true 0; CTurn [(false, WEvents [mkEv 6 16])]; CClose 70].

Lemma fdset_watches (k : fdset) fd : is_open k fd = true -> is_watched k fd = false -> (epoll_add fd k).1 = true.
Proof.
  cbn. intros Ho%bool_decide_eq_true Hw%bool_decide_eq_false. by rewrite bool_decide_eq_true_2.
Qed.

Abbreviation three := ({[60; 70; 71]} : gset Z).
Lemma three_ok : 0 ∉ three /\ 60 ∈ three /\ dom two_transports = three ∖ {[60]}.
Proof. split_and!; [set_solver..|]. unfold two_transports. rewrite dom_insert_L, dom_singleton_L. set_solver. Qed.

Lemma two_fresh i t : two_transports !! i = Some t -> mSocket t = -1.
Proof.
  unfold two_transports. intros [[_ <-]|[_ Hi]]%lookup_insert_Some; [done|]. by apply lookup_singleton_Some in Hi as [_ <-].
Qed.

Lemma session_ok : Forall (cmd_ok 60 three 4) (session 4).
Proof. repeat constructor; set_solver. Qed.

Lemma std_open x : 0 <= x <= 2 -> is_open std x = true.
Proof. intros Hx. apply bool_decide_eq_true_2. cbn [opened std]. assert (x = 0 \/ x = 1 \/ x = 2) by lia. set_solver. Qed.

Lemma silent_gentle cb c : Forall (gentle 60 three) (silent cb c).
Proof. constructor. Qed.

Lemma sockets_accounted_witness : exists (s : @poller heap fdset) (n : @net heap fdset),
  run bump noon2 60 16 silent (session 4) (mkNet s two_transports []) = Some n /\ dom (udp n) = dom two_transports /\
  forall i j fd, sock (poll n) !! i = Some fd -> sock (poll n) !! j = Some fd -> fd <> -1 -> i = j.
Proof.
  assert (E1 : (s0 ← before fdset std; fst <$> Instance 60 0 all_set s0) = Some (Some (mkCore 3 (Some (mkPipe 4 5)))))
    by (vm_compute; reflexivity).
  apply bind_Some in E1 as (s0 & E0 & E1). destruct (before_blank fdset std s0 E0) as [Hb Hk].
  apply fmap_Some in E1 as ([c s] & E1 & Ec). cbn [fst] in Ec. subst c.
  destruct three_ok as (H0 & H60 & Hd).
  destruct (sockets_accounted bump noon2 60 16 silent 1000 100 eq_refl Holder.some_alloc_valid bump_fresh noon2_ok
    three H0 H60 silent_gentle fdset_watches 0 all_set s0 (mkCore 3 (Some (mkPipe 4 5))) s Hb) as (p & corefd & Ec & Hrun);
    [rewrite Hk; exact std_open|exact E1|].
  injection Ec as <- <-.
  destruct (Hrun two_transports (session 4) Hd two_fresh session_ok) as (n & En & Hdom & _ & Hn & _).
  exists s, n. split; [exact En|]. split; [exact Hdom|exact Hn].
Defined.
