(* ===== verification/TransportFaults.v ===== *)
(** * libnet/Poller.cpp, libnet/Transport.cpp: where descriptors go wrong

    Concrete runs that [sockets_accounted] excludes. *)

From S2P Require Import Prelude TimeList CList SlotAlloc AbsTimer Poller PollerInit Transport TransportClient.
From S2P Require Holder Rtp.

(** A kernel that refuses to watch a descriptor when [answers] says so. *)
Record moody := mkMoody { fds : fdset; answers : list bool }.

#[export] Instance moody_kernel : Kernel moody.
Proof.
  refine {| is_open k := is_open (fds k);
            is_watched k := is_watched (fds k);
            epoll_add fd k :=
              match answers k with
              | false :: l => (false, mkMoody (fds k) l)
              | l => let '(ok, f) := epoll_add fd (fds k) in (ok, mkMoody f (tail l))
              end;
            epoll_del fd k := let '(ok, f) := epoll_del fd (fds k) in (ok, mkMoody f (answers k));
            close_fd fd k := mkMoody (close_fd fd (fds k)) (answers k) |}.
  - intros [f [|[] l]] fd x; pose proof (add_open f fd x) as E; cbn [fds answers]; try destruct (epoll_add fd f); done.
  - intros [f [|[] l]] fd x; pose proof (add_watched f fd x) as E; cbn [fds answers]; try destruct (epoll_add fd f); try done.
    by rewrite orb_false_r.
  - intros [f l] fd. pose proof (del_succeeds f fd) as E. cbn [fds answers]. by destruct (epoll_del fd f).
  - intros [f l] fd x. pose proof (del_open f fd x) as E. cbn [fds answers]. by destruct (epoll_del fd f).
  - intros [f l] fd x. pose proof (del_watched f fd x) as E. cbn [fds answers]. by destruct (epoll_del fd f).
  - intros [f l] fd x. apply close_open.
  - intros [f l] fd x. apply close_watched.
Defined.

#[export] Instance moody_files : Files moody.
Proof.
  refine {| new_fd k := let '(fd, f) := new_fd (fds k) in (fd, mkMoody f (answers k));
            pipe_fds k := let '(r, f) := pipe_fds (fds k) in (r, mkMoody f (answers k)) |}.
  - intros [f l]. pose proof (new_fd_ok f) as E. cbn [fds answers]. destruct (new_fd f) as [fd f'].
    by destruct E as [[-> ->]|E]; [left|right].
  - intros [f l]. pose proof (pipe_fds_ok f) as E. cbn [fds answers]. destruct (pipe_fds f) as [[[r w]|] f'].
    + destruct E as (f1 & E1 & E2). by exists (mkMoody f1 l).
    + by rewrite E.
Defined.

(** ** The poller's start *)

(** When the pipe cannot be watched, [init] still has the result of the
    insertion: it reports success, [coreDescriptor] is -1 and the descriptor 3 of
    [epoll_create] is lost. *)
Lemma init_unwatched :
  (s0 ← before moody (mkMoody std [false]);
   '(c, s) ← Instance 60 0 all_set s0;
   Some (c, is_open (kernel s) 3)) = Some (Some (mkCore (-1) (Some (mkPipe 4 5))), true).
Proof. vm_compute. reflexivity. Qed.

(** When the pipe cannot be made or set up, [Instance] reads uninitialised
    descriptors, or locks its mutex twice. *)
Lemma pipe_fails_undefined {K} {KL : Kernel K} {FL : Files K} fl (k k' : K) :
  pipe_fds k = (None, k') -> wakePipe_create fl k = None.
Proof. intros E. unfold wakePipe_create, wakePipe_init. by rewrite E. Qed.

Lemma pipe_flags_relock :
  (s0 ← before fdset std; Instance 60 0 (mkFlags 2 (-1) 1 0) s0) = None.
Proof. vm_compute. reflexivity. Qed.

(** ** Transports *)

Definition started_with {K} {KL : Kernel K} {FL : Files K} (k : K) user cs : option (@net heap K) :=
  s0 ← before K k;
  '(_, s) ← Instance 60 0 all_set s0;
  run bump noon2 60 16 user cs (mkNet s two_transports []).

Definition view {K} (n : @net heap K) : option (Z * Z * Z * Z * list (Z * Z)) :=
  a ← udp n !! 70; b ← udp n !! 71; c ← sock (poll n) !! 70; d ← sock (poll n) !! 71;
  Some (mSocket a, mSocket b, c, d, uses n).

(** A transport that was closed keeps the number of its descriptor: [init] says
    that it is initialised, and binding it binds the socket of another, which
    has got the descriptor in between. *)
Lemma closed_keeps_descriptor :
  (n ← started_with std silent [CInit 70; CClose 70; CInit 71; CInit 70; CBind 70 9 false 0]; view n)
    = Some (6, 6, -1, 6, [(70, 6)]) /\
  (n ← started_with std silent [CInit 70; CClose 70; CInit 71]; fst <$> udp_init 70 n) = Some NO_ERROR.
Proof. split; vm_compute; reflexivity. Qed.

(** When a socket cannot be watched, [init] closes it but leaves it in [sock]
    and in the table: closing the transport then closes the descriptor of
    another, which goes on using it. *)
Lemma failed_init_closes_another :
  (n ← started_with (mkMoody std [true; false; true]) silent [CInit 70; CInit 71];
   Some (view n, is_open (kernel (poll n)) 6)) = Some (Some (-1, 6, 6, 6, []), true) /\
  (n ← started_with (mkMoody std [true; false; true]) silent [CInit 70; CInit 71; CClose 70];
   Some (view n, is_open (kernel (poll n)) 6)) = Some (Some (-1, 6, -1, 6, []), false).
Proof. split; vm_compute; reflexivity. Qed.

(** A callback that closes its own transport takes [mCallLock] twice. *)
Definition closer (cb : Z) (c : hcall) : list pcall := match c with HRead i => [PClose i] | _ => [] end.

Lemma closing_itself_relocks :
  (n ← started_with std closer [CHandler 70 5; CInit 70];
   Some (locked_handle bump noon2 60 16 closer 5 (udp n) ∅ (HRead 70) (poll n))) = Some None.
Proof. vm_compute. reflexivity. Qed.

(** A request that [sendto] refused is taken for sent: -1 is compared as an
    unsigned number. *)
Lemma stun_failure_ignored ids st :
  Rtp.mStunRequested st = false ->
  exists msg, Rtp.sendStunRequest ids (-1) st = (OK, msg, Rtp.mkStun true false (Rtp.mReflAddr st)).
Proof. intros E. unfold Rtp.sendStunRequest. rewrite E. by eexists. Qed.
