(* ===== verification/ToneGene.v ===== *)
(** * libaux/ToneGene.cpp: keys and tones, frame by frame

    [DtmfGene] gives frames of the key that is set, [ToneGene] plays a list of
    cadences (a tone, then silence), 10 ms a frame, once or over and over.
    The samples are [GenTone]'s.  [EVENT_SAMPLES], [FS_HZ] and
    [CONST_SAMPLING_RATE] are not defined in the repository; the coefficients
    of a frequency ([get_tone_ceff], a floating-point computation), what
    [sscanf] makes of a text, and whether [new] succeeds are arguments.  A
    buffer that was not written yet is [None], and so is an access outside an
    object or to what is not initialised. *)

From S2P Require Import Prelude GenTone.

Section tonegene.
Variables EVENT_SAMPLES FS_HZ CONST_SAMPLING_RATE : Z.
Variable get_tone_ceff : Z -> Z * Z.             (* yInit and aTbl of a frequency *)

(** ** DtmfGene *)

Record DtmfGene := mkDtmf {
  dtVal : Z;
  dtu : list dtmf_tone_inst_t;
  dtmfBuf : list (option Z)
}.

Definition DT_BLK_NUM : Z := 32.

(** The other fields of the ten generators are set when [reinit] is seen. *)
Definition new_dtmf : DtmfGene :=
  mkDtmf (-1) (replicate 10 (mkInst 1 0 0 0 0 0)) (replicate (Z.to_nat (DT_BLK_NUM * EVENT_SAMPLES)) None).

Definition SetDtmf (keyVal : Z) (s : DtmfGene) : Z * DtmfGene := (NO_ERROR, mkDtmf keyVal (dtu s) (dtmfBuf s)).

(** [signal] points to a buffer of [n] shorts, of which the first are written. *)
Definition overwrite (xs : list Z) (buf : list (option Z)) : list (option Z) :=
  (Some <$> xs) ++ drop (length xs) buf.

(** [GenDtmf] on [dtmfBuf]: it writes [EVENT_SAMPLES] samples or none. *)
Definition gen (inAudio value : Z) (s : DtmfGene) : option (Z * DtmfGene) :=
  d ← if inAudio <? 0 then None else dtu s !! Z.to_nat inAudio;
  '(r, xs, d) ← GenDtmf d (s8 (dtVal s)) (s16 value) (replicate (length (dtmfBuf s)) 0)
                  CONST_SAMPLING_RATE (s16 EVENT_SAMPLES);
  let xs := if r <? 0 then [] else take (Z.to_nat r) xs in
  Some (r, mkDtmf (dtVal s) (<[Z.to_nat inAudio := d]> (dtu s)) (overwrite xs (dtmfBuf s))).

(** [frame] of [nSamples] shorts; the result of [gen] is not looked at. *)
Definition dtmf_updateFrame (frame : option (list Z)) (nSamples value inAudio : Z) (s : DtmfGene)
    : option (Z * option (list Z) * DtmfGene) :=
  match frame with
  | None => Some (BAD_VALUE, None, s)
  | Some f =>
      if (nSamples <? EVENT_SAMPLES) || (32 <? value) then Some (BAD_VALUE, frame, s)
      else
        '(_, s) ← gen inAudio value s;
        xs ← mapM id (take (Z.to_nat EVENT_SAMPLES) (dtmfBuf s));
        f ← store f 0 xs;
        Some (NO_ERROR, Some f, s)
  end.

(** ** ToneGene *)

Record Cadence := mkCadence { cfreq1 : Z; cfreq2 : Z; timeOn : Z; timeOff : Z }.

(** [dtmfdec] is [None] before it is told to start anew, [toneBuf] before it
    is written. *)
Record ToneGene := mkTone {
  mToneList : list Cadence;
  cadNow : option Cadence;
  yInit : list Z;
  aTbl : list Z;
  freq1 : Z;
  freq2 : Z;
  dtmfdec : option dtmf_tone_inst_t;
  toneGen_INF : bool;
  toneInTx : bool;
  toneBuf : option (list Z)
}.

Definition new_tone : ToneGene := mkTone [] None [] [] 0 0 None false false None.

Definition set_cad (c : option Cadence) (s : ToneGene) : ToneGene :=
  mkTone (mToneList s) c (yInit s) (aTbl s) (freq1 s) (freq2 s) (dtmfdec s) (toneGen_INF s) (toneInTx s) (toneBuf s).

Definition empty (s : ToneGene) : bool :=
  match cadNow s with None => match mToneList s with [] => true | _ => false end | Some _ => false end.

(** The next cadence is taken; the frequencies are kept as [short]s. *)
Definition restart (d : option dtmf_tone_inst_t) : dtmf_tone_inst_t :=
  match d with
  | None => mkInst 1 0 0 0 0 0
  | Some d => mkInst 1 (oldOutputLow0 d) (oldOutputLow1 d) (oldOutputHigh0 d) (oldOutputHigh1 d) (lastDtmfSample d)
  end.

Definition load_cadence (c : Cadence) (l : list Cadence) (s : ToneGene) : ToneGene :=
  let l := if toneGen_INF s then l ++ [c] else l in
  let differs := negb (u32 (freq1 s) =? cfreq1 c) || negb (u32 (freq2 s) =? cfreq2 c) in
  let f1 := if differs then s16 (cfreq1 c) else freq1 s in
  let f2 := if differs then s16 (cfreq2 c) else freq2 s in
  let '(y1, a1) := get_tone_ceff f1 in
  let '(y2, a2) := get_tone_ceff f2 in
  mkTone l (Some c) [y1; y2] [a1; a2] f1 f2 (if differs then Some (restart (dtmfdec s)) else dtmfdec s)
    (toneGen_INF s) (toneInTx s) (toneBuf s).

(** [GenTone] writes 160 samples of [toneBuf]; what is behind them stays. *)
Definition tone_frame (value : Z) (s : ToneGene) : option ToneGene :=
  d ← dtmfdec s;
  let old := default (replicate (Z.to_nat EVENT_SAMPLES) 0) (toneBuf s) in
  '(r, buf, d) ← GenTone d (yInit s) (aTbl s) (s16 value) old (s16 FS_HZ) 160;
  Some (mkTone (mToneList s) (cadNow s) (yInit s) (aTbl s) (freq1 s) (freq2 s) (Some d) (toneGen_INF s) (toneInTx s)
          (Some buf)).

Definition silent_frame (s : ToneGene) : ToneGene :=
  mkTone (mToneList s) (cadNow s) (yInit s) (aTbl s) (freq1 s) (freq2 s) (dtmfdec s) (toneGen_INF s) (toneInTx s)
    (Some (replicate (Z.to_nat EVENT_SAMPLES) 0)).

(** The branch for the local speaker: 10 ms of the cadence [c]. *)
Definition refresh_frame (value : Z) (c : Cadence) (s : ToneGene) : option ToneGene :=
  '(c, s) ←
    if 0 <? timeOn c then
      s ← tone_frame value s; Some (mkCadence (cfreq1 c) (cfreq2 c) (timeOn c - 10) (timeOff c), s)
    else if 0 <? timeOff c then
      Some (mkCadence (cfreq1 c) (cfreq2 c) (timeOn c) (timeOff c - 10), silent_frame s)
    else Some (c, s);
  Some (set_cad (if (timeOn c <=? 0) && (timeOff c <=? 0) then None else Some c) s).

(** [alloc]: whether [new Cadence] succeeds. *)
Definition updateFrame (alloc : bool) (frame : option (list Z)) (nSamples value : Z) (refresh : bool) (s : ToneGene)
    : option (Z * option (list Z) * ToneGene) :=
  match frame with
  | None => Some (BAD_VALUE, None, s)
  | Some f =>
      if (u32 (nSamples * 2) <? EVENT_SAMPLES * 2) || (36 <? value) then Some (BAD_VALUE, frame, s)
      else
        let copy s := buf ← toneBuf s; f ← store f 0 buf; Some (NO_ERROR, Some f, s) in
        let go c s :=
          if refresh then s ← refresh_frame value c s; copy s
          else if negb (toneInTx s) then Some (NO_ERROR, frame, s)
          else copy s in
        match cadNow s with
        | Some c => go c s
        | None =>
            match mToneList s with
            | [] => Some (NO_ERROR, frame, s)
            | c :: l => if alloc then go c (load_cadence c l s) else Some (NO_MEMORY, frame, s)
            end
        end
  end.

(** ** The script

    Loops are separated by semicolons, the cadences of a loop by commas.
    [scan_int] is what [%d] makes of the text before the parenthesis, and
    [scan_cadence] the four numbers of a cadence. *)
Variable scan_int : list Z -> Z.
Variable scan_cadence : list Z -> Z * Z * Z * Z.    (* timeOn, timeOff, freq1, freq2 *)

(** [strsep]: the part before the separator and the rest, if there is one. *)
Fixpoint strsep (sep : Z) (s : list Z) : list Z * option (list Z) :=
  match s with
  | [] => ([], None)
  | c :: s => if c =? sep then ([], Some s) else let '(t, r) := strsep sep s in (c :: t, r)
  end.

(** [%\[^c\]]: the characters up to [c]; none is a failure to match. *)
Definition scan_until (c : Z) (s : list Z) : list Z := (strsep c s).1.

(** [sscanf(loop, "%[^(](%[^)])", buffer, loopTone)] with arrays of 64 and 256
    characters. *)
Definition scan_loop (loop : list Z) : option (list Z * list Z) :=
  let '(buffer, rest) := strsep 40 loop in
  let loopTone := match buffer, rest with _ :: _, Some r => scan_until 41 r | _, _ => [] end in
  if (Z.of_nat (length buffer) <? 64) && (Z.of_nat (length loopTone) <? 256) then Some (buffer, loopTone) else None.

(** The inner loop: at most six cadences, and the sum of their times. *)
Fixpoint scan_cadences (n : nat) (note : option (list Z)) : list Cadence * Z :=
  match n, note with
  | S n, Some s =>
      let '(caden, note) := strsep 44 s in
      let '(on_, off, f1, f2) := scan_cadence caden in
      let '(cs, divider) := scan_cadences n note in
      (mkCadence f1 f2 on_ off :: cs, u32 (on_ + off) + divider)
  | _, _ => ([], 0)
  end.

Fixpoint repeat_cadences (n : nat) (cs : list Cadence) : list Cadence :=
  match n with O => [] | S n => cs ++ repeat_cadences n cs end.

(** [loopTime] is converted to 64 unsigned bits for the division; the number of
    cycles is cut to 32. *)
Definition cycles (loopTime divider : Z) : Z :=
  if loopTime =? 0 then 1 else u32 (u64 loopTime / divider).

Definition one_loop (loop : list Z) (s : ToneGene) : option ToneGene :=
  '(buffer, loopTone) ← scan_loop loop;
  let loopTime := scan_int buffer in
  let s := if loopTime =? 0
           then mkTone (mToneList s) (cadNow s) (yInit s) (aTbl s) (freq1 s) (freq2 s) (dtmfdec s) true (toneInTx s) (toneBuf s)
           else s in
  let '(cs, divider) := scan_cadences 6 (Some loopTone) in
  if divider =? 0 then Some s
  else Some (mkTone (repeat_cadences (Z.to_nat (cycles loopTime divider)) cs) (cadNow s) (yInit s) (aTbl s)
               (freq1 s) (freq2 s) (dtmfdec s) (toneGen_INF s) (toneInTx s) (toneBuf s)).

Fixpoint loops (fuel : nat) (cursor : option (list Z)) (s : ToneGene) : option ToneGene :=
  match fuel, cursor with
  | _, None => Some s
  | O, _ => None
  | S fuel, Some t => let '(loop, cursor) := strsep 59 t in s ← one_loop loop s; loops fuel cursor s
  end.

(** [tones] without its NUL; "0000" ends the list, and the cadence at hand is
    given 50 ms of tone and 50 of silence. *)
Definition setToneScript (tones : list Z) (s : ToneGene) : option (Z * ToneGene) :=
  if bool_decide (tones = [48; 48; 48; 48]) then
    Some (NO_ERROR,
          mkTone [] ((fun c => mkCadence (cfreq1 c) (cfreq2 c) 50 50) <$> cadNow s) (yInit s) (aTbl s) (freq1 s) (freq2 s)
            (dtmfdec s) false (toneInTx s) (toneBuf s))
  else s ← loops (S (length tones)) (Some tones) s; Some (NO_ERROR, s).

(** ** Playing

    [play n]: [n] frames for the local speaker, each into a buffer of 160
    shorts. *)
Fixpoint play (value : Z) (n : nat) (s : ToneGene) : option (list (list Z) * ToneGene) :=
  match n with
  | O => Some ([], s)
  | S n =>
      '(_, frame, s) ← updateFrame true (Some (replicate 160 0)) 160 value true s;
      f ← frame;
      '(fs, s) ← play value n s;
      Some (f :: fs, s)
  end.

(** How many frames of tone and of silence a cadence has. *)
Definition frames_for (t : Z) : nat := Z.to_nat ((t + 9) / 10).
Definition cadence_frames (c : Cadence) : nat := frames_for (timeOn c) + frames_for (timeOff c).

Fixpoint chunks (n : nat) (xs : list Z) : list (list Z) :=
  match n with O => [] | S n => take 160 xs :: chunks n (drop 160 xs) end.

(** What is heard of a cadence: one tone, without interruption, and silence;
    [d] is the generator, started anew when the frequencies change. *)
Record sounding := mkSounding { s_freq1 : Z; s_freq2 : Z; s_dec : option dtmf_tone_inst_t }.
Definition sounding_of (s : ToneGene) : sounding := mkSounding (freq1 s) (freq2 s) (dtmfdec s).

Definition differs (c : Cadence) (f1 f2 : Z) : bool := negb (u32 f1 =? cfreq1 c) || negb (u32 f2 =? cfreq2 c).

Definition hear (vol : Z) (c : Cadence) (x : sounding) : option (list (list Z) * sounding) :=
  let ch := differs c (s_freq1 x) (s_freq2 x) in
  let f1 := if ch then s16 (cfreq1 c) else s_freq1 x in
  let f2 := if ch then s16 (cfreq2 c) else s_freq2 x in
  d ← (if ch then Some (restart (s_dec x)) else s_dec x);
  let '(y1, a1) := get_tone_ceff f1 in
  let '(y2, a2) := get_tone_ceff f2 in
  let n := frames_for (timeOn c) in
  let '(xs, d') := tone_loop (160 * n) a1 a2 vol (init_osc y1 y2 d) in
  Some (chunks n xs ++ replicate (frames_for (timeOff c)) (replicate 160 0),
        mkSounding f1 f2 (Some (if decide (n = O) then d else d'))).

Fixpoint hear_all (vol : Z) (cs : list Cadence) (x : sounding) : option (list (list Z) * sounding) :=
  match cs with
  | [] => Some ([], x)
  | c :: cs => '(fs, x) ← hear vol c x; '(gs, x) ← hear_all vol cs x; Some (fs ++ gs, x)
  end.

Lemma tone_loop_0 a1 a2 vol d : tone_loop 0 a1 a2 vol d = ([], d).
Proof. reflexivity. Qed.

#[local] Opaque tone_loop.

Section playing.
Hypothesis event_samples : EVENT_SAMPLES = 160.
Variables (value vol : Z).
Hypothesis value_ok : 0 <= value <= 36.
Hypothesis vol_ok : dtfm_dBm0 !! Z.to_nat value = Some vol.

Definition buf_ok (s : ToneGene) : Prop := match toneBuf s with Some b => length b = 160%nat | None => True end.

Lemma play_app n m s : play value (n + m) s = '(fs, s) ← play value n s; '(gs, s) ← play value m s; Some (fs ++ gs, s).
Proof.
  revert s. induction n as [|n IH]; intros s; cbn [Nat.add play].
  { cbn [mbind option_bind]. by destruct (play value m s) as [[]|]. }
  destruct (updateFrame _ _ _ _ _ s) as [[[e f] s1]|]; [|done]. cbn [mbind option_bind]. destruct f as [f|]; [|done].
  cbn [mbind option_bind]. rewrite IH. destruct (play value n s1) as [[fs s2]|]; [|done]. cbn [mbind option_bind].
  by destruct (play value m s2) as [[gs s3]|].
Qed.

(** A call for the speaker with a cadence at hand. *)
Lemma frame_of c s s' buf :
  cadNow s = Some c -> refresh_frame value c s = Some s' -> toneBuf s' = Some buf -> length buf = 160%nat ->
  updateFrame true (Some (replicate 160 0)) 160 value true s = Some (NO_ERROR, Some buf, s').
Proof.
  intros Hc Hr Hb Hl. unfold updateFrame. rewrite event_samples. change (u32 (160 * 2) <? 160 * 2) with false.
  rewrite (proj2 (Z.ltb_ge 36 value)) by lia. cbn [orb]. cbv zeta. rewrite Hc, Hr. cbn [mbind option_bind]. rewrite Hb.
  cbn [mbind option_bind]. unfold store. rewrite length_replicate, Hl. change (_ && _) with true.
  cbn [mbind option_bind]. rewrite take_0, drop_ge, app_nil_r by (rewrite length_replicate; lia). done.
Qed.

Lemma play_one c s s' buf n :
  cadNow s = Some c -> refresh_frame value c s = Some s' -> toneBuf s' = Some buf -> length buf = 160%nat ->
  play value (S n) s = '(fs, s) ← play value n s'; Some (buf :: fs, s).
Proof. intros Hc Hr Hb Hl. cbn [play]. by rewrite (frame_of c s s' buf). Qed.

(** The state while a cadence is played. *)
Definition during l inf tx f1 f2 y a (c : option Cadence) d buf : ToneGene := mkTone l c y a f1 f2 d inf tx buf.

Lemma frames_pos t : 0 < t -> frames_for t = S (frames_for (t - 10)).
Proof. intros Ht. unfold frames_for. rewrite <- Z2Nat.inj_succ by div_lia. f_equal. div_lia. Qed.
Lemma frames_neg t : t <= 0 -> frames_for t = O.
Proof. intros Ht. unfold frames_for. assert ((t + 9) / 10 <= 0) by div_lia. lia. Qed.

Lemma silence_phase l inf tx f1 f2 y a d n : forall c buf,
  timeOn c <= 0 -> 0 < timeOff c -> n = frames_for (timeOff c) ->
  exists buf', length buf' = 160%nat /\
  play value n (during l inf tx f1 f2 y a (Some c) d buf)
    = Some (replicate n (replicate 160 0), during l inf tx f1 f2 y a None d (Some buf')).
Proof.
  induction n as [|n IH]; intros c buf Hon Hoff Hn; rewrite (frames_pos (timeOff c)) in Hn by done; [done|].
  injection Hn as Hn. set (c' := mkCadence (cfreq1 c) (cfreq2 c) (timeOn c) (timeOff c - 10)).
  assert (Er : refresh_frame value c (during l inf tx f1 f2 y a (Some c) d buf) =
    Some (during l inf tx f1 f2 y a (if timeOff c - 10 <=? 0 then None else Some c') d (Some (replicate 160 0)))).
  { unfold refresh_frame. rewrite (proj2 (Z.ltb_ge 0 (timeOn c))), (proj2 (Z.ltb_lt 0 (timeOff c))) by done.
    cbn [mbind option_bind]. unfold silent_frame. rewrite event_samples. cbn [timeOn timeOff].
    by rewrite (proj2 (Z.leb_le (timeOn c) 0)) by done. }
  erewrite (play_one c); [|reflexivity|exact Er|reflexivity|apply length_replicate].
  destruct (Z.leb_spec (timeOff c - 10) 0) as [Hle|Hgt].
  - rewrite (frames_neg (timeOff c - 10)) in Hn by done. subst n. exists (replicate 160 0). split; [apply length_replicate|done].
  - destruct (IH c' (Some (replicate 160 0)) Hon ltac:(simpl; lia) Hn) as (buf' & Hl & E).
    exists buf'. split; [done|]. rewrite E. done.
Qed.

(** The tone's next 160 samples. *)
Lemma tone_step l inf tx f1 f2 y1 y2 a1 a2 c d buf xs d' :
  0 < timeOn c -> match buf with Some b => length b = 160%nat | None => True end ->
  tone_loop 160 a1 a2 vol (init_osc y1 y2 d) = (xs, d') ->
  refresh_frame value c (during l inf tx f1 f2 [y1; y2] [a1; a2] (Some c) (Some d) buf) =
    Some (during l inf tx f1 f2 [y1; y2] [a1; a2]
            (if (timeOn c - 10 <=? 0) && (timeOff c <=? 0) then None
             else Some (mkCadence (cfreq1 c) (cfreq2 c) (timeOn c - 10) (timeOff c))) (Some d') (Some xs)).
Proof.
  intros Hon Hbuf El. unfold refresh_frame. rewrite (proj2 (Z.ltb_lt 0 (timeOn c))) by done. unfold tone_frame, during.
  cbn [dtmfdec mbind option_bind yInit aTbl toneBuf]. rewrite event_samples. unfold GenTone.
  rewrite (wraps_id 16 value) by width_lia.
  rewrite (proj2 (Z.ltb_ge value 0)), (proj2 (Z.ltb_ge 36 value)) by lia. cbn [orb]. change (160 <? -1) with false.
  cbn [lookup list_lookup mbind option_bind]. rewrite vol_ok. cbn [mbind option_bind]. change (0 <=? 160) with true. cbv iota.
  match goal with |- context [emit 160 _ _ _ ?old _] => set (o := old); assert (Hd : length o = 160%nat) end.
  { destruct buf as [b|]; [exact Hbuf|apply length_replicate]. }
  clearbody o. rewrite emit_ok; [|lia|rewrite Hd; lia]. change (Z.to_nat 160) with 160%nat. rewrite El. cbn [fst snd].
  rewrite drop_ge, app_nil_r by (by rewrite Hd). reflexivity.
Qed.

(** After a first frame the generator goes on. *)
Lemma tone_loop_next n a1 a2 y1 y2 d xs d1 :
  tone_loop 160 a1 a2 vol (init_osc y1 y2 d) = (xs, d1) ->
  length xs = 160%nat /\ init_osc y1 y2 d1 = d1 /\
  tone_loop (160 * S n) a1 a2 vol (init_osc y1 y2 d) =
    (xs ++ (tone_loop (160 * n) a1 a2 vol d1).1, (tone_loop (160 * n) a1 a2 vol d1).2).
Proof.
  intros E. split; [by rewrite <- (tone_loop_length 160 a1 a2 vol (init_osc y1 y2 d)), E|]. split.
  - apply init_osc_id. pose proof (tone_loop_reinit 160 a1 a2 vol (init_osc y1 y2 d)) as R. rewrite E in R.
    cbn [snd] in R. rewrite R. apply init_osc_done.
  - replace (160 * S n)%nat with (160 + 160 * n)%nat by lia. rewrite tone_loop_app, E.
    by destruct (tone_loop (160 * n) a1 a2 vol d1).
Qed.

Lemma tone_phase l inf tx f1 f2 y1 y2 a1 a2 n : forall c d buf,
  0 < timeOn c -> n = frames_for (timeOn c) -> match buf with Some b => length b = 160%nat | None => True end ->
  exists buf' t, length buf' = 160%nat /\ t <= 0 /\
  play value n (during l inf tx f1 f2 [y1; y2] [a1; a2] (Some c) (Some d) buf)
    = Some (chunks n (tone_loop (160 * n) a1 a2 vol (init_osc y1 y2 d)).1,
            during l inf tx f1 f2 [y1; y2] [a1; a2]
              (if timeOff c <=? 0 then None else Some (mkCadence (cfreq1 c) (cfreq2 c) t (timeOff c)))
              (Some (tone_loop (160 * n) a1 a2 vol (init_osc y1 y2 d)).2) (Some buf')).
Proof.
  induction n as [|n IH]; intros c d buf Hon Hn Hbuf; rewrite (frames_pos (timeOn c)) in Hn by done; [done|].
  injection Hn as Hn. destruct (tone_loop 160 a1 a2 vol (init_osc y1 y2 d)) as [xs d1] eqn:E1.
  pose proof (tone_step l inf tx f1 f2 y1 y2 a1 a2 c d buf xs d1 Hon Hbuf E1) as Er.
  destruct (tone_loop_next n a1 a2 y1 y2 d xs d1 E1) as (Hlen & Hd1 & ->).
  erewrite (play_one c); [|reflexivity|exact Er|reflexivity|exact Hlen]. clear Er E1. cbn [fst snd chunks].
  rewrite take_app_le, take_ge, drop_app_le, drop_ge, app_nil_l by lia.
  destruct (Z.leb_spec (timeOn c - 10) 0) as [Hle|Hgt]; cbn [andb].
  - rewrite (frames_neg (timeOn c - 10)) in Hn by done. subst n. exists xs, (timeOn c - 10).
    split; [exact Hlen|]. split; [exact Hle|]. rewrite Nat.mul_0_r, tone_loop_0. reflexivity.
  - destruct (IH (mkCadence (cfreq1 c) (cfreq2 c) (timeOn c - 10) (timeOff c)) d1 (Some xs) Hgt Hn Hlen)
      as (buf' & t & Hl & Ht & E). rewrite Hd1 in E. cbn [cfreq1 cfreq2 timeOff] in E.
    exists buf', t. split; [exact Hl|]. split; [exact Ht|]. by rewrite E.
Qed.
(** With a cadence taken from the list. *)
Lemma play_load c l s n : cadNow s = None -> mToneList s = c :: l -> play value (S n) s = play value (S n) (load_cadence c l s).
Proof.
  intros Hn Hl. cbn [play]. f_equal. unfold updateFrame. rewrite Hn, Hl.
  assert (Hc : cadNow (load_cadence c l s) = Some c).
  { unfold load_cadence. by destruct (get_tone_ceff _), (get_tone_ceff _). }
  rewrite Hc. destruct (_ || _) eqn:E; [|done]. exfalso.
  rewrite event_samples, (proj2 (Z.ltb_ge 36 value)) in E by lia. by vm_compute in E.
Qed.

Lemma cadence_plays c l s fs x :
  cadNow s = None -> mToneList s = c :: l -> buf_ok s -> (0 < cadence_frames c)%nat ->
  hear vol c (sounding_of s) = Some (fs, x) ->
  exists s', play value (cadence_frames c) s = Some (fs, s') /\ cadNow s' = None /\ sounding_of s' = x /\ buf_ok s' /\
    toneGen_INF s' = toneGen_INF s /\ mToneList s' = (if toneGen_INF s then l ++ [c] else l).
Proof.
  intros Hn Hl Hbuf Hpos Hh. unfold hear in Hh. cbn [s_freq1 s_freq2 s_dec sounding_of] in Hh.
  assert (El : play value (cadence_frames c) s = play value (cadence_frames c) (load_cadence c l s)).
  { destruct (cadence_frames c) as [|n]; [lia|]. by apply play_load. }
  rewrite El. clear El. unfold load_cadence. fold (differs c (freq1 s) (freq2 s)).
  set (ch := differs c (freq1 s) (freq2 s)) in *.
  destruct (get_tone_ceff (if ch then s16 (cfreq1 c) else freq1 s)) as [y1 a1].
  destruct (get_tone_ceff (if ch then s16 (cfreq2 c) else freq2 s)) as [y2 a2].
  apply bind_Some in Hh as (d & Hd & Hh). rewrite Hd.
  destruct (tone_loop _ _ _ _ _) as [xs d'] eqn:Et. injection Hh as <- <-.
  set (f1 := if ch then s16 (cfreq1 c) else freq1 s). set (f2 := if ch then s16 (cfreq2 c) else freq2 s).
  set (l' := if toneGen_INF s then l ++ [c] else l).
  change (mkTone l' (Some c) [y1; y2] [a1; a2] f1 f2 (Some d) (toneGen_INF s) (toneInTx s) (toneBuf s))
    with (during l' (toneGen_INF s) (toneInTx s) f1 f2 [y1; y2] [a1; a2] (Some c) (Some d) (toneBuf s)).
  unfold cadence_frames in *. rewrite play_app. destruct (Z.ltb_spec 0 (timeOn c)) as [Hon|Hon].
  - destruct (tone_phase l' (toneGen_INF s) (toneInTx s) f1 f2 y1 y2 a1 a2 _ c d (toneBuf s) Hon eq_refl Hbuf)
      as (buf' & t & Hb & Ht & ->). rewrite Et. cbn [mbind option_bind fst snd].
    assert (Hn0 : frames_for (timeOn c) <> O) by (rewrite (frames_pos (timeOn c)) by done; done).
    rewrite (decide_False _ _ Hn0). destruct (Z.leb_spec (timeOff c) 0) as [Hoff|Hoff].
    + rewrite (frames_neg (timeOff c)) by done. cbn [play mbind option_bind replicate]. rewrite app_nil_r.
      eexists. split; [reflexivity|]. split_and!; done.
    + destruct (silence_phase l' (toneGen_INF s) (toneInTx s) f1 f2 [y1; y2] [a1; a2] (Some d') _
        (mkCadence (cfreq1 c) (cfreq2 c) t (timeOff c)) (Some buf') Ht Hoff eq_refl) as (b2 & Hb2 & E).
      cbn [timeOff] in E. rewrite E. cbn [mbind option_bind]. eexists. split; [reflexivity|]. split_and!; done.
  - rewrite (frames_neg (timeOn c)) in * by done. cbn [play mbind option_bind chunks app].
    rewrite decide_True by done. destruct (Z.ltb_spec 0 (timeOff c)) as [Hoff|Hoff]; [|rewrite (frames_neg (timeOff c)) in Hpos by done; lia].
    destruct (silence_phase l' (toneGen_INF s) (toneInTx s) f1 f2 [y1; y2] [a1; a2] (Some d) _ c (toneBuf s) Hon Hoff eq_refl)
      as (b2 & Hb2 & ->). cbn [mbind option_bind]. eexists. split; [reflexivity|]. split_and!; done.
Qed.

(** The next [k] cadences: in turn, or over and over. *)
Fixpoint order (inf : bool) (k : nat) (cs : list Cadence) : list Cadence :=
  match k, cs with
  | S k, c :: l => c :: order inf k (if inf then l ++ [c] else l)
  | _, _ => []
  end.

Lemma order_endless m cs : order true (m * length cs) cs = concat (replicate m cs).
Proof.
  induction m as [|m IH]; [by destruct cs|]. cbn [replicate concat Nat.mul].
  assert (G : forall (a b : list Cadence) k, order true (length a + k) (a ++ b) = a ++ order true k (b ++ a)).
  { induction a as [|x a IHa]; intros b k; cbn [length app Nat.add order]; [by rewrite app_nil_r|].
    f_equal. rewrite <- app_assoc, IHa. by rewrite <- app_assoc. }
  pose proof (G cs [] (m * length cs)%nat) as E. rewrite app_nil_r in E. by rewrite E, app_nil_l, IH.
Qed.

(** The generator is initialised, or the first cadence starts it anew. *)
Definition known (cs : list Cadence) (x : sounding) : Prop :=
  match cs with [] => True | c :: _ => is_Some (s_dec x) \/ differs c (s_freq1 x) (s_freq2 x) = true end.

Lemma hear_known c x cs : known (c :: cs) x -> exists fs x', hear vol c x = Some (fs, x') /\ is_Some (s_dec x').
Proof.
  intros Hk. unfold hear. destruct (differs c (s_freq1 x) (s_freq2 x)) eqn:E.
  - cbn [mbind option_bind]. destruct (get_tone_ceff _), (get_tone_ceff _), (tone_loop _ _ _ _ _). by eexists _, _.
  - destruct Hk as [[d Hd]|Hk]; [|cbn in Hk; congruence]. rewrite Hd. cbn [mbind option_bind].
    destruct (get_tone_ceff _), (get_tone_ceff _), (tone_loop _ _ _ _ _). by eexists _, _.
Qed.

(** C39: the speaker's frames are the cadences of the list, one after the other,
    or over and over when the script said so: each one is a single tone of its two
    frequencies without interruption, its time rounded up to frames of 10 ms, and
    then silence; the generator starts anew when the frequencies change and goes
    on in phase when they do not.  No frame is lost or repeated, and every call
    writes the whole frame, inside its buffers.  This is for calls that refresh the
    tone, with a frame of 160 samples and the platform's EVENT_SAMPLES being 160, at
    a constant volume of 0 to 36; when no cadence is being played, [new] succeeds,
    and no cadence of the list is empty (less than a millisecond of both tone and
    silence); and when the generator has been initialised or will be: either a tone
    was played before, or the frequencies of the first cadence are not the ones the
    object holds, which are 0 and 0 at first.  (A first cadence of frequencies 0 and 0
    is made from an uninitialised generator, see [first_cadence_uninitialised].) *)
Theorem tones_play_schedule k s :
  cadNow s = None -> buf_ok s -> Forall (fun c => 0 < cadence_frames c)%nat (mToneList s) ->
  known (mToneList s) (sounding_of s) ->
  let cs := order (toneGen_INF s) k (mToneList s) in
  exists fs x s',
    hear_all vol cs (sounding_of s) = Some (fs, x) /\
    play value (sum_list (cadence_frames <$> cs)) s = Some (fs, s') /\
    cadNow s' = None /\ sounding_of s' = x /\
    (toneGen_INF s = false -> mToneList s' = drop k (mToneList s)).
Proof.
  revert s. induction k as [|k IH]; intros s Hn Hbuf Hpos Hk cs.
  { exists [], (sounding_of s), s. unfold cs. destruct (mToneList s); by split_and!. }
  unfold cs. clear cs. destruct (mToneList s) as [|c l] eqn:El.
  { exists [], (sounding_of s), s. rewrite El. by split_and!. }
  cbn [order fmap list_fmap sum_list hear_all]. apply Forall_cons in Hpos as [Hc Hl].
  destruct (hear_known c (sounding_of s) l Hk) as (fs & x & Eh & Hdec). rewrite Eh. cbn [mbind option_bind].
  destruct (cadence_plays c l s fs x Hn El Hbuf Hc Eh) as (s1 & E1 & Hn1 & <- & Hbuf1 & Hinf & El1).
  destruct (IH s1 Hn1 Hbuf1) as (gs & x' & s2 & Eh2 & E2 & Hn2 & Hx2 & Hrest).
  - rewrite El1. destruct (toneGen_INF s); [|done]. apply Forall_app. split; [done|by constructor].
  - destruct (mToneList s1); [done|]. by left.
  - rewrite Hinf, El1 in Eh2, E2. rewrite El1 in Hrest. exists (fs ++ gs), x', s2. rewrite Eh2, (play_app (cadence_frames c)), E1. cbn [mbind option_bind].
    rewrite E2. split_and!; try done. intros Hf. rewrite Hinf in Hrest. rewrite (Hrest Hf), Hf. done.
Qed.
End playing.
End tonegene.

(** ** Witness *)

(** Some coefficients, and the numbers of a text in decimal. *)
Definition some_ceff (f : Z) : Z * Z := (f, 2 * f).
Definition two_tones (inf : bool) : ToneGene :=
  mkTone [mkCadence 440 480 15 10; mkCadence 440 480 10 0; mkCadence 350 440 0 20] None [] [] 0 0 None inf false None.

Lemma tones_play_schedule_witness :
  exists fs s', play 160 16000 some_ceff 3 9 (two_tones true) = Some (fs, s') /\ cadNow s' = None.
Proof.
  destruct (tones_play_schedule 160 16000 some_ceff eq_refl 3 11427 ltac:(lia) eq_refl 4 (two_tones true))
    as (fs & x & s' & _ & E & Hn & _).
  - reflexivity.
  - exact I.
  - repeat constructor.
  - right. reflexivity.
  - exists fs, s'. split; [exact E|exact Hn].
Defined.

(** ** Where it goes wrong *)

Definition digits (s : list Z) : Z := foldl (fun a c => 10 * a + (c - 48)) 0 s.
Definition part (sep : Z) (s : list Z) : Z * list Z :=
  let '(t, r) := strsep sep s in (digits t, default [] r).
Definition numbers (s : list Z) : Z * Z * Z * Z :=
  let '(a, s) := part 47 s in let '(b, s) := part 47 s in let '(c, s) := part 43 s in (a, b, c, digits s).
Abbreviation script := (setToneScript digits numbers).

(** "0(200/200/440+480)" and "10(200/200/440+480)". *)
Definition endless : list Z := [48; 40; 50; 48; 48; 47; 50; 48; 48; 47; 52; 52; 48; 43; 52; 56; 48; 41].
Definition ten_seconds : list Z := 49 :: endless.

Lemma script_read :
  script endless new_tone = Some (NO_ERROR, mkTone [mkCadence 440 480 200 200] None [] [] 0 0 None true false None).
Proof. vm_compute. reflexivity. Qed.

(** The number of repetitions is the time in seconds divided by milliseconds:
    ten seconds of a tone of 400 ms are none. *)
Lemma seconds_by_milliseconds : fmap (fun r => mToneList r.2) (script ten_seconds new_tone) = Some [].
Proof. vm_compute. reflexivity. Qed.

(** "800(200/200/440+480)": after an endless script a finite one is endless
    too. *)
Lemma finite_after_endless :
  ('(_, s) ← script endless new_tone; '(_, s) ← script (56 :: 48 :: endless) s;
   Some (length (mToneList s), toneGen_INF s)) = Some (2%nat, true).
Proof. vm_compute. reflexivity. Qed.

(** Of a script with several loops the last one is left. *)
Lemma last_loop_left :
  ('(_, s) ← script ([56; 48] ++ endless ++ [59; 52; 48] ++ endless) new_tone; Some (length (mToneList s))) = Some 1%nat.
Proof. vm_compute. reflexivity. Qed.

(** A loop of 256 characters is written behind the array for it. *)
Lemma strsep_none sep s : sep ∉ s -> strsep sep s = (s, None).
Proof.
  induction s as [|c s IH]; intros Hs; cbn [strsep]; [done|]. rewrite (proj2 (Z.eqb_neq c sep)) by set_solver.
  by rewrite IH by set_solver.
Qed.

Lemma long_loop_overruns t : 41 ∉ t -> 256 <= Z.of_nat (length t) -> scan_loop (48 :: 40 :: t) = None.
Proof.
  intros Ht Hl. unfold scan_loop. change (strsep 40 (48 :: 40 :: t)) with ([48], Some t). cbn [length]. cbv beta iota zeta.
  unfold scan_until. rewrite strsep_none by done. cbn [fst]. by rewrite (proj2 (Z.ltb_ge _ 256)), andb_false_r by lia.
Qed.

(** A first cadence without frequencies leaves the generator uninitialised, and
    its tone is made from that; a cadence without time repeats the frame
    before it. *)
Lemma first_cadence_uninitialised on_ :
  0 < on_ ->
  updateFrame 160 16000 some_ceff true (Some (replicate 160 0)) 160 3 true
    (mkTone [mkCadence 0 0 on_ 10] None [] [] 0 0 None false false None) = None.
Proof.
  intros Hon. unfold updateFrame. change (_ || _) with false. cbv iota zeta. cbn [cadNow mToneList].
  unfold load_cadence, refresh_frame. cbn. by rewrite (proj2 (Z.ltb_lt 0 on_)).
Qed.

Lemma empty_cadence_repeats buf :
  length buf = 160%nat ->
  exists s', updateFrame 160 16000 some_ceff true (Some (replicate 160 0)) 160 3 true
    (mkTone [] (Some (mkCadence 440 480 0 0)) [440; 480] [880; 960] 440 480 None false false (Some buf)) = Some (NO_ERROR, Some buf, s').
Proof.
  intros Hl. eexists.
  eapply (frame_of 160 16000 some_ceff eq_refl 3 ltac:(lia)); [reflexivity|reflexivity|reflexivity|exact Hl].
Qed.

(** Without a key no frame is made, and what is copied was never written; with a
    wrong key after a good one the frame before it is sent again. *)
Lemma no_key_uninitialised :
  dtmf_updateFrame 4 8000 (Some [0; 0; 0; 0]) 4 10 0 (new_dtmf 4) = None.
Proof. vm_compute. reflexivity. Qed.

Lemma wrong_key_repeats :
  ('(_, f, s) ← dtmf_updateFrame 4 8000 (Some [0; 0; 0; 0]) 4 10 0 (SetDtmf 53 (new_dtmf 4)).2;
   '(e, g, _) ← dtmf_updateFrame 4 8000 (Some [0; 0; 0; 0]) 4 10 0 (SetDtmf 120 s).2;
   Some (e, bool_decide (f = g), bool_decide (f = Some [0; 0; 0; 0]))) = Some (NO_ERROR, true, false).
Proof. vm_compute. reflexivity. Qed.
